(* ===== verification/_CoqProject ===== *)
-Q . S2P
Prelude.v
Encoding.v
Error.v
Types.v
Cmp.v
Iterator.v
KeyTypes.v
Io.v
Env.v
BufWriter.v
MemEnv.v
DiskEnv.v
Log.v
SkipMap.v
MemTable.v
WriteBatch.v
Filter.v
FilterBlock.v
Options.v
BlockBuilder.v
Block.v
Cache.v
TableBuilder.v
Table.v
TableFile.v
TableRead.v
TableCache.v
Version.v
VersionRead.v
VersionEdit.v
Snapshot.v
MergingIter.v
DbIter.v
VersionSet.v
Builder.v
Manifest.v
Recover.v
Tables.v
Pick.v
DbImpl.v
Wal.v
Iterate.v
Compact.v
Open.v
Flush.v
Switch.v
Read.v
Move.v
AsyncDb.v
