(* ===== verification/Prelude.v ===== *)
(** * A verification of leveldb-rs

    leveldb-rs is a library that stores an ordered map from byte strings to byte strings in
    the files of a directory.  This development models the crate [src/src/] definition by
    definition and proves the properties its parts rely on.

    ** The program and the files that model it

    A write goes to a log and to an in-memory table; a full memtable becomes a table file; a
    version says which table files there are on which level; edits of the version are
    recorded in a manifest; compactions merge table files; a read looks into the memtable
    and then into the files.  Bottom up:

    - [Prelude]: outcomes of code ([exec]: a value, a panic, or no fuel), Rust results,
      machine integers, slices, shared list lemmas.  [Encoding]: the crates [integer-encoding] and
      [crc] as classes with their documented laws ([IntegerEncodingLaws], [Crc32Laws]) and an
      instance ([Reference]) with which witnesses are evaluated.
    - [Error] ([error.rs]); [Types] ([types.rs] and the file names of the other modules);
      [Cmp] ([cmp.rs]); [KeyTypes] ([key_types.rs], with the internal-key comparators);
      [Iterator] (the trait [LdbIterator], its contract as a class, [test_util.rs]).
    - [Io]: [Read] and [Write] as classes, with laws for reliable sinks and sources;
      [Env] ([env.rs]: the trait as a class, [EnvLaws] as the contract of a file system);
      [BufWriter] (the Standard Library's buffered writer over a file of an environment);
      [MemEnv] ([mem_env.rs], which discharges [EnvLaws]); [DiskEnv] ([disk_env.rs] over what
      [std::fs] does on Unix, [env_common.rs]).
    - [Log] ([log.rs]): writer and reader of record logs.
    - [SkipMap] ([skipmap.rs], pointers in an explicit heap); [MemTable] ([memtable.rs]);
      [WriteBatch] ([write_batch.rs]).
    - [Filter] ([filter.rs]); [FilterBlock] ([filter_block.rs]); [Options] ([options.rs],
      [compressor.rs]); [BlockBuilder] ([block_builder.rs]); [Block] ([block.rs]); [Cache]
      ([cache.rs], pointers in an explicit heap); [TableBuilder] ([table_builder.rs],
      [blockhandle.rs]); [Table] ([table_reader.rs], [table_block.rs]); [TableFile] and
      [TableRead]: what a finished table file holds and that reading returns it; [TableCache]
      ([table_cache.rs]).
    - [Version] ([version.rs]) and [VersionRead] (lookups and iterators over its files);
      [VersionEdit] ([version_edit.rs]); [Snapshot] ([snapshot.rs]); [MergingIter]
      ([merging_iter.rs]); [DbIter] ([db_iter.rs]).
    - [VersionSet] ([version_set.rs]): compactions, the builder of versions, the manifest,
      recovery.  [Builder]: an edit as an update of a finite map of files, and that applying
      it yields a version with these files.  [Manifest]: what the manifest on disk says;
      [Recover]: that a new version set reads it back.  [Tables]: the version as a map of
      files, and a table that is added to it.  [Pick]: which files a compaction takes
      ([pick_compaction], [compact_range], [setup_other_inputs]).
    - [DbImpl] ([db_impl.rs]): the database object, with opening, recovery of logs, writes,
      reads, iterators, snapshots and compactions.  [Wal]: a database as the list of its
      batches, what writes add to it and reads find in it, and the replay of its log.
      [Iterate]: what the iterators of a database show.  [Compact]: which entries a compaction
      may drop.  [Open]: what a directory holds, and
      that [DB::open], [DB::close] and crashes lead from one to the other.  [Flush]: how a
      memtable becomes a table file ([build_table], [write_l0_table], [compact_memtable]);
      [Switch]: how a full memtable makes room ([make_room_for_write]) and what is found when
      the database is opened after that; [Read]: how [get] finds what was flushed; [Move]: a
      compaction that only moves a table one level down.  [AsyncDb] ([asyncdb.rs]): the
      server that runs a database for clients, and its service.

    ** How code becomes definitions

    Code that can panic or loop returns [exec]; fallible code returns [Result] inside; state is
    passed explicitly.  What several objects share ([Rc<RefCell<_>>], raw pointers) is a
    location in a store that is passed along: the heaps of [SkipMap] and [Cache], the buffers
    of [MemEnv], the block cache and table cache ([TableCache.Storage]), file metadata and
    versions ([VersionSet.World]).  Iterators that share such a state have it next to them
    ([Iterator.SharedIterator]); a memtable iterator holds the memtable as it was when the
    iterator was made, and [SkipMap] shows that later insertions leave its position in place.  A [w]-bit integer is a [Z]; checked operations panic
    as a debug build does, [wrap] is written where the code wraps.  Floating point is the
    Standard Library's specification of IEEE arithmetic.

    Loops that are not structural take fuel.  Every theorem about such an operation states
    that it returns; where the fuel is an argument, the statement says how much is enough (a
    function of the length of the data), and otherwise the definition computes it (for
    instance [descent_fuel] from the size of the skip map's heap, [bi_fuel] from the length of
    a block).

    ** What is shown

    - Storage formats: records, keys, batches, edits, blocks, filters and tables are read back
      as they were written; corruption is detected where a checksum covers it.
    - Data structures: the skip map refines a sorted list, the LRU cache a list ordered by last
      use (but for removals of its last element and insertions of a key that it has);
      insertions leave iterators in place; snapshots are exactly the live ones.
    - Iterators: going forwards, every iterator refines the sorted sequence it stands for
      (memtable, block, table, level, merge, database view).  Seeking in tables and levels is
      shown for keys outside the gaps before separators, going backwards for blocks, tables and
      levels.  The iterator of a database ([Iterate]) is shown for one that has its data in the
      memtable, with any random generator whose draws add up ([makes_up]).
    - Lookups: the memtable returns the newest visible entry; tables, table cache and version
      return the first entry not below the key, for keys that [Table::get] finds.
    - Versions: binary search, overlap computation, the choice of levels, the statistics; what
      edits do to the files of a version, and that manifest and version agree.  A compaction
      is chosen when the version asks for one, and takes all files of the next level that
      overlap its inputs; one that moves a table is made and logged.
    - Databases: a new directory is opened as an empty database; a write with [sync] is there
      again after a crash and a reopening, behind all earlier ones; snapshots read the past (all
      of this for databases without tables whose batches fit in the memtable); the decisions of
      a compaction keep what a reader from its [smallest_seq] on can see, which is not always
      what a live snapshot can see; a database is opened once at a time; exactly the obsolete
      files are deleted, and exactly the obsolete tables leave the table cache.  A full memtable becomes a table with exactly
      its entries, the log in use and the tables are recorded in the manifest, and a crash
      after that leaves a directory from which [open] brings up all tables and the new log
      ([Flush], [Switch]: for databases with any tables, up to the compaction of the version
      that may follow).  What [get] answers is shown for databases whose data is in memtable
      and log, and for one whose full memtable became its only table, of less than 8 MiB
      ([Read]: [make_room_for_write] and the [open] that follows return, and [get] finds what
      was written before the flush, with the limits that the separators of [Table::get] set,
      which [default_findable] spells out for the default comparator); for versions of more
      tables, what they hold and how they are searched is shown separately.  The work of a
      compaction that merges tables ([do_compaction_work]) is modelled, but of it only the
      choice of the inputs and of the entries that are kept is proved.  The asynchronous service
      over a database is a history of batches with views into its past, as long as they stay in
      the memtable.
    - File systems: [MemEnv] refines a map from paths to contents and lock flags and discharges
      the contract the other parts are proved against (files, directories, locks).  [DiskEnv] does
      not truncate files it opens for writing, which the contract asks for; what it does is
      shown by itself.

    Theorems that are not about intended behaviour show where the code departs from it: the
    names end in [_panics], [_misses_last], [_overshoots] and the like.

    ** Not modelled

    - [infolog.rs], and what system calls do beyond names, contents and positions of files:
      permissions, full disks, links, the order in which writes reach the disk.
    - The channels of tokio: which messages the server of [asyncdb.rs] receives, and what
      sending and awaiting return to its clients, are arguments.
    - Messages to the information log, the borrow flags of [RefCell], [Drop] of the skip map
      and debug printing.
    - The benchmarks and the example programs.
    - The clock, [Path::canonicalize] and the text of messages are parameters.

    This file holds the definitions and lemmas all others share. *)

From stdpp Require Export base tactics option list numbers gmap strings sorting.
From Stdlib Require Export ZArith Lia.

#[global] Open Scope Z_scope.

Declare Scope ldb_scope.
Delimit Scope ldb_scope with ldb.
#[global] Open Scope ldb_scope.

(** ** Machine integers and bytes

    A [w]-bit unsigned integer is a [Z]; [wrap w] is what the [as uW] casts and the
    [wrapping_*] operations do.  A [u8] is a [Z]; [is_byte] is its range.  [usize] is 64
    bits wide. *)

Abbreviation byte := Z (only parsing).
Abbreviation bytes := (list Z) (only parsing).
Abbreviation zlen l := (Z.of_nat (length l)) (only parsing).

Definition wrap (w x : Z) : Z := x mod 2 ^ w.
Definition u64_max : Z := 2 ^ 64 - 1.
Definition is_u (w x : Z) : Prop := 0 ≤ x < 2 ^ w.
Definition is_byte (b : byte) : Prop := 0 ≤ b < 256.
Abbreviation is_bytes := (Forall is_byte) (only parsing).

#[export] Instance is_u_dec w x : Decision (is_u w x).
Proof. unfold is_u. apply _. Defined.
#[export] Instance is_byte_dec b : Decision (is_byte b).
Proof. unfold is_byte. apply _. Defined.

(** ** Executions

    [exec A] is the outcome of a piece of Rust code: a value, a panic (a failed [assert!],
    an out-of-range index or slice, [unwrap] of [None], overflow of checked arithmetic),
    or the model running out of loop fuel.  The fuel outcome is never a behaviour of the
    code: the theorems show that the fuel chosen suffices. *)

Inductive exec (A : Type) : Type :=
  | Ret (a : A)
  | Panic
  | NoFuel.
Arguments Ret {A} a.
Arguments Panic {A}.
Arguments NoFuel {A}.

#[export] Instance exec_ret : MRet exec := @Ret.
#[export] Instance exec_bind : MBind exec := λ A B f m,
  match m with Ret a => f a | Panic => Panic | NoFuel => NoFuel end.
#[export] Instance exec_fmap : FMap exec := λ A B f m,
  match m with Ret a => Ret (f a) | Panic => Panic | NoFuel => NoFuel end.

(** Rust's [Result<A, E>]; [x ←? m; k] is [let x = m?; k]. *)
Inductive result (E A : Type) : Type :=
  | Ok (a : A)
  | Err (e : E).
Arguments Ok {E A} a.
Arguments Err {E A} e.

Definition rbind {E A B} (f : A → exec (result E B)) (m : exec (result E A))
  : exec (result E B) :=
  r ← m;
  match r with Ok a => f a | Err e => Ret (Err e) end.

Notation "x ←? y ; z" := (rbind (λ x, z) y)
  (at level 20, y at level 100, z at level 200, only parsing) : ldb_scope.
Notation "' x ←? y ; z" := (rbind (λ x, z) y)
  (at level 20, x pattern, y at level 100, z at level 200, only parsing) : ldb_scope.

(** [let x = self.f()?; k] where [f] changes the state [s] and may return early. *)
Definition sbind {S E A B} (m : exec (S * result E A)) (f : S → A → exec (S * result E B))
  : exec (S * result E B) :=
  '(s, r) ← m;
  match r with Ok a => f s a | Err e => Ret (s, Err e) end.
Notation "'let?' s , x := m 'in' k" := (sbind m (λ s x, k))
  (at level 200, s pattern, x pattern, m at level 100, k at level 200, only parsing) : ldb_scope.

Definition is_ok {E A} (r : result E A) : bool :=
  match r with Ok _ => true | Err _ => false end.

(** [assert!(b)], [o.unwrap()], and checked [usize]/[uW] arithmetic. *)
Definition massert (b : bool) : exec unit := if b then Ret () else Panic.
Definition unwrap {A} (o : option A) : exec A :=
  match o with Some a => Ret a | None => Panic end.
Definition usub (a b : Z) : exec Z := if a <? b then Panic else Ret (a - b).
Definition uadd (w a b : Z) : exec Z := if a + b <? 2 ^ w then Ret (a + b) else Panic.
Definition umul (w a b : Z) : exec Z := if a * b <? 2 ^ w then Ret (a * b) else Panic.

(** [&l[a..b]], [&l[a..]], [&l[..b]], [l[i]] and [l[i] = x]; each panics out of range. *)
Definition slice {A} (l : list A) (a b : Z) : exec (list A) :=
  if (0 <=? a) && (a <=? b) && (b <=? zlen l)
  then Ret (take (Z.to_nat (b - a)) (drop (Z.to_nat a) l)) else Panic.
Definition slice_from {A} (l : list A) (a : Z) : exec (list A) := slice l a (zlen l).
Definition index {A} (l : list A) (i : Z) : exec A :=
  if 0 <=? i then unwrap (l !! Z.to_nat i) else Panic.
Definition set_index {A} (l : list A) (i : Z) (x : A) : exec (list A) :=
  if (0 <=? i) && (i <? zlen l) then Ret (<[Z.to_nat i := x]> l) else Panic.

(** [dst[a..b].copy_from_slice(src)] where [b = a + src.len()]. *)
Definition splice {A} (l : list A) (a : Z) (src : list A) : exec (list A) :=
  if (0 <=? a) && (a + zlen src <=? zlen l)
  then Ret (take (Z.to_nat a) l ++ src ++ drop (Z.to_nat (a + zlen src)) l) else Panic.

(** [Vec::truncate], [Vec::resize]. *)
Definition vec_truncate {A} (n : Z) (l : list A) : list A := take (Z.to_nat n) l.
Definition vec_resize {A} (n : Z) (x : A) (l : list A) : list A :=
  take (Z.to_nat n) l ++ replicate (Z.to_nat n - length l) x.

(** [s.as_bytes()]; the characters of the model's strings are bytes. *)
Fixpoint string_bytes (s : string) : bytes :=
  match s with
  | EmptyString => []
  | String a s => Z.of_N (Ascii.N_of_ascii a) :: string_bytes s
  end.
Fixpoint bytes_string (bs : bytes) : string :=
  match bs with
  | [] => EmptyString
  | b :: bs => String (Ascii.ascii_of_N (Z.to_N b)) (bytes_string bs)
  end.

(** [for x in l { .. }] with the loop-carried state explicit. *)
Fixpoint mfoldl {A B} (f : B → A → exec B) (b : B) (l : list A) : exec B :=
  match l with
  | [] => Ret b
  | x :: l' => b' ← f b x; mfoldl f b' l'
  end.

(** [v.sort_by(cmp)]: the stable sort of the standard library. *)
Fixpoint insert_by {A} (cmp : A → A → exec comparison) (x : A) (l : list A)
  : exec (list A) :=
  match l with
  | [] => Ret [x]
  | y :: l' =>
      c ← cmp x y;
      match c with
      | Gt => r ← insert_by cmp x l'; Ret (y :: r)
      | _ => Ret (x :: l)
      end
  end.

Fixpoint sort_by {A} (cmp : A → A → exec comparison) (l : list A) : exec (list A) :=
  match l with
  | [] => Ret []
  | x :: l' => r ← sort_by cmp l'; insert_by cmp x r
  end.

(** ** Hint databases and tactics *)

Create HintDb ldb discriminated.
Create Rewrite HintDb ldb.

(** Splits a hypothesis [(x ← m; k) = Ret r] into the outcome of [m] and the rest. *)
Lemma bind_Ret_inv {A B} (f : A → exec B) m b :
  (m ≫= f) = Ret b → ∃ a, m = Ret a ∧ f a = Ret b.
Proof. destruct m; simpl; [eauto | discriminate..]. Qed.

Lemma bind_Ret {A B} (f : A → exec B) a : (Ret a ≫= f) = f a.
Proof. reflexivity. Qed.

Lemma sbind_Ok {S E A B} (f : S → A → exec (S * result E B)) s a : sbind (Ret (s, Ok a)) f = f s a.
Proof. done. Qed.
Lemma sbind_Err {S E A B} (f : S → A → exec (S * result E B)) s e : sbind (Ret (s, Err e)) f = Ret (s, Err e).
Proof. done. Qed.

Lemma bind_assoc {A B C} (m : exec A) (f : A → exec B) (g : B → exec C) :
  ((m ≫= f) ≫= g) = (m ≫= λ a, f a ≫= g).
Proof. by destruct m. Qed.

Lemma wrap_small w x : 0 ≤ x < 2 ^ w → wrap w x = x.
Proof. apply Z.mod_small. Qed.

Lemma uadd_Ret w a b : a + b < 2 ^ w → uadd w a b = Ret (a + b).
Proof. intros. unfold uadd. by rewrite (proj2 (Z.ltb_lt (a + b) (2 ^ w))). Qed.

Lemma usub_Ret a b : b ≤ a → usub a b = Ret (a - b).
Proof. intros. unfold usub. by rewrite (proj2 (Z.ltb_ge a b)). Qed.

Lemma rbind_Ok {E A B} (f : A → exec (result E B)) a : rbind f (Ret (Ok a)) = f a.
Proof. reflexivity. Qed.

Lemma rbind_Err {E A B} (f : A → exec (result E B)) e : rbind f (Ret (Err e)) = Ret (Err e).
Proof. reflexivity. Qed.

Lemma rbind_Ok_inv {E A B} (f : A → exec (result E B)) m b :
  rbind f m = Ret (Ok b) → ∃ a, m = Ret (Ok a) ∧ f a = Ret (Ok b).
Proof. destruct m as [[a|e]| |]; cbn; [eauto|discriminate..]. Qed.

Lemma rbind_fuel {E A B} (f : A → exec (result E B)) m :
  m ≠ NoFuel → (∀ a, m = Ret (Ok a) → f a ≠ NoFuel) → rbind f m ≠ NoFuel.
Proof. destruct m as [[a|e]| |]; cbn; auto. Qed.

#[export] Hint Rewrite @bind_Ret @rbind_Ok @rbind_Err : ldb.

Ltac exec_inv H :=
  let a := fresh "r" in let H1 := fresh "Hm" in let H2 := fresh "Hk" in
  apply bind_Ret_inv in H as (a & H1 & H2).

Ltac exec_invs := repeat match goal with H : (_ ≫= _) = Ret _ |- _ => exec_inv H end.

(** Decides the boolean tests on [Z] in the goal with [lia]. *)
Ltac ztest :=
  repeat match goal with
  | |- context [?a <? ?b] =>
      first [ rewrite (proj2 (Z.ltb_lt a b)) by lia | rewrite (proj2 (Z.ltb_ge a b)) by lia ]
  | |- context [?a <=? ?b] =>
      first [ rewrite (proj2 (Z.leb_le a b)) by lia | rewrite (proj2 (Z.leb_gt a b)) by lia ]
  | |- context [?a =? ?b] =>
      first [ rewrite (proj2 (Z.eqb_eq a b)) by lia | rewrite (proj2 (Z.eqb_neq a b)) by lia ]
  end; cbn [andb orb negb].

(** Runs the tests and binds of an execution whose conditions [lia] decides. *)
Ltac exec_run :=
  unfold usub, uadd in *;
  repeat (progress (ztest; cbn [mbind exec_bind unwrap massert mret exec_ret])).

(** Proves a closed decidable goal by evaluation. *)
Ltac by_decide := apply (bool_decide_unpack _); vm_compute; exact I.

(** ** Lists and slices *)

Section lists.
Context {A : Type}.
Implicit Types l p m s : list A.

Lemma slice_spec l a b :
  0 ≤ a ≤ b → b ≤ zlen l →
  slice l a b = Ret (take (Z.to_nat (b - a)) (drop (Z.to_nat a) l)).
Proof. intros. unfold slice. by ztest. Qed.

Lemma slice_inv l a b r :
  slice l a b = Ret r → 0 ≤ a ≤ b ∧ b ≤ zlen l ∧ zlen r = b - a
  ∧ r = take (Z.to_nat (b - a)) (drop (Z.to_nat a) l).
Proof.
  unfold slice. destruct (_ && _) eqn:E; [|discriminate]. intros [= <-].
  rewrite !andb_true_iff, !Z.leb_le in E. rewrite length_take, length_drop. split_and!; lia || done.
Qed.

Lemma slice_app p m s a b :
  a = zlen p → b = zlen p + zlen m → slice (p ++ m ++ s) a b = Ret m.
Proof.
  intros -> ->. rewrite slice_spec by (rewrite ?length_app; lia).
  f_equal. rewrite Nat2Z.id, drop_app_length.
  replace (Z.to_nat (zlen p + zlen m - zlen p)) with (length m) by lia.
  apply take_app_length.
Qed.

Lemma slice_from_app p s a : a = zlen p → slice_from (p ++ s) a = Ret s.
Proof.
  intros ->. unfold slice_from. rewrite <- (app_nil_r s) at 1.
  apply slice_app; rewrite ?length_app; lia.
Qed.

Lemma slice_to_app p s b : b = zlen p → slice (p ++ s) 0 b = Ret p.
Proof. intros ->. apply (slice_app [] p s); simpl; lia. Qed.

Lemma slice_app_end p m a b :
  a = zlen p → b = zlen p + zlen m → slice (p ++ m) a b = Ret m.
Proof. intros. rewrite <- (app_nil_r m) at 1. by apply slice_app. Qed.

Lemma slice_all l b : b = zlen l → slice l 0 b = Ret l.
Proof. intros ->. rewrite <- (app_nil_r l) at 1. by apply slice_to_app. Qed.

Lemma index_app p x s i : i = zlen p → index (p ++ x :: s) i = Ret x.
Proof.
  intros ->. unfold index. ztest. rewrite Nat2Z.id.
  by rewrite lookup_app_r, Nat.sub_diag by lia.
Qed.

Lemma index_lookup l i x : l !! i = Some x → index l (Z.of_nat i) = Ret x.
Proof. intros H. unfold index. ztest. by rewrite Nat2Z.id, H. Qed.

Lemma index_Z l i x : 0 ≤ i → l !! Z.to_nat i = Some x → index l i = Ret x.
Proof. intros Hi H. unfold index. ztest. by rewrite H. Qed.

Lemma set_index_lookup l i x y : l !! i = Some y → set_index l (Z.of_nat i) x = Ret (<[i := x]> l).
Proof. intros H%lookup_lt_Some. unfold set_index. ztest. by rewrite Nat2Z.id. Qed.

Lemma index_inv l i x :
  index l i = Ret x → 0 ≤ i < zlen l ∧ l !! Z.to_nat i = Some x.
Proof.
  unfold index. destruct (0 <=? i) eqn:E; [|discriminate]. apply Z.leb_le in E.
  destruct (l !! Z.to_nat i) eqn:Hl; [|discriminate]. intros [= ->].
  apply lookup_lt_Some in Hl as ?. split; [lia|done].
Qed.

Lemma splice_app p m s src a :
  a = zlen p → length src = length m → splice (p ++ m ++ s) a src = Ret (p ++ src ++ s).
Proof.
  intros -> Hl. unfold splice. rewrite !length_app. ztest.
  rewrite Nat2Z.id, take_app_length. do 3 f_equal.
  replace (Z.to_nat (zlen p + zlen src)) with (length (p ++ m)) by (rewrite length_app; lia).
  by rewrite app_assoc, drop_app_length.
Qed.

Lemma splice_front m s src : length src = length m → splice (m ++ s) 0 src = Ret (src ++ s).
Proof. by apply (splice_app [] m s src 0). Qed.

Lemma vec_resize_nil (n : Z) (x : A) : vec_resize n x [] = replicate (Z.to_nat n) x.
Proof. unfold vec_resize. rewrite take_nil. simpl. by rewrite Nat.sub_0_r. Qed.

End lists.

#[export] Hint Rewrite @length_app @length_take @length_drop @length_replicate @length_insert
  @length_cons : ldb.

Ltac zlens := autorewrite with ldb in *; simpl in *; try lia.

Lemma mfoldl_app {A B} (f : B → A → exec B) b l1 l2 :
  mfoldl f b (l1 ++ l2) = (b' ← mfoldl f b l1; mfoldl f b' l2).
Proof.
  revert b. induction l1 as [|x l1 IH]; intros b; [done|]. simpl.
  destruct (f b x); simpl; auto.
Qed.

Lemma mfoldl_ret {A B} (g : B → A → B) b (l : list A) :
  mfoldl (λ b x, Ret (g b x)) b l = Ret (foldl g b l).
Proof. revert b. induction l as [|x l IH]; intros b; simpl; auto. Qed.

Lemma mfoldl_ext_in {A B} (f g : B → A → exec B) b (l : list A) :
  (∀ b x, x ∈ l → f b x = g b x) → mfoldl f b l = mfoldl g b l.
Proof.
  revert b. induction l as [|x l IH]; intros b Hfg; [done|]. simpl.
  rewrite Hfg by set_solver. destruct (g b x); simpl; auto.
  apply IH. set_solver.
Qed.

(** ** Bit operations *)

Lemma land_shift_0 n b a : 0 ≤ n → 0 ≤ a < 2 ^ n → Z.land (b * 2 ^ n) a = 0.
Proof.
  intros Hn Ha. apply Z.bits_inj'. intros i Hi. rewrite Z.land_spec, Z.bits_0.
  destruct (Z.lt_ge_cases i n) as [H|H].
  - by rewrite Z.mul_pow2_bits_low.
  - rewrite <- (Z.mod_small a (2 ^ n)) by done. rewrite Z.mod_pow2_bits_high by lia.
    apply andb_false_r.
Qed.

Lemma lor_shift_add n b a : 0 ≤ n → 0 ≤ a < 2 ^ n → Z.lor (b * 2 ^ n) a = b * 2 ^ n + a.
Proof.
  intros Hn Ha. rewrite <- Z.lxor_lor, <- Z.add_nocarry_lxor by (by apply land_shift_0). done.
Qed.

(** ** Sorted lists *)

Lemma sorted_lookup_lt {A} (R : relation A) l i j x y :
  StronglySorted R l → l !! i = Some x → l !! j = Some y → (i < j)%nat → R x y.
Proof.
  intros Hs Hi Hj Hij. rewrite <- (take_drop j l) in Hs.
  apply (StronglySorted_app_1_elem_of R _ _ x y Hs).
  - apply (list_elem_of_lookup_2 _ i). by rewrite lookup_take_lt.
  - apply (list_elem_of_lookup_2 _ 0). by rewrite lookup_drop, Nat.add_0_r.
Qed.

Lemma list_filter_all {A} (P : A → Prop) `{∀ x, Decision (P x)} l : Forall P l → filter P l = l.
Proof. induction 1 as [|x l Hx Hl IH]; [done|]. by rewrite filter_cons_True, IH. Qed.

Lemma NoDup_take {A} n (l : list A) : NoDup l → NoDup (take n l).
Proof. intros H. rewrite <- (take_drop n l) in H. by apply NoDup_app in H as [? _]. Qed.

Lemma bytes_string_bytes s : bytes_string (string_bytes s) = s.
Proof.
  induction s as [|a s IH]; simpl; [done|]. by rewrite IH, N2Z.id, Ascii.ascii_N_embedding.
Qed.

Lemma string_bytes_range s : is_bytes (string_bytes s).
Proof.
  induction s as [|a s IH]; simpl; constructor; [|done].
  pose proof (Ascii.N_ascii_bounded a). unfold is_byte. lia.
Qed.

Lemma elem_of_concat {A} (x : A) (Ls : list (list A)) : x ∈ concat Ls ↔ ∃ L, x ∈ L ∧ L ∈ Ls.
Proof. induction Ls as [|L Ls IH]; cbn; [set_solver|]. rewrite elem_of_app, IH. set_solver. Qed.

Lemma list_filter_iff' {A} (P Q : A → Prop) `{∀ x, Decision (P x), ∀ x, Decision (Q x)} (l : list A) :
  (∀ x, x ∈ l → (P x ↔ Q x)) → filter P l = filter Q l.
Proof.
  induction l as [|x l IH]; intros HPQ; [done|]. rewrite !filter_cons.
  rewrite (decide_ext (P x) (Q x)) by (apply HPQ; left). rewrite IH; [done|]. intros y Hy. apply HPQ. by right.
Qed.

Lemma sorted_snoc_le l (a b : Z) : StronglySorted Z.le (l ++ [a]) → a ≤ b → StronglySorted Z.le (l ++ [a; b]).
Proof.
  intros Hs Hab. change [a; b] with ([a] ++ [b]). rewrite app_assoc. apply StronglySorted_app. split_and!; [|done|by repeat constructor].
  intros x y Hx ->%list_elem_of_singleton. apply elem_of_app in Hx as [Hx| ->%list_elem_of_singleton]; [|done].
  apply StronglySorted_app in Hs as (H & _). specialize (H x a Hx ltac:(left)). lia.
Qed.

Lemma NoDup_fmap_eq {A B} (f : A → B) l x y : NoDup (f <$> l) → x ∈ l → y ∈ l → f x = f y → x = y.
Proof.
  intros Hnd (i & Hi)%list_elem_of_lookup (j & Hj)%list_elem_of_lookup E.
  assert (i = j) as ->; [|congruence]. eapply NoDup_lookup; [exact Hnd|..]; rewrite list_lookup_fmap, ?Hi, ?Hj; cbn; [done|by rewrite E].
Qed.

Lemma filter_length_le {A} (P Q : A → Prop) `{∀ x, Decision (P x), ∀ x, Decision (Q x)} (l : list A) :
  (∀ x, x ∈ l → P x → Q x) → (length (filter P l) ≤ length (filter Q l))%nat.
Proof.
  induction l as [|x l IH]; intros HPQ; [done|]. rewrite !filter_cons. specialize (IH (λ y Hy, HPQ y ltac:(by right))).
  destruct (decide (P x)) as [HP|]; [rewrite decide_True by (apply HPQ; [left|done])|destruct (decide (Q x))]; cbn; lia.
Qed.

Lemma filter_length_lt {A} (P Q : A → Prop) `{∀ x, Decision (P x), ∀ x, Decision (Q x)} (l : list A) x :
  (∀ y, y ∈ l → P y → Q y) → x ∈ l → Q x → ¬ P x → (length (filter P l) < length (filter Q l))%nat.
Proof.
  intros HPQ (l1 & l2 & ->)%list_elem_of_split HQ HP. rewrite !filter_app, !filter_cons, !length_app.
  rewrite (decide_False (P := P x)), (decide_True (P := Q x)) by done. cbn.
  pose proof (filter_length_le P Q l1 ltac:(set_solver)). pose proof (filter_length_le P Q l2 ltac:(set_solver)). lia.
Qed.

(** [sort_by(|a, b| g(b).cmp(g(a)))]: descending. *)
Lemma insert_by_desc {A} (g : A → Z) x l :
  StronglySorted (λ a b, g b ≤ g a) l →
  ∃ l', insert_by (λ a b, Ret (g b ?= g a)) x l = Ret l' ∧ l' ≡ₚ x :: l ∧ StronglySorted (λ a b, g b ≤ g a) l'.
Proof.
  induction 1 as [|y l Hs IH Hy]; cbn [insert_by]; [exists [x]; split_and!; [done..|]; repeat constructor|]. rewrite bind_Ret.
  destruct (Z.compare_spec (g y) (g x)) as [E|E|E].
  1,2: exists (x :: y :: l); split_and!; [done..|]; constructor; [by constructor|]; constructor; [lia|]; eapply Forall_impl; [exact Hy|cbn; lia].
  destruct IH as (l' & -> & HP & Hs'). rewrite bind_Ret. exists (y :: l'). split_and!; [done|by rewrite HP; constructor|].
  constructor; [done|]. rewrite HP. constructor; [lia|done].
Qed.

Lemma sort_by_desc {A} (g : A → Z) l :
  ∃ l', sort_by (λ a b, Ret (g b ?= g a)) l = Ret l' ∧ l' ≡ₚ l ∧ StronglySorted (λ a b, g b ≤ g a) l'.
Proof.
  induction l as [|x l (l1 & E1 & P1 & S1)]; cbn [sort_by]; [exists []; split_and!; [done..|constructor]|]. rewrite E1, bind_Ret.
  destruct (insert_by_desc g x l1 S1) as (l2 & -> & P2 & S2). exists l2. split_and!; [done|by rewrite P2, P1|done].
Qed.

Lemma sorted_filter {A} (R : A → A → Prop) (P : A → Prop) `{∀ x, Decision (P x)} l : StronglySorted R l → StronglySorted R (filter P l).
Proof.
  induction 1 as [|x l Hs IH Hx]; [constructor|]. rewrite filter_cons. case_decide; [|done]. constructor; [done|].
  rewrite Forall_forall in Hx |- *. intros y [_ Hy]%list_elem_of_filter. by apply Hx.
Qed.
