(* ===== verification/Encoding.v ===== *)
(** * Encoding: the crates [integer-encoding] and [crc]

    Both crates are outside the repository, so they enter the model as type classes:
    [IntegerEncoding] and [Crc32] hold the operations the code calls, and
    [IntegerEncodingLaws] and [Crc32Laws] the documented behaviour the code relies on
    (an encoded integer decodes to itself and to its own length, the size of a fixed-width
    integer, seven bits to a byte of a varint, the range of a decoded value).  [Module Reference] gives an instance of each
    (protobuf varints, little-endian fixed integers, bitwise CRC-32C), so that the
    hypotheses are satisfiable and witnesses can evaluate. *)

From S2P Require Import Prelude.

(** [T::required_space], [T::encode_var] (also [write_varint]), [T::decode_var] with [T] of
    the given width in bits, [read_varint::<T>] on a byte slice (value and unread rest),
    [encode_fixed] to the given number of bytes (also [write_fixedint]) and
    [T::decode_fixed] on a slice of exactly [size_of::<T>()] bytes. *)
Class IntegerEncoding := {
  required_space : Z → Z;
  encode_var : Z → bytes;
  decode_var : Z → bytes → option (Z * Z);
  read_varint : Z → bytes → option (Z * bytes);
  encode_fixed : Z → Z → bytes;
  decode_fixed : bytes → Z;
}.

Class IntegerEncodingLaws (IE : IntegerEncoding) : Prop := {
  decode_encode_var w n rest :
    w = 32 ∨ w = 64 → is_u w n →
    decode_var w (encode_var n ++ rest) = Some (n, zlen (encode_var n));
  read_encode_var w n rest :
    w = 32 ∨ w = 64 → is_u w n → read_varint w (encode_var n ++ rest) = Some (n, rest);
  read_varint_nil w : read_varint w [] = None;
  read_varint_rest w src n rest :
    read_varint w src = Some (n, rest) → is_u w n ∧ (length rest < length src)%nat;
  length_encode_var n : is_u 64 n → zlen (encode_var n) = required_space n;
  required_space_bound n : is_u 64 n → 1 ≤ required_space n ≤ 10;
  required_space_groups k n : 1 ≤ k ≤ 10 → 0 ≤ n < 2 ^ (7 * k) → required_space n ≤ k;
  decode_var_bounds w src n l :
    decode_var w src = Some (n, l) → is_u w n ∧ 1 ≤ l ≤ zlen src;
  encode_var_bytes n : is_u 64 n → is_bytes (encode_var n);
  length_encode_fixed k n : 0 ≤ k → zlen (encode_fixed k n) = k;
  encode_fixed_bytes k n : is_bytes (encode_fixed k n);
  decode_encode_fixed k n : 0 ≤ k → is_u (8 * k) n → decode_fixed (encode_fixed k n) = n;
  decode_fixed_zeros k : decode_fixed (replicate k 0) = 0;
  decode_fixed_bounds bs : is_bytes bs → is_u (8 * zlen bs) (decode_fixed bs);
}.

(** A [crc32::Digest] over the Castagnoli polynomial: [sum32] after writing the bytes. *)
Class Crc32 := { crc32 : bytes → Z }.

Class Crc32Laws (CR : Crc32) : Prop := { crc32_range bs : is_u 32 (crc32 bs) }.

Section laws.
Context `{IEL : IntegerEncodingLaws}.

Lemma decode_var_nil w : decode_var w [] = None.
Proof.
  destruct (decode_var w []) as [[n l]|] eqn:E; [|done].
  apply decode_var_bounds in E as [_ E]. simpl in E. lia.
Qed.

Lemma encode_var_pos n : is_u 64 n → 1 ≤ zlen (encode_var n).
Proof. intros H. rewrite length_encode_var by done. by apply required_space_bound. Qed.

Lemma decode_var_usize n rest :
  is_u 64 n → decode_var 64 (encode_var n ++ rest) = Some (n, zlen (encode_var n)).
Proof. apply decode_encode_var. by right. Qed.

Lemma read_varint_usize n rest :
  is_u 64 n → read_varint 64 (encode_var n ++ rest) = Some (n, rest).
Proof. apply read_encode_var. by right. Qed.

Lemma read_varint_u32 n rest :
  is_u 32 n → read_varint 32 (encode_var n ++ rest) = Some (n, rest).
Proof. apply read_encode_var. by left. Qed.

Lemma length_encode_fixed_nat k n : 0 ≤ k → length (encode_fixed k n) = Z.to_nat k.
Proof. intros H. pose proof (length_encode_fixed k n H). lia. Qed.

(** Arrays of fixed-width integers. *)
Definition fixed_array (k : Z) (l : list Z) : bytes := concat (encode_fixed k <$> l).

Lemma length_fixed_array k l : 0 ≤ k → zlen (fixed_array k l) = k * zlen l.
Proof.
  intros Hk. induction l as [|x l IH]; [unfold fixed_array; simpl; lia|].
  change (fixed_array k (x :: l)) with (encode_fixed k x ++ fixed_array k l).
  rewrite length_app, Nat2Z.inj_add, length_encode_fixed, IH by done. simpl length. lia.
Qed.

Lemma fixed_array_app k l l' : fixed_array k (l ++ l') = fixed_array k l ++ fixed_array k l'.
Proof. unfold fixed_array. by rewrite fmap_app, concat_app. Qed.

Lemma slice_fixed_array k p l s i x a b :
  0 ≤ k → l !! i = Some x → a = zlen p + k * Z.of_nat i → b = a + k →
  slice (p ++ fixed_array k l ++ s) a b = Ret (encode_fixed k x).
Proof.
  intros Hk Hi -> ->. pose proof (lookup_lt_Some _ _ _ Hi) as Hlt.
  rewrite <- (take_drop_middle l i x Hi), fixed_array_app, <- app_assoc, (app_assoc p).
  change (fixed_array k (x :: drop (S i) l)) with (encode_fixed k x ++ fixed_array k (drop (S i) l)).
  rewrite <- (app_assoc (encode_fixed k x)). apply slice_app; rewrite length_app, Nat2Z.inj_add, length_fixed_array by done.
  - rewrite length_take. lia.
  - rewrite length_encode_fixed, length_take by done. lia.
Qed.

End laws.

Module Reference.

(** Protobuf varints: seven bits per byte, least significant group first. *)
Fixpoint leb (fuel : nat) (n : Z) : bytes :=
  match fuel with
  | O => [n]
  | S fuel => if n <? 128 then [n] else (128 + n mod 128) :: leb fuel (n / 128)
  end.

Fixpoint unleb (fuel : nat) (src : bytes) : option (Z * Z) :=
  match fuel, src with
  | S fuel, b :: src =>
      if b <? 128 then Some (b, 1)
      else '(n, l) ← unleb fuel src; Some (b - 128 + 128 * n, l + 1)
  | _, _ => None
  end.

Definition unleb_w (w : Z) (src : bytes) : option (Z * Z) :=
  '(n, l) ← unleb 10 src; if (0 <=? n) && (n <? 2 ^ w) then Some (n, l) else None.

Fixpoint le_bytes (k : nat) (n : Z) : bytes :=
  match k with O => [] | S k => n mod 256 :: le_bytes k (n / 256) end.

Fixpoint le_val (bs : bytes) : Z :=
  match bs with [] => 0 | b :: bs => b + 256 * le_val bs end.

#[export] Instance ref_encoding : IntegerEncoding := {
  required_space n := zlen (leb 9 n);
  encode_var n := leb 9 n;
  decode_var := unleb_w;
  read_varint w src := '(n, l) ← unleb_w w src; Some (n, drop (Z.to_nat l) src);
  encode_fixed k n := le_bytes (Z.to_nat k) n;
  decode_fixed := le_val;
}.

Fixpoint crc_bits (k : nat) (c : Z) : Z :=
  match k with
  | O => c
  | S k => crc_bits k (if Z.odd c then Z.lxor (Z.shiftr c 1) 0x82F63B78 else Z.shiftr c 1)
  end.

#[export] Instance ref_crc : Crc32 := {
  crc32 bs := Z.lxor (foldl (λ c b, crc_bits 8 (Z.lxor c b)) 0xffffffff bs) 0xffffffff mod 2 ^ 32;
}.

Lemma leb_spec k fuel n rest :
  (k ≤ fuel)%nat → 0 ≤ n < 128 * 128 ^ Z.of_nat k →
  unleb (S fuel) (leb k n ++ rest) = Some (n, zlen (leb k n))
  ∧ is_bytes (leb k n) ∧ 1 ≤ zlen (leb k n) ≤ Z.of_nat k + 1.
Proof.
  revert fuel n. induction k as [|k IH]; intros fuel n Hk Hn.
  - simpl. ztest. split_and!; try done; try lia. constructor; [unfold is_byte; lia|done].
  - cbn [leb]. destruct (n <? 128) eqn:E.
    + apply Z.ltb_lt in E. simpl. ztest. split_and!; try done; try lia.
      constructor; [unfold is_byte; lia|done].
    + apply Z.ltb_ge in E. destruct fuel as [|fuel]; [lia|].
      rewrite Nat2Z.inj_succ, Z.pow_succ_r in Hn by lia.
      destruct (IH fuel (n / 128)) as (H1 & H2 & H3); [lia| |].
      { split; [apply Z.div_pos; lia|]. apply Z.div_lt_upper_bound; lia. }
      pose proof (Z.mod_pos_bound n 128 ltac:(lia)).
      cbn [app]. change (unleb (S (S fuel)) (?b :: ?s)) with
        (if b <? 128 then Some (b, 1)
         else '(n, l) ← unleb (S fuel) s; Some (b - 128 + 128 * n, l + 1)).
      ztest. rewrite H1. cbn [mbind option_bind]. split_and!.
      * f_equal. f_equal; [|cbn [length]; lia]. pose proof (Z.div_mod n 128). lia.
      * constructor; [unfold is_byte; lia|done].
      * cbn [length]. lia.
      * cbn [length]. lia.
Qed.

Lemma leb_length k fuel n : 0 ≤ n < 128 * 128 ^ Z.of_nat k → zlen (leb fuel n) ≤ Z.of_nat k + 1.
Proof.
  revert fuel n. induction k as [|k IH]; intros [|fuel] n Hn; cbn [leb]; [simpl; lia| |simpl; lia|].
  - destruct (Z.ltb_spec n 128); simpl; lia.
  - destruct (Z.ltb_spec n 128); [simpl; lia|]. cbn [length]. specialize (IH fuel (n / 128)).
    rewrite Nat2Z.inj_succ, Z.pow_succ_r in Hn by lia.
    enough (zlen (leb fuel (n / 128)) ≤ Z.of_nat k + 1) by lia. apply IH.
    split; [apply Z.div_pos; lia|]. apply Z.div_lt_upper_bound; lia.
Qed.

Lemma unleb_bounds fuel src n l : unleb fuel src = Some (n, l) → 1 ≤ l ≤ zlen src.
Proof.
  revert src n l. induction fuel as [|fuel IH]; intros [|b src] n l; try done. simpl.
  destruct (b <? 128); [intros [= <- <-]; lia|].
  destruct (unleb fuel src) as [[n' l']|] eqn:E; [|done]. simpl. intros [= <- <-].
  apply IH in E. lia.
Qed.

Lemma le_bytes_spec k n :
  length (le_bytes k n) = k ∧ is_bytes (le_bytes k n)
  ∧ (0 ≤ n < 256 ^ Z.of_nat k → le_val (le_bytes k n) = n).
Proof.
  revert n. induction k as [|k IH]; intros n.
  - simpl. split_and!; [done..|]. lia.
  - destruct (IH (n / 256)) as (H1 & H2 & H3). cbn [le_bytes le_val length]. split_and!.
    + lia.
    + constructor; [|done]. apply Z.mod_pos_bound. lia.
    + rewrite Nat2Z.inj_succ, Z.pow_succ_r by lia. intros Hn. rewrite H3.
      * pose proof (Z.div_mod n 256). lia.
      * split; [apply Z.div_pos; lia|]. apply Z.div_lt_upper_bound; lia.
Qed.

Lemma le_val_bounds bs : is_bytes bs → 0 ≤ le_val bs < 256 ^ zlen bs.
Proof.
  induction 1 as [|b bs Hb Hbs IH]; [simpl; lia|]. cbn [le_val length].
  rewrite Nat2Z.inj_succ, Z.pow_succ_r by lia. unfold is_byte in Hb. lia.
Qed.

Lemma pow_256 k : 0 ≤ k → 2 ^ (8 * k) = 256 ^ k.
Proof. intros. by rewrite Z.pow_mul_r by lia. Qed.

#[export] Instance ref_encoding_laws : IntegerEncodingLaws ref_encoding.
Proof.
  assert (Hleb : ∀ n rest, is_u 64 n →
    unleb 10 (leb 9 n ++ rest) = Some (n, zlen (leb 9 n))
    ∧ is_bytes (leb 9 n) ∧ 1 ≤ zlen (leb 9 n) ≤ 10).
  { intros n rest Hn. apply leb_spec; [lia|]. unfold is_u in Hn. lia. }
  assert (Hdec : ∀ w n rest, w = 32 ∨ w = 64 → is_u w n →
    unleb_w w (leb 9 n ++ rest) = Some (n, zlen (leb 9 n))).
  { intros w n rest Hw Hn.
    assert (is_u 64 n) by (destruct Hw; subst; unfold is_u in *; lia).
    destruct (Hleb n rest) as (H1 & _); [done|]. unfold unleb_w. rewrite H1. simpl.
    unfold is_u in Hn. by ztest. }
  split; cbn [required_space encode_var decode_var read_varint encode_fixed decode_fixed ref_encoding].
  - apply Hdec.
  - intros w n rest Hw Hn. rewrite Hdec by done. simpl. by rewrite Nat2Z.id, drop_app_length.
  - done.
  - intros w src n rest. unfold unleb_w. destruct (unleb 10 src) as [[n' l]|] eqn:E; [|done]. cbn [mbind option_bind].
    destruct (_ && _) eqn:E2; [|done]. cbn [mbind option_bind]. intros [= <- <-].
    rewrite andb_true_iff, Z.leb_le, Z.ltb_lt in E2. split; [done|]. apply unleb_bounds in E. rewrite length_drop. lia.
  - done.
  - intros n Hn. by apply (Hleb n []).
  - intros k n Hk Hn. pose proof (leb_length (Z.to_nat (k - 1)) 9 n) as H. rewrite Z2Nat.id in H by lia.
    enough (128 * 128 ^ (k - 1) = 2 ^ (7 * k)) by lia. rewrite Z.pow_mul_r by lia. change (2 ^ 7) with 128.
    rewrite <- Z.pow_succ_r by lia. f_equal. lia.
  - intros w src n l. unfold unleb_w.
    destruct (unleb 10 src) as [[n' l']|] eqn:E; [|done]. simpl.
    destruct (_ && _) eqn:E2; [|done]. intros [= <- <-].
    rewrite andb_true_iff, Z.leb_le, Z.ltb_lt in E2. split; [done|]. by eapply unleb_bounds.
  - intros n Hn. by apply (Hleb n []).
  - intros k n Hk. rewrite (proj1 (le_bytes_spec _ _)). lia.
  - intros k n. apply le_bytes_spec.
  - intros k n Hk Hn. apply le_bytes_spec. unfold is_u in Hn. rewrite pow_256 in Hn by lia.
    rewrite Z2Nat.id by lia. done.
  - intros k. induction k as [|k IH]; simpl in *; [done|]. by rewrite IH.
  - intros bs Hbs. unfold is_u. rewrite pow_256 by lia. by apply le_val_bounds.
Qed.

#[export] Instance ref_crc_laws : Crc32Laws ref_crc.
Proof. split. intros bs. apply Z.mod_pos_bound. done. Qed.

(** The check value of the CRC-32C polynomial that the repository's own test uses. *)
Example ref_crc_zeroes : crc32 (replicate 32 0) = 0x8a9136aa.
Proof. reflexivity. Qed.

End Reference.
