(* ===== verification/Error.v ===== *)
(** * Error: [src/error.rs]

    Status codes, statuses and the conversions into them.  The variant
    [StatusCode::Errno] exists only with the feature [fs] and is built only by
    [disk_env.rs]; it is left out. *)

From S2P Require Import Prelude.

Inductive StatusCode :=
  | OK
  | AlreadyExists
  | Corruption
  | CompressionError
  | IOError
  | InvalidArgument
  | InvalidData
  | LockError
  | NotFound
  | NotSupported
  | PermissionDenied
  | AsyncError
  | Unknown
  (** An error number, as its debug text. *)
  | Errno (e : string).

#[export] Instance StatusCode_eq_dec : EqDecision StatusCode.
Proof. solve_decision. Defined.

Record Status := mkStatus { code : StatusCode; err_msg : string }.

(** [#[derive(Debug)]] of a variant prints its name. *)
Definition debug_code (c : StatusCode) : string :=
  match c with
  | OK => "OK" | AlreadyExists => "AlreadyExists" | Corruption => "Corruption"
  | CompressionError => "CompressionError" | IOError => "IOError"
  | InvalidArgument => "InvalidArgument" | InvalidData => "InvalidData"
  | LockError => "LockError" | NotFound => "NotFound" | NotSupported => "NotSupported"
  | PermissionDenied => "PermissionDenied" | AsyncError => "AsyncError" | Unknown => "Unknown"
  | Errno e => ("Errno(" +:+ e +:+ ")")%string
  end.

Definition Status_default : Status := {| code := OK; err_msg := "" |}.

(** [Status::new] *)
Definition Status_new (c : StatusCode) (msg : string) : Status :=
  {| code := c;
     err_msg := if decide (msg = "") then debug_code c
                else (debug_code c +:+ ": " +:+ msg)%string |}.

(** [Status::annotate] *)
Definition annotate (s : Status) (msg : string) : Status :=
  {| code := code s; err_msg := (msg +:+ ": " +:+ err_msg s)%string |}.

(** [LevelDB's Result] and [err]. *)
Abbreviation Result A := (result Status A) (only parsing).
Definition err {A} (c : StatusCode) (msg : string) : Result A := Err (Status_new c msg).

(** The [io::ErrorKind]s that [From<io::Error>] distinguishes, with the others that the
    library's readers and file locks produce. *)
Inductive ErrorKind :=
  | KNotFound | KInvalidData | KInvalidInput | KPermissionDenied | KUnexpectedEof | KWouldBlock | KOther.

#[export] Instance ErrorKind_eq_dec : EqDecision ErrorKind.
Proof. solve_decision. Defined.

Record IoError := { kind : ErrorKind; io_msg : string }.

(** [impl From<io::Error> for Status] *)
Definition Status_from_io (e : IoError) : Status :=
  let c := match kind e with
           | KNotFound => NotFound
           | KInvalidData => Corruption
           | KInvalidInput => InvalidArgument
           | KPermissionDenied => PermissionDenied
           | _ => IOError
           end in
  Status_new c (io_msg e).

(** [impl From<sync::PoisonError<T>> for Status] *)
Definition Status_from_poison : Status := Status_new LockError "lock poisoned".

(** [impl From<snap::Error> for Status]: the message is not prefixed by the code. *)
Definition Status_from_snap (e : string) : Status :=
  {| code := CompressionError; err_msg := e |}.

Example status_to_string :
  err_msg (Status_new InvalidData "Invalid data!") = "InvalidData: Invalid data!"%string.
Proof. reflexivity. Qed.
