(* ===== verification/Types.v ===== *)
(** * Types: [src/types.rs]

    Constants, file metadata, file types, the [LdbIterator] trait with its default methods,
    and [parse_file_name].  The names the other modules give to files
    ([table_file_name], [log_file_name], ...) are here too, next to the parser that reads
    them back. *)

From Stdlib Require Import Ascii.
From S2P Require Import Prelude Error.

Definition NUM_LEVELS : Z := 7.
Definition MAX_SEQUENCE_NUMBER : Z := 2 ^ 56 - 1.

Inductive Direction := Forward | Reverse.
#[export] Instance Direction_eq_dec : EqDecision Direction.
Proof. solve_decision. Defined.

(** [FileMetaData]; [smallest] and [largest] are internal keys. *)
Record FileMetaData := mkFile {
  allowed_seeks : Z;
  num : Z;
  size : Z;
  smallest : bytes;
  largest : bytes;
}.
Definition FileMetaData_default : FileMetaData := mkFile 0 0 0 [] [].
#[export] Instance FileMetaData_eq_dec : EqDecision FileMetaData.
Proof. solve_decision. Defined.

Inductive FileType := Log | DBLock | Table | Descriptor | Current | Temp | InfoLog.
#[export] Instance FileType_eq_dec : EqDecision FileType.
Proof. solve_decision. Defined.

(** ** The iterator trait

    [current(&mut key, &mut val)] fills its out-parameters and returns [true], or leaves
    them alone and returns [false]: an option. *)
Class LdbIterator (It : Type) := {
  it_advance : It → exec (It * bool);
  it_current : It → exec (option (bytes * bytes));
  it_seek : bytes → It → exec It;
  it_reset : It → exec It;
  it_valid : It → exec bool;
  it_prev : It → exec (It * bool);
}.

(** The default methods [next] and [seek_to_first], and [current_key_val]. *)
Definition it_next `{LdbIterator It} (it : It) : exec (It * option (bytes * bytes)) :=
  '(it, b) ← it_advance it;
  if negb b then Ret (it, None) else kv ← it_current it; Ret (it, kv).

Definition it_seek_to_first `{LdbIterator It} (it : It) : exec It :=
  it ← it_reset it; '(it, _) ← it_advance it; Ret it.

Definition current_key_val `{LdbIterator It} (it : It) : exec (option (bytes * bytes)) :=
  it_current it.

(** ** File names *)

(** [str::find(c)], [&s[n..]], [&s[..n]] and [str::starts_with]. *)
Fixpoint str_find (c : ascii) (s : string) : option nat :=
  match s with
  | EmptyString => None
  | String a s' => if Ascii.eqb a c then Some O else S <$> str_find c s'
  end.
Fixpoint str_from (n : nat) (s : string) : string :=
  match n, s with
  | O, _ => s
  | S n, String _ s' => str_from n s'
  | S _, EmptyString => EmptyString
  end.
Fixpoint str_to (n : nat) (s : string) : string :=
  match n, s with
  | S n, String a s' => String a (str_to n s')
  | _, _ => EmptyString
  end.
Definition starts_with (p s : string) : bool := String.prefix p s.

(** [u64::from_str_radix(s, 10)]: an optional leading plus sign, at least one digit, and no
    overflow of 64 bits. *)
Definition digit_val (c : ascii) : option Z :=
  let n := Z.of_N (N_of_ascii c) in
  if (48 <=? n) && (n <=? 57) then Some (n - 48) else None.

Fixpoint parse_digits (acc : Z) (s : string) : option Z :=
  match s with
  | EmptyString => Some acc
  | String c s' =>
      d ← digit_val c;
      if acc * 10 + d <? 2 ^ 64 then parse_digits (acc * 10 + d) s' else None
  end.

Definition from_str_radix_10 (s : string) : option Z :=
  match s with
  | EmptyString => None
  | String c s' =>
      if Ascii.eqb c "+"%char then
        (if decide (s' = EmptyString) then None else parse_digits 0 s')
      else parse_digits 0 s
  end.

(** [types::parse_file_name] *)
Definition parse_file_name (f : string) : Result (Z * FileType) :=
  if decide (f = "CURRENT"%string) then Ok (0, Current)
  else if decide (f = "LOCK"%string) then Ok (0, DBLock)
  else if decide (f = "LOG"%string ∨ f = "LOG.old"%string) then Ok (0, InfoLog)
  else if starts_with "MANIFEST-" f then
    match str_find "-" f with
    | Some ix =>
        match from_str_radix_10 (str_from (S ix) f) with
        | Some n => Ok (n, Descriptor)
        | None => err InvalidArgument "manifest file number is invalid"
        end
    | None => err InvalidArgument "manifest file has no dash"
    end
  else match str_find "." f with
  | Some ix =>
      match from_str_radix_10 (str_to ix f) with
      | Some n =>
          let ext := str_from (S ix) f in
          if decide (ext = "log"%string) then Ok (n, Log)
          else if decide (ext = "sst"%string ∨ ext = "ldb"%string) then Ok (n, Table)
          else if decide (ext = "dbtmp"%string) then Ok (n, Temp)
          else err InvalidArgument "unknown numbered file extension"
      | None => err InvalidArgument "invalid file number for table or temp file"
      end
  | None => err InvalidArgument "unknown file type"
  end.

(** [format!("{:06}", n)] *)
Definition digit_char (d : Z) : ascii := ascii_of_N (Z.to_N (48 + d)).
Fixpoint dec_digits (fuel : nat) (n : Z) (acc : string) : string :=
  match fuel with
  | O => String (digit_char n) acc
  | S fuel =>
      if n <? 10 then String (digit_char n) acc
      else dec_digits fuel (n / 10) (String (digit_char (n mod 10)) acc)
  end.
Fixpoint zeroes (k : nat) (s : string) : string :=
  match k with O => s | S k => String "0" (zeroes k s) end.
Definition fmt06 (n : Z) : string :=
  let d := dec_digits 19 n "" in zeroes (6 - String.length d) d.

(** [Path::join] with a relative, non-empty name on a Unix path. *)
Definition path_join (dir f : string) : string :=
  if decide (dir = "")%string then f
  else match String.get (String.length dir - 1) dir with
       | Some "/"%char => (dir +:+ f)%string
       | _ => (dir +:+ "/" +:+ f)%string
       end.

(** [table_cache::table_file_name], [version_set::manifest_name], [manifest_file_name],
    [temp_file_name] and [current_file_name], [db_impl::log_file_name] and
    [lock_file_name]. *)
Definition table_base (n : Z) : string := (fmt06 n +:+ ".ldb")%string.
Definition table_file_name (name : string) (n : Z) : exec string :=
  _ ← massert (0 <? n); Ret (path_join name (table_base n)).
Definition manifest_name (n : Z) : string := ("MANIFEST-" +:+ fmt06 n)%string.
Definition manifest_file_name (dbname : string) (n : Z) : string :=
  path_join dbname (manifest_name n).
Definition temp_base (n : Z) : string := (fmt06 n +:+ ".dbtmp")%string.
Definition temp_file_name (dbname : string) (n : Z) : string := path_join dbname (temp_base n).
Definition current_file_name (dbname : string) : string := path_join dbname "CURRENT".
Definition log_base (n : Z) : string := (fmt06 n +:+ ".log")%string.
Definition log_file_name (db : string) (n : Z) : string := path_join db (log_base n).
Definition lock_file_name (db : string) : string := path_join db "LOCK".

(** ** Lemmas *)

Lemma digit_char_val d : 0 ≤ d < 10 → digit_val (digit_char d) = Some d.
Proof.
  intros H. unfold digit_val, digit_char. rewrite N_ascii_embedding by lia.
  rewrite Z2N.id by lia. ztest. f_equal. lia.
Qed.

Lemma digit_char_neq d c :
  0 ≤ d < 10 → digit_val c = None → Ascii.eqb (digit_char d) c = false.
Proof.
  intros Hd Hc. apply Ascii.eqb_neq. intros <-. by rewrite digit_char_val in Hc.
Qed.

Inductive all_digits : string → Prop :=
  | ad_nil : all_digits EmptyString
  | ad_cons c s : is_Some (digit_val c) → all_digits s → all_digits (String c s).

Lemma dec_digits_all k n s :
  0 ≤ n < 10 * 10 ^ Z.of_nat k → all_digits s → all_digits (dec_digits k n s).
Proof.
  revert n s. induction k as [|k IH]; intros n s Hn Hs.
  - simpl in *. constructor; [rewrite digit_char_val by lia; eauto|done].
  - cbn [dec_digits]. destruct (n <? 10) eqn:E.
    + apply Z.ltb_lt in E. constructor; [rewrite digit_char_val by lia; eauto|done].
    + rewrite Nat2Z.inj_succ, Z.pow_succ_r in Hn by lia. apply IH.
      * split; [apply Z.div_pos; lia|]. apply Z.div_lt_upper_bound; lia.
      * constructor; [|done]. rewrite digit_char_val; [eauto|]. apply Z.mod_pos_bound. lia.
Qed.

Lemma dec_digits_parse k n s :
  0 ≤ n < 10 * 10 ^ Z.of_nat k → n < 2 ^ 64 →
  parse_digits 0 (dec_digits k n s) = parse_digits n s.
Proof.
  revert n s. induction k as [|k IH]; intros n s Hn H64.
  - cbn [dec_digits parse_digits]. rewrite digit_char_val by (simpl in *; lia). simpl. by ztest.
  - cbn [dec_digits]. destruct (n <? 10) eqn:E.
    + apply Z.ltb_lt in E. cbn [parse_digits]. rewrite digit_char_val by lia. simpl. by ztest.
    + rewrite Nat2Z.inj_succ, Z.pow_succ_r in Hn by lia.
      pose proof (Z.div_mod n 10). pose proof (Z.mod_pos_bound n 10).
      rewrite IH.
      * cbn [parse_digits]. rewrite digit_char_val by lia. cbn [mbind option_bind].
        replace (n / 10 * 10 + n mod 10) with n by lia. by ztest.
      * split; [apply Z.div_pos; lia|]. apply Z.div_lt_upper_bound; lia.
      * lia.
Qed.

Lemma zeroes_parse k s : parse_digits 0 (zeroes k s) = parse_digits 0 s.
Proof. by induction k. Qed.

Lemma zeroes_all k s : all_digits s → all_digits (zeroes k s).
Proof. intros Hs. induction k; simpl; [done|]. constructor; [by eexists|done]. Qed.

Lemma fmt06_parse n : is_u 64 n → parse_digits 0 (fmt06 n) = Some n.
Proof.
  intros Hn. unfold is_u in Hn. unfold fmt06.
  rewrite zeroes_parse, dec_digits_parse by lia. done.
Qed.

Lemma fmt06_all n : is_u 64 n → all_digits (fmt06 n).
Proof.
  intros Hn. unfold is_u in Hn. apply zeroes_all, dec_digits_all; [lia|constructor].
Qed.

Lemma dec_digits_nonempty k n s : dec_digits k n s ≠ EmptyString.
Proof.
  revert n s. induction k as [|k IH]; intros n s; simpl; [done|]. destruct (_ <? _); [done|apply IH].
Qed.

Lemma fmt06_nonempty n : fmt06 n ≠ EmptyString.
Proof.
  unfold fmt06. destruct (_ - _)%nat; cbn [zeroes]; [|done]. apply dec_digits_nonempty.
Qed.

Lemma all_digits_radix s n :
  all_digits s → s ≠ EmptyString → parse_digits 0 s = Some n → from_str_radix_10 s = Some n.
Proof.
  intros Hs Hne Hp. destruct Hs as [|c s [d Hd] Hs]; [done|]. unfold from_str_radix_10.
  destruct (Ascii.eqb c "+") eqn:E; [|done].
  apply Ascii.eqb_eq in E as ->. discriminate Hd.
Qed.

Lemma str_find_digits s t :
  all_digits s → str_find "." (s +:+ String "." t) = Some (String.length s).
Proof.
  induction 1 as [|c s [d Hd] Hs IH]; [done|].
  change (String c s +:+ String "." t) with (String c (s +:+ String "." t)). cbn [str_find String.length].
  destruct (Ascii.eqb c ".") eqn:E; [apply Ascii.eqb_eq in E as ->; discriminate Hd|].
  rewrite IH. done.
Qed.

Lemma str_to_app s t : str_to (String.length s) (s +:+ t) = s.
Proof.
  induction s as [|c s IH]; [by destruct t|].
  change (String c s +:+ t) with (String c (s +:+ t)). cbn [str_to String.length]. by rewrite IH.
Qed.

Lemma str_from_app s t : str_from (String.length s) (s +:+ t) = t.
Proof. by induction s as [|c s IH]. Qed.

Lemma str_from_S_app s c t : str_from (S (String.length s)) (s +:+ String c t) = t.
Proof.
  induction s as [|a s IH]; [done|].
  change (String a s +:+ String c t) with (String a (s +:+ String c t)). apply IH.
Qed.

(** A name that starts with a digit is none of the fixed names and no manifest. *)
Lemma parse_numbered s ext n :
  all_digits s → s ≠ EmptyString → parse_digits 0 s = Some n →
  parse_file_name (s +:+ String "." ext) =
    if decide (ext = "log"%string) then Ok (n, Log)
    else if decide (ext = "sst"%string ∨ ext = "ldb"%string) then Ok (n, Table)
    else if decide (ext = "dbtmp"%string) then Ok (n, Temp)
    else err InvalidArgument "unknown numbered file extension".
Proof.
  intros Hs Hne Hp.
  assert (∀ r, parse_file_name (s +:+ String "." ext) = r ↔
    match str_find "." (s +:+ String "." ext) with
    | Some ix =>
        match from_str_radix_10 (str_to ix (s +:+ String "." ext)) with
        | Some n =>
            let e := str_from (S ix) (s +:+ String "." ext) in
            if decide (e = "log"%string) then Ok (n, Log)
            else if decide (e = "sst"%string ∨ e = "ldb"%string) then Ok (n, Table)
            else if decide (e = "dbtmp"%string) then Ok (n, Temp)
            else err InvalidArgument "unknown numbered file extension"
        | None => err InvalidArgument "invalid file number for table or temp file"
        end
    | None => err InvalidArgument "unknown file type"
    end = r) as Hskip.
  { intros r. unfold parse_file_name. destruct Hs as [|c s [d Hd] Hs]; [done|].
    change (String c s +:+ String "." ext) with (String c (s +:+ String "." ext)).
    assert (∀ c' t, String c (s +:+ String "." ext) = String c' t → digit_val c' ≠ None) as Hc.
    { intros c' t [= -> _]. congruence. }
    do 2 (rewrite decide_False by (intros E; exact (Hc _ _ E eq_refl))).
    rewrite decide_False by (intros [E|E]; exact (Hc _ _ E eq_refl)).
    unfold starts_with. cbn [String.prefix]. destruct (ascii_dec _ _) as [<-|]; [discriminate Hd|].
    reflexivity. }
  apply Hskip. rewrite str_find_digits, str_to_app, str_from_S_app by done. cbn [mbind].
  by rewrite (all_digits_radix s n).
Qed.

Lemma table_base_parse n : is_u 64 n → parse_file_name (table_base n) = Ok (n, Types.Table).
Proof.
  intros Hn. unfold table_base. change ".ldb"%string with (String "."%char "ldb"). by rewrite (parse_numbered _ _ n (fmt06_all n Hn) (fmt06_nonempty n) (fmt06_parse n Hn)).
Qed.

(** The number of a file name has 64 bits. *)
Lemma parse_digits_range s : ∀ acc n, is_u 64 acc → parse_digits acc s = Some n → is_u 64 n.
Proof.
  induction s as [|c s IH]; intros acc n Ha H; cbn in H; [by injection H as <-|]. destruct (digit_val c) as [d|] eqn:Ed; [|done]. cbn in H.
  destruct (Z.ltb_spec (acc * 10 + d) (2 ^ 64)); [|done]. apply (IH (acc * 10 + d)); [|done].
  unfold digit_val in Ed. destruct (_ && _) eqn:E; [|done]. injection Ed as <-. unfold is_u in *. lia.
Qed.

Lemma parse_file_num name n typ : parse_file_name name = Ok (n, typ) → is_u 64 n.
Proof.
  assert (∀ s n, from_str_radix_10 s = Some n → is_u 64 n) as Hr.
  { intros [|c s] m H; unfold from_str_radix_10 in H; [done|]. destruct (Ascii.eqb c "+"); [case_decide; [done|]|]; (eapply parse_digits_range; [|exact H]; done). }
  unfold parse_file_name. intros H. repeat case_decide; try (by injection H as <- <-).
  destruct (starts_with _ _); destruct (str_find _ _) as [ix|]; try done; destruct (from_str_radix_10 _) as [m|] eqn:E; try done; apply Hr in E; repeat case_decide; try done; by injection H as <- <-.
Qed.

Lemma parse_manifest n : is_u 64 n → parse_file_name (manifest_name n) = Ok (n, Descriptor).
Proof.
  intros Hn. unfold parse_file_name, manifest_name.
  do 2 (rewrite decide_False by discriminate).
  rewrite decide_False by (by intros []).
  change (starts_with "MANIFEST-" ("MANIFEST-" +:+ fmt06 n)) with (starts_with "" (fmt06 n)).
  change (str_find "-" ("MANIFEST-" +:+ fmt06 n)) with (Some 8%nat). cbv beta iota.
  change (str_from 9 ("MANIFEST-" +:+ fmt06 n)) with (fmt06 n).
  rewrite (all_digits_radix _ n) by auto using fmt06_all, fmt06_nonempty, fmt06_parse.
  unfold starts_with. by destruct (fmt06 n).
Qed.

(** ** Theorems *)

(** Every name the database gives to one of its files is read back by
    [parse_file_name] as the number it was made from and the right file type, for every
    64-bit file number. *)
Theorem file_names_parse_back n :
  is_u 64 n →
  parse_file_name (table_base n) = Ok (n, Table)
  ∧ parse_file_name (log_base n) = Ok (n, Log)
  ∧ parse_file_name (temp_base n) = Ok (n, Temp)
  ∧ parse_file_name (manifest_name n) = Ok (n, Descriptor).
Proof.
  intros Hn.
  pose proof (fmt06_all n Hn). pose proof (fmt06_nonempty n). pose proof (fmt06_parse n Hn).
  split_and!; [| | |by apply parse_manifest];
    unfold table_base, log_base, temp_base; by rewrite (parse_numbered _ _ n).
Qed.

Lemma file_names_parse_back_witness :
  parse_file_name "001122.ldb" = Ok (1122, Table)
  ∧ parse_file_name (manifest_name 1234) = Ok (1234, Descriptor).
Proof.
  split; [exact (proj1 (file_names_parse_back 1122 ltac:(unfold is_u; lia)))|].
  apply (file_names_parse_back 1234). unfold is_u; lia.
Defined.

Example parse_file_name_rejects :
  is_ok (parse_file_name "xyz.LOCK") = false ∧ is_ok (parse_file_name "01a.sst") = false
  ∧ is_ok (parse_file_name "0011.abc") = false ∧ is_ok (parse_file_name "MANIFEST-trolol") = false.
Proof. repeat split. Qed.
