(* ===== verification/Cmp.v ===== *)
(** * Cmp: the [Cmp] trait and [DefaultCmp] of [src/cmp.rs]

    [Cmp] is the trait; [OrderedCmp c] is what the rest of the library needs of a
    comparator: on the keys it accepts ([key_ok]) it returns, without panicking, a total
    preorder.  [InternalKeyCmp] and [MemtableKeyCmp] are in [KeyTypes.v]. *)

From S2P Require Import Prelude.

Record Cmp := mkCmp {
  cmp : bytes → bytes → exec comparison;
  find_shortest_sep : bytes → bytes → exec bytes;
  find_short_succ : bytes → exec bytes;
  cmp_id : string;
}.

(** [c == Less], [c <= Equal], [c >= Equal], [c == Greater], [c == Equal]. *)
Definition is_lt (c : comparison) : bool := match c with Lt => true | _ => false end.
Definition is_le (c : comparison) : bool := match c with Gt => false | _ => true end.
Definition is_ge (c : comparison) : bool := match c with Lt => false | _ => true end.
Definition is_gt (c : comparison) : bool := match c with Gt => true | _ => false end.
Definition is_eq (c : comparison) : bool := match c with Eq => true | _ => false end.

Lemma is_lt_true c : is_lt c = true ↔ c = Lt.
Proof. by destruct c. Qed.
Lemma is_le_true c : is_le c = true ↔ c ≠ Gt.
Proof. by destruct c. Qed.
Lemma is_ge_true c : is_ge c = true ↔ c ≠ Lt.
Proof. by destruct c. Qed.
Lemma is_gt_true c : is_gt c = true ↔ c = Gt.
Proof. by destruct c. Qed.
Lemma is_eq_true c : is_eq c = true ↔ c = Eq.
Proof. by destruct c. Qed.
Lemma is_lt_false c : is_lt c = false ↔ c ≠ Lt.
Proof. by destruct c. Qed.

(** [<[u8] as Ord>::cmp]: lexicographic. *)
Fixpoint bytes_cmp (a b : bytes) : comparison :=
  match a, b with
  | [], [] => Eq
  | [], _ :: _ => Lt
  | _ :: _, [] => Gt
  | x :: a, y :: b => match x ?= y with Eq => bytes_cmp a b | c => c end
  end.

(** [while diff_at < min && a[diff_at] == b[diff_at] { diff_at += 1 }] *)
Fixpoint sep_skip_common (fuel : nat) (a b : bytes) (min diff_at : Z) : exec Z :=
  match fuel with
  | O => NoFuel
  | S fuel =>
      if diff_at <? min then
        x ← index a diff_at; y ← index b diff_at;
        if x =? y then sep_skip_common fuel a b min (diff_at + 1) else Ret diff_at
      else Ret diff_at
  end.

(** The loop that looks for a short separator. *)
Fixpoint sep_try_short (fuel : nat) (a b : bytes) (min diff_at : Z) : exec (option bytes) :=
  match fuel with
  | O => NoFuel
  | S fuel =>
      if diff_at <? min then
        diff ← index a diff_at; y ← index b diff_at;
        if (diff <? 255) && (diff + 1 <? y) then
          sep ← slice a 0 (diff_at + 1);
          sep ← set_index sep diff_at (diff + 1);
          _ ← massert (is_lt (bytes_cmp sep b));
          Ret (Some sep)
        else sep_try_short fuel a b min (diff_at + 1)
      else Ret None
  end.

(** [while i > 0 && sep[i] == 0xff { i -= 1 }] *)
Fixpoint sep_last_non_ff (fuel : nat) (sep : bytes) (i : Z) : exec Z :=
  match fuel with
  | O => NoFuel
  | S fuel =>
      if 0 <? i then
        x ← index sep i;
        if x =? 255 then sep_last_non_ff fuel sep (i - 1) else Ret i
      else Ret i
  end.

Definition default_find_shortest_sep (a b : bytes) : exec bytes :=
  if decide (a = b) then Ret a
  else
    let min := if zlen a <? zlen b then zlen a else zlen b in
    diff_at ← sep_skip_common (S (length a)) a b min 0;
    r ← sep_try_short (S (length a)) a b min diff_at;
    match r with
    | Some sep => Ret sep
    | None =>
        i ← usub (zlen a) 1;
        i ← sep_last_non_ff (S (length a)) a i;
        x ← index a i;
        if x <? 255 then
          sep ← set_index a i (x + 1);
          if is_lt (bytes_cmp sep b) then Ret sep else Ret (a ++ [0])
        else Ret (a ++ [0])
    end.

(** [for i in 0..a.len()]; [rest] is [a[i..]]. *)
Fixpoint short_succ_from (a : bytes) (i : nat) (rest : bytes) : bytes :=
  match rest with
  | [] => a ++ [255]
  | x :: rest =>
      if negb (x =? 255) then vec_resize (Z.of_nat i + 1) 0 (<[i := x + 1]> a)
      else short_succ_from a (S i) rest
  end.

Definition default_find_short_succ (a : bytes) : exec bytes := Ret (short_succ_from a 0 a).

Definition DefaultCmp : Cmp := {|
  cmp a b := Ret (bytes_cmp a b);
  find_shortest_sep := default_find_shortest_sep;
  find_short_succ := default_find_short_succ;
  cmp_id := "leveldb.BytewiseComparator";
|}.

(** ** The interface the clients of a comparator rely on *)

Class OrderedCmp (c : Cmp) := {
  key_ok : bytes → Prop;
  ord : bytes → bytes → comparison;
  cmp_ret a b : key_ok a → key_ok b → cmp c a b = Ret (ord a b);
  ord_refl a : ord a a = Eq;
  ord_antisym a b : ord b a = CompOpp (ord a b);
  ord_trans a b d : ord a b = Lt → ord b d = Lt → ord a d = Lt;
  ord_eq_l a b d : ord a b = Eq → ord a d = ord b d;
}.
Arguments key_ok c {_} _.
Arguments ord c {_} _ _.

(** Comparators for which equal means identical. *)
Class ExactCmp (c : Cmp) {OC : OrderedCmp c} : Prop := ord_exact a b : ord c a b = Eq → a = b.

Section ordered.
Context {c : Cmp} {OC : OrderedCmp c}.

Lemma ord_Gt_Lt a b : ord c a b = Gt ↔ ord c b a = Lt.
Proof. rewrite (ord_antisym a b). by destruct (ord c a b). Qed.

Lemma ord_eq_sym a b : ord c a b = Eq → ord c b a = Eq.
Proof. intros H. by rewrite (ord_antisym a b), H. Qed.

Lemma ord_eq_r a b d : ord c a b = Eq → ord c d a = ord c d b.
Proof. intros H. by rewrite (ord_antisym a d), (ord_antisym b d), (ord_eq_l a b d). Qed.

Lemma ord_le_lt a b d : ord c a b ≠ Gt → ord c b d = Lt → ord c a d = Lt.
Proof.
  intros Hab Hbd. destruct (ord c a b) eqn:E; [|by eapply ord_trans|done].
  by rewrite (ord_eq_l _ _ _ E).
Qed.

Lemma ord_lt_le a b d : ord c a b = Lt → ord c b d ≠ Gt → ord c a d = Lt.
Proof.
  intros Hab Hbd. destruct (ord c b d) eqn:E; [|by eapply ord_trans|done].
  by rewrite <- (ord_eq_r _ _ a E).
Qed.

Lemma ord_le_trans a b d : ord c a b ≠ Gt → ord c b d ≠ Gt → ord c a d ≠ Gt.
Proof.
  intros Hab Hbd. destruct (ord c a b) eqn:E; [by rewrite (ord_eq_l _ _ _ E)| |done].
  by rewrite (ord_lt_le a b d).
Qed.

Lemma ord_not_lt a b : ord c a b ≠ Lt ↔ ord c b a ≠ Gt.
Proof. rewrite (ord_antisym a b). by destruct (ord c a b). Qed.

End ordered.

(** ** Lexicographic order *)

Lemma bytes_cmp_refl a : bytes_cmp a a = Eq.
Proof. induction a as [|x a IH]; simpl; [done|]. by rewrite Z.compare_refl. Qed.

Lemma bytes_cmp_eq a b : bytes_cmp a b = Eq → a = b.
Proof.
  revert b. induction a as [|x a IH]; intros [|y b]; simpl; try done.
  destruct (Z.compare_spec x y) as [->|?|?]; try done. intros H. f_equal. by apply IH.
Qed.

Lemma bytes_cmp_antisym a b : bytes_cmp b a = CompOpp (bytes_cmp a b).
Proof.
  revert b. induction a as [|x a IH]; intros [|y b]; simpl; try done.
  rewrite (Z.compare_antisym x y). destruct (x ?= y); simpl; auto.
Qed.

Lemma bytes_cmp_trans a b d : bytes_cmp a b = Lt → bytes_cmp b d = Lt → bytes_cmp a d = Lt.
Proof.
  revert b d. induction a as [|x a IH]; intros [|y b] [|z d]; simpl; try done.
  destruct (Z.compare_spec x y) as [->|?|?]; try done;
    destruct (Z.compare_spec y z) as [->|?|?]; try done.
  - apply IH.
  - intros _ _. by rewrite (proj2 (Z.compare_lt_iff x z)) by lia.
  - intros _ _. by rewrite (proj2 (Z.compare_lt_iff x z)) by lia.
Qed.

Lemma bytes_cmp_app p a b : bytes_cmp (p ++ a) (p ++ b) = bytes_cmp a b.
Proof. induction p as [|x p IH]; simpl; [done|]. by rewrite Z.compare_refl. Qed.

Lemma bytes_cmp_app_lt p x y a b : x < y → bytes_cmp (p ++ x :: a) (p ++ y :: b) = Lt.
Proof. intros H. rewrite bytes_cmp_app. simpl. by rewrite (proj2 (Z.compare_lt_iff x y)). Qed.

Lemma bytes_cmp_prefix p x a : bytes_cmp p (p ++ x :: a) = Lt.
Proof. rewrite <- (app_nil_r p) at 1. by rewrite bytes_cmp_app. Qed.

#[export] Instance DefaultCmp_ordered : OrderedCmp DefaultCmp.
Proof.
  refine {| key_ok _ := True; ord := bytes_cmp |}.
  - done.
  - apply bytes_cmp_refl.
  - apply bytes_cmp_antisym.
  - apply bytes_cmp_trans.
  - by intros a b d ->%bytes_cmp_eq.
Defined.

#[export] Instance DefaultCmp_exact : ExactCmp DefaultCmp.
Proof. intros a b. apply bytes_cmp_eq. Qed.

(** ** [find_shortest_sep] *)

(** What is known of two equally long prefixes of [a < b]: they are equal, or already
    decide the comparison. *)
Definition decided (q q' : bytes) : Prop :=
  length q = length q' ∧ (q = q' ∨ ∀ s t, bytes_cmp (q ++ s) (q' ++ t) = Lt).

Lemma decided_step q q' x y a b :
  decided q q' → bytes_cmp (q ++ x :: a) (q' ++ y :: b) = Lt →
  decided (q ++ [x]) (q' ++ [y]) ∧ (q = q' → x ≤ y).
Proof.
  intros [Hl [->|Hd]] Hlt.
  - rewrite bytes_cmp_app in Hlt. simpl in Hlt.
    destruct (Z.compare_spec x y) as [->|?|?]; [| |done].
    + split; [split; [done|by left]|lia].
    + split; [|lia]. split; [by rewrite !length_app|]. right. intros s t.
      rewrite <- !app_assoc. by apply bytes_cmp_app_lt.
  - split.
    + split; [by rewrite !length_app, Hl|]. right. intros s t. rewrite <- !app_assoc. apply Hd.
    + intros ->. specialize (Hd [0] []). rewrite bytes_cmp_app in Hd. done.
Qed.

Lemma sep_skip_common_spec fuel a b q a' b' :
  a = q ++ a' → b = q ++ b' → (length a' < fuel)%nat →
  ∃ r a2 b2, sep_skip_common fuel a b (Z.min (zlen a) (zlen b)) (zlen q) = Ret (zlen (q ++ r))
    ∧ a' = r ++ a2 ∧ b' = r ++ b2.
Proof.
  revert q a' b'. induction fuel as [|fuel IH]; intros q a' b' Ha Hb Hf; [lia|].
  cbn [sep_skip_common]. destruct (zlen q <? _) eqn:E; cycle 1.
  { exists [], a', b'. by rewrite app_nil_r. }
  apply Z.ltb_lt in E. subst a b. rewrite !length_app in E.
  destruct a' as [|x a']; [simpl in E; lia|]. destruct b' as [|y b']; [simpl in E; lia|].
  rewrite !index_app by done. cbn [mbind exec_bind]. destruct (Z.eqb_spec x y) as [->|]; cycle 1.
  { exists [], (x :: a'), (y :: b'). by rewrite app_nil_r. }
  replace (zlen q + 1) with (zlen (q ++ [y])) by (rewrite length_app; simpl; lia).
  destruct (IH (q ++ [y]) a' b') as (r & a2 & b2 & H1 & H2 & H3);
    [by rewrite <- app_assoc..|simpl in Hf; lia|].
  rewrite <- !app_assoc in H1. simpl in H1. exists (y :: r), a2, b2. simpl. by rewrite H1, H2, H3.
Qed.

Lemma sep_try_short_spec fuel a b q q' a' b' :
  a = q ++ a' → b = q' ++ b' → decided q q' → bytes_cmp a b = Lt → (length a' < fuel)%nat →
  sep_try_short fuel a b (Z.min (zlen a) (zlen b)) (zlen q) = Ret None
  ∨ ∃ sep, sep_try_short fuel a b (Z.min (zlen a) (zlen b)) (zlen q) = Ret (Some sep)
      ∧ bytes_cmp a sep = Lt ∧ bytes_cmp sep b = Lt ∧ zlen sep ≤ zlen a.
Proof.
  revert q q' a' b'. induction fuel as [|fuel IH]; intros q q' a' b' Ha Hb Hd Hlt Hf; [lia|].
  cbn [sep_try_short]. destruct (zlen q <? _) eqn:E; [|by left].
  apply Z.ltb_lt in E. subst a b. pose proof (proj1 Hd) as Hl. rewrite !length_app in E.
  destruct a' as [|x a']; [simpl in E; lia|]. destruct b' as [|y b']; [simpl in E; lia|].
  rewrite !index_app by lia. cbn [mbind exec_bind].
  destruct (decided_step _ _ _ _ _ _ Hd Hlt) as [Hd' Hxy].
  destruct (_ && _) eqn:Ec; cycle 1.
  { replace (zlen q + 1) with (zlen (q ++ [x])) by (rewrite length_app; simpl; lia).
    apply (IH _ (q' ++ [y]) a' b'); [by rewrite <- app_assoc..|done|done|simpl in Hf; lia]. }
  right. rewrite andb_true_iff, !Z.ltb_lt in Ec. exists (q ++ [x + 1]).
  replace (q ++ x :: a') with ((q ++ [x]) ++ a') at 1 by (by rewrite <- app_assoc).
  rewrite slice_to_app by (rewrite length_app; simpl; lia).
  cbn [mbind exec_bind]. unfold set_index. rewrite length_app. simpl length. ztest.
  rewrite Nat2Z.id. cbn [mbind exec_bind].
  replace (<[length q := x + 1]> (q ++ [x])) with (q ++ [x + 1]).
  2:{ rewrite insert_app_r_alt, Nat.sub_diag by lia. done. }
  assert (bytes_cmp (q ++ [x + 1]) (q' ++ y :: b') = Lt) as Hs.
  { destruct Hd as [_ [->|Hd]]; [apply bytes_cmp_app_lt; lia|apply Hd]. }
  rewrite Hs. split_and!; [done|apply bytes_cmp_app_lt; lia|done|].
  rewrite !length_app. simpl. lia.
Qed.

Lemma sep_last_non_ff_spec fuel a i :
  0 ≤ i < zlen a → i < Z.of_nat fuel →
  ∃ j, sep_last_non_ff fuel a i = Ret j ∧ 0 ≤ j < zlen a.
Proof.
  revert i. induction fuel as [|fuel IH]; intros i Hi Hf; [lia|]. cbn [sep_last_non_ff].
  destruct (0 <? i) eqn:E; [|by exists i]. apply Z.ltb_lt in E.
  destruct (lookup_lt_is_Some_2 a (Z.to_nat i)) as [x Hx]; [lia|].
  unfold index. ztest. rewrite Hx. cbn. destruct (x =? 255); [|by exists i]. apply IH; lia.
Qed.

Lemma lookup_split (a : bytes) i x :
  a !! i = Some x → a = take i a ++ x :: drop (S i) a ∧ length (take i a) = i.
Proof.
  intros H. split; [by rewrite take_drop_middle|].
  apply lookup_lt_Some in H. rewrite length_take. lia.
Qed.

Lemma default_sep_spec a b :
  is_bytes b → a ≠ [] → bytes_cmp a b = Lt →
  ∃ sep, default_find_shortest_sep a b = Ret sep
    ∧ bytes_cmp a sep = Lt ∧ zlen sep ≤ zlen a + 1
    ∧ (bytes_cmp sep b = Lt ∨ sep = b ∧ b = a ++ [0]).
Proof.
  intros Hb Hne Hlt.
  unfold default_find_shortest_sep. rewrite decide_False by (intros ->; by rewrite bytes_cmp_refl in Hlt).
  replace (if zlen a <? zlen b then zlen a else zlen b) with (Z.min (zlen a) (zlen b))
    by (destruct (Z.ltb_spec (zlen a) (zlen b)); lia).
  destruct (sep_skip_common_spec (S (length a)) a b [] a b) as (r & a2 & b2 & H1 & H2 & H3); [done..|lia|].
  change (zlen (@nil Z)) with 0 in H1. rewrite H1. cbn [mbind exec_bind app]. subst a b.
  assert (decided r r) as Hd by (split; [done|by left]).
  destruct (sep_try_short_spec (S (length (r ++ a2))) (r ++ a2) (r ++ b2) r r a2 b2) as [Hn|(sep & Hs & ? & ? & ?)];
    [done..|rewrite length_app; lia| |]; cycle 1.
  { rewrite Hs. cbn. exists sep. split_and!; [done..|lia|by left]. }
  rewrite Hn. cbn [mbind exec_bind]. set (a := r ++ a2) in *. set (b := r ++ b2) in *.
  assert (0 < zlen a) by (destruct a; simpl; [done|lia]).
  unfold usub. ztest. cbn [mbind exec_bind].
  destruct (sep_last_non_ff_spec (S (length a)) a (zlen a - 1)) as (j & -> & Hj); [lia..|].
  cbn [mbind exec_bind]. destruct (lookup_lt_is_Some_2 a (Z.to_nat j)) as [x Hx]; [lia|].
  unfold index. ztest. rewrite Hx. cbn [unwrap mbind exec_bind].
  assert (bytes_cmp a (a ++ [0]) = Lt) as Ha0 by apply bytes_cmp_prefix.
  assert (bytes_cmp (a ++ [0]) b = Lt ∨ a ++ [0] = b ∧ b = a ++ [0]) as Hb0.
  { unfold a, b. rewrite <- app_assoc, !bytes_cmp_app. unfold a, b in Hlt.
    rewrite bytes_cmp_app in Hlt.
    assert (is_bytes b2) as Hb2 by (unfold b in Hb; by apply Forall_app in Hb as [_ ?]).
    clear -Hlt Hb2. revert b2 Hlt Hb2. induction a2 as [|z a2 IH]; intros [|y b2] Hlt Hb2; try done.
    - apply Forall_cons in Hb2 as [Hy _]. unfold is_byte in Hy. cbn [app bytes_cmp].
      destruct (Z.compare_spec 0 y) as [<-|?|?]; [|by left|lia].
      destruct b2; [right|left]; done.
    - apply Forall_cons in Hb2 as [_ Hb2]. simpl in *.
      destruct (Z.compare_spec z y) as [->|?|?]; [|by left|done].
      destruct (IH b2 Hlt Hb2) as [?|[E1 E2]]; [by left|right].
      apply app_inv_head in E1. rewrite <- E1. done. }
  destruct (Z.ltb_spec x 255); cycle 1.
  { exists (a ++ [0]). rewrite length_app. simpl. split_and!; [done..|lia|done]. }
  unfold set_index. ztest. cbn [mbind exec_bind].
  destruct (is_lt _) eqn:Es; cycle 1.
  { exists (a ++ [0]). rewrite length_app. simpl. split_and!; [done..|lia|done]. }
  exists (<[Z.to_nat j := x + 1]> a). rewrite length_insert. split_and!; [done| |lia|].
  - destruct (lookup_split _ _ _ Hx) as [Hsp Hl]. rewrite Hsp at 1 2.
    rewrite insert_app_r_alt by lia. rewrite Hl, Nat.sub_diag. simpl. apply bytes_cmp_app_lt. lia.
  - left. by apply is_lt_true.
Qed.

(** ** Theorems *)

(** for [a < b] and [a] not empty, [DefaultCmp::find_shortest_sep] returns, without
    panicking, a key strictly above [a] and at most [b]; it is strictly below [b] unless [b]
    is [a] followed by one zero byte. *)
Theorem default_sep_separates a b :
  is_bytes b → a ≠ [] → bytes_cmp a b = Lt →
  ∃ sep, find_shortest_sep DefaultCmp a b = Ret sep
    ∧ bytes_cmp a sep = Lt
    ∧ (bytes_cmp sep b = Lt ∨ sep = b ∧ b = a ++ [0]).
Proof.
  intros Hb Hne Hlt. destruct (default_sep_spec a b) as (sep & ? & ? & _ & ?); [done..|]. by exists sep.
Qed.

Lemma default_sep_separates_witness :
  ∃ sep, find_shortest_sep DefaultCmp [97; 98; 99] [97; 99; 100] = Ret sep
    ∧ bytes_cmp [97; 98; 99] sep = Lt
    ∧ (bytes_cmp sep [97; 99; 100] = Lt ∨ sep = [97; 99; 100] ∧ [97; 99; 100] = [97; 98; 99] ++ [0]).
Proof.
  apply (default_sep_separates [97; 98; 99] [97; 99; 100]); [by_decide|done|reflexivity].
Defined.

(** The exceptional case of the previous theorem: the separator of ["abc"] and ["abc\0"] is
    the second key itself. *)
Example default_sep_not_below : find_shortest_sep DefaultCmp [97; 98; 99] [97; 98; 99; 0] = Ret [97; 98; 99; 0].
Proof. reflexivity. Qed.

(** An empty first key makes [DefaultCmp::find_shortest_sep] panic for every other
    second key: [a.len() - 1] underflows. *)
Theorem default_sep_empty_panics b : b ≠ [] → find_shortest_sep DefaultCmp [] b = Panic.
Proof. by destruct b. Qed.

Lemma default_sep_empty_panics_witness : find_shortest_sep DefaultCmp [] [120] = Panic.
Proof. exact (default_sep_empty_panics [120] ltac:(discriminate)). Defined.

Lemma short_succ_from_gt p s :
  bytes_cmp (p ++ s) (short_succ_from (p ++ s) (length p) s) = Lt.
Proof.
  revert p. induction s as [|x s IH]; intros p; cbn [short_succ_from].
  - rewrite app_nil_r. apply bytes_cmp_prefix.
  - destruct (negb _) eqn:E.
    + rewrite insert_app_r_alt, Nat.sub_diag by lia. cbn [insert list_insert].
      unfold vec_resize. replace (Z.to_nat (zlen p + 1)) with (length p + 1)%nat by lia.
      rewrite take_app_add. cbn [take].
      replace (_ - _)%nat with 0%nat by (rewrite length_app; simpl; lia).
      cbn [replicate]. rewrite app_nil_r. apply bytes_cmp_app_lt. lia.
    + replace (S (length p)) with (length (p ++ [x])) by (rewrite length_app; simpl; lia).
      specialize (IH (p ++ [x])). by rewrite <- app_assoc in IH.
Qed.

Lemma short_succ_from_length a i rest :
  (i + length rest ≤ length a → length (short_succ_from a i rest) ≤ length a + 1)%nat.
Proof.
  revert i. induction rest as [|x rest IH]; intros i Hi; cbn [short_succ_from length] in *.
  - rewrite length_app. simpl. lia.
  - destruct (negb _).
    + unfold vec_resize. rewrite length_app, length_take, length_replicate, length_insert. lia.
    + apply IH. lia.
Qed.

(** It is not the key followed by a zero byte, and consists of bytes. *)
Lemma short_succ_from_zero a i rest : (i + length rest ≤ length a)%nat → short_succ_from a i rest ≠ a ++ [0].
Proof.
  revert i. induction rest as [|x rest IH]; intros i Hi; cbn [short_succ_from length] in *; [by intros [_ [=]]%app_inj_1|].
  destruct (negb _); [|apply IH; lia]. unfold vec_resize. intros E. apply (f_equal length) in E.
  rewrite !length_app, length_take, length_replicate, length_insert in E. simpl in E. lia.
Qed.

Lemma short_succ_from_bytes a i rest : is_bytes a → is_bytes rest → is_bytes (short_succ_from a i rest).
Proof.
  intros Ha. revert i. induction rest as [|x rest IH]; intros i Hr; cbn [short_succ_from].
  - apply Forall_app. split; [done|]. repeat constructor; by_decide.
  - apply Forall_cons in Hr as [Hx Hr]. destruct (Z.eqb_spec x 255); cbn [negb]; [by apply IH|]. unfold vec_resize.
    apply Forall_app. split; [|apply Forall_replicate; by_decide]. apply Forall_take, Forall_insert; [done|]. unfold is_byte in *. lia.
Qed.

(** [DefaultCmp::find_short_succ] never panics and returns a key strictly above its
    argument. *)
Theorem default_succ_above a :
  ∃ r, find_short_succ DefaultCmp a = Ret r ∧ bytes_cmp a r = Lt.
Proof. eexists. split; [done|]. apply (short_succ_from_gt [] a). Qed.
