(* ===== verification/Iterator.v ===== *)
(** * Iterator: what the iterators of the crate promise

    The contract of [trait LdbIterator] ([src/types.rs]) as a class: an iterator walks a list
    of entries, and every operation is determined by the list and the position.  The clients
    of iterators are verified against it: here [LdbIteratorIter] and the shared test
    [test_iterator_properties] of [src/test_util.rs] ("every iterator defined in this code
    base should pass this test"). *)

From S2P Require Import Prelude Types Cmp.

Abbreviation entry := (bytes * bytes)%type (only parsing).

(** Before the first entry, at the [i]-th one, or moved off either end.  What [advance] and
    [prev] do off an end differs between the iterators. *)
Inductive pos := Start | At (i : nat) | Off.
#[export] Instance pos_eq_dec : EqDecision pos.
Proof. solve_decision. Defined.

Definition on_entry (p : pos) : bool := match p with At _ => true | _ => false end.
Definition entry_at (l : list entry) (p : pos) : option entry :=
  match p with At i => l !! i | _ => None end.

Definition at_or_off (l : list entry) (i : nat) : pos := if decide (i < length l)%nat then At i else Off.

Definition pos_next (l : list entry) (p : pos) : pos :=
  match p with Start => at_or_off l 0 | At i => at_or_off l (S i) | Off => Off end.
Definition pos_prev (p : pos) : pos := match p with At (S i) => At i | _ => Off end.

(** The first entry whose key is not below [key]. *)
Fixpoint seek_index (c : Cmp) {OC : OrderedCmp c} (key : bytes) (l : list entry) : nat :=
  match l with
  | [] => 0
  | (k, _) :: l => if is_lt (ord c k key) then S (seek_index c key l) else 0
  end.
Definition pos_seek (c : Cmp) {OC : OrderedCmp c} (key : bytes) (l : list entry) : pos :=
  at_or_off l (seek_index c key l).

Class ForwardIterator (c : Cmp) {OC : OrderedCmp c} (It : Type) `{LdbIterator It} := {
  view : It → list entry → pos → Prop;
  view_bound it l i : view it l (At i) → (i < length l)%nat;
  advance_law it l p : view it l p → p ≠ Off →
    ∃ it', it_advance it = Ret (it', on_entry (pos_next l p)) ∧ view it' l (pos_next l p);
  current_law it l p : view it l p → it_current it = Ret (entry_at l p);
  valid_law it l p : view it l p → it_valid it = Ret (on_entry p);
  reset_law it l p : view it l p → ∃ it', it_reset it = Ret it' ∧ view it' l Start;
  seek_law it l p key : view it l p → key_ok c key →
    ∃ it', it_seek key it = Ret it' ∧ view it' l (pos_seek c key l);
}.

Class BackwardIterator (c : Cmp) {OC : OrderedCmp c} (It : Type) `{FI : ForwardIterator c It} : Prop :=
  prev_law it l i : view it l (At i) →
    ∃ it', it_prev it = Ret (it', on_entry (pos_prev (At i))) ∧ view it' l (pos_prev (At i)).

(** ** Clients *)

Section clients.
Context `{LdbIterator It}.

(** [LdbIteratorIter]: the entries [next] gives until it gives none. *)
Fixpoint collect (fuel : nat) (it : It) : exec (It * list entry) :=
  match fuel with
  | O => NoFuel
  | S fuel =>
      '(it, kv) ← it_next it;
      match kv with
      | Some e => '(it, l) ← collect fuel it; Ret (it, e :: l)
      | None => Ret (it, [])
      end
  end.

Definition assert_eq_entry (a b : option entry) : exec () := massert (bool_decide (a = b)).
Definition assert_advance (b : bool) (it : It) : exec It :=
  '(it, r) ← it_advance it; _ ← massert (Bool.eqb r b); Ret it.
Definition assert_valid (b : bool) (it : It) : exec () :=
  r ← it_valid it; massert (Bool.eqb r b).
Definition assert_prev (b : bool) (it : It) : exec It :=
  '(it, r) ← it_prev it; _ ← massert (Bool.eqb r b); Ret it.
Definition assert_current (e : option entry) (it : It) : exec () :=
  kv ← current_key_val it; assert_eq_entry e kv.

Definition test_iterator_properties (it : It) : exec () :=
  _ ← assert_valid false it;
  it ← assert_advance true it;
  _ ← assert_valid true it;
  first ← current_key_val it;
  it ← assert_advance true it;
  second ← current_key_val it;
  it ← assert_advance true it;
  third ← current_key_val it;
  it ← assert_advance true it;
  _ ← assert_valid true it;
  fourth ← current_key_val it;
  it ← assert_advance false it;
  _ ← assert_valid false it;

  it ← it_reset it;
  k4 ← unwrap fourth;
  it ← it_seek k4.1 it;
  _ ← assert_valid true it;
  k2 ← unwrap second;
  it ← it_seek k2.1 it;
  _ ← assert_valid true it;
  '(it, _) ← it_prev it;
  _ ← assert_current first it;

  it ← it_reset it;
  _ ← assert_valid false it;
  it ← assert_advance true it;
  _ ← assert_current first it;
  it ← assert_advance true it;
  _ ← assert_current second it;
  it ← assert_advance true it;
  _ ← assert_current third it;
  it ← assert_prev true it;
  _ ← assert_current second it;
  it ← assert_prev true it;
  _ ← assert_current first it;
  it ← assert_prev false it;
  assert_valid false it.

End clients.

(** ** Iterators that share a state

    The iterators of a database share its files and caches: an iterator is then a pair of the
    shared state and a value of its own.  [own_iterator] is the iterator that does not use the
    state.  The contract is stated with a ghost value, which grows: what an iterator does keeps
    the positions of the others. *)

Definition own_iterator {St : Type} `{LdbIterator It} : LdbIterator (St * It) := {|
  it_advance s := '(it, r) ← it_advance s.2; Ret ((s.1, it), r);
  it_current s := it_current s.2;
  it_seek key s := it ← it_seek key s.2; Ret (s.1, it);
  it_reset s := it ← it_reset s.2; Ret (s.1, it);
  it_valid s := it_valid s.2;
  it_prev s := '(it, r) ← it_prev s.2; Ret ((s.1, it), r);
|}.

Class SharedState (St : Type) := {
  ghost : Type;
  shared_ok : ghost → St → Prop;
  grows : ghost → ghost → Prop;
  grows_preorder :: PreOrder grows;
}.

Class SharedIterator (c : Cmp) {OC : OrderedCmp c} (St It : Type) `{SS : SharedState St} `{LI : !LdbIterator (St * It)} := {
  gview : ghost → It → list entry → pos → Prop;
  gview_mono g g' it l p : grows g g' → gview g it l p → gview g' it l p;
  gview_bound g it l i : gview g it l (At i) → (i < length l)%nat;
  gadvance_law g s it l p : shared_ok g s → gview g it l p → p ≠ Off →
    ∃ s' it' g', it_advance (s, it) = Ret ((s', it'), on_entry (pos_next l p)) ∧ shared_ok g' s' ∧ grows g g' ∧ gview g' it' l (pos_next l p);
  gcurrent_law g s it l p : shared_ok g s → gview g it l p → it_current (s, it) = Ret (entry_at l p);
  gvalid_law g s it l p : shared_ok g s → gview g it l p → it_valid (s, it) = Ret (on_entry p);
  greset_law g s it l p : shared_ok g s → gview g it l p →
    ∃ s' it' g', it_reset (s, it) = Ret (s', it') ∧ shared_ok g' s' ∧ grows g g' ∧ gview g' it' l Start;
  gseek_law g s it l p key : shared_ok g s → gview g it l p → key_ok c key →
    ∃ s' it' g', it_seek key (s, it) = Ret (s', it') ∧ shared_ok g' s' ∧ grows g g' ∧ gview g' it' l (pos_seek c key l);
}.

Section shared.
Context {c : Cmp} {OC : OrderedCmp c} {St : Type} {SS : SharedState St}.

(** An iterator of its own among those that share a state. *)
#[program] Definition own_shared `{LI : LdbIterator It} {FI : ForwardIterator c It} : SharedIterator c St It (LI := own_iterator) :=
  {| gview _ it l p := view it l p |}.
Next Obligation. by intros. Qed.
Next Obligation. intros It LI FI g it l i V. exact (view_bound _ _ _ V). Qed.
Next Obligation.
  intros It LI FI g s it l p Hs V Hp. destruct (advance_law _ _ _ V Hp) as (it' & E & V'). cbn. rewrite E. by exists s, it', g.
Qed.
Next Obligation. intros It LI FI g s it l p Hs V. exact (current_law _ _ _ V). Qed.
Next Obligation. intros It LI FI g s it l p Hs V. exact (valid_law _ _ _ V). Qed.
Next Obligation. intros It LI FI g s it l p Hs V. destruct (reset_law _ _ _ V) as (it' & E & V'). cbn. rewrite E. by exists s, it', g. Qed.
Next Obligation.
  intros It LI FI g s it l p key Hs V Hk. destruct (seek_law _ _ _ key V Hk) as (it' & E & V'). cbn. rewrite E. by exists s, it', g.
Qed.

(** With the state, it is an iterator on its own. *)
#[program] Definition shared_forward {It : Type} {LI : LdbIterator (St * It)} {SI : SharedIterator c St It} : ForwardIterator c (St * It) :=
  {| view s l p := ∃ g, shared_ok g s.1 ∧ gview g s.2 l p |}.
Next Obligation. intros It LI SI s l i (g & _ & V). by eapply gview_bound. Qed.
Next Obligation.
  intros It LI SI [s it] l p (g & Hs & V) Hp. destruct (gadvance_law _ _ _ _ _ Hs V Hp) as (s' & it' & g' & E & Hs' & _ & V'). exists (s', it'). split; [done|]. by exists g'.
Qed.
Next Obligation. intros It LI SI [s it] l p (g & Hs & V). by eapply gcurrent_law. Qed.
Next Obligation. intros It LI SI [s it] l p (g & Hs & V). by eapply gvalid_law. Qed.
Next Obligation.
  intros It LI SI [s it] l p (g & Hs & V). destruct (greset_law _ _ _ _ _ Hs V) as (s' & it' & g' & E & Hs' & _ & V'). exists (s', it'). split; [done|]. by exists g'.
Qed.
Next Obligation.
  intros It LI SI [s it] l p key (g & Hs & V) Hk. destruct (gseek_law _ _ _ _ _ key Hs V Hk) as (s' & it' & g' & E & Hs' & _ & V'). exists (s', it'). split; [done|]. by exists g'.
Qed.

End shared.

(** A state that nothing is said about. *)
Definition no_state : SharedState () := {| ghost := (); shared_ok _ _ := True; grows _ _ := True; grows_preorder := Build_PreOrder _ (λ _, I) (λ _ _ _ _ _, I) |}.

(** ** The vector iterator of the tests *)

Record TestLdbIter := mkTestIter { v : list entry; ix : Z; init : bool }.

Definition TestLdbIter_new (l : list entry) : TestLdbIter := {| v := l; ix := 0; init := false |}.

Fixpoint test_seek_loop (l : list entry) (k : bytes) (i : Z) : exec Z :=
  match l with
  | [] => Ret i
  | (key, _) :: l => o ← cmp DefaultCmp key k; if is_lt o then test_seek_loop l k (i + 1) else Ret i
  end.

#[export] Instance TestLdbIter_iterator : LdbIterator TestLdbIter := {
  it_advance it :=
    last ← usub (zlen (v it)) 1;
    if ix it =? last then Ret ({| v := v it; ix := ix it + 1; init := init it |}, false)
    else if negb (init it) then Ret ({| v := v it; ix := ix it; init := true |}, true)
    else Ret ({| v := v it; ix := ix it + 1; init := init it |}, true);
  it_reset it := Ret {| v := v it; ix := 0; init := false |};
  it_current it :=
    if init it && (ix it <? zlen (v it)) then e ← index (v it) (ix it); Ret (Some e) else Ret None;
  it_valid it := Ret (init it && (ix it <? zlen (v it)));
  it_seek k it := i ← test_seek_loop (v it) k 0; Ret {| v := v it; ix := i; init := true |};
  it_prev it :=
    if negb (init it) || (ix it =? 0) then Ret ({| v := v it; ix := ix it; init := false |}, false)
    else Ret ({| v := v it; ix := ix it - 1; init := init it |}, true);
}.

(** ** Lemmas about positions *)

Lemma at_or_off_lt l i : (i < length l)%nat → at_or_off l i = At i.
Proof. intros. unfold at_or_off. by rewrite decide_True. Qed.
Lemma at_or_off_ge l i : (length l ≤ i)%nat → at_or_off l i = Off.
Proof. intros. unfold at_or_off. by rewrite decide_False by lia. Qed.

Section seek.
Context {c : Cmp} {OC : OrderedCmp c}.

Definition key_lt (a b : entry) : Prop := ord c a.1 b.1 = Lt.

Lemma seek_index_app key l1 l2 :
  Forall (λ e : entry, ord c e.1 key = Lt) l1 → Forall (λ e : entry, ord c e.1 key ≠ Lt) l2 →
  seek_index c key (l1 ++ l2) = length l1.
Proof.
  induction l1 as [|[k w] l1 IH]; simpl.
  - intros _. destruct l2 as [|[k w] l2]; [done|]. intros [Hk _]%Forall_cons. simpl in *.
    by destruct (ord c k key).
  - intros [Hk H1]%Forall_cons H2. simpl in Hk. rewrite Hk. simpl. by rewrite IH.
Qed.

(** The entries in front do not count, and only the first one behind them does. *)
Lemma seek_index_skip key l1 l2 :
  Forall (λ e : entry, ord c e.1 key = Lt) l1 → seek_index c key (l1 ++ l2) = (length l1 + seek_index c key l2)%nat.
Proof. induction 1 as [|[k w] l1 Hk H1 IH]; simpl in *; [done|]. rewrite Hk. simpl. by rewrite IH. Qed.

Lemma seek_index_here key e l : ord c e.1 key ≠ Lt → seek_index c key (e :: l) = 0%nat.
Proof. destruct e as [k w]. simpl. by destruct (ord c k key). Qed.

Lemma seek_index_app_l key l1 l2 :
  (seek_index c key l1 < length l1)%nat → seek_index c key (l1 ++ l2) = seek_index c key l1.
Proof.
  induction l1 as [|[k w] l1 IH]; simpl; [lia|]. destruct (ord c k key); simpl; try done. intros H. rewrite IH; [done|lia].
Qed.

Lemma seek_index_all key l : seek_index c key l = length l → Forall (λ e : entry, ord c e.1 key = Lt) l.
Proof.
  induction l as [|[k w] l IH]; simpl; [constructor|]. destruct (ord c k key) eqn:E; simpl; try done. intros [= H]. by constructor; [|apply IH].
Qed.

Lemma seek_index_below key l i e :
  l !! i = Some e → (i < seek_index c key l)%nat → ord c e.1 key = Lt.
Proof.
  revert i. induction l as [|[k w] l IH]; intros i Hi Hlt; simpl in *; [done|].
  destruct (ord c k key) eqn:Ho; simpl in *; try lia. destruct i as [|i]; simplify_eq/=; [done|].
  apply (IH i Hi). lia.
Qed.

Lemma seek_index_not_below key l e : l !! seek_index c key l = Some e → ord c e.1 key ≠ Lt.
Proof.
  induction l as [|[k w] l IH]; simpl; [done|].
  destruct (ord c k key) eqn:Ho; simpl; intros He; simplify_eq/=; try congruence. by apply IH.
Qed.

Lemma seek_index_self l i e :
  StronglySorted key_lt l → l !! i = Some e → seek_index c e.1 l = i.
Proof.
  revert i. induction l as [|[k w] l IH]; intros i; [done|].
  intros [Hs Hlt]%StronglySorted_inv. destruct i as [|i]; simpl; intros Hi.
  - simplify_eq/=. by rewrite ord_refl.
  - rewrite Forall_forall in Hlt. pose proof (Hlt e (list_elem_of_lookup_2 _ _ _ Hi)) as Hk.
    unfold key_lt in Hk. simpl in Hk. rewrite Hk. simpl. by rewrite (IH i).
Qed.

End seek.

Ltac iter_step L :=
  let it' := fresh "it" in let E := fresh "E" in let V := fresh "V" in
  destruct L as (it' & E & V); rewrite E, ?bind_Ret; clear E.

Section client_proofs.
Context {c : Cmp} {OC : OrderedCmp c} `{LI : LdbIterator It} {FI : ForwardIterator c It}.

Lemma next_law it l p :
  view it l p → p ≠ Off →
  ∃ it', it_next it = Ret (it', entry_at l (pos_next l p)) ∧ view it' l (pos_next l p).
Proof.
  intros V Hp. unfold it_next. destruct (advance_law it l p V Hp) as (it' & -> & V').
  exists it'. split; [|done]. rewrite bind_Ret.
  destruct (pos_next l p); simpl; [done| |done]. by rewrite (current_law _ _ _ V').
Qed.

Lemma collect_from it l p i :
  view it l p → p ≠ Off → pos_next l p = at_or_off l i → (i ≤ length l)%nat →
  ∀ fuel, (length l - i < fuel)%nat →
  ∃ it', collect fuel it = Ret (it', drop i l) ∧ view it' l Off.
Proof.
  intros V Hp Hn Hi fuel. revert it p i V Hp Hn Hi.
  induction fuel as [|fuel IH]; intros it p i V Hp Hn Hi Hf; [lia|]. cbn [collect].
  destruct (next_law it l p V Hp) as (it1 & -> & V1). rewrite Hn in *. rewrite bind_Ret.
  destruct (decide (i < length l)%nat) as [Hlt|Hge].
  - rewrite at_or_off_lt in * by done. cbn [entry_at].
    destruct (lookup_lt_is_Some_2 l i Hlt) as [e He]. rewrite He.
    destruct (IH it1 (At i) (S i) V1) as (it2 & -> & V2); [done..|lia|lia|].
    exists it2. split; [|done]. cbn. by rewrite (drop_S _ _ _ He).
  - rewrite at_or_off_ge in * by lia. exists it1. cbn. by rewrite drop_ge by lia.
Qed.

(** Iterating from the start gives all the entries. *)
Lemma collect_all it l fuel :
  view it l Start → (length l < fuel)%nat → ∃ it', collect fuel it = Ret (it', l) ∧ view it' l Off.
Proof. intros V Hf. by apply (collect_from it l Start 0 V); try done; lia. Qed.

(** Seeking and iterating gives the entries from the key on. *)
Lemma seek_law_at it l p key e rest :
  view it l p → key_ok c key → drop (seek_index c key l) l = e :: rest →
  ∃ it', it_seek key it = Ret it' ∧ it_current it' = Ret (Some e) ∧ it_valid it' = Ret true.
Proof.
  intros V Hk Hd. destruct (seek_law it l p key V Hk) as (it' & -> & V').
  assert (l !! seek_index c key l = Some e) as Hl by (rewrite <- (Nat.add_0_r (seek_index c key l)), <- lookup_drop; by rewrite Hd).
  unfold pos_seek in V'. rewrite at_or_off_lt in V' by (by apply lookup_lt_Some in Hl).
  exists it'. split; [done|]. rewrite (current_law _ _ _ V'), (valid_law _ _ _ V'). cbn. by rewrite Hl.
Qed.

(** The assertions of the shared test, as functions of the position. *)
Lemma assert_valid_ok it l p b : view it l p → on_entry p = b → assert_valid b it = Ret ().
Proof. intros V <-. unfold assert_valid. rewrite (valid_law _ _ _ V). by destruct (on_entry p). Qed.

Lemma assert_current_ok it l p e : view it l p → entry_at l p = e → assert_current e it = Ret ().
Proof.
  intros V <-. unfold assert_current, current_key_val, assert_eq_entry.
  rewrite (current_law _ _ _ V), bind_Ret. by rewrite bool_decide_true.
Qed.

Lemma current_at it l i e : view it l (At i) → l !! i = Some e → it_current it = Ret (Some e).
Proof. intros V <-. apply (current_law _ _ _ V). Qed.

Lemma assert_advance_ok it l p p' b :
  view it l p → p ≠ Off → pos_next l p = p' → on_entry p' = b →
  ∃ it', assert_advance b it = Ret it' ∧ view it' l p'.
Proof.
  intros V Hp <- <-. unfold assert_advance. destruct (advance_law it l p V Hp) as (it' & -> & V').
  exists it'. split; [|done]. by destruct (on_entry _).
Qed.

Lemma assert_prev_ok `{BI : !BackwardIterator c It} it l i p' b :
  view it l (At i) → pos_prev (At i) = p' → on_entry p' = b →
  ∃ it', assert_prev b it = Ret it' ∧ view it' l p'.
Proof.
  intros V <- <-. unfold assert_prev. destruct (prev_law it l i V) as (it' & -> & V').
  exists it'. split; [|done]. by destruct (on_entry _).
Qed.

Lemma properties_of_laws `{BI : !BackwardIterator c It} it e1 e2 e3 e4 :
  let l := [e1; e2; e3; e4] in
  view it l Start → StronglySorted (key_lt (c := c)) l → key_ok c e2.1 → key_ok c e4.1 →
  test_iterator_properties it = Ret ().
Proof.
  intros l V Hs K2 K4. unfold test_iterator_properties, current_key_val.
  assert (pos_seek c e4.1 l = At 3) as S4 by (unfold pos_seek; by rewrite (seek_index_self l 3 e4 Hs)).
  assert (pos_seek c e2.1 l = At 1) as S2 by (unfold pos_seek; by rewrite (seek_index_self l 1 e2 Hs)).
  rewrite (assert_valid_ok it l Start), bind_Ret by done.
  iter_step (assert_advance_ok _ l Start (At 0) true V ltac:(done) eq_refl eq_refl).
  rewrite (assert_valid_ok _ l (At 0)), bind_Ret, (current_at _ l 0 e1), bind_Ret by done.
  iter_step (assert_advance_ok _ l (At 0) (At 1) true V0 ltac:(done) eq_refl eq_refl).
  rewrite (current_at _ l 1 e2), bind_Ret by done.
  iter_step (assert_advance_ok _ l (At 1) (At 2) true V1 ltac:(done) eq_refl eq_refl).
  rewrite (current_at _ l 2 e3), bind_Ret by done.
  iter_step (assert_advance_ok _ l (At 2) (At 3) true V2 ltac:(done) eq_refl eq_refl).
  rewrite (assert_valid_ok _ l (At 3)), bind_Ret, (current_at _ l 3 e4), bind_Ret by done.
  iter_step (assert_advance_ok _ l (At 3) Off false V3 ltac:(done) eq_refl eq_refl).
  rewrite (assert_valid_ok _ l Off), bind_Ret by done.
  iter_step (reset_law _ l Off V4). cbn [unwrap]. rewrite bind_Ret.
  iter_step (seek_law _ l Start e4.1 V5 K4). rewrite S4 in *.
  rewrite (assert_valid_ok _ l (At 3)), ?bind_Ret by done.
  iter_step (seek_law _ l (At 3) e2.1 V6 K2). rewrite S2 in *.
  rewrite (assert_valid_ok _ l (At 1)), bind_Ret by done.
  iter_step (prev_law _ l 1 V7).
  rewrite (assert_current_ok _ l (At 0)), bind_Ret by done.
  iter_step (reset_law _ l (At 0) V8).
  rewrite (assert_valid_ok _ l Start), bind_Ret by done.
  iter_step (assert_advance_ok _ l Start (At 0) true V9 ltac:(done) eq_refl eq_refl).
  rewrite (assert_current_ok _ l (At 0)), bind_Ret by done.
  iter_step (assert_advance_ok _ l (At 0) (At 1) true V10 ltac:(done) eq_refl eq_refl).
  rewrite (assert_current_ok _ l (At 1)), bind_Ret by done.
  iter_step (assert_advance_ok _ l (At 1) (At 2) true V11 ltac:(done) eq_refl eq_refl).
  rewrite (assert_current_ok _ l (At 2)), bind_Ret by done.
  iter_step (assert_prev_ok _ l 2 (At 1) true V12 eq_refl eq_refl).
  rewrite (assert_current_ok _ l (At 1)), bind_Ret by done.
  iter_step (assert_prev_ok _ l 1 (At 0) true V13 eq_refl eq_refl).
  rewrite (assert_current_ok _ l (At 0)), bind_Ret by done.
  iter_step (assert_prev_ok _ l 0 Off false V14 eq_refl eq_refl).
  by rewrite (assert_valid_ok _ l Off).
Qed.

End client_proofs.

(** ** The vector iterator satisfies the contract

    On vectors of at least two entries; with a single one, its first [advance] already fails. *)

Definition test_view (it : TestLdbIter) (l : list entry) (p : pos) : Prop :=
  v it = l ∧ (2 ≤ length l)%nat ∧
  match p with
  | Start => ix it = 0 ∧ init it = false
  | At i => ix it = Z.of_nat i ∧ init it = true ∧ (i < length l)%nat
  | Off => init it = false ∨ zlen l ≤ ix it
  end.

Lemma test_seek_loop_ok l k i : test_seek_loop l k i = Ret (i + Z.of_nat (seek_index DefaultCmp k l)).
Proof.
  revert i. induction l as [|[key w] l IH]; intros i; cbn [test_seek_loop seek_index]; [f_equal; lia|].
  rewrite cmp_ret, bind_Ret by exact I.
  destruct (is_lt _); [rewrite IH|]; f_equal; lia.
Qed.

Lemma seek_index_le `{OrderedCmp c} k l : (seek_index c k l ≤ length l)%nat.
Proof. induction l as [|[key w] l IH]; simpl; [done|]. destruct (is_lt _); lia. Qed.

#[export] Instance TestLdbIter_forward : ForwardIterator DefaultCmp TestLdbIter.
Proof.
  refine {| view := test_view |}; unfold test_view.
  - tauto.
  - intros it l p (<- & Hl & Hp) Hne. cbn. rewrite usub_Ret, bind_Ret by lia.
    destruct p as [|i|]; [| |done]; cbn.
    + destruct Hp as [-> ->]. rewrite at_or_off_lt by lia. ztest. eexists. split; [done|]. cbn. split_and!; done || lia.
    + destruct Hp as (-> & -> & Hi). destruct (Z.eqb_spec (Z.of_nat i) (zlen (v it) - 1)).
      * rewrite at_or_off_ge by lia. eexists. split; [done|]. cbn. split_and!; [done|lia|right; lia].
      * rewrite at_or_off_lt by lia. eexists. split; [done|]. cbn. split_and!; done || lia.
  - intros it l p (<- & Hl & Hp). cbn. destruct p as [|i|]; cbn.
    + by destruct Hp as [-> ->].
    + destruct Hp as (-> & -> & Hi). cbn. ztest. destruct (lookup_lt_is_Some_2 _ _ Hi) as [e He].
      by rewrite (index_lookup _ _ _ He), He.
    + destruct Hp as [->|Hp]; [done|]. ztest. by rewrite andb_false_r.
  - intros it l p (<- & Hl & Hp). cbn. destruct p as [|i|]; cbn.
    + by destruct Hp as [-> ->].
    + destruct Hp as (-> & -> & Hi). cbn. by ztest.
    + destruct Hp as [->|Hp]; [done|]. ztest. by rewrite andb_false_r.
  - intros it l p (<- & Hl & _). eexists. split; [done|]. done.
  - intros it l p k (<- & Hl & _) _. cbn. rewrite test_seek_loop_ok, bind_Ret. eexists. split; [done|].
    split; [done|]. split; [done|]. cbn. unfold pos_seek, at_or_off. case_decide; cbn; [done|]. right. lia.
Defined.

#[export] Instance TestLdbIter_backward : BackwardIterator DefaultCmp TestLdbIter.
Proof.
  intros it l i (<- & Hl & Hx & Hini & Hi). cbn. rewrite Hx, Hini. destruct i as [|i]; cbn.
  - eexists. split; [done|]. split_and!; [done..|by left].
  - eexists. split; [done|]. split_and!; cbn; done || lia.
Qed.

(** ** Theorems *)

(** Every iterator that satisfies the contract passes the crate's shared test
    [test_iterator_properties] on any four entries with strictly increasing keys: none of its
    assertions fails. *)
Theorem lawful_iterators_pass_test `{LI : LdbIterator It} (c : Cmp) {OC : OrderedCmp c}
    {FI : ForwardIterator c It} {BI : BackwardIterator c It} it e1 e2 e3 e4 :
  view it [e1; e2; e3; e4] Start → StronglySorted (key_lt (c := c)) [e1; e2; e3; e4] →
  key_ok c e2.1 → key_ok c e4.1 → test_iterator_properties it = Ret ().
Proof. apply properties_of_laws. Qed.

Lemma lawful_iterators_pass_test_witness :
  test_iterator_properties (TestLdbIter_new [([97], [1]); ([98], [2]); ([99], []); ([100], [4])]) = Ret ().
Proof.
  apply (lawful_iterators_pass_test DefaultCmp _ ([97], [1]) ([98], [2]) ([99], []) ([100], [4]));
    [by split_and!; simpl; try lia| |exact I|exact I].
  repeat constructor.
Defined.
