(* ===== verification/KeyTypes.v ===== *)
(** * KeyTypes: [src/key_types.rs], and the key comparators of [src/cmp.rs]

    Memtable keys, internal keys and lookup keys, with their parsers and comparison
    functions, and the comparators [InternalKeyCmp] and [MemtableKeyCmp] built on them. *)

From S2P Require Import Prelude Encoding Types Cmp.

Inductive ValueType := TypeDeletion | TypeValue.
#[export] Instance ValueType_eq_dec : EqDecision ValueType.
Proof. solve_decision. Defined.

(** [t as u64], [t as u8] *)
Definition vt_u64 (t : ValueType) : Z :=
  match t with TypeDeletion => 0 | TypeValue => 1 end.

Definition U64_SPACE : Z := 8.

(** [s << 8 | t as u64] *)
Definition make_tag (s : Z) (t : ValueType) : Z := Z.lor (wrap 64 (Z.shiftl s 8)) (vt_u64 t).

(** Writes to a fixed-size slice filled with zeroes: too much data fails the [expect]. *)
Definition fill_slice (n : Z) (data : bytes) : exec bytes :=
  if zlen data <=? n then Ret (data ++ replicate (Z.to_nat (n - zlen data)) 0) else Panic.

Record LookupKey := mkLookupKey { lk_key : bytes; key_offset : Z }.

Section defs.
Context {IE : IntegerEncoding}.

Definition LookupKey_new_full (k : bytes) (s : Z) (t : ValueType) : exec LookupKey :=
  let internal_keylen := zlen k + U64_SPACE in
  key ← fill_slice (zlen k + required_space internal_keylen + U64_SPACE)
          (encode_var internal_keylen ++ k ++ encode_fixed 8 (make_tag s t));
  Ret {| lk_key := key; key_offset := required_space internal_keylen |}.

Definition LookupKey_new (k : bytes) (s : Z) : exec LookupKey :=
  LookupKey_new_full k s TypeValue.

Definition memtable_key (lk : LookupKey) : bytes := lk_key lk.
Definition user_key (lk : LookupKey) : exec bytes :=
  e ← usub (zlen (lk_key lk)) 8; slice (lk_key lk) (key_offset lk) e.
Definition internal_key (lk : LookupKey) : exec bytes :=
  slice_from (lk_key lk) (key_offset lk).

Definition parse_tag (tag : Z) : ValueType * Z :=
  let seq := Z.shiftr tag 8 in
  let typ := Z.land tag 0xff in
  if typ =? 0 then (TypeDeletion, seq)
  else if typ =? 1 then (TypeValue, seq)
  else (TypeValue, seq).

Definition build_memtable_key (key value : bytes) (t : ValueType) (seq : Z) : exec bytes :=
  let keysize := zlen key + U64_SPACE in
  let valsize := zlen value in
  let data := encode_var keysize ++ key ++ encode_fixed 8 (make_tag seq t)
              ++ encode_var valsize ++ value in
  let n := keysize + valsize + required_space keysize + required_space valsize in
  buf ← fill_slice n data;
  _ ← massert (zlen data =? n);
  Ret buf.

(** Returns (key length, key offset, tag, value length, value offset). *)
Definition parse_memtable_key (mkey : bytes) : exec (Z * Z * Z * Z * Z) :=
  '(keylen, i) ← unwrap (decode_var 64 mkey);
  let keyoff := i in
  ulen ← usub keylen 8;
  i ← uadd 64 i ulen;
  if i <? zlen mkey then
    t ← slice mkey i (i + 8);
    let tag := decode_fixed t in
    let i := i + 8 in
    rest ← slice_from mkey i;
    '(vallen, j) ← unwrap (decode_var 64 rest);
    let valoff := i + j in
    Ret (ulen, keyoff, tag, vallen, valoff)
  else Ret (ulen, keyoff, 0, 0, 0).

Definition cmp_memtable_key (ucmp : Cmp) (a b : bytes) : exec comparison :=
  '(alen, aoff) ← unwrap (decode_var 64 a);
  '(blen, boff) ← unwrap (decode_var 64 b);
  aend ← uadd 64 aoff alen; atag ← usub aend 8;
  bend ← uadd 64 boff blen; btag ← usub bend 8;
  userkey_a ← slice a aoff atag;
  userkey_b ← slice b boff btag;
  c ← cmp ucmp userkey_a userkey_b;
  match c with
  | Lt => Ret Lt
  | Gt => Ret Gt
  | Eq =>
      ta ← slice a atag aend;
      tb ← slice b btag bend;
      let aseq := (parse_tag (decode_fixed ta)).2 in
      let bseq := (parse_tag (decode_fixed tb)).2 in
      Ret (bseq ?= aseq)
  end.

Definition parse_internal_key (ikey : bytes) : exec (ValueType * Z * bytes) :=
  if decide (ikey = []) then Ret (TypeDeletion, 0, [])
  else
    _ ← massert (8 <=? zlen ikey);
    t ← slice_from ikey (zlen ikey - 8);
    let '(typ, seq) := parse_tag (decode_fixed t) in
    u ← slice ikey 0 (zlen ikey - 8);
    Ret (typ, seq, u).

Definition cmp_internal_key (ucmp : Cmp) (a b : bytes) : exec comparison :=
  alen ← usub (zlen a) 8; ua ← slice a 0 alen;
  blen ← usub (zlen b) 8; ub ← slice b 0 blen;
  c ← cmp ucmp ua ub;
  match c with
  | Lt => Ret Lt
  | Gt => Ret Gt
  | Eq =>
      ta ← slice_from a alen;
      tb ← slice_from b blen;
      let seqa := (parse_tag (decode_fixed ta)).2 in
      let seqb := (parse_tag (decode_fixed tb)).2 in
      Ret (seqb ?= seqa)
  end.

Definition truncate_to_userkey (ikey : bytes) : exec bytes :=
  _ ← massert (8 <=? zlen ikey);
  Ret (vec_truncate (zlen ikey - 8) ikey).

(** ** [InternalKeyCmp] and [MemtableKeyCmp] *)

Definition internal_find_shortest_sep (u : Cmp) (a b : bytes) : exec bytes :=
  if decide (a = b) then Ret a
  else
    '(_, seqa, keya) ← parse_internal_key a;
    '(_, _, keyb) ← parse_internal_key b;
    sep ← find_shortest_sep u keya keyb;
    short ← (if zlen sep <? zlen keya then c ← cmp u keya sep; Ret (is_lt c) else Ret false);
    lk ← LookupKey_new sep (if (short : bool) then MAX_SEQUENCE_NUMBER else seqa);
    internal_key lk.

Definition internal_find_short_succ (u : Cmp) (a : bytes) : exec bytes :=
  '(_, seq, key) ← parse_internal_key a;
  succ ← find_short_succ u key;
  lk ← LookupKey_new succ seq;
  internal_key lk.

Definition InternalKeyCmp (u : Cmp) : Cmp := {|
  cmp := cmp_internal_key u;
  find_shortest_sep := internal_find_shortest_sep u;
  find_short_succ := internal_find_short_succ u;
  cmp_id := cmp_id u;
|}.

(** [InternalKeyCmp::cmp_inner] *)
Definition cmp_inner (u : Cmp) (a b : bytes) : exec comparison := cmp u a b.

Definition MemtableKeyCmp (u : Cmp) : Cmp := {|
  cmp := cmp_memtable_key u;
  find_shortest_sep _ _ := Panic;
  find_short_succ _ := Panic;
  cmp_id := cmp_id u;
|}.

(** ** Views of keys *)

(** The internal key of a user key, a sequence number and a type. *)
Definition ikey (k : bytes) (s : Z) (t : ValueType) : bytes := k ++ encode_fixed 8 (make_tag s t).

(** The memtable entry of the same, with a value. *)
Definition mkey (k : bytes) (s : Z) (t : ValueType) (v : bytes) : bytes :=
  encode_var (zlen k + 8) ++ ikey k s t ++ encode_var (zlen v) ++ v.

Definition ukey_of (a : bytes) : bytes := take (length a - 8) a.
Definition typ_of (a : bytes) : ValueType := (parse_tag (decode_fixed (drop (length a - 8) a))).1.
Definition seq_of (a : bytes) : Z := (parse_tag (decode_fixed (drop (length a - 8) a))).2.

(** The internal key inside a memtable key. *)
Definition ikey_of_mkey (a : bytes) : bytes :=
  match decode_var 64 a with
  | Some (l, off) => take (Z.to_nat l) (drop (Z.to_nat off) a)
  | None => []
  end.

End defs.

(** ** Tags *)

Lemma parse_tag_seq tag : (parse_tag tag).2 = Z.shiftr tag 8.
Proof. unfold parse_tag. by repeat destruct (_ =? _). Qed.

Lemma make_tag_val s t : is_u 56 s → make_tag s t = s * 256 + vt_u64 t.
Proof.
  intros Hs. unfold make_tag, wrap, is_u in *. rewrite Z.shiftl_mul_pow2 by lia.
  change (2 ^ 8) with 256. rewrite Z.mod_small by lia.
  assert (Z.land (s * 256) (vt_u64 t) = 0) as Hl.
  { destruct t; cbn [vt_u64]; [apply Z.land_0_r|].
    change 1 with (Z.ones 1). rewrite Z.land_ones by lia.
    change (2 ^ 1) with 2. replace (s * 256) with (s * 128 * 2) by lia. by rewrite Z.mod_mul. }
  by rewrite <- Z.lxor_lor, <- Z.add_nocarry_lxor.
Qed.

Lemma parse_make_tag s t : is_u 56 s → parse_tag (make_tag s t) = (t, s).
Proof.
  intros Hs. rewrite make_tag_val by done. unfold parse_tag.
  rewrite Z.shiftr_div_pow2 by lia. change 0xff with (Z.ones 8). rewrite Z.land_ones by lia.
  change (2 ^ 8) with 256. rewrite Z.div_add_l by lia.
  rewrite (Z.add_comm (s * 256)), Z.mod_add by lia.
  replace (vt_u64 t / 256) with 0 by (by destruct t). rewrite Z.add_0_r. by destruct t.
Qed.

Lemma make_tag_u64 s t : is_u 56 s → is_u 64 (make_tag s t).
Proof. intros Hs. rewrite make_tag_val by done. unfold is_u in *. destruct t; simpl; lia. Qed.

(** ** Internal keys *)

Section ikeys.
Context `{IEL : IntegerEncodingLaws}.

Lemma length_tag n : length (encode_fixed 8 n) = 8%nat.
Proof. by rewrite length_encode_fixed_nat. Qed.

Lemma length_ikey k s t : length (ikey k s t) = (length k + 8)%nat.
Proof. unfold ikey. by rewrite length_app, length_tag. Qed.

Lemma ukey_of_ikey k s t : ukey_of (ikey k s t) = k.
Proof.
  unfold ukey_of. rewrite length_ikey. unfold ikey.
  replace (length k + 8 - 8)%nat with (length k) by lia. apply take_app_length.
Qed.

Lemma seq_of_ikey k s t : is_u 56 s → seq_of (ikey k s t) = s.
Proof.
  intros Hs. unfold seq_of. rewrite length_ikey. unfold ikey.
  replace (length k + 8 - 8)%nat with (length k) by lia. rewrite drop_app_length.
  rewrite decode_encode_fixed by (try done; by apply make_tag_u64). by rewrite parse_make_tag.
Qed.

Lemma typ_of_ikey k s t : is_u 56 s → typ_of (ikey k s t) = t.
Proof.
  intros Hs. unfold typ_of. rewrite length_ikey. unfold ikey.
  replace (length k + 8 - 8)%nat with (length k) by lia. rewrite drop_app_length.
  rewrite decode_encode_fixed by (try done; by apply make_tag_u64). by rewrite parse_make_tag.
Qed.

Lemma lookup_key_spec k s t :
  is_u 64 (zlen k + 8) →
  ∃ lk, LookupKey_new_full k s t = Ret lk
    ∧ memtable_key lk = encode_var (zlen k + 8) ++ ikey k s t
    ∧ internal_key lk = Ret (ikey k s t)
    ∧ user_key lk = Ret k.
Proof.
  intros Hk. unfold LookupKey_new_full, fill_slice, U64_SPACE.
  pose proof (length_encode_var _ Hk) as Hl. pose proof (length_tag (make_tag s t)).
  rewrite !length_app. ztest. cbn [mbind exec_bind].
  replace (Z.to_nat _) with 0%nat by lia. cbn [replicate]. rewrite app_nil_r.
  eexists. split_and!; [done|done| |]; unfold internal_key, user_key; cbn [lk_key key_offset].
  - apply slice_from_app. lia.
  - unfold usub. rewrite !length_app. ztest. cbn [mbind exec_bind]. apply slice_app; lia.
Qed.

Lemma parse_internal_key_ikey k s t :
  is_u 56 s → parse_internal_key (ikey k s t) = Ret (t, s, k).
Proof.
  intros Hs. unfold parse_internal_key. pose proof (length_ikey k s t) as Hl.
  rewrite decide_False by (intros E; rewrite E in Hl; simpl in Hl; lia).
  ztest. cbn [massert mbind exec_bind]. unfold ikey in *.
  rewrite slice_from_app by lia. cbn [mbind exec_bind].
  rewrite decode_encode_fixed by (try done; by apply make_tag_u64).
  rewrite parse_make_tag by done. by rewrite slice_to_app by lia.
Qed.

(** The total functions [ukey_of] and [seq_of] are what the comparison reads. *)
Lemma cmp_internal_key_views u a b :
  8 ≤ zlen a → 8 ≤ zlen b →
  cmp_internal_key u a b =
    c ← cmp u (ukey_of a) (ukey_of b);
    Ret (match c with Eq => seq_of b ?= seq_of a | c => c end).
Proof.
  intros Ha Hb. unfold cmp_internal_key, usub. ztest. cbn [mbind exec_bind].
  unfold slice_from. rewrite !slice_spec by lia. cbn [mbind exec_bind].
  replace (Z.to_nat 0) with 0%nat by lia. rewrite !drop_0.
  replace (Z.to_nat (zlen a - 8 - 0)) with (length a - 8)%nat by lia.
  replace (Z.to_nat (zlen b - 8 - 0)) with (length b - 8)%nat by lia.
  change (take (length a - 8) a) with (ukey_of a). change (take (length b - 8) b) with (ukey_of b).
  destruct (cmp u (ukey_of a) (ukey_of b)) as [c| |]; [|done..]. cbn [mbind exec_bind].
  destruct c; [|done..]. unfold seq_of.
  replace (Z.to_nat (zlen a - 8)) with (length a - 8)%nat by lia.
  replace (Z.to_nat (zlen b - 8)) with (length b - 8)%nat by lia.
  rewrite !(take_ge (drop _ _)) by (rewrite length_drop; lia). done.
Qed.

Lemma length_ukey_of a : length (ukey_of a) = (length a - 8)%nat.
Proof. unfold ukey_of. rewrite length_take. lia. Qed.

Lemma parse_internal_key_views a :
  8 ≤ zlen a → parse_internal_key a = Ret (typ_of a, seq_of a, ukey_of a).
Proof.
  intros Ha. unfold parse_internal_key. rewrite decide_False by (intros ->; simpl in Ha; lia).
  ztest. cbn [massert mbind exec_bind]. unfold slice_from. rewrite !slice_spec by lia.
  cbn [mbind exec_bind]. replace (Z.to_nat 0) with 0%nat by lia. rewrite drop_0.
  replace (Z.to_nat (zlen a - 8 - 0)) with (length a - 8)%nat by lia.
  replace (Z.to_nat (zlen a - 8)) with (length a - 8)%nat by lia.
  rewrite (take_ge (drop _ _)) by (rewrite length_drop; lia). unfold seq_of, typ_of.
  by destruct (parse_tag _) as [t s].
Qed.

End ikeys.

(** ** The comparators are ordered *)

Section orders.
Context `{IEL : IntegerEncodingLaws} {u : Cmp} {UO : OrderedCmp u}.

(** User keys ascending, sequence numbers descending. *)
Definition ord_internal (a b : bytes) : comparison :=
  match ord u (ukey_of a) (ukey_of b) with Eq => seq_of b ?= seq_of a | c => c end.

(** An internal key: a tag, and no longer than a vector can be. *)
Definition ikey_ok (a : bytes) : Prop :=
  8 ≤ zlen a < 2 ^ 63 ∧ is_u 56 (seq_of a) ∧ key_ok u (ukey_of a).

#[export] Instance InternalKeyCmp_ordered : OrderedCmp (InternalKeyCmp u).
Proof.
  refine {| key_ok := ikey_ok; ord := ord_internal |}.
  - intros a b (Ha & _ & Hka) (Hb & _ & Hkb). cbn [cmp InternalKeyCmp].
    rewrite cmp_internal_key_views, cmp_ret by (done || lia). cbn. unfold ord_internal.
    by destruct (ord u _ _).
  - intros a. unfold ord_internal. by rewrite ord_refl, Z.compare_refl.
  - intros a b. unfold ord_internal. rewrite (ord_antisym (ukey_of a)).
    destruct (ord u (ukey_of a) (ukey_of b)); simpl; try done. apply Z.compare_antisym.
  - intros a b d. unfold ord_internal.
    destruct (ord u (ukey_of a) (ukey_of b)) eqn:E1; try done;
      destruct (ord u (ukey_of b) (ukey_of d)) eqn:E2; try done; intros H1 H2.
    + rewrite (ord_eq_l _ _ _ E1), E2. rewrite Z.compare_lt_iff in *. lia.
    + by rewrite (ord_eq_l _ _ _ E1), E2.
    + by rewrite <- (ord_eq_r _ _ (ukey_of a) E2), E1.
    + by rewrite (ord_trans _ _ _ E1 E2).
  - intros a b d. unfold ord_internal. destruct (ord u (ukey_of a) (ukey_of b)) eqn:E1; try done.
    intros H. apply Z.compare_eq in H. by rewrite (ord_eq_l _ _ _ E1), H.
Defined.

Lemma ord_internal_ikey k1 s1 t1 k2 s2 t2 :
  is_u 56 s1 → is_u 56 s2 →
  ord_internal (ikey k1 s1 t1) (ikey k2 s2 t2) =
    match ord u k1 k2 with Eq => s2 ?= s1 | c => c end.
Proof. intros. unfold ord_internal. by rewrite !ukey_of_ikey, !seq_of_ikey. Qed.

Lemma ikey_wf k s t : zlen k + 8 < 2 ^ 63 → is_u 56 s → key_ok u k → ikey_ok (ikey k s t).
Proof.
  intros Hl Hs Hk. unfold ikey_ok. rewrite ukey_of_ikey, seq_of_ikey, length_ikey by done.
  split_and!; done || lia.
Qed.

(** A memtable key: a length prefix and at least the internal key it announces. *)
Definition mkey_ok (a : bytes) : Prop :=
  ∃ l off, decode_var 64 a = Some (l, off) ∧ 8 ≤ l ∧ off + l ≤ zlen a ∧ zlen a < 2 ^ 64
    ∧ key_ok u (ukey_of (ikey_of_mkey a)).

Lemma mkey_view_split (a : bytes) (o l : nat) :
  (o + l ≤ length a)%nat → (8 ≤ l)%nat →
  let v := take l (drop o a) in
  length v = l ∧ take (l - 8) v = take (l - 8) (drop o a)
  ∧ drop (l - 8) v = take 8 (drop (o + l - 8) a).
Proof.
  intros Ho Hl v. subst v. rewrite length_take, length_drop. split_and!; [lia| |].
  - rewrite take_take. f_equal. lia.
  - rewrite skipn_firstn_comm, drop_drop. f_equal; [lia|]. f_equal. lia.
Qed.

Lemma cmp_memtable_key_views a b :
  mkey_ok a → mkey_ok b →
  cmp_memtable_key u a b = Ret (ord_internal (ikey_of_mkey a) (ikey_of_mkey b)).
Proof.
  intros (l1 & o1 & D1 & L1 & M1 & Z1 & K1) (l2 & o2 & D2 & L2 & M2 & Z2 & K2).
  pose proof (decode_var_bounds _ _ _ _ D1) as [_ B1].
  pose proof (decode_var_bounds _ _ _ _ D2) as [_ B2].
  unfold cmp_memtable_key. rewrite D1, D2. exec_run. rewrite !slice_spec by lia.
  destruct (mkey_view_split a (Z.to_nat o1) (Z.to_nat l1)) as (V1 & V2 & V3); [lia..|].
  destruct (mkey_view_split b (Z.to_nat o2) (Z.to_nat l2)) as (W1 & W2 & W3); [lia..|].
  unfold ord_internal. revert K1 K2. unfold ikey_of_mkey. rewrite D1, D2. unfold ukey_of, seq_of.
  rewrite V1, W1, V2, W2, V3, W3. intros K1 K2.
  replace (Z.to_nat (o1 + l1 - 8 - o1)) with (Z.to_nat l1 - 8)%nat by lia.
  replace (Z.to_nat (o2 + l2 - 8 - o2)) with (Z.to_nat l2 - 8)%nat by lia.
  replace (Z.to_nat (o1 + l1 - (o1 + l1 - 8))) with 8%nat by lia.
  replace (Z.to_nat (o2 + l2 - (o2 + l2 - 8))) with 8%nat by lia.
  replace (Z.to_nat (o1 + l1 - 8)) with (Z.to_nat o1 + Z.to_nat l1 - 8)%nat by lia.
  replace (Z.to_nat (o2 + l2 - 8)) with (Z.to_nat o2 + Z.to_nat l2 - 8)%nat by lia.
  cbn [mbind exec_bind]. rewrite cmp_ret by done. cbn [mbind exec_bind]. by destruct (ord u _ _).
Qed.

#[export] Instance MemtableKeyCmp_ordered : OrderedCmp (MemtableKeyCmp u).
Proof.
  refine {| key_ok := mkey_ok; ord a b := ord_internal (ikey_of_mkey a) (ikey_of_mkey b) |}.
  - apply cmp_memtable_key_views.
  - intros a. apply (@ord_refl _ InternalKeyCmp_ordered).
  - intros a b. apply (@ord_antisym _ InternalKeyCmp_ordered).
  - intros a b d. apply (@ord_trans _ InternalKeyCmp_ordered).
  - intros a b d. apply (@ord_eq_l _ InternalKeyCmp_ordered).
Defined.

(** [mkey] and the memtable part of a lookup key are well formed and hold their internal
    key. *)
Lemma mkey_view k s t rest :
  is_u 64 (zlen k + 8) → ikey_of_mkey (encode_var (zlen k + 8) ++ ikey k s t ++ rest) = ikey k s t.
Proof.
  intros Hk. unfold ikey_of_mkey. rewrite decode_var_usize by done.
  rewrite Nat2Z.id, drop_app_length. replace (Z.to_nat (zlen k + 8)) with (length (ikey k s t))
    by (rewrite length_ikey; lia). apply take_app_length.
Qed.

Lemma mkey_wf k s t rest :
  zlen (encode_var (zlen k + 8) ++ ikey k s t ++ rest) < 2 ^ 64 → key_ok u k →
  mkey_ok (encode_var (zlen k + 8) ++ ikey k s t ++ rest).
Proof.
  intros Hl Hk. rewrite !length_app, length_ikey in Hl.
  assert (is_u 64 (zlen k + 8)) as Hu by (unfold is_u; lia).
  exists (zlen k + 8), (zlen (encode_var (zlen k + 8))).
  rewrite mkey_view, ukey_of_ikey by done.
  rewrite decode_var_usize by done. rewrite !length_app, length_ikey. split_and!; [done|lia..|done].
Qed.

End orders.

(** ** Building and parsing memtable keys *)

Section mkeys.
Context `{IEL : IntegerEncodingLaws}.

Lemma build_memtable_key_spec k v t s :
  is_u 64 (zlen k + 8) → is_u 64 (zlen v) →
  build_memtable_key k v t s = Ret (mkey k s t v).
Proof.
  intros Hk Hv. unfold build_memtable_key, fill_slice, U64_SPACE.
  pose proof (length_encode_var _ Hk). pose proof (length_encode_var _ Hv).
  pose proof (length_tag (make_tag s t)). rewrite !length_app. exec_run.
  unfold mkey, ikey. replace (Z.to_nat _) with 0%nat by lia. cbn [replicate].
  by rewrite app_nil_r, <- !app_assoc.
Qed.

Lemma parse_memtable_key_mkey k v t s :
  is_u 56 s → zlen (mkey k s t v) < 2 ^ 64 →
  let ko := zlen (encode_var (zlen k + 8)) in
  let vo := ko + zlen k + 8 + zlen (encode_var (zlen v)) in
  parse_memtable_key (mkey k s t v) = Ret (zlen k, ko, make_tag s t, zlen v, vo)
  ∧ slice (mkey k s t v) ko (ko + zlen k) = Ret k
  ∧ slice (mkey k s t v) vo (vo + zlen v) = Ret v
  ∧ take (length k + 8) (drop (Z.to_nat ko) (mkey k s t v)) = ikey k s t.
Proof.
  intros Hs Hl ko vo. unfold mkey in *. pose proof (length_ikey k s t).
  rewrite !length_app in Hl.
  assert (is_u 64 (zlen k + 8)) as Hk by (unfold is_u; lia).
  assert (is_u 64 (zlen v)) as Hv by (unfold is_u; lia).
  pose proof (length_tag (make_tag s t)). split_and!.
  - unfold parse_memtable_key. rewrite decode_var_usize by done. exec_run.
    rewrite !length_app. unfold ko, vo, ikey in *. rewrite <- !app_assoc. exec_run.
    rewrite (app_assoc (encode_var _) k). rewrite slice_app by (rewrite ?length_app; lia).
    exec_run. rewrite (app_assoc (_ ++ k)). rewrite slice_from_app by (rewrite !length_app; lia).
    exec_run. rewrite decode_var_usize by done. exec_run.
    rewrite decode_encode_fixed by (try done; by apply make_tag_u64). do 2 f_equal; [|lia].
    do 3 f_equal. lia.
  - unfold ko, ikey. rewrite <- !app_assoc. apply slice_app; lia.
  - unfold ko, vo. rewrite !app_assoc. apply slice_app_end; rewrite !length_app; lia.
  - unfold ko. rewrite Nat2Z.id, drop_app_length.
    replace (length k + 8)%nat with (length (ikey k s t)) by lia. apply take_app_length.
Qed.

End mkeys.

(** ** Theorems *)

(** A memtable entry built from a key, a value, a type and a 56-bit sequence number is
    parsed back to the same four: the offsets [parse_memtable_key] returns cut the key and the
    value out of the entry and the tag decodes to the type and sequence number. *)
Theorem memtable_key_roundtrip `{IEL : IntegerEncodingLaws} k v t s :
  is_u 56 s → zlen (mkey k s t v) < 2 ^ 64 →
  ∃ m keyoff tag valoff,
    build_memtable_key k v t s = Ret m
    ∧ parse_memtable_key m = Ret (zlen k, keyoff, tag, zlen v, valoff)
    ∧ slice m keyoff (keyoff + zlen k) = Ret k
    ∧ slice m valoff (valoff + zlen v) = Ret v
    ∧ parse_tag tag = (t, s).
Proof.
  intros Hs Hl. destruct (parse_memtable_key_mkey k v t s Hs Hl) as (H1 & H2 & H3 & _).
  unfold mkey in Hl. rewrite !length_app, length_ikey in Hl.
  exists (mkey k s t v). do 3 eexists.
  rewrite build_memtable_key_spec by (unfold is_u; lia).
  split_and!; [done|exact H1|done|done|by apply parse_make_tag].
Qed.

Lemma memtable_key_roundtrip_witness :
  let IE := Reference.ref_encoding in
  ∃ m keyoff tag valoff,
    build_memtable_key [97; 98; 99] [49; 50; 51] TypeValue 231 = Ret m
    ∧ parse_memtable_key m = Ret (3, keyoff, tag, 3, valoff)
    ∧ slice m keyoff (keyoff + 3) = Ret [97; 98; 99]
    ∧ slice m valoff (valoff + 3) = Ret [49; 50; 51]
    ∧ parse_tag tag = (TypeValue, 231).
Proof.
  exact (memtable_key_roundtrip (IEL := Reference.ref_encoding_laws) [97; 98; 99] [49; 50; 51]
           TypeValue 231 ltac:(by_decide) ltac:(reflexivity)).
Defined.

(** [parse_memtable_key] panics on the memtable form of every lookup key: the entry has
    no value length, and the code unwraps it all the same (its comment says that only the
    returned value length and offset are meaningless then). *)
Theorem parse_memtable_key_lookup_panics `{IEL : IntegerEncodingLaws} k s t lk :
  zlen k + 18 < 2 ^ 64 → LookupKey_new_full k s t = Ret lk →
  parse_memtable_key (memtable_key lk) = Panic.
Proof.
  intros Hk Hlk. destruct (lookup_key_spec k s t) as (lk' & E & Hm & _); [unfold is_u; lia|].
  rewrite Hlk in E. injection E as <-. rewrite Hm. unfold parse_memtable_key.
  assert (is_u 64 (zlen k + 8)) as Hu by (unfold is_u; lia).
  pose proof (length_encode_var _ Hu). pose proof (required_space_bound _ Hu).
  pose proof (length_tag (make_tag s t)).
  rewrite decode_var_usize by done. exec_run. rewrite !length_app, length_ikey. exec_run.
  unfold ikey. rewrite (app_assoc (encode_var _) k), <- (app_nil_r (encode_fixed _ _)).
  rewrite slice_app by (rewrite ?length_app; lia). exec_run.
  rewrite (app_assoc (_ ++ k)). rewrite slice_from_app by (rewrite !length_app; lia).
  exec_run. by rewrite decode_var_nil.
Qed.

Lemma parse_memtable_key_lookup_panics_witness :
  parse_memtable_key (IE := Reference.ref_encoding) [11; 97; 98; 99; 1; 7; 0; 0; 0; 0; 0; 0] = Panic.
Proof.
  exact (parse_memtable_key_lookup_panics (IEL := Reference.ref_encoding_laws) [97; 98; 99] 7 TypeValue
    (mkLookupKey [11; 97; 98; 99; 1; 7; 0; 0; 0; 0; 0; 0] 1) ltac:(reflexivity) ltac:(reflexivity)).
Defined.

(** C22: [InternalKeyCmp] and [MemtableKeyCmp] order entries by user key ascending and then by
    sequence number descending, whatever the type and value; the two comparators agree. *)
Theorem key_comparators_agree `{IEL : IntegerEncodingLaws} u {UO : OrderedCmp u}
    k1 s1 t1 v1 k2 s2 t2 v2 :
  is_u 56 s1 → is_u 56 s2 → key_ok u k1 → key_ok u k2 →
  zlen (mkey k1 s1 t1 v1) < 2 ^ 63 → zlen (mkey k2 s2 t2 v2) < 2 ^ 63 →
  let r := match ord u k1 k2 with Eq => s2 ?= s1 | c => c end in
  cmp (InternalKeyCmp u) (ikey k1 s1 t1) (ikey k2 s2 t2) = Ret r
  ∧ cmp (MemtableKeyCmp u) (mkey k1 s1 t1 v1) (mkey k2 s2 t2 v2) = Ret r.
Proof.
  intros Hs1 Hs2 Hk1 Hk2 Hl1 Hl2 r. unfold r.
  assert (∀ k s t v, zlen (mkey k s t v) < 2 ^ 63 → zlen k + 8 < 2 ^ 63 ∧ is_u 64 (zlen k + 8)) as Hu.
  { intros k s t v Hl. unfold mkey in Hl. rewrite !length_app, length_ikey in Hl. unfold is_u. lia. }
  destruct (Hu _ _ _ _ Hl1), (Hu _ _ _ _ Hl2).
  split.
  - rewrite (@cmp_ret _ InternalKeyCmp_ordered).
    + by rewrite <- (ord_internal_ikey k1 s1 t1 k2 s2 t2).
    + by apply ikey_wf.
    + by apply ikey_wf.
  - unfold mkey in Hl1, Hl2. rewrite (@cmp_ret _ MemtableKeyCmp_ordered) by (apply mkey_wf; done || lia).
    cbn [ord MemtableKeyCmp_ordered]. unfold mkey. rewrite !mkey_view by eauto.
    by rewrite ord_internal_ikey.
Qed.

Lemma key_comparators_agree_witness :
  let IE := Reference.ref_encoding in
  cmp (InternalKeyCmp DefaultCmp) (ikey [97] 2 TypeValue) (ikey [97] 1 TypeDeletion) = Ret Lt
  ∧ cmp (MemtableKeyCmp DefaultCmp) (mkey [97] 2 TypeValue [1]) (mkey [97] 1 TypeDeletion []) = Ret Lt.
Proof.
  exact (key_comparators_agree (IEL := Reference.ref_encoding_laws) DefaultCmp [97] 2 TypeValue [1] [97] 1 TypeDeletion []
    ltac:(by_decide) ltac:(by_decide) I I ltac:(reflexivity) ltac:(reflexivity)).
Defined.

(** The separator of internal keys is an internal key in between. *)
Lemma internal_sep_spec `{IEL : IntegerEncodingLaws} ka sa ta kb sb tb :
  is_u 56 sa → is_u 56 sb → zlen ka + 10 < 2 ^ 64 → is_bytes kb →
  ka = kb ∨ ka ≠ [] ∧ kb ≠ ka ++ [0] →
  ord (InternalKeyCmp DefaultCmp) (ikey ka sa ta) (ikey kb sb tb) = Lt →
  ∃ k s t, find_shortest_sep (InternalKeyCmp DefaultCmp) (ikey ka sa ta) (ikey kb sb tb) = Ret (ikey k s t)
    ∧ is_u 56 s ∧ zlen k ≤ zlen ka + 1
    ∧ ord (InternalKeyCmp DefaultCmp) (ikey ka sa ta) (ikey k s t) ≠ Gt
    ∧ ord (InternalKeyCmp DefaultCmp) (ikey k s t) (ikey kb sb tb) = Lt.
Proof.
  intros Hsa Hsb Hka Hkb Hcase Hlt.
  assert (is_u 56 MAX_SEQUENCE_NUMBER) as Hmax by by_decide.
  cbn [find_shortest_sep InternalKeyCmp]. unfold internal_find_shortest_sep.
  rewrite decide_False by (intros E; rewrite E, ord_refl in Hlt; done).
  rewrite !parse_internal_key_ikey by done. cbn [mbind exec_bind].
  change (ord_internal (u := DefaultCmp) (ikey ka sa ta) (ikey kb sb tb) = Lt) in Hlt.
  rewrite ord_internal_ikey in Hlt by done. change (ord DefaultCmp) with bytes_cmp in Hlt.
  assert (∃ sep, find_shortest_sep DefaultCmp ka kb = Ret sep ∧ zlen sep ≤ zlen ka + 1
    ∧ (sep = ka ∧ ka = kb ∨ bytes_cmp ka sep = Lt ∧ bytes_cmp sep kb = Lt)) as (sep & Hsep & Hl & Hord).
  { destruct (bytes_cmp ka kb) eqn:E; [apply bytes_cmp_eq in E as <-| |done].
    - exists ka. cbn. unfold default_find_shortest_sep. rewrite decide_True by done.
      split_and!; [done|lia|by left].
    - assert (ka ≠ kb) by (intros ->; by rewrite bytes_cmp_refl in E).
      destruct Hcase as [?|[Hne Hn0]]; [done|].
      destruct (default_sep_spec ka kb) as (sep & ? & ? & ? & [?|[_ ?]]); [done..| |done].
      exists sep. eauto. }
  rewrite Hsep. cbn [mbind exec_bind].
  assert (∀ s : Z, is_u 56 s → (s = sa ∨ bytes_cmp ka sep = Lt) →
    (lk ← LookupKey_new sep s; internal_key lk) = Ret (ikey sep s TypeValue)
      ∧ ord (InternalKeyCmp DefaultCmp) (ikey ka sa ta) (ikey sep s TypeValue) ≠ Gt
      ∧ ord (InternalKeyCmp DefaultCmp) (ikey sep s TypeValue) (ikey kb sb tb) = Lt) as Hfin.
  { intros s Hs Hcs. destruct (lookup_key_spec sep s TypeValue) as (lk & E & _ & Hik & _);
      [unfold is_u; lia|].
    unfold LookupKey_new. rewrite E. cbn [mbind exec_bind]. rewrite Hik. split; [done|].
    change (ord (InternalKeyCmp DefaultCmp)) with (ord_internal (u := DefaultCmp)).
    rewrite !ord_internal_ikey by done. change (ord DefaultCmp) with bytes_cmp.
    destruct Hord as [[-> <-]|[H1 H2]].
    - rewrite bytes_cmp_refl in *. destruct Hcs as [->|?]; [|done]. by rewrite Z.compare_refl.
    - by rewrite H1, H2. }
  assert (∃ s, is_u 56 s ∧ (s = sa ∨ bytes_cmp ka sep = Lt)
    ∧ (short ← (if zlen sep <? zlen ka then c ← cmp DefaultCmp ka sep; Ret (is_lt c) else Ret false);
       lk ← LookupKey_new sep (if (short : bool) then MAX_SEQUENCE_NUMBER else sa); internal_key lk)
      = (lk ← LookupKey_new sep s; internal_key lk)) as (s & Hs & Hcs & ->).
  { destruct (zlen sep <? zlen ka); [|exists sa; auto]. cbn [cmp DefaultCmp mbind exec_bind].
    destruct (bytes_cmp ka sep) eqn:E; cbn [is_lt]; eauto. }
  exists sep, s, TypeValue. destruct (Hfin s Hs Hcs) as (-> & H1 & H2). done.
Qed.

(** Between different user keys the separator has a user key above the first one, and below the
    second one unless that is the first one followed by a zero byte; between versions of a
    user key it is the first key. *)
Lemma internal_sep_users `{IEL : IntegerEncodingLaws} ka sa ta kb sb tb sep :
  is_u 56 sa → is_u 56 sb → zlen ka + 10 < 2 ^ 64 → is_bytes kb → ka ≠ [] →
  ord (InternalKeyCmp DefaultCmp) (ikey ka sa ta) (ikey kb sb tb) = Lt →
  find_shortest_sep (InternalKeyCmp DefaultCmp) (ikey ka sa ta) (ikey kb sb tb) = Ret sep →
  ∃ k s, sep = ikey k s TypeValue ∧ is_u 56 s
    ∧ (ka = kb ∧ k = ka ∧ s = sa ∨ bytes_cmp ka kb = Lt ∧ bytes_cmp ka k = Lt ∧ (bytes_cmp k kb = Lt ∨ kb = ka ++ [0])).
Proof.
  intros Hsa Hsb Hka Hkb Hne Hlt Hsep. assert (is_u 56 MAX_SEQUENCE_NUMBER) as Hmax by by_decide.
  cbn [find_shortest_sep InternalKeyCmp] in Hsep. unfold internal_find_shortest_sep in Hsep.
  rewrite decide_False in Hsep by (intros E; rewrite E, ord_refl in Hlt; done). rewrite !parse_internal_key_ikey in Hsep by done. cbn [mbind exec_bind] in Hsep.
  change (ord_internal (u := DefaultCmp) (ikey ka sa ta) (ikey kb sb tb) = Lt) in Hlt. rewrite ord_internal_ikey in Hlt by done. change (ord DefaultCmp) with bytes_cmp in Hlt.
  assert (∀ k s, zlen k ≤ zlen ka + 1 → (lk ← LookupKey_new k s; internal_key lk) = Ret (ikey k s TypeValue)) as Hlk.
  { intros k s Hl. destruct (lookup_key_spec k s TypeValue) as (lk & E & _ & Hik & _); [unfold is_u; lia|]. unfold LookupKey_new. by rewrite E. }
  destruct (bytes_cmp ka kb) eqn:Eab; [|clear Hlt|done].
  - apply bytes_cmp_eq in Eab as <-. change (find_shortest_sep DefaultCmp ka ka) with (default_find_shortest_sep ka ka) in Hsep. unfold default_find_shortest_sep in Hsep.
    rewrite decide_True in Hsep by done. cbn [mbind exec_bind] in Hsep. rewrite (proj2 (Z.ltb_ge _ _)) in Hsep by lia. cbn [mbind exec_bind] in Hsep. rewrite Hlk in Hsep by lia. simplify_eq.
    exists ka, sa. split_and!; [done..|by left].
  - destruct (default_sep_spec ka kb Hkb Hne Eab) as (k & Ek & H1 & Hl & H2). change (find_shortest_sep DefaultCmp ka kb) with (default_find_shortest_sep ka kb) in Hsep. rewrite Ek in Hsep.
    cbn [mbind exec_bind] in Hsep. destruct (zlen k <? zlen ka); cbn [mbind exec_bind cmp DefaultCmp] in Hsep; [rewrite H1 in Hsep; cbn [is_lt] in Hsep|]; rewrite Hlk in Hsep by done; simplify_eq.
    + exists k, MAX_SEQUENCE_NUMBER. split_and!; [done..|]. right. naive_solver.
    + exists k, sa. split_and!; [done..|]. right. naive_solver.
Qed.

Lemma internal_succ_spec `{IEL : IntegerEncodingLaws} k s t :
  is_u 56 s → zlen k + 10 < 2 ^ 64 →
  find_short_succ (InternalKeyCmp DefaultCmp) (ikey k s t) = Ret (ikey (short_succ_from k 0 k) s TypeValue)
  ∧ ord (InternalKeyCmp DefaultCmp) (ikey k s t) (ikey (short_succ_from k 0 k) s TypeValue) = Lt.
Proof.
  intros Hs Hk. cbn [find_short_succ InternalKeyCmp DefaultCmp]. unfold internal_find_short_succ.
  rewrite parse_internal_key_ikey by done. cbn [mbind exec_bind].
  change (find_short_succ DefaultCmp k) with (Ret (short_succ_from k 0 k)). cbn [mbind exec_bind].
  pose proof (short_succ_from_gt [] k) as Hgt. cbn [app length] in Hgt.
  destruct (lookup_key_spec (short_succ_from k 0 k) s TypeValue) as (lk & E & _ & Hik & _).
  { pose proof (short_succ_from_length k 0 k ltac:(lia)). unfold is_u. lia. }
  unfold LookupKey_new. rewrite E. cbn [mbind exec_bind]. rewrite Hik. split; [done|].
  change (ord (InternalKeyCmp DefaultCmp)) with (ord_internal (u := DefaultCmp)).
  rewrite ord_internal_ikey by done. change (ord DefaultCmp) with bytes_cmp. by rewrite Hgt.
Qed.

(** Over the default comparator, [InternalKeyCmp::find_shortest_sep] of internal keys
    [a < b] whose user keys are equal or the first of which is not empty returns a key [sep]
    with [a <= sep < b], provided the second user key is not the first one followed by a
    zero byte. *)
Theorem internal_sep_separates `{IEL : IntegerEncodingLaws} ka sa ta kb sb tb :
  is_u 56 sa → is_u 56 sb → zlen ka + 10 < 2 ^ 64 → is_bytes kb →
  ka = kb ∨ ka ≠ [] ∧ kb ≠ ka ++ [0] →
  ord (InternalKeyCmp DefaultCmp) (ikey ka sa ta) (ikey kb sb tb) = Lt →
  ∃ sep, find_shortest_sep (InternalKeyCmp DefaultCmp) (ikey ka sa ta) (ikey kb sb tb) = Ret sep
    ∧ ord (InternalKeyCmp DefaultCmp) (ikey ka sa ta) sep ≠ Gt
    ∧ ord (InternalKeyCmp DefaultCmp) sep (ikey kb sb tb) = Lt.
Proof.
  intros Hsa Hsb Hka Hkb Hcase Hlt. destruct (internal_sep_spec ka sa ta kb sb tb) as (k & s & t & E & _ & _ & H); [done..|]. eauto.
Qed.

Lemma internal_sep_separates_witness :
  let IE := Reference.ref_encoding in
  let a := ikey [97; 98; 99] 1 TypeValue in let b := ikey [122; 122; 122] 2 TypeValue in
  ∃ sep, find_shortest_sep (InternalKeyCmp DefaultCmp) a b = Ret sep
    ∧ ord (InternalKeyCmp DefaultCmp) a sep ≠ Gt ∧ ord (InternalKeyCmp DefaultCmp) sep b = Lt.
Proof.
  exact (internal_sep_separates (IEL := Reference.ref_encoding_laws) [97; 98; 99] 1 TypeValue
    [122; 122; 122] 2 TypeValue ltac:(by_decide) ltac:(by_decide) ltac:(reflexivity) ltac:(by_decide)
    ltac:(right; split; discriminate) ltac:(reflexivity)).
Defined.

(** Without that proviso the separator can lie at or above the second key: between
    ["abc"] at sequence number 1 and ["abc\0"] at 2 it sorts after the latter. *)
Theorem internal_sep_overshoots :
  let IE := Reference.ref_encoding in
  let a := ikey [97; 98; 99] 1 TypeValue in let b := ikey [97; 98; 99; 0] 2 TypeValue in
  ord (InternalKeyCmp DefaultCmp) a b = Lt
  ∧ ∃ sep, find_shortest_sep (InternalKeyCmp DefaultCmp) a b = Ret sep
      ∧ ord (InternalKeyCmp DefaultCmp) b sep = Lt.
Proof. split; [reflexivity|]. eexists. split; reflexivity. Qed.

(** [InternalKeyCmp::find_short_succ] over the default comparator returns a key strictly
    above its argument. *)
Theorem internal_succ_above `{IEL : IntegerEncodingLaws} k s t :
  is_u 56 s → zlen k + 10 < 2 ^ 64 →
  ∃ r, find_short_succ (InternalKeyCmp DefaultCmp) (ikey k s t) = Ret r
    ∧ ord (InternalKeyCmp DefaultCmp) (ikey k s t) r = Lt.
Proof. intros Hs Hk. destruct (internal_succ_spec k s t Hs Hk). eauto. Qed.

Lemma internal_succ_above_witness :
  let IE := Reference.ref_encoding in
  ∃ r, find_short_succ (InternalKeyCmp DefaultCmp) (ikey [255; 3] 9 TypeValue) = Ret r
    ∧ ord (InternalKeyCmp DefaultCmp) (ikey [255; 3] 9 TypeValue) r = Lt.
Proof.
  exact (internal_succ_above (IEL := Reference.ref_encoding_laws) [255; 3] 9 TypeValue
    ltac:(by_decide) ltac:(reflexivity)).
Defined.
