(* ===== verification/Io.v ===== *)
(** * Io: [std::io::Read] and [std::io::Write]

    The traits as type classes, with the standard library's implementations for byte slices
    and byte vectors.  A read returns the bytes read (at most the requested number; none at
    the end of the data); a write returns the number of bytes written. *)

From S2P Require Import Prelude Error.

Abbreviation io_result A := (result IoError A) (only parsing).

Class Write (W : Type) := {
  w_write : bytes → W → exec (W * io_result Z);
  w_write_all : bytes → W → exec (W * io_result unit);
  w_flush : W → exec (W * io_result unit);
}.

Class Read (R : Type) := {
  r_read : Z → R → exec (R * io_result bytes);
  r_read_exact : Z → R → exec (R * io_result bytes);
}.

(** A writer that takes every write whole: while it is [writable], [written] is what it
    holds, and every write goes to its end. *)
Class ReliableWrite (W : Type) `{Write W} := {
  writable : W → Prop;
  written : W → bytes;
  write_reliable bs w : writable w →
    ∃ w', w_write bs w = Ret (w', Ok (zlen bs)) ∧ written w' = written w ++ bs ∧ writable w';
  write_all_reliable bs w : writable w →
    ∃ w', w_write_all bs w = Ret (w', Ok ()) ∧ written w' = written w ++ bs ∧ writable w';
  flush_reliable w : writable w → ∃ w', w_flush w = Ret (w', Ok ()) ∧ written w' = written w ∧ writable w';
}.

(** A reader that fills every buffer as long as there are bytes left: while it is
    [readable], [unread] is what is left. *)
Class ReliableRead (R : Type) `{Read R} := {
  readable : R → Prop;
  unread : R → bytes;
  read_reliable n r : 0 ≤ n → readable r →
    ∃ r', r_read n r = Ret (r', Ok (take (Z.to_nat n) (unread r))) ∧ unread r' = drop (Z.to_nat n) (unread r) ∧ readable r';
  read_exact_reliable n r : 0 ≤ n ≤ zlen (unread r) → readable r →
    ∃ r', r_read_exact n r = Ret (r', Ok (take (Z.to_nat n) (unread r))) ∧ unread r' = drop (Z.to_nat n) (unread r) ∧ readable r';
  read_exact_short n r : zlen (unread r) < n → readable r → ∃ r' e, r_read_exact n r = Ret (r', Err e) ∧ readable r';
}.

(** [impl Write for Vec<u8>] *)
#[export] Instance vec_write : Write bytes := {
  w_write bs w := Ret (w ++ bs, Ok (zlen bs));
  w_write_all bs w := Ret (w ++ bs, Ok ());
  w_flush w := Ret (w, Ok ());
}.

#[export] Instance vec_reliable : ReliableWrite bytes.
Proof. refine {| writable _ := True; written w := w |}; intros; eexists; split_and!; done. Defined.

(** [impl Read for &[u8]]; a failing [read_exact] leaves the slice empty. *)
#[export] Instance slice_read : Read bytes := {
  r_read n r := Ret (drop (Z.to_nat n) r, Ok (take (Z.to_nat n) r));
  r_read_exact n r :=
    if zlen r <? n then Ret ([], Err {| kind := KUnexpectedEof; io_msg := "failed to fill whole buffer" |})
    else Ret (drop (Z.to_nat n) r, Ok (take (Z.to_nat n) r));
}.

#[export] Instance slice_reliable : ReliableRead bytes.
Proof.
  refine {| readable _ := True; unread r := r |}.
  - intros n r _ _. by eexists.
  - intros n r Hn _. eexists. cbn. ztest. done.
  - intros n r Hn _. do 2 eexists. cbn. by ztest.
Defined.

(** The provided methods [Read::read_exact] and [Write::write_all] of the standard library,
    for implementations that only define [read] and [write]. *)
Section provided.
Context {S : Type}.

Fixpoint default_read_exact (read : Z → S → exec (S * io_result bytes)) (fuel : nat) (n : Z) (acc : bytes) (s : S)
  : exec (S * io_result bytes) :=
  if n <=? 0 then Ret (s, Ok acc)
  else match fuel with
  | O => NoFuel
  | Datatypes.S fuel =>
      '(s, r) ← read n s;
      match r with
      | Err e => Ret (s, Err e)
      | Ok [] => Ret (s, Err {| kind := KUnexpectedEof; io_msg := "failed to fill whole buffer" |})
      | Ok bs => default_read_exact read fuel (n - zlen bs) (acc ++ bs) s
      end
  end.

Fixpoint default_write_all (write : bytes → S → exec (S * io_result Z)) (fuel : nat) (bs : bytes) (s : S)
  : exec (S * io_result unit) :=
  match bs with
  | [] => Ret (s, Ok ())
  | _ =>
      match fuel with
      | O => NoFuel
      | Datatypes.S fuel =>
          '(s, r) ← write bs s;
          match r with
          | Err e => Ret (s, Err e)
          | Ok n =>
              if n =? 0 then Ret (s, Err {| kind := KOther; io_msg := "failed to write whole buffer" |})
              else rest ← slice_from bs n; default_write_all write fuel rest s
          end
      end
  end.

End provided.
