(* ===== verification/Env.v ===== *)
(** * Env: [src/env.rs]

    The environment a database runs in, as a class: an environment is a state [E], files
    are handles into it.  The clock ([micros], [sleep_for]) is left out. *)

From S2P Require Import Prelude Error Types Io.

(** [trait RandomAccess]: the bytes that [read_at] puts at the front of a buffer of the given
    length. *)
Class RandomAccess (F : Type) := read_at : F → Z → Z → exec (Result bytes).

(** The reads of the file give what is there. *)
Definition file_holds `{RandomAccess F} (f : F) (b : bytes) : Prop :=
  ∀ off n, 0 ≤ off ≤ zlen b → 0 ≤ n → read_at f off n = Ret (Ok (take (Z.to_nat n) (drop (Z.to_nat off) b))).

Record FileLock := mkFileLock { lock_id : string }.

(** [struct Logger]: the writer it logs to. *)
Record Logger (W : Type) := mkLogger { lg_dst : W }.
Arguments mkLogger {W}.
Arguments lg_dst {W}.

(** [trait Env]; a path is its text. *)
Class Env (E : Type) := {
  seq_file : Type;
  ra_file : Type;
  w_file : Type;
  seq_read :: Read (E * seq_file);
  ra_read : E → RandomAccess ra_file;
  w_file_write :: Write (E * w_file);

  env_open_sequential_file : string → E → exec (E * Result seq_file);
  env_open_random_access_file : string → E → exec (E * Result ra_file);
  env_open_writable_file : string → E → exec (E * Result w_file);
  env_open_appendable_file : string → E → exec (E * Result w_file);

  env_exists : string → E → exec (Result bool);
  env_children : string → E → exec (Result (list string));
  env_size_of : string → E → exec (Result Z);

  env_delete : string → E → exec (E * Result unit);
  env_mkdir : string → E → exec (E * Result unit);
  env_rmdir : string → E → exec (E * Result unit);
  env_rename : string → string → E → exec (E * Result unit);

  env_lock : string → E → exec (E * Result FileLock);
  env_unlock : FileLock → E → exec (E * Result unit);

  env_new_logger : string → E → exec (E * Result (Logger w_file));
}.

(** [Logger::log]: what the writes return is dropped. *)
Definition Logger_log `{Env E} (message : string) (s : E) (l : Logger w_file) : exec (E * Logger w_file) :=
  '((s, d), _) ← w_write (string_bytes message) (s, lg_dst l);
  '((s, d), _) ← w_write [10] (s, d);
  Ret (s, mkLogger d).

(** ** What a reliable environment promises

    The clients of environments are verified against this interface: an environment is a map
    from paths to contents, with handles into it that are not disturbed by what happens to
    other paths.  [MemEnv] implements it. *)

Class EnvLaws (E : Type) `{EN : Env E} := {
  env_ok : E → Prop;
  contents : E → gmap string bytes;
  (** The writer stands at the end of the file at the path. *)
  appends_to : E → w_file → string → Prop;
  (** What the reader has left to read. *)
  left_to_read : E → seq_file → option bytes;
  (** The file is the one at the path. *)
  opened_at : E → ra_file → string → Prop;
  (** The path is locked. *)
  locked : E → string → Prop;

  (** The environment changed at the paths [ps] at most: other handles are still good, and
      other locks as they were. *)
  kept (ps : list string) (e e' : E) : Prop :=
    env_ok e'
    ∧ (∀ w p, p ∉ ps → appends_to e w p → appends_to e' w p)
    ∧ (∀ f p, p ∉ ps → opened_at e f p → opened_at e' f p)
    ∧ (∀ p, p ∉ ps → locked e' p ↔ locked e p);

  open_sequential_law p e b : env_ok e → contents e !! p = Some b →
    ∃ e' r, env_open_sequential_file p e = Ret (e', Ok r) ∧ kept [] e e' ∧ contents e' = contents e ∧ left_to_read e' r = Some b;
  open_sequential_missing p e : env_ok e → contents e !! p = None →
    ∃ e' s, env_open_sequential_file p e = Ret (e', Err s) ∧ kept [] e e' ∧ contents e' = contents e ∧ code s = NotFound;
  open_random_law p e b : env_ok e → contents e !! p = Some b →
    ∃ e' f, env_open_random_access_file p e = Ret (e', Ok f) ∧ kept [] e e' ∧ contents e' = contents e ∧ opened_at e' f p;
  opened_holds e f p b : env_ok e → opened_at e f p → contents e !! p = Some b → file_holds (H := ra_read e) f b;
  open_writable_law p e : env_ok e →
    ∃ e' w, env_open_writable_file p e = Ret (e', Ok w) ∧ kept [p] e e' ∧ contents e' = <[p := []]> (contents e) ∧ appends_to e' w p;
  open_appendable_law p e : env_ok e →
    ∃ e' w, env_open_appendable_file p e = Ret (e', Ok w) ∧ kept [p] e e'
      ∧ contents e' = <[p := default [] (contents e !! p)]> (contents e) ∧ appends_to e' w p;
  size_law p e b : env_ok e → contents e !! p = Some b → env_size_of p e = Ret (Ok (zlen b));
  exists_law p e : env_ok e → env_exists p e = Ret (Ok (bool_decide (is_Some (contents e !! p))));
  delete_law p e : env_ok e → is_Some (contents e !! p) →
    ∃ e', env_delete p e = Ret (e', Ok ()) ∧ kept [p] e e' ∧ contents e' = delete p (contents e);
  delete_missing p e : env_ok e → contents e !! p = None →
    ∃ e' s, env_delete p e = Ret (e', Err s) ∧ kept [] e e' ∧ contents e' = contents e;
  mkdir_law p e : env_ok e → ∃ e' r, env_mkdir p e = Ret (e', r) ∧ kept [] e e' ∧ contents e' = contents e;
  children_law p e : env_ok e → p ≠ ""%string →
    ∃ names, env_children p e = Ret (Ok names) ∧ NoDup names ∧ ∀ name, name ∈ names ↔ is_Some (contents e !! path_join p name);
  lock_law p e : env_ok e → ¬ locked e p →
    ∃ e' l, env_lock p e = Ret (e', Ok l) ∧ kept [p] e e' ∧ contents e' = <[p := default [] (contents e !! p)]> (contents e)
      ∧ lock_id l = p ∧ locked e' p;
  lock_held p e : env_ok e → locked e p →
    ∃ e' s, env_lock p e = Ret (e', Err s) ∧ kept [] e e' ∧ contents e' = contents e ∧ code s = LockError;
  unlock_law l e : env_ok e → locked e (lock_id l) →
    ∃ e', env_unlock l e = Ret (e', Ok ()) ∧ kept [lock_id l] e e' ∧ contents e' = contents e ∧ ¬ locked e' (lock_id l);
  rename_law p q e b : env_ok e → contents e !! p = Some b →
    ∃ e', env_rename p q e = Ret (e', Ok ()) ∧ kept [p; q] e e' ∧ contents e' = <[q := b]> (delete p (contents e));

  env_write_law e w p b bs : env_ok e → appends_to e w p → contents e !! p = Some b →
    ∃ e' w', w_write bs (e, w) = Ret ((e', w'), Ok (zlen bs)) ∧ kept [p] e e' ∧ contents e' = <[p := b ++ bs]> (contents e) ∧ appends_to e' w' p;
  env_write_all_law e w p b bs : env_ok e → appends_to e w p → contents e !! p = Some b →
    ∃ e' w', w_write_all bs (e, w) = Ret ((e', w'), Ok ()) ∧ kept [p] e e' ∧ contents e' = <[p := b ++ bs]> (contents e) ∧ appends_to e' w' p;
  env_flush_law e w p b : env_ok e → appends_to e w p → contents e !! p = Some b →
    ∃ e' w', w_flush (e, w) = Ret ((e', w'), Ok ()) ∧ kept [p] e e' ∧ contents e' = contents e ∧ appends_to e' w' p;
  env_read_law n e r b : env_ok e → 0 ≤ n → left_to_read e r = Some b →
    ∃ e' r', r_read n (e, r) = Ret ((e', r'), Ok (take (Z.to_nat n) b)) ∧ kept [] e e' ∧ contents e' = contents e
      ∧ left_to_read e' r' = Some (drop (Z.to_nat n) b);
  env_read_exact_law n e r b : env_ok e → 0 ≤ n ≤ zlen b → left_to_read e r = Some b →
    ∃ e' r', r_read_exact n (e, r) = Ret ((e', r'), Ok (take (Z.to_nat n) b)) ∧ kept [] e e' ∧ contents e' = contents e
      ∧ left_to_read e' r' = Some (drop (Z.to_nat n) b);
  env_read_exact_short n e r b : env_ok e → zlen b < n → left_to_read e r = Some b →
    ∃ e' r' s, r_read_exact n (e, r) = Ret ((e', r'), Err s) ∧ kept [] e e' ∧ contents e' = contents e ∧ is_Some (left_to_read e' r');
}.

Section env_laws.
Context `{EL : EnvLaws E}.

Lemma kept_refl ps e : env_ok e → kept ps e e.
Proof. by intros. Qed.

Lemma kept_trans ps qs rs e e' e'' : kept ps e e' → kept qs e' e'' → ps ⊆ rs → qs ⊆ rs → kept rs e e''.
Proof.
  intros (_ & A & B & L) (C & D & F & L') H1 H2. split_and!; [done| | |]; [intros ? p Hp H; apply D; auto|intros ? p Hp H; apply F; auto|].
  intros p Hp. rewrite L', L; auto.
Qed.

Lemma kept_weaken ps rs e e' : kept ps e e' → ps ⊆ rs → kept rs e e'.
Proof. intros (A & B & C & D) H. split_and!; [done|intros ? p Hp H'; auto..|intros p Hp; auto]. Qed.

(** A writer on the path [p] of the environment, since it was [e0]. *)
#[program] Definition env_writer (e0 : E) (p : string) : ReliableWrite (E * w_file) := {|
  writable '(e, w) := kept [p] e0 e ∧ appends_to e w p ∧ ∃ b, contents e = <[p := b]> (contents e0);
  written '(e, _) := default [] (contents e !! p);
|}.
Next Obligation.
  intros e0 p bs [e w] (Hk & Ha & b & Hc). assert (contents e !! p = Some b) as Hb by (by rewrite Hc, lookup_insert_eq).
  destruct (env_write_law e w p b bs (proj1 Hk) Ha Hb) as (e' & w' & E' & Hk' & Hc' & Ha'). exists (e', w').
  split; [exact E'|]. cbn. rewrite Hc', lookup_insert_eq, Hb. split_and!; [done|by eapply kept_trans|done|].
  exists (b ++ bs). by rewrite Hc, insert_insert_eq.
Qed.
Next Obligation.
  intros e0 p bs [e w] (Hk & Ha & b & Hc). assert (contents e !! p = Some b) as Hb by (by rewrite Hc, lookup_insert_eq).
  destruct (env_write_all_law e w p b bs (proj1 Hk) Ha Hb) as (e' & w' & E' & Hk' & Hc' & Ha'). exists (e', w').
  split; [exact E'|]. cbn. rewrite Hc', lookup_insert_eq, Hb. split_and!; [done|by eapply kept_trans|done|].
  exists (b ++ bs). by rewrite Hc, insert_insert_eq.
Qed.
Next Obligation.
  intros e0 p [e w] (Hk & Ha & b & Hc). assert (contents e !! p = Some b) as Hb by (by rewrite Hc, lookup_insert_eq).
  destruct (env_flush_law e w p b (proj1 Hk) Ha Hb) as (e' & w' & E' & Hk' & Hc' & Ha'). exists (e', w').
  split; [exact E'|]. cbn. rewrite Hc'. split_and!; [done|by eapply kept_trans|done|]. by exists b.
Qed.

(** A reader of the environment, since it was [e0]. *)
#[program] Definition env_reader (e0 : E) : ReliableRead (E * seq_file) := {|
  readable '(e, r) := kept [] e0 e ∧ contents e = contents e0 ∧ is_Some (left_to_read e r);
  unread '(e, r) := default [] (left_to_read e r);
|}.
Next Obligation.
  intros e0 n [e r] Hn (Hk & Hc & b & Hb). destruct (env_read_law n e r b (proj1 Hk) Hn Hb) as (e' & r' & E' & Hk' & Hc' & Hb').
  exists (e', r'). cbn. rewrite Hb, Hb'. split; [exact E'|]. split_and!; [done|by eapply kept_trans|by rewrite Hc'|by eexists].
Qed.
Next Obligation.
  intros e0 n [e r] Hn (Hk & Hc & b & Hb). cbn in Hn. rewrite Hb in Hn. cbn in Hn.
  destruct (env_read_exact_law n e r b (proj1 Hk) Hn Hb) as (e' & r' & E' & Hk' & Hc' & Hb').
  exists (e', r'). cbn. rewrite Hb, Hb'. split; [exact E'|]. split_and!; [done|by eapply kept_trans|by rewrite Hc'|by eexists].
Qed.
Next Obligation.
  intros e0 n [e r] Hn (Hk & Hc & b & Hb). cbn in Hn. rewrite Hb in Hn. cbn in Hn.
  destruct (env_read_exact_short n e r b (proj1 Hk) Hn Hb) as (e' & r' & s & E' & Hk' & Hc' & Hs). exists (e', r'), s.
  split; [done|]. split_and!; [by eapply kept_trans|by rewrite Hc'|done].
Qed.

End env_laws.
