(* ===== verification/BufWriter.v ===== *)
(** * BufWriter: [std::io::BufWriter] over a file of an environment

    The log and the table files of a database are written through a buffer of 8 KiB.  A
    buffered writer has the underlying writer and the bytes not yet handed on; dropping it
    hands them on and forgets errors.  (Errors of the kind [Interrupted], which the standard
    library retries, are not among the kinds of [Error].) *)

From S2P Require Import Prelude Error Io Env.

Record BufWriter (W : Type) := mkBufWriter { bw_inner : W; bw_buf : bytes }.
Arguments mkBufWriter {W}.
Arguments bw_inner {W}.
Arguments bw_buf {W}.

Definition BUF_CAPACITY : Z := 8192.

(** [BufWriter::new] *)
Definition BufWriter_new {W} (inner : W) : BufWriter W := {| bw_inner := inner; bw_buf := [] |}.

Section buffered.
Context {E W : Type} `{!Write (E * W)}.
Implicit Types (b : BufWriter W).

(** [flush_buf]: what could not be written stays in the buffer. *)
Fixpoint flush_loop (fuel : nat) (s : E * BufWriter W) : exec ((E * BufWriter W) * io_result unit) :=
  let '(e, b) := s in
  match bw_buf b with
  | [] => Ret (s, Ok ())
  | buf =>
      match fuel with
      | O => NoFuel
      | S fuel =>
          '((e, w), r) ← w_write buf (e, bw_inner b);
          match r with
          | Err x => Ret ((e, {| bw_inner := w; bw_buf := buf |}), Err x)
          | Ok n =>
              if n =? 0 then Ret ((e, {| bw_inner := w; bw_buf := buf |}), Err {| kind := KOther; io_msg := "failed to write the buffered data" |})
              else rest ← slice_from buf n; flush_loop fuel (e, {| bw_inner := w; bw_buf := rest |})
          end
      end
  end.
Definition flush_buf (s : E * BufWriter W) : exec ((E * BufWriter W) * io_result unit) := flush_loop (length (bw_buf s.2)) s.

(** The buffer takes what fits; what does not fit into an empty buffer goes past it. *)
Definition buffered {A} (direct : E * W → exec ((E * W) * io_result A)) (ok : A) (bs : bytes) (s : E * BufWriter W)
  : exec ((E * BufWriter W) * io_result A) :=
  '(s, r) ← (if BUF_CAPACITY - zlen (bw_buf s.2) <? zlen bs then flush_buf s else Ret (s, Ok ()));
  match r with
  | Err x => Ret (s, Err x)
  | Ok _ =>
      if BUF_CAPACITY <=? zlen bs then
        '((e, w), r) ← direct (s.1, bw_inner s.2);
        Ret ((e, {| bw_inner := w; bw_buf := bw_buf s.2 |}), r)
      else Ret ((s.1, {| bw_inner := bw_inner s.2; bw_buf := bw_buf s.2 ++ bs |}), Ok ok)
  end.

#[export] Instance BufWriter_write : Write (E * BufWriter W) := {
  w_write bs s := buffered (w_write bs) (zlen bs) bs s;
  w_write_all bs s := buffered (w_write_all bs) () bs s;
  w_flush s :=
    '(s, r) ← flush_buf s;
    match r with
    | Err x => Ret (s, Err x)
    | Ok _ => '((e, w), r) ← w_flush (s.1, bw_inner s.2); Ret ((e, {| bw_inner := w; bw_buf := bw_buf s.2 |}), r)
    end;
}.

(** [impl Drop for BufWriter] *)
Definition BufWriter_drop (e : E) b : exec E := '(s, _) ← flush_buf (e, b); Ret s.1.

(** ** Over a reliable writer *)

Context {RW : ReliableWrite (E * W)}.

Lemma flush_buf_ok s : writable (s.1, bw_inner s.2) →
  ∃ e w, flush_buf s = Ret ((e, {| bw_inner := w; bw_buf := [] |}), Ok ()) ∧ written (e, w) = written (s.1, bw_inner s.2) ++ bw_buf s.2 ∧ writable (e, w).
Proof.
  destruct s as [e [w buf]]. cbn. intros Hw. unfold flush_buf. cbn. destruct buf as [|x buf]; cbn.
  - exists e, w. by rewrite app_nil_r.
  - destruct (write_reliable (x :: buf) (e, w) Hw) as ([e' w'] & -> & Hr & Hw'). rewrite bind_Ret.
    rewrite (proj2 (Z.eqb_neq (zlen (x :: buf)) 0)) by (cbn; lia).
    pose proof (slice_from_app (x :: buf) [] (zlen (x :: buf)) eq_refl) as Hs. rewrite app_nil_r in Hs. rewrite Hs, bind_Ret.
    exists e', w'. by destruct buf.
Qed.

Lemma buffered_ok {A} (direct : E * W → exec ((E * W) * io_result A)) ok bs s :
  (∀ s, writable s → ∃ s', direct s = Ret (s', Ok ok) ∧ written s' = written s ++ bs ∧ writable s') →
  writable (s.1, bw_inner s.2) →
  ∃ s', buffered direct ok bs s = Ret (s', Ok ok)
    ∧ written (s'.1, bw_inner s'.2) ++ bw_buf s'.2 = (written (s.1, bw_inner s.2) ++ bw_buf s.2) ++ bs ∧ writable (s'.1, bw_inner s'.2).
Proof.
  intros Hd Hw. unfold buffered.
  assert (∃ s1, (if BUF_CAPACITY - zlen (bw_buf s.2) <? zlen bs then flush_buf s else Ret (s, Ok ())) = Ret (s1, Ok ())
    ∧ written (s1.1, bw_inner s1.2) ++ bw_buf s1.2 = written (s.1, bw_inner s.2) ++ bw_buf s.2 ∧ writable (s1.1, bw_inner s1.2)
    ∧ (BUF_CAPACITY ≤ zlen bs → bw_buf s1.2 = [])) as (s1 & -> & H1 & H2 & H3).
  { destruct (Z.ltb_spec (BUF_CAPACITY - zlen (bw_buf s.2)) (zlen bs)).
    - destruct (flush_buf_ok s Hw) as (e & w & -> & H1 & H2). eexists. split; [done|]. cbn. by rewrite H1, app_nil_r.
    - exists s. split_and!; [done..|]. intros Hb. destruct (bw_buf s.2); [done|]. cbn [length] in *. lia. }
  rewrite bind_Ret. destruct (Z.leb_spec BUF_CAPACITY (zlen bs)) as [Hb|Hb].
  - destruct (Hd _ H2) as ([e w] & -> & H4 & H5). rewrite bind_Ret. eexists. split; [done|]. cbn. rewrite H4, <- H1, H3 by done. by rewrite !app_nil_r.
  - eexists. split; [done|]. cbn. rewrite <- H1. by rewrite <- app_assoc.
Qed.

#[export] Instance BufWriter_reliable : ReliableWrite (E * BufWriter W).
Proof.
  refine {| writable s := writable (s.1, bw_inner s.2); written s := written (s.1, bw_inner s.2) ++ bw_buf s.2 |}.
  - intros bs s Hw. apply buffered_ok; [|done]. intros s' Hs'. by apply write_reliable.
  - intros bs s Hw. apply buffered_ok; [|done]. intros s' Hs'. by apply write_all_reliable.
  - intros s Hw. cbn. destruct (flush_buf_ok s Hw) as (e & w & -> & H1 & H2). rewrite bind_Ret. cbn.
    destruct (flush_reliable (e, w) H2) as ([e' w'] & -> & H3 & H4). rewrite bind_Ret. eexists. split; [done|]. cbn. by rewrite H3, H1, app_nil_r.
Defined.

(** Flushing empties the buffer: then everything written is in the file. *)
Lemma buf_flush_ok s : writable (ReliableWrite := BufWriter_reliable) s →
  ∃ e w, w_flush s = Ret ((e, {| bw_inner := w; bw_buf := [] |}), Ok ()) ∧ writable (e, w)
    ∧ written (e, w) = written (ReliableWrite := BufWriter_reliable) s.
Proof.
  intros Hw. cbn in Hw |- *. destruct (flush_buf_ok s Hw) as (e & w & -> & H1 & H2). rewrite bind_Ret. cbn.
  destruct (flush_reliable (e, w) H2) as ([e' w'] & -> & H3 & H4). rewrite bind_Ret. exists e', w'. split_and!; [done..|]. by rewrite H3, H1.
Qed.

End buffered.
