(* ===== verification/MemEnv.v ===== *)
(** * MemEnv: [src/mem_env.rs]

    The in-memory environment.  A [MemFile] is a reference to a shared buffer: the buffers
    are in an explicit heap, a list that only grows, and a [MemFile] is a location of it.
    The mutexes are not part of the state: an operation runs while it holds the lock, and a
    panic ends the execution, so that no poisoned mutex is seen. *)

From Stdlib Require Import Ascii.
From S2P Require Import Prelude Error Types Io Env.

(** ** Files *)

(** [impl RandomAccess for BufferBackedFile] *)
Definition buf_read_at (self : bytes) (off n : Z) : exec (Result bytes) :=
  if zlen self <? off then Ret (Ok [])
  else
    remaining ← usub (zlen self) off;
    let to_read := if remaining <? n then remaining else n in
    s ← slice self off (off + to_read);
    Ret (Ok s).

Definition MemFile : Type := nat.

Record MemFSEntry := mkEntry { e_f : MemFile; e_locked : bool }.

Record MemFS := mkMemFS { buffers : list bytes; store : gmap string MemFSEntry }.

Definition MemFS_new : MemFS := {| buffers := []; store := ∅ |}.

Definition with_store (s : gmap string MemFSEntry) (fs : MemFS) : MemFS := {| buffers := buffers fs; store := s |}.
Definition with_buffers (b : list bytes) (fs : MemFS) : MemFS := {| buffers := b; store := store fs |}.

(** The buffer behind a [MemFile], and assigning to it. *)
Definition buffer (fs : MemFS) (f : MemFile) : exec bytes := unwrap (buffers fs !! (f : nat)).
Definition set_buffer (f : MemFile) (b : bytes) (fs : MemFS) : MemFS := with_buffers (<[(f : nat) := b]> (buffers fs)) fs.

Definition MemFile_new (fs : MemFS) : MemFS * MemFile := (with_buffers (buffers fs ++ [[]]) fs, length (buffers fs)).

(** [impl RandomAccess for MemFile] *)
Definition memfile_read_at (fs : MemFS) : RandomAccess MemFile := λ f off n,
  b ← buffer fs f; buf_read_at b off n.

Record MemFileReader := mkReader { mr_file : MemFile; mr_off : Z }.
Definition MemFileReader_new (f : MemFile) (from : Z) : MemFileReader := {| mr_file := f; mr_off := from |}.

Definition mfr_read (n : Z) (s : MemFS * MemFileReader) : exec ((MemFS * MemFileReader) * io_result bytes) :=
  let '(fs, r) := s in
  buf ← buffer fs (mr_file r);
  if zlen buf <=? mr_off r then Ret ((fs, r), Ok [])
  else
    remaining ← usub (zlen buf) (mr_off r);
    let to_read := if remaining <? n then remaining else n in
    out ← slice buf (mr_off r) (mr_off r + to_read);
    Ret ((fs, {| mr_file := mr_file r; mr_off := mr_off r + to_read |}), Ok out).

#[export] Instance memfile_read : Read (MemFS * MemFileReader) := {
  r_read := mfr_read;
  r_read_exact n s := default_read_exact mfr_read (Z.to_nat n) n [] s;
}.

Record MemFileWriter := mkWriter { mw_file : MemFile; mw_off : Z }.
Definition MemFileWriter_new (fs : MemFS) (f : MemFile) (append : bool) : exec MemFileWriter :=
  buf ← buffer fs f;
  Ret {| mw_file := f; mw_off := if append then zlen buf else 0 |}.

Definition mfw_write (src : bytes) (s : MemFS * MemFileWriter) : exec ((MemFS * MemFileWriter) * io_result Z) :=
  let '(fs, w) := s in
  buf ← buffer fs (mw_file w);
  buf ← (if mw_off w =? zlen buf then Ret (buf ++ src)
         else
           remaining ← usub (zlen buf) (mw_off w);
           if zlen src <=? remaining then splice buf (mw_off w) src
           else
             front ← slice src 0 remaining;
             buf ← splice buf (mw_off w) front;
             rest ← slice src remaining (zlen src);
             Ret (buf ++ rest));
  Ret ((set_buffer (mw_file w) buf fs, {| mw_file := mw_file w; mw_off := mw_off w + zlen src |}), Ok (zlen src)).

#[export] Instance memfile_write : Write (MemFS * MemFileWriter) := {
  w_write := mfw_write;
  w_write_all bs s := default_write_all mfw_write (length bs) bs s;
  w_flush s := Ret (s, Ok ());
}.

(** ** The file system *)

Definition fs_open (p : string) (create : bool) (fs : MemFS) : exec (MemFS * Result MemFile) :=
  match store fs !! p with
  | Some o => Ret (fs, Ok (e_f o))
  | None =>
      if negb create then Ret (fs, err NotFound ("open: file not found: " +:+ p))
      else
        let '(fs, f) := MemFile_new fs in
        Ret (with_store (<[p := {| e_f := f; e_locked := false |}]> (store fs)) fs, Ok f)
  end.

Definition open_w (p : string) (append truncate : bool) (fs : MemFS) : exec (MemFS * Result MemFileWriter) :=
  let? fs, f := fs_open p true fs in
  _ ← buffer fs f;
  let fs := if truncate then set_buffer f [] fs else fs in
  w ← MemFileWriter_new fs f append;
  Ret (fs, Ok w).

Definition exists_ (p : string) (fs : MemFS) : exec (Result bool) := Ret (Ok (bool_decide (is_Some (store fs !! p)))).

(** [str::strip_prefix] *)
Fixpoint strip_prefix (prefix k : string) : option string :=
  match prefix, k with
  | EmptyString, _ => Some k
  | String a prefix, String b k => if decide (a = b) then strip_prefix prefix k else None
  | String _ _, EmptyString => None
  end.
Definition starts_with (k prefix : string) : bool := match strip_prefix prefix k with Some _ => true | None => false end.
Fixpoint ends_with_sep (s : string) : bool :=
  match s with
  | EmptyString => false
  | String a EmptyString => bool_decide (a = Ascii.ascii_of_nat 47)
  | String _ s => ends_with_sep s
  end.

(** [order] is the order in which the hash map lists its keys. *)
Definition children_of (order : list string → list string) (p : string) (fs : MemFS) : exec (Result (list string)) :=
  let prefix := if ends_with_sep p then p else (p +:+ "/")%string in
  Ret (Ok (omap (λ k, if starts_with k prefix then Some (default k (strip_prefix prefix k)) else None)
                (order (map_to_list (store fs)).*1))).

Definition size_of_ (p : string) (fs : MemFS) : exec (Result Z) :=
  match store fs !! p with
  | Some o => b ← buffer fs (e_f o); Ret (Ok (zlen b))
  | None => Ret (err NotFound ("size_of: file not found: " +:+ p))
  end.

Definition delete_ (p : string) (fs : MemFS) : exec (MemFS * Result unit) :=
  match store fs !! p with
  | Some _ => Ret (with_store (delete p (store fs)) fs, Ok ())
  | None => Ret (fs, err NotFound ("delete: file not found: " +:+ p))
  end.

Definition rename_ (from to : string) (fs : MemFS) : exec (MemFS * Result unit) :=
  match store fs !! from with
  | Some v => Ret (with_store (<[to := v]> (delete from (store fs))) fs, Ok ())
  | None => Ret (fs, err NotFound ("rename: file not found: " +:+ from))
  end.

Definition lock_ (p : string) (fs : MemFS) : exec (MemFS * Result FileLock) :=
  match store fs !! p with
  | Some o =>
      if e_locked o then Ret (fs, err LockError ("already locked: " +:+ p))
      else Ret (with_store (<[p := {| e_f := e_f o; e_locked := true |}]> (store fs)) fs, Ok {| lock_id := p |})
  | None =>
      let '(fs, f) := MemFile_new fs in
      Ret (with_store (<[p := {| e_f := f; e_locked := true |}]> (store fs)) fs, Ok {| lock_id := p |})
  end.

Definition unlock_ (l : FileLock) (fs : MemFS) : exec (MemFS * Result unit) :=
  let id := lock_id l in
  match store fs !! id with
  | Some o =>
      if negb (e_locked o) then Ret (fs, err LockError ("unlocking unlocked file: " +:+ id))
      else Ret (with_store (<[id := {| e_f := e_f o; e_locked := false |}]> (store fs)) fs, Ok ())
  | None => Ret (fs, err NotFound ("unlock: file not found: " +:+ id))
  end.

(** ** [MemEnv] *)

(** [Result::map] behind a change of state. *)
Definition map_ok {S A B} (f : A → B) (m : exec (S * Result A)) : exec (S * Result B) :=
  let? s, a := m in Ret (s, Ok (f a)).

Definition mem_mkdir (p : string) (fs : MemFS) : exec (MemFS * Result unit) :=
  r ← exists_ p fs;
  Ret (fs, match r with Ok true => err AlreadyExists "" | Ok false => Ok () | Err e => Err e end).
Definition mem_rmdir (p : string) (fs : MemFS) : exec (MemFS * Result unit) :=
  r ← exists_ p fs;
  Ret (fs, match r with Ok false => err NotFound "" | Ok true => Ok () | Err e => Err e end).

#[export] Instance MemEnv (order : list string → list string) : Env MemFS := {
  seq_file := MemFileReader;
  ra_file := MemFile;
  w_file := MemFileWriter;
  ra_read := memfile_read_at;
  env_open_sequential_file p fs := map_ok (λ f, MemFileReader_new f 0) (fs_open p false fs);
  env_open_random_access_file p fs := fs_open p false fs;
  env_open_writable_file p fs := open_w p true true fs;
  env_open_appendable_file p fs := open_w p true false fs;
  env_exists := exists_;
  env_children := children_of order;
  env_size_of := size_of_;
  env_delete := delete_;
  env_mkdir := mem_mkdir;
  env_rmdir := mem_rmdir;
  env_rename := rename_;
  env_lock := lock_;
  env_unlock := unlock_;
  env_new_logger p fs := map_ok mkLogger (open_w p true false fs);
}.

(** ** Paths and their contents

    The abstract file system: what is at each path, and whether it is locked. *)

Abbreviation afs := (gmap string (bytes * bool)) (only parsing).

Definition abs_entry (fs : MemFS) (e : MemFSEntry) : bytes * bool := (default [] (buffers fs !! (e_f e : nat)), e_locked e).
Definition abs (fs : MemFS) : afs := abs_entry fs <$> store fs.

(** No path dangles and no two paths share a file. *)
Record mem_inv (fs : MemFS) : Prop := {
  mi_live p e : store fs !! p = Some e → (e_f e < length (buffers fs))%nat;
  mi_inj p q e e' : store fs !! p = Some e → store fs !! q = Some e' → e_f e = e_f e' → p = q;
}.

Inductive fs_op :=
  | OExists (p : string) | OSizeOf (p : string) | ODelete (p : string) | ORename (p q : string)
  | OMkdir (p : string) | ORmdir (p : string) | OLock (p : string) | OUnlock (p : string)
  | OOpen (p : string) | OOpenWritable (p : string) | OOpenAppendable (p : string).

Inductive fs_out := RUnit | RBool (b : bool) | RLen (n : Z).

(** The operations on the program's state; of an opened file only the success is seen. *)
Definition run_op (op : fs_op) (fs : MemFS) : exec (MemFS * Result fs_out) :=
  let _ := MemEnv id in
  match op with
  | OExists p => r ← env_exists p fs; Ret (fs, match r with Ok b => Ok (RBool b) | Err e => Err e end)
  | OSizeOf p => r ← env_size_of p fs; Ret (fs, match r with Ok n => Ok (RLen n) | Err e => Err e end)
  | ODelete p => map_ok (λ _, RUnit) (env_delete p fs)
  | ORename p q => map_ok (λ _, RUnit) (env_rename p q fs)
  | OMkdir p => map_ok (λ _, RUnit) (env_mkdir p fs)
  | ORmdir p => map_ok (λ _, RUnit) (env_rmdir p fs)
  | OLock p => map_ok (λ _, RUnit) (env_lock p fs)
  | OUnlock p => map_ok (λ _, RUnit) (env_unlock {| lock_id := p |} fs)
  | OOpen p => map_ok (λ _, RUnit) (env_open_sequential_file p fs)
  | OOpenWritable p => map_ok (λ _, RUnit) (env_open_writable_file p fs)
  | OOpenAppendable p => map_ok (λ _, RUnit) (env_open_appendable_file p fs)
  end.

Definition not_found (what p : string) : Result fs_out := err NotFound (what +:+ ": file not found: " +:+ p).

(** What they promise. *)
Definition spec_op (op : fs_op) (m : afs) : afs * Result fs_out :=
  match op with
  | OExists p => (m, Ok (RBool (bool_decide (is_Some (m !! p)))))
  | OSizeOf p => (m, match m !! p with Some (b, _) => Ok (RLen (zlen b)) | None => not_found "size_of" p end)
  | ODelete p => match m !! p with Some _ => (delete p m, Ok RUnit) | None => (m, not_found "delete" p) end
  | ORename p q => match m !! p with Some e => (<[q := e]> (delete p m), Ok RUnit) | None => (m, not_found "rename" p) end
  | OMkdir p => (m, match m !! p with Some _ => err AlreadyExists "" | None => Ok RUnit end)
  | ORmdir p => (m, match m !! p with Some _ => Ok RUnit | None => err NotFound "" end)
  | OLock p =>
      match m !! p with
      | Some (_, true) => (m, err LockError ("already locked: " +:+ p))
      | Some (b, false) => (<[p := (b, true)]> m, Ok RUnit)
      | None => (<[p := ([], true)]> m, Ok RUnit)
      end
  | OUnlock p =>
      match m !! p with
      | Some (b, true) => (<[p := (b, false)]> m, Ok RUnit)
      | Some (_, false) => (m, err LockError ("unlocking unlocked file: " +:+ p))
      | None => (m, not_found "unlock" p)
      end
  | OOpen p => (m, match m !! p with Some _ => Ok RUnit | None => not_found "open" p end)
  | OOpenWritable p => (match m !! p with Some (_, l) => <[p := ([], l)]> m | None => <[p := ([], false)]> m end, Ok RUnit)
  | OOpenAppendable p => (match m !! p with Some _ => m | None => <[p := ([], false)]> m end, Ok RUnit)
  end.

(** ** Lemmas *)

Lemma abs_lookup fs p : abs fs !! p = abs_entry fs <$> store fs !! p.
Proof. apply lookup_fmap. Qed.

Lemma buffer_live fs p e : mem_inv fs → store fs !! p = Some e → buffer fs (e_f e) = Ret (default [] (buffers fs !! (e_f e : nat))).
Proof. intros I H. unfold buffer. destruct (lookup_lt_is_Some_2 (buffers fs) (e_f e)) as [b ->]; [by eapply mi_live|done]. Qed.

(** Changing entries leaves the buffers. *)
Lemma abs_with_store fs s : abs (with_store s fs) = abs_entry fs <$> s.
Proof. done. Qed.

Lemma mem_inv_store fs s :
  mem_inv fs → (∀ p e, s !! p = Some e → ∃ q e', store fs !! q = Some e' ∧ e_f e' = e_f e) →
  (∀ p q e e', s !! p = Some e → s !! q = Some e' → e_f e = e_f e' → p = q) → mem_inv (with_store s fs).
Proof. intros I H1 H2. split; [|exact H2]. cbn. intros p e He. destruct (H1 p e He) as (q & e' & He' & <-). by eapply mi_live. Qed.

Lemma mem_inv_delete fs p : mem_inv fs → mem_inv (with_store (delete p (store fs)) fs).
Proof.
  intros I. apply mem_inv_store; [done| |].
  - intros q e [_ He]%lookup_delete_Some. by exists q, e.
  - intros q q' e e' [_ He]%lookup_delete_Some [_ He']%lookup_delete_Some. by apply (mi_inj _ I).
Qed.

(** A new file at a path. *)
Definition create (p : string) (l : bool) (fs : MemFS) : MemFS :=
  {| buffers := buffers fs ++ [[]]; store := <[p := {| e_f := length (buffers fs); e_locked := l |}]> (store fs) |}.

Lemma create_ok fs p l : mem_inv fs → mem_inv (create p l fs) ∧ abs (create p l fs) = <[p := ([], l)]> (abs fs).
Proof.
  intros I. split; [split; cbn|].
  - intros q e. rewrite lookup_insert_Some, length_app. intros [[_ <-]|[_ He]]; cbn; [lia|]. pose proof (mi_live _ I _ _ He). lia.
  - intros q q' e e'. rewrite !lookup_insert_Some. intros [[<- <-]|[? He]] [[<- <-]|[? He']] E; cbn in *; try done.
    + pose proof (mi_live _ I _ _ He'). lia.
    + pose proof (mi_live _ I _ _ He). lia.
    + by apply (mi_inj _ I _ _ _ _ He He').
  - apply map_eq. intros q. rewrite abs_lookup. cbn. destruct (decide (q = p)) as [->|Hne].
    + rewrite !lookup_insert_eq. cbn. unfold abs_entry. cbn. by rewrite lookup_app_r, Nat.sub_diag by lia.
    + rewrite !lookup_insert_ne, abs_lookup by done. destruct (store fs !! q) as [e|] eqn:He; [|done]. cbn. f_equal. unfold abs_entry. cbn.
      by rewrite lookup_app_l by (by eapply mi_live).
Qed.

(** New contents of a file, or another lock state. *)
Lemma set_buffer_ok fs p e b :
  mem_inv fs → store fs !! p = Some e →
  mem_inv (set_buffer (e_f e) b fs) ∧ abs (set_buffer (e_f e) b fs) = <[p := (b, e_locked e)]> (abs fs).
Proof.
  intros I He. split; [split; cbn; [intros q e'; rewrite length_insert; apply (mi_live _ I)|exact (mi_inj _ I)]|].
  apply map_eq. intros q. rewrite abs_lookup. cbn. destruct (decide (q = p)) as [->|Hne].
  - rewrite He, lookup_insert_eq. cbn. unfold abs_entry. cbn. by rewrite list_lookup_insert_eq by (by eapply mi_live).
  - rewrite lookup_insert_ne, abs_lookup by done. destruct (store fs !! q) as [e'|] eqn:He'; [|done]. cbn. unfold abs_entry. cbn.
    rewrite list_lookup_insert_ne; [done|]. intros E. apply Hne. symmetry. by eapply (mi_inj _ I).
Qed.

Lemma set_lock_ok fs p e l :
  mem_inv fs → store fs !! p = Some e →
  let fs' := with_store (<[p := {| e_f := e_f e; e_locked := l |}]> (store fs)) fs in
  mem_inv fs' ∧ abs fs' = <[p := ((abs_entry fs e).1, l)]> (abs fs).
Proof.
  intros I He fs'. split.
  - apply mem_inv_store; [done| |].
    + intros q e'. rewrite lookup_insert_Some. intros [[<- <-]|[_ He']]; [by exists p, e|by exists q, e'].
    + intros q q' e1 e2. rewrite !lookup_insert_Some. intros [[<- <-]|[? H1]] [[<- <-]|[? H2]] E; cbn in *; [done|..]; by eapply (mi_inj _ I).
  - unfold fs'. rewrite abs_with_store, fmap_insert. done.
Qed.

Lemma rename_ok fs p q e :
  mem_inv fs → store fs !! p = Some e →
  let fs' := with_store (<[q := e]> (delete p (store fs))) fs in mem_inv fs' ∧ abs fs' = <[q := abs_entry fs e]> (delete p (abs fs)).
Proof.
  intros I He fs'. split.
  - apply mem_inv_store; [done| |].
    + intros r e'. rewrite lookup_insert_Some, lookup_delete_Some. intros [[<- <-]|(_ & _ & He')]; eauto.
    + intros r r' e1 e2. rewrite !lookup_insert_Some, !lookup_delete_Some.
      intros [[<- <-]|(? & ? & H1)] [[<- <-]|(? & ? & H2)] E; [done|..].
      * exfalso. assert (p = r') by (by eapply (mi_inj _ I)). done.
      * exfalso. assert (r = p) by (by eapply (mi_inj _ I)). done.
      * by eapply (mi_inj _ I).
  - unfold fs'. by rewrite abs_with_store, fmap_insert, fmap_delete.
Qed.

Lemma open_w_ok fs p a t :
  mem_inv fs → ∃ fs' w e, open_w p a t fs = Ret (fs', Ok w) ∧ mem_inv fs' ∧ store fs' !! p = Some e
    ∧ w = {| mw_file := e_f e; mw_off := if a then zlen (abs_entry fs' e).1 else 0 |}
    ∧ abs fs' = match abs fs !! p with
                | Some (b, l) => <[p := (if t then [] else b, l)]> (abs fs)
                | None => <[p := ([], false)]> (abs fs)
                end
    ∧ ∀ q, q ≠ p → store fs' !! q = store fs !! q.
Proof.
  intros I. unfold open_w, fs_open, MemFileWriter_new. rewrite abs_lookup. destruct (store fs !! p) as [e|] eqn:He; cbn [sbind mbind exec_bind fmap option_fmap option_map].
  - rewrite (buffer_live _ _ _ I He), bind_Ret. destruct t.
    + destruct (set_buffer_ok fs p e [] I He) as [I' A]. eexists _, _, e. rewrite (buffer_live _ p e I' He), bind_Ret. split; [done|].
      split_and!; done.
    + eexists fs, _, e. rewrite (buffer_live _ _ _ I He), bind_Ret. split; [done|]. split_and!; try done.
      destruct (abs_entry fs e) as [b l] eqn:Ea. by rewrite insert_id by (by rewrite abs_lookup, He; cbn; rewrite Ea).
  - cbn [negb MemFile_new]. destruct (create_ok fs p false I) as [I' A].
    set (e := {| e_f := length (buffers fs); e_locked := false |}) in *.
    assert (store (create p false fs) !! p = Some e) as He' by (cbn; by rewrite lookup_insert_eq).
    change (with_store _ _) with (create p false fs). change (length (buffers fs)) with (e_f e). unfold sbind. rewrite bind_Ret.
    rewrite (buffer_live _ p e I' He'), bind_Ret. destruct t.
    + destruct (set_buffer_ok _ p e [] I' He') as [I'' A'']. eexists _, _, e. rewrite (buffer_live _ p e I'' He'), bind_Ret. split; [done|].
      split_and!; try done; [rewrite A'', A; cbn; by rewrite insert_insert_eq|intros q Hq; cbn; by rewrite lookup_insert_ne].
    + eexists _, _, e. rewrite (buffer_live _ p e I' He'), bind_Ret. split; [done|]. split_and!; try done. intros q Hq. cbn. by rewrite lookup_insert_ne.
Qed.

Lemma run_op_ok op fs :
  mem_inv fs → ∃ fs', run_op op fs = Ret (fs', (spec_op op (abs fs)).2) ∧ mem_inv fs' ∧ abs fs' = (spec_op op (abs fs)).1.
Proof.
  intros I. destruct op as [p|p|p|p q|p|p|p|p|p|p|p]; cbn [spec_op].
  10-11: destruct (open_w_ok fs p true true I) as (fs1 & w1 & e1 & E1 & I1 & _ & _ & A1 & _);
         destruct (open_w_ok fs p true false I) as (fs2 & w2 & e2 & E2 & I2 & _ & _ & A2 & _).
  10: { exists fs1. cbn. rewrite E1. split_and!; [done..|]. rewrite A1. by destruct (abs fs !! p) as [[b l]|]. }
  10: { exists fs2. cbn. rewrite E2. split_and!; [done..|]. rewrite A2. destruct (abs fs !! p) as [[b l]|] eqn:E; [by apply insert_id|done]. }
  all: rewrite ?abs_lookup; cbn; unfold exists_, size_of_, delete_, rename_, lock_, unlock_, fs_open, map_ok, not_found, mem_mkdir, mem_rmdir; cbn.
  all: destruct (store fs !! p) as [e|] eqn:He; cbn; try (eexists; split_and!; [done..|]; done).
  - rewrite (buffer_live _ _ _ I He), bind_Ret. by eexists.
  - eexists. split_and!; [done|by apply mem_inv_delete|]. by rewrite abs_with_store, fmap_delete.
  - destruct (rename_ok fs p q e I He) as [I' A]. by eexists.
  - unfold abs_entry. destruct (e_locked e) eqn:El; cbn; [by eexists|]. destruct (set_lock_ok fs p e true I He) as [I' A]. by eexists.
  - destruct (create_ok fs p true I) as [I' A]. exists (create p true fs). by split_and!.
  - unfold abs_entry. destruct (e_locked e) eqn:El; cbn; [|by eexists]. destruct (set_lock_ok fs p e false I He) as [I' A]. by eexists.
Qed.

Fixpoint run_ops (ops : list fs_op) (fs : MemFS) : exec (MemFS * list (Result fs_out)) :=
  match ops with
  | [] => Ret (fs, [])
  | op :: ops => '(fs, r) ← run_op op fs; '(fs, rs) ← run_ops ops fs; Ret (fs, r :: rs)
  end.
Fixpoint spec_ops (ops : list fs_op) (m : afs) : afs * list (Result fs_out) :=
  match ops with
  | [] => (m, [])
  | op :: ops => let (m, r) := spec_op op m in let (m, rs) := spec_ops ops m in (m, r :: rs)
  end.

Lemma run_ops_ok ops fs :
  mem_inv fs → ∃ fs', run_ops ops fs = Ret (fs', (spec_ops ops (abs fs)).2) ∧ mem_inv fs' ∧ abs fs' = (spec_ops ops (abs fs)).1.
Proof.
  revert fs. induction ops as [|op ops IH]; intros fs I; cbn [run_ops spec_ops]; [by exists fs|].
  destruct (run_op_ok op fs I) as (fs1 & -> & I1 & A1). rewrite bind_Ret. destruct (IH fs1 I1) as (fs2 & -> & I2 & A2). rewrite bind_Ret.
  exists fs2. destruct (spec_op op (abs fs)) as [m r]. cbn in *. subst m. by destruct (spec_ops ops (abs fs1)).
Qed.

Lemma run_ops_app ops1 ops2 fs :
  run_ops (ops1 ++ ops2) fs = ('(fs, r1) ← run_ops ops1 fs; '(fs, r2) ← run_ops ops2 fs; Ret (fs, r1 ++ r2)).
Proof.
  revert fs. induction ops1 as [|op ops1 IH]; intros fs; simpl; [by destruct (run_ops ops2 fs) as [[? ?]| |]|].
  destruct (run_op op fs) as [[fs1 r]| |]; [|done..]. rewrite !bind_Ret, IH. destruct (run_ops ops1 fs1) as [[fs2 r1]| |]; [|done..].
  rewrite !bind_Ret. by destruct (run_ops ops2 fs2) as [[? ?]| |].
Qed.

(** The operations that end a lock on [p]: unlocking it, and those that take the path away or
    put another file there. *)
Definition releases (p : string) (op : fs_op) : bool :=
  match op with
  | OUnlock q | ODelete q => bool_decide (q = p)
  | ORename q r => bool_decide (q = p) || bool_decide (r = p)
  | _ => false
  end.

Lemma locked_step op (m : afs) p b :
  m !! p = Some (b, true) → releases p op = false → ∃ b', (spec_op op m).1 !! p = Some (b', true).
Proof.
  intros Hp Hr. destruct op as [q|q|q|q r|q|q|q|q|q|q|q]; cbn in *; try by exists b.
  all: try (destruct (decide (q = p)) as [->|Hne]; [rewrite ?Hp in *|]); cbn in *; rewrite ?bool_decide_true in * by done; try done; try (by eexists).
  - destruct (m !! q); cbn; [|by exists b]. rewrite lookup_delete_ne by done. by exists b.
  - rewrite bool_decide_false in Hr by done. cbn in Hr. apply bool_decide_eq_false in Hr. destruct (m !! q); cbn; [|by exists b].
    rewrite lookup_insert_ne, lookup_delete_ne by done. by exists b.
  - destruct (m !! q) as [[? []]|]; cbn; [by exists b|..]; rewrite lookup_insert_ne by done; by exists b.
  - destruct (m !! q) as [[? []]|]; cbn; [rewrite lookup_insert_ne by done; by exists b|by exists b..].
  - exists []. by rewrite lookup_insert_eq.
  - destruct (m !! q) as [[? ?]|]; cbn; rewrite lookup_insert_ne by done; by exists b.
  - destruct (m !! q) as [[? ?]|]; cbn; [|rewrite lookup_insert_ne by done]; by exists b.
Qed.

Lemma locked_steps ops (m : afs) p b :
  m !! p = Some (b, true) → Forall (λ op, releases p op = false) ops → ∃ b', (spec_ops ops m).1 !! p = Some (b', true).
Proof.
  revert m b. induction ops as [|op ops IH]; intros m b Hp Hr; cbn; [by exists b|]. apply Forall_cons in Hr as [Hop Hr].
  destruct (locked_step op m p b Hp Hop) as [b1 H1]. destruct (spec_op op m) as [m1 r]. cbn in H1.
  destruct (IH m1 b1 H1 Hr) as [b2 H2]. exists b2. by destruct (spec_ops ops m1).
Qed.

(** ** Reading and writing *)

(** [writes]: one [write] per chunk; [read_to_end]: reads of [n] bytes until one gives none. *)
Fixpoint writes `{Write W} (chunks : list bytes) (w : W) : exec W :=
  match chunks with
  | [] => Ret w
  | c :: chunks => '(w, _) ← w_write c w; writes chunks w
  end.
Fixpoint read_to_end `{Read R} (fuel : nat) (n : Z) (r : R) : exec bytes :=
  match fuel with
  | O => NoFuel
  | S fuel =>
      '(r, out) ← r_read n r;
      match out with
      | Ok [] | Err _ => Ret []
      | Ok bs => rest ← read_to_end fuel n r; Ret (bs ++ rest)
      end
  end.

(** Writing in the middle of a file overlays it and extends it as needed. *)
Lemma mfw_write_overlay fs w src buf :
  buffer fs (mw_file w) = Ret buf → 0 ≤ mw_off w ≤ zlen buf →
  mfw_write src (fs, w) = Ret ((set_buffer (mw_file w) (take (Z.to_nat (mw_off w)) buf ++ src ++ drop (Z.to_nat (mw_off w) + length src) buf) fs,
                               {| mw_file := mw_file w; mw_off := mw_off w + zlen src |}), Ok (zlen src)).
Proof.
  intros Hb Ho. unfold mfw_write. rewrite Hb, bind_Ret. destruct (Z.eqb_spec (mw_off w) (zlen buf)) as [E|E].
  - rewrite bind_Ret, take_ge, drop_ge, app_nil_r by lia. done.
  - rewrite usub_Ret, bind_Ret by lia. destruct (Z.leb_spec (zlen src) (zlen buf - mw_off w)).
    + unfold splice. ztest. rewrite bind_Ret. by replace (Z.to_nat (mw_off w + zlen src)) with (Z.to_nat (mw_off w) + length src)%nat by lia.
    + rewrite !slice_spec by lia. rewrite !bind_Ret. unfold splice. rewrite length_take, length_drop. ztest. rewrite !bind_Ret.
      rewrite !(drop_ge buf), !app_nil_r by (rewrite ?length_take, ?length_drop; lia). change (drop (Z.to_nat 0) src) with src.
      rewrite Z.sub_0_r, (take_ge (drop _ src)) by (rewrite length_drop; lia). by rewrite <- app_assoc, take_drop.
Qed.

Lemma abs_entry_set fs p e b : mem_inv fs → store fs !! p = Some e → abs_entry (set_buffer (e_f e) b fs) e = (b, e_locked e).
Proof. intros I He. unfold abs_entry. cbn. by rewrite list_lookup_insert_eq by (by eapply mi_live). Qed.

Lemma writes_end chunks fs p e :
  mem_inv fs → store fs !! p = Some e →
  ∃ fs' w', writes chunks (fs, {| mw_file := e_f e; mw_off := zlen (abs_entry fs e).1 |}) = Ret (fs', w')
    ∧ mem_inv fs' ∧ store fs' = store fs ∧ abs fs' = <[p := ((abs_entry fs e).1 ++ concat chunks, e_locked e)]> (abs fs).
Proof.
  revert fs. induction chunks as [|c chunks IH]; intros fs I He; cbn [writes].
  - eexists _, _. split; [done|]. split_and!; [done..|]. rewrite app_nil_r. symmetry. apply insert_id. by rewrite abs_lookup, He.
  - cbn [w_write memfile_write]. set (b := (abs_entry fs e).1).
    rewrite (mfw_write_overlay fs {| mw_file := e_f e; mw_off := zlen b |} c b (buffer_live _ _ _ I He)) by (cbn; lia). rewrite bind_Ret.
    cbn [mw_file mw_off]. rewrite take_ge, drop_ge, app_nil_r by lia. destruct (set_buffer_ok fs p e (b ++ c) I He) as [I' A].
    destruct (IH _ I' He) as (fs' & w' & E & I'' & S & A'). rewrite (abs_entry_set fs p) in E, A' by done. cbn [fst] in E, A'.
    rewrite length_app, Nat2Z.inj_add in E. exists fs', w'. split; [exact E|]. split_and!; [done..|].
    rewrite A', A, insert_insert_eq. cbn [concat]. by rewrite <- app_assoc.
Qed.

Lemma read_to_end_ok fs f buf n fuel off :
  buffer fs f = Ret buf → 0 < n → 0 ≤ off → (length buf - Z.to_nat off < fuel)%nat →
  read_to_end fuel n (fs, {| mr_file := f; mr_off := off |}) = Ret (drop (Z.to_nat off) buf).
Proof.
  intros Hb Hn. revert off. induction fuel as [|fuel IH]; intros off Ho Hf.
  - lia.
  - cbn [read_to_end r_read memfile_read mfr_read mr_file mr_off]. rewrite Hb, bind_Ret. destruct (Z.leb_spec (zlen buf) off).
    + rewrite bind_Ret, drop_ge by lia. done.
    + rewrite usub_Ret, bind_Ret by lia. set (k := if zlen buf - off <? n then zlen buf - off else n).
      assert (0 < k ≤ zlen buf - off) as Hk by (unfold k; destruct (Z.ltb_spec (zlen buf - off) n); lia).
      rewrite slice_spec, !bind_Ret by lia. replace (off + k - off) with k by lia.
      assert (∃ b bs, take (Z.to_nat k) (drop (Z.to_nat off) buf) = b :: bs) as (b & bs & E).
      { destruct (take _ _) as [|b bs] eqn:E; [|by exists b, bs]. apply (f_equal length) in E. rewrite length_take, length_drop in E. cbn in E. lia. }
      rewrite E, IH, bind_Ret, <- E by lia. f_equal. rewrite <- (take_drop (Z.to_nat k) (drop (Z.to_nat off) buf)) at 2. f_equal.
      rewrite drop_drop. f_equal. lia.
Qed.

(** A [MemFile] holds its buffer. *)
Lemma memfile_holds fs f b : buffer fs f = Ret b → file_holds (H := memfile_read_at fs) f b.
Proof.
  intros Hb off n Ho Hn. unfold read_at, memfile_read_at. rewrite Hb, bind_Ret. unfold buf_read_at. ztest. rewrite usub_Ret, bind_Ret by lia.
  destruct (Z.ltb_spec (zlen b - off) n); rewrite slice_spec, bind_Ret by lia.
  - rewrite (take_ge _ (Z.to_nat n)) by (rewrite length_drop; lia). rewrite take_ge by (rewrite length_drop; lia). done.
  - by replace (off + n - off) with n by lia.
Qed.

(** ** The in-memory environment is reliable *)

Definition mem_contents (fs : MemFS) : gmap string bytes := fst <$> abs fs.
Definition mem_appends (fs : MemFS) (w : MemFileWriter) (p : string) : Prop :=
  ∃ e, store fs !! p = Some e ∧ mw_file w = e_f e ∧ mw_off w = zlen (abs_entry fs e).1.
Definition mem_left (fs : MemFS) (r : MemFileReader) : option bytes :=
  buf ← buffers fs !! (mr_file r : nat);
  if decide (0 ≤ mr_off r ≤ zlen buf) then Some (drop (Z.to_nat (mr_off r)) buf) else None.
Definition mem_opened (fs : MemFS) (f : MemFile) (p : string) : Prop := ∃ e, store fs !! p = Some e ∧ f = e_f e.

Definition mem_locked (fs : MemFS) (p : string) : Prop := e_locked <$> store fs !! p = Some true.

Definition mem_kept (ps : list string) (fs fs' : MemFS) : Prop :=
  mem_inv fs' ∧ (∀ w p, p ∉ ps → mem_appends fs w p → mem_appends fs' w p) ∧ (∀ f p, p ∉ ps → mem_opened fs f p → mem_opened fs' f p)
  ∧ (∀ p, p ∉ ps → mem_locked fs' p ↔ mem_locked fs p).

Lemma mem_contents_lookup fs p b : mem_contents fs !! p = Some b ↔ ∃ e, store fs !! p = Some e ∧ (abs_entry fs e).1 = b.
Proof.
  unfold mem_contents. rewrite lookup_fmap, abs_lookup. destruct (store fs !! p) as [e|]; cbn; split.
  - intros [= <-]. by exists e.
  - by intros (? & [= <-] & <-).
  - done.
  - by intros (? & ? & _).
Qed.

Lemma mem_contents_None fs p : mem_contents fs !! p = None ↔ store fs !! p = None.
Proof. unfold mem_contents. rewrite lookup_fmap, abs_lookup. by destruct (store fs !! p). Qed.

(** The other paths keep their files and these their contents. *)
Lemma mem_kept_intro ps fs fs' :
  mem_inv fs' → (∀ p, p ∉ ps → store fs' !! p = store fs !! p) →
  (∀ p e, p ∉ ps → store fs !! p = Some e → (abs_entry fs' e).1 = (abs_entry fs e).1) → mem_kept ps fs fs'.
Proof.
  intros I Hs H. split_and!; [done|..].
  - intros w p Hp (e & He & Hw & Ho). exists e. rewrite (Hs p Hp), (H p e Hp He). done.
  - intros f p Hp (e & He & ->). exists e. by rewrite (Hs p Hp).
  - intros p Hp. unfold mem_locked. by rewrite Hs.
Qed.

Lemma mem_kept_abs ps fs fs' :
  mem_inv fs' → (∀ p, p ∉ ps → store fs' !! p = store fs !! p) → (∀ p, p ∉ ps → abs fs' !! p = abs fs !! p) → mem_kept ps fs fs'.
Proof.
  intros I Hs Ha. apply mem_kept_intro; [done|done|]. intros p e Hp He. pose proof (Ha p Hp) as Hap.
  rewrite !abs_lookup, Hs, He in Hap by done. cbn in Hap. congruence.
Qed.

Lemma mem_write_ok fs w p b bs :
  mem_inv fs → mem_appends fs w p → mem_contents fs !! p = Some b →
  ∃ fs' w', mfw_write bs (fs, w) = Ret ((fs', w'), Ok (zlen bs)) ∧ mem_kept [p] fs fs'
    ∧ mem_contents fs' = <[p := b ++ bs]> (mem_contents fs) ∧ mem_appends fs' w' p.
Proof.
  intros I (e & He & Hf & Ho) (e' & He' & Hb)%mem_contents_lookup. rewrite He in He'. injection He' as <-.
  pose proof (buffer_live _ _ _ I He) as Hbuf. change (default [] (buffers fs !! (e_f e : nat))) with (abs_entry fs e).1 in Hbuf. rewrite Hb in *.
  rewrite <- Hf in Hbuf. rewrite (mfw_write_overlay fs w bs b Hbuf) by lia. rewrite Ho, Nat2Z.id, take_ge, drop_ge, app_nil_r by lia.
  rewrite Hf. destruct (set_buffer_ok fs p e (b ++ bs) I He) as [I' A].
  eexists _, _. split; [done|]. split_and!.
  - apply mem_kept_abs; [done|done|]. intros q Hq. rewrite A, lookup_insert_ne; [done|]. intros ->. apply Hq. by left.
  - unfold mem_contents. by rewrite A, fmap_insert.
  - exists e. split_and!; [done|done|]. rewrite (abs_entry_set fs p) by done. cbn. rewrite length_app. lia.
Qed.

Lemma mem_open_ok fs p (t : bool) :
  mem_inv fs → ∃ fs' w, open_w p true t fs = Ret (fs', Ok w) ∧ mem_kept [p] fs fs'
    ∧ mem_contents fs' = <[p := if t then [] else default [] (mem_contents fs !! p)]> (mem_contents fs) ∧ mem_appends fs' w p.
Proof.
  intros I. destruct (open_w_ok fs p true t I) as (fs' & w & e & E & I' & He & -> & A & Hst). eexists _, _. split; [exact E|]. split_and!.
  - apply mem_kept_abs; [done|..]; intros q Hq; (assert (q ≠ p) by (intros ->; apply Hq; by left)); [by apply Hst|]. rewrite A.
    by destruct (abs fs !! p) as [[b l]|]; rewrite lookup_insert_ne.
  - unfold mem_contents. rewrite A, lookup_fmap. destruct (abs fs !! p) as [[b l]|]; rewrite fmap_insert; cbn; by destruct t.
  - by exists e.
Qed.

(** [read] gives what is left, up to the size of the buffer. *)
Lemma mem_read_ok n fs r b :
  0 ≤ n → mem_left fs r = Some b →
  ∃ r', mfr_read n (fs, r) = Ret ((fs, r'), Ok (take (Z.to_nat n) b)) ∧ mem_left fs r' = Some (drop (Z.to_nat n) b).
Proof.
  intros Hn Hb. unfold mem_left in Hb. destruct (buffers fs !! (mr_file r : nat)) as [buf|] eqn:Hbuf; [|done]. cbn in Hb.
  destruct (decide _) as [Ho|]; [|done]. injection Hb as <-. unfold mfr_read, buffer. rewrite Hbuf. cbn [unwrap]. rewrite bind_Ret.
  destruct (Z.leb_spec (zlen buf) (mr_off r)) as [Hle|Hlt].
  - rewrite (drop_ge buf) by lia. rewrite take_nil, drop_nil. exists r. split; [done|]. unfold mem_left. rewrite Hbuf. cbn.
    by rewrite decide_True, drop_ge by lia.
  - rewrite usub_Ret, bind_Ret by lia. set (k := if zlen buf - mr_off r <? n then zlen buf - mr_off r else n).
    assert (0 ≤ k ≤ zlen buf - mr_off r ∧ (k = n ∨ k < n ∧ k = zlen buf - mr_off r)) as [Hk Hkn] by (unfold k; destruct (Z.ltb_spec (zlen buf - mr_off r) n); lia).
    rewrite slice_spec, bind_Ret by lia. replace (mr_off r + k - mr_off r) with k by lia. eexists. split.
    + do 3 f_equal. destruct Hkn as [->|[? ->]]; [done|]. rewrite !take_ge by (rewrite length_drop; lia). done.
    + unfold mem_left. cbn. rewrite Hbuf. cbn. rewrite decide_True by lia. f_equal. rewrite drop_drop.
      destruct Hkn as [->|[? ->]]; [f_equal; lia|]. rewrite !drop_ge by lia. done.
Qed.

(** [read_exact] loops until the buffer is full: one read fills it. *)
Lemma mem_read_exact_loop fuel n fs r b :
  0 < n ≤ zlen b → mem_left fs r = Some b →
  ∃ r', default_read_exact mfr_read (S fuel) n [] (fs, r) = Ret ((fs, r'), Ok (take (Z.to_nat n) b)) ∧ mem_left fs r' = Some (drop (Z.to_nat n) b).
Proof.
  intros Hn Hb. cbn [default_read_exact]. rewrite (proj2 (Z.leb_gt n 0)) by lia.
  destruct (mem_read_ok n fs r b ltac:(lia) Hb) as (r' & -> & Hb'). rewrite bind_Ret. exists r'. split; [|done].
  assert (length (take (Z.to_nat n) b) = Z.to_nat n) as Hl by (rewrite length_take; lia).
  destruct (take (Z.to_nat n) b) as [|x bs] eqn:E; [simpl in Hl; lia|]. rewrite Hl. replace (n - Z.of_nat (Z.to_nat n)) with 0 by lia.
  by destruct fuel.
Qed.

Lemma mem_read_exact_ok n fs r b :
  0 ≤ n ≤ zlen b → mem_left fs r = Some b →
  ∃ r', r_read_exact n (fs, r) = Ret ((fs, r'), Ok (take (Z.to_nat n) b)) ∧ mem_left fs r' = Some (drop (Z.to_nat n) b).
Proof.
  intros Hn Hb. cbn [r_read_exact memfile_read]. destruct (decide (n = 0)) as [->|Hn0]; [by exists r|].
  destruct (mem_read_exact_loop (Z.to_nat n - 1) n fs r b ltac:(lia) Hb) as (r' & E & Hb'). exists r'. split; [|done].
  rewrite <- E. f_equal. lia.
Qed.

Lemma mem_read_exact_short_loop fuel n fs r b :
  zlen b < n → mem_left fs r = Some b → ∃ r' s, default_read_exact mfr_read (S (S fuel)) n [] (fs, r) = Ret ((fs, r'), Err s) ∧ is_Some (mem_left fs r').
Proof.
  intros Hn Hb. cbn [default_read_exact].
  rewrite (proj2 (Z.leb_gt n 0)) by lia. destruct (mem_read_ok n fs r b ltac:(lia) Hb) as (r' & -> & Hb'). rewrite bind_Ret.
  rewrite take_ge by lia. rewrite drop_ge in Hb' by lia. destruct b as [|x b]; [do 2 eexists; split; [done|by eexists]|].
  rewrite (proj2 (Z.leb_gt (n - zlen (x :: b)) 0)) by lia.
  destruct (mem_read_ok (n - zlen (x :: b)) fs r' [] ltac:(lia) Hb') as (r'' & -> & Hl). rewrite bind_Ret, take_nil. do 2 eexists. split; [done|by eexists].
Qed.

Lemma mem_read_exact_short n fs r b :
  zlen b < n → mem_left fs r = Some b → ∃ r' s, r_read_exact n (fs, r) = Ret ((fs, r'), Err s) ∧ is_Some (mem_left fs r').
Proof.
  intros Hn Hb. cbn [r_read_exact memfile_read]. destruct b as [|x b].
  - destruct (mem_read_ok n fs r [] ltac:(lia) Hb) as (r' & E & Hl). rewrite take_nil in E.
    assert (Z.to_nat n = S (Z.to_nat n - 1)) as -> by lia. cbn [default_read_exact]. rewrite (proj2 (Z.leb_gt n 0)), E, bind_Ret by lia. do 2 eexists. split; [done|by eexists].
  - destruct (mem_read_exact_short_loop (Z.to_nat n - 2) n fs r (x :: b) Hn Hb) as (r' & s & E & Hl). exists r', s. split; [|done]. rewrite <- E. f_equal. simpl length in Hn. lia.
Qed.

(** The hash map lists each of its keys once. *)
Class ListOrder (order : list string → list string) : Prop := list_order l : order l ≡ₚ l.
#[export] Instance list_order_id : ListOrder id.
Proof. by intros l. Qed.

Lemma strip_prefix_Some pre k r : strip_prefix pre k = Some r ↔ k = (pre +:+ r)%string.
Proof.
  revert k. induction pre as [|a pre IH]; intros k; cbn [strip_prefix]; [split; [by intros [= ->]|by intros ->]|]. destruct k as [|b k]; [done|].
  change (String a pre +:+ r)%string with (String a (pre +:+ r)). destruct (decide (a = b)) as [->|Hne]; [rewrite IH; split; [by intros ->|by intros [= ->]]|].
  split; [done|by intros [= ]].
Qed.

Lemma children_nodup pre ks : NoDup ks → NoDup (omap (λ k, if starts_with k pre then Some (default k (strip_prefix pre k)) else None) ks).
Proof.
  induction 1 as [|k ks Hk Hnd IH]; [constructor|]. cbn. unfold starts_with at 1. destruct (strip_prefix pre k) as [r|] eqn:Er; [|done]. cbn.
  apply NoDup_cons. split; [|done]. rewrite list_elem_of_omap. intros (k' & Hk' & H). unfold starts_with in H. destruct (strip_prefix pre k') as [r'|] eqn:Er'; [|done].
  cbn in H. injection H as ->. apply strip_prefix_Some in Er as ->. by apply strip_prefix_Some in Er' as ->.
Qed.

Lemma append_assoc (a b c : string) : ((a +:+ b) +:+ c = a +:+ (b +:+ c))%string.
Proof. induction a as [|x a IH]; [done|]. exact (f_equal (String x) IH). Qed.

Lemma ends_with_sep_get p : ends_with_sep p = true ↔ String.get (String.length p - 1) p = Some "/"%char.
Proof.
  induction p as [|a p IH]; [done|]. destruct p as [|b p].
  - cbn. rewrite bool_decide_eq_true. change (Ascii.ascii_of_nat 47) with "/"%char. split; congruence.
  - change (ends_with_sep (String a (String b p))) with (ends_with_sep (String b p)). rewrite IH. cbn. by rewrite Nat.sub_0_r.
Qed.

Lemma path_join_prefix p name : p ≠ ""%string → path_join p name = ((if ends_with_sep p then p else p +:+ "/") +:+ name)%string.
Proof.
  intros Hp. unfold path_join. rewrite decide_False by done. pose proof (ends_with_sep_get p) as H. destruct (ends_with_sep p).
  - by rewrite (proj1 H eq_refl).
  - assert (String.get (String.length p - 1) p ≠ Some "/"%char) as Hn by (intros Hg%H; done). rewrite append_assoc.
    destruct (String.get _ p) as [[[] [] [] [] [] [] [] []]|]; done.
Qed.

Lemma mem_lock_kept fs p o (l : bool) : mem_inv fs → store fs !! p = Some o →
  let fs' := with_store (<[p := {| e_f := e_f o; e_locked := l |}]> (store fs)) fs in
  mem_kept [p] fs fs' ∧ mem_contents fs' = mem_contents fs.
Proof.
  intros I Hp fs'. split.
  - apply mem_kept_intro; [|intros q Hq; cbn; by rewrite lookup_insert_ne by set_solver|done].
    split; cbn; intros q e.
    + rewrite lookup_insert_Some. intros [[<- <-]|[_ Hq]]; [exact (mi_live _ I p o Hp)|by eapply mi_live].
    + intros e1 e2. rewrite !lookup_insert_Some. intros [[<- <-]|[H1 Hq]] [[<- <-]|[H2 Hr]]; cbn; intros He; [done|..]; by eapply (mi_inj _ I).
  - apply map_eq. intros q. unfold mem_contents. rewrite !lookup_fmap, !abs_lookup. cbn. destruct (decide (q = p)) as [->|Hne]; [by rewrite lookup_insert_eq, Hp|by rewrite lookup_insert_ne].
Qed.

#[program, export] Instance MemEnv_laws order {LO : ListOrder order} : EnvLaws MemFS (EN := MemEnv order) := {
  env_ok := mem_inv;
  contents := mem_contents;
  appends_to := mem_appends;
  left_to_read := mem_left;
  opened_at := mem_opened;
  locked := mem_locked;
}.
Next Obligation.
  intros order ? p fs b I (e & He & Hb)%mem_contents_lookup. cbn. unfold fs_open. rewrite He. eexists fs, _. split; [done|]. split_and!; try done.
  unfold mem_left. cbn. destruct (lookup_lt_is_Some_2 (buffers fs) (e_f e)) as [buf Hbuf]; [by eapply mi_live|].
  rewrite Hbuf. cbn. rewrite decide_True by lia. f_equal. rewrite <- Hb. unfold abs_entry. by rewrite Hbuf.
Qed.
Next Obligation. intros order ? p fs I Hp%mem_contents_None. cbn. unfold fs_open. rewrite Hp. by eexists fs, _. Qed.
Next Obligation.
  intros order ? p fs b I (e & He & Hb)%mem_contents_lookup. cbn. unfold fs_open. rewrite He. eexists fs, _. split; [done|]. split_and!; try done. by exists e.
Qed.
Next Obligation.
  intros order ? fs f p b I (e & He & ->) (e' & He' & Hb)%mem_contents_lookup. rewrite He in He'. injection He' as <-. rewrite <- Hb.
  apply (memfile_holds fs (e_f e)). by apply (buffer_live _ p).
Qed.
Next Obligation. intros order ? p fs I. exact (mem_open_ok fs p true I). Qed.
Next Obligation. intros order ? p fs I. exact (mem_open_ok fs p false I). Qed.
Next Obligation.
  intros order ? p fs b I (e & He & Hb)%mem_contents_lookup. cbn. unfold size_of_. rewrite He, (buffer_live _ p), bind_Ret by done. rewrite <- Hb. done.
Qed.
Next Obligation.
  intros order ? p fs I. cbn. unfold exists_. do 2 f_equal. apply bool_decide_ext. unfold mem_contents. rewrite lookup_fmap, abs_lookup. by rewrite !fmap_is_Some.
Qed.
Next Obligation.
  intros order ? p fs I [b (e & He & _)%mem_contents_lookup]. cbn. unfold delete_. rewrite He. eexists. split; [done|]. split.
  - apply mem_kept_intro; [by apply mem_inv_delete| |done]. intros q Hq. cbn. by rewrite lookup_delete_ne by set_solver.
  - unfold mem_contents. by rewrite abs_with_store, !fmap_delete.
Qed.
Next Obligation. intros order ? p fs I Hp%mem_contents_None. cbn. unfold delete_. rewrite Hp. by eexists fs, _. Qed.
Next Obligation. intros order ? p fs I. cbn. unfold mem_mkdir, exists_. by eexists fs, _. Qed.
Next Obligation.
  intros order ? p fs I Hp. cbn. unfold children_of. eexists. split; [done|]. split; [apply children_nodup; rewrite list_order; apply NoDup_fst_map_to_list|].
  intros name. rewrite list_elem_of_omap. unfold mem_contents.
  rewrite path_join_prefix by done. set (pre := if ends_with_sep p then p else (p +:+ "/")%string). rewrite lookup_fmap, abs_lookup, !fmap_is_Some. split.
  - intros (k & Hk & Hn). rewrite list_order in Hk. apply list_elem_of_fmap in Hk as ([k' e] & -> & He%elem_of_map_to_list). cbn in Hn. unfold starts_with in Hn.
    destruct (strip_prefix pre k') as [r|] eqn:Er; [|done]. injection Hn as <-. apply strip_prefix_Some in Er as ->. by eexists.
  - intros [e He]. exists (pre +:+ name)%string. rewrite list_order. split.
    + apply list_elem_of_fmap. exists ((pre +:+ name)%string, e). split; [done|]. by apply elem_of_map_to_list.
    + unfold starts_with. by rewrite (proj2 (strip_prefix_Some pre _ name) eq_refl).
Qed.
Next Obligation.
  intros order ? p fs I Hl. cbn. unfold lock_. destruct (store fs !! p) as [o|] eqn:Hp.
  - destruct (e_locked o) eqn:El; [by destruct Hl; unfold mem_locked; rewrite Hp; cbn; rewrite El|]. eexists _, _. split; [done|].
    destruct (mem_lock_kept fs p o true I Hp) as [K C]. split; [exact K|]. split_and!; [|done|unfold mem_locked; cbn; by rewrite lookup_insert_eq].
    rewrite C. symmetry. apply insert_id. destruct (mem_contents fs !! p) eqn:Hc; [done|]. apply mem_contents_None in Hc. congruence.
  - destruct (create_ok fs p true I) as [I' A]. eexists (create p true fs), _. split; [done|]. split; [|split_and!; [|done|unfold mem_locked; cbn; by rewrite lookup_insert_eq]].
    + apply mem_kept_abs; [done|intros q Hq; cbn; by rewrite lookup_insert_ne by set_solver|]. intros q Hq. rewrite A. by rewrite lookup_insert_ne by set_solver.
    + rewrite (proj2 (mem_contents_None fs p) Hp). unfold mem_contents. by rewrite A, fmap_insert.
Qed.
Next Obligation.
  intros order ? p fs I Hl. cbn. unfold lock_. unfold mem_locked in Hl. destruct (store fs !! p) as [o|]; [|done]. cbn in Hl. injection Hl as ->. by eexists fs, _.
Qed.
Next Obligation.
  intros order ? l fs I Hl. cbn. unfold unlock_. unfold mem_locked in Hl. destruct (store fs !! lock_id l) as [o|] eqn:Hp; [|done]. cbn in Hl. injection Hl as ->. cbn [negb].
  destruct (mem_lock_kept fs _ o false I Hp) as [K C]. eexists. split; [done|]. split; [exact K|]. split; [exact C|]. unfold mem_locked. cbn. by rewrite lookup_insert_eq.
Qed.
Next Obligation.
  intros order ? p q fs b I (e & He & Hb)%mem_contents_lookup. cbn. unfold rename_. rewrite He. destruct (rename_ok fs p q e I He) as [I' A].
  eexists. split; [done|]. split.
  - apply mem_kept_intro; [done| |done]. intros r Hr. cbn. by rewrite lookup_insert_ne, lookup_delete_ne by set_solver.
  - unfold mem_contents. by rewrite A, fmap_insert, fmap_delete, Hb.
Qed.
Next Obligation. intros order ? fs w p b bs. exact (mem_write_ok fs w p b bs). Qed.
Next Obligation.
  intros order ? fs w p b bs I Ha Hb. cbn. destruct bs as [|x bs].
  - exists fs, w. split; [done|]. split_and!; try done. rewrite app_nil_r. symmetry. by apply insert_id.
  - destruct (mem_write_ok fs w p b (x :: bs) I Ha Hb) as (fs' & w' & E & H). exists fs', w'. split; [|done]. cbn [length default_write_all].
    rewrite E, bind_Ret. rewrite (proj2 (Z.eqb_neq (zlen (x :: bs)) 0)) by (simpl length; lia).
    unfold slice_from. rewrite slice_spec, bind_Ret by lia. rewrite Z.sub_diag. by destruct bs.
Qed.
Next Obligation. intros order ? fs w p b I Ha Hb. by exists fs, w. Qed.
Next Obligation. intros order ? n fs r b I Hn Hb. destruct (mem_read_ok n fs r b Hn Hb) as (r' & E & Hb'). by exists fs, r'. Qed.
Next Obligation. intros order ? n fs r b I Hn Hb. destruct (mem_read_exact_ok n fs r b Hn Hb) as (r' & E & Hb'). by exists fs, r'. Qed.
Next Obligation. intros order ? n fs r b I Hn Hb. destruct (mem_read_exact_short n fs r b Hn Hb) as (r' & s & E & Hl). by exists fs, r', s. Qed.

(** ** Theorems *)

(** C38: the in-memory environment is a map from paths to contents and lock bits: every
    sequence of operations on paths returns what the map specifies, errors included, and the
    shared buffers behind the paths are never dangling and never shared by two paths. *)
Theorem memfs_refines_paths ops fs :
  mem_inv fs → ∃ fs', run_ops ops fs = Ret (fs', (spec_ops ops (abs fs)).2) ∧ mem_inv fs' ∧ abs fs' = (spec_ops ops (abs fs)).1.
Proof. apply run_ops_ok. Qed.

Lemma mem_inv_new : mem_inv MemFS_new.
Proof. by split. Qed.

Lemma memfs_refines_paths_witness :
  ∃ fs', run_ops [OOpenWritable "db/CURRENT"; ORename "db/CURRENT" "db/LOCK"; OSizeOf "db/LOCK"; OExists "db/CURRENT"] MemFS_new
         = Ret (fs', [Ok RUnit; Ok RUnit; Ok (RLen 0); Ok (RBool false)]).
Proof.
  destruct (memfs_refines_paths [OOpenWritable "db/CURRENT"; ORename "db/CURRENT" "db/LOCK"; OSizeOf "db/LOCK"; OExists "db/CURRENT"] MemFS_new mem_inv_new)
    as (fs' & E & _). exists fs'. rewrite E. reflexivity.
Defined.

(** A lock excludes every other lock: once [lock] was called on a path (and succeeded, or
    found it locked), whatever operations follow, [lock] fails on it and changes nothing,
    until the path is unlocked, deleted, renamed away or over; unlocking it makes the next
    [lock] succeed. *)
Theorem memfs_lock_excludes fs p ops :
  mem_inv fs → Forall (λ op, releases p op = false) ops →
  ∃ fs' rs, run_ops (OLock p :: ops) fs = Ret (fs', rs)
    ∧ (∃ fs1, run_op (OLock p) fs' = Ret (fs1, err LockError ("already locked: " +:+ p)) ∧ abs fs1 = abs fs')
    ∧ ∃ fs2, run_ops [OUnlock p; OLock p] fs' = Ret (fs2, [Ok RUnit; Ok RUnit]).
Proof.
  intros I Hops. destruct (run_op_ok (OLock p) fs I) as (fs1 & E1 & I1 & A1).
  assert (∃ b, abs fs1 !! p = Some (b, true)) as (b & Hb).
  { rewrite A1. cbn. destruct (abs fs !! p) as [[b []]|] eqn:E; cbn; [by exists b|..]; eexists; by rewrite lookup_insert_eq. }
  cbn [run_ops]. rewrite E1, bind_Ret. destruct (run_ops_ok ops fs1 I1) as (fs2 & E2 & I2 & A2). rewrite E2, bind_Ret.
  destruct (locked_steps ops _ _ _ Hb Hops) as [b' Hb']. rewrite <- A2 in Hb'. eexists _, _. split; [reflexivity|].
  destruct (run_op_ok (OLock p) fs2 I2) as (fs3 & E3 & I3 & A3). destruct (run_ops_ok [OUnlock p; OLock p] fs2 I2) as (fs4 & E4 & _).
  cbn [spec_op] in E3, A3. rewrite Hb' in E3, A3. split; [by exists fs3|]. exists fs4. etrans; [exact E4|]. cbn. rewrite Hb'. cbn.
  by rewrite lookup_insert_eq.
Qed.

Lemma memfs_lock_excludes_witness :
  ∃ fs' rs fs1, run_ops [OLock "LOCK"; ODelete "LOG"; ORename "A" "B"; OOpenWritable "LOCK"] MemFS_new = Ret (fs', rs)
    ∧ run_op (OLock "LOCK") fs' = Ret (fs1, err LockError "already locked: LOCK").
Proof.
  destruct (memfs_lock_excludes MemFS_new "LOCK" [ODelete "LOG"; ORename "A" "B"; OOpenWritable "LOCK"] mem_inv_new) as (fs' & rs & E & (fs1 & E1 & _) & _);
    [by repeat constructor|]. exists fs', rs, fs1. split; [exact E|exact E1].
Defined.

(** what is written to a file that was opened for writing (or for appending), in chunks of
    any sizes, is what its readers get, in reads of any size; [read_at] gives any part of it,
    and no other file changes. *)
Theorem memfs_write_then_read order fs p (append : bool) chunks :
  mem_inv fs →
  let E := MemEnv order in
  let old := if append then (default ([], false) (abs fs !! p)).1 else [] in
  let data := old ++ concat chunks in
  ∃ fs1 w fs2 w' f, (if append then env_open_appendable_file p fs else env_open_writable_file p fs) = Ret (fs1, Ok w)
    ∧ writes chunks (fs1, w) = Ret (fs2, w')
    ∧ mem_inv fs2 ∧ (∀ q, q ≠ p → abs fs2 !! q = abs fs !! q)
    ∧ env_size_of p fs2 = Ret (Ok (zlen data))
    ∧ (∃ r, env_open_sequential_file p fs2 = Ret (fs2, Ok r) ∧ ∀ n, 0 < n → read_to_end (S (length data)) n (fs2, r) = Ret data)
    ∧ env_open_random_access_file p fs2 = Ret (fs2, Ok f)
    ∧ file_holds (H := ra_read fs2) f data.
Proof.
  intros I E old data. destruct (open_w_ok fs p true (negb append) I) as (fs1 & w & e & Eo & I1 & He & -> & A1 & _).
  assert ((abs_entry fs1 e).1 = old) as Hold.
  { pose proof (abs_lookup fs1 p) as Hp. rewrite He, A1 in Hp. cbn [fmap option_fmap option_map] in Hp. unfold old.
    destruct (abs fs !! p) as [[b l]|]; rewrite lookup_insert_eq in Hp; apply (inj Some) in Hp; rewrite <- Hp; by destruct append. }
  destruct (writes_end chunks fs1 p e I1 He) as (fs2 & w' & Ew & I2 & S2 & A2). rewrite Hold in A2. fold data in A2.
  assert (store fs2 !! p = Some e) as He2 by (by rewrite S2). assert (buffer fs2 (e_f e) = Ret data) as Hb.
  { rewrite (buffer_live _ p _ I2 He2). f_equal. pose proof (abs_lookup fs2 p) as Hp. rewrite He2, A2, lookup_insert_eq in Hp. cbn in Hp. by injection Hp. }
  exists fs1, {| mw_file := e_f e; mw_off := zlen (abs_entry fs1 e).1 |}, fs2, w', (e_f e).
  split; [by destruct append|]. split; [exact Ew|]. split; [exact I2|].
  unfold E. cbn [env_size_of env_open_sequential_file env_open_random_access_file ra_read MemEnv]. unfold size_of_, fs_open. rewrite He2. split_and!.
  - intros q Hq. rewrite A2, A1. destruct (abs fs !! p) as [[b l]|]; by rewrite !lookup_insert_ne.
  - by rewrite Hb.
  - eexists. split; [reflexivity|]. intros n Hn. unfold MemFileReader_new. rewrite (read_to_end_ok fs2 (e_f e) data n) by (done || cbn; lia). done.
  - done.
  - exact (memfile_holds fs2 (e_f e) data Hb).
Qed.

Lemma memfs_write_then_read_witness :
  ∃ fs1 w fs2 w' r, open_w "db/000001.log" true true MemFS_new = Ret (fs1, Ok w) ∧ writes [[1; 2]; []; [3; 4; 5]] (fs1, w) = Ret (fs2, w')
    ∧ read_to_end 6 2 (fs2, r) = Ret [1; 2; 3; 4; 5].
Proof.
  destruct (memfs_write_then_read id MemFS_new "db/000001.log" false [[1; 2]; []; [3; 4; 5]] mem_inv_new)
    as (fs1 & w & fs2 & w' & f & E1 & E2 & _ & _ & _ & (r & _ & E3) & _). exists fs1, w, fs2, w', r.
  split; [exact E1|]. split; [exact E2|]. apply (E3 2). lia.
Defined.

(** A writer whose file another one truncates panics at its next write: its offset lies
    behind the end of the buffer. *)
Theorem write_after_truncate_panics :
  ('(fs, w1) ← open_w "f" true true MemFS_new;
   match w1 with
   | Err _ => Ret ()
   | Ok w1 =>
       s ← writes [[1; 2]] (fs, w1);
       '(fs, _) ← open_w "f" true true s.1;
       _ ← writes [[3]] (fs, s.2);
       Ret ()
   end) = Panic.
Proof. reflexivity. Qed.
