(* ===== verification/DiskEnv.v ===== *)
(** * DiskEnv: [src/disk_env.rs]

    The environment on disk, over a model of what [std::fs] does on Unix: names of files and
    directories, inodes with contents, open files with a position.  Paths are compared as text,
    up to separators at their end: other spellings of a path, such as [a//b] for [a/b], are
    different files of the model.  Permissions, full disks, links and other processes are not
    part of it; the advisory locks of the crate [fs2] are a
    parameter. *)

From S2P Require Import Prelude Error Types Io Env.

(** ** [std::fs] *)

Record Disk := mkDisk { d_inodes : list bytes; d_names : gmap string nat; d_dirs : gset string }.

(** A path without the separators at its end. *)
Fixpoint trim_path (p : string) : string :=
  match p with
  | EmptyString => EmptyString
  | String c p =>
      let p := trim_path p in
      if decide (c = Ascii.ascii_of_nat 47 ∧ p = EmptyString) then EmptyString else String c p
  end.

(** What is before the last separator, if there is one, and what is behind it. *)
Fixpoint split_path (p : string) : option string * string :=
  match p with
  | EmptyString => (None, EmptyString)
  | String c p =>
      match split_path p with
      | (Some d, f) => (Some (String c d), f)
      | (None, f) => if decide (c = Ascii.ascii_of_nat 47) then (Some EmptyString, f) else (None, String c f)
      end
  end.
Definition parent (p : string) : string := default EmptyString (split_path (trim_path p)).1.

(** The working directory and the root are there. *)
Definition is_dir (d : Disk) (p : string) : bool := bool_decide (trim_path p = EmptyString ∨ trim_path p ∈ d_dirs d).
Definition lookup_file (d : Disk) (p : string) : option nat := d_names d !! trim_path p.

(** An open file; a directory can be opened too. *)
Record File := mkFd { f_inode : option nat; f_pos : Z; f_append : bool }.

Definition io_err (k : ErrorKind) (msg : string) : IoError := {| kind := k; io_msg := msg |}.
Definition not_found : IoError := io_err KNotFound "No such file or directory (os error 2)".
Definition is_a_directory : IoError := io_err KOther "Is a directory (os error 21)".
Definition not_a_directory : IoError := io_err KOther "Not a directory (os error 20)".

(** [OpenOptions] *)
Record OpenOptions := mkOpen { oo_read : bool; oo_write : bool; oo_append : bool; oo_truncate : bool; oo_create : bool }.
Definition OpenOptions_new : OpenOptions := mkOpen false false false false false.
Definition set_read b o := mkOpen b (oo_write o) (oo_append o) (oo_truncate o) (oo_create o).
Definition set_write b o := mkOpen (oo_read o) b (oo_append o) (oo_truncate o) (oo_create o).
Definition set_append b o := mkOpen (oo_read o) (oo_write o) b (oo_truncate o) (oo_create o).
Definition set_create b o := mkOpen (oo_read o) (oo_write o) (oo_append o) (oo_truncate o) b.

Definition set_inode (i : nat) (b : bytes) (d : Disk) : Disk := mkDisk (<[i := b]> (d_inodes d)) (d_names d) (d_dirs d).

Definition open_with (o : OpenOptions) (p : string) (d : Disk) : Disk * io_result File :=
  if is_dir d p then (d, if oo_write o || oo_append o then Err is_a_directory else Ok (mkFd None 0 false))
  else match lookup_file d p with
  | Some i => (if oo_truncate o && oo_write o then set_inode i [] d else d, Ok (mkFd (Some i) 0 (oo_append o)))
  | None =>
      if oo_create o && is_dir d (parent p) then
        let i := length (d_inodes d) in
        (mkDisk (d_inodes d ++ [[]]) (<[trim_path p := i]> (d_names d)) (d_dirs d), Ok (mkFd (Some i) 0 (oo_append o)))
      else (d, Err (if oo_create o && bool_decide (is_Some (lookup_file d (parent p))) then not_a_directory else not_found))
  end.

(** [impl Read for File], [impl Write for File], [FileExt::read_at]. *)
Definition file_data (d : Disk) (f : File) : option bytes := f_inode f ≫= λ i, d_inodes d !! i.

Definition file_read (n : Z) (d : Disk) (f : File) : io_result bytes * File :=
  match file_data d f with
  | Some b => let r := take (Z.to_nat n) (drop (Z.to_nat (f_pos f)) b) in (Ok r, mkFd (f_inode f) (f_pos f + zlen r) (f_append f))
  | None => (Err is_a_directory, f)
  end.

(** The bytes [bs] at the position [pos] of [b]; a gap is filled with zeroes. *)
Definition overlay (b : bytes) (pos : nat) (bs : bytes) : bytes :=
  take pos b ++ replicate (pos - length b) 0 ++ bs ++ drop (pos + length bs) b.

Definition file_write (bs : bytes) (d : Disk) (f : File) : Disk * File * io_result Z :=
  match f_inode f, file_data d f with
  | Some i, Some b =>
      let pos := if f_append f then zlen b else f_pos f in
      (set_inode i (overlay b (Z.to_nat pos) bs) d, mkFd (Some i) (pos + zlen bs) (f_append f), Ok (zlen bs))
  | _, _ => (d, f, Err (io_err KOther "Bad file descriptor (os error 9)"))
  end.

Definition file_read_at (off n : Z) (d : Disk) (f : File) : io_result bytes :=
  match file_data d f with Some b => Ok (take (Z.to_nat n) (drop (Z.to_nat off) b)) | None => Err is_a_directory end.

(** [fs::metadata(p).len()]; directories have some size. *)
Definition metadata_len (dir_size : Z) (p : string) (d : Disk) : io_result Z :=
  if is_dir d p then Ok dir_size
  else match lookup_file d p with
  | Some i => match d_inodes d !! i with Some b => Ok (zlen b) | None => Err not_found end
  | None => Err not_found
  end.

Definition remove_file (p : string) (d : Disk) : Disk * io_result unit :=
  if is_dir d p then (d, Err is_a_directory)
  else match lookup_file d p with
  | Some _ => (mkDisk (d_inodes d) (delete (trim_path p) (d_names d)) (d_dirs d), Ok ())
  | None => (d, Err not_found)
  end.

Definition path_exists (p : string) (d : Disk) : bool := is_dir d p || bool_decide (is_Some (lookup_file d p)).

(** The directories on the way to [p]. *)
Fixpoint ancestors (fuel : nat) (p : string) : list string :=
  match fuel with
  | O => []
  | S fuel => if decide (p = EmptyString) then [] else p :: ancestors fuel (parent p)
  end.
Definition create_dir_all (p : string) (d : Disk) : Disk * io_result unit :=
  let ds := ancestors (String.length p) (trim_path p) in
  if bool_decide (Exists (λ q, is_Some (d_names d !! q)) ds) then (d, Err not_a_directory)
  else (mkDisk (d_inodes d) (d_names d) (d_dirs d ∪ list_to_set ds), Ok ()).

Definition below (p q : string) : bool := bool_decide (p ∈ ancestors (String.length q) q).
Definition remove_dir_all (p : string) (d : Disk) : Disk * io_result unit :=
  let t := trim_path p in
  if is_dir d p then (mkDisk (d_inodes d) (filter (λ x, below t x.1 = false) (d_names d)) (filter (λ q, below t q = false) (d_dirs d)), Ok ())
  else (d, Err (if bool_decide (is_Some (lookup_file d p)) then not_a_directory else not_found)).

(** Renaming files; the database renames no directories. *)
Definition fs_rename (p q : string) (d : Disk) : Disk * io_result unit :=
  match lookup_file d p with
  | Some i =>
      if is_dir d q then (d, Err is_a_directory)
      else if is_dir d (parent q) then (mkDisk (d_inodes d) (<[trim_path q := i]> (delete (trim_path p) (d_names d))) (d_dirs d), Ok ())
      else (d, Err not_found)
  | None => (d, Err (if is_dir d p then is_a_directory else not_found))
  end.

(** The names in a directory, in the order [order] of the file system. *)
Definition read_dir (order : list string → list string) (p : string) (d : Disk) : io_result (list string) :=
  if is_dir d p then Ok (order (omap (λ q, if decide (parent q = trim_path p) then Some (split_path q).2 else None) ((map_to_list (d_names d)).*1 ++ elements (d_dirs d))))
  else Err (if bool_decide (is_Some (lookup_file d p)) then not_a_directory else not_found).

(** ** [PosixDiskEnv] *)

(** The crate [fs2]: exclusive locks on open files, in a state of their own. *)
Class Fs2 (L : Type) := {
  try_lock_exclusive : File → L → L * io_result unit;
  fs2_unlock : File → L → L * io_result unit;
  (** [errno::errno()] after a call that failed. *)
  errno_text : L → string;
}.

Record PosixDiskEnv (L : Type) := mkPosix { pe_disk : Disk; pe_flocks : L; pe_locks : gmap string File }.
Arguments mkPosix {L}.
Arguments pe_disk {L}.
Arguments pe_flocks {L}.
Arguments pe_locks {L}.

Section disk_env.
Context {L : Type} {FL : Fs2 L} (order : list string → list string) (dir_size : Z) (debug_file : File → string).
Abbreviation E := (PosixDiskEnv L) (only parsing).
Implicit Types (e : PosixDiskEnv L).

Definition set_disk (d : Disk) e : E := mkPosix d (pe_flocks e) (pe_locks e).

Definition map_err_with_name (method f : string) (x : IoError) : Status :=
  let s := Status_from_io x in {| code := code s; err_msg := (method +:+ ": " +:+ err_msg s +:+ ": " +:+ f)%string |}.

(** [r.map_err(|e| map_err_with_name(method, p, e))?] *)
Definition named {A} (method p : string) (r : io_result A) : Result A :=
  match r with Ok a => Ok a | Err x => Err (map_err_with_name method p x) end.

(** An operation of [std::fs]. *)
Definition on_disk {A} (method p : string) (op : Disk → Disk * io_result A) e : exec (E * Result A) :=
  let (d, r) := op (pe_disk e) in Ret (set_disk d e, named method p r).

Definition disk_open_sequential (p : string) e : exec (E * Result File) := on_disk "open (seq)" p (open_with (set_read true OpenOptions_new) p) e.
Definition disk_open_random (p : string) e : exec (E * Result File) := on_disk "open (randomaccess)" p (open_with (set_read true OpenOptions_new) p) e.
Definition disk_open_writable (p : string) e : exec (E * Result File) :=
  on_disk "open (write)" p (open_with (set_append false (set_write true (set_create true OpenOptions_new))) p) e.
Definition disk_open_appendable (p : string) e : exec (E * Result File) :=
  on_disk "open (append)" p (open_with (set_append true (set_write true (set_create true OpenOptions_new))) p) e.

Definition disk_exists (p : string) e : exec (Result bool) := Ret (Ok (path_exists p (pe_disk e))).
(** Every entry of the directory can be read; the filter drops none. *)
Definition disk_children (p : string) e : exec (Result (list string)) :=
  Ret (match named "children" p (read_dir order p (pe_disk e)) with
       | Err x => Err x
       | Ok names => Ok (filter (λ s, s ≠ EmptyString) names)
       end).
Definition disk_size_of (p : string) e : exec (Result Z) := Ret (named "size_of" p (metadata_len dir_size p (pe_disk e))).
Definition disk_delete (p : string) e : exec (E * Result unit) := on_disk "delete" p (remove_file p) e.
Definition disk_mkdir (p : string) e : exec (E * Result unit) := on_disk "mkdir" p (create_dir_all p) e.
Definition disk_rmdir (p : string) e : exec (E * Result unit) := on_disk "rmdir" p (remove_dir_all p) e.
Definition disk_rename (p q : string) e : exec (E * Result unit) := on_disk "rename" p (fs_rename p q) e.

Definition disk_lock (p : string) e : exec (E * Result FileLock) :=
  match pe_locks e !! p with
  | Some _ => Ret (e, err AlreadyExists "Lock is held")
  | None =>
      let? e, f := on_disk "lock" p (open_with (set_create true (set_write true OpenOptions_new)) p) e in
      let (l, r) := try_lock_exclusive f (pe_flocks e) in
      let e := mkPosix (pe_disk e) l (pe_locks e) in
      match r with
      | Err x =>
          Ret (e, if decide (kind x = KWouldBlock) then err LockError "lock on database is already held by different process"
                  else err (Errno (errno_text l)) ("unknown lock error on file " +:+ debug_file f +:+ " (file " +:+ p +:+ ")"))
      | Ok _ => Ret (mkPosix (pe_disk e) l (<[p := f]> (pe_locks e)), Ok {| lock_id := p |})
      end
  end.

Definition disk_unlock (lk : FileLock) e : exec (E * Result unit) :=
  let id := lock_id lk in
  match pe_locks e !! id with
  | None => Ret (e, err LockError ("unlocking a file that is not locked: " +:+ id))
  | Some f =>
      let (l, r) := fs2_unlock f (pe_flocks e) in
      let e := mkPosix (pe_disk e) l (delete id (pe_locks e)) in
      Ret (e, match r with Err _ => err LockError ("unlock failed: " +:+ id) | Ok _ => Ok () end)
  end.

Definition disk_new_logger (p : string) e : exec (E * Result (Logger File)) :=
  let? e, f := disk_open_appendable p e in Ret (e, Ok (mkLogger f)).

(** [impl RandomAccess for File] *)
Definition disk_read_at e : RandomAccess File := λ f off n,
  Ret (match file_read_at off n (pe_disk e) f with Ok b => Ok b | Err x => Err (Status_from_io x) end).

Definition disk_read (n : Z) (s : E * File) : exec ((E * File) * io_result bytes) :=
  let (r, f) := file_read n (pe_disk s.1) s.2 in Ret ((s.1, f), r).
Definition disk_write (bs : bytes) (s : E * File) : exec ((E * File) * io_result Z) :=
  let '(d, f, r) := file_write bs (pe_disk s.1) s.2 in Ret ((set_disk d s.1, f), r).

#[export] Instance disk_file_read : Read (E * File) := {
  r_read := disk_read;
  r_read_exact n s := default_read_exact disk_read (Z.to_nat n) n [] s;
}.
#[export] Instance disk_file_write : Write (E * File) := {
  w_write := disk_write;
  w_write_all bs s := default_write_all disk_write (length bs) bs s;
  w_flush s := Ret (s, Ok ());
}.

#[export] Instance DiskEnv : Env (PosixDiskEnv L) := {
  seq_file := File;
  ra_file := File;
  w_file := File;
  ra_read := disk_read_at;
  env_open_sequential_file := disk_open_sequential;
  env_open_random_access_file := disk_open_random;
  env_open_writable_file := disk_open_writable;
  env_open_appendable_file := disk_open_appendable;
  env_exists := disk_exists;
  env_children := disk_children;
  env_size_of := disk_size_of;
  env_delete := disk_delete;
  env_mkdir := disk_mkdir;
  env_rmdir := disk_rmdir;
  env_rename := disk_rename;
  env_lock := disk_lock;
  env_unlock := disk_unlock;
  env_new_logger := disk_new_logger;
}.

End disk_env.

(** ** [src/env_common.rs] *)

(** The readings of the clock since the epoch, in seconds and microseconds; [None] when the clock
    is before it. *)
Fixpoint micros (readings : list (option (Z * Z))) : exec Z :=
  match readings with
  | [] => NoFuel
  | None :: readings => micros readings
  | Some (secs, subsec) :: _ => us ← umul 64 secs 1000000; uadd 64 us subsec
  end.

(** The nanoseconds that [sleep_for] asks for. *)
Definition sleep_for (micros : Z) : exec Z := umul 32 micros 1000.

(** ** What is on the disk *)

Definition disk_contents (d : Disk) (p : string) : option bytes := lookup_file d p ≫= λ i, d_inodes d !! i.

(** Names are of live inodes, each inode has one name, and no name is a directory too. *)
Record disk_inv (d : Disk) : Prop := {
  di_live p i : d_names d !! p = Some i → (i < length (d_inodes d))%nat;
  di_inj p q i : d_names d !! p = Some i → d_names d !! q = Some i → p = q;
  di_dirs p : is_Some (d_names d !! p) → p ∉ d_dirs d ∧ p ≠ EmptyString;
}.

(** A file can be at the path. *)
Definition usable (d : Disk) (p : string) : Prop := is_dir d p = false ∧ is_dir d (parent p) = true.

Lemma usable_name d p : usable d p → trim_path p ≠ EmptyString ∧ trim_path p ∉ d_dirs d.
Proof. intros [H _]. unfold is_dir in H. apply bool_decide_eq_false in H. tauto. Qed.

Lemma open_create_ok o p d : disk_inv d → usable d p → oo_create o = true → oo_truncate o = false →
  ∃ d' i, open_with o p d = (d', Ok (mkFd (Some i) 0 (oo_append o))) ∧ disk_inv d' ∧ lookup_file d' p = Some i ∧ d_dirs d' = d_dirs d
    ∧ disk_contents d' p = Some (default [] (disk_contents d p)) ∧ ∀ q, trim_path q ≠ trim_path p → disk_contents d' q = disk_contents d q.
Proof.
  intros [I1 I2 I3] Hu Hc Ht. pose proof (usable_name d p Hu) as [U1 U2]. destruct Hu as [H1 H2]. unfold open_with. rewrite H1, Hc, Ht, H2. unfold disk_contents, lookup_file.
  destruct (d_names d !! trim_path p) as [i|] eqn:Ei; cbn [andb].
  - exists d, i. split_and!; try done. cbn. destruct (d_inodes d !! i) as [b|] eqn:Eb; [by rewrite Ei; cbn; rewrite Eb|].
    apply lookup_ge_None in Eb. apply I1 in Ei. lia.
  - assert (∀ q i, d_names d !! q = Some i → i ≠ length (d_inodes d)) as Hne by (intros q i Hq; apply I1 in Hq; lia).
    eexists _, _. split_and!; [done| |cbn; by rewrite lookup_insert_eq|done|cbn; rewrite lookup_insert_eq; cbn; by rewrite lookup_app_r, Nat.sub_diag by lia|].
    + split; cbn [d_names d_inodes d_dirs].
      * intros q i. rewrite length_app. intros [[_ <-]|[_ Hq%I1]]%lookup_insert_Some; cbn; lia.
      * intros q q' i [[<- <-]|[Hq Hi]]%lookup_insert_Some [[<- ?]|[Hq' Hi']]%lookup_insert_Some; try done; [by apply Hne in Hi'|subst; by apply Hne in Hi|by eapply I2].
      * intros q. rewrite lookup_insert_is_Some. intros [<-|[_ Hq]]; [done|by apply I3].
    + intros q Hq. cbn. rewrite lookup_insert_ne by done. destruct (d_names d !! trim_path q) as [i|] eqn:Eq; [|done]. cbn. by rewrite lookup_app_l by (by eapply I1).
Qed.

Lemma overlay_end b bs : overlay b (length b) bs = b ++ bs.
Proof. unfold overlay. rewrite take_ge by done. rewrite Nat.sub_diag, drop_ge by lia. cbn. by rewrite app_nil_r. Qed.
Lemma overlay_start b bs : overlay b 0 bs = bs ++ drop (length bs) b.
Proof. done. Qed.

(** A write goes to the inode of the open file. *)
Lemma set_inode_ok d p i b b' : disk_inv d → lookup_file d p = Some i → disk_contents d p = Some b → disk_inv (set_inode i b' d)
  ∧ disk_contents (set_inode i b' d) p = Some b' ∧ lookup_file (set_inode i b' d) p = Some i ∧ ∀ q, trim_path q ≠ trim_path p → disk_contents (set_inode i b' d) q = disk_contents d q.
Proof.
  intros [I1 I2 I3] Hi Hb. pose proof Hi as Hl. apply I1 in Hl. unfold disk_contents, lookup_file in *. split_and!; cbn.
  - split; cbn; [intros q j Hq; rewrite length_insert; by eapply I1|done|done].
  - rewrite Hi. cbn. by rewrite list_lookup_insert_eq.
  - done.
  - intros q Hq. destruct (d_names d !! trim_path q) as [j|] eqn:Ej; [|done]. cbn. rewrite list_lookup_insert_ne; [done|]. intros <-. by destruct Hq; eapply I2.
Qed.

Section laws.
Context {L : Type} {FL : Fs2 L} (order : list string → list string) (dir_size : Z) (debug_file : File → string).
Implicit Types (e : PosixDiskEnv L).

Lemma disk_write_all_ok e p i b pos (append : bool) bs : disk_inv (pe_disk e) → lookup_file (pe_disk e) p = Some i → disk_contents (pe_disk e) p = Some b → 0 ≤ pos →
  let at_ := if append then zlen b else pos in
  ∃ e', w_write_all bs (e, mkFd (Some i) pos append) = Ret ((e', mkFd (Some i) (if decide (bs = []) then pos else at_ + zlen bs) append), Ok ()) ∧ disk_inv (pe_disk e')
    ∧ disk_contents (pe_disk e') p = Some (if decide (bs = []) then b else overlay b (Z.to_nat at_) bs) ∧ lookup_file (pe_disk e') p = Some i
    ∧ pe_locks e' = pe_locks e ∧ pe_flocks e' = pe_flocks e ∧ d_dirs (pe_disk e') = d_dirs (pe_disk e)
    ∧ ∀ q, trim_path q ≠ trim_path p → disk_contents (pe_disk e') q = disk_contents (pe_disk e) q.
Proof.
  intros I Hi Hb Hp at_. destruct bs as [|x bs]; [exists e; by split_and!|]. cbn [w_write_all disk_file_write length default_write_all].
  assert (d_inodes (pe_disk e) !! i = Some b) as Hib by (unfold disk_contents in Hb; rewrite Hi in Hb; exact Hb).
  assert (disk_write (x :: bs) (e, mkFd (Some i) pos append)
    = Ret ((set_disk (set_inode i (overlay b (Z.to_nat at_) (x :: bs)) (pe_disk e)) e, mkFd (Some i) (at_ + zlen (x :: bs)) append), Ok (zlen (x :: bs)))) as ->.
  { unfold disk_write, file_write, file_data. cbn [fst snd f_inode mbind option_bind]. by rewrite Hib. }
  rewrite bind_Ret.
  rewrite (proj2 (Z.eqb_neq (zlen (x :: bs)) 0)) by (cbn; lia). pose proof (slice_from_app (x :: bs) [] (zlen (x :: bs)) eq_refl) as Hs. rewrite app_nil_r in Hs. rewrite Hs, bind_Ret.
  destruct (set_inode_ok (pe_disk e) p i b (overlay b (Z.to_nat at_) (x :: bs)) I Hi Hb) as (I' & C' & L' & O').
  eexists. split_and!; [by destruct bs|done..].
Qed.

Lemma on_disk_ok {A} method p (op : Disk → Disk * io_result A) e d a : op (pe_disk e) = (d, Ok a) → on_disk method p op e = Ret (set_disk d e, Ok a).
Proof. intros H. unfold on_disk. by rewrite H. Qed.

(** Reading from the start. *)
Lemma disk_read_back e p b n : usable (pe_disk e) p → disk_contents (pe_disk e) p = Some b → 0 ≤ n →
  ∃ f f', disk_open_sequential p e = Ret (e, Ok f) ∧ r_read n (e, f) = Ret ((e, f'), Ok (take (Z.to_nat n) b)) ∧ disk_size_of dir_size p e = Ret (Ok (zlen b))
    ∧ file_holds (H := disk_read_at e) f b.
Proof.
  intros [H1 _] Hb Hn. unfold disk_contents in Hb. destruct (lookup_file (pe_disk e) p) as [i|] eqn:Ei; [|done]. cbn in Hb.
  exists (mkFd (Some i) 0 false). eexists. split_and!.
  - unfold disk_open_sequential, on_disk, open_with. rewrite H1, Ei. cbn. by destruct e.
  - cbn. unfold disk_read, file_read, file_data. cbn. by rewrite Hb.
  - unfold disk_size_of, metadata_len. by rewrite H1, Ei, Hb.
  - intros off m [Ho _] Hm. unfold read_at, disk_read_at, file_read_at, file_data. cbn. by rewrite Hb.
Qed.

(** C13: What is written to a file on disk is read back: after [open_appendable_file] the bytes
    go behind what the file had; after [open_writable_file] they go over it from the start,
    because the file is not truncated, so that a new or empty file has exactly these bytes and
    a longer one keeps its end.  Sequential reads, reads at an offset and the size agree with
    it, and no file with another path, as text, changes. *)
Theorem disk_write_read e p (append : bool) bs old n : disk_inv (pe_disk e) → usable (pe_disk e) p → 0 ≤ n → default [] (disk_contents (pe_disk e) p) = old →
  let b := if append then old ++ bs else bs ++ drop (length bs) old in
  ∃ e1 f e2 f2 r r2, (if append then disk_open_appendable p e else disk_open_writable p e) = Ret (e1, Ok f) ∧ w_write_all bs (e1, f) = Ret ((e2, f2), Ok ())
    ∧ disk_inv (pe_disk e2) ∧ disk_contents (pe_disk e2) p = Some b ∧ (∀ q, trim_path q ≠ trim_path p → disk_contents (pe_disk e2) q = disk_contents (pe_disk e) q)
    ∧ disk_open_sequential p e2 = Ret (e2, Ok r) ∧ r_read n (e2, r) = Ret ((e2, r2), Ok (take (Z.to_nat n) b)) ∧ disk_size_of dir_size p e2 = Ret (Ok (zlen b))
    ∧ file_holds (H := disk_read_at e2) r b.
Proof.
  intros I Hu Hn Hold b. set (o := set_append append (set_write true (set_create true OpenOptions_new))).
  destruct (open_create_ok o p (pe_disk e) I Hu eq_refl eq_refl) as (d1 & i & Eo & I1 & L1 & D1 & C1 & O1). rewrite Hold in C1. change (oo_append o) with append in Eo.
  destruct (disk_write_all_ok (set_disk d1 e) p i old 0 append bs I1 L1 C1 ltac:(lia)) as (e2 & E2 & I2 & C2 & L2 & _ & _ & D2 & O2). cbn in D2.
  assert (disk_contents (pe_disk e2) p = Some b) as Cb.
  { rewrite C2. unfold b. destruct (decide (bs = [])) as [->|]; [destruct append; by rewrite ?app_nil_r|]. destruct append; [by rewrite Nat2Z.id, overlay_end|done]. }
  assert (usable (pe_disk e2) p) as Hu2 by (destruct Hu as [U1 U2]; split; unfold is_dir in *; by rewrite D2, D1).
  destruct (disk_read_back e2 p b n Hu2 Cb Hn) as (r & r2 & R1 & R2 & R3 & R4).
  eexists (set_disk d1 e), _, e2, _, r, r2. split_and!; [|exact E2|done|done|intros q Hq; by rewrite O2, O1|done..].
  destruct append; [unfold disk_open_appendable|unfold disk_open_writable]; unfold on_disk; fold o; by rewrite Eo.
Qed.

(** ** Locks *)

(** The documented behaviour of [fs2]: an open file locks its inode. *)
Class Fs2Laws := {
  flocked : L → nat → Prop;
  try_free f i l : f_inode f = Some i → ¬ flocked l i → ∃ l', try_lock_exclusive f l = (l', Ok ()) ∧ ∀ j, flocked l' j ↔ j = i ∨ flocked l j;
  try_held f i l : f_inode f = Some i → flocked l i → ∃ l' x, try_lock_exclusive f l = (l', Err x) ∧ kind x = KWouldBlock ∧ ∀ j, flocked l' j ↔ flocked l j;
  unlock_held f i l : f_inode f = Some i → flocked l i → ∃ l', fs2_unlock f l = (l', Ok ()) ∧ ∀ j, flocked l' j ↔ j ≠ i ∧ flocked l j;
}.

(** Another process has locked the file at the path. *)
Definition locked_elsewhere `{Fs2Laws} e (p : string) : Prop := ∃ i, lookup_file (pe_disk e) p = Some i ∧ flocked (pe_flocks e) i.

(** A file is locked by one at a time: [lock] on a path that is free succeeds; then [lock]
    fails in this process, with the code [AlreadyExists], and in another process, with
    [LockError]; after [unlock] the path can be locked again. *)
Theorem disk_lock_excludes `{F2 : !Fs2Laws} e p : disk_inv (pe_disk e) → usable (pe_disk e) p → pe_locks e !! p = None → ¬ locked_elsewhere e p →
  (∀ i, flocked (pe_flocks e) i → (i < length (d_inodes (pe_disk e)))%nat) →
  ∃ e1 e2 e3 lk, disk_lock debug_file p e = Ret (e1, Ok lk)
    ∧ disk_lock debug_file p e1 = Ret (e1, err AlreadyExists "Lock is held")
    ∧ (∀ l', let other := mkPosix (pe_disk e1) (pe_flocks e1) l' in l' !! p = None →
        ∃ e', disk_lock debug_file p other = Ret (e', err LockError "lock on database is already held by different process"))
    ∧ disk_unlock lk e1 = Ret (e2, Ok ()) ∧ disk_lock debug_file p e2 = Ret (e3, Ok lk).
Proof.
  intros I Hu Hl Hf Hlive. set (o := set_create true (set_write true OpenOptions_new)).
  destruct (open_create_ok o p (pe_disk e) I Hu eq_refl eq_refl) as (d1 & i & Eo & I1 & L1 & D1 & C1 & _). set (f := mkFd (Some i) 0 false). change (oo_append o) with false in Eo. fold f in Eo.
  assert (¬ flocked (pe_flocks e) i) as Hfi.
  { intros H. apply Hf. exists i. split; [|done]. unfold open_with in Eo. destruct Hu as [U1 U2]. rewrite U1, U2 in Eo. destruct (lookup_file (pe_disk e) p) as [j|]; cbn in Eo; [by injection Eo as _ <-|].
    injection Eo as _ Ei. apply Hlive in H. lia. }
  destruct (try_free f i (pe_flocks e) eq_refl Hfi) as (l1 & T1 & F1). destruct (try_held f i l1 eq_refl) as (l1' & x & T1' & Hx & _); [apply F1; by left|].
  destruct (unlock_held f i l1 eq_refl) as (l2 & T2 & F2'); [apply F1; by left|]. destruct (try_free f i l2 eq_refl) as (l3 & T3 & _); [rewrite F2'; tauto|].
  assert (usable d1 p) as [U1 U2] by (destruct Hu; unfold usable, is_dir in *; by rewrite D1).
  assert (open_with o p d1 = (d1, Ok f)) as Eo1 by (unfold open_with; by rewrite U1, L1).
  exists (mkPosix d1 l1 (<[p := f]> (pe_locks e))), (mkPosix d1 l2 (pe_locks e)), (mkPosix d1 l3 (<[p := f]> (pe_locks e))), {| lock_id := p |}. split_and!.
  - unfold disk_lock. rewrite Hl. fold o. rewrite (on_disk_ok _ _ _ _ _ _ Eo), sbind_Ok. cbn [pe_flocks set_disk]. by rewrite T1.
  - unfold disk_lock. cbn [pe_locks]. by rewrite lookup_insert_eq.
  - intros l' other Hl'. eexists. unfold disk_lock, other. cbn [pe_locks]. rewrite Hl'. fold o. rewrite (on_disk_ok _ _ _ (mkPosix d1 l1 l') _ _ Eo1), sbind_Ok. cbn [pe_flocks set_disk]. rewrite T1'. by rewrite decide_True.
  - unfold disk_unlock. cbn [pe_locks lock_id pe_flocks]. rewrite lookup_insert_eq, T2. cbn. by rewrite delete_insert_id.
  - unfold disk_lock. cbn [pe_locks]. rewrite Hl. fold o. rewrite (on_disk_ok _ _ _ (mkPosix d1 l2 (pe_locks e)) _ _ Eo1), sbind_Ok. cbn [pe_flocks set_disk]. by rewrite T3.
Qed.

End laws.

(** ** Witnesses *)

Module TestDisk.
(** Locks on inodes. *)
#[export] Instance fs2 : Fs2 (gset nat) := {
  try_lock_exclusive f l :=
    match f_inode f with
    | Some i => if decide (i ∈ l) then (l, Err (io_err KWouldBlock "Resource temporarily unavailable (os error 11)")) else ({[i]} ∪ l, Ok ())
    | None => (l, Err is_a_directory)
    end;
  fs2_unlock f l := match f_inode f with Some i => (l ∖ {[i]}, Ok ()) | None => (l, Err is_a_directory) end;
  errno_text _ := EmptyString;
}.
#[export] Program Instance fs2_laws : Fs2Laws := {| flocked l i := i ∈ l |}.
Next Obligation. intros f i l Hf Hi. cbn. rewrite Hf, decide_False by done. eexists. split; [done|]. set_solver. Qed.
Next Obligation. intros f i l Hf Hi. cbn. rewrite Hf, decide_True by done. by eexists _, _. Qed.
Next Obligation. intros f i l Hf Hi. cbn. rewrite Hf. eexists. split; [done|]. set_solver. Qed.

(** A directory with one file. *)
Definition env : PosixDiskEnv (gset nat) := mkPosix (mkDisk [[7; 8; 9]] {[ "db/f" := 0%nat ]} {[ "db" ]}) ∅ ∅.

Lemma env_ok : disk_inv (pe_disk env).
Proof.
  split; cbn; intros p; [intros i (<- & <-)%lookup_singleton_Some; cbn; lia|by intros q i (<- & <-)%lookup_singleton_Some (<- & _)%lookup_singleton_Some|].
  intros [i (<- & _)%lookup_singleton_Some]. split; [|done]. by intros ?%elem_of_singleton.
Qed.
End TestDisk.

(** The product is of 32 bits. *)
Example sleep_for_panics : sleep_for 4294967 = Ret 4294967000 ∧ sleep_for 4294968 = Panic.
Proof. by split. Qed.

Section witnesses.
Import TestDisk.

Lemma disk_write_read_witness :
  ∃ e1 f e2 f2, disk_open_appendable "db/f" env = Ret (e1, Ok f) ∧ w_write_all [1; 2] (e1, f) = Ret ((e2, f2), Ok ()) ∧ disk_contents (pe_disk e2) "db/f" = Some [7; 8; 9; 1; 2].
Proof.
  destruct (disk_write_read 0 env "db/f" true [1; 2] [7; 8; 9] 10) as (e1 & f & e2 & f2 & r & r2 & H1 & H2 & _ & H3 & _).
  - exact env_ok.
  - split; vm_compute; reflexivity.
  - lia.
  - vm_compute. reflexivity.
  - exists e1, f, e2, f2. split_and!; [exact H1|exact H2|exact H3].
Defined.

Lemma disk_lock_excludes_witness : ∃ e1 lk, disk_lock (λ _, EmptyString) "db/f" env = Ret (e1, Ok lk) ∧ disk_lock (λ _, EmptyString) "db/f" e1 = Ret (e1, err AlreadyExists "Lock is held").
Proof.
  destruct (disk_lock_excludes (λ _, EmptyString) env "db/f") as (e1 & e2 & e3 & lk & H1 & H2 & _).
  - exact env_ok.
  - split; vm_compute; reflexivity.
  - reflexivity.
  - intros (i & _ & Hi). cbn in Hi. set_solver.
  - intros i Hi. cbn in Hi. set_solver.
  - exists e1, lk. split; [exact H1|exact H2].
Defined.

(** [open_writable_file] on disk leaves the end of a longer file in place. *)
Example disk_writable_keeps_tail :
  ∃ e1 f e2 f2, disk_open_writable "db/f" env = Ret (e1, Ok f) ∧ w_write_all [1; 2] (e1, f) = Ret ((e2, f2), Ok ()) ∧ disk_contents (pe_disk e2) "db/f" = Some [1; 2; 9].
Proof. do 4 eexists. split_and!; [reflexivity|reflexivity|vm_compute; reflexivity]. Qed.

End witnesses.
