(* ===== verification/Log.v ===== *)
(** * Log: [src/log.rs]

    The record log: [LogWriter] splits records into fragments that never cross a block
    boundary, [LogReader] reassembles them and checks their checksums.  The digest that both
    structures keep is scratch space (it is reset before every use) and is not part of the
    state. *)

From S2P Require Import Prelude Encoding Error Io.

Definition BLOCK_SIZE : Z := 32 * 1024.
Definition HEADER_SIZE : Z := 4 + 2 + 1.

Inductive RecordType := Full | First | Middle | Last.
Definition rt_u8 (t : RecordType) : Z :=
  match t with Full => 1 | First => 2 | Middle => 3 | Last => 4 end.

Definition MASK_DELTA : Z := 0xa282ead8.
Definition mask_crc (c : Z) : Z :=
  wrap 32 (Z.lor (Z.shiftr c 15) (wrap 32 (Z.shiftl c 17)) + MASK_DELTA).
Definition unmask_crc (mc : Z) : Z :=
  let rot := wrap 32 (mc - MASK_DELTA) in
  Z.lor (Z.shiftr rot 17) (wrap 32 (Z.shiftl rot 15)).

Record LogWriter (W : Type) := mkLogWriter {
  lw_dst : W;
  current_block_offset : Z;
  block_size : Z;
}.
Arguments mkLogWriter {W}.
Arguments lw_dst {W}.
Arguments current_block_offset {W}.
Arguments block_size {W}.

Record LogReader (R : Type) := mkLogReader {
  lr_src : R;
  blk_off : Z;
  blocksize : Z;
  head_scratch : bytes;
  checksums : bool;
}.
Arguments mkLogReader {R}.
Arguments lr_src {R}.
Arguments blk_off {R}.
Arguments blocksize {R}.
Arguments head_scratch {R}.
Arguments checksums {R}.

Section writer.
Context {IE : IntegerEncoding} {CR : Crc32} `{WW : Write W}.

Definition LogWriter_new (writer : W) : LogWriter W :=
  {| lw_dst := writer; current_block_offset := 0; block_size := BLOCK_SIZE |}.

Definition LogWriter_new_with_off (writer : W) (off : Z) : LogWriter W :=
  {| lw_dst := writer; current_block_offset := off mod BLOCK_SIZE; block_size := BLOCK_SIZE |}.

Definition set_dst (lw : LogWriter W) (d : W) : LogWriter W :=
  {| lw_dst := d; current_block_offset := current_block_offset lw; block_size := block_size lw |}.
Definition set_offset (lw : LogWriter W) (o : Z) : LogWriter W :=
  {| lw_dst := lw_dst lw; current_block_offset := o; block_size := block_size lw |}.

(** The four writes of [emit_record]; an error keeps what was written before it. *)
Fixpoint write_parts (parts : list bytes) (s : Z) (d : W) : exec (W * Result Z) :=
  match parts with
  | [] => Ret (d, Ok s)
  | p :: parts =>
      '(d, r) ← w_write p d;
      match r with
      | Ok n => write_parts parts (s + n) d
      | Err e => Ret (d, Err (Status_from_io e))
      end
  end.

Definition emit_record (t : RecordType) (data : bytes) (len : Z) (lw : LogWriter W)
  : exec (LogWriter W * Result Z) :=
  _ ← massert (len <? 256 * 256);
  frag ← slice data 0 len;
  let chksum := mask_crc (crc32 ([rt_u8 t] ++ frag)) in
  '(d, r) ← write_parts [encode_fixed 4 chksum; encode_fixed 2 (wrap 16 len); [rt_u8 t]; frag] 0
              (lw_dst lw);
  let lw := set_dst lw d in
  match r with
  | Ok s => Ret (set_offset lw (current_block_offset lw + s), Ok s)
  | Err e => Ret (lw, Err e)
  end.

(** The [while] loop of [add_record]; [result] starts as [Ok(0)]. *)
Fixpoint add_record_loop (fuel : nat) (lw : LogWriter W) (record : bytes) (first_frag : bool)
    (result : Result Z) : exec (LogWriter W * Result Z) :=
  match fuel with
  | O => NoFuel
  | S fuel =>
      if is_ok result && negb (bool_decide (record = [])) then
        _ ← massert (HEADER_SIZE <? block_size lw);
        space_left ← usub (block_size lw) (current_block_offset lw);
        '(lw, pad) ←
          (if space_left <? HEADER_SIZE then
             z ← slice [0; 0; 0; 0; 0; 0] 0 space_left;
             '(d, r) ← w_write_all z (lw_dst lw);
             match r with
             | Ok _ => Ret (set_offset (set_dst lw d) 0, None)
             | Err e => Ret (set_dst lw d, Some e)
             end
           else Ret (lw, None));
        match pad with
        | Some e => Ret (lw, Err (Status_from_io e))
        | None =>
            room ← usub (block_size lw) (current_block_offset lw);
            avail_for_data ← usub room HEADER_SIZE;
            let data_frag_len := if zlen record <? avail_for_data then zlen record else avail_for_data in
            let recordtype :=
              if first_frag && (data_frag_len =? zlen record) then Full
              else if first_frag then First
              else if data_frag_len =? zlen record then Last
              else Middle in
            '(lw, result) ← emit_record recordtype record data_frag_len lw;
            record ← slice_from record data_frag_len;
            add_record_loop fuel lw record false result
        end
      else Ret (lw, result)
  end.

(** Every iteration consumes a byte of the record, except that one which fills a block with
    a header alone is followed by one at the start of a block. *)
Definition add_record (r : bytes) (lw : LogWriter W) : exec (LogWriter W * Result Z) :=
  add_record_loop (2 * length r + 2) lw r true (Ok 0).

Definition log_flush (lw : LogWriter W) : exec (LogWriter W * Result unit) :=
  '(d, r) ← w_flush (lw_dst lw);
  Ret (set_dst lw d, match r with Ok _ => Ok () | Err e => Err (Status_from_io e) end).

End writer.

Section reader.
Context {IE : IntegerEncoding} {CR : Crc32} `{RR : Read R}.

Definition LogReader_new (src : R) (chksum : bool) : LogReader R :=
  {| lr_src := src; blk_off := 0; blocksize := BLOCK_SIZE; checksums := chksum;
     head_scratch := replicate 7 0 |}.

Definition check_integrity (typ : Z) (data : bytes) (expected : Z) : bool :=
  unmask_crc expected =? crc32 ([typ] ++ data).

Definition set_src (lr : LogReader R) (s : R) : LogReader R :=
  {| lr_src := s; blk_off := blk_off lr; blocksize := blocksize lr;
     head_scratch := head_scratch lr; checksums := checksums lr |}.
Definition set_blk_off (lr : LogReader R) (o : Z) : LogReader R :=
  {| lr_src := lr_src lr; blk_off := o; blocksize := blocksize lr;
     head_scratch := head_scratch lr; checksums := checksums lr |}.
(** A read into the front of [head_scratch] leaves its other bytes as they were. *)
Definition set_scratch (lr : LogReader R) (bs : bytes) : LogReader R :=
  {| lr_src := lr_src lr; blk_off := blk_off lr; blocksize := blocksize lr;
     head_scratch := bs ++ drop (length bs) (head_scratch lr); checksums := checksums lr |}.

(** The [loop] of [LogReader::read]: the reader, the destination vector and the result. *)
Fixpoint read_loop (fuel : nat) (lr : LogReader R) (dst : bytes) (dst_offset : Z)
  : exec (LogReader R * bytes * Result Z) :=
  match fuel with
  | O => NoFuel
  | S fuel =>
      room ← usub (blocksize lr) (blk_off lr);
      '(lr, skip) ←
        (if room <? HEADER_SIZE then
           '(s, r) ← r_read_exact room (lr_src lr);
           match r with
           | Ok bs => Ret (set_blk_off (set_scratch (set_src lr s) bs) 0, None)
           | Err e => Ret (set_src lr s, Some e)
           end
         else Ret (lr, None));
      match skip with
      | Some e => Ret (lr, dst, Err (Status_from_io e))
      | None =>
          '(s, r) ← r_read 7 (lr_src lr);
          let lr := set_src lr s in
          match r with
          | Err e => Ret (lr, dst, Err (Status_from_io e))
          | Ok hd =>
              if zlen hd =? 0 then Ret (lr, dst, Ok 0)
              else
                let lr := set_blk_off (set_scratch lr hd) (blk_off lr + zlen hd) in
                c ← slice (head_scratch lr) 0 4;
                l ← slice (head_scratch lr) 4 6;
                typ ← index (head_scratch lr) 6;
                let checksum := decode_fixed c in
                let length := decode_fixed l in
                let dst := vec_resize (dst_offset + length) 0 dst in
                '(s, r) ← r_read length (lr_src lr);
                let lr := set_src lr s in
                match r with
                | Err e => Ret (lr, dst, Err (Status_from_io e))
                | Ok data =>
                    dst ← splice dst dst_offset data;
                    let lr := set_blk_off lr (blk_off lr + zlen data) in
                    if checksums lr && negb (check_integrity typ data checksum) then
                      Ret (lr, dst, err Corruption "Invalid Checksum")
                    else
                      let dst_offset := dst_offset + length in
                      if (typ =? rt_u8 Full) || (typ =? rt_u8 Last) then Ret (lr, dst, Ok dst_offset)
                      else read_loop fuel lr dst dst_offset
                end
          end
      end
  end.

Definition log_read (fuel : nat) (lr : LogReader R) : exec (LogReader R * bytes * Result Z) :=
  read_loop fuel lr [] 0.

End reader.

(** ** Sequences of records

    Adding records one after the other, and the loop
    [while let Ok(len) = reader.read(&mut buf) { if len == 0 { break; } .. }] with which
    [VersionSet::recover] and [DB::recover_log_file] read a log. *)

Section sequences.
Context {IE : IntegerEncoding} {CR : Crc32}.

Fixpoint add_records `{Write W} (rs : list bytes) (lw : LogWriter W)
  : exec (LogWriter W * Result unit) :=
  match rs with
  | [] => Ret (lw, Ok ())
  | r :: rs =>
      '(lw, res) ← add_record r lw;
      match res with Ok _ => add_records rs lw | Err e => Ret (lw, Err e) end
  end.

Fixpoint read_records `{Read R} (n fuel : nat) (lr : LogReader R) : exec (list bytes) :=
  match n with
  | O => NoFuel
  | S n =>
      '(lr, buf, res) ← log_read fuel lr;
      match res with
      | Ok len => if len =? 0 then Ret [] else rs ← read_records n fuel lr; Ret (buf :: rs)
      | Err _ => Ret []
      end
  end.

End sequences.

(** ** Masked checksums *)

Lemma rotate_mul c : is_u 32 c →
  Z.lor (Z.shiftr c 15) (wrap 32 (Z.shiftl c 17)) = c mod 2 ^ 15 * 2 ^ 17 + c / 2 ^ 15.
Proof.
  intros Hc. unfold is_u, wrap in *. rewrite Z.shiftr_div_pow2, Z.shiftl_mul_pow2 by lia.
  pose proof (Z.div_mod c (2 ^ 15) ltac:(lia)). pose proof (Z.mod_pos_bound c (2 ^ 15) ltac:(lia)).
  replace (c * 2 ^ 17) with (c mod 2 ^ 15 * 2 ^ 17 + c / 2 ^ 15 * 2 ^ 32) by lia.
  rewrite Z.mod_add, Z.mod_small, Z.lor_comm by lia.
  apply lor_shift_add; [lia|]. split; [apply Z.div_pos; lia|]. apply Z.div_lt_upper_bound; lia.
Qed.

Lemma unrotate_mul r : is_u 32 r →
  Z.lor (Z.shiftr r 17) (wrap 32 (Z.shiftl r 15)) = r mod 2 ^ 17 * 2 ^ 15 + r / 2 ^ 17.
Proof.
  intros Hc. unfold is_u, wrap in *. rewrite Z.shiftr_div_pow2, Z.shiftl_mul_pow2 by lia.
  pose proof (Z.div_mod r (2 ^ 17) ltac:(lia)). pose proof (Z.mod_pos_bound r (2 ^ 17) ltac:(lia)).
  replace (r * 2 ^ 15) with (r mod 2 ^ 17 * 2 ^ 15 + r / 2 ^ 17 * 2 ^ 32) by lia.
  rewrite Z.mod_add, Z.mod_small, Z.lor_comm by lia.
  apply lor_shift_add; [lia|]. split; [apply Z.div_pos; lia|]. apply Z.div_lt_upper_bound; lia.
Qed.

Lemma unmask_mask c : is_u 32 c → unmask_crc (mask_crc c) = c.
Proof.
  intros Hc. unfold unmask_crc, mask_crc. rewrite rotate_mul by done.
  pose proof (Z.div_mod c (2 ^ 15) ltac:(lia)). pose proof (Z.mod_pos_bound c (2 ^ 15) ltac:(lia)).
  assert (0 ≤ c / 2 ^ 15 < 2 ^ 17) by (unfold is_u in Hc; split;
    [apply Z.div_pos; lia|apply Z.div_lt_upper_bound; lia]).
  set (r := c mod 2 ^ 15 * 2 ^ 17 + c / 2 ^ 15).
  assert (is_u 32 r) as Hr by (unfold is_u, r; lia).
  replace (wrap 32 (wrap 32 (r + MASK_DELTA) - MASK_DELTA)) with r.
  2:{ unfold wrap. rewrite Zminus_mod_idemp_l, Z.add_simpl_r, Z.mod_small; done. }
  rewrite unrotate_mul by done. unfold r.
  rewrite (Z.add_comm (_ * 2 ^ 17)), Z.mod_add, Z.div_add by lia.
  rewrite (Z.mod_small (c / 2 ^ 15) (2 ^ 17)), (Z.div_small (c / 2 ^ 15) (2 ^ 17)) by lia. lia.
Qed.

Lemma mask_crc_u32 c : is_u 32 (mask_crc c).
Proof. apply Z.mod_pos_bound. lia. Qed.

(** ** Fragments *)

Section fragments.
Context `{IEL : IntegerEncodingLaws} `{CRL : Crc32Laws}.

(** The bytes of one fragment. *)
Definition frag_bytes (t : RecordType) (f : bytes) : bytes :=
  encode_fixed 4 (mask_crc (crc32 (rt_u8 t :: f))) ++ encode_fixed 2 (zlen f) ++ [rt_u8 t] ++ f.

Definition frag_header (t : RecordType) (f : bytes) : bytes :=
  encode_fixed 4 (mask_crc (crc32 (rt_u8 t :: f))) ++ encode_fixed 2 (zlen f) ++ [rt_u8 t].

Lemma frag_bytes_header t f : frag_bytes t f = frag_header t f ++ f.
Proof. unfold frag_bytes, frag_header. by rewrite <- !app_assoc. Qed.

Lemma length_frag_header t f : length (frag_header t f) = 7%nat.
Proof. unfold frag_header. rewrite !length_app, !length_encode_fixed_nat by lia. done. Qed.

Lemma header_parts c n ty :
  let h := encode_fixed 4 c ++ encode_fixed 2 n ++ [ty] in
  slice h 0 4 = Ret (encode_fixed 4 c) ∧ slice h 4 6 = Ret (encode_fixed 2 n) ∧ index h 6 = Ret ty.
Proof.
  intros h. unfold h. pose proof (length_encode_fixed_nat 4 c ltac:(lia)).
  pose proof (length_encode_fixed_nat 2 n ltac:(lia)). split_and!.
  - apply slice_to_app. lia.
  - apply slice_app; lia.
  - rewrite app_assoc. apply index_app. rewrite length_app. lia.
Qed.

Definition ends (t : RecordType) : bool := match t with Full | Last => true | _ => false end.

Lemma ends_u8 t : (rt_u8 t =? rt_u8 Full) || (rt_u8 t =? rt_u8 Last) = ends t.
Proof. by destruct t. Qed.

(** What is written before a fragment when [room] bytes of the block are left. *)
Definition padding (room : Z) : bytes :=
  if room <? HEADER_SIZE then replicate (Z.to_nat room) 0 else [].

(** ** What a log looks like

    [enc_record bs off r b off']: from offset [off] of a block of [bs] bytes on, [b] is the
    record [r] in fragments, and it ends at offset [off'] of a block. *)

(** Where the fragment after offset [off] starts. *)
Definition frag_start (bs off : Z) : Z := if bs - off <? HEADER_SIZE then 0 else off.

Inductive enc_record (bs : Z) : Z → bytes → bytes → Z → Prop :=
  | enc_last off r t :
      ends t = true → frag_start bs off + HEADER_SIZE + zlen r ≤ bs →
      enc_record bs off r (padding (bs - off) ++ frag_bytes t r) (frag_start bs off + HEADER_SIZE + zlen r)
  | enc_more off r1 r2 t b off' :
      ends t = false → frag_start bs off + HEADER_SIZE + zlen r1 = bs →
      enc_record bs bs r2 b off' →
      enc_record bs off (r1 ++ r2) (padding (bs - off) ++ frag_bytes t r1 ++ b) off'.

Inductive enc_records (bs : Z) : Z → list bytes → bytes → Z → Prop :=
  | enc_nil off : enc_records bs off [] [] off
  | enc_cons off r b off1 rs bb off' :
      r ≠ [] → enc_record bs off r b off1 → enc_records bs off1 rs bb off' → enc_records bs off (r :: rs) (b ++ bb) off'.

(** [b] is a log with the records [rs]. *)
Definition is_log (b : bytes) (rs : list bytes) : Prop := ∃ off, enc_records BLOCK_SIZE 0 rs b off.

Definition size_ok (bs : Z) : Prop := HEADER_SIZE < bs ≤ 65542.

Lemma frag_start_range bs off : size_ok bs → 0 ≤ off ≤ bs → 0 ≤ frag_start bs off ≤ bs - HEADER_SIZE.
Proof. unfold size_ok, frag_start. change HEADER_SIZE with 7. intros. destruct (Z.ltb_spec (bs - off) 7); lia. Qed.

Lemma length_padding bs off : 0 ≤ off ≤ bs → ∃ q, off + zlen (padding (bs - off)) = frag_start bs off + q * bs.
Proof.
  intros. unfold padding, frag_start. change HEADER_SIZE with 7. destruct (Z.ltb_spec (bs - off) 7).
  - exists 1. rewrite length_replicate. lia.
  - exists 0. simpl. lia.
Qed.

Lemma length_frag t f : zlen (frag_bytes t f) = HEADER_SIZE + zlen f.
Proof. rewrite frag_bytes_header, length_app, length_frag_header. change HEADER_SIZE with 7. lia. Qed.

(** A record starts after a full block as at the start of a block. *)
Lemma enc_record_start bs off1 off2 r b off' :
  padding (bs - off1) = padding (bs - off2) → frag_start bs off1 = frag_start bs off2 →
  enc_record bs off1 r b off' → enc_record bs off2 r b off'.
Proof.
  intros Hp Hf. destruct 1 as [off r t Ht Hr|off r1 r2 t b off' Ht Hr Hb]; rewrite Hp.
  - rewrite Hf in Hr |- *. by constructor.
  - rewrite Hf in Hr. by constructor.
Qed.

Lemma enc_block_end bs r b off' : size_ok bs → enc_record bs bs r b off' ↔ enc_record bs 0 r b off'.
Proof.
  intros Hs. assert (padding (bs - bs) = padding (bs - 0) ∧ frag_start bs bs = frag_start bs 0) as [Hp Hf].
  { unfold padding, frag_start, size_ok in *. change HEADER_SIZE with 7 in *. rewrite Z.sub_diag, Z.sub_0_r. rewrite (proj2 (Z.ltb_ge bs 7)) by lia. done. }
  split; by apply enc_record_start.
Qed.

(** The offset that the encoding ends at is the position in the block. *)
Lemma enc_record_offset bs off r b off' : size_ok bs → enc_record bs off r b off' → 0 ≤ off ≤ bs →
  0 ≤ off' ≤ bs ∧ ∃ q, off + zlen b = off' + q * bs.
Proof.
  intros Hs. induction 1 as [off r t Ht Hr|off r1 r2 t b off' Ht Hr Hb IH]; intros Ho;
    destruct (length_padding bs off Ho) as [q Hq]; pose proof (frag_start_range bs off Hs Ho); change HEADER_SIZE with 7 in *.
  - split; [lia|]. exists q. rewrite length_app, Nat2Z.inj_add, length_frag. change HEADER_SIZE with 7. lia.
  - unfold size_ok in Hs. change HEADER_SIZE with 7 in *. destruct IH as (IH1 & q' & IH2); [lia|]. split; [done|].
    exists (q + q'). rewrite !length_app, !Nat2Z.inj_add, length_frag. change HEADER_SIZE with 7. lia.
Qed.

Lemma enc_records_offset bs off rs b off' : size_ok bs → enc_records bs off rs b off' → 0 ≤ off ≤ bs →
  0 ≤ off' ≤ bs ∧ ∃ q, off + zlen b = off' + q * bs.
Proof.
  intros Hs. induction 1 as [off|off r b off1 rs bb off' _ Hr Hb IH]; intros Ho; [split; [done|exists 0; simpl; lia]|].
  destruct (enc_record_offset _ _ _ _ _ Hs Hr Ho) as (Ho1 & q & Hq). destruct (IH Ho1) as (Ho2 & q' & Hq').
  split; [done|]. exists (q + q'). rewrite length_app. lia.
Qed.

Lemma enc_records_app bs off rs b off1 rs' b' off' :
  enc_records bs off rs b off1 → enc_records bs off1 rs' b' off' → enc_records bs off (rs ++ rs') (b ++ b') off'.
Proof. induction 1; intros H'; [done|]. rewrite <- app_assoc. econstructor; eauto. Qed.

Lemma enc_records_block_end bs rs b off' : size_ok bs → rs ≠ [] →
  enc_records bs bs rs b off' ↔ enc_records bs 0 rs b off'.
Proof.
  intros Hs Hne. split; inversion 1; subst; try done; econstructor; [done| |done|done| |done]; by apply enc_block_end.
Qed.

(** ** Writing *)

Section writing.
Context `{RW : ReliableWrite W}.
Implicit Types lw : LogWriter W.

Lemma emit_record_ok t data len lw :
  0 ≤ len ≤ zlen data → len < 65536 → writable (lw_dst lw) →
  ∃ d, emit_record t data len lw =
         Ret (set_offset (set_dst lw d) (current_block_offset lw + (HEADER_SIZE + len)), Ok (HEADER_SIZE + len))
       ∧ written d = written (lw_dst lw) ++ frag_bytes t (take (Z.to_nat len) data) ∧ writable d.
Proof.
  intros Hlen H16 Hd. unfold emit_record. exec_run. rewrite slice_spec by lia.
  replace (Z.to_nat 0) with 0%nat by lia. rewrite drop_0, Z.sub_0_r. cbn [mbind exec_bind].
  set (f := take (Z.to_nat len) data).
  assert (zlen f = len) as Hf by (unfold f; rewrite length_take; lia).
  assert (wrap 16 len = zlen f) as -> by (unfold wrap; rewrite Z.mod_small; lia).
  cbn [write_parts].
  destruct (write_reliable (encode_fixed 4 (mask_crc (crc32 ([rt_u8 t] ++ f)))) (lw_dst lw) Hd) as (d1 & -> & W1 & Hd1).
  cbn [mbind exec_bind].
  destruct (write_reliable (encode_fixed 2 (zlen f)) d1 Hd1) as (d2 & -> & W2 & Hd2). cbn [mbind exec_bind].
  destruct (write_reliable [rt_u8 t] d2 Hd2) as (d3 & -> & W3 & Hd3). cbn [mbind exec_bind].
  destruct (write_reliable f d3 Hd3) as (d4 & -> & W4 & Hd4). cbn [mbind exec_bind].
  rewrite !length_encode_fixed, Hf by lia. exists d4. split_and!; [| |done].
  - unfold HEADER_SIZE. simpl length. do 3 f_equal; lia.
  - rewrite W4, W3, W2, W1. unfold frag_bytes. by rewrite <- !app_assoc.
Qed.

Definition at_offset lw (d : W) (o : Z) : LogWriter W := set_offset (set_dst lw d) o.

Definition log_inv lw : Prop :=
  size_ok (block_size lw) ∧ 0 ≤ current_block_offset lw ≤ block_size lw ∧ writable (lw_dst lw).

(** The padding that the loop writes. *)
Lemma pad_block_ok lw :
  log_inv lw →
  let room := block_size lw - current_block_offset lw in
  ∃ d, written d = written (lw_dst lw) ++ padding room ∧ writable d
    ∧ (if room <? HEADER_SIZE then
         z ← slice [0; 0; 0; 0; 0; 0] 0 room;
         '(d, r) ← w_write_all z (lw_dst lw);
         match r with
         | Ok _ => Ret (set_offset (set_dst lw d) 0, None)
         | Err e => Ret (set_dst lw d, Some e)
         end
       else Ret (lw, None)) = Ret (at_offset lw d (frag_start (block_size lw) (current_block_offset lw)), None).
Proof.
  intros (Hbs & Hoff & Hd) room. unfold padding, frag_start. fold room. change HEADER_SIZE with 7.
  destruct (Z.ltb_spec room 7).
  - assert (0 ≤ room) by (unfold room; lia). change [0; 0; 0; 0; 0; 0] with (replicate 6 0).
    rewrite slice_spec by (rewrite ?length_replicate; lia). cbn [mbind exec_bind].
    replace (Z.to_nat 0) with 0%nat by lia. rewrite drop_0, Z.sub_0_r, take_replicate.
    replace (Z.to_nat room `min` 6)%nat with (Z.to_nat room) by lia.
    destruct (write_all_reliable (replicate (Z.to_nat room) 0) (lw_dst lw) Hd) as (d0 & -> & Hw & Hd0).
    cbn [mbind exec_bind]. by exists d0.
  - exists (lw_dst lw). rewrite app_nil_r. split_and!; [done..|]. by destruct lw.
Qed.

(** One iteration of the writer's loop on a non-empty record. *)
Lemma add_record_loop_step fuel lw record first m :
  log_inv lw → record ≠ [] →
  let bs := block_size lw in let off := current_block_offset lw in
  let avail := bs - frag_start bs off - HEADER_SIZE in
  let k := if zlen record <? avail then zlen record else avail in
  ∃ d t, written d = written (lw_dst lw) ++ padding (bs - off) ++ frag_bytes t (take (Z.to_nat k) record)
    ∧ writable d ∧ ends t = (k =? zlen record)
    ∧ add_record_loop (S fuel) lw record first (Ok m) =
        add_record_loop fuel (at_offset lw d (frag_start bs off + HEADER_SIZE + k))
          (drop (Z.to_nat k) record) false (Ok (HEADER_SIZE + k)).
Proof.
  intros Hinv Hne bs off avail k. pose proof Hinv as (Hbs & Hoff & Hd). pose proof (frag_start_range _ _ Hbs Hoff) as Hst.
  fold bs off in Hst, Hoff. assert (0 ≤ k ≤ zlen record ∧ k < 65536) as [Hk Hk16].
  { unfold size_ok in Hbs. fold bs in Hbs. unfold k. change HEADER_SIZE with 7 in *.
    destruct (Z.ltb_spec (zlen record) avail); unfold avail in *; change HEADER_SIZE with 7 in *; lia. }
  cbn [add_record_loop is_ok]. rewrite bool_decide_false by done. cbn [negb andb].
  unfold size_ok in Hbs. rewrite (proj2 (Z.ltb_lt HEADER_SIZE (block_size lw))) by lia.
  cbn [massert]. rewrite bind_Ret, usub_Ret by (fold bs off; lia). fold bs off. rewrite bind_Ret.
  destruct (pad_block_ok lw Hinv) as (d0 & Hd0 & Hw0 & Hpad). fold bs off in Hpad, Hd0. rewrite Hpad, bind_Ret.
  cbn [at_offset set_offset set_dst block_size current_block_offset]. fold bs off.
  assert (HEADER_SIZE = 7) as HH by done. rewrite !usub_Ret by lia. rewrite !bind_Ret. rewrite !usub_Ret by lia. rewrite !bind_Ret.
  fold avail. fold k. set (t := if first && _ then _ else _).
  assert (ends t = (k =? zlen record)) as Ht by (unfold t; destruct first, (k =? zlen record); done).
  destruct (emit_record_ok t record k (at_offset lw d0 (frag_start bs off)) Hk Hk16 Hw0) as (d & -> & Hw & Hwd).
  cbn [mbind exec_bind]. exists d, t. split_and!; [|done|done|].
  - rewrite Hw. cbn [lw_dst at_offset set_offset set_dst]. by rewrite Hd0, <- app_assoc.
  - unfold slice_from. rewrite slice_spec by lia. cbn [mbind exec_bind].
    rewrite take_ge by (rewrite length_drop; lia). unfold at_offset, set_dst, set_offset.
    cbn [lw_dst block_size current_block_offset]. do 2 f_equal. lia.
Qed.

(** How much fuel the writer's loop still needs: see [add_record]. *)
Definition log_measure lw (record : bytes) : nat :=
  2 * length record
  + (if block_size lw - current_block_offset lw =? HEADER_SIZE then 1 else 0).

(** The writer's loop terminates and writes the record's encoding. *)
Lemma add_record_loop_ok fuel : ∀ lw record first m,
  log_inv lw → record ≠ [] → (log_measure lw record < fuel)%nat →
  ∃ d o enc m', add_record_loop fuel lw record first (Ok m) = Ret (at_offset lw d o, Ok m')
    ∧ written d = written (lw_dst lw) ++ enc ∧ writable d
    ∧ enc_record (block_size lw) (current_block_offset lw) record enc o.
Proof.
  induction fuel as [|fuel IH]; intros lw record first m Hinv Hne Hm; [lia|].
  destruct (add_record_loop_step fuel lw record first m Hinv Hne) as (d & t & Hw & Hd & Ht & Hstep).
  rewrite Hstep. clear Hstep. destruct Hinv as (Hbs & Hoff & _). pose proof (frag_start_range _ _ Hbs Hoff) as Hst.
  set (bs := block_size lw) in *. set (off := current_block_offset lw) in *.
  set (avail := bs - frag_start bs off - HEADER_SIZE) in *.
  set (k := if zlen record <? avail then zlen record else avail) in *.
  assert (zlen record ≠ 0) as Hlen by (destruct record; [done|simpl; lia]).
  assert (k = zlen record ∧ k ≤ avail ∨ k = avail ∧ k < zlen record) as [[Ek Ea]|[Ek Ea]]
    by (unfold k; destruct (Z.ltb_spec (zlen record) avail); lia); change HEADER_SIZE with 7 in *.
  - rewrite Ek in *. rewrite Nat2Z.id, drop_ge by lia. rewrite Nat2Z.id, take_ge in Hw by lia. rewrite Z.eqb_refl in Ht.
    destruct fuel as [|fuel]; [unfold log_measure in Hm; lia|]. exists d. do 3 eexists. split_and!; [done|exact Hw|done|].
    apply enc_last; [done|]. change HEADER_SIZE with 7. unfold avail in *. lia.
  - rewrite (proj2 (Z.eqb_neq _ _)) in Ht by lia. set (r1 := take (Z.to_nat k) record) in *.
    assert (zlen r1 = k) as Hr1 by (unfold r1; rewrite length_take; unfold avail in *; lia).
    assert (record = r1 ++ drop (Z.to_nat k) record) as Er by (by unfold r1; rewrite take_drop). set (r2 := drop (Z.to_nat k) record) in *.
    assert (frag_start bs off + 7 + k = bs) as Ebs by (unfold avail in *; lia). rewrite Ebs.
    assert (r2 ≠ []) as Hne2 by (intros E; rewrite Er, E, app_nil_r in Ea; lia).
    destruct (IH (at_offset lw d bs) r2 false (7 + k)) as (d' & o' & enc & m' & -> & Hw' & Hd' & He); [|done| |].
    { unfold size_ok in Hbs. change HEADER_SIZE with 7 in *. split_and!; cbn; fold bs; [done|lia..|done]. }
    { unfold log_measure in *. cbn in *. fold bs off in Hm. change HEADER_SIZE with 7 in *. rewrite Z.sub_diag. change (0 =? 7) with false.
      rewrite Er, length_app in Hm. destruct (Z.eqb_spec (bs - off) 7) as [E|E]; [lia|].
      assert (k ≠ 0); [|lia]. unfold avail, frag_start in *. change HEADER_SIZE with 7 in *. unfold size_ok in Hbs. change HEADER_SIZE with 7 in *.
      destruct (Z.ltb_spec (bs - off) 7); lia. }
    cbn in Hw'. exists d', o', (padding (bs - off) ++ frag_bytes t r1 ++ enc), m'.
    split_and!; [done|by rewrite Hw', Hw, <- !app_assoc|done|]. rewrite Er. apply enc_more; [done|change HEADER_SIZE with 7; lia|exact He].
Qed.

Lemma add_record_ok lw r : log_inv lw → r ≠ [] →
  ∃ d o enc m, add_record r lw = Ret (at_offset lw d o, Ok m)
    ∧ written d = written (lw_dst lw) ++ enc ∧ log_inv (at_offset lw d o)
    ∧ enc_record (block_size lw) (current_block_offset lw) r enc o.
Proof.
  intros Hi Hr. destruct (add_record_loop_ok (2 * length r + 2) lw r true 0 Hi Hr) as (d & o & enc & m & E & Hw & Hd & He);
    [unfold log_measure; destruct (_ =? _); lia|].
  exists d, o, enc, m. split_and!; [done..| |done]. destruct Hi as (Hbs & Ho & _).
  destruct (enc_record_offset _ _ _ _ _ Hbs He Ho) as [Ho' _]. split_and!; cbn; [done|lia..|done].
Qed.

Lemma add_records_ok rs : ∀ lw, log_inv lw → Forall (λ r, r ≠ []) rs →
  ∃ d o enc, add_records rs lw = Ret (at_offset lw d o, Ok ())
    ∧ written d = written (lw_dst lw) ++ enc ∧ log_inv (at_offset lw d o)
    ∧ enc_records (block_size lw) (current_block_offset lw) rs enc o.
Proof.
  induction rs as [|r rs IH]; intros lw Hi Hne.
  - exists (lw_dst lw), (current_block_offset lw), []. unfold at_offset. destruct lw; cbn in *. rewrite app_nil_r. by split_and!; [..|constructor].
  - apply Forall_cons in Hne as [Hr Hne]. destruct (add_record_ok lw r Hi Hr) as (d & o & enc & m & E & Hw & Hi1 & He).
    destruct (IH _ Hi1 Hne) as (d' & o' & enc' & E' & Hw' & Hi2 & He').
    exists d', o', (enc ++ enc'). cbn [add_records]. rewrite E, bind_Ret. cbn in Hw'.
    split_and!; [done|by rewrite Hw', Hw, app_assoc|done|]. econstructor; [done|exact He|exact He'].
Qed.

End writing.

(** A writer at the end of a log: it appends records to it. *)
Record log_writer `{RW : ReliableWrite W} (lw : LogWriter W) (rs : list bytes) : Prop := {
  lgw_inv : log_inv lw;
  lgw_size : block_size lw = BLOCK_SIZE;
  lgw_end : ∃ off, enc_records BLOCK_SIZE 0 rs (written (lw_dst lw)) off
    ∧ (current_block_offset lw = off ∨ current_block_offset lw = 0 ∧ off = BLOCK_SIZE);
}.

Section log_writer.
Context `{RW : ReliableWrite W}.
Implicit Types lw : LogWriter W.

Lemma log_writer_is_log lw rs : log_writer lw rs → is_log (written (lw_dst lw)) rs.
Proof. intros [_ _ (off & He & _)]. by exists off. Qed.

Lemma log_writer_new (d : W) : writable d → written d = [] → log_writer (LogWriter_new d) [].
Proof. intros Hd Hw. split; [by split_and!|done|]. exists 0. cbn. rewrite Hw. split; [constructor|by left]. Qed.

(** [LogWriter::new_with_off] with the size of the log. *)
Lemma log_writer_reopen (d : W) rs : writable d → is_log (written d) rs →
  log_writer (LogWriter_new_with_off d (zlen (written d))) rs.
Proof.
  intros Hd [off He]. pose proof (Z.mod_pos_bound (zlen (written d)) BLOCK_SIZE ltac:(done)) as Hb.
  assert (size_ok BLOCK_SIZE) as Hs by (by_decide || done). split; [split_and!; cbn; try done; lia|done|]. exists off. split; [done|]. cbn.
  destruct (enc_records_offset _ _ _ _ _ Hs He) as (Ho & q & Hq); [done|].
  replace (zlen (written d)) with (off + q * BLOCK_SIZE) by lia. rewrite Z.mod_add by done.
  destruct (decide (off = BLOCK_SIZE)) as [->|]; [by right|left; apply Z.mod_small; lia].
Qed.

Lemma log_writer_adds lw rs rs' : log_writer lw rs → Forall (λ r, r ≠ []) rs' →
  ∃ lw', add_records rs' lw = Ret (lw', Ok ()) ∧ log_writer lw' (rs ++ rs').
Proof.
  intros [Hi Hs (off & He & Ho)] Hne. destruct (add_records_ok rs' lw Hi Hne) as (d & o & enc & E & Hw & Hi' & He').
  exists (at_offset lw d o). split; [done|]. split; [done|done|]. cbn. rewrite Hs in He'.
  assert (size_ok BLOCK_SIZE) as Hsz by (by_decide || done).
  destruct (decide (rs' = [])) as [->|Hne'].
  { inversion He'; subst. rewrite !app_nil_r in *. rewrite Hw. by exists off. }
  exists o. split; [|by left]. rewrite Hw. eapply enc_records_app; [exact He|].
  destruct Ho as [<-|[E0 ->]]; [done|]. rewrite E0 in He'. by apply enc_records_block_end.
Qed.

Lemma log_writer_add lw rs r : log_writer lw rs → r ≠ [] →
  ∃ lw' m, add_record r lw = Ret (lw', Ok m) ∧ log_writer lw' (rs ++ [r]).
Proof.
  intros Hl Hr. destruct (log_writer_adds lw rs [r] Hl) as (lw' & E & Hl'); [by constructor|].
  cbn [add_records] in E. destruct (add_record r lw) as [[lw1 [m|e]]| |]; try done. cbn in E. injection E as ->. by exists lw', m.
Qed.

Lemma log_writer_flush lw rs : log_writer lw rs →
  ∃ lw', log_flush lw = Ret (lw', Ok ()) ∧ log_writer lw' rs.
Proof.
  intros [(Hs & Ho & Hd) Hsz (off & He & Hoff)]. unfold log_flush. destruct (flush_reliable (lw_dst lw) Hd) as (d & -> & Hw & Hd').
  eexists. split; [done|]. split; [split_and!; cbn; [done|lia..|done]|done|]. cbn. rewrite Hw. by exists off.
Qed.

End log_writer.

(** ** Reading *)

Section reading.
Context `{RR : ReliableRead R}.
Implicit Types lr : LogReader R.

(** The reader stands at offset [off] of a block, [tail] is what follows. *)
Record reader_at (bs off : Z) lr (tail : bytes) : Prop := {
  rd_bs : blocksize lr = bs;
  rd_off : blk_off lr = off;
  rd_scratch : length (head_scratch lr) = 7%nat;
  rd_readable : readable (lr_src lr);
  rd_unread : unread (lr_src lr) = tail;
}.

(** The padding is skipped. *)
Lemma skip_padding bs off lr tail : size_ok bs → 0 ≤ off ≤ bs → reader_at bs off lr (padding (bs - off) ++ tail) →
  ∃ lr', (if bs - off <? HEADER_SIZE then
            '(s, r) ← r_read_exact (bs - off) (lr_src lr);
            match r with
            | Ok bs => Ret (set_blk_off (set_scratch (set_src lr s) bs) 0, None)
            | Err e => Ret (set_src lr s, Some e)
            end
          else Ret (lr, None)) = Ret (lr', None)
    ∧ reader_at bs (frag_start bs off) lr' tail ∧ checksums lr' = checksums lr.
Proof.
  intros Hs Ho [H1 H2 H3 H4 H5]. unfold padding, frag_start in *. change HEADER_SIZE with 7 in *.
  destruct (Z.ltb_spec (bs - off) 7); [|by exists lr].
  destruct (read_exact_reliable (bs - off) (lr_src lr)) as (r' & -> & Hu & Hr);
    [rewrite H5, length_app, length_replicate; lia|done|].
  cbn [mbind exec_bind]. rewrite H5 in *. rewrite take_app_length' by (rewrite length_replicate; lia).
  rewrite drop_app_length' in Hu by (rewrite length_replicate; lia).
  eexists. split; [done|]. split; [|done]. split; cbn; try done.
  rewrite length_app, length_drop, !length_replicate, H3. lia.
Qed.

Lemma read_fragment fuel bs off lr t f tail dst :
  size_ok bs → 0 ≤ off ≤ bs → zlen f < 65536 → reader_at bs off lr (padding (bs - off) ++ frag_bytes t f ++ tail) →
  ∃ lr', reader_at bs (frag_start bs off + HEADER_SIZE + zlen f) lr' tail ∧ checksums lr' = checksums lr
    ∧ read_loop (S fuel) lr dst (zlen dst) =
      if ends t then Ret (lr', dst ++ f, Ok (zlen (dst ++ f)))
      else read_loop fuel lr' (dst ++ f) (zlen (dst ++ f)).
Proof.
  intros Hs Ho Hf Hat. destruct (skip_padding bs off lr _ Hs Ho Hat) as (lr1 & E1 & [H1 H2 H3 H4 H5] & Hck).
  destruct Hat as [B1 B2 _ _ _]. cbn [read_loop]. rewrite B1, B2, usub_Ret, bind_Ret by lia. rewrite E1, bind_Ret.
  destruct (read_reliable 7 (lr_src lr1)) as (r1 & -> & U1 & R1); [lia|done|]. cbn [mbind exec_bind].
  pose proof (length_frag_header t f) as Hh. rewrite H5, frag_bytes_header, <- app_assoc in *.
  rewrite take_app_length' by (rewrite Hh; done). rewrite drop_app_length' in U1 by (rewrite Hh; done).
  rewrite Hh. change (Z.of_nat 7 =? 0) with false. cbv iota. change (Z.of_nat 7) with 7.
  unfold set_scratch, set_blk_off, set_src. cbn [lr_src blk_off blocksize head_scratch checksums].
  rewrite Hh, drop_ge by lia. rewrite app_nil_r.
  destruct (header_parts (mask_crc (crc32 (rt_u8 t :: f))) (zlen f) (rt_u8 t)) as (P1 & P2 & P3). fold (frag_header t f) in P1, P2, P3.
  rewrite P1, P2, P3. cbn [mbind exec_bind].
  rewrite !decode_encode_fixed by (try lia; try apply mask_crc_u32; unfold is_u; lia).
  destruct (read_reliable (zlen f) r1) as (r2 & -> & U2 & R2); [lia|done|]. cbn [mbind exec_bind].
  rewrite U1, Nat2Z.id in *. rewrite take_app_length. rewrite drop_app_length in U2.
  unfold vec_resize. rewrite (take_ge dst) by lia.
  replace (Z.to_nat (zlen dst + zlen f) - length dst)%nat with (length f) by lia.
  rewrite <- (app_nil_r (replicate (length f) 0)).
  rewrite splice_app by (rewrite ?length_replicate; lia). cbn [mbind exec_bind].
  unfold check_integrity. rewrite unmask_mask by (apply crc32_range). cbn [app].
  rewrite Z.eqb_refl, andb_false_r, ends_u8, app_nil_r.
  replace (zlen dst + zlen f) with (zlen (dst ++ f)) by (rewrite length_app; lia).
  eexists. split; [|split; [|reflexivity]]; [|done]. split; cbn; try done. change HEADER_SIZE with 7. lia.
Qed.

(** How much fuel the reader's loop needs. *)
Definition frag_measure (bs off : Z) (r : bytes) : nat := 2 * length r + (if bs - off =? HEADER_SIZE then 1 else 0).

(** A record is read back. *)
Lemma read_record_ok bs off r b off' : size_ok bs → enc_record bs off r b off' → 0 ≤ off ≤ bs →
  ∀ fuel lr dst tail, (frag_measure bs off r < fuel)%nat → reader_at bs off lr (b ++ tail) →
  ∃ lr', read_loop fuel lr dst (zlen dst) = Ret (lr', dst ++ r, Ok (zlen (dst ++ r)))
    ∧ reader_at bs off' lr' tail ∧ checksums lr' = checksums lr.
Proof.
  intros Hs. pose proof Hs as Hs'. unfold size_ok in Hs'. change HEADER_SIZE with 7 in Hs'.
  induction 1 as [off r t Ht Hr|off r1 r2 t b off' Ht Hr Hb IH]; intros Ho fuel lr dst tail Hf Hat.
  all: pose proof (frag_start_range bs off Hs Ho) as Hst; destruct fuel as [|fuel]; [lia|]; rewrite <- !app_assoc in Hat.
  - destruct (read_fragment fuel bs off lr t r tail dst Hs Ho) as (lr' & Hat' & Hck & ->); [change HEADER_SIZE with 7 in *; lia|done|].
    rewrite Ht. by exists lr'.
  - destruct (read_fragment fuel bs off lr t r1 (b ++ tail) dst Hs Ho) as (lr1 & Hat1 & Hck & ->); [change HEADER_SIZE with 7 in *; lia|done|].
    rewrite Ht. rewrite Hr in Hat1. destruct (IH ltac:(lia) fuel lr1 (dst ++ r1) tail) as (lr' & E & Hat' & Hck'); [|done|].
    { unfold frag_measure, frag_start in *. change HEADER_SIZE with 7 in *. rewrite length_app in Hf. rewrite Z.sub_diag.
      change (0 =? 7) with false. destruct (Z.eqb_spec (bs - off) 7), (Z.ltb_spec (bs - off) 7); lia. }
    exists lr'. rewrite E, Hck', <- !app_assoc. done.
Qed.

Lemma log_read_record bs off r b off' fuel lr tail :
  size_ok bs → enc_record bs off r b off' → 0 ≤ off ≤ bs → (2 * length r + 2 ≤ fuel)%nat → reader_at bs off lr (b ++ tail) →
  ∃ lr', log_read fuel lr = Ret (lr', r, Ok (zlen r)) ∧ reader_at bs off' lr' tail.
Proof.
  intros Hs He Ho Hf Hat. destruct (read_record_ok bs off r b off' Hs He Ho fuel lr [] tail) as (lr' & E & Hat' & _);
    [unfold frag_measure; destruct (_ =? _); lia|done|]. by exists lr'.
Qed.

(** At the end of the log the reader reports no record. *)
Lemma log_read_end bs off fuel lr : size_ok bs → 0 ≤ off ≤ bs → reader_at bs off lr [] →
  ∃ lr' buf res, log_read (S fuel) lr = Ret (lr', buf, res) ∧ match res with Ok n => n = 0 | Err _ => True end ∧ readable (lr_src lr').
Proof.
  intros Hs Ho [H1 H2 H3 H4 H5]. unfold log_read. cbn [read_loop]. rewrite H1, H2, usub_Ret, bind_Ret by lia.
  assert (∀ lr1, readable (lr_src lr1) → unread (lr_src lr1) = [] → ∃ r, r_read 7 (lr_src lr1) = Ret (r, Ok []) ∧ readable r) as Hend.
  { intros lr1 Hr Hu. destruct (read_reliable 7 (lr_src lr1)) as (r & E & _ & Hr'); [lia|done|]. exists r. by rewrite E, Hu. }
  destruct (_ <? HEADER_SIZE) eqn:E; [|rewrite bind_Ret; destruct (Hend lr H4 H5) as (r & -> & Hr); do 3 eexists; by split_and!].
  destruct (decide (bs - off = 0)) as [E0|E0].
  - destruct (read_exact_reliable (bs - off) (lr_src lr)) as (r & -> & Hu & Hr); [rewrite H5; simpl; lia|done|].
    cbn [mbind exec_bind]. destruct (Hend (set_blk_off (set_scratch (set_src lr r) (take (Z.to_nat (bs - off)) (unread (lr_src lr)))) 0)) as (r1 & -> & Hr1);
      [done|cbn; by rewrite Hu, H5, drop_nil|]. do 3 eexists. by split_and!.
  - destruct (read_exact_short (bs - off) (lr_src lr)) as (r & e & -> & Hr); [rewrite H5; simpl; lia|done|]. do 3 eexists. by split_and!.
Qed.

Lemma read_records_enc bs off rs b off' : size_ok bs → enc_records bs off rs b off' → 0 ≤ off ≤ bs →
  ∀ n fuel lr, Forall (λ r, 2 * length r + 2 ≤ S fuel)%nat rs → (length rs < n)%nat → reader_at bs off lr b →
  read_records n (S fuel) lr = Ret rs.
Proof.
  intros Hs. induction 1 as [off|off r b off1 rs bb off' Hne Hr Hb IH]; intros Ho n fuel lr Hf Hn Hat; (destruct n as [|n]; [simpl in Hn; lia|]); cbn [read_records].
  - destruct (log_read_end bs off fuel lr Hs Ho Hat) as (lr' & buf & res & -> & Hres & _). cbn [mbind exec_bind].
    destruct res as [m|e]; [by rewrite Hres|done].
  - apply Forall_cons in Hf as [Hfr Hf]. destruct (log_read_record _ _ _ _ _ (S fuel) lr bb Hs Hr Ho Hfr Hat) as (lr' & -> & Hat').
    rewrite bind_Ret. destruct (Z.eqb_spec (zlen r) 0) as [E|_]; [destruct r; simpl in E; [done|lia]|].
    destruct (enc_record_offset _ _ _ _ _ Hs Hr Ho) as [Ho1 _].
    rewrite (IH Ho1 n fuel lr'); [done|done|simpl in Hn; lia|done].
Qed.

(** Reading a log from its start. *)
Lemma read_records_log b rs n fuel (src : R) chk :
  is_log b rs → readable src → unread src = b → Forall (λ r, 2 * length r + 2 ≤ S fuel)%nat rs → (length rs < n)%nat →
  read_records n (S fuel) (LogReader_new src chk) = Ret rs.
Proof. intros [off He] Hr Hu Hf Hn. eapply read_records_enc; [|exact He| |done..|]; done || by split. Qed.

End reading.

End fragments.

(** ** Properties *)

Section properties.
Context `{IEL : IntegerEncodingLaws} `{CRL : Crc32Laws}.

(** C1: whatever non-empty records are added to a fresh log, and then to the same log
    reopened for appending ([LogWriter::new_with_off] with its size), reading the log from
    its start, with or without checksum verification, gives back exactly these records in
    order and then stops; all the loops terminate. *)
Theorem log_reopen_roundtrip rs1 rs2 chk n fuel :
  Forall (λ r, r ≠ []) (rs1 ++ rs2) →
  Forall (λ r, 2 * length r + 2 ≤ S fuel)%nat (rs1 ++ rs2) →
  (length rs1 + length rs2 < n)%nat →
  ∃ lw1 lw2, add_records rs1 (LogWriter_new []) = Ret (lw1, Ok ())
    ∧ add_records rs2 (LogWriter_new_with_off (lw_dst lw1) (zlen (lw_dst lw1))) = Ret (lw2, Ok ())
    ∧ read_records n (S fuel) (LogReader_new (lw_dst lw2) chk) = Ret (rs1 ++ rs2).
Proof.
  intros [Hne1 Hne2]%Forall_app Hf Hn.
  destruct (log_writer_adds (RW := vec_reliable) (LogWriter_new []) [] rs1) as (lw1 & E1 & L1); [by apply log_writer_new|done|].
  destruct (log_writer_adds (RW := vec_reliable) (LogWriter_new_with_off (lw_dst lw1) (zlen (lw_dst lw1))) rs1 rs2) as (lw2 & E2 & L2);
    [apply (log_writer_reopen (RW := vec_reliable)); [done|exact (log_writer_is_log _ _ L1)]|done|].
  exists lw1, lw2. split_and!; [done..|].
  apply (read_records_log (RR := slice_reliable) (lw_dst lw2)); [exact (log_writer_is_log _ _ L2)|done..|]. rewrite length_app. lia.
Qed.


End properties.

Lemma log_reopen_roundtrip_witness :
  let IE := Reference.ref_encoding in let CR := Reference.ref_crc in
  ∃ lw1 lw2, add_records [[1]; [2; 3]] (LogWriter_new []) = Ret (lw1, Ok ())
    ∧ add_records [[4]] (LogWriter_new_with_off (lw_dst lw1) (zlen (lw_dst lw1))) = Ret (lw2, Ok ())
    ∧ read_records 4 6 (LogReader_new (lw_dst lw2) true) = Ret ([[1]; [2; 3]] ++ [[4]]).
Proof.
  apply (log_reopen_roundtrip (IEL := Reference.ref_encoding_laws) (CRL := Reference.ref_crc_laws));
    [repeat constructor; done|repeat constructor; simpl; lia|simpl; lia].
Defined.

