(* ===== verification/SkipMap.v ===== *)
(** * SkipMap: [src/skipmap.rs]

    The skip list behind the memtable, with its nodes in an explicit heap: a [Box<Node>] and
    a [*mut Node] are both a location, and following one that is not allocated is a panic.
    The random generator [StdRng] is a parameter.  An iterator holds the map it shares with
    its owner by [Rc]; [iter_share] is what the owner's insertions make of it. *)

From S2P Require Import Prelude Types Cmp Iterator.

Definition MAX_HEIGHT : nat := 12.
Definition BRANCHING_FACTOR : Z := 4.

Definition loc := nat.

Record Node := mkNode {
  skips : list (option loc);
  next : option loc;
  nkey : bytes;
  nvalue : bytes;
}.

(** [rand::rngs::StdRng] *)
Class Rng (G : Type) := {
  seed_from_u64 : Z → G;
  next_u32 : G → Z * G;
}.

Record InnerSkipMap (G : Type) := mkSkipMap {
  heap : gmap loc Node;
  head : loc;
  rand : G;
  sm_len : Z;
  approx_mem : Z;
  sm_cmp : Cmp;
}.
Arguments mkSkipMap {G}.
Arguments heap {G}.
Arguments head {G}.
Arguments rand {G}.
Arguments sm_len {G}.
Arguments approx_mem {G}.
Arguments sm_cmp {G}.

(** [size_of] on a 64-bit target: [SkipMap] is one [Rc], [Option<*mut Node>] is a tag and a
    pointer, [Node] is three vectors and a pointer. *)
Definition size_of_SkipMap : Z := 8.
Definition size_of_link : Z := 16.
Definition size_of_Node : Z := 80.

Definition deref (h : gmap loc Node) (p : loc) : exec Node := unwrap (h !! p).

Section defs.
Context `{Rng G}.

Definition SkipMap_new (c : Cmp) : InnerSkipMap G := {|
  heap := {[ 0%nat := {| skips := replicate MAX_HEIGHT None; next := None; nkey := []; nvalue := [] |} ]};
  head := 0%nat;
  rand := seed_from_u64 0xdeadbeef;
  sm_len := 0;
  approx_mem := size_of_SkipMap + Z.of_nat MAX_HEIGHT * size_of_link;
  sm_cmp := c;
|}.

(** The loop of [random_height]; [k] bounds how far the height can still grow. *)
Fixpoint random_height_loop (k : nat) (height : nat) (g : G) : nat * G :=
  match k with
  | O => (height, g)
  | S k =>
      let '(r, g) := next_u32 g in
      if r mod BRANCHING_FACTOR =? 0 then random_height_loop k (S height) g else (height, g)
  end.
Definition random_height (g : G) : nat * G := random_height_loop (MAX_HEIGHT - 1) 1 g.

(** The descent of [get_greater_or_equal]: the node it returns early, or where it ends. *)
Fixpoint ge_loop (fuel : nat) (h : gmap loc Node) (c : Cmp) (key : bytes) (current : loc) (level : nat)
  : exec (loc + loc) :=
  match fuel with
  | O => NoFuel
  | S fuel =>
      n ← deref h current;
      link ← index (skips n) (Z.of_nat level);
      let down :=
        match level with O => Ret (inr current) | S l => ge_loop fuel h c key current l end in
      match link with
      | Some nx =>
          nn ← deref h nx;
          o ← cmp c (nkey nn) key;
          match o with
          | Lt => ge_loop fuel h c key nx level
          | Eq => Ret (inl nx)
          | Gt => match level with O => Ret (inl nx) | S _ => down end
          end
      | None => down
      end
  end.

(** A descent follows each link at most once and goes down [MAX_HEIGHT] levels. *)
Definition descent_fuel (m : InnerSkipMap G) : nat := Z.to_nat (sm_len m) + MAX_HEIGHT + 1.

Definition top_level (m : InnerSkipMap G) : exec nat :=
  n ← deref (heap m) (head m);
  l ← usub (zlen (skips n)) 1;
  Ret (Z.to_nat l).

Definition get_greater_or_equal (m : InnerSkipMap G) (key : bytes) : exec (option loc) :=
  level ← top_level m;
  r ← ge_loop (descent_fuel m) (heap m) (sm_cmp m) key (head m) level;
  match r with
  | inl n => Ret (Some n)
  | inr current =>
      if decide (current = head m) then Ret None
      else
        n ← deref (heap m) current;
        o ← cmp (sm_cmp m) (nkey n) key;
        Ret (if is_lt o then None else Some current)
  end.

(** The descent of [get_next_smaller]. *)
Fixpoint lt_loop (fuel : nat) (h : gmap loc Node) (c : Cmp) (key : bytes) (current : loc) (level : nat)
  : exec loc :=
  match fuel with
  | O => NoFuel
  | S fuel =>
      n ← deref h current;
      link ← index (skips n) (Z.of_nat level);
      let down := match level with O => Ret current | S l => lt_loop fuel h c key current l end in
      match link with
      | Some nx =>
          nn ← deref h nx;
          o ← cmp c (nkey nn) key;
          match o with Lt => lt_loop fuel h c key nx level | _ => down end
      | None => down
      end
  end.

Definition get_next_smaller (m : InnerSkipMap G) (key : bytes) : exec (option loc) :=
  level ← top_level m;
  current ← lt_loop (descent_fuel m) (heap m) (sm_cmp m) key (head m) level;
  if decide (current = head m) then Ret None
  else
    n ← deref (heap m) current;
    o ← cmp (sm_cmp m) (nkey n) key;
    Ret (if is_lt o then Some current else None).

(** [n.key.starts_with(key)], as in the source: a prefix, not the whole key. *)
Definition bytes_starts_with (s p : bytes) : bool := bool_decide (take (length p) s = p).

Definition contains (m : InnerSkipMap G) (key : bytes) : exec bool :=
  r ← get_greater_or_equal m key;
  match r with
  | Some p => n ← deref (heap m) p; Ret (bytes_starts_with (nkey n) key)
  | None => Ret false
  end.

(** The search loop of [insert]: the nodes to be linked to the new one, per level, and the
    node after which it goes. *)
Fixpoint insert_find (fuel : nat) (h : gmap loc Node) (c : Cmp) (key : bytes) (new_height : nat)
    (prevs : list (option loc)) (current : loc) (level : nat) : exec (list (option loc) * loc) :=
  match fuel with
  | O => NoFuel
  | S fuel =>
      n ← deref h current;
      link ← index (skips n) (Z.of_nat level);
      step ← match link with
             | Some nx =>
                 nn ← deref h nx;
                 o ← cmp c (nkey nn) key;
                 _ ← massert (negb (is_eq o));
                 Ret (if is_lt o then Some nx else None)
             | None => Ret None
             end;
      match step with
      | Some nx => insert_find fuel h c key new_height prevs nx level
      | None =>
          prevs ← (if (level <? new_height)%nat then set_index prevs (Z.of_nat level) (Some current)
                   else Ret prevs);
          match level with
          | O => Ret (prevs, current)
          | S l => insert_find fuel h c key new_height prevs current l
          end
      end
  end.

Definition set_skip (n : Node) (i : nat) (l : option loc) : exec Node :=
  s ← set_index (skips n) (Z.of_nat i) l;
  Ret {| skips := s; next := next n; nkey := nkey n; nvalue := nvalue n |}.
Definition set_next (n : Node) (l : option loc) : Node :=
  {| skips := skips n; next := l; nkey := nkey n; nvalue := nvalue n |}.

(** One turn of [for i in 0..new_height]. *)
Definition link_level (newp : loc) (prevs : list (option loc)) (h : gmap loc Node) (i : nat)
  : exec (gmap loc Node) :=
  p ← index prevs (Z.of_nat i);
  match p with
  | Some prev =>
      np ← deref h prev;
      link ← index (skips np) (Z.of_nat i);
      nn ← deref h newp;
      nn ← set_skip nn i link;
      let h := <[newp := nn]> h in
      np ← deref h prev;
      np ← set_skip np i (Some newp);
      Ret (<[prev := np]> h)
  | None => Ret h
  end.

Definition skipmap_insert (key val : bytes) (m : InnerSkipMap G) : exec (InnerSkipMap G) :=
  _ ← massert (negb (bool_decide (key = [])));
  let '(new_height, g) := random_height (rand m) in
  let prevs := replicate new_height (Some (head m)) in
  '(prevs, current) ← insert_find (descent_fuel m) (heap m) (sm_cmp m) key new_height prevs (head m)
                        (MAX_HEIGHT - 1);
  let newp := fresh (dom (heap m)) in
  let new := {| skips := replicate new_height None; next := None; nkey := key; nvalue := val |} in
  h ← mfoldl (link_level newp prevs) (<[newp := new]> (heap m)) (seq 0 new_height);
  cn ← deref h current;
  let nx := next cn in
  let h := <[current := set_next cn None]> h in
  nn ← deref h newp;
  let h := <[newp := set_next nn nx]> h in
  cn ← deref h current;
  let h := <[current := set_next cn (Some newp)]> h in
  Ret {| heap := h; head := head m; rand := g; sm_len := sm_len m + 1;
         approx_mem := approx_mem m + (size_of_Node + size_of_link * Z.of_nat new_height
                                       + zlen key + zlen val);
         sm_cmp := sm_cmp m |}.

(** ** [SkipMapIter] *)

Record SkipMapIter := mkSkipIter { it_map : InnerSkipMap G; it_at : loc }.

Definition skipmap_iter (m : InnerSkipMap G) : SkipMapIter := {| it_map := m; it_at := head m |}.

(** The map behind the [Rc] has changed. *)
Definition iter_share (m : InnerSkipMap G) (it : SkipMapIter) : SkipMapIter :=
  {| it_map := m; it_at := it_at it |}.

Definition skip_move (it : SkipMapIter) (p : loc) : SkipMapIter :=
  {| it_map := it_map it; it_at := p |}.

Definition skip_reset (it : SkipMapIter) : SkipMapIter := skip_move it (head (it_map it)).

Definition skip_valid (it : SkipMapIter) : bool := negb (bool_decide (it_at it = head (it_map it))).

Definition skip_advance (it : SkipMapIter) : exec (SkipMapIter * bool) :=
  n ← deref (heap (it_map it)) (it_at it);
  match next n with
  | Some nx => Ret (skip_move it nx, true)
  | None => Ret (skip_reset it, false)
  end.

Definition skip_seek (key : bytes) (it : SkipMapIter) : exec SkipMapIter :=
  r ← get_greater_or_equal (it_map it) key;
  match r with
  | Some p => Ret (skip_move it p)
  | None => Ret (skip_reset it)
  end.

Definition skip_current (it : SkipMapIter) : exec (option (bytes * bytes)) :=
  if skip_valid it then
    n ← deref (heap (it_map it)) (it_at it); Ret (Some (nkey n, nvalue n))
  else Ret None.

Definition skip_prev (it : SkipMapIter) : exec (SkipMapIter * bool) :=
  if skip_valid it then
    n ← deref (heap (it_map it)) (it_at it);
    r ← get_next_smaller (it_map it) (nkey n);
    match r with
    | Some p =>
        pn ← deref (heap (it_map it)) p;
        if bool_decide (nkey pn = []) then Ret (skip_reset it, false)
        else Ret (skip_move it p, true)
    | None => Ret (skip_reset it, false)
    end
  else Ret (skip_reset it, false).

#[export] Instance SkipMapIter_iterator : LdbIterator SkipMapIter := {
  it_advance := skip_advance;
  it_current := skip_current;
  it_seek := skip_seek;
  it_reset it := Ret (skip_reset it);
  it_valid it := Ret (skip_valid it);
  it_prev := skip_prev;
}.

End defs.

(** ** The list a heap represents *)

(** A node of the list, in order; the first one is always the head. *)
Record ent := mkEnt { e_loc : loc; e_height : nat; e_key : bytes; e_val : bytes }.

Definition head_ent (p : loc) : ent :=
  {| e_loc := p; e_height := MAX_HEIGHT; e_key := []; e_val := [] |}.

(** The target of a level-[j] link from just before [R]. *)
Fixpoint first_above (j : nat) (R : list ent) : option loc :=
  match R with
  | [] => None
  | e :: R => if (j <? e_height e)%nat then Some (e_loc e) else first_above j R
  end.

Definition links (f : nat → option loc) (n : nat) : list (option loc) := f <$> seq 0 n.

Definition node_of (e : ent) (R : list ent) : Node :=
  {| skips := links (λ j, first_above j R) (e_height e); next := e_loc <$> hd_error R;
     nkey := e_key e; nvalue := e_val e |}.

Definition rep (h : gmap loc Node) (C : list ent) : Prop :=
  ∀ A e R, C = A ++ e :: R → h !! e_loc e = Some (node_of e R).

Lemma first_above_app j A B :
  first_above j (A ++ B) = match first_above j A with Some p => Some p | None => first_above j B end.
Proof. induction A as [|e A IH]; simpl; [done|]. by destruct (_ <? _)%nat. Qed.

Lemma first_above_Some j R p :
  first_above j R = Some p →
  ∃ A e B, R = A ++ e :: B ∧ e_loc e = p ∧ (j < e_height e)%nat ∧ Forall (λ e, e_height e ≤ j)%nat A.
Proof.
  induction R as [|e R IH]; simpl; [done|]. destruct (Nat.ltb_spec j (e_height e)).
  - intros [= <-]. by exists [], e, R.
  - intros (A & e' & B & -> & ? & ? & ?)%IH. exists (e :: A), e', B. split_and!; auto.
Qed.

Lemma first_above_None j R : first_above j R = None ↔ Forall (λ e, e_height e ≤ j)%nat R.
Proof.
  induction R as [|e R IH]; simpl; [by split|]. rewrite Forall_cons.
  destruct (Nat.ltb_spec j (e_height e)); [split; [done|lia]|]. rewrite IH. naive_solver lia.
Qed.

Lemma index_links f n j : (j < n)%nat → index (links f n) (Z.of_nat j) = Ret (f j).
Proof.
  intros Hj. apply index_lookup. unfold links. rewrite list_lookup_fmap, lookup_seq_lt by done. done.
Qed.

Lemma links_ext f g n : (∀ j, (j < n)%nat → f j = g j) → links f n = links g n.
Proof.
  intros Hfg. apply list_fmap_ext. intros i x [-> Hi]%lookup_seq. apply Hfg. lia.
Qed.

Lemma insert_links f n i x :
  (i < n)%nat → <[i := x]> (links f n) = links (λ j, if (j =? i)%nat then x else f j) n.
Proof.
  intros Hi. apply list_eq. intros j. unfold links. rewrite list_lookup_fmap.
  destruct (decide (j = i)) as [->|Hne].
  - rewrite list_lookup_insert_eq by (by rewrite length_fmap, length_seq).
    rewrite lookup_seq_lt by done. simpl. by rewrite Nat.eqb_refl.
  - rewrite list_lookup_insert_ne, list_lookup_fmap by done.
    destruct (decide (j < n)%nat).
    + rewrite lookup_seq_lt by done. simpl. by rewrite (proj2 (Nat.eqb_neq j i)).
    + by rewrite lookup_seq_ge by lia.
Qed.

Lemma length_links f n : length (links f n) = n.
Proof. unfold links. by rewrite length_fmap, length_seq. Qed.

(** The last node of [e :: R] whose height exceeds [j], if [e]'s does. *)
Fixpoint last_above (j : nat) (p : loc) (R : list ent) : loc :=
  match R with
  | [] => p
  | e :: R => last_above j (if (j <? e_height e)%nat then e_loc e else p) R
  end.

Lemma last_above_app j p A B : last_above j p (A ++ B) = last_above j (last_above j p A) B.
Proof. revert p. induction A as [|e A IH]; intros p; simpl; auto. Qed.

Lemma last_above_low j p A : Forall (λ e, e_height e ≤ j)%nat A → last_above j p A = p.
Proof.
  revert p. induction A as [|e A IH]; intros p; simpl; [done|]. intros [He HA]%Forall_cons.
  destruct (Nat.ltb_spec j (e_height e)); [lia|]. by apply IH.
Qed.

(** It splits the list. *)
Lemma last_above_split j e R :
  (j < e_height e)%nat →
  ∃ A x B, e :: R = A ++ x :: B ∧ last_above j (e_loc e) R = e_loc x ∧ (j < e_height x)%nat
    ∧ Forall (λ e, e_height e ≤ j)%nat B.
Proof.
  revert e. induction R as [|e' R IH]; intros e He; simpl.
  - by exists [], e, [].
  - destruct (Nat.ltb_spec j (e_height e')) as [Hlt|Hge].
    + destruct (IH e' Hlt) as (A & x & B & E & ? & ? & ?). exists (e :: A), x, B.
      rewrite E. by split_and!.
    + destruct (IH e He) as (A & x & B & E & Hl & Hx & HB). destruct A as [|a A]; simplify_eq/=.
      * exists [], x, (e' :: B). split_and!; auto.
      * exists (a :: e' :: A), x, B. by split_and!.
Qed.

(** ** Descents

    A descent is at a node [e] of the list [P ++ e :: R1 ++ E2] with [R1] the nodes still to
    be passed and [E2] those not below the key; it never is on a level above [e]'s height. *)

Section descent.
Context {c : Cmp} {OC : OrderedCmp c}.
Variable (h : gmap loc Node) (C : list ent) (key : bytes).
Hypothesis (Hrep : rep h C) (Hkey : key_ok c key).

Definition below (e : ent) : Prop := key_ok c (e_key e) ∧ ord c (e_key e) key = Lt.
Definition not_below (e : ent) : Prop := key_ok c (e_key e) ∧ ord c (e_key e) key ≠ Lt ∧ (1 ≤ e_height e)%nat.

Lemma deref_node P e R : C = P ++ e :: R → deref h (e_loc e) = Ret (node_of e R).
Proof. intros HC. unfold deref. by rewrite (Hrep _ _ _ HC). Qed.

(** What the code sees of the level-[j] link of [e]. *)
Inductive link_case (j : nat) (P : list ent) (e : ent) (R1 E2 : list ent) : option loc → Prop :=
| link_lower A x B :
    R1 = A ++ x :: B → (j < e_height x)%nat → below x →
    C = (P ++ e :: A) ++ x :: B ++ E2 → Forall below B →
    deref h (e_loc x) = Ret (node_of x (B ++ E2)) →
    cmp c (e_key x) key = Ret Lt → link_case j P e R1 E2 (Some (e_loc x))
| link_upper A x B :
    first_above j R1 = None → E2 = A ++ x :: B → Forall (λ e, e_height e ≤ j)%nat A → not_below x →
    deref h (e_loc x) = Ret (node_of x B) →
    cmp c (e_key x) key = Ret (ord c (e_key x) key) → link_case j P e R1 E2 (Some (e_loc x))
| link_none :
    first_above j R1 = None → first_above j E2 = None → link_case j P e R1 E2 None.

Lemma link_cases j P e R1 E2 :
  C = P ++ e :: R1 ++ E2 → (j < e_height e)%nat → Forall below R1 → Forall not_below E2 →
  ∃ l, deref h (e_loc e) = Ret (node_of e (R1 ++ E2))
    ∧ index (skips (node_of e (R1 ++ E2))) (Z.of_nat j) = Ret l ∧ link_case j P e R1 E2 l.
Proof.
  intros HC Hj HR HE. exists (first_above j (R1 ++ E2)).
  split; [by eapply deref_node|]. split; [by apply (index_links (λ j, first_above j _))|].
  rewrite first_above_app. destruct (first_above j R1) as [p|] eqn:E1.
  - apply first_above_Some in E1 as (A & x & B & -> & <- & Hx & HA).
    apply Forall_app in HR as [_ [Hxb HB]%Forall_cons].
    assert (C = (P ++ e :: A) ++ x :: B ++ E2) as HC' by (by rewrite HC, <- !app_assoc; simpl; rewrite <- ?app_assoc).
    eapply link_lower; try done; [by eapply deref_node|]. destruct Hxb as [Hk Ho]. by rewrite cmp_ret, Ho.
  - destruct (first_above j E2) as [p|] eqn:E2'; [|by apply link_none].
    apply first_above_Some in E2' as (A & x & B & -> & <- & Hx & HA).
    apply Forall_app in HE as [_ [Hxb _]%Forall_cons].
    eapply link_upper; try done; [|destruct Hxb; by rewrite cmp_ret].
    eapply (deref_node (P ++ e :: R1 ++ A)). rewrite HC. by simplify_list_eq.
Qed.

(** A node equal to the key is the first one not below it. *)
Lemma equal_is_first A x B :
  StronglySorted (λ a b, ord c (e_key a) (e_key b) = Lt) (A ++ x :: B) →
  Forall not_below (A ++ x :: B) → ord c (e_key x) key = Eq → A = [].
Proof.
  destruct A as [|y A]; [done|]. intros [_ Hs]%StronglySorted_inv [(_ & Hy & _) _]%Forall_cons Hx.
  apply Forall_app in Hs as [_ [Hyx _]%Forall_cons]. by rewrite (ord_eq_r _ _ _ Hx) in Hyx.
Qed.

Lemma first_above_0 E2 : Forall not_below E2 → first_above 0 E2 = e_loc <$> hd_error E2.
Proof.
  destruct E2 as [|x E2]; [done|]. intros [(_ & _ & Hx) _]%Forall_cons. simpl.
  by destruct (Nat.ltb_spec 0 (e_height x)); [|lia].
Qed.

Lemma last_above_move i j p A x B :
  (i ≤ j)%nat → (j < e_height x)%nat → last_above i p (A ++ x :: B) = last_above i (e_loc x) B.
Proof. intros. rewrite last_above_app. simpl. by destruct (Nat.ltb_spec i (e_height x)); [|lia]. Qed.

Lemma ge_loop_spec fuel : ∀ P e R1 E2 j,
  C = P ++ e :: R1 ++ E2 → (j < e_height e)%nat → Forall below R1 → Forall not_below E2 →
  StronglySorted (λ a b, ord c (e_key a) (e_key b) = Lt) E2 →
  (length R1 + j < fuel)%nat →
  ge_loop fuel h c key (e_loc e) j =
    Ret match E2 with x :: _ => inl (e_loc x) | [] => inr (last_above 0 (e_loc e) R1) end.
Proof.
  induction fuel as [|fuel IH]; intros P e R1 E2 j HC Hj HR HE Hs Hf; [lia|].
  destruct (link_cases j P e R1 E2 HC Hj HR HE) as (l & Hd & Hl & Hcase).
  cbn [ge_loop]. rewrite Hd, bind_Ret, Hl, bind_Ret.
  destruct Hcase as [A x B -> Hx Hxb HC' HB Hdx Hcmp|A x B HR1 -> HA Hxn Hdx Hcmp|HR1 HE2].
  - rewrite Hdx, bind_Ret. cbn [nkey node_of]. rewrite Hcmp, bind_Ret.
    rewrite (IH _ _ _ _ _ HC' Hx HB HE Hs) by (rewrite length_app in Hf; simpl in Hf; lia).
    by rewrite (last_above_move 0 j) by (done || lia).
  - rewrite Hdx, bind_Ret. cbn [nkey node_of]. rewrite Hcmp, bind_Ret.
    pose proof Hxn as (_ & Hnlt & _). destruct (ord c (e_key x) key) eqn:Ho; [|done|].
    + by rewrite (equal_is_first A x B).
    + destruct j as [|j]; [|by apply (IH P); try done; lia].
      destruct A as [|y A]; [done|]. apply Forall_cons in HA as [HA _].
      apply Forall_cons in HE as [(_ & _ & ?) _]. lia.
  - destruct j as [|j]; [|by apply (IH P); try done; lia]. rewrite first_above_0 in HE2 by done.
    destruct E2; [|done]. by rewrite last_above_low by (by apply first_above_None).
Qed.

Lemma lt_loop_spec fuel : ∀ P e R1 E2 j,
  C = P ++ e :: R1 ++ E2 → (j < e_height e)%nat → Forall below R1 → Forall not_below E2 →
  (length R1 + j < fuel)%nat →
  lt_loop fuel h c key (e_loc e) j = Ret (last_above 0 (e_loc e) R1).
Proof.
  induction fuel as [|fuel IH]; intros P e R1 E2 j HC Hj HR HE Hf; [lia|].
  destruct (link_cases j P e R1 E2 HC Hj HR HE) as (l & Hd & Hl & Hcase).
  cbn [lt_loop]. rewrite Hd, bind_Ret, Hl, bind_Ret.
  assert (first_above j R1 = None → match j with O => Ret (e_loc e) | S l => lt_loop fuel h c key (e_loc e) l end
            = Ret (last_above 0 (e_loc e) R1)) as Hdown.
  { intros HR1. destruct j as [|j]; [|by apply (IH P _ _ E2); try done; lia].
    by rewrite last_above_low by (by apply first_above_None). }
  destruct Hcase as [A x B -> Hx Hxb HC' HB Hdx Hcmp|A x B HR1 -> HA Hxn Hdx Hcmp|HR1 HE2]; [| |by apply Hdown].
  - rewrite Hdx, bind_Ret. cbn [nkey node_of]. rewrite Hcmp, bind_Ret.
    rewrite (IH _ _ _ _ _ HC' Hx HB HE) by (rewrite length_app in Hf; simpl in Hf; lia).
    by rewrite (last_above_move 0 j) by (done || lia).
  - rewrite Hdx, bind_Ret. cbn [nkey node_of]. rewrite Hcmp, bind_Ret.
    destruct Hxn as (_ & Hxn & _). destruct (ord c (e_key x) key); [|done|]; by apply Hdown.
Qed.

Lemma insert_find_spec fuel nh : ∀ P e R1 E2 j pf,
  C = P ++ e :: R1 ++ E2 → (j < e_height e)%nat → Forall below R1 → Forall not_below E2 →
  Forall (λ x, ord c (e_key x) key ≠ Eq) E2 →
  (length R1 + j < fuel)%nat →
  insert_find fuel h c key nh (links pf nh) (e_loc e) j =
    Ret (links (λ i, if (i <=? j)%nat then Some (last_above i (e_loc e) R1) else pf i) nh,
         last_above 0 (e_loc e) R1).
Proof.
  induction fuel as [|fuel IH]; intros P e R1 E2 j pf HC Hj HR HE Hneq Hf; [lia|].
  destruct (link_cases j P e R1 E2 HC Hj HR HE) as (l & Hd & Hl & Hcase).
  cbn [insert_find]. rewrite Hd, bind_Ret, Hl, bind_Ret.
  set (down := prevs ← (if (j <? nh)%nat then _ else _); _).
  assert (first_above j R1 = None → down
            = Ret (links (λ i, if (i <=? j)%nat then Some (last_above i (e_loc e) R1) else pf i) nh,
                   last_above 0 (e_loc e) R1)) as Hdown.
  { intros HR1%first_above_None. unfold down.
    set (pf' i := if (i =? j)%nat then Some (e_loc e) else pf i).
    replace (if (j <? nh)%nat then _ else _) with (Ret (links pf' nh)).
    2:{ unfold set_index, pf'. rewrite length_links. destruct (Nat.ltb_spec j nh) as [Hlt|Hge].
        - ztest. cbn [andb]. by rewrite Nat2Z.id, insert_links.
        - f_equal. apply links_ext. intros i Hi. by rewrite (proj2 (Nat.eqb_neq i j)) by lia. }
    rewrite bind_Ret. destruct j as [|j].
    - rewrite last_above_low by done. do 2 f_equal. apply links_ext. intros i _. unfold pf'.
      destruct (Nat.eqb_spec i 0) as [->|]; [by rewrite last_above_low|by destruct i].
    - rewrite (IH P _ _ E2) by (done || lia). do 2 f_equal. apply links_ext. intros i _. unfold pf'.
      destruct (Nat.eqb_spec i (S j)) as [->|].
      + rewrite last_above_low, Nat.leb_refl by done. by destruct (Nat.leb_spec (S j) j); [lia|].
      + destruct (Nat.leb_spec i j), (Nat.leb_spec i (S j)); done || lia. }
  destruct Hcase as [A x B -> Hx Hxb HC' HB Hdx Hcmp|A x B HR1 -> HA Hxn Hdx Hcmp|HR1 HE2]; [| |by apply Hdown].
  - rewrite Hdx, bind_Ret. cbn [nkey node_of]. rewrite Hcmp, bind_Ret. cbn [is_eq is_lt negb massert mbind exec_bind].
    rewrite (IH _ _ _ _ _ _ HC' Hx HB HE Hneq) by (rewrite length_app in Hf; simpl in Hf; lia).
    rewrite (last_above_move 0 j) by (done || lia). do 2 f_equal. apply links_ext. intros i _.
    destruct (Nat.leb_spec i j); [|done]. by rewrite (last_above_move i j).
  - rewrite Hdx, bind_Ret. cbn [nkey node_of]. rewrite Hcmp, bind_Ret.
    apply Forall_app in Hneq as [_ [Hne _]%Forall_cons].
    destruct Hxn as (_ & Hxn & _). destruct (ord c (e_key x) key); [done..|]. by apply Hdown.
Qed.

(** With the key present the search ends in the assertion. *)
Lemma insert_find_dup fuel nh : ∀ P e R1 x E2 j prevs,
  C = P ++ e :: R1 ++ x :: E2 → (j < e_height e)%nat → Forall below R1 → Forall not_below (x :: E2) →
  ord c (e_key x) key = Eq → length prevs = nh → (length R1 + j < fuel)%nat →
  insert_find fuel h c key nh prevs (e_loc e) j = Panic.
Proof.
  induction fuel as [|fuel IH]; intros P e R1 x E2 j prevs HC Hj HR HE Heq Hp Hf; [lia|].
  destruct (link_cases j P e R1 _ HC Hj HR HE) as (l & Hd & Hl & Hcase).
  cbn [insert_find]. rewrite Hd, bind_Ret, Hl, bind_Ret.
  set (down := prevs' ← (if (j <? nh)%nat then _ else _); _).
  assert (j ≠ 0%nat → down = Panic) as Hdown.
  { intros Hj0. unfold down. destruct j as [|j]; [done|]. unfold set_index.
    destruct (Nat.ltb_spec (S j) nh).
    - ztest. cbn [andb mbind exec_bind]. apply (IH P _ R1 x E2); try done; [lia|by rewrite length_insert|lia].
    - cbn [mbind exec_bind]. apply (IH P _ R1 x E2); done || lia. }
  apply Forall_cons in HE as HE'. destruct HE' as [(_ & _ & Hx1) _].
  destruct Hcase as [A y B -> Hy Hyb HC' HB Hdy Hcmp|A y B HR1 Hsplit HA Hyn Hdy Hcmp|HR1 HE2].
  - rewrite Hdy, bind_Ret. cbn [nkey node_of]. rewrite Hcmp, bind_Ret. cbn [is_eq is_lt negb massert mbind exec_bind].
    apply (IH _ _ _ _ _ _ _ HC' Hy HB HE Heq Hp). rewrite length_app in Hf; simpl in Hf; lia.
  - rewrite Hdy, bind_Ret. cbn [nkey node_of]. rewrite Hcmp, bind_Ret.
    destruct Hyn as (_ & Hnlt & _). destruct (ord c (e_key y) key) eqn:Hoy; [done|done|].
    cbn [is_eq is_lt negb massert mbind exec_bind]. apply Hdown. intros ->.
    destruct A as [|z A]; simplify_eq/=; [congruence|]. apply Forall_cons in HA as [? _]. lia.
  - apply Hdown. intros ->. rewrite first_above_0 in HE2; done.
Qed.

End descent.

(** ** Linking a new node *)

Lemma ltb_S j n : (j <? S n)%nat = (j =? n)%nat || (j <? n)%nat.
Proof. destruct (Nat.eqb_spec j n), (Nat.ltb_spec j n), (Nat.ltb_spec j (S n)); done || lia. Qed.

Lemma in_locs C A e B : C = A ++ e :: B → e_loc e ∈ (e_loc <$> C).
Proof. intros ->. apply list_elem_of_fmap_2. set_solver. Qed.

Section linking.
Variable (hd : ent) (E1 E2 : list ent) (ne : ent).
Hypothesis (Hnd : NoDup (e_loc <$> (hd :: E1) ++ ne :: E2)).
Hypothesis (Hheights : Forall (λ e, 1 ≤ e_height e)%nat (hd :: E1)).
Hypothesis (Htop : (e_height ne ≤ e_height hd)%nat).

Let fa (n : nat) (B : list ent) (j : nat) : option loc :=
  if (j <? n)%nat then first_above j (B ++ ne :: E2) else first_above j (B ++ E2).

(** The heap when the first [n] levels have been linked. *)
Definition linked (n : nat) (h : gmap loc Node) : Prop :=
  (∀ A e B, hd :: E1 = A ++ e :: B → h !! e_loc e = Some
     {| skips := links (fa n B) (e_height e); next := e_loc <$> hd_error (B ++ E2);
        nkey := e_key e; nvalue := e_val e |})
  ∧ (∀ A e B, E2 = A ++ e :: B → h !! e_loc e = Some (node_of e B))
  ∧ h !! e_loc ne = Some
     {| skips := links (λ j, if (j <? n)%nat then first_above j E2 else None) (e_height ne); next := None;
        nkey := e_key ne; nvalue := e_val ne |}.

Lemma split_unique A e B A' e' B' :
  hd :: E1 = A ++ e :: B → hd :: E1 = A' ++ e' :: B' → e_loc e = e_loc e' → A = A' ∧ e = e' ∧ B = B'.
Proof.
  intros H1 H2 Hl. assert (NoDup (e_loc <$> hd :: E1)) as Hn by (rewrite fmap_app in Hnd; by apply NoDup_app in Hnd as [? _]).
  assert (length A = length A') as HAA.
  { apply (NoDup_lookup _ (length A) (length A') (e_loc e) Hn).
    - rewrite H1, list_lookup_fmap, list_lookup_middle by done. done.
    - rewrite H2, list_lookup_fmap, list_lookup_middle by done. by rewrite Hl. }
  rewrite H1 in H2. apply app_inj_1 in H2 as [-> [= -> ->]]; done.
Qed.

Lemma new_fresh A e B : hd :: E1 = A ++ e :: B ∨ E2 = A ++ e :: B → e_loc e ≠ e_loc ne.
Proof.
  intros Hin He. rewrite fmap_app in Hnd. apply NoDup_app in Hnd as (_ & Hd1 & [Hn _]%NoDup_cons).
  destruct Hin as [Hin|Hin]; apply in_locs in Hin; rewrite He in Hin.
  - apply (Hd1 (e_loc ne) Hin). by apply elem_of_cons; left.
  - exact (Hn Hin).
Qed.

Lemma lower_upper_ne A e B A' e' B' : hd :: E1 = A ++ e :: B → E2 = A' ++ e' :: B' → e_loc e ≠ e_loc e'.
Proof.
  intros H1%in_locs H2%in_locs He. rewrite fmap_app in Hnd. apply NoDup_app in Hnd as (_ & Hd1 & _).
  apply (Hd1 _ H1). rewrite He. by apply elem_of_cons; right.
Qed.

(** Only the last node of height above [n] sees the new node at level [n]. *)
Lemma passes_last n A e B A0 x B0 :
  hd :: E1 = A ++ e :: B → hd :: E1 = A0 ++ x :: B0 → Forall (λ e, e_height e ≤ n)%nat B0 →
  (n < e_height x)%nat → (n < e_height e)%nat → e_loc e ≠ e_loc x →
  first_above n (B ++ ne :: E2) = first_above n (B ++ E2).
Proof.
  intros H1 H2 HB0 Hx He Hne. rewrite !first_above_app.
  destruct (first_above n B) eqn:EB; [done|exfalso]. apply first_above_None in EB.
  rewrite H1 in H2. apply app_eq_inv in H2 as [(k & -> & Hk)|(k & -> & Hk)]; destruct k; simplify_eq/=.
  - apply Forall_app in HB0 as [_ [? _]%Forall_cons]. lia.
  - apply Forall_app in EB as [_ [? _]%Forall_cons]. lia.
Qed.

Lemma link_level_ok n h prevs :
  linked n h → (n < e_height ne)%nat →
  index prevs (Z.of_nat n) = Ret (Some (last_above n (e_loc hd) E1)) →
  ∃ h', link_level (e_loc ne) prevs h n = Ret h' ∧ linked (S n) h'.
Proof.
  intros (HL & HU & HN) Hn Hp.
  destruct (last_above_split n hd E1) as (A0 & x & B0 & HC & Hx & Hxn & HB0); [lia|].
  unfold link_level. rewrite Hp, bind_Ret, Hx. unfold deref. rewrite (HL _ _ _ HC). cbn [unwrap mbind exec_bind].
  cbn [skips]. rewrite index_links by done. cbn [mbind exec_bind]. rewrite HN. cbn [unwrap mbind exec_bind].
  unfold set_skip, set_index. cbn [skips next nkey nvalue]. rewrite !length_links. ztest.
  cbn [andb mbind exec_bind]. rewrite lookup_insert_ne by (symmetry; eapply new_fresh; by left).
  rewrite (HL _ _ _ HC). cbn [unwrap mbind exec_bind skips next nkey nvalue]. rewrite length_links. ztest.
  cbn [andb mbind exec_bind]. rewrite Nat2Z.id, !insert_links by done.
  eexists. split; [done|]. split_and!.
  - intros A e B He. destruct (decide (e_loc e = e_loc x)) as [El|El].
    + destruct (split_unique _ _ _ _ _ _ He HC El) as (-> & -> & ->). rewrite lookup_insert_eq.
      do 2 f_equal. apply links_ext. intros j Hj. unfold fa.
      rewrite ltb_S. destruct (Nat.eqb_spec j n) as [->|]; [|done]. cbn [orb].
      rewrite first_above_app, (proj2 (first_above_None _ _)) by done.
      simpl. by destruct (Nat.ltb_spec n (e_height ne)); [|lia].
    + rewrite lookup_insert_ne, lookup_insert_ne, (HL _ _ _ He); [|pose proof (new_fresh _ _ _ (or_introl He)); congruence|congruence].
      do 2 f_equal. apply links_ext. intros j Hj. unfold fa. rewrite ltb_S.
      destruct (Nat.eqb_spec j n) as [->|]; [|done]. rewrite Nat.ltb_irrefl. symmetry.
      by apply (passes_last n _ _ _ _ _ _ He HC).
  - intros A e B He. rewrite lookup_insert_ne, lookup_insert_ne; [by eapply HU|..].
    + symmetry; eapply new_fresh; by right.
    + by eapply lower_upper_ne.
  - rewrite lookup_insert_ne by (eapply new_fresh; by left). rewrite lookup_insert_eq.
    do 2 f_equal. apply links_ext. intros j Hj. unfold fa. rewrite ltb_S.
    destruct (Nat.eqb_spec j n) as [->|]; [|done]. rewrite Nat.ltb_irrefl.
    by rewrite first_above_app, (proj2 (first_above_None _ _)).
Qed.

Lemma link_levels_ok k n h prevs :
  linked n h → (n + k ≤ e_height ne)%nat →
  (∀ i, (i < e_height ne)%nat → index prevs (Z.of_nat i) = Ret (Some (last_above i (e_loc hd) E1))) →
  ∃ h', mfoldl (link_level (e_loc ne) prevs) h (seq n k) = Ret h' ∧ linked (n + k) h'.
Proof.
  revert n h. induction k as [|k IH]; intros n h Hl Hk Hp.
  - exists h. by rewrite Nat.add_0_r.
  - destruct (link_level_ok n h prevs Hl ltac:(lia) (Hp n ltac:(lia))) as (h' & E & Hl').
    cbn [seq mfoldl]. rewrite E, bind_Ret. replace (n + S k)%nat with (S n + k)%nat by lia.
    apply IH; done || lia.
Qed.

End linking.

(** ** The map as a sorted list *)

Section map.
Context `{Rng G} {c : Cmp} {OC : OrderedCmp c}.

Definition chain (m : InnerSkipMap G) (E : list ent) : list ent := head_ent (head m) :: E.

Definition ent_lt (a b : ent) : Prop := ord c (e_key a) (e_key b) = Lt.

Record sm_inv (m : InnerSkipMap G) (E : list ent) : Prop := {
  inv_cmp : sm_cmp m = c;
  inv_rep : rep (heap m) (chain m E);
  inv_nodup : NoDup (e_loc <$> chain m E);
  inv_heights : Forall (λ e, 1 ≤ e_height e ≤ MAX_HEIGHT)%nat E;
  inv_sorted : StronglySorted ent_lt E;
  inv_keys : Forall (λ e, key_ok c (e_key e) ∧ e_key e ≠ []) E;
  inv_len : sm_len m = zlen E;
}.

(** The key-value pairs a map holds, in order. *)
Definition kv (e : ent) : bytes * bytes := (e_key e, e_val e).
Definition holds (m : InnerSkipMap G) (l : list (bytes * bytes)) : Prop :=
  ∃ E, sm_inv m E ∧ kv <$> E = l.

Lemma sm_new_inv : sm_inv (SkipMap_new c) [].
Proof.
  split; try done.
  - intros A e R HC. unfold chain in HC. destruct A as [|a A]; simplify_eq/=; [|by destruct A].
    apply lookup_singleton_eq.
  - repeat constructor; set_solver.
  - constructor.
Qed.

Lemma random_height_range g : (1 ≤ (random_height g).1 ≤ MAX_HEIGHT)%nat.
Proof.
  unfold random_height.
  assert (∀ k n g, n ≤ (random_height_loop k n g).1 ≤ n + k)%nat as Hk.
  { induction k as [|k IH]; intros n g'; simpl; [lia|]. destruct (next_u32 g') as [r g''].
    destruct (_ =? 0); simpl; [specialize (IH (S n) g''); lia|lia]. }
  specialize (Hk (MAX_HEIGHT - 1)%nat 1%nat g). unfold MAX_HEIGHT in *. lia.
Qed.

(** A key cuts the list in two. *)
Lemma cut E key :
  Forall (λ e, 1 ≤ e_height e ≤ MAX_HEIGHT)%nat E → StronglySorted ent_lt E →
  Forall (λ e, key_ok c (e_key e) ∧ e_key e ≠ []) E →
  ∃ E1 E2, E = E1 ++ E2 ∧ Forall (below (c := c) key) E1 ∧ Forall (not_below (c := c) key) E2.
Proof.
  intros Hh Hs Hk. induction E as [|e E IH]; [by exists [], []|].
  apply Forall_cons in Hh as [Hh1 Hh], Hk as [[Hk1 _] Hk]. apply StronglySorted_inv in Hs as [Hs Hlt].
  destruct (decide (ord c (e_key e) key = Lt)) as [Ho|Ho].
  - destruct (IH Hh Hs Hk) as (E1 & E2 & -> & H1 & H2). exists (e :: E1), E2.
    split_and!; [done| |done]. by constructor.
  - exists [], (e :: E). split_and!; [done..|]. constructor; [split_and!; lia || done|].
    rewrite Forall_forall in *. intros x Hx. split_and!; [by apply Hk| |by apply Hh].
    intros Hlx. apply Ho. eapply ord_trans; [by apply Hlt|done].
Qed.

Lemma cut_unique E1 E2 E1' E2' key :
  E1 ++ E2 = E1' ++ E2' → Forall (below (c := c) key) E1 → Forall (not_below (c := c) key) E2 →
  Forall (below (c := c) key) E1' → Forall (not_below (c := c) key) E2' → E1 = E1' ∧ E2 = E2'.
Proof.
  intros HE H1 H2 H1' H2'. apply app_eq_inv in HE as [(k & -> & ->)|(k & -> & ->)];
    destruct k as [|x k]; rewrite ?app_nil_r; try done; exfalso.
  - apply Forall_app in H1 as [_ [[_ ?] _]%Forall_cons]. by apply Forall_cons in H2' as [(_ & ? & _) _].
  - apply Forall_app in H1' as [_ [[_ ?] _]%Forall_cons]. by apply Forall_cons in H2 as [(_ & ? & _) _].
Qed.

Lemma top_level_ok m E : sm_inv m E → top_level m = Ret 11%nat.
Proof.
  intros I. unfold top_level, deref. 
  by rewrite (inv_rep m E I [] (head_ent (head m)) E eq_refl : heap m !! head m = _).
Qed.

(** The descents, on the whole map. *)
Lemma ge_ok m E1 E2 key :
  sm_inv m (E1 ++ E2) → key_ok c key → Forall (below (c := c) key) E1 → Forall (not_below (c := c) key) E2 →
  get_greater_or_equal m key = Ret (e_loc <$> hd_error E2).
Proof.
  intros I Hkey H1 H2. unfold get_greater_or_equal. rewrite (top_level_ok _ _ I), bind_Ret, (inv_cmp _ _ I).
  pose proof (inv_rep _ _ I) as Hr. pose proof (inv_len _ _ I) as Hlen. rewrite length_app in Hlen.
  pose proof (inv_sorted _ _ I) as Hs. apply StronglySorted_app in Hs as (_ & _ & Hs).
  change (head m) with (e_loc (head_ent (head m))) at 1.
  rewrite (ge_loop_spec (heap m) (chain m (E1 ++ E2)) key Hr Hkey _ [] (head_ent (head m)) E1 E2); try done;
    [|simpl; unfold MAX_HEIGHT; lia|unfold descent_fuel, MAX_HEIGHT; lia].
  rewrite bind_Ret. destruct E2 as [|x E2]; [|done]. cbn [e_loc head_ent].
  destruct (last_above_split 0 (head_ent (head m)) E1) as (A & x & B & HC & Hx & _ & HB);
    [simpl; unfold MAX_HEIGHT; lia|]. cbn [e_loc head_ent] in Hx. rewrite Hx.
  case_decide as Hd; [done|]. unfold deref. rewrite app_nil_r in *.
  rewrite (Hr A x B) by done. cbn [unwrap mbind exec_bind nkey node_of].
  assert (below (c := c) key x) as [Hk Ho].
  { destruct A as [|a A]; simplify_eq/=. by apply Forall_app in H1 as [_ [? _]%Forall_cons]. }
  rewrite cmp_ret by done. by rewrite Ho.
Qed.

Lemma lt_ok m E1 E2 key :
  sm_inv m (E1 ++ E2) → key_ok c key → Forall (below (c := c) key) E1 → Forall (not_below (c := c) key) E2 →
  get_next_smaller m key = Ret (e_loc <$> last E1).
Proof.
  intros I Hkey H1 H2. unfold get_next_smaller. rewrite (top_level_ok _ _ I), bind_Ret, (inv_cmp _ _ I).
  pose proof (inv_rep _ _ I) as Hr. pose proof (inv_len _ _ I) as Hlen. rewrite length_app in Hlen.
  change (head m) with (e_loc (head_ent (head m))) at 1.
  rewrite (lt_loop_spec (heap m) (chain m (E1 ++ E2)) key Hr Hkey _ [] (head_ent (head m)) E1 E2); try done;
    [|simpl; unfold MAX_HEIGHT; lia|unfold descent_fuel, MAX_HEIGHT; lia].
  rewrite bind_Ret.
  destruct (last_above_split 0 (head_ent (head m)) E1) as (A & x & B & HC & Hx & _ & HB);
    [simpl; unfold MAX_HEIGHT; lia|]. rewrite Hx.
  assert (B = []) as ->.
  { destruct B as [|b B]; [done|]. apply Forall_cons in HB as [Hb _].
    pose proof (inv_heights _ _ I) as Hh. rewrite Forall_forall in Hh.
    enough (b ∈ E1 ++ E2) as Hin%Hh by lia. destruct A; simplify_eq/=; set_solver. }
  destruct A as [|a A]; simplify_eq/=; [by case_decide|].
  rewrite last_snoc. case_decide as Hd.
  { exfalso. pose proof (inv_nodup _ _ I) as Hn. apply NoDup_cons in Hn as [Hn _]. apply Hn.
    cbn [e_loc head_ent]. rewrite <- Hd. apply list_elem_of_fmap_2. set_solver. }
  unfold deref. rewrite (Hr (head_ent (head m) :: A) x E2) by (unfold chain; by simplify_list_eq).
  cbn [unwrap mbind exec_bind nkey node_of]. apply Forall_app in H1 as [_ [[Hk Ho] _]%Forall_cons].
  rewrite cmp_ret by done. by rewrite Ho.
Qed.

(** Linking starts from the heap with the new node allocated... *)
Lemma linked_0 (h : gmap loc Node) hd E1 E2 ne :
  rep h ((hd :: E1) ++ E2) → NoDup (e_loc <$> (hd :: E1) ++ ne :: E2) →
  linked hd E1 E2 ne 0 (<[e_loc ne := {| skips := replicate (e_height ne) None; next := None;
                                       nkey := e_key ne; nvalue := e_val ne |}]> h).
Proof.
  intros Hr Hnd. split_and!.
  - intros A e B He. rewrite lookup_insert_ne
      by (intros Hl; by apply (new_fresh hd E1 E2 ne Hnd A e B (or_introl He))).
    rewrite (Hr A e (B ++ E2)) by (rewrite He; by simplify_list_eq). done.
  - intros A e B He. rewrite lookup_insert_ne
      by (intros Hl; by apply (new_fresh hd E1 E2 ne Hnd A e B (or_intror He))).
    apply (Hr ((hd :: E1) ++ A)). rewrite He. by simplify_list_eq.
  - rewrite lookup_insert_eq. do 2 f_equal. apply list_eq. intros i. unfold links.
    rewrite list_lookup_fmap. destruct (decide (i < e_height ne)%nat).
    + rewrite lookup_replicate_2, lookup_seq_lt by done. done.
    + rewrite lookup_ge_None_2, lookup_seq_ge by (rewrite ?length_replicate; lia). done.
Qed.

(** ... and the last three assignments make the list. *)
Lemma linked_done (h : gmap loc Node) hd E1 E2 ne A z cn nn :
  linked hd E1 E2 ne (e_height ne) h → NoDup (e_loc <$> (hd :: E1) ++ ne :: E2) →
  hd :: E1 = A ++ [z] → h !! e_loc z = Some cn → h !! e_loc ne = Some nn →
  rep (<[e_loc z := set_next cn (Some (e_loc ne))]> (<[e_loc ne := set_next nn (next cn)]> h))
      ((hd :: E1) ++ ne :: E2).
Proof.
  intros (HL & HU & HN) Hnd Hz Hcn Hnn.
  rewrite (HL A z [] Hz) in Hcn. rewrite HN in Hnn. simplify_eq.
  assert (e_loc z ≠ e_loc ne) as Hzn by (by apply (new_fresh hd E1 E2 ne Hnd A z [] (or_introl Hz))).
  assert (∀ j B, (if (j <? e_height ne)%nat then first_above j (B ++ ne :: E2) else first_above j (B ++ E2))
    = first_above j (B ++ ne :: E2)) as Hfa.
  { intros j B. rewrite !first_above_app. simpl. by destruct (Nat.ltb_spec j (e_height ne)). }
  match goal with |- rep ?h' _ => assert (h' !! e_loc ne = Some (node_of ne E2)) as Hne end.
  { rewrite lookup_insert_ne, lookup_insert_eq by done. unfold set_next, node_of. cbn [skips next nkey nvalue].
    do 2 f_equal. apply links_ext. intros j Hj. by rewrite (proj2 (Nat.ltb_lt j _)). }
  intros A' e R HC. apply app_eq_inv in HC as [(k & HA & HR)|(k & -> & HR)]; destruct k as [|x k];
    simplify_eq/=; [exact Hne| |exact Hne|].
  - destruct (decide (e_loc x = e_loc z)) as [El|El].
    + destruct (split_unique hd E1 E2 ne Hnd _ _ _ _ _ _ HA Hz El) as (-> & -> & ->).
      rewrite lookup_insert_eq. unfold set_next, node_of. cbn [skips next nkey nvalue]. do 2 f_equal. apply links_ext. intros j _.
      apply (Hfa j []).
    + rewrite lookup_insert_ne, lookup_insert_ne, (HL _ _ _ HA); [|pose proof (new_fresh hd E1 E2 ne Hnd _ _ _ (or_introl HA)); congruence|congruence].
      unfold node_of. do 2 f_equal; [apply links_ext; intros j _; apply Hfa|].
      destruct k as [|y k]; [|done]. exfalso. apply El. rewrite Hz in HA. by apply app_inj_2 in HA as [_ [= ->]].
  - rewrite lookup_insert_ne, lookup_insert_ne; [by eapply HU|..].
    + intros He. by apply (new_fresh hd E1 _ x Hnd k e R (or_intror eq_refl)).
    + by eapply (lower_upper_ne hd E1 _ x Hnd).
Qed.

Lemma replicate_links (x : option loc) n : replicate n x = links (λ _, x) n.
Proof.
  apply list_eq. intros i. unfold links. rewrite list_lookup_fmap. destruct (decide (i < n)%nat).
  - by rewrite lookup_replicate_2, lookup_seq_lt.
  - by rewrite lookup_ge_None_2, lookup_seq_ge by (rewrite ?length_replicate; lia).
Qed.

Lemma fresh_loc m E1 E2 hgt key val :
  rep (heap m) (chain m (E1 ++ E2)) → NoDup (e_loc <$> chain m (E1 ++ E2)) →
  NoDup (e_loc <$> (head_ent (head m) :: E1) ++ mkEnt (fresh (dom (heap m))) hgt key val :: E2).
Proof.
  intros Hr Hn. unfold chain in *. rewrite app_comm_cons, fmap_app in Hn. rewrite fmap_app, fmap_cons.
  assert (fresh (dom (heap m)) ∉ (e_loc <$> (head_ent (head m) :: E1) ++ E2)) as Hf.
  { intros (e & He & Hin)%list_elem_of_fmap. apply list_elem_of_split in Hin as (A & B & HAB).
    apply (is_fresh (dom (heap m))). rewrite He. apply elem_of_dom. eexists. by eapply Hr. }
  rewrite fmap_app in Hf. apply not_elem_of_app in Hf as [Hf1 Hf2].
  apply NoDup_app in Hn as (Hn1 & Hn2 & Hn3). apply NoDup_app. split_and!; [done| |by apply NoDup_cons].
  intros x Hx [->|Hx2]%elem_of_cons; [done|]. by apply (Hn2 x).
Qed.

Lemma insert_inv m E1 E2 ne m' :
  sm_inv m (E1 ++ E2) → key_ok c (e_key ne) → e_key ne ≠ [] → (1 ≤ e_height ne ≤ MAX_HEIGHT)%nat →
  Forall (below (c := c) (e_key ne)) E1 → Forall (not_below (c := c) (e_key ne)) E2 →
  Forall (λ x, ord c (e_key x) (e_key ne) ≠ Eq) E2 →
  sm_cmp m' = c → head m' = head m → sm_len m' = sm_len m + 1 →
  rep (heap m') ((head_ent (head m) :: E1) ++ ne :: E2) →
  NoDup (e_loc <$> (head_ent (head m) :: E1) ++ ne :: E2) →
  sm_inv m' (E1 ++ ne :: E2).
Proof.
  intros I Hk Hne Hh H1 H2 H3 Hc Hhd Hl Hr Hnd. split; unfold chain; rewrite ?Hhd; try done.
  - pose proof (inv_heights _ _ I) as [? ?]%Forall_app. apply Forall_app. split; [done|]. by constructor.
  - pose proof (inv_sorted _ _ I) as (Hs & Hs1 & Hs2)%StronglySorted_app.
    rewrite Forall_forall in H1, H2, H3.
    assert (∀ x, x ∈ E2 → ent_lt ne x) as Hgt.
    { intros x Hx. apply ord_Gt_Lt. destruct (H2 x Hx) as (_ & Hn & _). specialize (H3 x Hx).
      by destruct (ord c _ _). }
    apply StronglySorted_app. split_and!; [|done|].
    + intros x y Hx [->|Hy]%elem_of_cons; [apply (H1 x Hx)|by apply Hs].
    + constructor; [done|]. by apply Forall_forall.
  - pose proof (inv_keys _ _ I) as [? ?]%Forall_app. apply Forall_app. split; [done|]. by constructor.
  - rewrite Hl, (inv_len _ _ I), !length_app. simpl. lia.
Qed.

Lemma insert_ok m E1 E2 key val :
  sm_inv m (E1 ++ E2) → key_ok c key → key ≠ [] →
  Forall (below (c := c) key) E1 → Forall (not_below (c := c) key) E2 →
  Forall (λ x, ord c (e_key x) key ≠ Eq) E2 →
  ∃ m' p hgt, skipmap_insert key val m = Ret m' ∧ sm_inv m' (E1 ++ mkEnt p hgt key val :: E2)
    ∧ head m' = head m.
Proof.
  intros I Hkey Hne H1 H2 Hneq. unfold skipmap_insert. rewrite bool_decide_false by done. cbn [negb massert mbind exec_bind].
  pose proof (random_height_range (rand m)) as Hh. destruct (random_height (rand m)) as [nh g]. cbn [fst] in Hh.
  pose proof (inv_rep _ _ I) as Hr. pose proof (inv_len _ _ I) as Hlen. rewrite length_app in Hlen.
  rewrite (replicate_links (Some (head m))), (inv_cmp _ _ I).
  pose proof (insert_find_spec (heap m) (chain m (E1 ++ E2)) key Hr Hkey (descent_fuel m) nh [] (head_ent (head m))
    E1 E2 (MAX_HEIGHT - 1) (λ _, Some (head m)) eq_refl ltac:(simpl; unfold MAX_HEIGHT; lia) H1 H2 Hneq
    ltac:(unfold descent_fuel, MAX_HEIGHT; lia)) as Hfind.
  cbn [e_loc head_ent] in Hfind. rewrite Hfind.
  cbn [mbind exec_bind]. set (ne := mkEnt (fresh (dom (heap m))) nh key val).
  pose proof (fresh_loc m E1 E2 nh key val Hr (inv_nodup _ _ I)) as Hnd. fold ne in Hnd.
  match goal with |- context [link_level _ (links ?f nh)] =>
    destruct (link_levels_ok (head_ent (head m)) E1 E2 ne Hnd ltac:(simpl; lia) nh 0
      _ (links f nh) (linked_0 _ _ _ _ ne Hr Hnd) ltac:(done)) as (h' & Hlink & Hl) end.
  { intros i Hi. rewrite (index_links _ nh i Hi). by destruct (Nat.leb_spec i (MAX_HEIGHT - 1)); [|cbn in Hi; lia]. }
  cbn [e_loc ne e_height e_key e_val] in Hlink |- *. unfold deref.
  destruct (last_above_split 0 (head_ent (head m)) E1) as (A & z & B & HC & Hz & _ & HB);
    [simpl; unfold MAX_HEIGHT; lia|].
  assert (B = []) as ->.
  { destruct B as [|b B]; [done|]. apply Forall_cons in HB as [Hb _].
    pose proof (inv_heights _ _ I) as Hhs. rewrite Forall_forall in Hhs.
    enough (b ∈ E1 ++ E2) as Hin%Hhs by lia. destruct A; simplify_eq/=; set_solver. }
  rewrite Hlink, bind_Ret. cbn [e_loc head_ent] in Hz. rewrite Hz.
  pose proof Hl as (HL & _ & HN). pose proof (HL A z [] HC) as Hzl.
  match type of Hzl with _ = Some ?x => set (cn := x) in * end.
  match type of HN with _ = Some ?x => set (nn := x) in * end. rewrite Hzl. cbn [unwrap mbind exec_bind].
  assert (e_loc z ≠ e_loc ne) as Hzn by (by apply (new_fresh _ E1 E2 ne Hnd A z [] (or_introl HC))).
  cbn [e_loc ne] in HN, Hzn. rewrite lookup_insert_ne, HN by done. cbn [unwrap mbind exec_bind].
  rewrite lookup_insert_ne, lookup_insert_eq by done. cbn [unwrap mbind exec_bind].
  rewrite insert_insert_ne, insert_insert_eq, insert_insert_ne by done.
  eexists _, (e_loc ne), nh.
  split; [done|]. split; [|done]. apply (insert_inv m E1 E2 ne); try done. 
  exact (linked_done h' _ _ _ _ A z cn nn Hl Hnd HC Hzl HN).
Qed.

End map.

(** ** The iterator satisfies the contract *)

Section iter.
Context `{Rng G} {c : Cmp} {OC : OrderedCmp c}.

Definition skip_view (it : SkipMapIter (G := G)) (l : list entry) (p : pos) : Prop :=
  ∃ E, sm_inv (c := c) (it_map it) E ∧ kv <$> E = l ∧
    match p with
    | At i => ∃ e, E !! i = Some e ∧ it_at it = e_loc e
    | _ => it_at it = head (it_map it)
    end.

Lemma not_head (m : InnerSkipMap G) E e i :
  sm_inv (c := c) m E → E !! i = Some e → e_loc e ≠ head m.
Proof.
  intros I He Hh. pose proof (inv_nodup _ _ I) as Hn. apply NoDup_cons in Hn as [Hn _]. apply Hn.
  cbn. rewrite <- Hh. apply list_elem_of_fmap_2. by eapply list_elem_of_lookup_2.
Qed.

Lemma deref_at (m : InnerSkipMap G) E i e :
  sm_inv (c := c) m E → E !! i = Some e → deref (heap m) (e_loc e) = Ret (node_of e (drop (S i) E)).
Proof.
  intros I He. unfold deref. rewrite (inv_rep (c := c) _ _ I (head_ent (head m) :: take i E) e (drop (S i) E)); [done|].
  unfold chain. simpl. f_equal. by rewrite take_drop_middle.
Qed.

Lemma skip_seek_ok it l p key :
  skip_view it l p → key_ok c key → ∃ it', skip_seek key it = Ret it' ∧ skip_view it' l (pos_seek c key l).
Proof.
  intros (E & I & <- & _) Hk.
  destruct (cut E key (inv_heights _ _ I) (inv_sorted _ _ I) (inv_keys _ _ I)) as (E1 & E2 & -> & H1 & H2).
  unfold skip_seek. rewrite (ge_ok _ E1 E2) by done. rewrite bind_Ret. unfold pos_seek.
  rewrite fmap_app, seek_index_app.
  2:{ apply Forall_fmap. by eapply Forall_impl; [exact H1|intros ? [_ ?]]. }
  2:{ apply Forall_fmap. by eapply Forall_impl; [exact H2|intros ? (_ & ? & _)]. }
  rewrite <- fmap_app. unfold at_or_off. rewrite !length_fmap, length_app.
  destruct E2 as [|x E2]; simpl; eexists; (split; [done|]).
  - exists (E1 ++ []). rewrite app_nil_r in *. by rewrite decide_False by lia.
  - exists (E1 ++ x :: E2). rewrite decide_True by lia. split_and!; [done..|]. exists x. split; [|done]. by apply list_lookup_middle.
Qed.

#[export] Instance SkipMapIter_forward : ForwardIterator c (SkipMapIter (G := G)).
Proof.
  refine {| view := skip_view |}.
  - intros it l i (E & I & <- & e & He & _). rewrite length_fmap. by eapply lookup_lt_Some.
  - intros it l p (E & I & <- & Hp) Hne. cbn. unfold skip_advance.
    assert (∃ R i, deref (heap (it_map it)) (it_at it) = Ret R ∧ next R = e_loc <$> E !! i
      ∧ pos_next (kv <$> E) p = at_or_off (kv <$> E) i) as (R & i & -> & Hnx & ->).
    { destruct p as [|i|]; [| |done]; rewrite ?Hp.
      - exists (node_of (head_ent (head (it_map it))) E), 0%nat. split_and!; [|by destruct E|done].
        unfold deref. by rewrite (inv_rep (c := c) _ _ I [] (head_ent (head (it_map it))) E eq_refl : _ !! head (it_map it) = _).
      - destruct Hp as (e & He & ->). exists (node_of e (drop (S i) E)), (S i). split_and!; [by eapply deref_at| |done].
        cbn [next node_of]. rewrite <- (Nat.add_0_r (S i)) at 2. rewrite <- lookup_drop. by destruct (drop (S i) E). }
    rewrite bind_Ret, Hnx. unfold at_or_off. rewrite length_fmap. destruct (E !! i) as [e|] eqn:He; simpl.
    + rewrite decide_True by (by eapply lookup_lt_Some). eexists. split; [done|]. exists E. split_and!; [done..|].
      by exists e.
    + apply lookup_ge_None in He. rewrite decide_False by lia. eexists. split; [done|]. by exists E.
  - intros it l p (E & I & <- & Hp). cbn. unfold skip_current, skip_valid. destruct p as [|i|]; cbn [entry_at].
    + by rewrite bool_decide_true.
    + destruct Hp as (e & He & ->). rewrite bool_decide_false by (by eapply not_head).
      cbn [negb]. by rewrite (deref_at _ E i e), list_lookup_fmap, He.
    + by rewrite bool_decide_true.
  - intros it l p (E & I & <- & Hp). cbn. unfold skip_valid. destruct p as [|i|]; cbn [on_entry].
    + by rewrite bool_decide_true.
    + destruct Hp as (e & He & ->). by rewrite bool_decide_false by (by eapply not_head).
    + by rewrite bool_decide_true.
  - intros it l p (E & I & <- & Hp). cbn. eexists. split; [done|]. by exists E.
  - intros it l p key. apply skip_seek_ok.
Defined.

#[export] Instance SkipMapIter_backward : BackwardIterator c (SkipMapIter (G := G)).
Proof.
  intros it l i (E & I & <- & e & He & Ha). cbn. unfold skip_prev, skip_valid.
  - rewrite Ha, bool_decide_false by (by eapply not_head).
    cbn [negb]. rewrite (deref_at _ E i e), bind_Ret by done. cbn [nkey node_of].
    pose proof (take_drop_middle E i e He) as HE.
    pose proof (inv_keys _ _ I) as Hk. pose proof (inv_sorted _ _ I) as Hs. pose proof (inv_heights _ _ I) as Hh.
    rewrite <- HE in Hk, Hs, Hh.
    apply Forall_app in Hk as [Hk1 [[Hke _] Hk2]%Forall_cons], Hh as [_ [Hhe Hh2]%Forall_cons].
    apply StronglySorted_app in Hs as (Hlt & _ & [_ Hgt]%StronglySorted_inv).
    rewrite (lt_ok (c := c) _ (take i E) (e :: drop (S i) E)); try done.
    + rewrite bind_Ret. destruct i as [|i]; cbn [take last].
      { simpl. eexists. split; [done|]. by exists E. }
      destruct (lookup_lt_is_Some_2 E i) as [d Hd]; [apply lookup_lt_Some in He; lia|].
      rewrite (take_S_r _ _ _ Hd), last_snoc. cbn [fmap option_fmap option_map].
      rewrite (deref_at _ E i d), bind_Ret by done. cbn [nkey node_of].
      rewrite bool_decide_false.
      * eexists. split; [done|]. exists E. split_and!; [done..|]. by exists d.
      * pose proof (inv_keys _ _ I) as Hkk. rewrite Forall_lookup in Hkk. by destruct (Hkk _ _ Hd).
    + by rewrite HE.
    + rewrite Forall_forall in *. intros x Hx. split; [by apply Hk1|]. apply Hlt; [done|]. by left.
    + rewrite Forall_forall in *. intros x [->|Hx]%elem_of_cons; split_and!; try done; try lia.
      * by rewrite ord_refl.
      * by apply Hk2.
      * rewrite (ord_antisym (e_key e)). specialize (Hgt x Hx). unfold ent_lt in Hgt. by rewrite Hgt.
      * by apply Hh2.
Qed.

End iter.

(** ** Theorems *)

Section theorems.
Context `{Rng G} {c : Cmp} {OC : OrderedCmp c}.

(** The abstract map: a list sorted by key. *)
Fixpoint kv_insert (key val : bytes) (l : list entry) : list entry :=
  match l with
  | [] => [(key, val)]
  | e :: l => if is_lt (ord c e.1 key) then e :: kv_insert key val l else (key, val) :: e :: l
  end.

Lemma kv_insert_app key val E1 E2 :
  Forall (below (c := c) key) E1 → Forall (not_below (c := c) key) E2 →
  kv_insert key val (kv <$> E1 ++ E2) = (kv <$> E1) ++ (key, val) :: (kv <$> E2).
Proof.
  intros H1 H2. induction E1 as [|e E1 IH]; simpl.
  - destruct E2 as [|e E2]; [done|]. apply Forall_cons in H2 as [(_ & He & _) _]. simpl.
    by destruct (ord c (e_key e) key).
  - apply Forall_cons in H1 as [[_ He] H1]. rewrite He. simpl. f_equal. exact (IH H1).
Qed.

Lemma insert_holds (m : InnerSkipMap G) l key val :
  holds (c := c) m l → key_ok c key → key ≠ [] → Forall (λ e : entry, ord c e.1 key ≠ Eq) l →
  ∃ m', skipmap_insert key val m = Ret m' ∧ holds (c := c) m' (kv_insert key val l).
Proof.
  intros (E & I & <-) Hk Hne Hneq.
  destruct (cut E key (inv_heights _ _ I) (inv_sorted _ _ I) (inv_keys _ _ I)) as (E1 & E2 & -> & H1 & H2).
  apply (Forall_fmap kv (λ e : entry, ord c e.1 key ≠ Eq)) in Hneq. apply Forall_app in Hneq as [_ Hneq].
  destruct (insert_ok m E1 E2 key val I Hk Hne H1 H2 Hneq) as (m' & p & hgt & -> & I' & _).
  exists m'. split; [done|]. exists (E1 ++ mkEnt p hgt key val :: E2). split; [done|].
  rewrite kv_insert_app by done. by rewrite fmap_app.
Qed.

(** C18: inserting a new non-empty key into a skip map, whatever heights the random generator
    gave its nodes and gives the new one, terminates, keeps the pointer structure well formed
    and puts the pair at its place in the sorted list the map represents. *)
Theorem skipmap_insert_refines (m : InnerSkipMap G) l key val :
  holds (c := c) m l → key_ok c key → key ≠ [] → Forall (λ e : entry, ord c e.1 key ≠ Eq) l →
  ∃ m', skipmap_insert key val m = Ret m' ∧ holds (c := c) m' (kv_insert key val l).
Proof. apply insert_holds. Qed.

(** Inserting a key that compares equal to one of the map hits the assertion "No
    duplicates allowed" on every descent path. *)
Theorem skipmap_insert_duplicate_panics (m : InnerSkipMap G) l key val :
  holds (c := c) m l → key_ok c key → Exists (λ e : entry, ord c e.1 key = Eq) l →
  skipmap_insert key val m = Panic.
Proof.
  intros (E & I & <-) Hk Hex.
  destruct (cut E key (inv_heights _ _ I) (inv_sorted _ _ I) (inv_keys _ _ I)) as (E1 & E2 & -> & H1 & H2).
  apply Exists_exists in Hex as (? & (x & -> & Hx)%list_elem_of_fmap & Heq). cbn in Heq.
  apply elem_of_app in Hx as [Hx|Hx].
  { rewrite Forall_forall in H1. destruct (H1 x Hx) as [_ Hlt]. congruence. }
  apply list_elem_of_split in Hx as (A & B & ->).
  assert (A = []) as -> by (eapply (equal_is_first (c := c) key A x B); [|done..];
    by pose proof (inv_sorted _ _ I) as (_ & _ & Hs)%StronglySorted_app).
  unfold skipmap_insert. destruct (bool_decide_reflect (key = [])) as [|Hne]; [done|]. cbn [negb massert mbind exec_bind].
  pose proof (random_height_range (rand m)) as Hh. destruct (random_height (rand m)) as [nh g].
  pose proof (inv_len _ _ I) as Hlen. rewrite length_app in Hlen. rewrite (inv_cmp _ _ I).
  by rewrite (insert_find_dup (c := c) (heap m) _ key (inv_rep _ _ I) Hk (descent_fuel m) nh [] (head_ent (head m)) E1 x B
    (MAX_HEIGHT - 1) (replicate nh (Some (head m))) eq_refl ltac:(simpl; unfold MAX_HEIGHT; lia) H1 H2 Heq
    ltac:(by rewrite length_replicate) ltac:(unfold descent_fuel, MAX_HEIGHT; lia)
    : insert_find _ _ _ _ _ _ (head m) _ = Panic).
Qed.

(** C20: a map and its iterator: iterating from [iter()] yields the pairs of the map in key
    order, and [seek] stops at the first pair whose key is not below the sought one. *)
Theorem skipmap_iterates (m : InnerSkipMap G) l key :
  holds (c := c) m l → key_ok c key →
  (∃ it', collect (S (length l)) (skipmap_iter m) = Ret (it', l))
  ∧ (∃ it', it_seek key (skipmap_iter m) = Ret it'
       ∧ it_current it' = Ret (l !! seek_index c key l)).
Proof.
  intros (E & I & <-) Hk.
  assert (view (c := c) (skipmap_iter m) (kv <$> E) Start) as V by (by exists E). split.
  - destruct (collect_all (c := c) _ _ (S (length (kv <$> E))) V) as (it' & -> & _); [lia|by eexists].
  - destruct (seek_law (c := c) _ _ _ key V Hk) as (it' & -> & V'). exists it'. split; [done|].
    rewrite (current_law (c := c) _ _ _ V'). unfold pos_seek, at_or_off. case_decide as Hd; [done|].
    simpl. by rewrite lookup_ge_None_2 by lia.
Qed.

(** C23: an iterator shares the map by reference; an insertion does not move it: it stays on
    the same entry, and [advance] and [prev] go on from there in the new list. *)
Theorem skipmap_insert_keeps_iterators (it : SkipMapIter (G := G)) l i e key val m' :
  view (c := c) it l (At i) → l !! i = Some e →
  key_ok c key → key ≠ [] → Forall (λ e : entry, ord c e.1 key ≠ Eq) l →
  skipmap_insert key val (it_map it) = Ret m' →
  ∃ i', view (c := c) (iter_share m' it) (kv_insert key val l) (At i') ∧ kv_insert key val l !! i' = Some e.
Proof.
  intros (E & I & <- & x & Hx & Ha) Hi Hk Hne Hneq Hins. rewrite list_lookup_fmap, Hx in Hi. simplify_eq/=.
  destruct (cut E key (inv_heights _ _ I) (inv_sorted _ _ I) (inv_keys _ _ I)) as (E1 & E2 & -> & H1 & H2).
  apply (Forall_fmap kv (λ e : entry, ord c e.1 key ≠ Eq)) in Hneq. apply Forall_app in Hneq as [_ Hneq].
  destruct (insert_ok _ E1 E2 key val I Hk Hne H1 H2 Hneq) as (m1 & p & hgt & Hins' & I' & _).
  assert (m1 = m') as -> by congruence.
  rewrite kv_insert_app by done. change ((key, val)) with (kv (mkEnt p hgt key val)).
  rewrite <- fmap_cons, <- fmap_app.
  assert (∃ i', (E1 ++ mkEnt p hgt key val :: E2) !! i' = Some x) as [i' Hi'].
  { apply list_elem_of_lookup. apply list_elem_of_lookup_2 in Hx. set_solver. }
  exists i'. split; [|by rewrite list_lookup_fmap, Hi']. eexists. split_and!; [done..|]. by exists x.
Qed.

End theorems.

(** ** A concrete generator: the heights 1, 2, 1, 2, ... *)

Module TestRng.
#[export] Instance alternating : Rng Z := {
  seed_from_u64 _ := 0;
  next_u32 n := (if n mod 3 =? 0 then 1 else n, n + 1);
}.

Definition abc : InnerSkipMap Z :=
  match skipmap_insert [99] [3] (SkipMap_new DefaultCmp) ≫= skipmap_insert [97] [1] with
  | Ret m => m | _ => SkipMap_new DefaultCmp
  end.

Lemma abc_holds : holds (c := DefaultCmp) abc [([97], [1]); ([99], [3])].
Proof.
  destruct (insert_holds (c := DefaultCmp) (SkipMap_new DefaultCmp) [] [99] [3]) as (m1 & E1 & H1);
    [exists []; split; [apply sm_new_inv|done]|done..|].
  destruct (insert_holds (c := DefaultCmp) m1 _ [97] [1] H1) as (m2 & E2 & H2); [done|done|by repeat constructor|].
  unfold abc. rewrite E1, bind_Ret, E2. exact H2.
Qed.
End TestRng.
Import TestRng.

Lemma skipmap_insert_refines_witness :
  ∃ m', skipmap_insert [98] [2] TestRng.abc = Ret m'
    ∧ holds (c := DefaultCmp) m' [([97], [1]); ([98], [2]); ([99], [3])].
Proof.
  exact (skipmap_insert_refines (c := DefaultCmp) TestRng.abc _ [98] [2] TestRng.abc_holds I
    ltac:(done) ltac:(by repeat constructor)).
Defined.

Lemma skipmap_insert_duplicate_panics_witness : skipmap_insert [99] [7] TestRng.abc = Panic.
Proof.
  exact (skipmap_insert_duplicate_panics (c := DefaultCmp) TestRng.abc _ [99] [7] TestRng.abc_holds I
    ltac:(by apply Exists_cons_tl, Exists_cons_hd)).
Defined.

Lemma skipmap_iterates_witness :
  (∃ it', collect 3 (skipmap_iter TestRng.abc) = Ret (it', [([97], [1]); ([99], [3])]))
  ∧ (∃ it', it_seek [98] (skipmap_iter TestRng.abc) = Ret it'
       ∧ it_current it' = Ret (Some ([99], [3]))).
Proof. exact (skipmap_iterates (c := DefaultCmp) TestRng.abc _ [98] TestRng.abc_holds I). Defined.

Lemma skipmap_insert_keeps_iterators_witness :
  ∃ it m' i', skipmap_insert [98] [2] TestRng.abc = Ret m'
    ∧ view (c := DefaultCmp) (iter_share m' it) [([97], [1]); ([98], [2]); ([99], [3])] (At i')
    ∧ it_current (iter_share m' it) = Ret (Some ([99], [3])).
Proof.
  assert (view (c := DefaultCmp) (skipmap_iter TestRng.abc) [([97], [1]); ([99], [3])] Start) as V
    by (destruct TestRng.abc_holds as (E & ? & ?); by exists E).
  destruct (seek_law (c := DefaultCmp) _ _ _ [99] V I) as (it & Hs & V').
  destruct (insert_holds (c := DefaultCmp) TestRng.abc _ [98] [2] TestRng.abc_holds I ltac:(done)
    ltac:(by repeat constructor)) as (m' & Hm' & _).
  assert (it_map it = TestRng.abc) as Hit by (vm_compute in Hs; injection Hs as <-; reflexivity).
  destruct (skipmap_insert_keeps_iterators (c := DefaultCmp) it _ 1 ([99], [3]) [98] [2] m' V')
    as (i' & V2 & Hi'); [done..|by repeat constructor|by rewrite Hit|].
  exists it, m', i'. split_and!; [done|exact V2|]. rewrite (current_law (c := DefaultCmp) _ _ _ V2). cbn [entry_at].
  by rewrite Hi'.
Defined.
