(* ===== verification/MemTable.v ===== *)
(** * MemTable: [src/memtable.rs]

    The memtable is a skip map whose keys hold user key, tag and value.  Its iterator speaks
    internal keys. *)

From S2P Require Import Prelude Encoding Types Cmp Iterator KeyTypes SkipMap.

Record MemTable (G : Type) := mkMemTable { mt_map : InnerSkipMap G }.
Arguments mkMemTable {G}.
Arguments mt_map {G}.

(** [s.swap(i, j)] *)
Definition swap (s : bytes) (i j : Z) : exec bytes :=
  a ← index s i; b ← index s j; s ← set_index s i b; set_index s j a.

(** [for i in mid..s.len()], [k] iterations from [i] on. *)
Fixpoint shift_loop (k : nat) (s : bytes) (i mid : Z) : exec bytes :=
  match k with
  | O => Ret s
  | S k => j ← usub i mid; s ← swap s i j; shift_loop k s (i + 1) mid
  end.
Definition shift_left (s : bytes) (mid : Z) : exec bytes :=
  s ← shift_loop (Z.to_nat (zlen s - mid)) s mid mid;
  newlen ← usub (zlen s) mid;
  Ret (vec_truncate newlen s).

Section defs.
Context {IE : IntegerEncoding} `{Rng G}.

Definition MemTable_new_raw (c : Cmp) : MemTable G := {| mt_map := SkipMap_new c |}.
Definition MemTable_new (c : Cmp) : MemTable G := MemTable_new_raw (MemtableKeyCmp c).

Definition memtable_len (mt : MemTable G) : Z := sm_len (mt_map mt).
Definition approx_mem_usage (mt : MemTable G) : Z := approx_mem (mt_map mt).

Definition memtable_add (seq : Z) (t : ValueType) (key value : bytes) (mt : MemTable G) : exec (MemTable G) :=
  k ← build_memtable_key key value t seq;
  m ← skipmap_insert k [] (mt_map mt);
  Ret {| mt_map := m |}.

Definition memtable_get (key : LookupKey) (mt : MemTable G) : exec (option bytes * bool) :=
  iter ← it_seek (memtable_key key) (skipmap_iter (mt_map mt));
  kv ← current_key_val iter;
  match kv with
  | Some (foundkey, _) =>
      '(fkeylen, fkeyoff, tag, vallen, valoff) ← parse_memtable_key foundkey;
      u ← user_key key;
      fk ← slice foundkey fkeyoff (fkeyoff + fkeylen);
      if bool_decide (u = fk) then
        if Z.land tag 0xff =? vt_u64 TypeValue then
          v ← slice foundkey valoff (valoff + vallen); Ret (Some v, false)
        else Ret (None, true)
      else Ret (None, false)
  | None => Ret (None, false)
  end.

Record MemtableIterator := mkMemIter { skipmapiter : SkipMapIter (G := G) }.

Definition memtable_iter (mt : MemTable G) : MemtableIterator :=
  {| skipmapiter := skipmap_iter (mt_map mt) |}.

Definition mem_advance (it : MemtableIterator) : exec (MemtableIterator * bool) :=
  '(s, b) ← it_advance (skipmapiter it);
  if negb b then Ret (mkMemIter s, false)
  else v ← it_valid s; Ret (mkMemIter s, v).

(** The loop of [prev]: every turn moves back by one entry. *)
Fixpoint mem_prev_loop (fuel : nat) (s : SkipMapIter (G := G)) : exec (MemtableIterator * bool) :=
  match fuel with
  | O => NoFuel
  | S fuel =>
      '(s, b) ← it_prev s;
      if negb b then Ret (mkMemIter s, false)
      else
        kv ← it_current s;
        match kv with
        | Some (key, _) =>
            '(_, _, tag, _, _) ← parse_memtable_key key;
            if Z.land tag 0xff =? vt_u64 TypeValue then Ret (mkMemIter s, true)
            else mem_prev_loop fuel s
        | None => Ret (mkMemIter s, false)
        end
  end.
Definition mem_prev (it : MemtableIterator) : exec (MemtableIterator * bool) :=
  mem_prev_loop (Z.to_nat (sm_len (it_map (skipmapiter it))) + 1) (skipmapiter it).

Definition mem_current (it : MemtableIterator) : exec (option (bytes * bytes)) :=
  b ← it_valid (skipmapiter it);
  if negb b then Ret None
  else
    kv ← it_current (skipmapiter it);
    match kv with
    | Some (key, _) =>
        '(keylen, keyoff, _, vallen, valoff) ← parse_memtable_key key;
        val ← slice key valoff (valoff + vallen);
        key ← shift_left key keyoff;
        Ret (Some (vec_truncate (keylen + U64_SPACE) key, val))
    | None => Panic
    end.

Definition mem_seek (to : bytes) (it : MemtableIterator) : exec MemtableIterator :=
  '(_, seq, ukey) ← parse_internal_key to;
  lk ← LookupKey_new ukey seq;
  s ← it_seek (memtable_key lk) (skipmapiter it);
  Ret (mkMemIter s).

#[export] Instance MemtableIterator_iterator : LdbIterator MemtableIterator := {
  it_advance := mem_advance;
  it_current := mem_current;
  it_seek := mem_seek;
  it_reset it := s ← it_reset (skipmapiter it); Ret (mkMemIter s);
  it_valid it := it_valid (skipmapiter it);
  it_prev := mem_prev;
}.

End defs.

(** Seeking does not touch the map. *)
Lemma mem_seek_map `{IntegerEncoding} `{Rng G} to (it it' : MemtableIterator (G := G)) :
  mem_seek to it = Ret it' → it_map (skipmapiter it') = it_map (skipmapiter it).
Proof.
  unfold mem_seek. intros Hs. exec_inv Hs. destruct r as [[t s] k]. exec_inv Hk. exec_inv Hk0.
  injection Hk as <-. cbn in Hm1. unfold skip_seek in Hm1. exec_inv Hm1.
  by destruct r1; injection Hk as <-.
Qed.

(** ** [shift_left] *)

Lemma swap_ok s i j a b :
  s !! i = Some a → s !! j = Some b → swap s (Z.of_nat i) (Z.of_nat j) = Ret (<[j := a]> (<[i := b]> s)).
Proof.
  intros Hi Hj. unfold swap. rewrite (index_lookup _ _ _ Hi), bind_Ret, (index_lookup _ _ _ Hj), bind_Ret.
  apply lookup_lt_Some in Hi, Hj. unfold set_index. ztest. cbn [andb mbind exec_bind].
  rewrite length_insert. ztest. by rewrite !Nat2Z.id.
Qed.

Lemma shift_loop_ok mid k : ∀ s i,
  (mid ≤ i)%nat → (i + k = length s)%nat → (0 < mid)%nat →
  ∃ s', shift_loop k s (Z.of_nat i) (Z.of_nat mid) = Ret s' ∧ length s' = length s
    ∧ take (i - mid + k) s' = take (i - mid) s ++ drop i s.
Proof.
  induction k as [|k IH]; intros s i Hi Hk Hm.
  - exists s. rewrite drop_ge, app_nil_r, Nat.add_0_r by lia. done.
  - destruct (lookup_lt_is_Some_2 s i) as [a Ha]; [lia|].
    destruct (lookup_lt_is_Some_2 s (i - mid)) as [b Hb]; [lia|].
    cbn [shift_loop]. rewrite usub_Ret, bind_Ret by lia.
    replace (Z.of_nat i - Z.of_nat mid) with (Z.of_nat (i - mid)) by lia.
    rewrite (swap_ok _ _ _ _ _ Ha Hb), bind_Ret. replace (Z.of_nat i + 1) with (Z.of_nat (S i)) by lia.
    destruct (IH (<[(i - mid)%nat := a]> (<[i := b]> s)) (S i)) as (s' & -> & Hl & Ht);
      [lia|rewrite !length_insert; lia|done|].
    exists s'. rewrite Hl, !length_insert. split_and!; [done..|].
    replace (i - mid + S k)%nat with (S i - mid + k)%nat by lia. rewrite Ht.
    rewrite drop_insert_lt, drop_insert_lt by lia. replace (S i - mid)%nat with (S (i - mid)) by lia.
    rewrite (drop_S s a i Ha). rewrite (take_S_r _ _ a).
    + rewrite take_insert_ge, take_insert_ge by lia. by rewrite <- app_assoc.
    + apply list_lookup_insert_eq. rewrite length_insert. lia.
Qed.

(** The swapping loop drops the first [mid] bytes. *)
Lemma shift_left_drop s mid : (0 < mid ≤ length s)%nat → shift_left s (Z.of_nat mid) = Ret (drop mid s).
Proof.
  intros Hm. unfold shift_left. replace (Z.to_nat (zlen s - Z.of_nat mid)) with (length s - mid)%nat by lia.
  destruct (shift_loop_ok mid (length s - mid) s mid) as (s' & -> & Hl & Ht); [lia..|].
  rewrite bind_Ret, usub_Ret, bind_Ret by lia. unfold vec_truncate.
  replace (Z.to_nat (zlen s' - Z.of_nat mid)) with (mid - mid + (length s - mid))%nat by lia.
  rewrite Ht. by rewrite Nat.sub_diag.
Qed.

(** ** The entries of a memtable *)

Record mentry := mkMEntry { m_key : bytes; m_seq : Z; m_type : ValueType; m_val : bytes }.

Section spec.
Context `{IEL : IntegerEncodingLaws} `{RG : Rng G} {u : Cmp} {UO : OrderedCmp u}.
Implicit Types (mt : MemTable G) (e : mentry).

Definition stored e : entry := (mkey (m_key e) (m_seq e) (m_type e) (m_val e), []).
Definition shown e : entry := (ikey (m_key e) (m_seq e) (m_type e), m_val e).

Definition mentry_ok e : Prop :=
  is_u 56 (m_seq e) ∧ key_ok u (m_key e) ∧ zlen (mkey (m_key e) (m_seq e) (m_type e) (m_val e)) < 2 ^ 63.

(** User keys ascending, sequence numbers descending. *)
Definition mentry_ord (k1 : bytes) (s1 : Z) (k2 : bytes) (s2 : Z) : comparison :=
  match ord u k1 k2 with Eq => s2 ?= s1 | o => o end.

Definition mt_holds mt (L : list mentry) : Prop :=
  holds (c := MemtableKeyCmp u) (mt_map mt) (stored <$> L) ∧ Forall mentry_ok L.

Lemma mentry_len e : mentry_ok e →
  zlen (m_key e) + 8 < 2 ^ 63 ∧ is_u 64 (zlen (m_key e) + 8) ∧ is_u 64 (zlen (m_val e))
  ∧ zlen (mkey (m_key e) (m_seq e) (m_type e) (m_val e)) < 2 ^ 64.
Proof.
  intros (_ & _ & Hl). unfold mkey in *. rewrite !length_app, length_ikey in *. unfold is_u. lia.
Qed.

(** The memtable keys of entries and lookups, as the comparator sees them. *)
Lemma ord_prefix k1 s1 t1 r1 k2 s2 t2 r2 :
  is_u 56 s1 → is_u 56 s2 → is_u 64 (zlen k1 + 8) → is_u 64 (zlen k2 + 8) →
  ord (MemtableKeyCmp u) (encode_var (zlen k1 + 8) ++ ikey k1 s1 t1 ++ r1)
                         (encode_var (zlen k2 + 8) ++ ikey k2 s2 t2 ++ r2) = mentry_ord k1 s1 k2 s2.
Proof.
  intros. cbn [ord MemtableKeyCmp_ordered]. rewrite !mkey_view, ord_internal_ikey by done. done.
Qed.

Lemma ord_stored e1 e2 :
  mentry_ok e1 → mentry_ok e2 →
  ord (MemtableKeyCmp u) (stored e1).1 (stored e2).1 = mentry_ord (m_key e1) (m_seq e1) (m_key e2) (m_seq e2).
Proof.
  intros H1 H2. destruct (mentry_len _ H1) as (_ & ? & _), (mentry_len _ H2) as (_ & ? & _).
  destruct H1, H2. by apply ord_prefix.
Qed.

Lemma stored_key_ok e : mentry_ok e → key_ok (MemtableKeyCmp u) (stored e).1 ∧ (stored e).1 ≠ [].
Proof.
  intros He. destruct (mentry_len _ He) as (_ & Hk & _ & Hl), He as (_ & Hu & _). split.
  - by apply mkey_wf.
  - cbn. unfold mkey. intros [E _]%app_eq_nil. pose proof (encode_var_pos _ Hk). rewrite E in *. simpl in *. lia.
Qed.

(** A lookup key, and how entries compare with it. *)
Lemma lookup_key_facts k s :
  is_u 56 s → key_ok u k → zlen k + 8 < 2 ^ 63 →
  ∃ lk, LookupKey_new k s = Ret lk ∧ user_key lk = Ret k ∧ key_ok (MemtableKeyCmp u) (memtable_key lk)
    ∧ ∀ e, mentry_ok e → ord (MemtableKeyCmp u) (stored e).1 (memtable_key lk) = mentry_ord (m_key e) (m_seq e) k s.
Proof.
  intros Hs Hk Hl. assert (is_u 64 (zlen k + 8)) as Hkl by (unfold is_u; lia).
  destruct (lookup_key_spec k s TypeValue Hkl) as (lk & Hlk & Hm & _ & Hu).
  exists lk. split_and!; [done..| |].
  - rewrite Hm, <- (app_nil_r (ikey k s TypeValue)). apply mkey_wf; [|done].
    pose proof (length_encode_var _ Hkl). pose proof (required_space_bound _ Hkl).
    rewrite !length_app, length_ikey. simpl. lia.
  - intros e He. rewrite Hm, <- (app_nil_r (ikey k s TypeValue)). destruct (mentry_len _ He) as (_ & ? & _).
    destruct He. by apply ord_prefix.
Qed.

Lemma holds_sorted (m : InnerSkipMap G) (c : Cmp) {OC : OrderedCmp c} l :
  holds (c := c) m l → StronglySorted (key_lt (c := c)) l.
Proof.
  intros (E & I & <-). pose proof (inv_sorted _ _ I) as Hs. clear I.
  induction Hs as [|e E Hs IH Hlt]; simpl; constructor; [done|]. rewrite Forall_fmap.
  by eapply Forall_impl; [exact Hlt|].
Qed.

(** ** [add] *)

Fixpoint minsert e (L : list mentry) : list mentry :=
  match L with
  | [] => [e]
  | x :: L => if is_lt (mentry_ord (m_key x) (m_seq x) (m_key e) (m_seq e)) then x :: minsert e L else e :: x :: L
  end.

Lemma minsert_perm e L : minsert e L ≡ₚ e :: L.
Proof.
  induction L as [|x L IH]; simpl; [done|]. destruct (is_lt _); [|done]. rewrite IH. constructor.
Qed.

Lemma kv_insert_stored e L :
  mentry_ok e → Forall mentry_ok L →
  kv_insert (c := MemtableKeyCmp u) (stored e).1 [] (stored <$> L) = stored <$> minsert e L.
Proof.
  intros He HL. induction HL as [|x L Hx HL IH]; cbn [minsert]; [done|]. rewrite fmap_cons.
  cbn [kv_insert]. rewrite ord_stored by done. destruct (is_lt _); [|done]. by rewrite IH, fmap_cons.
Qed.

Lemma memtable_add_ok mt L e :
  mt_holds mt L → mentry_ok e →
  Forall (λ x, ¬ (ord u (m_key x) (m_key e) = Eq ∧ m_seq x = m_seq e)) L →
  ∃ mt', memtable_add (m_seq e) (m_type e) (m_key e) (m_val e) mt = Ret mt' ∧ mt_holds mt' (minsert e L).
Proof.
  intros [Hh HL] He Hnew. destruct (mentry_len _ He) as (_ & Hk & Hv & _). unfold memtable_add.
  rewrite build_memtable_key_spec, bind_Ret by done. destruct (stored_key_ok e He) as [Hok Hne].
  destruct (insert_holds (c := MemtableKeyCmp u) _ _ _ [] Hh Hok Hne) as (m' & Hins & Hh').
  { apply (Forall_fmap stored (λ y : entry, ord _ y.1 _ ≠ Eq)). rewrite Forall_forall in *. intros x Hx Heq. cbn in Heq.
    apply (Hnew x Hx). change (ord (MemtableKeyCmp u) (stored x).1 (stored e).1 = Eq) in Heq.
    rewrite ord_stored in Heq by auto. unfold mentry_ord in Heq.
    destruct (ord u _ _); try done. apply Z.compare_eq in Heq. by split. }
  cbn [stored fst] in Hins. rewrite Hins, bind_Ret.
  rewrite kv_insert_stored in Hh' by done.
  exists {| mt_map := m' |}. split; [done|]. split; [done|]. rewrite minsert_perm. by constructor.
Qed.

(** ** [get] *)

Definition visible (k : bytes) (s : Z) e : Prop := m_key e = k ∧ m_seq e ≤ s.

(** What a lookup promises: the newest entry for the key that is not newer than the sequence
    number, if there is one. *)
Definition get_spec (k : bytes) (s : Z) (A : list mentry) (r : option bytes * bool) : Prop :=
  ((∀ e, e ∈ A → ¬ visible k s e) ∧ r = (None, false))
  ∨ (∃ e, e ∈ A ∧ visible k s e ∧ (∀ e', e' ∈ A → visible k s e' → m_seq e' ≤ m_seq e)
       ∧ r = match m_type e with TypeValue => (Some (m_val e), false) | TypeDeletion => (None, true) end).

Lemma get_spec_perm k s A B r : A ≡ₚ B → get_spec k s A r → get_spec k s B r.
Proof.
  intros HP [[H1 H2]|(e & H1 & H2 & H3 & H4)]; [left|right; exists e]; setoid_rewrite <- HP; auto.
Qed.

Lemma visible_not_below k s e : visible k s e → mentry_ord (m_key e) (m_seq e) k s ≠ Lt.
Proof. intros [-> Hs]. unfold mentry_ord. rewrite ord_refl. rewrite Z.compare_lt_iff. lia. Qed.

Lemma tag_type s t : is_u 56 s → (Z.land (make_tag s t) 0xff =? vt_u64 TypeValue) = bool_decide (t = TypeValue).
Proof.
  intros Hs. rewrite make_tag_val by done. change 0xff with (Z.ones 8). rewrite Z.land_ones by lia.
  change (2 ^ 8) with 256. rewrite Z.add_comm, Z.mod_add by lia. by destruct t.
Qed.

(** What the skip map's [seek] finds, in terms of entries. *)
Lemma mt_seek_ok mt L k s lk :
  mt_holds mt L → key_ok (MemtableKeyCmp u) (memtable_key lk) →
  (∀ e, mentry_ok e → ord (MemtableKeyCmp u) (stored e).1 (memtable_key lk) = mentry_ord (m_key e) (m_seq e) k s) →
  ∃ it n, it_seek (memtable_key lk) (skipmap_iter (mt_map mt)) = Ret it
    ∧ it_current it = Ret (stored <$> L !! n)
    ∧ (∀ i e, L !! i = Some e → (i < n)%nat → mentry_ord (m_key e) (m_seq e) k s = Lt)
    ∧ (∀ e, L !! n = Some e → mentry_ord (m_key e) (m_seq e) k s ≠ Lt)
    ∧ (∀ i e e', L !! n = Some e → L !! i = Some e' → (n < i)%nat →
         mentry_ord (m_key e) (m_seq e) (m_key e') (m_seq e') = Lt).
Proof.
  intros [(E & I & HE) HL] Hk Hord. rewrite Forall_lookup in HL.
  assert (view (c := MemtableKeyCmp u) (skipmap_iter (mt_map mt)) (stored <$> L) Start) as V by (by exists E).
  destruct (seek_law (c := MemtableKeyCmp u) _ _ _ _ V Hk) as (it & Hs & V').
  set (n := seek_index (MemtableKeyCmp u) (memtable_key lk) (stored <$> L)) in *.
  assert (∀ i e, L !! i = Some e → (stored <$> L) !! i = Some (stored e)) as Hst
    by (intros i e He; by rewrite list_lookup_fmap, He).
  exists it, n. split_and!; [done| | | |].
  - rewrite (current_law (c := MemtableKeyCmp u) _ _ _ V'). unfold pos_seek, at_or_off. fold n.
    case_decide as Hd; cbn [entry_at]; [by rewrite list_lookup_fmap|].
    rewrite length_fmap in Hd. by rewrite lookup_ge_None_2 by lia.
  - intros i e He Hi. rewrite <- (Hord e) by eauto. by eapply seek_index_below; [apply Hst|].
  - intros e He. rewrite <- (Hord e) by eauto. apply (seek_index_not_below _ (stored <$> L)). by apply Hst.
  - intros i e e' He He' Hi. rewrite <- ord_stored by eauto.
    assert (StronglySorted (key_lt (c := MemtableKeyCmp u)) (stored <$> L)) as Hsrt by (eapply holds_sorted; by exists E).
    by apply (sorted_lookup_lt _ _ _ _ _ _ Hsrt (Hst _ _ He) (Hst _ _ He')).
Qed.

(** The answer of an entry to a lookup of its key. *)
Definition answer_of e : option bytes * bool := match m_type e with TypeValue => (Some (m_val e), false) | TypeDeletion => (None, true) end.

(** The first of the sorted entries that is not below the key answers the lookup. *)
Lemma get_spec_at `{UE : !ExactCmp u} L k s n :
  (∀ i e, L !! i = Some e → (i < n)%nat → mentry_ord (m_key e) (m_seq e) k s = Lt) →
  (∀ e, L !! n = Some e → mentry_ord (m_key e) (m_seq e) k s ≠ Lt) →
  (∀ i e e', L !! n = Some e → L !! i = Some e' → (n < i)%nat → mentry_ord (m_key e) (m_seq e) (m_key e') (m_seq e') = Lt) →
  get_spec k s L (match L !! n with Some e => if decide (k = m_key e) then answer_of e else (None, false) | None => (None, false) end).
Proof.
  intros Hbefore Hat Hafter. destruct (L !! n) as [e|] eqn:He.
  - specialize (Hat e eq_refl). destruct (decide (k = m_key e)) as [->|Hne].
    + right. exists e. unfold mentry_ord in Hat. rewrite ord_refl, Z.compare_ge_iff in Hat.
      split_and!; [by eapply list_elem_of_lookup_2|by split; [|lia]| |done].
      intros e' [i Hi]%list_elem_of_lookup Hv. destruct (lt_eq_lt_dec i n) as [[Hin| ->]|Hin].
      * by destruct (visible_not_below _ _ _ Hv (Hbefore _ _ Hi Hin)).
      * simplify_eq. lia.
      * pose proof (Hafter i e e' eq_refl Hi Hin) as Ho. destruct Hv as [Hv _]. unfold mentry_ord in Ho.
        rewrite Hv, ord_refl, Z.compare_lt_iff in Ho. lia.
    + left. split; [|done]. intros e' [i Hi]%list_elem_of_lookup Hv. destruct (lt_eq_lt_dec i n) as [[Hin| ->]|Hin].
      * by destruct (visible_not_below _ _ _ Hv (Hbefore _ _ Hi Hin)).
      * simplify_eq. destruct Hv. congruence.
      * pose proof (Hafter i e e' eq_refl Hi Hin) as Ho. destruct Hv as [Hv _]. unfold mentry_ord in Ho, Hat.
        rewrite Hv in Ho. destruct (ord u (m_key e) k) eqn:E; [|done|done]. apply ord_exact in E. congruence.
  - left. split; [|done]. intros e [i Hi]%list_elem_of_lookup Hv. apply (visible_not_below _ _ _ Hv). apply (Hbefore i e Hi).
    apply lookup_lt_Some in Hi. apply lookup_ge_None in He. lia.
Qed.

Lemma memtable_get_ok `{UE : !ExactCmp u} mt L k s :
  mt_holds mt L → is_u 56 s → key_ok u k → zlen k + 8 < 2 ^ 63 →
  ∃ r, (lk ← LookupKey_new k s; memtable_get lk mt) = Ret r ∧ get_spec k s L r.
Proof.
  intros Hmt Hs Hk Hl. destruct (lookup_key_facts k s Hs Hk Hl) as (lk & -> & Hu & Hok & Hord).
  rewrite bind_Ret. destruct (mt_seek_ok mt L k s lk Hmt Hok Hord) as (it & n & Hseek & Hcur & Hbefore & Hat & Hafter).
  pose proof (get_spec_at L k s n Hbefore Hat Hafter) as Hg. unfold memtable_get, current_key_val. rewrite Hseek, bind_Ret, Hcur, bind_Ret.
  destruct Hmt as [_ HL]. rewrite Forall_lookup in HL. eexists. split; [|exact Hg].
  destruct (L !! n) as [e|] eqn:He; cbn [fmap option_fmap option_map]; [|done].
  destruct (mentry_len e (HL _ _ He)) as (_ & _ & _ & Hl64). pose proof (HL _ _ He) as (Hs56 & _).
  destruct (parse_memtable_key_mkey (m_key e) (m_val e) (m_type e) (m_seq e) Hs56 Hl64) as (P1 & P2 & P3 & _).
  cbn [stored]. rewrite P1, bind_Ret, Hu, bind_Ret, P2, bind_Ret. destruct (decide (k = m_key e)) as [->|Hne]; [|by rewrite bool_decide_false by done].
  rewrite bool_decide_true, tag_type by done. unfold answer_of. destruct (m_type e); [done|cbn; by rewrite P3].
Qed.

End spec.

(** ** The iterator *)

Section iter.
Context `{IEL : IntegerEncodingLaws} `{RG : Rng G} {u : Cmp} {UO : OrderedCmp u}.

Definition mem_view (it : MemtableIterator (G := G)) (l : list entry) (p : pos) : Prop :=
  ∃ L, l = shown <$> L ∧ Forall (mentry_ok (u := u)) L
    ∧ view (c := MemtableKeyCmp u) (skipmapiter it) (stored <$> L) p.

Lemma at_or_off_stored L i : at_or_off (stored <$> L) i = at_or_off (shown <$> L) i.
Proof. unfold at_or_off. by rewrite !length_fmap. Qed.

Lemma pos_next_stored L p : pos_next (stored <$> L) p = pos_next (shown <$> L) p.
Proof. destruct p; cbn [pos_next]; rewrite ?at_or_off_stored; done. Qed.

Lemma seek_index_stored L lk to :
  is_u 56 (seq_of to) → Forall (mentry_ok (u := u)) L →
  (∀ e, mentry_ok (u := u) e → ord (MemtableKeyCmp u) (stored e).1 lk = mentry_ord (u := u) (m_key e) (m_seq e) (ukey_of to) (seq_of to)) →
  seek_index (MemtableKeyCmp u) lk (stored <$> L) = seek_index (InternalKeyCmp u) to (shown <$> L).
Proof.
  intros Hs HL Hord. induction HL as [|e L He HL IH]; [done|].
  cbn [fmap list_fmap seek_index stored shown].
  change (mkey (m_key e) (m_seq e) (m_type e) (m_val e)) with (stored e).1. rewrite (Hord e He).
  replace (ord (InternalKeyCmp u) (ikey (m_key e) (m_seq e) (m_type e)) to)
    with (mentry_ord (u := u) (m_key e) (m_seq e) (ukey_of to) (seq_of to)).
  - destruct (is_lt _); [|done]. f_equal. apply IH.
  - cbn. unfold ord_internal, mentry_ord. destruct He as (? & _). by rewrite ukey_of_ikey, seq_of_ikey.
Qed.

Lemma mem_current_ok (it : MemtableIterator (G := G)) L p :
  view (c := MemtableKeyCmp u) (skipmapiter it) (stored <$> L) p → Forall (mentry_ok (u := u)) L →
  mem_current it = Ret (entry_at (shown <$> L) p).
Proof.
  intros V HL. unfold mem_current. rewrite (valid_law (c := MemtableKeyCmp u) _ _ _ V), bind_Ret.
  rewrite (current_law (c := MemtableKeyCmp u) _ _ _ V). destruct p as [|i|]; cbn [on_entry negb entry_at]; try done.
  pose proof (view_bound (c := MemtableKeyCmp u) _ _ _ V) as Hi. rewrite length_fmap in Hi.
  destruct (lookup_lt_is_Some_2 L i Hi) as [e He]. rewrite !list_lookup_fmap, He, bind_Ret. cbn [fmap option_fmap option_map stored].
  rewrite Forall_lookup in HL. pose proof (HL _ _ He) as Hok. destruct (mentry_len e Hok) as (_ & Hk & _ & Hl).
  destruct Hok as (Hs & _).
  destruct (parse_memtable_key_mkey (m_key e) (m_val e) (m_type e) (m_seq e) Hs Hl) as (P1 & _ & P3 & P4).
  rewrite P1, bind_Ret, P3, bind_Ret. rewrite Nat2Z.id in P4.
  pose proof (encode_var_pos _ Hk). rewrite shift_left_drop.
  - rewrite bind_Ret. unfold vec_truncate, U64_SPACE. unfold shown.
    replace (Z.to_nat (zlen (m_key e) + 8)) with (length (m_key e) + 8)%nat by lia. by rewrite P4.
  - unfold mkey. rewrite length_app. lia.
Qed.

Lemma mem_seek_ok (it : MemtableIterator (G := G)) L p to :
  view (c := MemtableKeyCmp u) (skipmapiter it) (stored <$> L) p → Forall (mentry_ok (u := u)) L →
  key_ok (InternalKeyCmp u) to →
  ∃ s, mem_seek to it = Ret (mkMemIter s)
    ∧ view (c := MemtableKeyCmp u) s (stored <$> L) (pos_seek (InternalKeyCmp u) to (shown <$> L)).
Proof.
  intros V HL (Hl & Hs & Hk). unfold mem_seek.
  rewrite parse_internal_key_views, bind_Ret by lia.
  destruct (lookup_key_facts (u := u) (ukey_of to) (seq_of to) Hs Hk) as (lk & -> & _ & Hok & Hord).
  { unfold ukey_of. rewrite length_take. lia. }
  rewrite bind_Ret. destruct (seek_law (c := MemtableKeyCmp u) _ _ _ _ V Hok) as (s & -> & V').
  rewrite bind_Ret. exists s. split; [done|]. unfold pos_seek in *.
  by rewrite (seek_index_stored L _ to Hs HL Hord), at_or_off_stored in V'.
Qed.

#[export] Instance MemtableIterator_forward : ForwardIterator (InternalKeyCmp u) (MemtableIterator (G := G)).
Proof.
  refine {| view := mem_view |}.
  - intros it l i (L & -> & HL & V). apply (view_bound (c := MemtableKeyCmp u)) in V. by rewrite length_fmap in *.
  - intros it l p (L & -> & HL & V) Hp. change (it_advance it) with (mem_advance it). unfold mem_advance.
    destruct (advance_law (c := MemtableKeyCmp u) _ _ _ V Hp) as (s & -> & V'). rewrite bind_Ret.
    rewrite pos_next_stored in *. exists (mkMemIter s). split; [|by exists L].
    destruct (on_entry _) eqn:E; cbn [negb]; [|done]. by rewrite (valid_law (c := MemtableKeyCmp u) _ _ _ V'), bind_Ret, E.
  - intros it l p (L & -> & HL & V). by apply mem_current_ok.
  - intros it l p (L & -> & HL & V). apply (valid_law (c := MemtableKeyCmp u) _ _ _ V).
  - intros it l p (L & -> & HL & V). destruct (reset_law (c := MemtableKeyCmp u) _ _ _ V) as (s & E & V').
    exists (mkMemIter s). cbn [it_reset MemtableIterator_iterator]. rewrite E, bind_Ret. split; [done|]. by exists L.
  - intros it l p to (L & -> & HL & V) Hk. destruct (mem_seek_ok it L p to V HL Hk) as (s & E & V').
    exists (mkMemIter s). split; [exact E|]. by exists L.
Defined.

(** Where [prev] goes: the last earlier entry that is not a deletion. *)
Fixpoint prev_value (L : list mentry) (i : nat) : pos :=
  match i with
  | O => Off
  | S j => match L !! j with
           | Some e => if bool_decide (m_type e = TypeValue) then At j else prev_value L j
           | None => Off
           end
  end.

Lemma mem_prev_loop_ok fuel : ∀ (s : SkipMapIter (G := G)) L i,
  view (c := MemtableKeyCmp u) s (stored <$> L) (At i) → Forall (mentry_ok (u := u)) L → (i < fuel)%nat →
  ∃ s', mem_prev_loop fuel s = Ret (mkMemIter s', on_entry (prev_value L i))
    ∧ view (c := MemtableKeyCmp u) s' (stored <$> L) (prev_value L i).
Proof.
  induction fuel as [|fuel IH]; intros s L i V HL Hi; [lia|]. cbn [mem_prev_loop].
  destruct (prev_law (c := MemtableKeyCmp u) _ _ _ V) as (s1 & -> & V1). rewrite bind_Ret.
  destruct i as [|i]; cbn [pos_prev on_entry negb prev_value] in *; [by exists s1|].
  rewrite (current_law (c := MemtableKeyCmp u) _ _ _ V1), bind_Ret. cbn [entry_at].
  pose proof (view_bound (c := MemtableKeyCmp u) _ _ _ V1) as Hb. rewrite length_fmap in Hb.
  destruct (lookup_lt_is_Some_2 L i Hb) as [e He]. rewrite list_lookup_fmap, He. cbn [fmap option_fmap option_map stored].
  pose proof HL as HL'. rewrite Forall_lookup in HL'. pose proof (HL' _ _ He) as Hok.
  destruct (mentry_len e Hok) as (_ & _ & _ & Hl), Hok as (Hs & _).
  destruct (parse_memtable_key_mkey (m_key e) (m_val e) (m_type e) (m_seq e) Hs Hl) as (P1 & _).
  rewrite P1, bind_Ret, tag_type by done. destruct (bool_decide _); [by exists s1|]. apply IH; done || lia.
Qed.

End iter.

(** ** Theorems *)

Section theorems.
Context `{IEL : IntegerEncodingLaws} `{RG : Rng G} {u : Cmp} {UO : OrderedCmp u}.

Definition memtable_adds (A : list mentry) (mt : MemTable G) : exec (MemTable G) :=
  mfoldl (λ mt e, memtable_add (m_seq e) (m_type e) (m_key e) (m_val e) mt) mt A.

(** Adding entries with pairwise distinct keys and sequence numbers. *)
Lemma memtable_adds_ok `{UE : !ExactCmp u} A mt L :
  mt_holds (u := u) mt L → Forall (mentry_ok (u := u)) A →
  NoDup ((λ e, (m_key e, m_seq e)) <$> A ++ L) →
  ∃ mt', memtable_adds A mt = Ret mt' ∧ mt_holds (u := u) mt' (foldl (λ L e, minsert (u := u) e L) L A).
Proof.
  revert mt L. induction A as [|e A IH]; intros mt L Hmt HA Hnd; [by exists mt|].
  apply Forall_cons in HA as [He HA]. cbn [app fmap list_fmap] in Hnd. apply NoDup_cons in Hnd as [Hn Hnd].
  destruct (memtable_add_ok mt L e Hmt He) as (mt1 & Hadd & Hmt1).
  { apply Forall_forall. intros x Hx [Hk%ord_exact Hs]. apply Hn. rewrite <- Hk, <- Hs.
    apply (list_elem_of_fmap_2 (λ e, (m_key e, m_seq e))). set_solver. }
  destruct (IH mt1 _ Hmt1 HA) as (mt2 & Hadds & Hmt2).
  { rewrite minsert_perm, <- Permutation_middle. cbn. by apply NoDup_cons. }
  exists mt2. unfold memtable_adds in *. cbn [mfoldl]. by rewrite Hadd, bind_Ret.
Qed.

Lemma minserts_perm A L : foldl (λ L e, minsert (u := u) e L) L A ≡ₚ A ++ L.
Proof.
  revert L. induction A as [|e A IH]; intros L; simpl; [done|].
  by rewrite IH, minsert_perm, <- Permutation_middle.
Qed.

Lemma memtable_new_holds : mt_holds (u := u) (MemTable_new (G := G) u) [].
Proof. split; [|done]. exists []. split; [apply sm_new_inv|done]. Qed.

(** The two formats sort alike. *)
Lemma shown_sorted L :
  Forall (mentry_ok (u := u)) L → StronglySorted (key_lt (c := MemtableKeyCmp u)) (stored <$> L) →
  StronglySorted (key_lt (c := InternalKeyCmp u)) (shown <$> L).
Proof.
  intros HL Hs. induction HL as [|e L He HL IH]; [constructor|]. rewrite fmap_cons in *.
  apply StronglySorted_inv in Hs as [Hs Hlt]. constructor; [by apply IH|].
  rewrite Forall_fmap in *. rewrite Forall_forall in *. intros x Hx. specialize (Hlt x Hx).
  unfold key_lt, compose in *. rewrite ord_stored in Hlt by auto.
  destruct He as (? & _), (HL x Hx) as (? & _). cbn. by rewrite ord_internal_ikey.
Qed.

(** C2: after adding any entries with pairwise distinct (key, sequence number) pairs, in any
    order, [get] at a key and a sequence number returns the value of the newest entry of that
    key not newer than the number, reports a deletion if that entry is one, and finds nothing
    exactly when there is no such entry. *)
Theorem memtable_get_newest `{UE : !ExactCmp u} A k s :
  Forall (mentry_ok (u := u)) A → NoDup ((λ e, (m_key e, m_seq e)) <$> A) →
  is_u 56 s → key_ok u k → zlen k + 8 < 2 ^ 63 →
  ∃ mt r, memtable_adds A (MemTable_new u) = Ret mt
    ∧ (lk ← LookupKey_new k s; memtable_get lk mt) = Ret r ∧ get_spec k s A r.
Proof.
  intros HA Hnd Hs Hk Hl. destruct (memtable_adds_ok A _ [] memtable_new_holds HA) as (mt & Hadd & Hmt);
    [by rewrite app_nil_r|]. pose proof (minserts_perm A []) as HP. set (L := foldl _ [] A) in *.
  destruct (memtable_get_ok mt L k s Hmt Hs Hk Hl) as (r & Hget & Hspec).
  exists mt, r. split_and!; [done..|]. rewrite app_nil_r in HP. by eapply get_spec_perm.
Qed.

(** A memtable's iterator yields the entries added to it as internal keys and values, in
    the order of [InternalKeyCmp]: user keys ascending and newest first. *)
Theorem memtable_iterates `{UE : !ExactCmp u} A :
  Forall (mentry_ok (u := u)) A → NoDup ((λ e, (m_key e, m_seq e)) <$> A) →
  ∃ mt it l, memtable_adds A (MemTable_new u) = Ret mt
    ∧ collect (S (length A)) (memtable_iter mt) = Ret (it, l)
    ∧ l ≡ₚ shown <$> A ∧ StronglySorted (key_lt (c := InternalKeyCmp u)) l.
Proof.
  intros HA Hnd. destruct (memtable_adds_ok A _ [] memtable_new_holds HA) as (mt & Hadd & Hmt & HL);
    [by rewrite app_nil_r|]. pose proof (minserts_perm A []) as HP. set (L := foldl _ [] A) in *.
  rewrite app_nil_r in HP.
  assert (view (c := InternalKeyCmp u) (memtable_iter mt) (shown <$> L) Start) as V.
  { exists L. split_and!; [done..|]. destruct Hmt as (E & I & HE). by exists E. }
  destruct (collect_all (c := InternalKeyCmp u) _ _ (S (length A)) V) as (it & Hc & _);
    [rewrite length_fmap, HP; lia|].
  exists mt, it, (shown <$> L). split_and!; [done..|by rewrite HP|].
  apply shown_sorted; [done|]. by eapply holds_sorted.
Qed.

(** [MemtableIterator::prev] steps back over deletions: it stops at the last earlier entry
    that is a value, although the iterator is documented not to skip deleted entries and
    [advance] does not skip them. *)
Theorem memtable_prev_skips_deletions (it : MemtableIterator (G := G)) L i :
  mt_holds (u := u) {| mt_map := it_map (skipmapiter it) |} L →
  view (c := InternalKeyCmp u) it (shown <$> L) (At i) →
  ∃ it', it_prev it = Ret (it', on_entry (prev_value L i))
    ∧ it_current it' = Ret (entry_at (shown <$> L) (prev_value L i)).
Proof.
  intros [(E & I & HE) HL] (L' & HLL & HL' & V). pose proof (view_bound (c := MemtableKeyCmp u) _ _ _ V) as Hi.
  assert (prev_value L i = prev_value L' i) as ->.
  { clear V Hi. pose proof HLL as Hlk. induction i as [|i IH]; simpl; [done|].
    apply (f_equal (.!! i)) in Hlk. rewrite !list_lookup_fmap in Hlk.
    destruct (L !! i) as [a|] eqn:Ea, (L' !! i) as [b|] eqn:Eb; try done.
    assert (ikey (m_key a) (m_seq a) (m_type a) = ikey (m_key b) (m_seq b) (m_type b)) as Hk
      by (unfold shown in Hlk; cbn in Hlk; congruence).
    rewrite Forall_lookup in HL, HL'. destruct (HL _ _ Ea) as (Ha & _), (HL' _ _ Eb) as (Hb & _).
    assert (m_type a = m_type b) as ->; [|by rewrite IH].
    pose proof (parse_internal_key_ikey (m_key a) (m_seq a) (m_type a) Ha) as P.
    rewrite Hk, parse_internal_key_ikey in P by done. congruence. }
  destruct (mem_prev_loop_ok (Z.to_nat (sm_len (it_map (skipmapiter it))) + 1) _ _ _ V HL') as (s & Hp & V').
  { pose proof (inv_len _ _ I) as Hlen. cbn in Hlen. rewrite Hlen.
    apply (f_equal length) in HE, HLL. rewrite !length_fmap in *. lia. }
  exists (mkMemIter s). split; [exact Hp|]. rewrite HLL. by apply mem_current_ok.
Qed.

End theorems.

Module TestEntries.
Definition A : list mentry :=
  [mkMEntry [97] 5 TypeValue [1]; mkMEntry [98] 7 TypeDeletion []; mkMEntry [97] 9 TypeValue [2]].

Lemma A_ok : Forall (mentry_ok (IE := Reference.ref_encoding) (u := DefaultCmp)) A.
Proof. repeat apply Forall_cons_2; try apply Forall_nil_2; (split; [by_decide|split; [exact I|by_decide]]). Qed.
End TestEntries.

Lemma memtable_get_newest_witness :
  let IE := Reference.ref_encoding in
  ∃ (mt : MemTable Z) r, memtable_adds (RG := TestRng.alternating) TestEntries.A (MemTable_new (H := TestRng.alternating) DefaultCmp) = Ret mt
    ∧ (lk ← LookupKey_new [97] 8; memtable_get lk mt) = Ret r ∧ get_spec [97] 8 TestEntries.A r.
Proof.
  apply (memtable_get_newest (IEL := Reference.ref_encoding_laws) (u := DefaultCmp));
    [exact TestEntries.A_ok|by_decide|by_decide|exact I|done].
Defined.

Lemma memtable_iterates_witness :
  let IE := Reference.ref_encoding in
  ∃ (mt : MemTable Z) it l, memtable_adds (RG := TestRng.alternating) TestEntries.A (MemTable_new (H := TestRng.alternating) DefaultCmp) = Ret mt
    ∧ collect 4 (memtable_iter mt) = Ret (it, l)
    ∧ l ≡ₚ shown <$> TestEntries.A ∧ StronglySorted (key_lt (c := InternalKeyCmp DefaultCmp)) l.
Proof.
  apply (memtable_iterates (IEL := Reference.ref_encoding_laws) (u := DefaultCmp));
    [exact TestEntries.A_ok|by_decide].
Defined.

(** Entries "a" and "c" with a deletion of "b" between them: going back from "c" gives "a". *)
Module TestPrev.
Definition A : list mentry :=
  [mkMEntry [97] 5 TypeValue [1]; mkMEntry [98] 7 TypeDeletion []; mkMEntry [99] 9 TypeValue [2]].
#[local] Existing Instance Reference.ref_encoding.
#[local] Existing Instance Reference.ref_encoding_laws.
#[local] Existing Instance TestRng.alternating.

Lemma mt_exists : ∃ mt : MemTable Z, mt_holds (u := DefaultCmp) mt A.
Proof.
  destruct (memtable_adds_ok (u := DefaultCmp) A _ [] (memtable_new_holds (u := DefaultCmp))) as (mt & _ & Hmt).
  - repeat apply Forall_cons_2; try apply Forall_nil_2; (split; [by_decide|split; [exact I|by_decide]]).
  - by_decide.
  - exists mt. exact Hmt.
Qed.

Lemma view_exists :
  ∃ it : MemtableIterator (G := Z), mt_holds (u := DefaultCmp) {| mt_map := it_map (skipmapiter it) |} A
    ∧ view (c := InternalKeyCmp DefaultCmp) it (shown <$> A) (At 2).
Proof.
  destruct mt_exists as [mt Hmt]. pose proof Hmt as [(E & I & HE) HA].
  assert (view (c := InternalKeyCmp DefaultCmp) (memtable_iter mt) (shown <$> A) Start) as V.
  { exists A. split_and!; [done|done|]. by exists E. }
  destruct (seek_law _ _ _ (ikey [99] 9 TypeValue) V) as (it & Hs & V').
  { split_and!; [by_decide|by_decide|by_decide|exact Logic.I]. }
  match type of V' with view _ _ ?p => assert (p = At 2) as Hpos by (vm_compute; reflexivity) end.
  rewrite Hpos in V'. exists it. split; [|exact V'].
  rewrite (mem_seek_map _ _ _ Hs). by destruct mt.
Qed.
End TestPrev.

Lemma memtable_prev_skips_deletions_witness :
  let IE := Reference.ref_encoding in
  ∃ it it' : MemtableIterator (G := Z), it_current it = Ret (Some (ikey [99] 9 TypeValue, [2]))
    ∧ it_prev it = Ret (it', true) ∧ it_current it' = Ret (Some (ikey [97] 5 TypeValue, [1])).
Proof.
  intros IE. destruct TestPrev.view_exists as (it & Hmt & V).
  destruct (memtable_prev_skips_deletions (IEL := Reference.ref_encoding_laws) (u := DefaultCmp) it TestPrev.A 2 Hmt V)
    as (it' & Hp & Hc).
  exists it, it'. split_and!; [exact (current_law _ _ _ V)|exact Hp|exact Hc].
Defined.
