(* ===== verification/WriteBatch.v ===== *)
(** * WriteBatch: [src/write_batch.rs]

    A batch is a byte vector: a header (sequence number and count) and the operations.  Its
    iterator is the decoder. *)

From S2P Require Import Prelude Encoding Types Cmp KeyTypes SkipMap MemTable.

Definition SEQNUM_OFFSET : Z := 0.
Definition COUNT_OFFSET : Z := 8.
Definition BATCH_HEADER_SIZE : Z := 12.

Record WriteBatch := mkBatch { entries : bytes }.

(** One operation: a key, and a value unless it is a deletion. *)
Abbreviation op := (bytes * option bytes)%type (only parsing).

Section defs.
Context {IE : IntegerEncoding}.

Definition WriteBatch_new : WriteBatch := {| entries := vec_resize BATCH_HEADER_SIZE 0 [] |}.
Definition set_contents (from : bytes) (b : WriteBatch) : WriteBatch := {| entries := from |}.
Definition batch_clear (b : WriteBatch) : WriteBatch := {| entries := [] |}.
Definition byte_size (b : WriteBatch) : Z := zlen (entries b).

Definition batch_count (b : WriteBatch) : exec Z :=
  c ← slice (entries b) COUNT_OFFSET (COUNT_OFFSET + 4); Ret (decode_fixed c).
Definition set_count (c : Z) (b : WriteBatch) : exec WriteBatch :=
  e ← splice (entries b) COUNT_OFFSET (encode_fixed 4 c); Ret {| entries := e |}.
Definition batch_sequence (b : WriteBatch) : exec Z :=
  s ← slice (entries b) SEQNUM_OFFSET (SEQNUM_OFFSET + 8); Ret (decode_fixed s).
Definition set_sequence (s : Z) (b : WriteBatch) : exec WriteBatch :=
  e ← splice (entries b) SEQNUM_OFFSET (encode_fixed 8 s); Ret {| entries := e |}.

Definition batch_put (k v : bytes) (b : WriteBatch) : exec WriteBatch :=
  let b := {| entries := entries b ++ [vt_u64 TypeValue] ++ encode_var (zlen k) ++ k
                           ++ encode_var (zlen v) ++ v |} in
  c ← batch_count b; c ← uadd 32 c 1; set_count c b.

Definition batch_delete (k : bytes) (b : WriteBatch) : exec WriteBatch :=
  let b := {| entries := entries b ++ [vt_u64 TypeDeletion] ++ encode_var (zlen k) ++ k |} in
  c ← batch_count b; c ← uadd 32 c 1; set_count c b.

(** [WriteBatchIter::next] on the batch's bytes, at index [ix]. *)
Definition batch_next (e : bytes) (ix : Z) : exec (option op * Z) :=
  if zlen e <=? ix then Ret (None, ix)
  else
    tag ← index e ix;
    let ix := ix + 1 in
    rest ← slice_from e ix;
    match decode_var 64 rest with
    | None => Ret (None, ix)
    | Some (klen, l) =>
        let ix := ix + l in
        kend ← uadd 64 ix klen;
        k ← slice e ix kend;
        let ix := kend in
        if tag =? vt_u64 TypeValue then
          rest ← slice_from e ix;
          match decode_var 64 rest with
          | None => Ret (None, ix)
          | Some (vlen, m) =>
              let ix := ix + m in
              vend ← uadd 64 ix vlen;
              v ← slice e ix vend;
              Ret (Some (k, Some v), vend)
          end
        else Ret (Some (k, None), ix)
    end.

(** All of [iter()]: every operation takes at least one byte. *)
Fixpoint batch_ops_loop (fuel : nat) (e : bytes) (ix : Z) : exec (list op) :=
  match fuel with
  | O => NoFuel
  | S fuel =>
      '(o, ix) ← batch_next e ix;
      match o with
      | None => Ret []
      | Some o => os ← batch_ops_loop fuel e ix; Ret (o :: os)
      end
  end.
Definition batch_iter (b : WriteBatch) : exec (list op) :=
  batch_ops_loop (S (length (entries b))) (entries b) BATCH_HEADER_SIZE.

(** The loop of [insert_into_memtable]. *)
Fixpoint insert_loop `{Rng G} (fuel : nat) (e : bytes) (ix seq : Z) (mt : MemTable G) : exec (MemTable G) :=
  match fuel with
  | O => NoFuel
  | S fuel =>
      '(o, ix) ← batch_next e ix;
      match o with
      | None => Ret mt
      | Some (k, v) =>
          mt ← match v with
               | Some v_ => memtable_add seq TypeValue k v_ mt
               | None => memtable_add seq TypeDeletion k [] mt
               end;
          seq ← uadd 64 seq 1;
          insert_loop fuel e ix seq mt
      end
  end.
Definition insert_into_memtable `{Rng G} (b : WriteBatch) (seq : Z) (mt : MemTable G) : exec (MemTable G) :=
  insert_loop (S (length (entries b))) (entries b) BATCH_HEADER_SIZE seq mt.

Definition batch_encode (seq : Z) (b : WriteBatch) : exec bytes :=
  b ← set_sequence seq b; Ret (entries b).

(** A batch built by a sequence of [put] and [delete] calls. *)
Definition batch_apply (b : WriteBatch) (o : op) : exec WriteBatch :=
  match o.2 with Some v => batch_put o.1 v b | None => batch_delete o.1 b end.
Definition batch_of (os : list op) : exec WriteBatch := mfoldl batch_apply WriteBatch_new os.

End defs.

(** ** The contents of a batch *)

Section proofs.
Context `{IEL : IntegerEncodingLaws}.

Definition op_bytes (o : op) : bytes :=
  match o.2 with
  | Some v => [1] ++ encode_var (zlen o.1) ++ o.1 ++ encode_var (zlen v) ++ v
  | None => [0] ++ encode_var (zlen o.1) ++ o.1
  end.
Definition ops_bytes (os : list op) : bytes := os ≫= op_bytes.

(** The bytes of a batch with sequence number [s]. *)
Definition batch_bytes (s : Z) (os : list op) : bytes :=
  encode_fixed 8 s ++ encode_fixed 4 (zlen os) ++ ops_bytes os.

Lemma op_bytes_nonempty o : (1 ≤ length (op_bytes o))%nat.
Proof. unfold op_bytes. destruct o.2; simpl; lia. Qed.

Lemma length_ops os : (length os ≤ length (ops_bytes os))%nat.
Proof.
  induction os as [|o os IH]; simpl; [lia|]. unfold ops_bytes in *. simpl. rewrite length_app.
  pose proof (op_bytes_nonempty o). lia.
Qed.

Lemma batch_next_end e ix : zlen e ≤ ix → batch_next e ix = Ret (None, ix).
Proof. intros. unfold batch_next. by ztest. Qed.

Lemma batch_next_op p o rest :
  zlen (p ++ op_bytes o ++ rest) < 2 ^ 64 →
  batch_next (p ++ op_bytes o ++ rest) (zlen p) = Ret (Some o, zlen (p ++ op_bytes o)).
Proof.
  intros Hl. unfold batch_next. pose proof (op_bytes_nonempty o). rewrite !length_app in *.
  ztest. destruct o as [k [v|]]; unfold op_bytes in *; cbn [fst snd] in *; rewrite !length_app in *; simpl length in *.
  - rewrite <- !app_assoc. cbn [app]. rewrite index_app, bind_Ret by done.
    rewrite (cons_middle 1), (app_assoc p). rewrite slice_from_app, bind_Ret by (rewrite length_app; simpl; lia).
    rewrite decode_var_usize by (unfold is_u; lia). unfold uadd. ztest. cbn [mbind exec_bind].
    rewrite (app_assoc (p ++ [1])). rewrite slice_app by (rewrite ?length_app; simpl; lia). cbn [mbind exec_bind].
    change (1 =? vt_u64 TypeValue) with true. cbv iota.
    rewrite (app_assoc (_ ++ _) k). rewrite slice_from_app, bind_Ret by (rewrite !length_app; simpl; lia).
    rewrite decode_var_usize by (unfold is_u; lia). ztest. cbn [mbind exec_bind].
    rewrite (app_assoc (_ ++ k)). rewrite slice_app by (rewrite ?length_app; simpl; lia). cbn [mbind exec_bind].
    do 2 f_equal. lia.
  - rewrite <- !app_assoc. cbn [app]. rewrite index_app, bind_Ret by done.
    rewrite (cons_middle 0), (app_assoc p). rewrite slice_from_app, bind_Ret by (rewrite length_app; simpl; lia).
    rewrite decode_var_usize by (unfold is_u; lia). unfold uadd. ztest. cbn [mbind exec_bind].
    rewrite (app_assoc (p ++ [0])). rewrite slice_app by (rewrite ?length_app; simpl; lia). cbn [mbind exec_bind].
    change (0 =? vt_u64 TypeValue) with false. cbv iota. do 2 f_equal. lia.
Qed.

(** What the [put] and [delete] calls made of a batch: the first eight bytes are untouched. *)
Definition batch_rep (b : WriteBatch) (h : bytes) (os : list op) : Prop :=
  ∃ cnt, entries b = h ++ cnt ++ ops_bytes os ∧ length h = 8%nat ∧ length cnt = 4%nat
    ∧ decode_fixed cnt = zlen os.

Lemma batch_new_rep : batch_rep WriteBatch_new (replicate 8 0) [].
Proof. exists (replicate 4 0). split_and!; [done..|]. apply decode_fixed_zeros. Qed.

Lemma batch_count_rep b h os : batch_rep b h os → batch_count b = Ret (zlen os).
Proof.
  intros (cnt & E & Hh & Hc & <-). unfold batch_count, COUNT_OFFSET. rewrite E.
  by rewrite slice_app by lia.
Qed.

Lemma batch_apply_rep b h os o :
  batch_rep b h os → zlen os + 1 < 2 ^ 32 →
  ∃ b', batch_apply b o = Ret b' ∧ batch_rep b' h (os ++ [o]).
Proof.
  intros (cnt & E & Hh & Hc & Hd) Hl.
  assert (batch_apply b o = (let b := {| entries := entries b ++ op_bytes o |} in
            c ← batch_count b; c ← uadd 32 c 1; set_count c b)) as ->
    by (by destruct o as [k [v|]]).
  cbv zeta. unfold batch_count, COUNT_OFFSET. cbn [entries]. rewrite E, <- !app_assoc.
  rewrite slice_app, bind_Ret by lia. cbn [mbind exec_bind]. rewrite Hd. unfold uadd. ztest. cbn [mbind exec_bind].
  unfold set_count, COUNT_OFFSET. cbn [entries]. pose proof (length_encode_fixed_nat 4 (zlen os + 1) ltac:(lia)).
  rewrite splice_app by lia. cbn [mbind exec_bind]. eexists. split; [done|].
  exists (encode_fixed 4 (zlen os + 1)). cbn [entries]. split_and!; [|done|done|].
  - unfold ops_bytes. rewrite bind_app. simpl. by rewrite app_nil_r.
  - rewrite decode_encode_fixed by (unfold is_u; lia). rewrite length_app. simpl. lia.
Qed.

Lemma batch_of_rep os : ∀ b h os0,
  batch_rep b h os0 → zlen os0 + zlen os < 2 ^ 32 →
  ∃ b', mfoldl batch_apply b os = Ret b' ∧ batch_rep b' h (os0 ++ os).
Proof.
  induction os as [|o os IH]; intros b h os0 Hb Hl; simpl in Hl.
  - exists b. by rewrite app_nil_r.
  - destruct (batch_apply_rep b h os0 o Hb) as (b1 & E & Hb1); [lia|].
    destruct (IH b1 h _ Hb1) as (b2 & E2 & Hb2); [rewrite length_app; simpl; lia|].
    exists b2. cbn [mfoldl]. rewrite E, bind_Ret. split; [done|]. by rewrite <- app_assoc in Hb2.
Qed.

Lemma batch_loop_ops os : ∀ fuel p,
  zlen (p ++ ops_bytes os) < 2 ^ 64 → (length os < fuel)%nat →
  batch_ops_loop fuel (p ++ ops_bytes os) (zlen p) = Ret os.
Proof.
  induction os as [|o os IH]; intros fuel p Hl Hf; (destruct fuel as [|fuel]; [simpl in Hf; lia|]); cbn [batch_ops_loop].
  - rewrite batch_next_end; [done|]. rewrite app_nil_r. lia.
  - change (ops_bytes (o :: os)) with (op_bytes o ++ ops_bytes os) in *.
    rewrite batch_next_op, bind_Ret by done. rewrite (app_assoc p). rewrite IH; [done| |simpl in Hf; lia].
    by rewrite <- app_assoc.
Qed.

Lemma batch_iter_rep b h os : batch_rep b h os → zlen (entries b) < 2 ^ 64 → batch_iter b = Ret os.
Proof.
  intros (cnt & E & Hh & Hc & _) Hl. unfold batch_iter. rewrite E, (app_assoc h) in *.
  replace BATCH_HEADER_SIZE with (zlen (h ++ cnt)) by (rewrite length_app; unfold BATCH_HEADER_SIZE; lia).
  apply batch_loop_ops; [done|]. rewrite !length_app. pose proof (length_ops os). lia.
Qed.

Lemma batch_encode_rep b h os seq :
  batch_rep b h os → is_u 64 seq →
  ∃ bs, batch_encode seq b = Ret bs ∧ zlen bs = zlen (entries b)
    ∧ batch_rep {| entries := bs |} (encode_fixed 8 seq) os.
Proof.
  intros (cnt & E & Hh & Hc & Hd) Hs. unfold batch_encode, set_sequence, SEQNUM_OFFSET.
  pose proof (length_encode_fixed_nat 8 seq ltac:(lia)) as L8.
  rewrite E, <- (app_nil_l h), <- app_assoc. rewrite splice_app by (simpl; lia). cbn [mbind exec_bind app].
  eexists. split; [done|]. cbn [entries]. split; [rewrite !length_app; lia|]. by exists cnt.
Qed.

(** The memtable entries of operations at consecutive sequence numbers. *)
Fixpoint mentries (seq : Z) (os : list op) : list mentry :=
  match os with
  | [] => []
  | (k, Some v) :: os => mkMEntry k seq TypeValue v :: mentries (seq + 1) os
  | (k, None) :: os => mkMEntry k seq TypeDeletion [] :: mentries (seq + 1) os
  end.

Lemma insert_loop_ops `{RG : Rng G} os : ∀ fuel p seq (mt : MemTable G),
  zlen (p ++ ops_bytes os) < 2 ^ 64 → (length os < fuel)%nat → 0 ≤ seq → seq + zlen os < 2 ^ 64 →
  insert_loop fuel (p ++ ops_bytes os) (zlen p) seq mt = memtable_adds (mentries seq os) mt.
Proof.
  induction os as [|o os IH]; intros fuel p seq mt Hl Hf Hs Hsl; (destruct fuel as [|fuel]; [simpl in Hf; lia|]);
    cbn [insert_loop].
  - rewrite batch_next_end; [done|]. rewrite app_nil_r. lia.
  - change (ops_bytes (o :: os)) with (op_bytes o ++ ops_bytes os) in *. cbn [length] in *.
    rewrite batch_next_op, bind_Ret by done. rewrite (app_assoc p). unfold uadd. ztest.
    assert (∀ mt, insert_loop fuel ((p ++ op_bytes o) ++ ops_bytes os) (zlen (p ++ op_bytes o)) (seq + 1) mt
      = memtable_adds (mentries (seq + 1) os) mt) as IH' by (intros mt'; apply IH; rewrite <- ?app_assoc; done || lia).
    destruct o as [k [v|]]; cbn [mentries]; unfold memtable_adds in *; cbn [mfoldl m_key m_seq m_type m_val];
      (destruct (memtable_add _ _ _ _ mt); [|done|done]); rewrite ?bind_Ret; apply IH'.
Qed.

Lemma insert_into_memtable_ops `{RG : Rng G} b h os seq (mt : MemTable G) :
  batch_rep b h os → zlen (entries b) < 2 ^ 64 → 0 ≤ seq → seq + zlen os < 2 ^ 64 →
  insert_into_memtable b seq mt = memtable_adds (mentries seq os) mt.
Proof.
  intros (cnt & E & Hh & Hc & _) Hl Hs Hsl. unfold insert_into_memtable. rewrite E, (app_assoc h) in *.
  replace BATCH_HEADER_SIZE with (zlen (h ++ cnt)) by (rewrite length_app; unfold BATCH_HEADER_SIZE; lia).
  apply insert_loop_ops; try done. rewrite !length_app. pose proof (length_ops os). lia.
Qed.

End proofs.

(** ** Theorems *)

Section theorems.
Context `{IEL : IntegerEncodingLaws}.

(** C19: a batch built by any [put] and [delete] calls counts them, iterates over them in
    order, and after [encode] (what is written to the log) and [set_contents] (what recovery
    does with a log record) has the given sequence number, the same count and operations. *)
Theorem batch_roundtrip os seq :
  zlen os < 2 ^ 32 → 12 + zlen (ops_bytes os) < 2 ^ 64 → is_u 64 seq →
  ∃ b bs, batch_of os = Ret b ∧ batch_count b = Ret (zlen os) ∧ batch_iter b = Ret os
    ∧ batch_encode seq b = Ret bs
    ∧ let b' := set_contents bs WriteBatch_new in
      batch_sequence b' = Ret seq ∧ batch_count b' = Ret (zlen os) ∧ batch_iter b' = Ret os.
Proof.
  intros Hl Hb Hs. destruct (batch_of_rep os _ _ _ batch_new_rep Hl) as (b & Eb & Rb). cbn [app] in Rb.
  destruct (batch_encode_rep b _ os seq Rb Hs) as (bs & Ebs & Hlen & Rbs).
  assert (zlen (entries b) < 2 ^ 64) as Hbl.
  { destruct Rb as (cnt & -> & Hh & Hc & _). rewrite !length_app. lia. }
  exists b, bs. split_and!; [done|by eapply batch_count_rep|by eapply batch_iter_rep|done|].
  cbv zeta. unfold set_contents. split_and!.
  - destruct Rbs as (cnt & E & Hh & _). cbn in E. unfold batch_sequence, SEQNUM_OFFSET. cbn [entries]. rewrite E.
    rewrite slice_to_app by lia. cbn [mbind exec_bind]. by rewrite decode_encode_fixed.
  - by eapply batch_count_rep.
  - eapply batch_iter_rep; [exact Rbs|]. cbn. lia.
Qed.

(** Inserting a batch into a memtable is adding its operations one by one, in order, with
    consecutive sequence numbers starting at the given one. *)
Theorem batch_insert_consecutive `{RG : Rng G} os seq b (mt : MemTable G) :
  zlen os < 2 ^ 32 → 12 + zlen (ops_bytes os) < 2 ^ 64 → 0 ≤ seq → seq + zlen os < 2 ^ 64 →
  batch_of os = Ret b →
  insert_into_memtable b seq mt = memtable_adds (mentries seq os) mt.
Proof.
  intros Hl Hb Hs Hsl Eb. destruct (batch_of_rep os _ _ _ batch_new_rep Hl) as (b' & Eb' & Rb).
  unfold batch_of in Eb. assert (b' = b) as -> by congruence.
  eapply insert_into_memtable_ops; [exact Rb| |done|done].
  destruct Rb as (cnt & -> & Hh & Hc & _). cbn [app]. rewrite !length_app. lia.
Qed.

(** [clear] drops the header together with the operations, so that a [put] of a short key
    and value into a cleared batch panics when it updates the count. *)
Theorem batch_put_after_clear_panics b k v :
  zlen (op_bytes (k, Some v)) < 12 → batch_put k v (batch_clear b) = Panic.
Proof.
  intros Hl. unfold batch_put, batch_clear, batch_count, COUNT_OFFSET, slice. cbn [entries].
  change ([] ++ [vt_u64 TypeValue] ++ encode_var (zlen k) ++ k ++ encode_var (zlen v) ++ v)
    with (op_bytes (k, Some v)).
  rewrite (proj2 (Z.leb_gt (8 + 4) (zlen (op_bytes (k, Some v))))) by lia. done.
Qed.

End theorems.

Lemma batch_roundtrip_witness :
  let IE := Reference.ref_encoding in
  ∃ b bs, batch_of [([97], Some [1; 2]); ([98], None)] = Ret b ∧ batch_count b = Ret 2
    ∧ batch_iter b = Ret [([97], Some [1; 2]); ([98], None)]
    ∧ batch_encode 77 b = Ret bs
    ∧ let b' := set_contents bs WriteBatch_new in
      batch_sequence b' = Ret 77 ∧ batch_count b' = Ret 2 ∧ batch_iter b' = Ret [([97], Some [1; 2]); ([98], None)].
Proof.
  exact (batch_roundtrip (IEL := Reference.ref_encoding_laws) [([97], Some [1; 2]); ([98], None)] 77
    ltac:(by_decide) ltac:(by_decide) ltac:(by_decide)).
Defined.

Lemma batch_insert_consecutive_witness :
  let IE := Reference.ref_encoding in let RG := TestRng.alternating in
  ∃ b, batch_of [([97], Some [1; 2]); ([97], None)] = Ret b
    ∧ insert_into_memtable b 5 (MemTable_new DefaultCmp)
      = memtable_adds [mkMEntry [97] 5 TypeValue [1; 2]; mkMEntry [97] 6 TypeDeletion []] (MemTable_new DefaultCmp).
Proof.
  eexists. split; [reflexivity|].
  apply (batch_insert_consecutive (IEL := Reference.ref_encoding_laws) [([97], Some [1; 2]); ([97], None)] 5);
    [by_decide|by_decide|by_decide|by_decide|reflexivity].
Defined.

Lemma batch_put_after_clear_panics_witness :
  batch_put (IE := Reference.ref_encoding) [97; 98; 99] [100; 101; 102] (batch_clear (WriteBatch_new)) = Panic.
Proof. exact (batch_put_after_clear_panics (IE := Reference.ref_encoding) _ [97; 98; 99] [100; 101; 102] ltac:(by_decide)). Defined.
