(* ===== verification/Filter.v ===== *)
(** * Filter: [src/filter.rs]

    Filter policies: none, Bloom filters, and the wrapper that drops the tag of internal
    keys.  The one floating-point computation, the number of probes, is done on the
    Standard Library's specification floats. *)

From Stdlib Require Import SpecFloat.
From S2P Require Import Prelude Encoding.

(** [trait FilterPolicy] *)
Record FilterPolicy := mkPolicy {
  policy_name : string;
  create_filter : bytes → list Z → exec bytes;
  key_may_match : bytes → bytes → exec bool;
}.

(** Folds over the pieces of [data] that start at the given offsets. *)
Fixpoint offset_data_iterate {S} (f : S → bytes → exec S) (data : bytes) (offsets : list Z) (s : S) : exec S :=
  match offsets with
  | [] => Ret s
  | o :: rest =>
      piece ← slice data o (match rest with [] => zlen data | upper :: _ => upper end);
      s ← f s piece;
      offset_data_iterate f data rest s
  end.

Definition NoFilterPolicy : FilterPolicy := {|
  policy_name := "_";
  create_filter _ _ := Ret [];
  key_may_match _ _ := Ret true;
|}.

Definition BLOOM_SEED : Z := 0xbc9f1d34.

Record BloomPolicy := mkBloom { bits_per_key : Z; bloom_k : Z }.

(** ** [f32]: 24 bits of precision, maximal exponent 128 *)

Definition f32_of_u32 (n : Z) : spec_float := binary_normalize 24 128 n 0 false.
(** The [f32] nearest to 0.69 *)
Definition f32_069 : spec_float := S754_finite false 11576279 (-24).
(** [as u32]: truncates, and saturates at the bounds of the type. *)
Definition f32_to_u32 (x : spec_float) : Z :=
  match x with
  | S754_finite false m e => Z.min (Z.shiftl (Zpos m) e) (2 ^ 32 - 1)
  | S754_infinity false => 2 ^ 32 - 1
  | _ => 0
  end.

Definition BloomPolicy_new_unwrapped (bits : Z) : BloomPolicy :=
  let k := f32_to_u32 (SFmul 24 128 (f32_of_u32 bits) f32_069) in
  let k := if k <? 1 then 1 else if 30 <? k then 30 else k in
  {| bits_per_key := bits; bloom_k := k |}.
Definition BloomPolicy_new (bits : Z) : BloomPolicy := BloomPolicy_new_unwrapped bits.

Section bloom.
Context {IE : IntegerEncoding}.

Definition bloom_m : Z := 0xc6a4a793.

(** The loop over four-byte words: the hash and the bytes that are left. *)
Fixpoint bloom_words (data : bytes) (h : Z) : Z * bytes :=
  match data with
  | a :: b :: c :: d :: rest =>
      let w := decode_fixed [a; b; c; d] in
      let h := wrap 32 (h + w) in
      let h := wrap 32 (h * bloom_m) in
      bloom_words rest (Z.lxor h (Z.shiftr h 16))
  | _ => (h, data)
  end.

Fixpoint bloom_rest (data : bytes) (i h : Z) : Z :=
  match data with
  | [] => h
  | b :: data => bloom_rest data (i + 1) (wrap 32 (h + Z.shiftl b (8 * i)))
  end.

Definition bloom_hash (data : bytes) : Z :=
  let h := Z.lxor BLOOM_SEED (wrap 32 (zlen data * bloom_m)) in
  let '(h, rest) := bloom_words data h in
  match rest with
  | [] => h
  | _ => let h := wrap 32 (bloom_rest rest 0 h * bloom_m) in Z.lxor h (Z.shiftr h 24)
  end.

Definition bloom_delta (h : Z) : Z := Z.lor (Z.shiftr h 17) (wrap 32 (Z.shiftl h 15)).

(** [for _ in 0..self.k] of [create_filter] *)
Fixpoint bloom_set (k : nat) (adj_filter_bits h delta : Z) (filter : bytes) : exec bytes :=
  match k with
  | O => Ret filter
  | S k =>
      _ ← massert (negb (adj_filter_bits =? 0));
      let bitpos := h mod adj_filter_bits in
      b ← index filter (bitpos / 8);
      filter ← set_index filter (bitpos / 8) (Z.lor b (Z.shiftl 1 (bitpos mod 8)));
      bloom_set k adj_filter_bits (wrap 32 (h + delta)) delta filter
  end.

(** The closure of [create_filter]: adds one key. *)
Definition bloom_add (k : nat) (adj_filter_bits : Z) (filter key : bytes) : exec bytes :=
  let h := bloom_hash key in bloom_set k adj_filter_bits h (bloom_delta h) filter.

Definition bloom_create_filter (p : BloomPolicy) (keys : bytes) (key_offsets : list Z) : exec bytes :=
  filter_bits ← umul 64 (zlen key_offsets) (bits_per_key p);
  let filter := vec_resize (if filter_bits <? 64 then 8 else (filter_bits + 7) / 8) 0 [] in
  let adj_filter_bits := wrap 32 (zlen filter * 8) in
  let filter := filter ++ [wrap 8 (bloom_k p)] in
  offset_data_iterate (bloom_add (Z.to_nat (bloom_k p)) adj_filter_bits) keys key_offsets filter.

(** [for _ in 0..k] of [key_may_match] *)
Fixpoint bloom_test (k : nat) (bits h delta : Z) (filter : bytes) : exec bool :=
  match k with
  | O => Ret true
  | S k =>
      _ ← massert (negb (bits =? 0));
      let bitpos := h mod bits in
      b ← index filter (bitpos / 8);
      if Z.land b (Z.shiftl 1 (bitpos mod 8)) =? 0 then Ret false
      else bloom_test k bits (wrap 32 (h + delta)) delta filter
  end.

Definition bloom_key_may_match (key filter : bytes) : exec bool :=
  if decide (filter = []) then Ret true
  else
    n ← usub (zlen filter) 1;
    bits ← umul 32 (wrap 32 n) 8;
    k ← index filter n;
    filter_adj ← slice filter 0 n;
    if 30 <? k then Ret true
    else
      let h := bloom_hash key in
      bloom_test (Z.to_nat k) bits h (bloom_delta h) filter_adj.

Definition Bloom (p : BloomPolicy) : FilterPolicy := {|
  policy_name := "leveldb.BuiltinBloomFilter2";
  create_filter := bloom_create_filter p;
  key_may_match := bloom_key_may_match;
|}.

End bloom.

(** ** [InternalFilterPolicy] *)

Definition internal_create_filter (fp : FilterPolicy) (keys : bytes) (key_offsets : list Z) : exec bytes :=
  _ ← usub (zlen keys) (zlen key_offsets * 8);
  '(mod_keys, mod_key_offsets) ←
    offset_data_iterate
      (λ s key, let '(mod_keys, mod_key_offsets) := s in
                e ← usub (zlen key) 8;
                uk ← slice key 0 e;
                Ret (mod_keys ++ uk, mod_key_offsets ++ [zlen mod_keys]))
      keys key_offsets ([], []);
  create_filter fp mod_keys mod_key_offsets.

Definition internal_key_may_match (fp : FilterPolicy) (key filter : bytes) : exec bool :=
  e ← usub (zlen key) 8;
  uk ← slice key 0 e;
  key_may_match fp uk filter.

Definition InternalFilterPolicy (fp : FilterPolicy) : FilterPolicy := {|
  policy_name := policy_name fp;
  create_filter := internal_create_filter fp;
  key_may_match := internal_key_may_match fp;
|}.

(** ** Checks against the repository's unit tests *)

Section checks.
#[local] Existing Instance Reference.ref_encoding.

(** [test_filter_bloom_hash] *)
Example bloom_hash_check :
  bloom_hash [0x62] = 0xef1345c4 ∧ bloom_hash [0xc3; 0x97] = 0x5b663814
  ∧ bloom_hash [0xe2; 0x99; 0xa5] = 0x323c078f ∧ bloom_hash [0xe1; 0x80; 0xb9; 0x32] = 0xed21633a.
Proof. by vm_compute. Qed.

(** [create_filter] of the tests: the keys are "abc123def456", "xxx111xxx222", "ab00cd00ab" and
    "908070605040302010". *)
Example bloom_filter_check :
  bloom_create_filter (BloomPolicy_new 12)
    [97; 98; 99; 49; 50; 51; 100; 101; 102; 52; 53; 54; 120; 120; 120; 49; 49; 49; 120; 120; 120; 50; 50; 50;
     97; 98; 48; 48; 99; 100; 48; 48; 97; 98; 57; 48; 56; 48; 55; 48; 54; 48; 53; 48; 52; 48; 51; 48; 50; 48; 49; 48]
    [0; 12; 24; 34] = Ret [194; 148; 129; 140; 192; 196; 132; 164; 8].
Proof. by vm_compute. Qed.
End checks.

(** ** Keys given by offsets *)

(** What [FilterBlockBuilder::add_key] makes of a list of keys. *)
Fixpoint offsets_from (o : Z) (ks : list bytes) : list Z :=
  match ks with [] => [] | k :: ks => o :: offsets_from (o + zlen k) ks end.
Definition offsets_of (ks : list bytes) : list Z := offsets_from 0 ks.

Lemma length_offsets o ks : length (offsets_from o ks) = length ks.
Proof. revert o. induction ks as [|k ks IH]; intros o; simpl; auto. Qed.

Lemma length_offsets_of ks : length (offsets_of ks) = length ks.
Proof. apply length_offsets. Qed.

Lemma offsets_from_app o ks ks' :
  offsets_from o (ks ++ ks') = offsets_from o ks ++ offsets_from (o + zlen (concat ks)) ks'.
Proof.
  revert o. induction ks as [|k ks IH]; intros o; simpl; [by rewrite Z.add_0_r|].
  rewrite IH, length_app. do 3 f_equal. lia.
Qed.

Lemma iterate_pieces {S} (f : S → bytes → exec S) ks p s :
  offset_data_iterate f (p ++ concat ks) (offsets_from (zlen p) ks) s = mfoldl f s ks.
Proof.
  revert p s. induction ks as [|k ks IH]; intros p s; cbn [offsets_from offset_data_iterate mfoldl concat]; [done|].
  assert (slice (p ++ k ++ concat ks) (zlen p)
    (match offsets_from (zlen p + zlen k) ks with [] => zlen (p ++ k ++ concat ks) | upper :: _ => upper end) = Ret k) as ->.
  { destruct ks as [|k' ks]; cbn [offsets_from concat].
    - rewrite app_nil_r. apply slice_app_end; rewrite ?length_app; lia.
    - apply slice_app; lia. }
  rewrite bind_Ret. destruct (f s k); [|done|done]. rewrite !bind_Ret.
  rewrite <- (IH (p ++ k)), <- app_assoc. by rewrite length_app, Nat2Z.inj_add.
Qed.

Lemma iterate_all {S} (f : S → bytes → exec S) ks s :
  offset_data_iterate f (concat ks) (offsets_of ks) s = mfoldl f s ks.
Proof. apply (iterate_pieces f ks []). Qed.

(** ** What a policy promises: no false negatives *)

(** The filter answers for every key of at least [n] bytes. *)
Definition answers (fp : FilterPolicy) (n : nat) (f : bytes) : Prop :=
  ∀ k, (n ≤ length k)%nat → ∃ b, key_may_match fp k f = Ret b.

(** On lists of keys that satisfy [fits], the filter is not empty, answers for every key (of
    at least [n] bytes), and matches them all. *)
Definition no_false_negatives (fp : FilterPolicy) (n : nat) (fits : list bytes → Prop) : Prop :=
  ∀ ks, fits ks → ∃ f, create_filter fp (concat ks) (offsets_of ks) = Ret f ∧ f ≠ [] ∧ answers fp n f
    ∧ ∀ k, k ∈ ks → key_may_match fp k f = Ret true.

(** ** Bits *)

Definition has_bit (filter : bytes) (i : Z) : Prop :=
  ∃ b, filter !! Z.to_nat (i / 8) = Some b ∧ Z.testbit b (i mod 8) = true.

Section bits.
Context {IE : IntegerEncoding}.

Lemma land_bit b i : 0 ≤ i → (Z.land b (Z.shiftl 1 i) =? 0) = negb (Z.testbit b i).
Proof.
  intros Hi. destruct (Z.testbit b i) eqn:E; cbn [negb].
  - apply Z.eqb_neq. intros H0. assert (Z.testbit (Z.land b (Z.shiftl 1 i)) i = true) as H1.
    { rewrite Z.land_spec, E, Z.shiftl_spec, Z.sub_diag by done. done. }
    by rewrite H0, Z.bits_0 in H1.
  - apply Z.eqb_eq. apply Z.bits_inj'. intros j Hj. rewrite Z.land_spec, Z.bits_0, Z.shiftl_spec by done.
    destruct (decide (j = i)) as [->|Hne]; [by rewrite E|].
    change 1 with (2 ^ 0). rewrite Z.pow2_bits_false by lia. apply andb_false_r.
Qed.

(** The probes of a hash. *)
Fixpoint probes (k : nat) (bits h delta : Z) : list Z :=
  match k with O => [] | S k => h mod bits :: probes k bits (wrap 32 (h + delta)) delta end.

Lemma bloom_set_ok k bits delta : ∀ h filter,
  0 < bits → bits ≤ zlen filter * 8 →
  ∃ filter', bloom_set k bits h delta filter = Ret filter' ∧ length filter' = length filter
    ∧ drop (Z.to_nat ((bits + 7) / 8)) filter' = drop (Z.to_nat ((bits + 7) / 8)) filter
    ∧ (∀ i, has_bit filter i → has_bit filter' i) ∧ Forall (has_bit filter') (probes k bits h delta).
Proof.
  induction k as [|k IH]; intros h filter Hb Hl; cbn [bloom_set probes].
  { exists filter. split_and!; done || constructor. }
  rewrite (proj2 (Z.eqb_neq bits 0)) by lia. cbn [negb massert mbind exec_bind].
  pose proof (Z.mod_pos_bound h bits Hb) as Hm. set (i := h mod bits) in *.
  assert (0 ≤ i / 8 < zlen filter ∧ i / 8 < (bits + 7) / 8) as [Hi Hi2].
  { split; [split; [apply Z.div_pos; lia|apply Z.div_lt_upper_bound; lia]|].
    apply Z.div_lt_upper_bound; [lia|]. pose proof (Z.div_mod (bits + 7) 8 ltac:(lia)).
    pose proof (Z.mod_pos_bound (bits + 7) 8 ltac:(lia)). lia. }
  destruct (lookup_lt_is_Some_2 filter (Z.to_nat (i / 8))) as [b Hbt]; [lia|].
  pose proof (index_lookup filter (Z.to_nat (i / 8)) b Hbt) as Hix. rewrite Z2Nat.id in Hix by lia.
  rewrite Hix, bind_Ret. unfold set_index. ztest. cbn [andb mbind exec_bind].
  set (f1 := <[Z.to_nat (i / 8) := _]> filter).
  assert (length f1 = length filter) as Hf1 by apply length_insert.
  assert (∀ j, has_bit filter j → has_bit f1 j) as Hmono.
  { intros j (x & Hx & Ht). unfold has_bit, f1. destruct (decide (Z.to_nat (j / 8) = Z.to_nat (i / 8))) as [Heq|Hne].
    - rewrite Heq in *. rewrite list_lookup_insert_eq by lia. eexists. split; [done|]. rewrite Hbt in Hx. injection Hx as <-.
      by rewrite Z.lor_spec, Ht.
    - rewrite list_lookup_insert_ne by done. by exists x. }
  assert (has_bit f1 i) as Hset.
  { unfold has_bit, f1. rewrite list_lookup_insert_eq by lia. eexists. split; [done|].
    pose proof (Z.mod_pos_bound i 8 ltac:(lia)).
    rewrite Z.lor_spec, Z.shiftl_spec, Z.sub_diag by lia. by rewrite orb_true_r. }
  destruct (IH (wrap 32 (h + delta)) f1) as (f2 & E2 & L2 & D2 & M2 & P2); [done|by rewrite Hf1|].
  exists f2. split_and!; [done|by rewrite L2| |auto|constructor; auto].
  rewrite D2. unfold f1. rewrite drop_insert_lt; [done|]. lia.
Qed.

Lemma bloom_test_ok k bits delta filter : ∀ h,
  0 < bits → Forall (has_bit filter) (probes k bits h delta) → bloom_test k bits h delta filter = Ret true.
Proof.
  induction k as [|k IH]; intros h Hb Hp; cbn [bloom_test probes] in *; [done|].
  apply Forall_cons in Hp as [(b & Hl & Ht) Hp]. rewrite (proj2 (Z.eqb_neq bits 0)) by lia.
  cbn [negb massert mbind exec_bind]. pose proof (Z.mod_pos_bound h bits Hb).
  pose proof (index_lookup _ _ _ Hl) as Hix. rewrite Z2Nat.id in Hix by (apply Z.div_pos; lia).
  rewrite Hix, bind_Ret. rewrite land_bit, Ht by (apply Z.mod_pos_bound; lia). by apply IH.
Qed.

End bits.

(** ** Theorems *)

Section theorems.
Context {IE : IntegerEncoding}.

Definition key_probes (k : nat) (bits : Z) (key : bytes) : list Z :=
  probes k bits (bloom_hash key) (bloom_delta (bloom_hash key)).

Lemma bloom_fold k bits : ∀ ks filter,
  0 < bits → bits ≤ zlen filter * 8 →
  ∃ filter', mfoldl (bloom_add k bits) filter ks = Ret filter'
    ∧ length filter' = length filter
    ∧ drop (Z.to_nat ((bits + 7) / 8)) filter' = drop (Z.to_nat ((bits + 7) / 8)) filter
    ∧ (∀ i, has_bit filter i → has_bit filter' i)
    ∧ ∀ key, key ∈ ks → Forall (has_bit filter') (key_probes k bits key).
Proof.
  induction ks as [|x ks IH]; intros filter Hb Hl; cbn [mfoldl].
  { exists filter. split_and!; try done. intros ? []%elem_of_nil. }
  destruct (bloom_set_ok k bits (bloom_delta (bloom_hash x)) (bloom_hash x) filter Hb Hl) as (f1 & E1 & L1 & D1 & M1 & P1).
  change (bloom_add k bits filter x = Ret f1) in E1. rewrite E1, bind_Ret. destruct (IH f1 Hb) as (f2 & -> & L2 & D2 & M2 & P2); [by rewrite L1|].
  exists f2. split_and!; [done|congruence|congruence|auto|].
  intros key [->|Hin]%elem_of_cons; [|by apply P2]. eapply Forall_impl; [exact P1|]. auto.
Qed.

(** When the sizes fit the [u32] arithmetic of the filter. *)
Definition bloom_fits (p : BloomPolicy) (ks : list bytes) : Prop := zlen ks * bits_per_key p < 2 ^ 32 - 8.
Definition bloom_wf (p : BloomPolicy) : Prop := 0 ≤ bits_per_key p ∧ 1 ≤ bloom_k p ≤ 30.

Lemma bloom_new_wf bits : 0 ≤ bits → bloom_wf (BloomPolicy_new bits).
Proof.
  intros Hb. split; [done|]. unfold BloomPolicy_new, BloomPolicy_new_unwrapped. cbn [bloom_k].
  set (k := f32_to_u32 _). clearbody k. destruct (Z.ltb_spec k 1); [lia|]. destruct (Z.ltb_spec 30 k); lia.
Qed.

Lemma bloom_test_answers k bits delta filter : ∀ h,
  0 < bits → bits ≤ zlen filter * 8 → ∃ b, bloom_test k bits h delta filter = Ret b.
Proof.
  induction k as [|k IH]; intros h Hb Hl; cbn [bloom_test]; [by eexists|]. rewrite (proj2 (Z.eqb_neq bits 0)) by lia.
  cbn [negb massert mbind exec_bind]. pose proof (Z.mod_pos_bound h bits Hb).
  destruct (lookup_lt_is_Some_2 filter (Z.to_nat (h mod bits / 8))) as [b Hx].
  { assert (h mod bits / 8 < zlen filter) by (apply Z.div_lt_upper_bound; lia). assert (0 ≤ h mod bits / 8) by (apply Z.div_pos; lia). lia. }
  rewrite (index_Z filter (h mod bits / 8) b), bind_Ret by (done || apply Z.div_pos; lia). destruct (_ =? 0); [by eexists|by apply IH].
Qed.

Lemma bloom_no_fn p : bloom_wf p → no_false_negatives (Bloom p) 0 (bloom_fits p).
Proof.
  intros [Hbpk Hk] ks Hfit. unfold bloom_fits in Hfit. cbn [create_filter key_may_match Bloom].
  unfold bloom_create_filter. rewrite length_offsets_of. unfold umul. ztest. cbn [mbind exec_bind].
  set (fb := zlen ks * bits_per_key p) in *. assert (0 ≤ fb) by (unfold fb; nia).
  set (n := if fb <? 64 then 8 else (fb + 7) / 8).
  assert (8 ≤ n ∧ n * 8 < 2 ^ 32) as [Hn Hn32].
  { unfold n. destruct (Z.ltb_spec fb 64); [lia|]. pose proof (Z.div_mod (fb + 7) 8 ltac:(lia)).
    pose proof (Z.mod_pos_bound (fb + 7) 8 ltac:(lia)). lia. }
  rewrite vec_resize_nil, length_replicate, Z2Nat.id by lia.
  replace (wrap 32 (n * 8)) with (n * 8) by (unfold wrap; rewrite Z.mod_small; lia).
  rewrite iterate_all.
  destruct (bloom_fold (Z.to_nat (bloom_k p)) (n * 8) ks (replicate (Z.to_nat n) 0 ++ [wrap 8 (bloom_k p)]))
    as (f & -> & Lf & Df & _ & Pf); [lia|rewrite length_app, length_replicate; simpl; lia|].
  exists f. split; [done|]. split; [intros ->; rewrite length_app, length_replicate in Lf; simpl in Lf; lia|].
  replace ((n * 8 + 7) / 8) with n in Df by (symmetry; rewrite Z.add_comm, Z.div_add; done || lia).
  rewrite drop_app_length' in Df by (by rewrite length_replicate).
  rewrite length_app, length_replicate in Lf. simpl in Lf.
  assert (f = take (Z.to_nat n) f ++ [wrap 8 (bloom_k p)]) as Ef by (rewrite <- Df; by rewrite take_drop).
  assert (length (take (Z.to_nat n) f) = Z.to_nat n) as Lt by (rewrite length_take; lia).
  assert (∀ key, bloom_key_may_match key f = bloom_test (Z.to_nat (bloom_k p)) (n * 8) (bloom_hash key) (bloom_delta (bloom_hash key)) (take (Z.to_nat n) f)) as Hmatch.
  { intros key. unfold bloom_key_may_match. rewrite decide_False by (intros ->; simpl in Lf; lia).
    rewrite usub_Ret, bind_Ret by lia. replace (zlen f - 1) with n by lia.
    replace (wrap 32 n) with n by (unfold wrap; rewrite Z.mod_small; lia). unfold umul. ztest. rewrite bind_Ret.
    rewrite Ef at 1. rewrite index_app, bind_Ret by lia. rewrite Ef at 1. rewrite slice_to_app, bind_Ret by lia.
    replace (wrap 8 (bloom_k p)) with (bloom_k p) by (unfold wrap; rewrite Z.mod_small; lia). by ztest. }
  split; [intros key _; cbn [key_may_match Bloom]; rewrite Hmatch; apply bloom_test_answers; lia|]. intros key Hin. rewrite Hmatch.
  apply bloom_test_ok; [lia|]. specialize (Pf key Hin). unfold key_probes in Pf.
  rewrite Forall_forall in Pf |- *. intros i Hi. destruct (Pf i Hi) as (b & Hb & Ht). exists b. split; [|done].
  rewrite lookup_take_lt; [done|].
  assert (∀ k h d, i ∈ probes k (n * 8) h d → 0 ≤ i < n * 8) as Hrange.
  { induction k as [|k IHk]; intros h d; cbn [probes]; [by intros []%elem_of_nil|].
    intros [->|Hx]%elem_of_cons; [apply Z.mod_pos_bound; lia|by eapply IHk]. }
  apply Hrange in Hi. assert (i / 8 < n) by (apply Z.div_lt_upper_bound; lia).
  assert (0 ≤ i / 8) by (apply Z.div_pos; lia). lia.
Qed.

(** The wrapper keeps the promise for internal keys. *)
Lemma concat_drop_tags ks :
  Forall (λ k, 8 ≤ length k)%nat ks → ∀ mk mo,
  mfoldl (λ (s : bytes * list Z) key, let '(mod_keys, mod_key_offsets) := s in
            e ← usub (zlen key) 8; uk ← slice key 0 e;
            Ret (mod_keys ++ uk, mod_key_offsets ++ [zlen mod_keys])) (mk, mo) ks
  = Ret (mk ++ concat ((λ k, take (length k - 8) k) <$> ks),
         mo ++ offsets_from (zlen mk) ((λ k, take (length k - 8) k) <$> ks)).
Proof.
  induction 1 as [|k ks Hk Hks IH]; intros mk mo; cbn [mfoldl fmap list_fmap concat offsets_from]; [by rewrite !app_nil_r|].
  rewrite usub_Ret, bind_Ret by lia. rewrite slice_spec by lia. rewrite !bind_Ret.
  replace (Z.to_nat (zlen k - 8 - 0)) with (length k - 8)%nat by lia. change (Z.to_nat 0) with 0%nat. rewrite drop_0.
  rewrite IH, <- !app_assoc. cbn [app]. by rewrite length_app, Nat2Z.inj_add.
Qed.

Lemma internal_no_fn fp fits :
  no_false_negatives fp 0 fits →
  no_false_negatives (InternalFilterPolicy fp) 8
    (λ ks, Forall (λ k, 8 ≤ length k)%nat ks ∧ fits ((λ k, take (length k - 8) k) <$> ks)).
Proof.
  intros Hfp ks [Hlen Hfit]. cbn [create_filter key_may_match InternalFilterPolicy].
  unfold internal_create_filter, internal_key_may_match.
  assert (zlen (offsets_of ks) * 8 ≤ zlen (concat ks)) as Hl.
  { rewrite length_offsets_of. clear Hfit. induction Hlen; simpl; [lia|]. rewrite length_app. lia. }
  rewrite usub_Ret, bind_Ret by done. rewrite iterate_all, concat_drop_tags, bind_Ret by done. cbn [app].
  destruct (Hfp _ Hfit) as (f & Ef & Nf & Af & Mf). exists f.
  assert (∀ key : bytes, (8 ≤ length key)%nat → (e ← usub (zlen key) 8; uk ← slice key 0 e; key_may_match fp uk f) = key_may_match fp (take (length key - 8) key) f) as Hmatch.
  { intros key Hk. rewrite usub_Ret, bind_Ret by lia. rewrite slice_spec by lia. rewrite bind_Ret.
    replace (Z.to_nat (zlen key - 8 - 0)) with (length key - 8)%nat by lia. change (Z.to_nat 0) with 0%nat. by rewrite drop_0. }
  split_and!; [exact Ef|done|intros key Hk; cbn; unfold internal_key_may_match; rewrite Hmatch by done; apply Af; lia|]. intros key Hin.
  rewrite Forall_forall in Hlen. rewrite Hmatch by (by apply Hlen). by apply Mf, (list_elem_of_fmap_2 (λ k : bytes, take (length k - 8) k)).
Qed.

(** ** The size of filters *)

(** At most [per_key] bytes for each key and [base] more. *)
Definition sized (fp : FilterPolicy) (per_key base : Z) : Prop :=
  ∀ keys offs f, create_filter fp keys offs = Ret f → zlen f ≤ per_key * zlen offs + base.

Lemma iterate_keeps {S} (P : S → Prop) (f : S → bytes → exec S) keys offs : ∀ s s',
  (∀ s k s', P s → f s k = Ret s' → P s') → P s → offset_data_iterate f keys offs s = Ret s' → P s'.
Proof.
  induction offs as [|o offs IH]; intros s s' Hf Hs; cbn [offset_data_iterate]; [by intros [= <-]|].
  intros H. exec_inv H. exec_inv Hk. eauto.
Qed.

Lemma iterate_counts {S} (m : S → Z) (f : S → bytes → exec S) keys offs : ∀ s s',
  (∀ s k s', f s k = Ret s' → m s' = m s + 1) → offset_data_iterate f keys offs s = Ret s' → m s' = m s + zlen offs.
Proof.
  induction offs as [|o offs IH]; intros s s' Hf; cbn [offset_data_iterate]; [intros [= <-]; simpl; lia|].
  intros H. exec_inv H. exec_inv Hk. apply Hf in Hm0. apply IH in Hk0; [|done]. rewrite length_cons. lia.
Qed.

Lemma bloom_set_length k : ∀ bits h d f f', bloom_set k bits h d f = Ret f' → length f' = length f.
Proof.
  induction k as [|k IH]; intros bits h d f f'; cbn [bloom_set]; [by intros [= <-]|]. intros H.
  exec_inv H. exec_inv Hk. exec_inv Hk0. apply IH in Hk. unfold set_index in Hm1. destruct (_ && _); [|done].
  simplify_eq. by rewrite Hk, length_insert.
Qed.

Lemma bloom_sized p : 0 ≤ bits_per_key p → sized (Bloom p) (bits_per_key p) 10.
Proof.
  intros Hb keys offs f. cbn [create_filter Bloom]. unfold bloom_create_filter, umul. intros H. exec_inv H.
  destruct (_ <? _); [|done]. simplify_eq. eapply (iterate_keeps (λ g, length g = _)) in Hk; [rewrite Hk|..|reflexivity].
  - rewrite vec_resize_nil, length_app, length_replicate. simpl. destruct (Z.ltb_spec (zlen offs * bits_per_key p) 64); [lia|].
    pose proof (Z.div_le_upper_bound (zlen offs * bits_per_key p + 7) 8 (zlen offs * bits_per_key p) ltac:(lia) ltac:(lia)). lia.
  - intros g k g' Hg Hk'. apply bloom_set_length in Hk'. congruence.
Qed.

Lemma internal_sized fp a b : sized fp a b → sized (InternalFilterPolicy fp) a b.
Proof.
  intros Hs keys offs f. cbn [create_filter InternalFilterPolicy]. unfold internal_create_filter. intros H. exec_inv H. exec_inv Hk.
  destruct r0 as [mk mo]. apply Hs in Hk0. apply (iterate_counts (λ s, zlen s.2)) in Hm0.
  - cbn [snd length] in Hm0. by replace (zlen offs) with (zlen mo) by lia.
  - intros [mk' mo'] k s' H'. exec_inv H'. exec_inv Hk. simplify_eq. cbn [snd]. rewrite length_app. simpl. lia.
Qed.

(** C39: Bloom filters have no false negatives, for plain keys and, through
    [InternalFilterPolicy], for internal keys looked up at any sequence number: a key that was
    added matches the filter. *)
Theorem bloom_no_false_negatives bits ks uk tag tag' :
  0 ≤ bits → zlen ks * bits < 2 ^ 32 - 8 → Forall (λ k, 8 ≤ length k)%nat ks →
  length tag = 8%nat → length tag' = 8%nat → uk ++ tag ∈ ks →
  (∃ f, create_filter (Bloom (BloomPolicy_new bits)) (concat ks) (offsets_of ks) = Ret f
     ∧ key_may_match (Bloom (BloomPolicy_new bits)) (uk ++ tag) f = Ret true)
  ∧ (∃ f, create_filter (InternalFilterPolicy (Bloom (BloomPolicy_new bits))) (concat ks) (offsets_of ks) = Ret f
     ∧ key_may_match (InternalFilterPolicy (Bloom (BloomPolicy_new bits))) (uk ++ tag') f = Ret true).
Proof.
  intros Hb Hfit Hlen Ht Ht' Hin. split.
  { destruct (bloom_no_fn _ (bloom_new_wf bits Hb) ks Hfit) as (f & Ef & _ & _ & Mf). eauto. }
  destruct (internal_no_fn _ _ (bloom_no_fn _ (bloom_new_wf bits Hb)) ks) as (f & Ef & _ & _ & Mf).
  { split; [done|]. unfold bloom_fits. by rewrite length_fmap. }
  specialize (Mf _ Hin). exists f. split; [done|]. cbn [key_may_match InternalFilterPolicy] in *. unfold internal_key_may_match in *.
  rewrite !length_app, Ht, Ht' in *. rewrite usub_Ret, bind_Ret, slice_to_app in * by lia. done.
Qed.

End theorems.

Lemma bloom_no_false_negatives_witness :
  let IE := Reference.ref_encoding in let k1 := [97; 1; 2; 3; 4; 5; 6; 7; 8] in let k2 := [98; 99; 1; 2; 3; 4; 5; 6; 7; 8] in
  (∃ f, create_filter (Bloom (BloomPolicy_new 10)) (concat [k1; k2]) (offsets_of [k1; k2]) = Ret f
     ∧ key_may_match (Bloom (BloomPolicy_new 10)) k2 f = Ret true)
  ∧ (∃ f, create_filter (InternalFilterPolicy (Bloom (BloomPolicy_new 10))) (concat [k1; k2]) (offsets_of [k1; k2]) = Ret f
     ∧ key_may_match (InternalFilterPolicy (Bloom (BloomPolicy_new 10))) [98; 99; 0; 0; 0; 0; 0; 0; 0; 0] f = Ret true).
Proof.
  intros IE k1 k2.
  apply (bloom_no_false_negatives (IE := Reference.ref_encoding) 10 [k1; k2] [98; 99] [1; 2; 3; 4; 5; 6; 7; 8] [0; 0; 0; 0; 0; 0; 0; 0]);
    [lia|by_decide|by_decide|done|done|by_decide].
Defined.
