(* ===== verification/FilterBlock.v ===== *)
(** * FilterBlock: [src/filter_block.rs]

    The filter block of a table: one filter per 2 KiB window of data-block offsets. *)

From S2P Require Import Prelude Encoding Filter.

Definition FILTER_BASE_LOG2 : Z := 11.
Definition FILTER_BASE : Z := Z.shiftl 1 FILTER_BASE_LOG2.

Definition get_filter_index (offset base_lg2 : Z) : Z := wrap 32 (Z.shiftr offset base_lg2).

Record FilterBlockBuilder := mkFilterBuilder {
  fb_policy : FilterPolicy;
  filters : bytes;
  filter_offsets : list Z;
  key_offsets : list Z;
  fb_keys : bytes;
}.

Definition FilterBlockBuilder_new (fp : FilterPolicy) : FilterBlockBuilder :=
  {| fb_policy := fp; filters := []; filter_offsets := []; key_offsets := []; fb_keys := [] |}.

Definition fb_size_estimate (b : FilterBlockBuilder) : Z :=
  zlen (filters b) + 4 * zlen (filter_offsets b) + 4 + 1.
Definition filter_name (b : FilterBlockBuilder) : string := policy_name (fb_policy b).

Definition fb_add_key (b : FilterBlockBuilder) (key : bytes) : FilterBlockBuilder :=
  {| fb_policy := fb_policy b; filters := filters b; filter_offsets := filter_offsets b;
     key_offsets := key_offsets b ++ [zlen (fb_keys b)]; fb_keys := fb_keys b ++ key |}.

Definition generate_filter (b : FilterBlockBuilder) : exec FilterBlockBuilder :=
  let offs := filter_offsets b ++ [zlen (filters b)] in
  if decide (fb_keys b = []) then
    Ret {| fb_policy := fb_policy b; filters := filters b; filter_offsets := offs;
           key_offsets := key_offsets b; fb_keys := fb_keys b |}
  else
    filter ← create_filter (fb_policy b) (fb_keys b) (key_offsets b);
    Ret {| fb_policy := fb_policy b; filters := filters b ++ filter; filter_offsets := offs;
           key_offsets := []; fb_keys := [] |}.

(** The [while] of [start_block]: every turn pushes one offset. *)
Fixpoint generate_upto (fuel : nat) (filter_ix : Z) (b : FilterBlockBuilder) : exec FilterBlockBuilder :=
  match fuel with
  | O => NoFuel
  | S fuel =>
      if wrap 32 (zlen (filter_offsets b)) <? filter_ix then
        b ← generate_filter b; generate_upto fuel filter_ix b
      else Ret b
  end.

Definition start_block (offset : Z) (b : FilterBlockBuilder) : exec FilterBlockBuilder :=
  let filter_ix := get_filter_index offset FILTER_BASE_LOG2 in
  _ ← massert (wrap 32 (zlen (filter_offsets b)) <=? filter_ix);
  generate_upto (S (Z.to_nat filter_ix)) filter_ix b.

Section block.
Context {IE : IntegerEncoding}.

(** The part of [finish] that writes the offsets behind the filters. *)
Definition fb_serialize (b : FilterBlockBuilder) : exec bytes :=
  let result := filters b in
  let offsets_offset := zlen result in
  let ix := zlen result in
  let result := vec_resize (ix + 4 * zlen (filter_offsets b) + 5) 0 result in
  '(result, ix) ←
    mfoldl (λ (s : bytes * Z) offset,
              result ← splice s.1 s.2 (encode_fixed 4 (wrap 32 offset)); Ret (result, s.2 + 4))
      (result, ix) (filter_offsets b);
  result ← splice result ix (encode_fixed 4 (wrap 32 offsets_offset));
  let ix := ix + 4 in
  set_index result ix (wrap 8 FILTER_BASE_LOG2).

Definition fb_finish (b : FilterBlockBuilder) : exec bytes :=
  b ← (if decide (fb_keys b = []) then Ret b else generate_filter b);
  fb_serialize b.

Record FilterBlockReader := mkFilterReader {
  fr_policy : FilterPolicy;
  fr_block : bytes;
  offsets_offset : Z;
  filter_base_lg2 : Z;
}.

Definition FilterBlockReader_new (pol : FilterPolicy) (data : bytes) : exec FilterBlockReader :=
  _ ← massert (5 <=? zlen data);
  fbase ← index data (zlen data - 1);
  o ← slice data (zlen data - 5) (zlen data - 1);
  Ret {| fr_policy := pol; fr_block := data; filter_base_lg2 := fbase; offsets_offset := decode_fixed o |}.

Definition fr_num (r : FilterBlockReader) : exec Z :=
  n ← usub (zlen (fr_block r)) (offsets_offset r);
  n ← usub n 5;
  Ret (wrap 32 (n / 4)).

Definition offset_of (r : FilterBlockReader) (i : Z) : exec Z :=
  let offset_offset := offsets_offset r + 4 * i in
  o ← slice (fr_block r) offset_offset (offset_offset + 4);
  Ret (decode_fixed o).

Definition fr_key_may_match (r : FilterBlockReader) (blk_offset : Z) (key : bytes) : exec bool :=
  let i := get_filter_index blk_offset (filter_base_lg2 r) in
  n ← fr_num r;
  if n <? i then Ret true
  else
    filter_begin ← offset_of r i;
    i' ← uadd 32 i 1;
    filter_end ← offset_of r i';
    _ ← massert (filter_begin <? filter_end);
    _ ← massert (filter_end <=? offsets_offset r);
    f ← slice (fr_block r) filter_begin filter_end;
    key_may_match (fr_policy r) key f.

End block.

(** ** Building *)

(** A table builder's calls: [start_block] at the offset of every data block, then its keys. *)
Definition add_block (b : FilterBlockBuilder) (blk : Z * list bytes) : exec FilterBlockBuilder :=
  b ← start_block blk.1 b; Ret (foldl fb_add_key b blk.2).
Definition add_blocks (b : FilterBlockBuilder) (blks : list (Z * list bytes)) : exec FilterBlockBuilder :=
  mfoldl add_block b blks.

(** The window of an offset. *)
Definition window (off : Z) : nat := Z.to_nat (off / 2048).

Lemma filter_index_window off : 0 ≤ off < 2 ^ 43 → get_filter_index off 11 = Z.of_nat (window off).
Proof.
  intros Ho. unfold get_filter_index, window, wrap. rewrite Z.shiftr_div_pow2 by lia. change (2 ^ 11) with 2048.
  assert (0 ≤ off / 2048 < 2 ^ 32) by (split; [apply Z.div_pos; lia|apply Z.div_lt_upper_bound; lia]).
  rewrite Z.mod_small; lia.
Qed.

Section build.
Variable (fp : FilterPolicy) (n : nat) (fits : list bytes → Prop).
Hypothesis (Hfp : no_false_negatives fp n fits).

(** The filter of a window matches its keys and answers for the others. *)
Definition serves (F : list bytes) (off : Z) (k : bytes) : Prop :=
  ∃ f, F !! window off = Some f ∧ f ≠ [] ∧ answers fp n f ∧ key_may_match fp k f = Ret true.

(** The state of a builder: the filters generated so far and the pending keys, which are the
    last ones of all keys and belong to the current window. *)
Record built (b : FilterBlockBuilder) (F P all : list bytes) (done : list (Z * list bytes)) : Prop := {
  built_policy : fb_policy b = fp;
  built_filters : filters b = concat F;
  built_offsets : filter_offsets b = offsets_of F;
  built_keys : fb_keys b = concat P;
  built_key_offsets : key_offsets b = offsets_of P;
  built_pending : ∃ Q, all = Q ++ P;
  built_nonempty : Forall (λ k, k ≠ []) P;
  built_serves : ∀ off ks k, (off, ks) ∈ done → k ∈ ks →
                   serves F off k ∨ (window off = length F ∧ k ∈ P);
}.

Lemma concat_nil_inv (P : list bytes) : Forall (λ k, k ≠ []) P → concat P = [] → P = [].
Proof. destruct P; [done|]. intros [? _]%Forall_cons [? _]%app_eq_nil. done. Qed.

Lemma generate_ok b F P all done :
  built b F P all done → fits P →
  ∃ b' F', generate_filter b = Ret b' ∧ built b' F' [] all done ∧ length F' = S (length F)
    ∧ ∀ off k, window off = length F → k ∈ P → serves F' off k.
Proof.
  intros B Hfit. unfold generate_filter. rewrite (built_keys _ _ _ _ _ B), (built_filters _ _ _ _ _ B).
  assert (∀ f off k, serves F off k → serves (F ++ [f]) off k) as Hkeep.
  { intros f off k (f0 & Hl & ?). exists f0. split; [|done]. by apply lookup_app_l_Some. }
  assert (∀ f, offsets_of F ++ [zlen (concat F)] = offsets_of (F ++ [f])) as Hoff.
  { intros f. unfold offsets_of. rewrite offsets_from_app. by rewrite Z.add_0_l. }
  destruct B as [Hp Hf Ho Hk Hko HQ Hne Hs]. case_decide as Hnil.
  - apply concat_nil_inv in Hnil as ->; [|done]. eexists _, (F ++ [[]]).
    split; [done|]. split; [|split; [by rewrite length_app, Nat.add_comm|by intros ? ? _ []%elem_of_nil]].
    split; cbn; try done; [by rewrite concat_app, app_nil_r|by rewrite Ho; apply Hoff|].
    intros off ks k Hin Hkk. left. apply Hkeep. destruct (Hs off ks k Hin Hkk) as [?|[_ []%elem_of_nil]]. done.
  - destruct (Hfp P Hfit) as (f & Ef & Nf & Af & Mf). rewrite Hp, Hko, Ef, bind_Ret. eexists _, (F ++ [f]).
    assert (∀ off k, window off = length F → k ∈ P → serves (F ++ [f]) off k) as Hnew.
    { intros off k Hw Hin. exists f. split_and!; [by rewrite lookup_app_r, Hw, Nat.sub_diag by lia|done|done|by apply Mf]. }
    split; [done|]. split; [|split; [by rewrite length_app, Nat.add_comm|done]].
    split; cbn; try done; [by rewrite concat_app; cbn; rewrite app_nil_r|by rewrite Ho; apply Hoff| |].
    + exists all. by rewrite app_nil_r.
    + intros off ks k Hin Hkk. left. destruct (Hs off ks k Hin Hkk) as [?|[? ?]]; auto.
Qed.

Lemma generate_upto_ok ix fuel : ∀ b F P all done,
  built b F P all done → (∀ q p r, all = p ++ q ++ r → fits q) →
  (length F ≤ ix)%nat → Z.of_nat ix < 2 ^ 32 → (ix - length F < fuel)%nat →
  ∃ b' F' P', generate_upto fuel (Z.of_nat ix) b = Ret b' ∧ built b' F' P' all done ∧ length F' = ix
    ∧ (ix = length F → P' = P) ∧ (ix ≠ length F → P' = []).
Proof.
  induction fuel as [|fuel IH]; intros b F P all done B Hfit Hle H32 Hf; [lia|]. cbn [generate_upto].
  rewrite (built_offsets _ _ _ _ _ B), length_offsets_of, wrap_small by lia.
  destruct (Z.ltb_spec (zlen F) (Z.of_nat ix)) as [Hlt|Hge].
  - destruct (built_pending _ _ _ _ _ B) as [Q HQ].
    destruct (generate_ok _ _ _ _ _ B) as (b1 & F1 & -> & B1 & L1 & _); [apply (Hfit P Q []); by rewrite app_nil_r|].
    rewrite bind_Ret. destruct (IH b1 F1 [] all done B1 Hfit) as (b2 & F2 & P2 & -> & B2 & L2 & H1 & H2); [lia..|].
    exists b2, F2, P2. split_and!; [done..|lia|]. intros _. destruct (decide (ix = length F1)); auto.
  - assert (ix = length F) as -> by lia. exists b, F, P. split_and!; done || lia.
Qed.

Lemma add_keys_ok ks : ∀ b F P all done off,
  built b F P all done → Forall (λ k, k ≠ []) ks → window off = length F →
  built (foldl fb_add_key b ks) F (P ++ ks) (all ++ ks) (done ++ [(off, ks)]).
Proof.
  intros b F P all done off B Hks Hw.
  assert (∀ b P, fb_keys b = concat P → key_offsets b = offsets_of P →
    let b' := foldl fb_add_key b ks in
    fb_policy b' = fb_policy b ∧ filters b' = filters b ∧ filter_offsets b' = filter_offsets b
    ∧ fb_keys b' = concat (P ++ ks) ∧ key_offsets b' = offsets_of (P ++ ks)) as Hfold.
  { clear. induction ks as [|k ks IH]; intros b P Hk Ho; cbn [foldl]; [by rewrite app_nil_r|].
    destruct (IH (fb_add_key b k) (P ++ [k])) as (H1 & H2 & H3 & H4 & H5); cbn.
    - rewrite Hk, concat_app. simpl. by rewrite app_nil_r.
    - rewrite Ho, Hk. unfold offsets_of. by rewrite offsets_from_app, Z.add_0_l.
    - rewrite <- app_assoc in H4, H5. by split_and!. }
  destruct B as [Hp Hf Ho Hk Hko [Q HQ] Hne Hs]. destruct (Hfold b P Hk Hko) as (H1 & H2 & H3 & H4 & H5).
  split; try congruence.
  - exists Q. by rewrite HQ, app_assoc.
  - by apply Forall_app.
  - intros off' ks' k Hin Hkk. apply elem_of_app in Hin as [Hin|[= -> ->]%list_elem_of_singleton].
    + destruct (Hs _ _ _ Hin Hkk) as [?|[? ?]]; [by left|right]. split; [done|]. apply elem_of_app. by left.
    + right. split; [done|]. apply elem_of_app. by right.
Qed.

(** Blocks at increasing offsets. *)
Lemma add_blocks_ok blks : ∀ b F P all done lo,
  built b F P all done → (length F ≤ window lo)%nat → 0 ≤ lo →
  StronglySorted Z.le (lo :: blks.*1) → Forall (λ blk, blk.1 < 2 ^ 43 ∧ Forall (λ k, k ≠ []) blk.2) blks →
  (∀ q p r, all ++ concat (blks.*2) = p ++ q ++ r → fits q) →
  ∃ b' F' P', add_blocks b blks = Ret b' ∧ built b' F' P' (all ++ concat (blks.*2)) (done ++ blks)
    ∧ ∃ off, off ∈ lo :: blks.*1 ∧ (length F' ≤ window off)%nat.
Proof.
  induction blks as [|[off ks] blks IH]; intros b F P all done lo B Hle Hlo Hs Hb Hfit; cbn [add_blocks mfoldl].
  { exists b, F, P. cbn. rewrite !app_nil_r. split_and!; [done..|]. exists lo. split; [left|done]. }
  apply StronglySorted_inv in Hs as [Hs Hmin]. cbn [fmap list_fmap fst] in Hmin. apply Forall_cons in Hmin as [Hmin _].
  apply Forall_cons in Hb as [[Hoff Hks] Hb]. cbn [fst snd] in *.
  assert (window lo ≤ window off)%nat as Hww.
  { unfold window. pose proof (Z.div_le_mono lo off 2048 ltac:(lia) Hmin). lia. }
  assert (Z.of_nat (window off) < 2 ^ 32) as H32.
  { rewrite <- (filter_index_window off) by lia. unfold get_filter_index, wrap. by apply Z.mod_pos_bound. }
  unfold add_block, start_block. cbn [fst snd]. change FILTER_BASE_LOG2 with 11. rewrite filter_index_window by lia.
  rewrite (built_offsets _ _ _ _ _ B), length_offsets_of, wrap_small by lia. ztest.
  cbn [massert mbind exec_bind]. rewrite Nat2Z.id.
  destruct (generate_upto_ok (window off) (S (window off)) _ _ _ _ _ B) as (b1 & F1 & P1 & -> & B1 & L1 & _); [|lia..|].
  { intros q p r ->. apply (Hfit q p (r ++ concat (((off, ks) :: blks).*2))). by rewrite <- !app_assoc. }
  rewrite bind_Ret. cbn [mbind exec_bind].
  apply (add_keys_ok ks) with (off := off) in B1; [|done|done].
  destruct (IH _ _ _ _ _ off B1) as (b2 & F2 & P2 & E2 & B2 & x & Hx & HF); [lia|lia|done|done| |].
  { intros q p r Hq. apply (Hfit q p r). rewrite <- Hq. cbn. by rewrite app_assoc. }
  exists b2, F2, P2. rewrite <- !app_assoc in B2. split_and!; [exact E2|exact B2|]. exists x. split; [by right|done].
Qed.

End build.

(** ** How long a filter block can get *)

Section size.
Variables (fp : FilterPolicy) (per_key base : Z).
Hypotheses (Hsized : sized fp per_key base).

(** [n] keys were added in all. *)
Definition fb_sized (b : FilterBlockBuilder) (n : Z) : Prop :=
  fb_policy b = fp ∧ zlen (filters b) + per_key * zlen (key_offsets b) ≤ per_key * n + base * zlen (filter_offsets b).

Lemma generate_sized b b' n :
  0 ≤ base → fb_sized b n → generate_filter b = Ret b' → fb_sized b' n ∧ length (filter_offsets b') = S (length (filter_offsets b)).
Proof.
  intros Hb [Hp Hs]. unfold generate_filter. case_decide; [intros [= <-]|intros H'; exec_inv H'; simplify_eq];
    (split; [split; [done|]|]); cbn; rewrite ?length_app; simpl; try lia.
  rewrite Hp in Hm. apply Hsized in Hm. lia.
Qed.

Lemma upto_sized fuel ix : ∀ b b' n, 0 ≤ base → fb_sized b n → generate_upto fuel ix b = Ret b' → fb_sized b' n.
Proof.
  induction fuel as [|fuel IH]; intros b b' n Hb Hs; cbn [generate_upto]; [done|]. destruct (_ <? _); [|by intros [= <-]].
  intros H. exec_inv H. destruct (generate_sized _ _ _ Hb Hs Hm) as [H1 _]. eauto.
Qed.

Lemma add_key_sized b n k : fb_sized b n → fb_sized (fb_add_key b k) (n + 1).
Proof. intros [Hp Hs]. split; [done|]. cbn. rewrite length_app. simpl. lia. Qed.

Lemma add_keys_sized ks : ∀ b n, fb_sized b n → fb_sized (foldl fb_add_key b ks) (n + zlen ks).
Proof.
  induction ks as [|k ks IH]; intros b n Hs; cbn [foldl length]; [by rewrite Z.add_0_r|].
  replace (n + _) with (n + 1 + zlen ks) by lia. apply IH. by apply add_key_sized.
Qed.

Lemma add_blocks_sized blks : ∀ b b' n,
  0 ≤ base → fb_sized b n → add_blocks b blks = Ret b' → fb_sized b' (n + zlen (concat blks.*2)).
Proof.
  induction blks as [|[off ks] blks IH]; intros b b' n Hb Hs; cbn [add_blocks mfoldl]; [intros [= <-]; by rewrite Z.add_0_r|].
  intros H. exec_inv H. unfold add_block in Hm. exec_inv Hm. simplify_eq. unfold start_block in Hm0. exec_inv Hm0.
  apply (upto_sized _ _ _ _ _ Hb Hs), (add_keys_sized ks) in Hk0. apply (IH _ _ _ Hb Hk0) in Hk. cbn in Hk |- *.
  by rewrite length_app, Nat2Z.inj_add, Z.add_assoc.
Qed.

Lemma splice_length {A} (l : list A) a src r : splice l a src = Ret r → length r = length l.
Proof.
  unfold splice. destruct (_ && _) eqn:E; [|done]. intros [= <-]. rewrite andb_true_iff, !Z.leb_le in E.
  rewrite !length_app, length_take, length_drop. lia.
Qed.

Lemma serialize_length {IE : IntegerEncoding} b bs :
  fb_serialize b = Ret bs → zlen bs = zlen (filters b) + 4 * zlen (filter_offsets b) + 5.
Proof.
  unfold fb_serialize. intros H. exec_inv H. destruct r as [r ix]. exec_inv Hk. unfold set_index in Hk0.
  destruct (_ && _); [|done]. simplify_eq. rewrite length_insert. apply splice_length in Hm0. rewrite Hm0.
  assert (∀ offs r ix r' ix', mfoldl (λ (s : bytes * Z) offset,
    result ← splice s.1 s.2 (encode_fixed 4 (wrap 32 offset)); Ret (result, s.2 + 4)) (r, ix) offs = Ret (r', ix') → length r' = length r) as Hf.
  { clear. induction offs as [|o offs IH]; intros r ix r' ix'; cbn [mfoldl]; [by intros [= <- <-]|]. intros H. exec_inv H.
    exec_inv Hm. simplify_eq. apply IH in Hk. apply splice_length in Hm0. cbn in Hm0. by rewrite Hk. }
  apply Hf in Hm. rewrite Hm. unfold vec_resize. rewrite length_app, length_take, length_replicate. lia.
Qed.

Lemma finish_sized {IE : IntegerEncoding} b bs n :
  0 ≤ per_key → 0 ≤ base → fb_sized b n → fb_finish b = Ret bs →
  zlen bs ≤ per_key * n + (base + 4) * (zlen (filter_offsets b) + 1) + 5.
Proof.
  intros Hpk Hb Hs. unfold fb_finish. intros H. exec_inv H. apply serialize_length in Hk. rewrite Hk. case_decide.
  - simplify_eq. destruct Hs as [_ Hs]. lia.
  - destruct (generate_sized _ _ _ Hb Hs Hm) as [[_ H1] H2]. lia.
Qed.

End size.

(** ** The bytes of a filter block *)

Section bytes.
Context `{IEL : IntegerEncodingLaws}.

(** The filters, their offsets with the end of the last one, and the base. *)
Definition block_bytes (F : list bytes) : bytes :=
  concat F ++ fixed_array 4 (wrap 32 <$> offsets_of F ++ [zlen (concat F)]) ++ [11].

Lemma write_offsets offs : ∀ pre post,
  mfoldl (λ (s : bytes * Z) offset,
            result ← splice s.1 s.2 (encode_fixed 4 (wrap 32 offset)); Ret (result, s.2 + 4))
    (pre ++ replicate (4 * length offs) 0 ++ post, zlen pre) offs
  = Ret (pre ++ fixed_array 4 (wrap 32 <$> offs) ++ post, zlen pre + 4 * zlen offs).
Proof.
  induction offs as [|o offs IH]; intros pre post; cbn [mfoldl fst snd].
  { simpl. by rewrite Z.add_0_r. }
  replace (4 * length (o :: offs))%nat with (4 + 4 * length offs)%nat by (simpl; lia).
  rewrite replicate_add, <- app_assoc. pose proof (length_encode_fixed_nat 4 (wrap 32 o) ltac:(lia)) as L4.
  rewrite splice_app by (rewrite ?length_replicate; lia). rewrite !bind_Ret.
  specialize (IH (pre ++ encode_fixed 4 (wrap 32 o)) post). rewrite <- app_assoc in IH.
  replace (zlen pre + 4) with (zlen (pre ++ encode_fixed 4 (wrap 32 o))) by (rewrite length_app; lia).
  rewrite IH. rewrite fmap_cons, <- app_assoc. change (fixed_array 4 (wrap 32 o :: (wrap 32 <$> offs)))
    with (encode_fixed 4 (wrap 32 o) ++ fixed_array 4 (wrap 32 <$> offs)). rewrite <- app_assoc.
  do 2 f_equal. rewrite length_app. simpl length. lia.
Qed.

Lemma serialize_ok b F :
  filters b = concat F → filter_offsets b = offsets_of F → fb_serialize b = Ret (block_bytes F).
Proof.
  intros Hf Ho. unfold fb_serialize. rewrite Hf, Ho. unfold vec_resize.
  rewrite take_ge by lia. replace (Z.to_nat _ - length (concat F))%nat with (4 * length (offsets_of F) + 5)%nat by lia.
  rewrite replicate_add, write_offsets, bind_Ret. unfold block_bytes.
  pose proof (length_encode_fixed_nat 4 (wrap 32 (zlen (concat F))) ltac:(lia)) as L4.
  pose proof (length_fixed_array 4 (wrap 32 <$> offsets_of F) ltac:(lia)) as LA. rewrite length_fmap in LA.
  change (replicate 5 0) with (replicate 4 0 ++ [0]). rewrite (app_assoc (concat F)).
  rewrite splice_app by (rewrite ?length_app, ?length_replicate; lia). rewrite bind_Ret.
  rewrite fmap_app, fixed_array_app. change (fixed_array 4 (wrap 32 <$> [zlen (concat F)])) with (encode_fixed 4 (wrap 32 (zlen (concat F))) ++ []).
  rewrite app_nil_r. unfold set_index. rewrite !length_app. simpl (length [0]). ztest. cbn [andb].
  rewrite (app_assoc (_ ++ _) (encode_fixed 4 _)). rewrite insert_app_r_alt by (rewrite !length_app; lia).
  replace (Z.to_nat _ - _)%nat with 0%nat by (rewrite !length_app; lia). by ztest; rewrite <- !app_assoc.
Qed.

Lemma finish_ok fp n fits b F P all done :
  no_false_negatives fp n fits → built fp n b F P all done → fits P →
  ∃ F', fb_finish b = Ret (block_bytes F')
    ∧ ∀ off ks k, (off, ks) ∈ done → k ∈ ks → serves fp n F' off k.
Proof.
  intros Hfp B Hfit. unfold fb_finish.
  assert (∃ b' F', (if decide (fb_keys b = []) then Ret b else generate_filter b) = Ret b'
    ∧ built fp n b' F' [] all done) as (b' & F' & -> & B').
  { case_decide as Hnil.
    - exists b, F. split; [done|]. rewrite (built_keys _ _ _ _ _ _ _ B) in Hnil.
      apply concat_nil_inv in Hnil as ->; [done|exact (built_nonempty _ _ _ _ _ _ _ B)].
    - destruct (generate_ok fp n fits Hfp _ _ _ _ _ B Hfit) as (b' & F' & -> & B' & _). eauto. }
  rewrite bind_Ret. exists F'. split.
  - apply serialize_ok; [exact (built_filters _ _ _ _ _ _ _ B')|exact (built_offsets _ _ _ _ _ _ _ B')].
  - intros off ks k Hin Hk. destruct (built_serves _ _ _ _ _ _ _ B' off ks k Hin Hk) as [?|[_ []%elem_of_nil]]. done.
Qed.

(** Where the filters of a block are. *)
Lemma offsets_lookup F i : (i < length F)%nat → offsets_of F !! i = Some (zlen (concat (take i F))).
Proof.
  intros Hi. destruct (lookup_lt_is_Some_2 F i Hi) as [f Hf].
  rewrite <- (take_drop_middle F i f Hf) at 1. unfold offsets_of. rewrite offsets_from_app.
  rewrite lookup_app_r, length_offsets, length_take_le by (rewrite ?length_offsets, ?length_take; lia).
  by rewrite Nat.sub_diag.
Qed.

Lemma offsets_end_lookup F i :
  (i ≤ length F)%nat → (offsets_of F ++ [zlen (concat F)]) !! i = Some (zlen (concat (take i F))).
Proof.
  intros Hi. destruct (decide (i = length F)) as [->|Hne].
  - rewrite lookup_app_r by (by rewrite length_offsets_of). rewrite length_offsets_of, Nat.sub_diag.
    by rewrite take_ge by lia.
  - rewrite lookup_app_l by (rewrite length_offsets_of; lia). apply offsets_lookup. lia.
Qed.

Lemma concat_take_le (F : list bytes) i : (length (concat (take i F)) ≤ length (concat F))%nat.
Proof. rewrite <- (take_drop i F) at 2. rewrite concat_app, length_app. lia. Qed.

Definition reader_of fp (F : list bytes) : FilterBlockReader :=
  {| fr_policy := fp; fr_block := block_bytes F; offsets_offset := zlen (concat F); filter_base_lg2 := 11 |}.

Lemma length_block_bytes F : zlen (block_bytes F) = zlen (concat F) + 4 * zlen F + 5.
Proof.
  unfold block_bytes. rewrite !length_app, !Nat2Z.inj_add, length_fixed_array, length_fmap, length_app, length_offsets_of by lia.
  simpl. lia.
Qed.

Lemma reader_slot F i a :
  zlen (block_bytes F) < 2 ^ 32 → (i ≤ length F)%nat → a = zlen (concat F) + 4 * Z.of_nat i →
  ∃ o, slice (block_bytes F) a (a + 4) = Ret o ∧ decode_fixed o = zlen (concat (take i F)).
Proof.
  intros Hl Hi Ha. rewrite length_block_bytes in Hl. pose proof (concat_take_le F i).
  exists (encode_fixed 4 (zlen (concat (take i F)))). split; [|apply decode_encode_fixed; unfold is_u; lia].
  unfold block_bytes. apply slice_fixed_array with (i := i); [lia| |done|done].
  rewrite list_lookup_fmap, offsets_end_lookup by done. cbn. by rewrite wrap_small by lia.
Qed.

Lemma reader_new_ok fp F :
  zlen (block_bytes F) < 2 ^ 32 → FilterBlockReader_new fp (block_bytes F) = Ret (reader_of fp F).
Proof.
  intros Hl. pose proof (length_block_bytes F) as HB. unfold FilterBlockReader_new. ztest. cbn [massert mbind exec_bind].
  assert (index (block_bytes F) (zlen (block_bytes F) - 1) = Ret 11) as ->.
  { rewrite HB. unfold block_bytes. rewrite app_assoc. apply index_app.
    rewrite length_app, Nat2Z.inj_add, length_fixed_array, length_fmap, length_app, length_offsets_of by lia. simpl. lia. }
  destruct (reader_slot F (length F) (zlen (block_bytes F) - 5) Hl ltac:(lia) ltac:(lia)) as (o & Ho & Hd).
  replace (zlen (block_bytes F) - 5 + 4) with (zlen (block_bytes F) - 1) in Ho by lia. rewrite Ho.
  cbn [mbind exec_bind]. by rewrite Hd, take_ge by lia.
Qed.

Lemma reader_num_ok fp F : zlen (block_bytes F) < 2 ^ 32 → fr_num (reader_of fp F) = Ret (zlen F).
Proof.
  intros Hl. rewrite length_block_bytes in Hl. unfold fr_num. cbn [fr_block offsets_offset reader_of].
  rewrite length_block_bytes. rewrite usub_Ret, bind_Ret, usub_Ret, bind_Ret by lia.
  replace (_ - _ - 5) with (zlen F * 4) by lia. by rewrite Z.div_mul, wrap_small by lia.
Qed.

Lemma reader_offset_ok fp F i :
  zlen (block_bytes F) < 2 ^ 32 → (i ≤ length F)%nat →
  offset_of (reader_of fp F) (Z.of_nat i) = Ret (zlen (concat (take i F))).
Proof.
  intros Hl Hi. unfold offset_of. cbn [fr_block offsets_offset reader_of].
  destruct (reader_slot F i _ Hl Hi eq_refl) as (o & -> & Hd). cbn. by rewrite Hd.
Qed.

(** The reader asks the filter of the window. *)
Lemma reader_asks fp F off k f :
  zlen (block_bytes F) < 2 ^ 32 → 0 ≤ off < 2 ^ 43 → F !! window off = Some f → f ≠ [] →
  fr_key_may_match (reader_of fp F) off k = key_may_match fp k f.
Proof.
  intros Hl Ho Hf Nf. unfold fr_key_may_match. change (filter_base_lg2 (reader_of fp F)) with 11.
  rewrite filter_index_window, reader_num_ok, bind_Ret by done. pose proof (lookup_lt_Some _ _ _ Hf) as Hi.
  pose proof (length_block_bytes F). ztest. rewrite reader_offset_ok, bind_Ret by (done || lia).
  unfold uadd. ztest. rewrite bind_Ret. replace (Z.of_nat (window off) + 1) with (Z.of_nat (S (window off))) by lia.
  rewrite reader_offset_ok, bind_Ret by (done || lia).
  rewrite (take_S_r _ _ _ Hf), concat_app. simpl concat. rewrite app_nil_r.
  pose proof (take_drop_middle F _ f Hf) as HF. apply (f_equal (λ x : list bytes, concat x)) in HF.
  rewrite concat_app in HF. cbn [concat] in HF.
  assert (zlen (concat F) = zlen (concat (take (window off) F)) + (zlen f + zlen (concat (drop (S (window off)) F)))) as HFl
    by (rewrite <- HF at 1; rewrite !length_app; lia).
  assert (0 < zlen f) by (destruct f; [done|simpl; lia]).
  cbn [offsets_offset reader_of fr_block fr_policy]. rewrite !length_app. ztest. cbn [massert mbind exec_bind].
  unfold block_bytes. rewrite <- HF at 1. rewrite <- !app_assoc. by rewrite slice_app by lia.
Qed.

Lemma reader_ok fp n F off k :
  zlen (block_bytes F) < 2 ^ 32 → 0 ≤ off < 2 ^ 43 → serves fp n F off k →
  fr_key_may_match (reader_of fp F) off k = Ret true.
Proof. intros Hl Ho (f & Hf & Nf & _ & Mf). by rewrite (reader_asks fp F off k f). Qed.

End bytes.

(** ** Theorems *)

Section theorems.
Context `{IEL : IntegerEncodingLaws}.

Lemma new_built fp n : built fp n (FilterBlockBuilder_new fp) [] [] [] [].
Proof. split; try done; [by exists []|by intros ? ? ? []%elem_of_nil]. Qed.

(** C24: for every policy without false negatives, the filter block built from data blocks at
    increasing offsets (several of them sharing a 2 KiB window, or windows being skipped)
    reports that a key may match, when asked for the offset of a block that contains it. *)
Theorem filter_block_no_false_negatives fp n fits blks :
  no_false_negatives fp n fits → StronglySorted Z.le (0 :: blks.*1) →
  Forall (λ blk : Z * list bytes, blk.1 < 2 ^ 43 ∧ Forall (λ k, k ≠ []) blk.2) blks →
  (∀ q p r, concat (blks.*2) = p ++ q ++ r → fits q) →
  ∃ b bs, add_blocks (FilterBlockBuilder_new fp) blks = Ret b ∧ fb_finish b = Ret bs
    ∧ (zlen bs < 2 ^ 32 → ∃ r, FilterBlockReader_new fp bs = Ret r
         ∧ ∀ off ks k, (off, ks) ∈ blks → k ∈ ks → fr_key_may_match r off k = Ret true).
Proof.
  intros Hfp Hs Hb Hfit.
  destruct (add_blocks_ok fp n fits Hfp blks _ [] [] [] [] 0 (new_built fp n)) as (b & F & P & Eb & B & _); try done.
  destruct (built_pending _ _ _ _ _ _ _ B) as [Q HQ].
  destruct (finish_ok fp n fits b F P _ _ Hfp B) as (F' & Ef & Hserve); [apply (Hfit P Q []); by rewrite app_nil_r|].
  exists b, (block_bytes F'). split_and!; [done..|]. intros Hl. exists (reader_of fp F').
  split; [by apply reader_new_ok|]. intros off ks k Hin Hk. apply (reader_ok fp n); [done| |by eapply Hserve].
  rewrite Forall_forall in Hb. destruct (Hb _ Hin) as [? _]. cbn in *. split; [|done].
  apply StronglySorted_inv in Hs as [_ Hmin]. rewrite Forall_forall in Hmin. apply Hmin.
  by apply (list_elem_of_fmap_2 fst _ _ Hin).
Qed.

(** With [NoFilterPolicy], whose filters are empty, asking the filter block about a key
    panics (its first assertion needs a non-empty filter), although the policy itself answers
    that every key may match. *)
Theorem no_filter_policy_block_panics k :
  k ≠ [] →
  ∃ b bs r, add_blocks (FilterBlockBuilder_new NoFilterPolicy) [(0, [k])] = Ret b ∧ fb_finish b = Ret bs
    ∧ FilterBlockReader_new NoFilterPolicy bs = Ret r ∧ fr_key_may_match r 0 k = Panic
    ∧ key_may_match NoFilterPolicy k [] = Ret true.
Proof.
  intros Hk. eexists _, (block_bytes [[]]), (reader_of NoFilterPolicy [[]]).
  assert (zlen (block_bytes [[]]) < 2 ^ 32) as Hl by (rewrite length_block_bytes; done).
  split_and!; [reflexivity| |by apply reader_new_ok| |done].
  - unfold fb_finish. cbn [fb_keys foldl fb_add_key FilterBlockBuilder_new app]. rewrite decide_False by done.
    unfold generate_filter. cbn [fb_keys]. rewrite decide_False by done. by apply serialize_ok.
  - unfold fr_key_may_match. rewrite reader_num_ok, bind_Ret by done.
    change (get_filter_index 0 _) with (Z.of_nat 0). change (zlen [[]] <? Z.of_nat 0) with false. cbv iota.
    rewrite reader_offset_ok, bind_Ret by (done || simpl; lia). change (uadd 32 (Z.of_nat 0) 1) with (Ret (Z.of_nat 1)).
    rewrite bind_Ret. by rewrite reader_offset_ok by (done || simpl; lia).
Qed.

End theorems.

Lemma filter_block_no_false_negatives_witness :
  let IE := Reference.ref_encoding in let fp := Bloom (BloomPolicy_new 10) in
  let blks := [(0, [[97]; [98]]); (1500, [[99]]); (6000, [[100]])] in
  ∃ b bs, add_blocks (FilterBlockBuilder_new fp) blks = Ret b ∧ fb_finish b = Ret bs
    ∧ (zlen bs < 2 ^ 32 → ∃ r, FilterBlockReader_new fp bs = Ret r
         ∧ ∀ off ks k, (off, ks) ∈ blks → k ∈ ks → fr_key_may_match r off k = Ret true).
Proof.
  intros IE fp blks.
  apply (filter_block_no_false_negatives (IEL := Reference.ref_encoding_laws) fp 0 (bloom_fits (BloomPolicy_new 10)) blks).
  - apply bloom_no_fn, bloom_new_wf. lia.
  - repeat constructor; by_decide.
  - by_decide.
  - intros q p r Hq. apply (f_equal length) in Hq. rewrite !length_app in Hq. cbn in Hq.
    unfold bloom_fits. change (bits_per_key (BloomPolicy_new 10)) with 10. lia.
Defined.

Lemma no_filter_policy_block_panics_witness :
  let IE := Reference.ref_encoding in
  ∃ b bs r, add_blocks (FilterBlockBuilder_new NoFilterPolicy) [(0, [[97]])] = Ret b ∧ fb_finish b = Ret bs
    ∧ FilterBlockReader_new NoFilterPolicy bs = Ret r ∧ fr_key_may_match r 0 [97] = Panic
    ∧ key_may_match NoFilterPolicy [97] [] = Ret true.
Proof. exact (no_filter_policy_block_panics (IEL := Reference.ref_encoding_laws) [97] ltac:(done)). Defined.
