(* ===== verification/Options.v ===== *)
(** * Options: [src/options.rs] and [src/compressor.rs]

    The options record and the list of compressors.  The environment, the information log
    and the block cache are shared mutable objects: they are passed to the operations that
    use them and are not part of the record. *)

From S2P Require Import Prelude Encoding Error Types Cmp Filter.

(** [trait Compressor] *)
Record Compressor := mkCompressor {
  compress : bytes → Result bytes;
  decompress : bytes → Result bytes;
}.

Definition NoneCompressor_ID : Z := 0.
Definition NoneCompressor : Compressor :=
  {| compress block := Ok block; decompress block := Ok block |}.

(** The crate [snap]: compression and decompression, or an error's text. *)
Class Snap := {
  compress_vec : bytes → result string bytes;
  decompress_vec : bytes → result string bytes;
}.

Definition from_snap {A} (r : result string A) : Result A :=
  match r with Ok a => Ok a | Err e => Err (Status_from_snap e) end.

Definition SnappyCompressor_ID : Z := 1.
Definition SnappyCompressor `{Snap} : Compressor :=
  {| compress block := from_snap (compress_vec block); decompress block := from_snap (decompress_vec block) |}.

(** [CompressorList]: an array of 256 optional compressors. *)
Abbreviation CompressorList := (list (option Compressor)) (only parsing).

Definition CompressorList_new : CompressorList := replicate 256 None.
Definition set_with_id (id : Z) (c : Compressor) (l : CompressorList) : exec CompressorList :=
  set_index l id (Some c).
Definition is_set (id : Z) (l : CompressorList) : exec bool :=
  o ← index l id; Ret (match o with Some _ => true | None => false end).
Definition compressor_get (id : Z) (l : CompressorList) : exec (Result Compressor) :=
  o ← index l id;
  Ret (match o with
       | Some c => Ok c
       | None => Err {| code := NotSupported;
                        err_msg := ("invalid compression id `" +:+ dec_digits 19 id "" +:+ "`")%string |}
       end).
Definition CompressorList_default `{Snap} : exec CompressorList :=
  l ← set_with_id NoneCompressor_ID NoneCompressor CompressorList_new;
  set_with_id SnappyCompressor_ID SnappyCompressor l.

Definition KB : Z := Z.shiftl 1 10.
Definition MB : Z := KB * KB.
Definition BLOCK_MAX_SIZE : Z := 4 * KB.
Definition BLOCK_CACHE_CAPACITY : Z := 8 * MB.
Definition WRITE_BUFFER_SIZE : Z := 4 * MB.
Definition DEFAULT_BITS_PER_KEY : Z := 10.

Record Options := mkOptions {
  o_cmp : Cmp;
  create_if_missing : bool;
  error_if_exists : bool;
  paranoid_checks : bool;
  write_buffer_size : Z;
  max_open_files : Z;
  max_file_size : Z;
  o_block_size : Z;
  block_restart_interval : Z;
  o_compressor : Z;
  compressor_list : CompressorList;
  reuse_logs : bool;
  reuse_manifest : bool;
  filter_policy : FilterPolicy;
}.

Definition Options_default `{IntegerEncoding} `{Snap} : exec Options :=
  l ← CompressorList_default;
  Ret {| o_cmp := DefaultCmp; create_if_missing := true; error_if_exists := false;
         paranoid_checks := false; write_buffer_size := WRITE_BUFFER_SIZE;
         max_open_files := Z.shiftl 1 10; max_file_size := Z.shiftl 2 20;
         o_block_size := BLOCK_MAX_SIZE; block_restart_interval := 16;
         reuse_logs := true; reuse_manifest := true; o_compressor := 0;
         compressor_list := l; filter_policy := Bloom (BloomPolicy_new DEFAULT_BITS_PER_KEY) |}.

(** The options of the tests, with a given restart interval. *)
Module TestOptions.
Definition opts `{IntegerEncoding} (interval : Z) : Options :=
  {| o_cmp := DefaultCmp; create_if_missing := true; error_if_exists := false;
     paranoid_checks := false; write_buffer_size := WRITE_BUFFER_SIZE;
     max_open_files := Z.shiftl 1 10; max_file_size := Z.shiftl 2 20;
     o_block_size := BLOCK_MAX_SIZE; block_restart_interval := interval;
     reuse_logs := true; reuse_manifest := true; o_compressor := 0;
     compressor_list := Some NoneCompressor :: replicate 255 None;
     filter_policy := Bloom (BloomPolicy_new DEFAULT_BITS_PER_KEY) |}.
Definition with_cmp (c : Cmp) (o : Options) : Options :=
  {| o_cmp := c; create_if_missing := create_if_missing o; error_if_exists := error_if_exists o;
     paranoid_checks := paranoid_checks o; write_buffer_size := write_buffer_size o;
     max_open_files := max_open_files o; max_file_size := max_file_size o;
     o_block_size := o_block_size o; block_restart_interval := block_restart_interval o;
     reuse_logs := reuse_logs o; reuse_manifest := reuse_manifest o; o_compressor := o_compressor o;
     compressor_list := compressor_list o; filter_policy := filter_policy o |}.
End TestOptions.
