(* ===== verification/BlockBuilder.v ===== *)
(** * BlockBuilder: [src/block_builder.rs]

    Entries share key prefixes with their predecessor, except at restart points. *)

From S2P Require Import Prelude Encoding Cmp Filter Options.

Record BlockBuilder := mkBlockBuilder {
  bb_opt : Options;
  buffer : bytes;
  restarts : list Z;
  bb_last_key : bytes;
  restart_counter : Z;
  bb_counter : Z;
}.

Section defs.
Context {IE : IntegerEncoding}.

Definition BlockBuilder_new (o : Options) : BlockBuilder :=
  {| bb_opt := o; buffer := []; restarts := [0]; bb_last_key := []; restart_counter := 0; bb_counter := 0 |}.

Definition bb_entries (b : BlockBuilder) : Z := bb_counter b.
Definition bb_size_estimate (b : BlockBuilder) : Z := zlen (buffer b) + 4 * zlen (restarts b) + 4.
Definition bb_reset (b : BlockBuilder) : BlockBuilder :=
  {| bb_opt := bb_opt b; buffer := []; restarts := []; bb_last_key := []; restart_counter := 0; bb_counter := 0 |}.

(** The [while shared < smallest && ..] loop: the length of the common prefix. *)
Fixpoint common_prefix (a b : bytes) : Z :=
  match a, b with
  | x :: a, y :: b => if x =? y then 1 + common_prefix a b else 0
  | _, _ => 0
  end.

(** An entry: lengths as varints, the rest of the key, the value. *)
Definition entry_bytes (shared : Z) (rest val : bytes) : bytes :=
  encode_var shared ++ encode_var (zlen rest) ++ encode_var (zlen val) ++ rest ++ val.

Definition bb_add (key val : bytes) (b : BlockBuilder) : exec BlockBuilder :=
  _ ← massert (restart_counter b <=? block_restart_interval (bb_opt b));
  ordered ← (if decide (buffer b = []) then Ret true
             else o ← cmp (o_cmp (bb_opt b)) (bb_last_key b) key; Ret (is_lt o));
  _ ← massert ordered;
  let '(shared, restarts', last_key, restart_counter') :=
    if restart_counter b <? block_restart_interval (bb_opt b)
    then (common_prefix (bb_last_key b) key, restarts b, bb_last_key b, restart_counter b)
    else (0, restarts b ++ [wrap 32 (zlen (buffer b))], [], 0) in
  rest ← slice_from key shared;
  Ret {| bb_opt := bb_opt b;
         buffer := buffer b ++ entry_bytes shared rest val;
         restarts := restarts';
         bb_last_key := vec_resize shared 0 last_key ++ rest;
         restart_counter := restart_counter' + 1;
         bb_counter := bb_counter b + 1 |}.

Definition bb_finish (b : BlockBuilder) : bytes :=
  buffer b ++ concat (encode_fixed 4 <$> restarts b) ++ encode_fixed 4 (wrap 32 (zlen (restarts b))).

End defs.

(** ** The layout of a block *)

(** An entry as it is stored. *)
Record enc_entry := mkEnc { e_shared : Z; e_rest : bytes; e_value : bytes }.

Section layout.
Context `{IEL : IntegerEncodingLaws}.

Definition ebytes (e : enc_entry) : bytes := entry_bytes (e_shared e) (e_rest e) (e_value e).
Definition ebody (Es : list enc_entry) : bytes := concat (ebytes <$> Es).

(** Where the [i]-th entry starts. *)
Definition eoff (Es : list enc_entry) (i : nat) : Z := zlen (ebody (take i Es)).

(** The stored entries stand for the list [L], after an entry with key [prev]. *)
Fixpoint stands_for (prev : bytes) (Es : list enc_entry) (L : list (bytes * bytes)) : Prop :=
  match Es, L with
  | [], [] => True
  | e :: Es, (k, v) :: L =>
      0 ≤ e_shared e ≤ zlen prev ∧ k = take (Z.to_nat (e_shared e)) prev ++ e_rest e ∧ v = e_value e
      ∧ stands_for k Es L
  | _, _ => False
  end.

(** The block's bytes: entries, restart points (given by entry number), their count. *)
Definition layout_bytes (Es : list enc_entry) (rs : list nat) : bytes :=
  ebody Es ++ fixed_array 4 (eoff Es <$> rs) ++ encode_fixed 4 (zlen rs).

Definition enc_ok (e : enc_entry) : Prop :=
  is_u 64 (e_shared e) ∧ is_u 64 (zlen (e_rest e)) ∧ is_u 64 (zlen (e_value e)).

Record layout (Es : list enc_entry) (L : list (bytes * bytes)) (rs : list nat) : Prop := {
  lay_stands : stands_for [] Es L;
  lay_sizes : Forall enc_ok Es;
  lay_first : rs !! 0%nat = Some 0%nat;
  lay_inside : Forall (λ r, r < length Es ∨ r = 0)%nat rs;
  lay_fresh : ∀ r e, r ∈ rs → Es !! r = Some e → e_shared e = 0;
  lay_increasing : StronglySorted lt rs;
}.

Lemma ebody_app A B : ebody (A ++ B) = ebody A ++ ebody B.
Proof. unfold ebody. by rewrite fmap_app, concat_app. Qed.

Lemma ebytes_pos e : enc_ok e → (1 ≤ length (ebytes e))%nat.
Proof.
  intros [He _]. unfold ebytes, entry_bytes. pose proof (encode_var_pos (e_shared e) He). rewrite !length_app. lia.
Qed.

Lemma eoff_0 Es : eoff Es 0 = 0.
Proof. done. Qed.

Lemma eoff_S Es i e : Es !! i = Some e → eoff Es (S i) = eoff Es i + zlen (ebytes e).
Proof.
  intros He. unfold eoff. rewrite (take_S_r _ _ _ He), ebody_app, length_app.
  unfold ebody at 2. cbn. rewrite app_nil_r. lia.
Qed.

Lemma eoff_end Es i : (length Es ≤ i)%nat → eoff Es i = zlen (ebody Es).
Proof. intros Hi. unfold eoff. by rewrite take_ge. Qed.

Lemma eoff_app_l Es e r : (r ≤ length Es)%nat → eoff (Es ++ [e]) r = eoff Es r.
Proof. intros Hr. unfold eoff. by rewrite take_app_le. Qed.

Lemma eoff_le Es i : 0 ≤ eoff Es i ≤ zlen (ebody Es).
Proof.
  unfold eoff. rewrite <- (take_drop i Es) at 3. rewrite ebody_app, length_app. lia.
Qed.

Lemma stands_for_length prev Es L : stands_for prev Es L → length Es = length L.
Proof.
  revert prev L. induction Es as [|e Es IH]; intros prev [|[k v] L]; simpl; try done.
  intros (_ & _ & _ & Hs). by rewrite (IH _ _ Hs).
Qed.

Lemma stands_for_app prev Es L e k v :
  stands_for prev Es L →
  let prev' := default prev (fst <$> last L) in
  0 ≤ e_shared e ≤ zlen prev' → k = take (Z.to_nat (e_shared e)) prev' ++ e_rest e → v = e_value e →
  stands_for prev (Es ++ [e]) (L ++ [(k, v)]).
Proof.
  revert prev L. induction Es as [|e0 Es IH]; intros prev [|[k0 v0] L]; cbn [stands_for app]; try done.
  intros (H1 & H2 & H3 & H4).
  assert (default prev (fst <$> last ((k0, v0) :: L)) = default k0 (fst <$> last L)) as ->
    by (rewrite last_cons; by destruct (last L)).
  intros Hs Hk Hv. split_and!; [lia|lia|done|done|]. by apply IH.
Qed.

(** The [i]-th entry after its predecessor's key. *)
Definition prev_key (L : list (bytes * bytes)) (i : nat) : bytes :=
  match i with O => [] | S j => match L !! j with Some kv => kv.1 | None => [] end end.

Lemma stands_for_lookup prev Es L i e :
  stands_for prev Es L → Es !! i = Some e →
  ∃ k v, L !! i = Some (k, v) ∧ v = e_value e
    ∧ let p := match i with O => prev | S j => prev_key L i end in
      0 ≤ e_shared e ≤ zlen p ∧ k = take (Z.to_nat (e_shared e)) p ++ e_rest e.
Proof.
  revert prev L i. induction Es as [|e0 Es IH]; intros prev [|[k0 v0] L] i; simpl; try done.
  intros (H1 & H2 & H3 & H4). destruct i as [|i]; simpl.
  - intros [= <-]. eauto 10.
  - intros He. destruct (IH _ _ _ H4 He) as (k & v & Hl & Hv & Hp). exists k, v.
    split; [done|]. split; [done|]. by destruct i.
Qed.

End layout.

(** ** Building a block *)

Section building.
Context `{IEL : IntegerEncodingLaws}.

Lemma common_prefix_spec a b :
  0 ≤ common_prefix a b ≤ zlen a ∧ common_prefix a b ≤ zlen b
  ∧ take (Z.to_nat (common_prefix a b)) a = take (Z.to_nat (common_prefix a b)) b.
Proof.
  revert b. induction a as [|x a IH]; intros [|y b]; cbn [common_prefix length]; try (split_and!; done || lia).
  destruct (Z.eqb_spec x y) as [->|]; [|split_and!; done || lia].
  destruct (IH b) as (H1 & H2 & H3). split_and!; [lia..|].
  replace (Z.to_nat (1 + common_prefix a b)) with (S (Z.to_nat (common_prefix a b))) by lia. simpl. by rewrite H3.
Qed.

Definition last_key_of (L : list (bytes * bytes)) : bytes := default [] (fst <$> last L).

Record bb_inv (b : BlockBuilder) (Es : list enc_entry) (L : list (bytes * bytes)) (rs : list nat) : Prop := {
  inv_layout : layout Es L rs;
  inv_buffer : buffer b = ebody Es;
  inv_restarts : restarts b = (λ r, wrap 32 (eoff Es r)) <$> rs;
  inv_last : bb_last_key b = last_key_of L;
  inv_count : ∃ r, last rs = Some r ∧ (r ≤ length Es)%nat ∧ restart_counter b = Z.of_nat (length Es - r);
  inv_interval : restart_counter b ≤ block_restart_interval (bb_opt b);
  inv_counter : bb_counter b = zlen L;
}.

Lemma bb_new_inv o : 0 ≤ block_restart_interval o → bb_inv (BlockBuilder_new o) [] [] [0%nat].
Proof.
  intros Ho. split; try done; [|by exists 0%nat]. split; try done.
  - by repeat constructor; right.
  - repeat constructor.
Qed.

Lemma ebody_nil Es : Forall enc_ok Es → ebody Es = [] → Es = [].
Proof.
  destruct Es as [|e Es]; [done|]. intros [He _]%Forall_cons [E _]%app_eq_nil.
  pose proof (ebytes_pos e He). rewrite E in *. simpl in *. lia.
Qed.

Lemma layout_push Es L rs e k v rs' :
  layout Es L rs → enc_ok e →
  0 ≤ e_shared e ≤ zlen (last_key_of L) → k = take (Z.to_nat (e_shared e)) (last_key_of L) ++ e_rest e → v = e_value e →
  (rs' = rs ∧ (Es = [] → e_shared e = 0) ∧ (length Es ∈ rs → Es = [])
   ∨ rs' = rs ++ [length Es] ∧ e_shared e = 0 ∧ Forall (λ r, r < length Es)%nat rs) →
  layout (Es ++ [e]) (L ++ [(k, v)]) rs'.
Proof.
  intros [Hs Hsz Hf Hi Hfr Hinc] He H1 H2 H3 Hrs. split.
  - by apply stands_for_app.
  - apply Forall_app. split; [done|]. by constructor.
  - destruct Hrs as [(-> & _)|(-> & _)]; [done|]. by destruct rs.
  - assert (Forall (λ r, r < length (Es ++ [e]) ∨ r = 0)%nat rs).
    { eapply Forall_impl; [exact Hi|]. intros r. rewrite length_app. simpl. lia. }
    destruct Hrs as [(-> & _)|(-> & _)]; [done|]. apply Forall_app. split; [done|].
    constructor; [|done]. rewrite length_app. simpl. lia.
  - intros r e' Hr Hl. destruct (decide (r = length Es)) as [->|Hne].
    + rewrite lookup_app_r, Nat.sub_diag in Hl by lia. injection Hl as <-.
      destruct Hrs as [(-> & H4 & H5)|(_ & H4 & _)]; auto.
    + apply lookup_app_Some in Hl as [Hl|[Hge Hl]].
      2:{ destruct (r - length Es)%nat eqn:Er; [lia|done]. }
      apply (Hfr r e'); [|done]. destruct Hrs as [(-> & _)|(-> & _)]; [done|]. set_solver.
  - destruct Hrs as [(-> & _)|(-> & _ & Hlt)]; [done|]. apply StronglySorted_app. split_and!; [|done|repeat constructor].
    intros x y Hx ->%list_elem_of_singleton. rewrite Forall_forall in Hlt. by apply Hlt.
Qed.

Lemma rs_below Es L rs r : layout Es L rs → last rs = Some r → Forall (λ x, x ≤ r)%nat rs.
Proof.
  intros HL Hr. apply last_Some in Hr as [rs0 ->]. pose proof (lay_increasing _ _ _ HL) as (H & _)%StronglySorted_app.
  apply Forall_app. split; [|by repeat constructor]. apply Forall_forall. intros x Hx.
  specialize (H x r Hx ltac:(set_solver)). lia.
Qed.

Lemma restarts_push Es e rs :
  Forall (λ r, r ≤ length Es)%nat rs →
  (λ r, wrap 32 (eoff Es r)) <$> rs = (λ r, wrap 32 (eoff (Es ++ [e]) r)) <$> rs.
Proof.
  intros H. apply Forall_fmap_ext. eapply Forall_impl; [exact H|]. intros r Hr. simpl. by rewrite eoff_app_l.
Qed.

Lemma bb_add_ok `{OC : OrderedCmp (o_cmp o)} b Es L rs key val :
  bb_inv b Es L rs → bb_opt b = o → 1 ≤ block_restart_interval o →
  key_ok (o_cmp o) key → Forall (λ kv, key_ok (o_cmp o) kv.1) L →
  zlen key < 2 ^ 63 → zlen val < 2 ^ 63 →
  (L = [] ∨ ord (o_cmp o) (last_key_of L) key = Lt) →
  ∃ b' e rs', bb_add key val b = Ret b' ∧ bb_inv b' (Es ++ [e]) (L ++ [(key, val)]) rs' ∧ bb_opt b' = o.
Proof.
  intros [HL Hbuf Hres Hlast (r & Hr & Hrl & Hcnt) Hint Hctr] Ho Hiv Hk HkL Hkl Hvl Hord. unfold bb_add. rewrite Ho in *.
  pose proof (stands_for_length _ _ _ (lay_stands _ _ _ HL)) as HlenL.
  ztest. cbn [massert mbind exec_bind].
  assert ((if decide (buffer b = []) then Ret true else o0 ← cmp (o_cmp o) (bb_last_key b) key; Ret (is_lt o0)) = Ret true) as ->.
  { case_decide as Hnil; [done|]. rewrite Hbuf in Hnil. destruct Hord as [->|Hord].
    - by destruct Es.
    - rewrite Hlast, cmp_ret, Hord; [done| |done]. unfold last_key_of. destruct (last L) as [[k v]|] eqn:E; [|by apply last_None in E as ->; destruct Es].
      rewrite Forall_forall in HkL. apply (HkL (k, v)). by apply last_Some_elem_of. }
  cbn [massert mbind exec_bind]. pose proof (rs_below _ _ _ _ HL Hr) as Hrs.
  destruct (Z.ltb_spec (restart_counter b) (block_restart_interval o)) as [Hlt|Hge].
  - destruct (common_prefix_spec (bb_last_key b) key) as (C1 & C2 & C3). set (sh := common_prefix (bb_last_key b) key) in *.
    unfold slice_from. rewrite slice_spec, bind_Ret by lia. rewrite take_ge by (rewrite length_drop; lia).
    exists {| bb_opt := o; buffer := buffer b ++ entry_bytes sh (drop (Z.to_nat sh) key) val; restarts := restarts b;
      bb_last_key := vec_resize sh 0 (bb_last_key b) ++ drop (Z.to_nat sh) key; restart_counter := restart_counter b + 1;
      bb_counter := bb_counter b + 1 |}, (mkEnc sh (drop (Z.to_nat sh) key) val), rs.
    assert (vec_resize sh 0 (bb_last_key b) ++ drop (Z.to_nat sh) key = key) as Hkey.
    { unfold vec_resize. replace (Z.to_nat sh - length (bb_last_key b))%nat with 0%nat by lia.
      cbn [replicate]. rewrite app_nil_r, C3. apply take_drop. }
    split; [done|]. split; [|done]. split; cbn [buffer restarts bb_last_key restart_counter bb_opt].
    + apply layout_push with (rs := rs); cbn [e_shared e_rest e_value]; try done.
      * split_and!; cbn; unfold is_u; rewrite ?length_drop; lia.
      * by rewrite <- Hlast.
      * rewrite <- Hlast, C3. by rewrite take_drop.
      * left. split_and!; [done| |].
        -- intros ->. rewrite Hlast in *. destruct L; [|done]. cbn in C1. unfold last_key_of in C1. cbn in C1. lia.
        -- intros Hin. rewrite Forall_forall in Hrs. specialize (Hrs _ Hin). assert (r = length Es) as -> by lia.
           pose proof (lay_inside _ _ _ HL) as Hins. rewrite Forall_forall in Hins.
           destruct (Hins _ Hin) as [?|Hz]; [lia|]. by destruct Es.
    + rewrite Hbuf, ebody_app. unfold ebody at 3. cbn. by rewrite app_nil_r.
    + rewrite Hres. apply restarts_push. eapply Forall_impl; [exact Hrs|]. simpl. lia.
    + rewrite Hkey. unfold last_key_of. by rewrite last_snoc.
    + exists r. rewrite length_app. simpl. split_and!; [done|lia|lia].
    + lia.
    + cbn [bb_counter]. rewrite length_app. simpl. lia.
  - exists {| bb_opt := o; buffer := buffer b ++ entry_bytes 0 key val; restarts := restarts b ++ [wrap 32 (zlen (buffer b))];
      bb_last_key := vec_resize 0 0 [] ++ key; restart_counter := 0 + 1;
      bb_counter := bb_counter b + 1 |}, (mkEnc 0 key val), (rs ++ [length Es]).
    unfold slice_from. rewrite slice_all by done. split; [done|].
    assert (Forall (λ r, r < length Es)%nat rs) as Hrlt by (eapply Forall_impl; [exact Hrs|]; simpl; lia).
    split; [|done]. split; cbn [buffer restarts bb_last_key restart_counter bb_opt].
    + apply layout_push with (rs := rs); cbn [e_shared e_rest e_value]; try done; [|lia|by right].
      split_and!; cbn; unfold is_u; lia.
    + rewrite Hbuf, ebody_app. unfold ebody at 3. cbn. by rewrite app_nil_r.
    + rewrite fmap_app, Hres. f_equal.
      * apply restarts_push. eapply Forall_impl; [exact Hrs|]. simpl. lia.
      * cbn. rewrite eoff_app_l, eoff_end, Hbuf by lia. done.
    + unfold last_key_of. by rewrite last_snoc.
    + exists (length Es). rewrite last_snoc, length_app. simpl. split_and!; [done|lia|lia].
    + lia.
    + cbn [bb_counter]. rewrite length_app. simpl. lia.
Qed.

(** Adding a sorted list. *)
Definition entry_lt (c : Cmp) {OC : OrderedCmp c} (a b : bytes * bytes) : Prop := ord c a.1 b.1 = Lt.

Definition bb_adds (L : list (bytes * bytes)) (b : BlockBuilder) : exec BlockBuilder :=
  mfoldl (λ b kv, bb_add kv.1 kv.2 b) b L.

Lemma last_key_lt `{OC : OrderedCmp c} L kv :
  StronglySorted (entry_lt c) (L ++ [kv]) → L = [] ∨ ord c (last_key_of L) kv.1 = Lt.
Proof.
  intros (Hs & _)%StronglySorted_app. unfold last_key_of. destruct (last L) as [x|] eqn:E.
  - right. cbn. apply Hs; [by apply last_Some_elem_of|set_solver].
  - left. by apply last_None.
Qed.

Lemma bb_adds_ok `{OC : OrderedCmp (o_cmp o)} L : ∀ b Es L0 rs,
  bb_inv b Es L0 rs → bb_opt b = o → 1 ≤ block_restart_interval o →
  StronglySorted (entry_lt (o_cmp o)) (L0 ++ L) →
  Forall (λ kv, key_ok (o_cmp o) kv.1 ∧ zlen kv.1 < 2 ^ 63 ∧ zlen kv.2 < 2 ^ 63) (L0 ++ L) →
  ∃ b' Es' rs', bb_adds L b = Ret b' ∧ bb_inv b' Es' (L0 ++ L) rs' ∧ bb_opt b' = o.
Proof.
  induction L as [|[k v] L IH]; intros b Es L0 rs B Ho Hiv Hs Hk; cbn [bb_adds mfoldl fst snd].
  { exists b, Es, rs. by rewrite app_nil_r. }
  rewrite cons_middle, app_assoc in Hs, Hk.
  apply Forall_app in Hk as Hk'. destruct Hk' as [[HkL0 [[Hkk [Hkl Hvl]] _]%Forall_cons]%Forall_app _].
  destruct (bb_add_ok b Es L0 rs k v B Ho Hiv Hkk) as (b1 & e & rs1 & E1 & B1 & Ho1); [|done|done| |].
  { eapply Forall_impl; [exact HkL0|]. naive_solver. }
  { apply (last_key_lt L0 (k, v)). by apply StronglySorted_app_1_l in Hs. }
  rewrite E1, bind_Ret. destruct (IH b1 _ _ _ B1 Ho1 Hiv Hs Hk) as (b2 & Es2 & rs2 & E2 & B2 & Ho2).
  exists b2, Es2, rs2. split_and!; [exact E2| |done]. by rewrite <- app_assoc in B2.
Qed.

(** The finished block, while offsets fit in 32 bits. *)
Lemma bb_finish_ok b Es L rs :
  bb_inv b Es L rs → zlen (bb_finish b) < 2 ^ 32 → bb_finish b = layout_bytes Es rs.
Proof.
  intros [HL Hbuf Hres _ _ _ _] Hl. unfold bb_finish, layout_bytes in *. rewrite Hbuf, Hres in *.
  change (concat (encode_fixed 4 <$> ?l)) with (fixed_array 4 l) in *.
  rewrite !length_app, !Nat2Z.inj_add, length_fixed_array, length_fmap in Hl by lia. rewrite length_fmap.
  pose proof (length_encode_fixed 4 (wrap 32 (zlen rs)) ltac:(lia)).
  rewrite (wrap_small 32 (zlen rs)) by lia. do 2 f_equal. f_equal. apply list_fmap_ext. intros _ r _.
  pose proof (eoff_le Es r). apply wrap_small. lia.
Qed.

End building.

Section offsets.
Context `{IEL : IntegerEncodingLaws}.

Lemma eoff_lt Es i j : Forall enc_ok Es → (i < j ≤ length Es)%nat → eoff Es i < eoff Es j.
Proof.
  intros Hok [Hij Hj]. induction j as [|j IH]; [lia|].
  destruct (lookup_lt_is_Some_2 Es j) as [e He]; [lia|]. rewrite (eoff_S _ _ _ He).
  rewrite Forall_lookup in Hok. pose proof (ebytes_pos e (Hok _ _ He)).
  destruct (decide (i = j)) as [->|]; [lia|]. specialize (IH ltac:(lia) ltac:(lia)). lia.
Qed.

Lemma length_Es_ebody Es : Forall enc_ok Es → (length Es ≤ length (ebody Es))%nat.
Proof.
  induction 1 as [|e Es He HEs IH]; [done|]. change (ebody (e :: Es)) with (ebytes e ++ ebody Es).
  rewrite length_app. pose proof (ebytes_pos e He). simpl. lia.
Qed.

(** The bytes around an entry. *)
Lemma ebody_split Es i e : Es !! i = Some e →
  ∃ post, ebody Es = ebody (take i Es) ++ ebytes e ++ post ∧ eoff Es i = zlen (ebody (take i Es)).
Proof.
  intros He. exists (ebody (drop (S i) Es)). split; [|done].
  rewrite <- (take_drop_middle Es i e He) at 1. by rewrite ebody_app.
Qed.

(** ** How long a block can get *)

Lemma sorted_lt_length (rs : list nat) : ∀ lo n,
  StronglySorted lt rs → Forall (λ r, lo ≤ r < n)%nat rs → (length rs ≤ n - lo)%nat.
Proof.
  induction rs as [|r rs IH]; intros lo n Hs Hf; [simpl; lia|].
  apply StronglySorted_inv in Hs as [Hs Hr]. apply Forall_cons in Hf as [Hr0 Hf].
  specialize (IH (S r) n Hs). simpl. assert (length rs ≤ n - S r)%nat; [|lia]. apply IH.
  rewrite Forall_forall in *. intros x Hx. specialize (Hr x Hx). specialize (Hf x Hx). lia.
Qed.

Definition entry_weight (overhead : Z) (kv : bytes * bytes) : Z := zlen kv.1 + zlen kv.2 + overhead.
Definition weight (overhead : Z) (L : list (bytes * bytes)) : Z := foldr (λ kv n, entry_weight overhead kv + n) 0 L.

Lemma weight_app w A B : weight w (A ++ B) = weight w A + weight w B.
Proof. unfold weight. induction A as [|kv A IH]; cbn; [done|]. rewrite IH. lia. Qed.
Lemma weight_le w w' L : w ≤ w' → weight w L ≤ weight w' L.
Proof. intros Hw. unfold weight, entry_weight. induction L as [|kv A IH]; cbn; lia. Qed.
Lemma weight_nonneg w L : 0 ≤ w → 0 ≤ weight w L.
Proof. intros Hw. unfold weight, entry_weight. induction L as [|kv A IH]; cbn; lia. Qed.
Lemma weight_length w L : 0 ≤ w → w * zlen L ≤ weight w L.
Proof. intros Hw. unfold weight, entry_weight. induction L as [|kv A IH]; cbn [foldr length]; [lia|]. lia. Qed.
Lemma weight_split w w' L : weight (w + w') L = weight w L + w' * zlen L.
Proof. unfold weight, entry_weight. induction L as [|kv A IH]; cbn [foldr length]; [lia|]. lia. Qed.

Lemma weight_elem w L kv : 0 ≤ w → kv ∈ L → entry_weight w kv ≤ weight w L.
Proof.
  intros Hw (L1 & L2 & ->)%list_elem_of_split. rewrite weight_app. cbn [weight foldr]. fold (weight w L2).
  pose proof (weight_nonneg w L1 Hw). pose proof (weight_nonneg w L2 Hw). lia.
Qed.

Lemma ebody_weight prev Es L : Forall enc_ok Es → stands_for prev Es L → zlen (ebody Es) ≤ weight 30 L.
Proof.
  intros Hok. revert prev L. induction Hok as [|e Es (H1 & H2 & H3) Hok IH]; intros prev [|[k v] L]; cbn [stands_for]; try done.
  intros (Hsh & -> & -> & Hst). specialize (IH _ _ Hst). change (ebody (e :: Es)) with (ebytes e ++ ebody Es).
  rewrite length_app, Nat2Z.inj_add. cbn [weight foldr]. fold (weight 30 L). unfold entry_weight. cbn [fst snd].
  unfold ebytes, entry_bytes. rewrite !length_app, !Nat2Z.inj_add, !length_encode_var by done.
  pose proof (required_space_bound _ H1). pose proof (required_space_bound _ H2). pose proof (required_space_bound _ H3). lia.
Qed.

Lemma bb_finish_size b Es L rs : bb_inv b Es L rs → zlen (bb_finish b) ≤ weight 34 L + 8.
Proof.
  intros [HL Hbuf Hres _ _ _ _]. unfold bb_finish. rewrite Hbuf, Hres. change (concat (encode_fixed 4 <$> ?l)) with (fixed_array 4 l).
  rewrite !length_app, !Nat2Z.inj_add, length_fixed_array, length_fmap, length_encode_fixed by lia.
  pose proof (ebody_weight [] Es L (lay_sizes _ _ _ HL) (lay_stands _ _ _ HL)).
  assert (length rs ≤ S (length Es) - 0)%nat.
  { apply (sorted_lt_length rs 0 _ (lay_increasing _ _ _ HL)). eapply Forall_impl; [exact (lay_inside _ _ _ HL)|]. simpl. lia. }
  pose proof (stands_for_length _ _ _ (lay_stands _ _ _ HL)). pose proof (weight_split 30 4 L). change (30 + 4) with 34 in *. lia.
Qed.

End offsets.
