(* ===== verification/Block.v ===== *)
(** * Block: [src/block.rs]

    Blocks and their iterator.  A [BlockIter] shares the immutable contents of its block. *)

From S2P Require Import Prelude Encoding Types Cmp Iterator Filter Options BlockBuilder.

Record Block := mkBlock { blk_contents : bytes; blk_opt : Options }.

Record BlockIter := mkBlockIter {
  bi_block : bytes;
  bi_opt : Options;
  restarts_off : Z;
  bi_offset : Z;
  current_entry_offset : Z;
  current_restart_ix : Z;
  bi_key : bytes;
  val_offset : Z;
}.

Section defs.
Context {IE : IntegerEncoding}.

Definition Block_new (opt : Options) (contents : bytes) : exec Block :=
  _ ← massert (4 <? zlen contents);
  Ret {| blk_contents := contents; blk_opt := opt |}.

Definition block_number_restarts (b : bytes) : exec Z :=
  o ← usub (zlen b) 4; n ← slice_from b o; Ret (decode_fixed n).

Definition block_iter (b : Block) : exec BlockIter :=
  n ← block_number_restarts (blk_contents b);
  o ← usub (zlen (blk_contents b)) 4;
  restart_offset ← usub o (4 * n);
  Ret {| bi_block := blk_contents b; bi_opt := blk_opt b; bi_offset := 0; restarts_off := restart_offset;
         current_entry_offset := 0; current_restart_ix := 0; bi_key := []; val_offset := 0 |}.

(** Field updates. *)
Definition set_pos (it : BlockIter) (off entry_off ix : Z) : BlockIter :=
  {| bi_block := bi_block it; bi_opt := bi_opt it; restarts_off := restarts_off it; bi_offset := off;
     current_entry_offset := entry_off; current_restart_ix := ix; bi_key := bi_key it; val_offset := val_offset it |}.
Definition set_entry (it : BlockIter) (key : bytes) (val_off off : Z) : BlockIter :=
  {| bi_block := bi_block it; bi_opt := bi_opt it; restarts_off := restarts_off it; bi_offset := off;
     current_entry_offset := current_entry_offset it; current_restart_ix := current_restart_ix it;
     bi_key := key; val_offset := val_off |}.

Definition number_restarts (it : BlockIter) : exec Z := block_number_restarts (bi_block it).

Definition get_restart_point (it : BlockIter) (ix : Z) : exec Z :=
  let restart := restarts_off it + 4 * ix in
  o ← slice (bi_block it) restart (restart + 4);
  Ret (decode_fixed o).

(** The iterator with [offset] and [val_offset] moved, and the head of the entry. *)
Definition parse_entry_and_advance (it : BlockIter) : exec (BlockIter * option (Z * Z * Z * Z)) :=
  s ← slice_from (bi_block it) (bi_offset it);
  match decode_var 64 s with
  | None => Ret (it, None)
  | Some (shared, i) =>
      s ← slice_from (bi_block it) (bi_offset it + i);
      match decode_var 64 s with
      | None => Ret (it, None)
      | Some (non_shared, l) =>
          let i := i + l in
          s ← slice_from (bi_block it) (bi_offset it + i);
          match decode_var 64 s with
          | None => Ret (it, None)
          | Some (valsize, l) =>
              let i := i + l in
              val_off ← uadd 64 (bi_offset it + i) non_shared;
              off ← uadd 64 val_off valsize;
              Ret (set_entry it (bi_key it) val_off off, Some (shared, non_shared, valsize, i))
          end
      end
  end.

Definition assemble_key (it : BlockIter) (off shared non_shared : Z) : exec BlockIter :=
  rest ← slice (bi_block it) off (off + non_shared);
  Ret (set_entry it (vec_truncate shared (bi_key it) ++ rest) (val_offset it) (bi_offset it)).

Definition bi_valid (it : BlockIter) : bool :=
  negb (bool_decide (bi_key it = [])) && (0 <? val_offset it) && (val_offset it <=? restarts_off it).

(** [None] is the [?] on an entry that cannot be parsed. *)
Definition seek_to_restart_point (it : BlockIter) (ix : Z) : exec (BlockIter * option ()) :=
  off ← get_restart_point it ix;
  let it := set_pos it off off ix in
  '(it, head) ← parse_entry_and_advance it;
  match head with
  | None => Ret (it, None)
  | Some (shared, non_shared, _, head_len) =>
      _ ← massert (shared =? 0);
      it ← assemble_key it (off + head_len) shared non_shared;
      _ ← massert (bi_valid it);
      Ret (it, Some ())
  end.

Definition bi_reset (it : BlockIter) : BlockIter :=
  {| bi_block := bi_block it; bi_opt := bi_opt it; restarts_off := restarts_off it; bi_offset := 0;
     current_entry_offset := current_entry_offset it; current_restart_ix := 0; bi_key := []; val_offset := 0 |}.

(** The [while] of [advance] that adjusts [current_restart_ix]. *)
Fixpoint adjust_restart (fuel : nat) (num_restarts : Z) (it : BlockIter) : exec BlockIter :=
  match fuel with
  | O => NoFuel
  | S fuel =>
      if current_restart_ix it + 1 <? num_restarts then
        p ← get_restart_point it (current_restart_ix it + 1);
        if p <? current_entry_offset it then
          adjust_restart fuel num_restarts
            (set_pos it (bi_offset it) (current_entry_offset it) (current_restart_ix it + 1))
        else Ret it
      else Ret it
  end.

(** An entry that cannot be parsed panics in a debug build. *)
Definition bi_advance (it : BlockIter) : exec (BlockIter * bool) :=
  if restarts_off it <=? bi_offset it then Ret (bi_reset it, false)
  else
    let it := set_pos it (bi_offset it) (bi_offset it) (current_restart_ix it) in
    let current_off := current_entry_offset it in
    '(it, head) ← parse_entry_and_advance it;
    match head with
    | Some (shared, non_shared, _, entry_head_len) =>
        it ← assemble_key it (current_off + entry_head_len) shared non_shared;
        n ← number_restarts it;
        it ← adjust_restart (S (Z.to_nat n)) n it;
        Ret (it, true)
    | None => Panic
    end.

Definition bi_current (it : BlockIter) : exec (option (bytes * bytes)) :=
  if bi_valid it then
    val ← slice (bi_block it) (val_offset it) (bi_offset it);
    Ret (Some (bi_key it, val))
  else Ret None.

(** Every turn of the loops below that advances consumes at least one byte of the block. *)
Definition bi_fuel (it : BlockIter) : nat := S (length (bi_block it)).

(** [seek_to_last]: the loop that advances to the last entry. *)
Fixpoint advance_to_end (fuel : nat) (it : BlockIter) : exec BlockIter :=
  match fuel with
  | O => NoFuel
  | S fuel =>
      if bi_offset it <? restarts_off it then
        '(it, _) ← bi_advance it; advance_to_end fuel it
      else Ret it
  end.
Definition seek_to_last (it : BlockIter) : exec (BlockIter * option ()) :=
  n ← number_restarts it;
  '(it, ok) ← (if 0 <? n then seek_to_restart_point it (n - 1) else Ret (bi_reset it, Some ()));
  match ok with
  | None => Ret (it, None)
  | Some _ =>
      it ← advance_to_end (bi_fuel it) it;
      _ ← massert (bi_valid it);
      Ret (it, Some ())
  end.

(** The first loop of [prev]: back to a restart point before the current entry. *)
Fixpoint prev_restart (fuel : nat) (orig_offset : Z) (it : BlockIter) : exec BlockIter :=
  match fuel with
  | O => NoFuel
  | S fuel =>
      p ← get_restart_point it (current_restart_ix it);
      if orig_offset <=? p then
        if current_restart_ix it =? 0 then
          n ← number_restarts it;
          Ret (set_pos it (restarts_off it) (current_entry_offset it) n)
        else prev_restart fuel orig_offset
               (set_pos it (bi_offset it) (current_entry_offset it) (current_restart_ix it - 1))
      else Ret it
  end.
(** The second one: forward to the entry before the original one. *)
Fixpoint prev_forward (fuel : nat) (orig_offset : Z) (it : BlockIter) : exec (BlockIter * bool) :=
  match fuel with
  | O => NoFuel
  | S fuel =>
      '(it, result) ← bi_advance it;
      if orig_offset <=? bi_offset it then Ret (it, result) else prev_forward fuel orig_offset it
  end.
Definition bi_prev (it : BlockIter) : exec (BlockIter * bool) :=
  let orig_offset := current_entry_offset it in
  if orig_offset =? 0 then Ret (bi_reset it, false)
  else
    it ← prev_restart (S (Z.to_nat (current_restart_ix it))) orig_offset it;
    o ← get_restart_point it (current_restart_ix it);
    let it := set_pos it o (current_entry_offset it) (current_restart_ix it) in
    _ ← massert (bi_offset it <? orig_offset);
    prev_forward (bi_fuel it) orig_offset it.

(** The binary search of [seek]; a restart point that cannot be parsed is ignored. *)
Fixpoint seek_search (fuel : nat) (to : bytes) (lo hi : Z) (it : BlockIter) : exec (BlockIter * Z * Z) :=
  match fuel with
  | O => NoFuel
  | S fuel =>
      if lo <? hi then
        let middle := (lo + hi + 1) / 2 in
        '(it, _) ← seek_to_restart_point it middle;
        c ← cmp (o_cmp (bi_opt it)) (bi_key it) to;
        if is_lt c then seek_search fuel to middle hi it
        else seek_search fuel to lo (middle - 1) it
      else Ret (it, lo, hi)
  end.

(** The default method [next], for the linear search of [seek]. *)
Definition bi_next (it : BlockIter) : exec (BlockIter * option (bytes * bytes)) :=
  '(it, b) ← bi_advance it;
  if negb b then Ret (it, None) else kv ← bi_current it; Ret (it, kv).

Fixpoint seek_linear (fuel : nat) (to : bytes) (it : BlockIter) : exec BlockIter :=
  match fuel with
  | O => NoFuel
  | S fuel =>
      '(it, kv) ← bi_next it;
      match kv with
      | Some (k, _) =>
          c ← cmp (o_cmp (bi_opt it)) k to;
          if is_ge c then Ret it else seek_linear fuel to it
      | None => Ret it
      end
  end.

Definition bi_seek (to : bytes) (it : BlockIter) : exec BlockIter :=
  let it := bi_reset it in
  n ← number_restarts it;
  let last := if n =? 0 then 0 else n - 1 in
  '(it, lo, hi) ← seek_search (S (Z.to_nat last)) to 0 last it;
  _ ← massert (lo =? hi);
  o ← get_restart_point it lo;
  seek_linear (bi_fuel it) to (set_pos it o (current_entry_offset it) lo).

#[export] Instance BlockIter_iterator : LdbIterator BlockIter := {
  it_advance := bi_advance;
  it_current := bi_current;
  it_seek := bi_seek;
  it_reset it := Ret (bi_reset it);
  it_valid it := Ret (bi_valid it);
  it_prev := bi_prev;
}.

End defs.

(** ** The iterator over a well-formed block *)

Section iteration.
Context `{IEL : IntegerEncodingLaws}.
Variable (Es : list enc_entry) (L : list entry) (rs : list nat).
Hypothesis (HL : layout Es L rs) (Hsize : zlen (layout_bytes Es rs) < 2 ^ 32).
Hypothesis (Hne : Forall (λ kv, kv.1 ≠ []) L).

Definition good (it : BlockIter) : Prop :=
  bi_block it = layout_bytes Es rs ∧ restarts_off it = zlen (ebody Es)
  ∧ 0 ≤ current_restart_ix it < zlen rs.

(** The next entry to be parsed is the [i]-th one. *)
Definition ready (it : BlockIter) (i : nat) : Prop :=
  good it ∧ (i ≤ length Es)%nat ∧ bi_offset it = eoff Es i
  ∧ ∀ e k v, Es !! i = Some e → L !! i = Some (k, v) →
      take (Z.to_nat (e_shared e)) (bi_key it) ++ e_rest e = k.

(** The iterator is at the [i]-th entry. *)
Definition on (it : BlockIter) (i : nat) : Prop :=
  good it ∧ ∃ e k v, Es !! i = Some e ∧ L !! i = Some (k, v) ∧ bi_key it = k
    ∧ bi_offset it = eoff Es (S i) ∧ current_entry_offset it = eoff Es i
    ∧ val_offset it = eoff Es (S i) - zlen v.

Lemma length_rs : (1 ≤ length rs)%nat.
Proof. pose proof (lay_first _ _ _ HL) as H. apply lookup_lt_Some in H. lia. Qed.

Lemma length_layout : zlen (layout_bytes Es rs) = zlen (ebody Es) + 4 * zlen rs + 4.
Proof.
  unfold layout_bytes. rewrite !length_app, !Nat2Z.inj_add, length_fixed_array, length_fmap, length_encode_fixed by lia. lia.
Qed.

Lemma number_restarts_ok it : good it → number_restarts it = Ret (zlen rs).
Proof.
  intros [Hb _]. unfold number_restarts, block_number_restarts. rewrite Hb. pose proof length_layout as Hl.
  rewrite usub_Ret, bind_Ret by lia. rewrite Hl. unfold layout_bytes. rewrite app_assoc.
  rewrite slice_from_app, bind_Ret.
  - rewrite decode_encode_fixed; [done|lia|unfold is_u; lia].
  - rewrite length_app, Nat2Z.inj_add, length_fixed_array, length_fmap by lia. lia.
Qed.

Lemma get_restart_ok it j r : good it → rs !! j = Some r → get_restart_point it (Z.of_nat j) = Ret (eoff Es r).
Proof.
  intros (Hb & Hr & _) Hj. unfold get_restart_point. rewrite Hb, Hr. unfold layout_bytes.
  rewrite (slice_fixed_array 4 (ebody Es) _ _ j (eoff Es r)); [|lia|by rewrite list_lookup_fmap, Hj|done|done].
  rewrite bind_Ret, decode_encode_fixed; [done|lia|]. pose proof (eoff_le Es r). pose proof length_layout. unfold is_u. lia.
Qed.

Lemma restart_inside j r : rs !! j = Some r → (r ≤ length Es)%nat ∧ ((0 < j)%nat → (0 < r < length Es)%nat).
Proof.
  intros Hj. pose proof (lay_inside _ _ _ HL) as Hi. rewrite Forall_lookup in Hi. specialize (Hi _ _ Hj). split; [lia|].
  intros Hpos. pose proof (sorted_lookup_lt _ _ _ _ _ _ (lay_increasing _ _ _ HL) (lay_first _ _ _ HL) Hj Hpos). lia.
Qed.

(** Parsing the [i]-th entry. *)
Lemma parse_ok it i e :
  good it → bi_offset it = eoff Es i → Es !! i = Some e →
  ∃ h, parse_entry_and_advance it =
         Ret (set_entry it (bi_key it) (eoff Es (S i) - zlen (e_value e)) (eoff Es (S i)),
              Some (e_shared e, zlen (e_rest e), zlen (e_value e), h))
    ∧ slice (bi_block it) (eoff Es i + h) (eoff Es i + h + zlen (e_rest e)) = Ret (e_rest e)
    ∧ slice (bi_block it) (eoff Es (S i) - zlen (e_value e)) (eoff Es (S i)) = Ret (e_value e)
    ∧ 0 < h.
Proof.
  intros (Hb & _ & _) Ho He. pose proof (lay_sizes _ _ _ HL) as Hsz. rewrite Forall_lookup in Hsz.
  destruct (Hsz _ _ He) as (S1 & S2 & S3). pose proof length_layout as Hlen. pose proof (eoff_le Es (S i)) as Hle.
  destruct (ebody_split Es i e He) as (post & Hbody & Hoff). rewrite (eoff_S _ _ _ He), Hoff in *.
  set (pre := ebody (take i Es)) in *. set (x1 := encode_var (e_shared e)) in *.
  set (x2 := encode_var (zlen (e_rest e))). set (x3 := encode_var (zlen (e_value e))).
  assert (∃ tail, layout_bytes Es rs = pre ++ x1 ++ x2 ++ x3 ++ e_rest e ++ e_value e ++ tail) as [tail Ht].
  { exists (post ++ fixed_array 4 (eoff Es <$> rs) ++ encode_fixed 4 (zlen rs)). unfold layout_bytes. rewrite Hbody.
    unfold ebytes, entry_bytes. by rewrite <- !app_assoc. }
  assert (zlen (ebytes e) = zlen x1 + zlen x2 + zlen x3 + zlen (e_rest e) + zlen (e_value e)) as Hel
    by (unfold ebytes, entry_bytes; rewrite !length_app; unfold x1, x2, x3; lia).
  pose proof (encode_var_pos _ S1) as P1. exists (zlen x1 + zlen x2 + zlen x3). rewrite Hb, Hel.
  split_and!; [|..|fold x1 in P1; lia].
  - unfold parse_entry_and_advance. rewrite Hb, Ho, Ht.
    rewrite slice_from_app, bind_Ret by done. unfold x1 at 1. rewrite decode_var_usize by done. fold x1.
    rewrite (app_assoc pre). rewrite slice_from_app, bind_Ret by (rewrite length_app; lia).
    unfold x2 at 1. rewrite decode_var_usize by done. fold x2.
    rewrite (app_assoc (pre ++ x1)). rewrite slice_from_app, bind_Ret by (rewrite !length_app; lia).
    unfold x3 at 1. rewrite decode_var_usize by done. fold x3.
    unfold uadd. ztest. rewrite bind_Ret. ztest. rewrite bind_Ret. do 2 f_equal. f_equal; lia.
  - rewrite Ht. rewrite (app_assoc pre), (app_assoc (pre ++ x1)), (app_assoc ((pre ++ x1) ++ x2)).
    apply slice_app; rewrite !length_app; lia.
  - rewrite Ht. rewrite (app_assoc pre), (app_assoc (pre ++ x1)), (app_assoc ((pre ++ x1) ++ x2)), (app_assoc (((pre ++ x1) ++ x2) ++ x3)).
    apply slice_app; rewrite !length_app; lia.
Qed.

Lemma good_pos it off ceo c : good it → 0 ≤ c < zlen rs → good (set_pos it off ceo c).
Proof. intros (? & ? & ?) ?. by split; [|split]. Qed.

Lemma adjust_ok fuel : ∀ it,
  good it → (length rs - Z.to_nat (current_restart_ix it) < fuel)%nat →
  ∃ c, adjust_restart fuel (zlen rs) it = Ret (set_pos it (bi_offset it) (current_entry_offset it) c) ∧ 0 ≤ c < zlen rs.
Proof.
  induction fuel as [|fuel IH]; intros it G Hf; [lia|]. cbn [adjust_restart].
  assert (∃ c, Ret it = Ret (set_pos it (bi_offset it) (current_entry_offset it) c) ∧ 0 ≤ c < zlen rs) as Hstay.
  { exists (current_restart_ix it). split; [by destruct it|]. by destruct G as (_ & _ & ?). }
  destruct (Z.ltb_spec (current_restart_ix it + 1) (zlen rs)) as [Hlt|]; [|done].
  destruct G as (Gb & Gr & Gc). destruct (lookup_lt_is_Some_2 rs (Z.to_nat (current_restart_ix it + 1))) as [r Hr]; [lia|].
  pose proof (get_restart_ok it _ r ltac:(by split; [|split]) Hr) as Hget. rewrite Z2Nat.id in Hget by lia.
  rewrite Hget, bind_Ret. destruct (_ <? _); [|done].
  destruct (IH (set_pos it (bi_offset it) (current_entry_offset it) (current_restart_ix it + 1))) as (c & -> & Hc);
    [apply good_pos; [by split; [|split]|lia]|cbn [set_pos current_restart_ix]; lia|]. by exists c.
Qed.

Lemma advance_ready it i :
  ready it i → (i < length Es)%nat → ∃ it', bi_advance it = Ret (it', true) ∧ on it' i ∧ bi_opt it' = bi_opt it.
Proof.
  intros (G & Hi & Ho & Hkey) Hlt. destruct (lookup_lt_is_Some_2 Es i Hlt) as [e He].
  destruct (stands_for_lookup _ _ _ _ _ (lay_stands _ _ _ HL) He) as (k & v & Hkv & Hv & _).
  pose proof (eoff_lt Es i (length Es) (lay_sizes _ _ _ HL) ltac:(lia)) as Hoff. rewrite (eoff_end Es (length Es)) in Hoff by lia.
  unfold bi_advance. destruct G as (Gb & Gr & Gc). rewrite Gr, Ho. ztest.
  set (it0 := set_pos it (eoff Es i) (eoff Es i) (current_restart_ix it)).
  assert (good it0) as G0 by (by split; [|split]).
  destruct (parse_ok it0 i e G0 eq_refl He) as (h & -> & Hs & _ & Hh). rewrite bind_Ret.
  unfold assemble_key. cbn [bi_block set_entry set_pos it0] in Hs |- *. cbn [current_entry_offset it0 set_pos]. rewrite Hs, !bind_Ret.
  set (it1 := set_entry _ _ _ _). assert (good it1) as G1 by (by split; [|split]).
  rewrite (number_restarts_ok it1 G1), bind_Ret.
  destruct (adjust_ok (S (Z.to_nat (zlen rs))) it1 G1) as (c & -> & Hc); [lia|]. rewrite bind_Ret.
  eexists. split; [done|]. split; [|done]. split; [by apply good_pos|]. exists e, k, v.
  split_and!; [done..| |done|done|by rewrite Hv]. cbn. unfold vec_truncate. by apply (Hkey e k v).
Qed.

Lemma advance_end it : ready it (length Es) → bi_advance it = Ret (bi_reset it, false).
Proof.
  intros ((_ & Gr & _) & _ & Ho & _). unfold bi_advance. rewrite Gr, Ho, eoff_end by lia. by ztest.
Qed.

Lemma on_ready it i : on it i → ready it (S i).
Proof.
  intros (G & e & k & v & He & Hkv & Hk & Ho & _). pose proof (lookup_lt_Some _ _ _ He). split_and!; [done|lia|done|].
  intros e' k' v' He' Hkv'. destruct (stands_for_lookup _ _ _ _ _ (lay_stands _ _ _ HL) He') as (k2 & v2 & Hkv2 & _ & Hp).
  rewrite Hkv' in Hkv2. simplify_eq. cbn in Hp. rewrite Hkv in Hp. cbn in Hp. by destruct Hp as [_ ->].
Qed.

(** A restart point can be parsed whatever key is in place. *)
Lemma restart_ready it j r ceo :
  good it → rs !! j = Some r → ready (set_pos it (eoff Es r) ceo (Z.of_nat j)) r.
Proof.
  intros G Hj. pose proof (restart_inside j r Hj) as [Hr _]. pose proof (lookup_lt_Some _ _ _ Hj).
  split_and!; [apply good_pos; [done|lia]|done|done|].
  intros e k v He Hkv. destruct (stands_for_lookup _ _ _ _ _ (lay_stands _ _ _ HL) He) as (k2 & v2 & Hkv2 & _ & Hp).
  rewrite (lay_fresh _ _ _ HL r e) in * by (done || by eapply list_elem_of_lookup_2).
  rewrite Hkv in Hkv2. simplify_eq. destruct Hp as [_ Hp]. cbn in Hp. by rewrite Hp.
Qed.

Lemma reset_ready it : good it → ready (bi_reset it) 0.
Proof.
  intros (Gb & Gr & Gc). pose proof length_rs.
  assert (good (bi_reset it)) as G by (split_and!; cbn [bi_reset bi_block restarts_off current_restart_ix]; done || lia).
  destruct (restart_ready (bi_reset it) 0 0 (current_entry_offset it) G (lay_first _ _ _ HL)) as (_ & H1 & H2 & H3).
  by split_and!.
Qed.

Lemma valid_on it i : on it i → bi_valid it = true.
Proof.
  intros ((_ & Gr & _) & e & k & v & He & Hkv & Hk & Ho & Hc & Hv). unfold bi_valid. rewrite Hk, Hv, Gr.
  rewrite Forall_lookup in Hne. rewrite bool_decide_false by (by apply (Hne _ _ Hkv)).
  pose proof (eoff_le Es (S i)). pose proof (eoff_le Es i).
  destruct (stands_for_lookup _ _ _ _ _ (lay_stands _ _ _ HL) He) as (k2 & v2 & Hkv2 & Hv2 & _).
  rewrite Hkv in Hkv2. simplify_eq. rewrite (eoff_S _ _ _ He) in *.
  assert (zlen (e_value e) < zlen (ebytes e)); [|ztest; by ztest].
  pose proof (lay_sizes _ _ _ HL) as Hsz. rewrite Forall_lookup in Hsz. destruct (Hsz _ _ He) as (S1 & _).
  pose proof (encode_var_pos _ S1). unfold ebytes, entry_bytes. rewrite !length_app. lia.
Qed.

Lemma current_on it i : on it i → bi_current it = Ret (L !! i).
Proof.
  intros On. unfold bi_current. rewrite (valid_on it i On). destruct On as (G & e & k & v & He & Hkv & Hk & Ho & Hc & Hv).
  destruct (stands_for_lookup _ _ _ _ _ (lay_stands _ _ _ HL) He) as (k2 & v2 & Hkv2 & Hv2 & _).
  destruct (parse_ok (set_pos it (eoff Es i) 0 (current_restart_ix it)) i e) as (h & _ & _ & Hs & _); [by apply good_pos; [|destruct G as (_ & _ & ?)]|done..|].
  cbn in Hs. rewrite Hkv in Hkv2. simplify_eq. by rewrite Hv, Ho, Hs, bind_Ret, Hkv.
Qed.

Lemma seek_restart_ok it j r :
  good it → rs !! j = Some r → (r < length Es)%nat →
  ∃ it', seek_to_restart_point it (Z.of_nat j) = Ret (it', Some ()) ∧ on it' r ∧ bi_opt it' = bi_opt it.
Proof.
  intros G Hj Hr. destruct (lookup_lt_is_Some_2 Es r Hr) as [e He].
  destruct (stands_for_lookup _ _ _ _ _ (lay_stands _ _ _ HL) He) as (k & v & Hkv & Hv & _).
  unfold seek_to_restart_point. rewrite (get_restart_ok it j r G Hj), bind_Ret.
  destruct (restart_ready it j r (eoff Es r) G Hj) as (G0 & _ & _ & Hkey).
  set (it0 := set_pos it (eoff Es r) (eoff Es r) (Z.of_nat j)) in *.
  destruct (parse_ok it0 r e G0 eq_refl He) as (h & -> & Hs & _ & _). rewrite bind_Ret.
  specialize (Hkey e k v He Hkv).
  rewrite (lay_fresh _ _ _ HL r e) in * by (done || by eapply list_elem_of_lookup_2).
  cbn [massert mbind exec_bind Z.eqb]. unfold assemble_key. cbn [bi_block set_entry set_pos it0] in Hs |- *. rewrite Hs, !bind_Ret.
  set (it1 := set_entry _ _ _ _). assert (on it1 r) as On.
  { destruct G0 as (? & ? & ?). split; [by split; [|split]|]. exists e, k, v. split_and!; [done..| |done|done|by rewrite Hv].
    exact Hkey. }
  rewrite (valid_on it1 r On). by exists it1.
Qed.

(** ** [seek] *)

Section seek.
Context {c : Cmp} {OC : OrderedCmp c}.
Hypothesis (Hkeys : Forall (λ kv, key_ok c kv.1) L) (Hsorted : StronglySorted (key_lt (c := c)) L).
Variable (to : bytes).
Hypothesis (Hto : key_ok c to).

(** The entries before a restart point are all below the target. *)
Definition left_ok (j : nat) : Prop :=
  ∃ r, rs !! j = Some r ∧ ∀ i kv, L !! i = Some kv → (i < r)%nat → ord c kv.1 to = Lt.

Lemma left_ok_0 : left_ok 0.
Proof. exists 0%nat. split; [apply (lay_first _ _ _ HL)|]. intros. lia. Qed.

Lemma seek_search_ok fuel : ∀ it (lo hi : nat),
  good it → o_cmp (bi_opt it) = c → (lo ≤ hi < length rs)%nat → left_ok lo → (hi - lo < fuel)%nat →
  ∃ it' j, seek_search fuel to (Z.of_nat lo) (Z.of_nat hi) it = Ret (it', Z.of_nat j, Z.of_nat j)
    ∧ good it' ∧ o_cmp (bi_opt it') = c ∧ left_ok j.
Proof.
  induction fuel as [|fuel IH]; intros it lo hi G Hc Hlh Hlo Hf; [lia|]. cbn [seek_search].
  destruct (Z.ltb_spec (Z.of_nat lo) (Z.of_nat hi)) as [Hlt|Hge].
  2:{ assert (hi = lo) as -> by lia. by exists it, lo. }
  replace ((Z.of_nat lo + Z.of_nat hi + 1) / 2) with (Z.of_nat ((lo + hi + 1) / 2))
    by (rewrite Nat2Z.inj_div; f_equal; lia).
  set (mid := ((lo + hi + 1) / 2)%nat).
  assert (lo < mid ≤ hi)%nat as Hmid.
  { unfold mid. pose proof (Nat.div_mod_eq (lo + hi + 1) 2). pose proof (Nat.mod_upper_bound (lo + hi + 1) 2). lia. }
  destruct (lookup_lt_is_Some_2 rs mid) as [r Hr]; [lia|]. pose proof (restart_inside mid r Hr) as [_ Hin].
  destruct (seek_restart_ok it mid r G Hr) as (it1 & -> & On & Ho); [lia|]. rewrite bind_Ret, Ho, Hc.
  destruct On as (G1 & e & k & v & He & Hkv & Hk & _). rewrite Hk.
  rewrite Forall_lookup in Hkeys. rewrite cmp_ret, bind_Ret by (done || by apply (Hkeys _ _ Hkv)).
  destruct (is_lt (ord c k to)) eqn:Ho1.
  - apply IH; [done|by rewrite Ho|lia| |lia]. exists r. split; [done|]. intros i kv Hi Hir.
    apply is_lt_true in Ho1. pose proof (sorted_lookup_lt _ _ _ _ _ _ Hsorted Hi Hkv Hir) as Hlt'.
    by eapply ord_trans.
  - replace (Z.of_nat mid - 1) with (Z.of_nat (mid - 1)) by lia. apply IH; done || lia || by rewrite Ho.
Qed.

Lemma seek_index_at i kv :
  (∀ j kv, L !! j = Some kv → (j < i)%nat → ord c kv.1 to = Lt) → L !! i = Some kv → ord c kv.1 to ≠ Lt →
  seek_index c to L = i.
Proof.
  intros Hb Hi Hn. rewrite <- (take_drop i L). rewrite seek_index_app.
  - rewrite length_take. apply lookup_lt_Some in Hi. lia.
  - apply Forall_lookup. intros j x Hx. apply lookup_take_Some in Hx as [Hx Hj]. by eapply Hb.
  - apply Forall_lookup. intros j x Hx Hlt. rewrite lookup_drop in Hx. apply Hn.
    destruct j as [|j]; [rewrite Nat.add_0_r in Hx; by simplify_eq|].
    pose proof (sorted_lookup_lt _ _ _ _ _ _ Hsorted Hi Hx ltac:(lia)) as Hkx. by eapply ord_trans.
Qed.

Lemma seek_index_none :
  (∀ j kv, L !! j = Some kv → ord c kv.1 to = Lt) → seek_index c to L = length L.
Proof.
  intros Hb. rewrite <- (app_nil_r L) at 1. rewrite seek_index_app; [done| |done].
  apply Forall_lookup. eauto.
Qed.

(** The reset iterator. *)
Definition off_entries (it : BlockIter) : Prop :=
  good it ∧ bi_offset it = 0 ∧ bi_key it = [] ∧ val_offset it = 0.

Lemma reset_off it : good it → off_entries (bi_reset it).
Proof.
  intros (Gb & Gr & Gc). pose proof length_rs. split; [|done]. split; [done|]. split; [done|].
  cbn [bi_reset current_restart_ix]. lia.
Qed.

Definition at_pos (it : BlockIter) (p : pos) : Prop := match p with At i => on it i | _ => off_entries it end.

Lemma seek_linear_ok fuel : ∀ it i,
  ready it i → o_cmp (bi_opt it) = c → (∀ j kv, L !! j = Some kv → (j < i)%nat → ord c kv.1 to = Lt) →
  (length Es - i < fuel)%nat →
  ∃ it', seek_linear fuel to it = Ret it' ∧ at_pos it' (pos_seek c to L) ∧ o_cmp (bi_opt it') = c.
Proof.
  pose proof (stands_for_length _ _ _ (lay_stands _ _ _ HL)) as Hlen.
  induction fuel as [|fuel IH]; intros it i R Hc Hb Hf; [lia|]. cbn [seek_linear]. unfold bi_next.
  destruct (decide (i = length Es)) as [->|Hi].
  - rewrite advance_end by done. rewrite bind_Ret. cbn [negb]. rewrite bind_Ret.
    eexists. split; [done|]. unfold pos_seek. rewrite seek_index_none, at_or_off_ge by
      (done || intros j kv Hj; apply (Hb j kv Hj); apply lookup_lt_Some in Hj; lia).
    split; [|done]. apply reset_off. by destruct R.
  - assert (i < length Es)%nat as Hlt by (destruct R as (_ & ? & _); lia).
    destruct (advance_ready it i R Hlt) as (it1 & -> & On & Ho1). rewrite bind_Ret. cbn [negb].
    rewrite (current_on it1 i On), bind_Ret. destruct (lookup_lt_is_Some_2 L i) as [[k v] Hkv]; [lia|]. rewrite Hkv, bind_Ret.
    rewrite Forall_lookup in Hkeys. rewrite Ho1, Hc, cmp_ret, bind_Ret by (done || by apply (Hkeys _ _ Hkv)).
    destruct (decide (ord c k to = Lt)) as [Ho|Ho].
    + rewrite Ho. cbn [is_ge]. apply (IH it1 (S i)); [by apply on_ready|by rewrite Ho1| |lia].
      intros j kv Hj Hji. destruct (decide (j = i)) as [->|]; [by simplify_eq|]. apply (Hb j kv Hj). lia.
    + assert (is_ge (ord c k to) = true) as -> by (by destruct (ord c k to)). exists it1. split; [done|].
      unfold pos_seek. rewrite (seek_index_at i (k, v)) by done. rewrite at_or_off_lt by lia. by rewrite Ho1.
Qed.

Lemma fuel_ok it i : good it → (length Es - i < bi_fuel it)%nat.
Proof.
  intros [Gb _]. unfold bi_fuel. rewrite Gb. pose proof (length_Es_ebody Es (lay_sizes _ _ _ HL)).
  pose proof length_layout. lia.
Qed.

Lemma bi_seek_ok it :
  good it → o_cmp (bi_opt it) = c →
  ∃ it', bi_seek to it = Ret it' ∧ at_pos it' (pos_seek c to L) ∧ o_cmp (bi_opt it') = c.
Proof.
  intros G Hc. pose proof length_rs as Hrs. unfold bi_seek. destruct (reset_ready it G) as (G0 & _).
  rewrite (number_restarts_ok _ G0), bind_Ret. ztest.
  replace (zlen rs - 1) with (Z.of_nat (length rs - 1)) by lia. rewrite Nat2Z.id.
  destruct (seek_search_ok (S (length rs - 1)) (bi_reset it) 0 (length rs - 1) G0 Hc) as (it1 & j & E & G1 & Hc1 & r & Hr & Hlo);
    [lia|apply left_ok_0|lia|].
  change (Z.of_nat 0) with 0 in E. rewrite E, bind_Ret, Z.eqb_refl. cbn [massert mbind exec_bind].
  rewrite (get_restart_ok it1 j r G1 Hr), bind_Ret.
  apply (seek_linear_ok _ _ r); [by apply restart_ready|done|done|]. by apply fuel_ok.
Qed.

End seek.

(** ** [prev] and [seek_to_last] *)

Lemma prev_restart_ok fuel : ∀ it i,
  good it → (0 < i ≤ length Es)%nat → (Z.to_nat (current_restart_ix it) < fuel)%nat →
  ∃ j r, prev_restart fuel (eoff Es i) it = Ret (set_pos it (bi_offset it) (current_entry_offset it) (Z.of_nat j))
    ∧ rs !! j = Some r ∧ (r < i)%nat.
Proof.
  pose proof length_rs as Hrs. induction fuel as [|fuel IH]; intros it i G Hi Hf; [lia|]. cbn [prev_restart].
  pose proof G as (Gb & Gr & Gc). destruct (lookup_lt_is_Some_2 rs (Z.to_nat (current_restart_ix it))) as [r Hr]; [lia|].
  pose proof (get_restart_ok it _ r G Hr) as Hget. rewrite Z2Nat.id in Hget by lia. rewrite Hget, bind_Ret.
  destruct (Z.leb_spec (eoff Es i) (eoff Es r)) as [Hle|Hlt].
  - assert (i ≤ r)%nat as Hir.
    { destruct (decide (r < i)%nat); [|lia]. pose proof (eoff_lt Es r i (lay_sizes _ _ _ HL) ltac:(lia)). lia. }
    destruct (Z.eqb_spec (current_restart_ix it) 0) as [E0|E0].
    { rewrite E0 in Hr. change (Z.to_nat 0) with 0%nat in Hr. rewrite (lay_first _ _ _ HL) in Hr. simplify_eq. lia. }
    destruct (IH (set_pos it (bi_offset it) (current_entry_offset it) (current_restart_ix it - 1)) i) as (j & r' & -> & Hj & Hlt);
      [apply good_pos; [done|lia]|done|cbn [set_pos current_restart_ix]; lia|]. by exists j, r'.
  - exists (Z.to_nat (current_restart_ix it)), r. split_and!; [by rewrite Z2Nat.id by lia; destruct it|done|].
    destruct (decide (r < i)%nat); [done|]. destruct (decide (r = i)) as [->|]; [lia|].
    pose proof (restart_inside _ _ Hr) as [? _]. pose proof (eoff_lt Es i r (lay_sizes _ _ _ HL) ltac:(lia)). lia.
Qed.

Lemma prev_forward_ok fuel : ∀ it i r,
  ready it r → (r < i ≤ length Es)%nat → (i - r < fuel)%nat →
  ∃ it', prev_forward fuel (eoff Es i) it = Ret (it', true) ∧ on it' (i - 1) ∧ bi_opt it' = bi_opt it.
Proof.
  induction fuel as [|fuel IH]; intros it i r R Hr Hf; [lia|]. cbn [prev_forward].
  destruct (advance_ready it r R ltac:(lia)) as (it1 & -> & On & Ho). rewrite bind_Ret.
  pose proof On as (_ & e & k & v & _ & _ & _ & Hoff & _). rewrite Hoff.
  destruct (decide (S r = i)) as [<-|Hneq].
  - rewrite Z.leb_refl. exists it1. by replace (S r - 1)%nat with r by lia.
  - pose proof (eoff_lt Es (S r) i (lay_sizes _ _ _ HL) ltac:(lia)). ztest.
    destruct (IH it1 i (S r) (on_ready _ _ On)) as (it2 & -> & On2 & Ho2); [lia..|]. exists it2. by rewrite Ho2.
Qed.

Lemma bi_prev_ok it i :
  on it i → ∃ it', bi_prev it = Ret (it', on_entry (pos_prev (At i))) ∧ at_pos it' (pos_prev (At i)) ∧ bi_opt it' = bi_opt it.
Proof.
  intros On. pose proof On as (G & e & k & v & He & _ & _ & _ & Hce & _). unfold bi_prev. rewrite Hce.
  destruct i as [|i]; cbn [pos_prev on_entry at_pos].
  { rewrite eoff_0. cbn [Z.eqb]. eexists. split; [done|]. split; [by apply reset_off|done]. }
  apply lookup_lt_Some in He. pose proof (eoff_lt Es 0 (S i) (lay_sizes _ _ _ HL) ltac:(lia)) as Hpos. rewrite eoff_0 in Hpos. ztest.
  destruct (prev_restart_ok (S (Z.to_nat (current_restart_ix it))) it (S i) G) as (j & r & -> & Hj & Hr); [lia..|].
  rewrite bind_Ret. cbn [set_pos current_restart_ix bi_offset current_entry_offset].
  pose proof (lookup_lt_Some _ _ _ Hj) as Hjl.
  rewrite (get_restart_ok _ j r); [|apply good_pos; [done|lia]|done]. rewrite bind_Ret.
  pose proof (eoff_lt Es r (S i) (lay_sizes _ _ _ HL) ltac:(lia)) as Hlt. ztest. cbn [massert mbind exec_bind].
  set (it0 := set_pos _ _ _ _).
  assert (ready it0 r) as R0 by (apply restart_ready; [apply good_pos; [done|lia]|done]).
  destruct (prev_forward_ok (bi_fuel it0) it0 (S i) r R0) as (it' & -> & On' & Ho'); [lia| |].
  { pose proof (fuel_ok it0 0). destruct R0 as [G0 _]. specialize (H G0). lia. }
  exists it'. replace (S i - 1)%nat with i in On' by lia. by rewrite Ho'.
Qed.

Lemma advance_to_end_ok fuel : ∀ it i,
  on it i → (length Es - i < fuel)%nat →
  ∃ it', advance_to_end fuel it = Ret it' ∧ on it' (length Es - 1) ∧ bi_opt it' = bi_opt it.
Proof.
  induction fuel as [|fuel IH]; intros it i On Hf; [lia|]. cbn [advance_to_end].
  pose proof On as ((_ & Gr & _) & e & k & v & He & _ & _ & Ho & _). rewrite Gr, Ho. apply lookup_lt_Some in He.
  destruct (decide (S i = length Es)) as [Hl|Hl].
  - rewrite Hl, eoff_end, Z.ltb_irrefl by lia. exists it. by replace (length Es - 1)%nat with i by lia.
  - pose proof (eoff_lt Es (S i) (length Es) (lay_sizes _ _ _ HL) ltac:(lia)) as Hlt. rewrite (eoff_end Es (length Es)) in Hlt by lia. ztest.
    destruct (advance_ready it (S i) (on_ready _ _ On) ltac:(lia)) as (it1 & -> & On1 & Ho1). rewrite bind_Ret.
    destruct (IH it1 (S i) On1) as (it2 & -> & On2 & Ho2); [lia|]. exists it2. by rewrite Ho2.
Qed.

Lemma seek_to_last_ok it :
  good it → Es ≠ [] → ∃ it', seek_to_last it = Ret (it', Some ()) ∧ on it' (length Es - 1) ∧ bi_opt it' = bi_opt it.
Proof.
  intros G Hnil. pose proof length_rs as Hrs. unfold seek_to_last. rewrite (number_restarts_ok it G), bind_Ret. ztest.
  replace (zlen rs - 1) with (Z.of_nat (length rs - 1)) by lia.
  destruct (lookup_lt_is_Some_2 rs (length rs - 1)) as [r Hr]; [lia|]. pose proof (restart_inside _ _ Hr) as [Hle Hin].
  destruct (seek_restart_ok it _ r G Hr) as (it1 & -> & On & Ho).
  { destruct (decide (0 < length rs - 1)%nat); [lia|]. replace (length rs - 1)%nat with 0%nat in Hr by lia.
    rewrite (lay_first _ _ _ HL) in Hr. simplify_eq. by destruct Es; [|simpl; lia]. }
  rewrite bind_Ret. destruct (advance_to_end_ok (bi_fuel it1) it1 r On) as (it2 & -> & On2 & Ho2); [apply fuel_ok; by destruct On|].
  rewrite bind_Ret, (valid_on it2 _ On2). exists it2. by rewrite Ho2.
Qed.

End iteration.

(** ** The contract of iterators *)

Section contract.
Context `{IEL : IntegerEncodingLaws} {c : Cmp} {OC : OrderedCmp c}.

(** The bytes of a block that holds the entries [L]. *)
Record block_layout (Es : list enc_entry) (L : list entry) (rs : list nat) : Prop := {
  bl_layout : layout Es L rs;
  bl_size : zlen (layout_bytes Es rs) < 2 ^ 32;
  bl_nonempty : Forall (λ kv, kv.1 ≠ []) L;
  bl_keys : Forall (λ kv, key_ok c kv.1) L;
  bl_sorted : StronglySorted (key_lt (c := c)) L;
}.
Definition block_of (b : bytes) (L : list entry) : Prop :=
  ∃ Es rs, block_layout Es L rs ∧ b = layout_bytes Es rs.

Definition block_view (it : BlockIter) (L : list entry) (p : pos) : Prop :=
  ∃ Es rs, block_layout Es L rs ∧ at_pos Es L rs it p ∧ o_cmp (bi_opt it) = c.

Lemma at_pos_good Es L rs it p : at_pos Es L rs it p → good Es rs it.
Proof. destruct p; by intros [? _]. Qed.

Lemma off_ready Es L rs it : layout Es L rs → off_entries Es rs it → ready Es L rs it 0.
Proof.
  intros HL (G & Ho & Hk & _). destruct (reset_ready Es L rs HL it G) as (_ & Hi & _ & He).
  split_and!; [done..|by rewrite eoff_0|]. by rewrite Hk.
Qed.

#[export] Program Instance BlockIter_forward : ForwardIterator c BlockIter := {| view := block_view |}.
Next Obligation.
  intros it L i (Es & rs & _ & (_ & e & k & v & _ & H & _) & _). by apply lookup_lt_Some in H.
Qed.
Next Obligation.
  intros it L p (Es & rs & B & A & Hc) Hp. pose proof (stands_for_length _ _ _ (lay_stands _ _ _ (bl_layout _ _ _ B))) as Hlen.
  assert (∃ i, ready Es L rs it i ∧ pos_next L p = at_or_off L i ∧ (i ≤ length Es)%nat) as (i & R & -> & Hi).
  { destruct p as [|i|]; [| |done].
    - exists 0%nat. split_and!; [apply off_ready; [by apply bl_layout|done]|done|lia].
    - exists (S i). pose proof (on_ready _ _ _ (bl_layout _ _ _ B) _ _ A) as R. split_and!; [done..|by destruct R as (_ & ? & _)]. }
  destruct (decide (i < length Es)%nat) as [Hlt|Hge].
  - destruct (advance_ready _ _ _ (bl_layout _ _ _ B) (bl_size _ _ _ B) it i R Hlt) as (it' & E & On & Ho).
    rewrite at_or_off_lt by lia. exists it'. split; [done|]. exists Es, rs. by rewrite Ho.
  - assert (i = length Es) as -> by lia. rewrite at_or_off_ge by lia.
    eexists. split; [by apply (advance_end Es L rs)|]. exists Es, rs. split; [done|]. split; [|done].
    apply (reset_off _ L _ (bl_layout _ _ _ B)). by apply R.
Qed.
Next Obligation.
  intros it L p (Es & rs & B & A & Hc). destruct p as [|i|]; cbn [it_current BlockIter_iterator entry_at].
  1,3: destruct A as (_ & _ & Hk & _); unfold bi_current, bi_valid; by rewrite Hk.
  by apply (current_on Es L rs (bl_layout _ _ _ B) (bl_size _ _ _ B) (bl_nonempty _ _ _ B)).
Qed.
Next Obligation.
  intros it L p (Es & rs & B & A & Hc). cbn [it_valid BlockIter_iterator]. destruct p as [|i|].
  1,3: destruct A as (_ & _ & Hk & _); unfold bi_valid; by rewrite Hk.
  by rewrite (valid_on Es L rs (bl_layout _ _ _ B) (bl_nonempty _ _ _ B) it i A).
Qed.
Next Obligation.
  intros it L p (Es & rs & B & A & Hc). eexists. split; [done|]. exists Es, rs. split_and!; [done| |done].
  apply (reset_off _ L _ (bl_layout _ _ _ B)). by eapply at_pos_good.
Qed.
Next Obligation.
  intros it L p key (Es & rs & B & A & Hc) Hk.
  destruct (bi_seek_ok Es L rs (bl_layout _ _ _ B) (bl_size _ _ _ B) (bl_nonempty _ _ _ B)
              (bl_keys _ _ _ B) (bl_sorted _ _ _ B) key Hk it) as (it' & E & A' & Hc'); [by eapply at_pos_good|done|].
  exists it'. split; [done|]. by exists Es, rs.
Qed.

#[export] Instance BlockIter_backward : BackwardIterator c BlockIter.
Proof.
  intros it L i (Es & rs & B & A & Hc).
  destruct (bi_prev_ok Es L rs (bl_layout _ _ _ B) (bl_size _ _ _ B) it i A) as (it' & E & A' & Ho).
  exists it'. split; [done|]. exists Es, rs. by rewrite Ho.
Qed.

Lemma seek_to_last_law it L p :
  view (c := c) it L p → L ≠ [] → ∃ it', seek_to_last it = Ret (it', Some ()) ∧ view (c := c) it' L (At (length L - 1)).
Proof.
  intros (Es & rs & B & A & Hc) HL. pose proof (stands_for_length _ _ _ (lay_stands _ _ _ (bl_layout _ _ _ B))) as Hlen.
  destruct (seek_to_last_ok Es L rs (bl_layout _ _ _ B) (bl_size _ _ _ B) (bl_nonempty _ _ _ B) it) as (it' & E & On & Ho);
    [by eapply at_pos_good|by destruct Es, L|].
  exists it'. split; [done|]. exists Es, rs. rewrite Ho. by rewrite Hlen in On.
Qed.

(** A new iterator over a block. *)
Lemma block_iter_view opt b L :
  block_of b L → o_cmp opt = c →
  ∃ it, (b ← Block_new opt b; block_iter b) = Ret it ∧ view (c := c) it L Start ∧ bi_opt it = opt.
Proof.
  intros (Es & rs & B & ->) Hc. pose proof (bl_layout _ _ _ B) as HL. pose proof (length_layout Es rs) as Hl.
  pose proof (length_rs Es L rs HL). unfold Block_new. ztest. cbn [massert mbind exec_bind]. unfold block_iter.
  cbn [blk_contents]. set (it := {| bi_block := layout_bytes Es rs; bi_opt := opt; restarts_off := zlen (ebody Es); bi_offset := 0;
    current_entry_offset := 0; current_restart_ix := 0; bi_key := []; val_offset := 0 |}).
  assert (good Es rs it) as G by (split_and!; cbn; done || lia).
  pose proof (number_restarts_ok Es rs (bl_size _ _ _ B) it G) as Hn. unfold number_restarts in Hn. cbn [bi_block it] in Hn.
  rewrite Hn, bind_Ret. rewrite usub_Ret, bind_Ret by lia. rewrite usub_Ret, bind_Ret by lia.
  replace (zlen (layout_bytes Es rs) - 4 - 4 * zlen rs) with (zlen (ebody Es)) by lia.
  exists it. split_and!; [done| |done]. by exists Es, rs.
Qed.

(** What the block builder makes is a block of the entries added. *)
Definition block_entry_ok (kv : entry) : Prop :=
  kv.1 ≠ [] ∧ key_ok c kv.1 ∧ zlen kv.1 < 2 ^ 63 ∧ zlen kv.2 < 2 ^ 63.

Definition build_block (o : Options) (L : list entry) : exec bytes :=
  b ← bb_adds L (BlockBuilder_new o); Ret (bb_finish b).

Lemma bb_block b Es L rs :
  bb_inv b Es L rs → zlen (bb_finish b) < 2 ^ 32 →
  Forall block_entry_ok L → StronglySorted (key_lt (c := c)) L → block_of (bb_finish b) L.
Proof.
  intros I Hs HL HS. exists Es, rs. pose proof (bb_finish_ok _ _ _ _ I Hs) as E. split; [|done].
  split; [by destruct I|by rewrite <- E|..|done]; (eapply Forall_impl; [exact HL|]); by intros ? (? & ? & _).
Qed.

End contract.

(** ** Theorems *)

(** Walks back from the current entry, collecting. *)
Fixpoint collect_back `{LdbIterator It} (fuel : nat) (it : It) : exec (list entry) :=
  match fuel with
  | O => NoFuel
  | S fuel =>
      kv ← it_current it;
      match kv with
      | Some e => '(it, _) ← it_prev it; l ← collect_back fuel it; Ret (e :: l)
      | None => Ret []
      end
  end.

Lemma collect_back_ok `{BI : BackwardIterator c It} it l i fuel :
  view it l (At i) → (S i < fuel)%nat → collect_back fuel it = Ret (reverse (take (S i) l)).
Proof.
  revert it i. induction fuel as [|fuel IH]; intros it i V Hf; [lia|]. cbn [collect_back].
  rewrite (current_law _ _ _ V), bind_Ret. pose proof (view_bound _ _ _ V) as Hi.
  destruct (lookup_lt_is_Some_2 l i Hi) as [e He]. cbn [entry_at]. rewrite He.
  destruct (prev_law it l i V) as (it' & -> & V'). rewrite bind_Ret.
  rewrite (take_S_r l i e He), reverse_snoc. destruct i as [|i]; cbn [pos_prev] in V'.
  - destruct fuel; [lia|]. cbn [collect_back]. by rewrite (current_law _ _ _ V').
  - by rewrite (IH it' i V' ltac:(lia)).
Qed.

Section theorems.
Context `{IEL : IntegerEncodingLaws} (o : Options) {OC : OrderedCmp (o_cmp o)}.

Lemma build_block_ok L :
  1 ≤ block_restart_interval o → Forall (block_entry_ok (c := o_cmp o)) L → StronglySorted (key_lt (c := o_cmp o)) L →
  ∃ b, build_block o L = Ret b ∧ (zlen b < 2 ^ 32 → block_of (c := o_cmp o) b L).
Proof.
  intros Hi HL HS. unfold build_block.
  destruct (bb_adds_ok L (BlockBuilder_new o) [] [] [0%nat]) as (b & Es & rs & -> & I & Ho);
    [apply bb_new_inv; lia|done|done|done| |].
  { eapply Forall_impl; [exact HL|]. by intros ? (_ & ? & ? & ?). }
  rewrite bind_Ret. eexists. split; [done|]. intros Hs. by eapply bb_block.
Qed.

(** Building a block from entries in key order and iterating over it gives the entries
    back, whatever the restart interval and the common prefixes of the keys. *)
Theorem block_roundtrip L :
  1 ≤ block_restart_interval o → Forall (block_entry_ok (c := o_cmp o)) L → StronglySorted (key_lt (c := o_cmp o)) L →
  ∃ b, build_block o L = Ret b ∧
    (zlen b < 2 ^ 32 → ∃ it it', (blk ← Block_new o b; block_iter blk) = Ret it
       ∧ collect (S (length L)) it = Ret (it', L)).
Proof.
  intros Hi HL HS. destruct (build_block_ok L Hi HL HS) as (b & E & Hb). exists b. split; [done|]. intros Hs.
  destruct (block_iter_view (c := o_cmp o) o b L (Hb Hs) eq_refl) as (it & Eit & V & _).
  destruct (collect_all (c := o_cmp o) it L (S (length L)) V) as (it' & Ec & _); [lia|]. by exists it, it'.
Qed.

(** C25: wherever the iterator of a block is, seeking moves it to the first entry whose key is
    not below the one asked for (the binary search over the restart points and the linear scan
    behind it skip no entry), and iterating from there gives the entries that follow. *)
Theorem block_seek it L p key :
  view (c := o_cmp o) it L p → key_ok (o_cmp o) key →
  let n := seek_index (o_cmp o) key L in
  ∃ it' it'', bi_seek key it = Ret it' ∧ bi_current it' = Ret (L !! n)
    ∧ (n < length L → collect (S (length L)) it' = Ret (it'', drop (S n) L))%nat.
Proof.
  intros V Hk n. destruct (seek_law (c := o_cmp o) it L p key V Hk) as (it' & E & V'). fold n in V'.
  unfold pos_seek in V'. fold n in V'. pose proof (current_law (c := o_cmp o) _ _ _ V') as Hcur.
  destruct (decide (n < length L)%nat) as [Hn|Hn].
  - rewrite at_or_off_lt in V', Hcur by done.
    destruct (collect_from (c := o_cmp o) it' L (At n) (S n) V') with (fuel := S (length L)) as (it'' & Ec & _); [done..|lia|].
    exists it', it''. by split_and!.
  - rewrite at_or_off_ge in V', Hcur by lia. exists it', it'. split_and!; [done| |lia].
    rewrite lookup_ge_None_2 by lia. exact Hcur.
Qed.

(** [seek_to_last] moves to the last entry, and going back from it with [prev] visits
    every entry of the block in reverse order. *)
Theorem block_backward it L p :
  view (c := o_cmp o) it L p → L ≠ [] →
  ∃ it', seek_to_last it = Ret (it', Some ()) ∧ collect_back (S (S (length L))) it' = Ret (reverse L).
Proof.
  intros V HL. destruct (seek_to_last_law it L p V HL) as (it' & E & V'). exists it'. split; [done|].
  destruct L as [|e L]; [done|]. rewrite (collect_back_ok (c := o_cmp o) it' (e :: L) _ _ V') by (simpl; lia).
  do 2 f_equal. apply take_ge. simpl. lia.
Qed.

End theorems.

(** ** Witnesses *)

(** Six keys in two restart groups, the last three with a common prefix. *)
Module TestBlock.
#[local] Existing Instance Reference.ref_encoding.
#[local] Existing Instance Reference.ref_encoding_laws.
Definition o : Options := TestOptions.opts 3.
Definition L : list entry :=
  [([107; 49], [1; 2]); ([108; 111; 111], [3]); ([109], []);
   ([112; 114; 49], [4]); ([112; 114; 50], [5]); ([112; 114; 51], [6; 7])].

Lemma L_ok : Forall (block_entry_ok (c := DefaultCmp)) L.
Proof. repeat apply Forall_cons_2; try apply Forall_nil_2; (split; [done|split; [exact I|by_decide]]). Qed.
Lemma L_sorted : StronglySorted (key_lt (c := DefaultCmp)) L.
Proof. repeat constructor. Qed.

Lemma small : match build_block o L with Ret b => zlen b < 2 ^ 32 | _ => False end.
Proof. vm_compute. reflexivity. Qed.

Lemma block_view_exists : ∃ it : BlockIter, view (c := DefaultCmp) it L Start.
Proof.
  destruct (build_block_ok o L) as (b & E & Hb); [done|exact L_ok|exact L_sorted|].
  pose proof small as Hs. rewrite E in Hs.
  destruct (block_iter_view (c := DefaultCmp) o b L (Hb Hs) eq_refl) as (it & _ & V & _). by exists it.
Qed.
End TestBlock.

Lemma block_roundtrip_witness :
  let IE := Reference.ref_encoding in
  ∃ b, build_block TestBlock.o TestBlock.L = Ret b ∧
    (zlen b < 2 ^ 32 → ∃ it it', (blk ← Block_new TestBlock.o b; block_iter blk) = Ret it
       ∧ collect 7 it = Ret (it', TestBlock.L)).
Proof.
  apply (block_roundtrip (IEL := Reference.ref_encoding_laws) TestBlock.o);
    [done|exact TestBlock.L_ok|exact TestBlock.L_sorted].
Defined.

Lemma block_seek_witness :
  let IE := Reference.ref_encoding in
  ∃ it it' it'', bi_seek [112; 114; 50] it = Ret it' ∧ bi_current it' = Ret (Some ([112; 114; 50], [5]))
    ∧ collect 7 it' = Ret (it'', [([112; 114; 51], [6; 7])]).
Proof.
  destruct TestBlock.block_view_exists as [it V]. exists it.
  destruct (block_seek (IEL := Reference.ref_encoding_laws) TestBlock.o it TestBlock.L Start [112; 114; 50] V I) as (it' & it'' & E & C & D).
  exists it', it''. split_and!; [exact E|exact C|]. apply D. by_decide.
Defined.

Lemma block_backward_witness :
  let IE := Reference.ref_encoding in
  ∃ it it', seek_to_last it = Ret (it', Some ()) ∧ collect_back 8 it' = Ret (reverse TestBlock.L).
Proof.
  destruct TestBlock.block_view_exists as [it V]. exists it.
  apply (block_backward (IEL := Reference.ref_encoding_laws) TestBlock.o it TestBlock.L Start V). done.
Defined.
