(* ===== verification/Cache.v ===== *)
(** * Cache: [src/cache.rs]

    The LRU cache of blocks and of open tables.  The nodes of [LRUList] are in an explicit
    heap: a [Box<LRUNode>] and a [*mut LRUNode] are both a location, the head node is at
    location 0, a dropped box is taken out of the heap, and following a pointer to a node
    that was dropped is a panic of the model.  Locations are not used twice. *)

From S2P Require Import Prelude.

Definition LRUHandle := nat.
Definition head_node : LRUHandle := 0%nat.

Record LRUNode (T : Type) := mkLRU {
  l_next : option LRUHandle;
  l_prev : option LRUHandle;
  l_data : option T;
}.
Arguments mkLRU {T}.
Arguments l_next {T}.
Arguments l_prev {T}.
Arguments l_data {T}.

Record LRUList (T : Type) := mkLRUList {
  nodes : gmap LRUHandle (LRUNode T);
  l_count : Z;
  l_fresh : LRUHandle;
}.
Arguments mkLRUList {T}.
Arguments nodes {T}.
Arguments l_count {T}.
Arguments l_fresh {T}.

Section list.
Context {T : Type}.
Implicit Types (h : gmap LRUHandle (LRUNode T)) (l : LRUList T).

Definition LRUList_new : LRUList T :=
  {| nodes := {[ head_node := mkLRU None None None ]}; l_count := 0; l_fresh := 1%nat |}.

Definition node h (p : LRUHandle) : exec (LRUNode T) := unwrap (h !! p).

(** Assignments to one field of the node at [p]. *)
Definition set_next (p : LRUHandle) (x : option LRUHandle) h : exec (gmap LRUHandle (LRUNode T)) :=
  n ← node h p; Ret (<[p := mkLRU x (l_prev n) (l_data n)]> h).
Definition set_prev (p : LRUHandle) (x : option LRUHandle) h : exec (gmap LRUHandle (LRUNode T)) :=
  n ← node h p; Ret (<[p := mkLRU (l_next n) x (l_data n)]> h).
Definition set_data (p : LRUHandle) (x : option T) h : exec (gmap LRUHandle (LRUNode T)) :=
  n ← node h p; Ret (<[p := mkLRU (l_next n) (l_prev n) x]> h).

Definition lru_insert (elem : T) (l : LRUList T) : exec (LRUList T * LRUHandle) :=
  let newp := l_fresh l in
  hd ← node (nodes l) head_node;
  h ← match l_next hd with
      | Some first =>
          h ← set_prev first (Some newp) (nodes l);
          Ret (<[newp := mkLRU (Some first) (Some head_node) (Some elem)]> h)
      | None =>
          h ← set_prev head_node (Some newp) (nodes l);
          Ret (<[newp := mkLRU None (Some head_node) (Some elem)]> h)
      end;
  h ← set_next head_node (Some newp) h;
  Ret ({| nodes := h; l_count := l_count l + 1; l_fresh := S newp |}, newp).

Definition lru_count (l : LRUList T) : Z := l_count l.

Definition remove_last (l : LRUList T) : exec (LRUList T * option T) :=
  if lru_count l =? 0 then Ret (l, None)
  else
    hd ← node (nodes l) head_node;
    lastp ← unwrap (l_prev hd);
    n ← node (nodes l) lastp;
    pp ← unwrap (l_prev n);
    pn ← node (nodes l) pp;
    h ← set_next pp None (nodes l);
    lasto ← unwrap (l_next pn);
    last ← node h lasto;
    _ ← unwrap (l_prev last);
    hd ← node h head_node;
    _ ← unwrap (l_prev hd);
    h ← set_prev head_node (l_prev last) h;
    c ← usub (l_count l) 1;
    Ret ({| nodes := delete lasto h; l_count := c; l_fresh := l_fresh l |}, l_data last).

Definition lru_remove (node_handle : LRUHandle) (l : LRUList T) : exec (LRUList T * T) :=
  n ← node (nodes l) node_handle;
  d ← unwrap (l_data n);
  h ← set_data node_handle None (nodes l);
  np ← unwrap (l_prev n);
  pn ← node h np;
  current ← unwrap (l_next pn);
  h ← set_next np None h;
  cur ← node h current;
  prev ← unwrap (l_prev cur);
  h ← match l_next cur with Some nx => set_prev nx (l_prev cur) h | None => Ret h end;
  h ← set_next prev (l_next cur) h;
  c ← usub (l_count l) 1;
  Ret ({| nodes := delete current h; l_count := c; l_fresh := l_fresh l |}, d).

Definition reinsert_front (node_handle : LRUHandle) (l : LRUList T) : exec (LRUList T) :=
  n ← node (nodes l) node_handle;
  prevp ← unwrap (l_prev n);
  h ← match l_next n with
      | Some nx => set_prev nx (Some prevp) (nodes l)
      | None => set_prev head_node (Some prevp) (nodes l)
      end;
  (* swap prevp.next and node_handle.next *)
  pn ← node h prevp;
  n ← node h node_handle;
  h ← set_next prevp (l_next n) h;
  h ← set_next node_handle (l_next pn) h;
  (* swap node_handle.next and head.next *)
  n ← node h node_handle;
  hd ← node h head_node;
  h ← set_next node_handle (l_next hd) h;
  h ← set_next head_node (l_next n) h;
  n ← node h node_handle;
  h ← match l_next n with
      | Some newnext =>
          nn ← node h newnext;
          h ← set_prev node_handle (l_prev nn) h;
          set_prev newnext (Some node_handle) h
      | None => set_prev head_node (Some node_handle) h
      end;
  hd ← node h head_node;
  _ ← unwrap (l_next hd);
  _ ← unwrap (l_prev hd);
  Ret {| nodes := h; l_count := l_count l; l_fresh := l_fresh l |}.

End list.

(** ** [Cache] *)

Abbreviation CacheKey := bytes (only parsing).

Record Cache (T : Type) := mkCache {
  c_list : LRUList CacheKey;
  c_map : gmap CacheKey (T * LRUHandle);
  c_cap : Z;
  c_id : Z;
}.
Arguments mkCache {T}.
Arguments c_list {T}.
Arguments c_map {T}.
Arguments c_cap {T}.
Arguments c_id {T}.

Section cache.
Context {T : Type}.
Implicit Types (c : Cache T).

Definition Cache_new (capacity : Z) : exec (Cache T) :=
  _ ← massert (0 <? capacity);
  Ret {| c_list := LRUList_new; c_map := ∅; c_cap := capacity; c_id := 0 |}.

Definition new_cache_id c : exec (Cache T * Z) :=
  id ← uadd 64 (c_id c) 1;
  Ret ({| c_list := c_list c; c_map := c_map c; c_cap := c_cap c; c_id := id |}, id).

Definition cache_count c : Z := lru_count (c_list c).

(** The first half of [insert]: evicts the last element when the cache is full. *)
Definition make_room c : exec (LRUList CacheKey * gmap CacheKey (T * LRUHandle)) :=
  if c_cap c <=? lru_count (c_list c) then
    '(list, removed) ← remove_last (c_list c);
    removed_key ← unwrap removed;
    _ ← unwrap (c_map c !! removed_key);
    Ret (list, delete removed_key (c_map c))
  else Ret (c_list c, c_map c).

Definition cache_insert (key : CacheKey) (elem : T) c : exec (Cache T) :=
  '(list, map) ← make_room c;
  '(list, lru_handle) ← lru_insert key list;
  Ret {| c_list := list; c_map := <[key := (elem, lru_handle)]> map; c_cap := c_cap c; c_id := c_id c |}.

Definition cache_get (key : CacheKey) c : exec (Cache T * option T) :=
  match c_map c !! key with
  | None => Ret (c, None)
  | Some (elem, lru_handle) =>
      list ← reinsert_front lru_handle (c_list c);
      Ret ({| c_list := list; c_map := c_map c; c_cap := c_cap c; c_id := c_id c |}, Some elem)
  end.

Definition cache_remove (key : CacheKey) c : exec (Cache T * option T) :=
  match c_map c !! key with
  | None => Ret (c, None)
  | Some (elem, lru_handle) =>
      '(list, _) ← lru_remove lru_handle (c_list c);
      Ret ({| c_list := list; c_map := delete key (c_map c); c_cap := c_cap c; c_id := c_id c |}, Some elem)
  end.

End cache.

(** ** The list of nodes *)

Section segments.
Context {T : Type}.
Implicit Types (h : gmap LRUHandle (LRUNode T)) (ls A B : list (LRUHandle * T)).

Definition first_of ls (nxt : option LRUHandle) : option LRUHandle :=
  match ls with [] => nxt | (p, _) :: _ => Some p end.
Fixpoint last_of (prv : LRUHandle) ls : LRUHandle :=
  match ls with [] => prv | (p, _) :: ls => last_of p ls end.

(** A doubly linked run of nodes between [prv] and [nxt]. *)
Fixpoint lseg h (prv : LRUHandle) ls (nxt : option LRUHandle) : Prop :=
  match ls with
  | [] => True
  | (p, d) :: ls => h !! p = Some (mkLRU (first_of ls nxt) (Some prv) (Some d)) ∧ lseg h p ls nxt
  end.

Lemma first_of_app A B nxt : first_of (A ++ B) nxt = first_of A (first_of B nxt).
Proof. by destruct A as [|[]]. Qed.
Lemma last_of_app prv A B : last_of prv (A ++ B) = last_of (last_of prv A) B.
Proof. revert prv. by induction A as [|[p d] A IH]; intros; simpl. Qed.

Lemma lseg_app h prv A B nxt :
  lseg h prv (A ++ B) nxt ↔ lseg h prv A (first_of B nxt) ∧ lseg h (last_of prv A) B nxt.
Proof.
  revert prv. induction A as [|[p d] A IH]; intros prv; simpl; [naive_solver|].
  rewrite IH, first_of_app. naive_solver.
Qed.

Lemma lseg_frame h h' prv ls nxt :
  (∀ p, p ∈ ls.*1 → h' !! p = h !! p) → lseg h prv ls nxt → lseg h' prv ls nxt.
Proof.
  revert prv. induction ls as [|[p d] ls IH]; intros prv Hh; simpl; [done|]. intros [Hp Hl]. split.
  - rewrite Hh; [done|simpl; set_solver].
  - apply IH; [|done]. intros q Hq. apply Hh. simpl. set_solver.
Qed.

Lemma lseg_insert h p n prv ls nxt : p ∉ ls.*1 → lseg h prv ls nxt → lseg (<[p := n]> h) prv ls nxt.
Proof. intros Hp. apply lseg_frame. intros q Hq. apply lookup_insert_ne. by intros ->. Qed.
Lemma lseg_delete h p prv ls nxt : p ∉ ls.*1 → lseg h prv ls nxt → lseg (delete p h) prv ls nxt.
Proof. intros Hp. apply lseg_frame. intros q Hq. apply lookup_delete_ne. by intros ->. Qed.

(** The list [l] holds the data [ls.*2] in the nodes [ls.*1]. *)
Definition lru_tail (tail : option LRUHandle) ls : Prop := ls = [] ∨ tail = Some (last_of head_node ls).
Record lru_inv (l : LRUList T) ls : Prop := {
  li_head : ∃ tail, nodes l !! head_node = Some (mkLRU (first_of ls None) tail None) ∧ lru_tail tail ls;
  li_seg : lseg (nodes l) head_node ls None;
  li_nodup : NoDup (head_node :: ls.*1);
  li_fresh : Forall (λ p, p < l_fresh l)%nat (head_node :: ls.*1);
  li_count : l_count l = zlen ls;
}.

(** The same without a condition on the tail pointer of the head, which is [tail]: it may point
    to a node that was dropped. *)
Record lru_held (l : LRUList T) (tail : option LRUHandle) ls : Prop := {
  lh_head : nodes l !! head_node = Some (mkLRU (first_of ls None) tail None);
  lh_seg : lseg (nodes l) head_node ls None;
  lh_nodup : NoDup (head_node :: ls.*1);
  lh_fresh : Forall (λ p, p < l_fresh l)%nat (head_node :: ls.*1);
  lh_count : l_count l = zlen ls;
}.

Lemma lru_inv_held l ls : lru_inv l ls ↔ ∃ tail, lru_held l tail ls ∧ lru_tail tail ls.
Proof.
  split; [intros [(tail & H1 & H2) ? ? ? ?]; exists tail; by split|]. intros (tail & [] & Ht). split; try done. by exists tail.
Qed.

Lemma lru_new_inv : lru_inv LRUList_new [].
Proof.
  split; simpl; [exists None; split; [by rewrite lookup_singleton_eq|by left]|done| | |done].
  - apply NoDup_singleton.
  - repeat constructor.
Qed.

Lemma lseg_lookup h prv A p d B nxt :
  lseg h prv (A ++ (p, d) :: B) nxt → h !! p = Some (mkLRU (first_of B nxt) (Some (last_of prv A)) (Some d)).
Proof. rewrite lseg_app. by intros [_ [H _]]. Qed.

(** The nodes a step of a list operation reads and writes. *)
Lemma set_next_at h p n x : h !! p = Some n → set_next p x h = Ret (<[p := mkLRU x (l_prev n) (l_data n)]> h).
Proof. intros H. unfold set_next, node. by rewrite H. Qed.
Lemma set_prev_at h p n x : h !! p = Some n → set_prev p x h = Ret (<[p := mkLRU (l_next n) x (l_data n)]> h).
Proof. intros H. unfold set_prev, node. by rewrite H. Qed.
Lemma set_data_at h p n x : h !! p = Some n → set_data p x h = Ret (<[p := mkLRU (l_next n) (l_prev n) x]> h).
Proof. intros H. unfold set_data, node. by rewrite H. Qed.
Lemma node_at h p n : h !! p = Some n → node h p = Ret n.
Proof. intros H. unfold node. by rewrite H. Qed.

End segments.

Ltac heap_neq := first [assumption | apply not_eq_sym; assumption].
Ltac heap_lookup :=
  repeat first
    [ rewrite lookup_insert_eq
    | rewrite lookup_insert_ne by heap_neq
    | rewrite lookup_delete_ne by heap_neq ];
  first [eassumption | reflexivity | congruence].
Ltac heap_step :=
  first
    [ erewrite node_at; [|heap_lookup]
    | erewrite set_next_at; [|heap_lookup]
    | erewrite set_prev_at; [|heap_lookup]
    | erewrite set_data_at; [|heap_lookup] ];
  cbn [mbind exec_bind unwrap l_next l_prev l_data].
Ltac heap_run := cbn [mbind exec_bind unwrap l_next l_prev l_data]; repeat heap_step.

(** Splits what is known not to be in a list. *)
Ltac split_notin :=
  repeat match goal with
  | H : _ ∉ _ :: _ |- _ => apply not_elem_of_cons in H as [? ?]
  | H : _ ∉ _ ++ _ |- _ => apply not_elem_of_app in H as [? ?]
  | H : NoDup (_ :: _) |- _ => apply NoDup_cons in H as [? ?]
  | H : NoDup (_ ++ _) |- _ => apply NoDup_app in H as (? & ? & ?)
  | H : ∀ x, x ∈ ?l → x ∉ ?p :: _ |- _ =>
      assert (p ∉ l) by (clear - H; set_solver);
      pose proof (λ x Hx, proj2 (proj1 (not_elem_of_cons _ _ _) (H x Hx))); clear H
  end.

Section operations.
Context {T : Type}.
Implicit Types (l : LRUList T) (ls A B : list (LRUHandle * T)).

Lemma lru_insert_ok l ls x :
  lru_inv l ls → ∃ l', lru_insert x l = Ret (l', l_fresh l) ∧ lru_inv l' ((l_fresh l, x) :: ls).
Proof.
  intros [(tail & Hh & Ht) Hs Hnd Hf Hc]. unfold lru_insert.
  assert (l_fresh l ∉ head_node :: ls.*1) as Hnew.
  { intros Hin. rewrite Forall_forall in Hf. apply Hf in Hin. lia. }
  assert (head_node ≠ l_fresh l) as Hne by set_solver.
  rewrite (node_at _ _ _ Hh), bind_Ret. cbn [l_next].
  destruct ls as [|[p d] ls]; cbn [first_of].
  - heap_run. eexists. split; [done|]. split; cbn [nodes l_count l_fresh]; [|..|simpl in *; lia].
    + eexists. split; [heap_lookup|by right].
    + simpl. split; [heap_lookup|done].
    + simpl. apply NoDup_cons. split; [set_solver|apply NoDup_singleton].
    + simpl. rewrite !Forall_cons. unfold head_node, LRUHandle in *. split_and!; [lia..|by apply Forall_nil].
  - destruct Hs as [Hp Hs]. assert (head_node ≠ p) by (apply NoDup_cons in Hnd; set_solver).
    assert (p ≠ l_fresh l) by set_solver. heap_run.
    eexists. split; [done|]. split; cbn [nodes l_count l_fresh]; [|..|simpl in *; lia].
    + eexists. split; [heap_lookup|]. right. by destruct Ht as [|[=->]].
    + simpl. split; [heap_lookup|]. split; [heap_lookup|]. eapply lseg_frame; [|exact Hs].
      intros q Hq. simpl in Hnd. apply NoDup_cons in Hnd as [? [? ?]%NoDup_cons].
      rewrite !lookup_insert_ne; [done|set_solver..].
    + simpl. apply NoDup_cons in Hnd as [Hn0 Hnd]. apply NoDup_cons. split; [set_solver|]. apply NoDup_cons. set_solver.
    + simpl in *. rewrite !Forall_cons in *. destruct Hf as (? & ? & Hf). unfold LRUHandle in *. split_and!; [lia..|].
      eapply Forall_impl; [exact Hf|]. simpl. lia.
Qed.

(** Reads the facts about the nodes around the one at the end of [A ++ [(p, d)]]. *)
Lemma last_of_snoc prv A p (d : T) : last_of prv (A ++ [(p, d)]) = p.
Proof. by rewrite last_of_app. Qed.

Lemma remove_last_ok l A p d :
  lru_inv l (A ++ [(p, d)]) → ∃ l', remove_last l = Ret (l', Some d) ∧ lru_inv l' A ∧ l_fresh l' = l_fresh l.
Proof.
  intros [(tail & Hh & Ht) Hs Hnd Hf Hc]. unfold remove_last, lru_count. rewrite length_app in Hc. simpl in Hc. ztest.
  destruct Ht as [Ht|Ht]; [by destruct A|]. rewrite last_of_snoc in Ht. subst tail.
  pose proof (lseg_lookup _ _ _ _ _ _ _ Hs) as Hp. cbn [first_of] in Hp.
  rewrite fmap_app, app_comm_cons in Hnd, Hf. apply NoDup_app in Hnd as (HndA & HpA & _). apply Forall_app in Hf as [Hf _].
  assert (p ∉ head_node :: A.*1) as Hnp by (intros ?; eapply HpA; [done|set_solver]).
  apply lseg_app in Hs as [HsA _]. heap_run. rewrite first_of_app in Hh.
  destruct A as [|[q e] A _] using rev_ind; cbn [last_of] in *.
  - assert (head_node ≠ p) by set_solver. cbn [first_of] in *. heap_run. rewrite usub_Ret, bind_Ret by lia.
    eexists. split; [done|]. split; [|done]. split; cbn [nodes l_count l_fresh]; [|done|done|done|simpl in *; lia].
    eexists. split; [heap_lookup|by left].
  - rewrite last_of_snoc. rewrite fmap_app in *. assert (head_node ≠ p ∧ p ≠ q ∧ head_node ≠ q) as (? & ? & ?).
    { rewrite app_comm_cons in HndA. apply NoDup_app in HndA as (_ & HH & _). split_and!; [set_solver..|].
      specialize (HH head_node ltac:(set_solver)). set_solver. }
    pose proof (lseg_lookup _ _ _ _ _ _ _ HsA) as Hq. cbn [first_of] in Hq. heap_run. rewrite usub_Ret, bind_Ret by lia.
    eexists. split; [done|]. split; [|done]. split; cbn [nodes l_count l_fresh]; [|..|by rewrite fmap_app|by rewrite fmap_app|lia].
    + eexists. split; [|right; by rewrite last_of_snoc]. rewrite !first_of_app, last_of_snoc. heap_lookup.
    + apply lseg_app in HsA as [HsA' _]. apply lseg_app. split; [|simpl; split; [heap_lookup|done]].
      eapply lseg_frame; [|exact HsA']. intros r Hr. rewrite app_comm_cons in HndA.
      apply NoDup_app in HndA as ([HH1 _]%NoDup_cons & HH & _). specialize (HH r). rewrite lookup_delete_ne, !lookup_insert_ne; [done|set_solver..].
Qed.

(** Splits [NoDup] of the nodes around a segment boundary into disequalities. *)
Lemma nodup_mid (A B : list LRUHandle) p :
  NoDup (head_node :: A ++ p :: B) →
  NoDup (head_node :: p :: A ++ B) ∧ head_node ≠ p ∧ head_node ∉ A ++ B ∧ p ∉ A ++ B ∧ NoDup (A ++ B).
Proof.
  intros H. assert (NoDup (head_node :: p :: A ++ B)) as H'.
  { by rewrite Permutation_middle. }
  split; [done|]. apply NoDup_cons in H' as [H0 [Hp HAB]%NoDup_cons]. split_and!; [set_solver..|done].
Qed.

Ltac seg_frame H := repeat first [exact H | apply lseg_insert; [assumption|] | apply lseg_delete; [assumption|]].

Lemma reinsert_front_ok l A p d B :
  lru_inv l (A ++ (p, d) :: B) →
  ∃ l', reinsert_front p l = Ret l' ∧ lru_inv l' ((p, d) :: A ++ B) ∧ l_fresh l' = l_fresh l.
Proof.
  intros [(tail & Hh & Ht) Hs Hnd Hf Hc]. unfold reinsert_front.
  pose proof (lseg_lookup _ _ _ _ _ _ _ Hs) as Hp. rewrite fmap_app, fmap_cons in Hnd, Hf. cbn [fst] in Hnd, Hf.
  destruct (nodup_mid _ _ _ Hnd) as (Hnd' & Hp0 & H0 & HpAB & HAB).
  assert (Forall (λ p, p < l_fresh l)%nat (head_node :: p :: A.*1 ++ B.*1)) as Hf'
    by (by rewrite Permutation_middle). clear Hf Hnd.
  assert (l_count l = zlen ((p, d) :: A ++ B)) as Hc2 by (rewrite Hc, length_cons, !length_app; simpl; lia). clear Hc.
  assert (∀ h, h !! head_node = Some (mkLRU (Some p) (Some (last_of p (A ++ B))) None) → lseg h head_node ((p, d) :: A ++ B) None →
    lru_inv {| nodes := h; l_count := l_count l; l_fresh := l_fresh l |} ((p, d) :: A ++ B)) as Hfin.
  { intros h Hhd Hseg. split; cbn [nodes l_count l_fresh]; [|done|..].
    - eexists. split; [done|by right].
    - by rewrite fmap_cons, fmap_app.
    - by rewrite fmap_cons, fmap_app.
    - done. }
  apply lseg_app in Hs as [HsA [_ HsB]]. destruct Ht as [Ht|Ht]; [by destruct A|]. rewrite last_of_app in Ht. subst tail.
  rewrite first_of_app in Hh. cbn [first_of last_of] in *.
  destruct B as [|[r f] B]; destruct A as [|[q e] A _] using rev_ind; [|destruct A as [|[a x] A]| |destruct A as [|[a x] A]];
    cbn [last_of first_of app fmap list_fmap fst lseg] in *; rewrite ?last_of_app, ?fmap_app, ?lseg_app in *;
    cbn [last_of first_of fmap list_fmap fst lseg] in *.
  - heap_run. eexists. split; [done|]. split; [|done]. apply Hfin; [heap_lookup|]. split; [heap_lookup|done].
  - destruct HsA as [Hq _]. split_notin. heap_run.
    eexists. split; [done|]. split; [|done]. apply Hfin; [heap_lookup|]. split_and!; [heap_lookup..|done].
  - destruct HsA as [Ha [HsA [Hq _]]]. rewrite app_nil_r in *. split_notin.
    heap_run. eexists. split; [done|]. split; [|done].
    apply Hfin; [heap_lookup|]. rewrite lseg_app, !first_of_app. cbn [lseg first_of].
    split_and!; [heap_lookup..| |heap_lookup|done]. seg_frame HsA.
  - destruct HsB as [Hr HsB]. split_notin. heap_run. eexists. split; [done|]. split; [|done].
    apply Hfin; [heap_lookup|]. split_and!; [heap_lookup..|]. seg_frame HsB.
  - destruct HsA as [Hq _]. destruct HsB as [Hr HsB]. split_notin.
    heap_run. eexists. split; [done|]. split; [|done].
    apply Hfin; [heap_lookup|]. split_and!; [heap_lookup..|]. seg_frame HsB.
  - destruct HsA as [Ha [HsA [Hq _]]]. destruct HsB as [Hr HsB]. rewrite <- app_assoc in *. cbn [app] in *. split_notin.
    heap_run. eexists. split; [done|]. split; [|done]. apply Hfin; [heap_lookup|].
    rewrite lseg_app, !first_of_app. cbn [lseg first_of last_of].
    split_and!; [heap_lookup..| |heap_lookup|heap_lookup|]; [seg_frame HsA|seg_frame HsB].
Qed.

(** The tail pointer stays as it is. *)
Lemma lru_remove_held l tail A p d B :
  lru_held l tail (A ++ (p, d) :: B) → ∃ l', lru_remove p l = Ret (l', d) ∧ lru_held l' tail (A ++ B) ∧ l_fresh l' = l_fresh l.
Proof.
  intros [Hh Hs Hnd Hf Hc]. unfold lru_remove.
  pose proof (lseg_lookup _ _ _ _ _ _ _ Hs) as Hp. rewrite fmap_app, fmap_cons in Hnd, Hf. cbn [fst] in Hnd, Hf.
  destruct (nodup_mid _ _ _ Hnd) as (_ & Hp0 & H0 & HpAB & HAB). clear Hnd.
  rewrite <- Permutation_middle, Permutation_swap in Hf. apply Forall_cons in Hf as [_ Hf].
  rewrite length_app in Hc. simpl in Hc. assert (zlen (A ++ B) = l_count l - 1) as Hlen by (rewrite length_app; lia).
  assert (∀ h, h !! head_node = Some (mkLRU (first_of (A ++ B) None) tail None) → lseg h head_node (A ++ B) None →
    lru_held {| nodes := h; l_count := l_count l - 1; l_fresh := l_fresh l |} tail (A ++ B)) as Hfin.
  { intros h Hhd Hseg. split; cbn [nodes l_count l_fresh]; [done|done|rewrite fmap_app..|done]; [|done]. by apply NoDup_cons. }
  apply lseg_app in Hs as [HsA [_ HsB]]. rewrite first_of_app in Hh. cbn [first_of last_of] in *.
  destruct B as [|[r f] B]; destruct A as [|[q e] A _] using rev_ind; cbn [last_of first_of app fmap list_fmap fst lseg] in *.
  - heap_run. rewrite usub_Ret, bind_Ret by lia. eexists. split; [done|]. split; [|done]. eapply Hfin; [heap_lookup|done].
  - rewrite !last_of_snoc, fmap_app, ?app_nil_r in *. apply lseg_app in HsA as [HsA [Hq _]]. cbn [last_of first_of fmap list_fmap fst app] in *. split_notin.
    heap_run. rewrite usub_Ret, bind_Ret by lia. eexists. split; [done|]. split; [|done].
    eapply Hfin; rewrite ?first_of_app in *; cbn [first_of] in *; [heap_lookup|]. rewrite lseg_app. cbn [lseg first_of]. split_and!; [|heap_lookup..|done]. seg_frame HsA.
  - destruct HsB as [Hr HsB]. split_notin.
    heap_run. rewrite usub_Ret, bind_Ret by lia. eexists. split; [done|]. split; [|done].
    eapply Hfin; [heap_lookup|]. split; [heap_lookup|]. seg_frame HsB.
  - rewrite !last_of_snoc, fmap_app, <- !app_assoc in *. apply lseg_app in HsA as [HsA [Hq _]]. destruct HsB as [Hr HsB].
    cbn [last_of first_of fmap list_fmap fst app] in *.
    split_notin.
    heap_run. rewrite usub_Ret, bind_Ret by lia. eexists. split; [done|]. split; [|done].
    eapply Hfin; rewrite ?first_of_app in *; cbn [first_of] in *; [heap_lookup|]. rewrite lseg_app. cbn [lseg first_of].
    split_and!; [|heap_lookup..|]; [seg_frame HsA|seg_frame HsB].
Qed.

(** Removing the last of several nodes leaves the head pointing to it. *)
Lemma lru_remove_ok l A p d B :
  lru_inv l (A ++ (p, d) :: B) → (B ≠ [] ∨ A = []) →
  ∃ l', lru_remove p l = Ret (l', d) ∧ lru_inv l' (A ++ B) ∧ l_fresh l' = l_fresh l.
Proof.
  intros (tail & H & Ht)%lru_inv_held HB. destruct (lru_remove_held _ _ _ _ _ _ H) as (l' & E & H' & Hf). exists l'. split_and!; [done| |done]. apply lru_inv_held. exists tail. split; [done|].
  destruct Ht as [Ht|Ht]; [by destruct A|]. destruct B as [|[r f] B]; [destruct HB as [| ->]; [done|by left]|]. right. by rewrite Ht, !last_of_app.
Qed.

End operations.

(** ** The cache as an LRU list

    [L] lists the entries, the most recently used first. *)

Section lru.
Context {T : Type}.
Implicit Types (c : Cache T) (L : list (CacheKey * T)).

Definition lru_lookup (k : CacheKey) L : option T := (λ x, x.2.2) <$> list_find (λ kv, kv.1 = k) L.
Definition lru_touch (k : CacheKey) L : list (CacheKey * T) :=
  match list_find (λ kv, kv.1 = k) L with
  | Some (i, kv) => kv :: take i L ++ drop (S i) L
  | None => L
  end.
Definition lru_put (cap : Z) (k : CacheKey) (v : T) L : list (CacheKey * T) :=
  (k, v) :: take (Z.to_nat (cap - 1)) L.

Definition lru_drop (k : CacheKey) L : list (CacheKey * T) := filter (λ kv, kv.1 ≠ k) L.

Lemma lru_lookup_cases k L :
  (k ∉ L.*1 ∧ lru_lookup k L = None ∧ lru_touch k L = L)
  ∨ ∃ L1 v L2, L = L1 ++ (k, v) :: L2 ∧ lru_lookup k L = Some v ∧ lru_touch k L = (k, v) :: L1 ++ L2.
Proof.
  unfold lru_lookup, lru_touch. destruct (list_find (λ kv, kv.1 = k) L) as [[i [k' v]]|] eqn:E; [right|left].
  - apply list_find_Some in E as (Hi & Hk & _). simpl in Hk. subst k'.
    exists (take i L), v, (drop (S i) L). by rewrite (take_drop_middle _ _ _ Hi).
  - apply list_find_None in E. split_and!; [|done..]. intros ([k' v] & Hk & Hin)%list_elem_of_fmap.
    rewrite Forall_forall in E. by apply (E _ Hin).
Qed.

Lemma lru_drop_split L1 k v L2 : NoDup (L1 ++ (k, v) :: L2).*1 → lru_drop k (L1 ++ (k, v) :: L2) = L1 ++ L2.
Proof.
  rewrite fmap_app, fmap_cons. intros (_ & H1 & [H2 _]%NoDup_cons)%NoDup_app. unfold lru_drop.
  rewrite filter_app, filter_cons_False by (simpl; tauto). rewrite !list_filter_all; [done|apply Forall_forall..].
  - intros x Hx <-. apply H2. exact (list_elem_of_fmap_2 fst _ x Hx).
  - intros x Hx <-. apply (H1 x.1); [by apply (list_elem_of_fmap_2 fst)|left].
Qed.

Lemma lru_drop_missing k L : k ∉ L.*1 → lru_drop k L = L.
Proof. intros Hk. apply list_filter_all, Forall_forall. intros x Hx <-. apply Hk. by apply (list_elem_of_fmap_2 fst). Qed.

(** The nodes with the entries they stand for. *)
Definition cnode : Type := LRUHandle * (CacheKey * T).
Definition links (N : list cnode) : list (LRUHandle * CacheKey) := (λ n, (n.1, n.2.1)) <$> N.
Definition bindings (N : list cnode) : list (CacheKey * (T * LRUHandle)) := (λ n, (n.2.1, (n.2.2, n.1))) <$> N.

Definition cache_inv c L : Prop :=
  ∃ N : list cnode, L = N.*2 ∧ lru_inv (c_list c) (links N) ∧ c_map c = list_to_map (bindings N)
    ∧ NoDup L.*1 ∧ zlen L ≤ c_cap c ∧ 0 < c_cap c.

Lemma links_app N N' : links (N ++ N') = links N ++ links N'.
Proof. apply fmap_app. Qed.
Lemma bindings_app N N' : bindings (N ++ N') = bindings N ++ bindings N'.
Proof. apply fmap_app. Qed.
Lemma bindings_keys N : (bindings N).*1 = (N.*2).*1.
Proof. unfold bindings. by rewrite <- !list_fmap_compose. Qed.

Lemma bindings_lookup N k v p :
  NoDup (N.*2).*1 → list_to_map (M := gmap CacheKey (T * LRUHandle)) (bindings N) !! k = Some (v, p) ↔ (p, (k, v)) ∈ N.
Proof.
  intros Hnd. rewrite <- elem_of_list_to_map by (by rewrite bindings_keys).
  unfold bindings. rewrite list_elem_of_fmap. split; [|intros Hin; by exists (p, (k, v))].
  intros ([q [k' v']] & ? & ?). by simplify_eq/=.
Qed.

Lemma cache_new_inv cap : 0 < cap → ∃ c, Cache_new cap = Ret c ∧ cache_inv c [] ∧ c_cap c = cap.
Proof.
  intros Hcap. unfold Cache_new. ztest. eexists. split; [done|]. split; [|done]. exists []. split_and!; try done.
  - apply lru_new_inv.
  - apply NoDup_nil_2.
  - simpl. lia.
Qed.

Lemma cache_get_miss c L k : cache_inv c L → k ∉ L.*1 → cache_get k c = Ret (c, None).
Proof.
  intros (N & -> & _ & Hm & Hnd & _) Hk. unfold cache_get.
  destruct (c_map c !! k) as [[v p]|] eqn:E; [|done]. rewrite Hm, bindings_lookup in E by done.
  destruct Hk. apply list_elem_of_fmap. exists (k, v). split; [done|]. apply list_elem_of_fmap. by exists (p, (k, v)).
Qed.

Lemma cache_get_hit c L1 k v L2 :
  cache_inv c (L1 ++ (k, v) :: L2) →
  ∃ c', cache_get k c = Ret (c', Some v) ∧ cache_inv c' ((k, v) :: L1 ++ L2) ∧ c_cap c' = c_cap c ∧ c_id c' = c_id c.
Proof.
  intros (N & HN & Hl & Hm & Hnd & Hcap & Hpos).
  symmetry in HN. apply fmap_app_inv in HN as (N1 & N' & -> & Hkv & ->).
  symmetry in Hkv. apply fmap_cons_inv in Hkv as ([p [k' v']] & N2 & [= <- <-] & -> & ->).
  assert (c_map c !! k = Some (v, p)) as Hlk.
  { rewrite Hm. apply bindings_lookup; [by rewrite fmap_app, fmap_cons|set_solver]. }
  unfold cache_get. rewrite Hlk. rewrite links_app in Hl. cbn [links fmap list_fmap fst snd] in Hl.
  destruct (reinsert_front_ok _ _ _ _ _ Hl) as (l' & -> & Hl' & _). rewrite bind_Ret.
  eexists. split; [done|]. split; [|done]. exists ((p, (k, v)) :: N1 ++ N2). cbn [c_list c_map c_cap].
  split_and!; [by rewrite fmap_cons, fmap_app| | | | |done].
  - change (links ((p, (k, v)) :: N1 ++ N2)) with ((p, k) :: links (N1 ++ N2)). by rewrite links_app.
  - rewrite Hm. apply list_to_map_proper; [by rewrite bindings_keys, fmap_app, fmap_cons|].
    unfold bindings. by rewrite Permutation_middle.
  - by rewrite Permutation_middle.
  - etrans; [|exact Hcap]. rewrite !length_app. simpl. rewrite length_app. lia.
Qed.

Lemma make_room_ok c N :
  lru_inv (c_list c) (links N) → c_map c = list_to_map (bindings N) → NoDup (N.*2).*1 → zlen N ≤ c_cap c → 0 < c_cap c →
  ∃ l' N', make_room c = Ret (l', list_to_map (bindings N')) ∧ lru_inv l' (links N')
    ∧ N' = take (Z.to_nat (c_cap c - 1)) N.
Proof.
  intros Hl Hm Hnd Hcap Hpos. unfold make_room, lru_count.
  assert (l_count (c_list c) = zlen N) as -> by (rewrite (li_count _ _ Hl); unfold links; by rewrite length_fmap).
  destruct (Z.leb_spec (c_cap c) (zlen N)) as [Hfull|Hroom].
  - destruct N as [|[p [k v]] N _] using rev_ind; [simpl in *; lia|]. rewrite length_app in *. simpl in Hcap, Hfull.
    rewrite links_app in Hl. destruct (remove_last_ok _ _ _ _ Hl) as (l' & -> & Hl' & _).
    cbn [unwrap mbind exec_bind].
    assert (c_map c !! k = Some (v, p)) as Hlk by (rewrite Hm; apply bindings_lookup; [done|set_solver]).
    cbn [fst snd]. rewrite Hlk. cbn [unwrap mbind exec_bind]. exists l', N. split_and!; [|done|].
    + do 2 f_equal. rewrite Hm. rewrite !fmap_app in Hnd. apply NoDup_app in Hnd as (Hnd & Hk & _).
      rewrite bindings_app. rewrite (list_to_map_proper _ ((k, (v, p)) :: bindings N)).
      * rewrite list_to_map_cons. apply delete_insert_id, not_elem_of_list_to_map. rewrite bindings_keys.
        intros Hin. apply (Hk k Hin). set_solver.
      * rewrite fmap_app, bindings_keys. apply NoDup_app. split_and!; [done|set_solver|apply NoDup_singleton].
      * by rewrite Permutation_app_comm.
    + by rewrite take_app_length' by lia.
  - exists (c_list c), N. rewrite Hm. split_and!; [done..|]. by rewrite take_ge by lia.
Qed.

Lemma cache_insert_ok c L k v :
  cache_inv c L → k ∉ L.*1 →
  ∃ c', cache_insert k v c = Ret c' ∧ cache_inv c' (lru_put (c_cap c) k v L) ∧ c_cap c' = c_cap c ∧ c_id c' = c_id c.
Proof.
  intros (N & -> & Hl & Hm & Hnd & Hcap & Hpos) Hk. unfold cache_insert. rewrite length_fmap in Hcap.
  destruct (make_room_ok c N) as (l' & N0 & -> & Hl' & HN0); [done..|].
  rewrite bind_Ret. destruct (lru_insert_ok l' _ k Hl') as (l'' & -> & Hl''). rewrite bind_Ret.
  eexists. split; [done|]. split; [|done]. exists ((l_fresh l', (k, v)) :: N0). cbn [c_list c_map c_cap]. unfold lru_put.
  assert (take (Z.to_nat (c_cap c - 1)) (N.*2) = N0.*2) as -> by (by rewrite HN0, <- (fmap_take snd)). split_and!; [done..| | |done].
  - rewrite fmap_cons. apply NoDup_cons. rewrite HN0, !fmap_take. split.
    + intros [i [Hi _]%lookup_take_Some]%list_elem_of_lookup. apply Hk. by eapply list_elem_of_lookup_2.
    + by apply NoDup_take.
  - rewrite HN0. simpl. rewrite length_fmap, length_take. lia.
Qed.

(** The elements [L] are in the cache, whatever the tail pointer of its list. *)
Definition cache_held c L : Prop :=
  ∃ (N : list cnode) tail, L = N.*2 ∧ lru_held (c_list c) tail (links N) ∧ c_map c = list_to_map (bindings N)
    ∧ NoDup L.*1 ∧ zlen L ≤ c_cap c ∧ 0 < c_cap c.

Lemma cache_inv_held c L : cache_inv c L → cache_held c L.
Proof. intros (N & H1 & (tail & H2 & _)%lru_inv_held & H3). by exists N, tail. Qed.

(** The map without a node of the list. *)
Lemma bindings_remove N1 p k v N2 : NoDup ((N1 ++ (p, (k, v)) :: N2).*2).*1 →
  delete k (list_to_map (bindings (N1 ++ (p, (k, v)) :: N2))) = (list_to_map (bindings (N1 ++ N2)) : gmap CacheKey (T * LRUHandle)) ∧ NoDup ((N1 ++ N2).*2).*1.
Proof.
  intros Hnd. assert (NoDup (k :: ((N1 ++ N2).*2).*1)) as Hk by (revert Hnd; by rewrite <- Permutation_middle). pose proof Hk as [Hk' Hnd']%NoDup_cons. split; [|done].
  rewrite (list_to_map_proper _ ((k, (v, p)) :: bindings (N1 ++ N2))).
  - rewrite list_to_map_cons. apply delete_insert_id, not_elem_of_list_to_map. by rewrite bindings_keys.
  - by rewrite bindings_keys.
  - unfold bindings. by rewrite <- Permutation_middle.
Qed.

(** [remove] of an element that is there, whose node is at [p]. *)
Lemma cache_remove_at c N1 p k v N2 l' : c_map c = list_to_map (bindings (N1 ++ (p, (k, v)) :: N2)) → NoDup ((N1 ++ (p, (k, v)) :: N2).*2).*1 →
  lru_remove p (c_list c) = Ret (l', k) →
  cache_remove k c = Ret ({| c_list := l'; c_map := list_to_map (bindings (N1 ++ N2)); c_cap := c_cap c; c_id := c_id c |}, Some v) ∧ NoDup ((N1 ++ N2).*2).*1.
Proof.
  intros Hm Hnd El. destruct (bindings_remove N1 p k v N2 Hnd) as [Hm' Hnd']. split; [|done].
  assert (c_map c !! k = Some (v, p)) as Hlk by (rewrite Hm; apply bindings_lookup; [done|set_solver]).
  unfold cache_remove. by rewrite Hlk, El, bind_Ret, Hm, Hm'.
Qed.

(** The list around an element. *)
Lemma nodes_around (N : list cnode) L1 k v L2 : L1 ++ (k, v) :: L2 = N.*2 → ∃ N1 p N2, N = N1 ++ (p, (k, v)) :: N2 ∧ L1 = N1.*2 ∧ L2 = N2.*2.
Proof.
  intros HN. symmetry in HN. apply fmap_app_inv in HN as (N1 & N' & -> & Hkv & ->).
  symmetry in Hkv. apply fmap_cons_inv in Hkv as ([p [k' v']] & N2 & [= <- <-] & -> & ->). by exists N1, p, N2.
Qed.

Lemma cache_remove_ok c L1 k v L2 :
  cache_inv c (L1 ++ (k, v) :: L2) → (L2 ≠ [] ∨ L1 = []) →
  ∃ c', cache_remove k c = Ret (c', Some v) ∧ cache_inv c' (L1 ++ L2) ∧ c_cap c' = c_cap c ∧ c_id c' = c_id c.
Proof.
  intros (N & HN & Hl & Hm & Hnd & Hcap & Hpos) Hlast. rewrite HN in Hnd. destruct (nodes_around _ _ _ _ _ HN) as (N1 & p & N2 & -> & -> & ->).
  rewrite links_app in Hl. cbn [links fmap list_fmap fst snd] in Hl.
  destruct (lru_remove_ok _ _ _ _ _ Hl) as (l' & El & Hl' & _); [destruct Hlast as [H|H]; [left; by destruct N2|right; by destruct N1]|].
  destruct (cache_remove_at c N1 p k v N2 l' Hm Hnd El) as [-> Hnd']. eexists. split; [done|]. split; [|done]. exists (N1 ++ N2). cbn [c_list c_map c_cap].
  rewrite <- fmap_app, links_app. split_and!; try done. etrans; [|exact Hcap]. rewrite fmap_app, !length_app. simpl. lia.
Qed.

Lemma cache_remove_held c L k : cache_held c L →
  ∃ c', cache_remove k c = Ret (c', lru_lookup k L) ∧ cache_held c' (lru_drop k L) ∧ c_cap c' = c_cap c ∧ c_id c' = c_id c.
Proof.
  intros (N & tail & HN & Hl & Hm & Hnd & Hcap & Hpos). destruct (lru_lookup_cases k L) as [(Hk & -> & _)|(L1 & v & L2 & -> & -> & _)].
  - rewrite lru_drop_missing by done. exists c. split_and!; [|by exists N, tail|done..]. unfold cache_remove. destruct (c_map c !! k) as [[v p]|] eqn:E; [|done].
    rewrite HN in Hnd. rewrite Hm, bindings_lookup in E by done. destruct Hk. rewrite HN. apply list_elem_of_fmap. exists (k, v). split; [done|]. apply list_elem_of_fmap. by exists (p, (k, v)).
  - rewrite lru_drop_split by done. rewrite HN in Hnd. destruct (nodes_around _ _ _ _ _ HN) as (N1 & p & N2 & -> & -> & ->).
    rewrite links_app in Hl. cbn [links fmap list_fmap fst snd] in Hl. destruct (lru_remove_held _ _ _ _ _ _ Hl) as (l' & El & Hl' & _).
    destruct (cache_remove_at c N1 p k v N2 l' Hm Hnd El) as [-> Hnd']. eexists. split; [done|]. split; [|done]. exists (N1 ++ N2), tail. cbn [c_list c_map c_cap].
    rewrite <- fmap_app, links_app. split_and!; try done. etrans; [|exact Hcap]. rewrite fmap_app, !length_app. simpl. lia.
Qed.

(** ** The cache refines the list *)

(** What the clients do: look an element up, insert it when it is missing, and drop one. *)
Inductive cop := CGet (k : CacheKey) | CFetch (k : CacheKey) (v : T) | CRemove (k : CacheKey).

Definition run_cop (o : cop) c : exec (Cache T * option T) :=
  match o with
  | CGet k => cache_get k c
  | CFetch k v =>
      '(c, r) ← cache_get k c;
      match r with Some x => Ret (c, Some x) | None => c ← cache_insert k v c; Ret (c, None) end
  | CRemove k => cache_remove k c
  end.
Definition spec_cop (cap : Z) (o : cop) L : list (CacheKey * T) * option T :=
  match o with
  | CGet k => (lru_touch k L, lru_lookup k L)
  | CFetch k v =>
      match lru_lookup k L with Some x => (lru_touch k L, Some x) | None => (lru_put cap k v L, None) end
  | CRemove k => (lru_drop k L, lru_lookup k L)
  end.
(** Not the removal of the last of several elements. *)
Definition safe_cop (o : cop) L : bool :=
  match o with
  | CRemove k => bool_decide (fst <$> last L ≠ Some k) || bool_decide (length L = 1%nat)
  | _ => true
  end.

Fixpoint run_cops (os : list cop) c : exec (Cache T * list (option T)) :=
  match os with
  | [] => Ret (c, [])
  | o :: os => '(c, r) ← run_cop o c; '(c, rs) ← run_cops os c; Ret (c, r :: rs)
  end.
Fixpoint spec_cops (cap : Z) (os : list cop) L : list (CacheKey * T) * list (option T) :=
  match os with
  | [] => (L, [])
  | o :: os => let '(L, r) := spec_cop cap o L in let '(L, rs) := spec_cops cap os L in (L, r :: rs)
  end.
Fixpoint safe_cops (cap : Z) (os : list cop) L : bool :=
  match os with
  | [] => true
  | o :: os => safe_cop o L && safe_cops cap os (spec_cop cap o L).1
  end.

Lemma run_cop_ok o c L :
  cache_inv c L → safe_cop o L = true → ∃ c', run_cop o c = Ret (c', (spec_cop (c_cap c) o L).2)
    ∧ cache_inv c' (spec_cop (c_cap c) o L).1 ∧ c_cap c' = c_cap c.
Proof.
  intros C Hsafe. pose proof C as (_ & _ & _ & _ & Hnd & _).
  destruct o as [k|k v|k]; cbn [run_cop spec_cop safe_cop] in *;
    destruct (lru_lookup_cases k L) as [(Hk & -> & Ht)|(L1 & x & L2 & -> & -> & Ht)]; rewrite ?Ht.
  - rewrite (cache_get_miss c L k C Hk). by exists c.
  - destruct (cache_get_hit _ _ _ _ _ C) as (c' & -> & C' & Hc & _). by exists c'.
  - rewrite (cache_get_miss c L k C Hk), bind_Ret. destruct (cache_insert_ok c L k v C Hk) as (c' & -> & C' & Hc & _). by exists c'.
  - destruct (cache_get_hit _ _ _ _ _ C) as (c' & -> & C' & Hc & _). by exists c'.
  - rewrite (lru_drop_missing k L Hk). pose proof (cache_get_miss c L k C Hk) as Hm. unfold cache_get, cache_remove in *.
    destruct (c_map c !! k) as [[y p]|]; [by exec_inv Hm|]. by exists c.
  - rewrite (lru_drop_split L1 k x L2 Hnd). destruct (cache_remove_ok c L1 k x L2 C) as (c' & -> & C' & Hc & _); [|by exists c'].
    destruct L2 as [|y L2]; [right|by left]. rewrite last_snoc, length_app in Hsafe. simpl in Hsafe.
    destruct L1; [done|]. exfalso. simpl in Hsafe. rewrite !bool_decide_false in Hsafe; [done|lia|naive_solver].
Qed.

Lemma run_cops_ok os : ∀ c L,
  cache_inv c L → safe_cops (c_cap c) os L = true → ∃ c', run_cops os c = Ret (c', (spec_cops (c_cap c) os L).2)
    ∧ cache_inv c' (spec_cops (c_cap c) os L).1 ∧ c_cap c' = c_cap c.
Proof.
  induction os as [|o os IH]; intros c L C Hsafe; cbn [run_cops spec_cops safe_cops] in *; [by exists c|].
  apply andb_prop in Hsafe as [Hs1 Hs2].
  destruct (run_cop_ok o c L C Hs1) as (c1 & -> & C1 & Hc). rewrite bind_Ret. destruct (spec_cop (c_cap c) o L) as [L1 r].
  destruct (IH c1 L1 C1) as (c2 & -> & C2 & Hc2); [by rewrite Hc|]. rewrite bind_Ret, <- Hc.
  destruct (spec_cops _ os L1) as [L2 rs]. by exists c2.
Qed.

(** C26: any sequence of lookups, of insertions of missing elements and of removals (but never
    of the last of several elements) runs without a panic or a wild pointer, and gives what a
    list of at most [cap] elements ordered by last use gives: hits return the element inserted
    under the key, and what is evicted is the least recently used element. *)
Theorem cache_refines_lru cap os :
  0 < cap → safe_cops cap os [] = true →
  ∃ c c', Cache_new cap = Ret c ∧ run_cops os c = Ret (c', (spec_cops cap os []).2)
    ∧ cache_inv c' (spec_cops cap os []).1 ∧ cache_count c' = zlen (spec_cops cap os []).1 ∧ cache_count c' ≤ cap.
Proof.
  intros Hcap Hsafe. destruct (cache_new_inv cap Hcap) as (c & E & C & Hc).
  destruct (run_cops_ok os c [] C) as (c' & E' & C' & Hc'); [by rewrite Hc|].
  rewrite Hc in *. exists c, c'. pose proof C' as (N & HN & Hl & _ & _ & Hle & _). rewrite Hc' in Hle.
  assert (cache_count c' = zlen (spec_cops cap os []).1) as Hn.
  { unfold cache_count, lru_count. rewrite (li_count _ _ Hl), HN. unfold links. by rewrite !length_fmap. }
  split_and!; [done..|by rewrite Hn].
Qed.

End lru.

(** [Cache::remove] of the least recently used of several elements leaves the list's tail
    pointer at the dropped node, and the next eviction follows it. *)
Theorem cache_remove_dangles {T} (v : T) :
  (c ← Cache_new 2; c ← cache_insert [1] v c; c ← cache_insert [2] v c;
   '(c, _) ← cache_remove [1] c; c ← cache_insert [3] v c; cache_insert [4] v c) = Panic.
Proof. reflexivity. Qed.

(** Inserting a key that is present leaves its old node in the list; when that one is evicted
    the key goes from the map, and evicting the new one then fails the assertion. *)
Theorem cache_double_insert_panics {T} (v : T) :
  (c ← Cache_new 2; c ← cache_insert [1] v c; c ← cache_insert [1] v c;
   c ← cache_insert [2] v c; cache_insert [3] v c) = Panic.
Proof. reflexivity. Qed.

Lemma cache_refines_lru_witness :
  let os := [CFetch [1] 10; CFetch [2] 20; CGet [1]; CFetch [3] 30; CGet [2]; CRemove [3]; CFetch [1] 11] in
  ∃ c c', Cache_new 2 = Ret c
    ∧ run_cops os c = Ret (c', [None; None; Some 10; None; None; Some 30; Some 10])
    ∧ cache_inv c' [([1], 10)] ∧ cache_count c' = 1 ∧ cache_count c' ≤ 2.
Proof. apply (cache_refines_lru 2 [CFetch [1] 10; CFetch [2] 20; CGet [1]; CFetch [3] 30; CGet [2]; CRemove [3]; CFetch [1] 11]); [done|by_decide]. Defined.
