(* ===== verification/TableBuilder.v ===== *)
(** * TableBuilder: [src/blockhandle.rs] and [src/table_builder.rs]

    Block handles, the footer, and the builder of table files. *)

From S2P Require Import Prelude Encoding Error Io Types Cmp KeyTypes Log Filter FilterBlock Options BlockBuilder.

(** ** [BlockHandle] *)

Record BlockHandle := mkBlockHandle { bh_offset : Z; bh_size : Z }.

Section handle.
Context {IE : IntegerEncoding}.

Definition BlockHandle_decode (from : bytes) : exec (option (BlockHandle * Z)) :=
  match decode_var 64 from with
  | None => Ret None
  | Some (off, offsize) =>
      s ← slice_from from offsize;
      match decode_var 64 s with
      | None => Ret None
      | Some (sz, szsize) => Ret (Some ({| bh_offset := off; bh_size := sz |}, offsize + szsize))
      end
  end.

(** The buffer after the encoding and the number of bytes written. *)
Definition encode_to (h : BlockHandle) (dst : bytes) : exec (bytes * Z) :=
  _ ← massert (required_space (bh_offset h) + required_space (bh_size h) <=? zlen dst);
  dst ← splice dst 0 (encode_var (bh_offset h));
  let off := zlen (encode_var (bh_offset h)) in
  dst ← splice dst off (encode_var (bh_size h));
  Ret (dst, off + zlen (encode_var (bh_size h))).

End handle.

(** ** [Footer] *)

Definition FOOTER_LENGTH : Z := 40.
Definition FULL_FOOTER_LENGTH : Z := FOOTER_LENGTH + 8.
Definition MAGIC_FOOTER_ENCODED : bytes := [0x57; 0xfb; 0x80; 0x8b; 0x24; 0x75; 0x47; 0xdb].
Definition TABLE_BLOCK_COMPRESS_LEN : Z := 1.
Definition TABLE_BLOCK_CKSUM_LEN : Z := 4.

Record Footer := mkFooter { meta_index : BlockHandle; footer_index : BlockHandle }.

(** [for i in i..i + src.len() { to[i] = src[i - i0] }] *)
Fixpoint write_from (i : Z) (src to : bytes) : exec bytes :=
  match src with
  | [] => Ret to
  | x :: src => to ← set_index to i x; write_from (i + 1) src to
  end.

Section footer.
Context {IE : IntegerEncoding}.

Definition Footer_decode (from : bytes) : exec (option Footer) :=
  _ ← massert (FULL_FOOTER_LENGTH <=? zlen from);
  magic ← slice_from from FOOTER_LENGTH;
  _ ← massert (bool_decide (magic = MAGIC_FOOTER_ENCODED));
  m ← BlockHandle_decode from;
  match m with
  | None => Ret None
  | Some (meta, metalen) =>
      s ← slice_from from metalen;
      i ← BlockHandle_decode s;
      match i with
      | None => Ret None
      | Some (ix, _) => Ret (Some {| meta_index := meta; footer_index := ix |})
      end
  end.

Definition Footer_encode (f : Footer) (to : bytes) : exec bytes :=
  _ ← massert (FOOTER_LENGTH + 8 <=? zlen to);
  '(to, s1) ← encode_to (meta_index f) to;
  rest ← slice_from to s1;
  '(rest, s2) ← encode_to (footer_index f) rest;
  to ← splice to s1 rest;
  to ← write_from (s1 + s2) (replicate (Z.to_nat (FOOTER_LENGTH - (s1 + s2))) 0) to;
  write_from FOOTER_LENGTH MAGIC_FOOTER_ENCODED to.

End footer.

(** ** [TableBuilder] *)

(** [FixedIntWriter] of the crate integer-encoding: writes the integer in the given number of
    bytes. *)
Class FixedIntWriter (W : Type) `{Write W} :=
  write_fixedint : Z → Z → W → exec (W * io_result Z).

Class ReliableFixedInt (W : Type) `{IE : IntegerEncoding} `{FW : FixedIntWriter W} {RW : ReliableWrite W} : Prop :=
  fixedint_reliable k n w : 0 ≤ k → writable w →
    ∃ w', write_fixedint k n w = Ret (w', Ok k) ∧ written w' = written w ++ encode_fixed k n ∧ writable w'.

Record TableBuilder (W : Type) := mkTableBuilder {
  tb_opt : Options;
  tb_dst : W;
  tb_offset : Z;
  num_entries : Z;
  prev_block_last_key : bytes;
  data_block : option BlockBuilder;
  index_block : option BlockBuilder;
  filter_block : option FilterBlockBuilder;
}.
Arguments mkTableBuilder {W}.
Arguments tb_opt {W}.
Arguments tb_dst {W}.
Arguments tb_offset {W}.
Arguments num_entries {W}.
Arguments prev_block_last_key {W}.
Arguments data_block {W}.
Arguments index_block {W}.
Arguments filter_block {W}.

(** [opt] with the comparator and the policy for internal keys, or another policy. *)
Definition with_internal_keys {IE : IntegerEncoding} (o : Options) : Options :=
  {| o_cmp := InternalKeyCmp (o_cmp o); create_if_missing := create_if_missing o; error_if_exists := error_if_exists o;
     paranoid_checks := paranoid_checks o; write_buffer_size := write_buffer_size o; max_open_files := max_open_files o;
     max_file_size := max_file_size o; o_block_size := o_block_size o; block_restart_interval := block_restart_interval o;
     reuse_logs := reuse_logs o; reuse_manifest := reuse_manifest o; o_compressor := o_compressor o;
     compressor_list := compressor_list o; filter_policy := InternalFilterPolicy (filter_policy o) |}.
Definition with_policy (p : FilterPolicy) (o : Options) : Options :=
  {| o_cmp := o_cmp o; create_if_missing := create_if_missing o; error_if_exists := error_if_exists o;
     paranoid_checks := paranoid_checks o; write_buffer_size := write_buffer_size o; max_open_files := max_open_files o;
     max_file_size := max_file_size o; o_block_size := o_block_size o; block_restart_interval := block_restart_interval o;
     reuse_logs := reuse_logs o; reuse_manifest := reuse_manifest o; o_compressor := o_compressor o;
     compressor_list := compressor_list o; filter_policy := p |}.

Section builder.
Context {IE : IntegerEncoding} {CR : Crc32} `{FW : FixedIntWriter W}.
Implicit Types (tb : TableBuilder W).

Definition TableBuilder_new_raw (opt : Options) (dst : W) : TableBuilder W :=
  {| tb_opt := opt; tb_dst := dst; tb_offset := 0; prev_block_last_key := []; num_entries := 0;
     data_block := Some (BlockBuilder_new opt);
     filter_block := Some (FilterBlockBuilder_new (filter_policy opt));
     index_block := Some (BlockBuilder_new opt) |}.
Definition TableBuilder_new (opt : Options) (dst : W) : TableBuilder W :=
  TableBuilder_new_raw (with_internal_keys opt) dst.
Definition TableBuilder_new_no_filter (opt : Options) (dst : W) : TableBuilder W :=
  TableBuilder_new (with_policy NoFilterPolicy opt) dst.

Definition tb_entries tb : Z := num_entries tb.
Definition tb_size_estimate tb : Z :=
  let size := 0 in
  let size := match data_block tb with Some b => size + bb_size_estimate b | None => size end in
  let size := match index_block tb with Some b => size + bb_size_estimate b | None => size end in
  let size := match filter_block tb with Some b => size + fb_size_estimate b | None => size end in
  size + tb_offset tb + FULL_FOOTER_LENGTH.

(** Field updates. *)
Definition tb_set_out tb (d : W) (off : Z) : TableBuilder W :=
  {| tb_opt := tb_opt tb; tb_dst := d; tb_offset := off; num_entries := num_entries tb;
     prev_block_last_key := prev_block_last_key tb; data_block := data_block tb;
     index_block := index_block tb; filter_block := filter_block tb |}.
Definition tb_set_data tb (n : Z) (prev : bytes) (b : option BlockBuilder) : TableBuilder W :=
  {| tb_opt := tb_opt tb; tb_dst := tb_dst tb; tb_offset := tb_offset tb; num_entries := n;
     prev_block_last_key := prev; data_block := b; index_block := index_block tb; filter_block := filter_block tb |}.
Definition tb_set_index tb (b : option BlockBuilder) : TableBuilder W :=
  {| tb_opt := tb_opt tb; tb_dst := tb_dst tb; tb_offset := tb_offset tb; num_entries := num_entries tb;
     prev_block_last_key := prev_block_last_key tb; data_block := data_block tb; index_block := b;
     filter_block := filter_block tb |}.
Definition tb_set_filter tb (b : option FilterBlockBuilder) : TableBuilder W :=
  {| tb_opt := tb_opt tb; tb_dst := tb_dst tb; tb_offset := tb_offset tb; num_entries := num_entries tb;
     prev_block_last_key := prev_block_last_key tb; data_block := data_block tb; index_block := index_block tb;
     filter_block := b |}.

(** [self.dst.write(..)?] and [self.dst.write_fixedint(..)?] *)
Definition tb_io {A} (m : W → exec (W * io_result A)) tb : exec (TableBuilder W * Result A) :=
  '(d, r) ← m (tb_dst tb);
  Ret (tb_set_out tb d (tb_offset tb), match r with Ok n => Ok n | Err e => Err (Status_from_io e) end).

Definition write_block (block : bytes) (ctype : Z) (compressor : Compressor) tb : exec (TableBuilder W * Result BlockHandle) :=
  match compress compressor block with
  | Err e => Ret (tb, Err e)
  | Ok data =>
      let sum := crc32 (data ++ replicate (Z.to_nat TABLE_BLOCK_COMPRESS_LEN) ctype) in
      let? tb, _ := tb_io (w_write data) tb in
      let? tb, _ := tb_io (w_write (replicate (Z.to_nat TABLE_BLOCK_COMPRESS_LEN) ctype)) tb in
      let? tb, _ := tb_io (write_fixedint 4 (mask_crc sum)) tb in
      let handle := {| bh_offset := tb_offset tb; bh_size := zlen data |} in
      Ret (tb_set_out tb (tb_dst tb) (tb_offset tb + (zlen data + TABLE_BLOCK_COMPRESS_LEN + TABLE_BLOCK_CKSUM_LEN)),
           Ok handle)
  end.

(** [let mut handle_enc = [0; 16]; let enc_len = handle.encode_to(&mut handle_enc);
    &handle_enc[0..enc_len]] *)
Definition handle_bytes (h : BlockHandle) : exec bytes :=
  '(enc, len) ← encode_to h (replicate 16 0); slice enc 0 len.

Definition write_data_block (next_key : bytes) tb : exec (TableBuilder W * Result unit) :=
  block ← unwrap (data_block tb);
  let tb := tb_set_data tb (num_entries tb) (prev_block_last_key tb) None in
  sep ← find_shortest_sep (o_cmp (tb_opt tb)) (bb_last_key block) next_key;
  let tb := tb_set_data tb (num_entries tb) (bb_last_key block) None in
  let contents := bb_finish block in
  c ← compressor_get (o_compressor (tb_opt tb)) (compressor_list (tb_opt tb));
  match c with
  | Err e => Ret (tb, Err e)
  | Ok compressor =>
      let? tb, handle := write_block contents (o_compressor (tb_opt tb)) compressor tb in
      enc ← handle_bytes handle;
      ib ← unwrap (index_block tb);
      ib ← bb_add sep enc ib;
      let tb := tb_set_data (tb_set_index tb (Some ib)) (num_entries tb) (prev_block_last_key tb)
                  (Some (BlockBuilder_new (tb_opt tb))) in
      match filter_block tb with
      | Some fblock => fblock ← start_block (tb_offset tb) fblock; Ret (tb_set_filter tb (Some fblock), Ok ())
      | None => Ret (tb, Ok ())
      end
  end.

Definition tb_add (key val : bytes) tb : exec (TableBuilder W * Result unit) :=
  db ← unwrap (data_block tb);
  _ ← (if decide (prev_block_last_key tb = []) then Ret ()
       else o ← cmp (o_cmp (tb_opt tb)) (prev_block_last_key tb) key; massert (is_lt o));
  let? tb, _ :=
    (if o_block_size (tb_opt tb) <? bb_size_estimate db then write_data_block key tb else Ret (tb, Ok ())) in
  dblock ← unwrap (data_block tb);
  let tb := tb_set_filter tb (match filter_block tb with Some f => Some (fb_add_key f key) | None => None end) in
  dblock ← bb_add key val dblock;
  Ret (tb_set_data tb (num_entries tb + 1) (prev_block_last_key tb) (Some dblock), Ok ()).

(** [format!("filter.{}", name).as_bytes()] *)
Definition filter_key (name : string) : bytes := string_bytes ("filter." +:+ name).

(** The filter block and its entry in the metaindex block. *)
Definition write_filter_block (meta_ix_block : BlockBuilder) tb : exec (TableBuilder W * Result BlockBuilder) :=
  match filter_block tb with
  | None => Ret (tb, Ok meta_ix_block)
  | Some fblock =>
      let tb := tb_set_filter tb None in
      let key := filter_key (filter_name fblock) in
      fblock_data ← fb_finish fblock;
      let? tb, fblock_handle := write_block fblock_data NoneCompressor_ID NoneCompressor tb in
      enc ← handle_bytes fblock_handle;
      meta_ix_block ← bb_add key enc meta_ix_block;
      Ret (tb, Ok meta_ix_block)
  end.

Definition tb_finish tb : exec (TableBuilder W * Result Z) :=
  db ← unwrap (data_block tb);
  c ← compressor_get (o_compressor (tb_opt tb)) (compressor_list (tb_opt tb));
  match c with
  | Err e => Ret (tb, Err e)
  | Ok compressor =>
      let ctype := o_compressor (tb_opt tb) in
      let? tb, _ :=
        (if 0 <? bb_entries db then
           key_past_last ← find_short_succ (o_cmp (tb_opt tb)) (bb_last_key db);
           write_data_block key_past_last tb
         else Ret (tb, Ok ())) in
      let? tb, meta_ix_block := write_filter_block (BlockBuilder_new (tb_opt tb)) tb in
      let? tb, meta_ix_handle := write_block (bb_finish meta_ix_block) ctype compressor tb in
      ib ← unwrap (index_block tb);
      let tb := tb_set_index tb None in
      let? tb, ix_handle := write_block (bb_finish ib) ctype compressor tb in
      buf ← Footer_encode {| meta_index := meta_ix_handle; footer_index := ix_handle |}
              (replicate (Z.to_nat FULL_FOOTER_LENGTH) 0);
      let? tb, n := tb_io (w_write buf) tb in
      let tb := tb_set_out tb (tb_dst tb) (tb_offset tb + n) in
      let? tb, _ := tb_io w_flush tb in
      Ret (tb, Ok (tb_offset tb))
  end.

End builder.

(** ** Handles and footers decode to what was encoded *)

Section roundtrip.
Context `{IEL : IntegerEncodingLaws}.

Definition handle_ok (h : BlockHandle) : Prop := is_u 64 (bh_offset h) ∧ is_u 64 (bh_size h).
Definition handle_enc (h : BlockHandle) : bytes := encode_var (bh_offset h) ++ encode_var (bh_size h).

Lemma length_handle_enc h : handle_ok h → 2 ≤ zlen (handle_enc h) ≤ 20.
Proof.
  intros [Ho Hs]. unfold handle_enc. rewrite length_app, Nat2Z.inj_add, !length_encode_var by done.
  pose proof (required_space_bound _ Ho). pose proof (required_space_bound _ Hs). lia.
Qed.

Lemma handle_decode h rest : handle_ok h → BlockHandle_decode (handle_enc h ++ rest) = Ret (Some (h, zlen (handle_enc h))).
Proof.
  intros [Ho Hs]. unfold BlockHandle_decode, handle_enc. rewrite <- app_assoc, decode_var_usize by done.
  rewrite slice_from_app, bind_Ret by done. rewrite decode_var_usize by done. rewrite length_app, Nat2Z.inj_add. by destruct h.
Qed.

Lemma encode_to_ok h a b :
  handle_ok h → length a = length (handle_enc h) → encode_to h (a ++ b) = Ret (handle_enc h ++ b, zlen (handle_enc h)).
Proof.
  intros [Ho Hs] Ha. unfold encode_to, handle_enc in *. rewrite length_app in Ha.
  rewrite <- (take_drop (length (encode_var (bh_offset h))) a), <- app_assoc.
  set (a1 := take _ a). set (a2 := drop _ a).
  assert (length a1 = length (encode_var (bh_offset h))) as L1 by (unfold a1; rewrite length_take; lia).
  assert (length a2 = length (encode_var (bh_size h))) as L2 by (unfold a2; rewrite length_drop; lia).
  rewrite <- !length_encode_var by done. rewrite (proj2 (Z.leb_le _ _)) by (rewrite !length_app; lia). cbn [massert mbind exec_bind].
  rewrite splice_front, bind_Ret by done. rewrite (splice_app _ a2), bind_Ret by done.
  by rewrite length_app, Nat2Z.inj_add, app_assoc.
Qed.

Lemma handle_bytes_ok h : handle_ok h → zlen (handle_enc h) ≤ 16 → handle_bytes h = Ret (handle_enc h).
Proof.
  intros Hh Hl. unfold handle_bytes.
  replace (replicate 16 0) with (replicate (length (handle_enc h)) 0 ++ replicate (16 - length (handle_enc h)) 0)
    by (rewrite <- replicate_add; f_equal; lia).
  rewrite encode_to_ok, bind_Ret by (done || by rewrite length_replicate). by apply slice_to_app.
Qed.

(** Offsets and sizes of eight varint groups leave room in the 16 bytes. *)
Lemma length_handle_small h :
  0 ≤ bh_offset h < 2 ^ 56 → 0 ≤ bh_size h < 2 ^ 56 → handle_ok h ∧ zlen (handle_enc h) ≤ 16.
Proof.
  intros Ho Hs. assert (handle_ok h) as Hh by (split; unfold is_u; lia). split; [done|]. destruct Hh as [H1 H2].
  unfold handle_enc. rewrite length_app, Nat2Z.inj_add, !length_encode_var by done.
  pose proof (required_space_groups 8 (bh_offset h) ltac:(lia) Ho). pose proof (required_space_groups 8 (bh_size h) ltac:(lia) Hs). lia.
Qed.

Lemma write_from_app src : ∀ p m s i,
  i = zlen p → length src = length m → write_from i src (p ++ m ++ s) = Ret (p ++ src ++ s).
Proof.
  induction src as [|x src IH]; intros p m s i -> Hl; destruct m as [|y m]; simpl in Hl; try lia; [done|]. cbn [write_from].
  unfold set_index. rewrite (proj2 (Z.ltb_lt _ _)) by (rewrite !length_app; simpl; lia). ztest. rewrite bind_Ret, Nat2Z.id.
  rewrite insert_app_r_alt, Nat.sub_diag by lia. cbn [app insert list_insert].
  specialize (IH (p ++ [x]) m s (zlen p + 1)). rewrite length_app, <- !app_assoc in IH. apply IH; simpl; lia.
Qed.

Definition footer_ok (f : Footer) : Prop := handle_ok (meta_index f) ∧ handle_ok (footer_index f).
Definition footer_bytes (f : Footer) : bytes :=
  let hs := handle_enc (meta_index f) ++ handle_enc (footer_index f) in
  hs ++ replicate (40 - length hs) 0 ++ MAGIC_FOOTER_ENCODED.

Lemma length_footer f : footer_ok f → zlen (footer_bytes f) = FULL_FOOTER_LENGTH.
Proof.
  intros [Hm Hi]. pose proof (length_handle_enc _ Hm). pose proof (length_handle_enc _ Hi). unfold footer_bytes.
  rewrite !length_app, length_replicate. unfold FULL_FOOTER_LENGTH, FOOTER_LENGTH. simpl. lia.
Qed.

Lemma footer_encode f : footer_ok f → Footer_encode f (replicate (Z.to_nat FULL_FOOTER_LENGTH) 0) = Ret (footer_bytes f).
Proof.
  intros [Hm Hi]. pose proof (length_handle_enc _ Hm) as Lm. pose proof (length_handle_enc _ Hi) as Li. unfold Footer_encode, footer_bytes.
  set (m := handle_enc (meta_index f)) in *. set (i := handle_enc (footer_index f)) in *.
  replace (replicate (Z.to_nat FULL_FOOTER_LENGTH) 0)
    with (replicate (length m) 0 ++ replicate (length i) 0 ++ replicate (40 - length (m ++ i)) 0 ++ replicate 8 0)
    by (rewrite <- !replicate_add; f_equal; rewrite length_app; unfold FULL_FOOTER_LENGTH, FOOTER_LENGTH; lia).
  rewrite (proj2 (Z.leb_le _ _)) by (rewrite !length_app, !length_replicate; unfold FOOTER_LENGTH; lia). cbn [massert mbind exec_bind].
  rewrite encode_to_ok, bind_Ret by (done || by rewrite length_replicate). fold m.
  rewrite slice_from_app, bind_Ret by done. rewrite encode_to_ok, bind_Ret by (done || by rewrite length_replicate). fold i.
  set (z := replicate (40 - length (m ++ i)) 0).
  rewrite <- (app_nil_r (replicate (length i) 0 ++ z ++ replicate 8 0)), splice_app, bind_Ret
    by (done || (rewrite !length_app, !length_replicate; lia)).
  rewrite app_nil_r, (app_assoc m i). replace (Z.to_nat (FOOTER_LENGTH - (zlen m + zlen i))) with (length z)
    by (unfold z; rewrite length_replicate, length_app; unfold FOOTER_LENGTH; lia).
  rewrite (write_from_app _ (m ++ i) z), bind_Ret by (rewrite ?length_replicate, ?length_app; lia).
  replace (replicate (length z) 0) with z by (unfold z; by rewrite length_replicate).
  rewrite <- (app_nil_r (replicate 8 0)), (app_assoc (m ++ i)).
  rewrite (write_from_app _ ((m ++ i) ++ z) (replicate 8 0)), app_nil_r, <- !app_assoc; [done| |done].
  unfold z. rewrite !length_app, length_replicate. unfold FOOTER_LENGTH. lia.
Qed.

Lemma footer_decode f : footer_ok f → Footer_decode (footer_bytes f) = Ret (Some f).
Proof.
  intros [Hm Hi]. pose proof (length_footer f (conj Hm Hi)) as HL. pose proof (length_handle_enc _ Hm). pose proof (length_handle_enc _ Hi).
  unfold Footer_decode. rewrite HL. cbn [massert mbind exec_bind Z.leb Z.compare FULL_FOOTER_LENGTH FOOTER_LENGTH Pos.compare Pos.compare_cont].
  unfold footer_bytes. rewrite (app_assoc _ (replicate _ _)), slice_from_app, bind_Ret.
  2: { rewrite length_app, length_replicate, length_app. unfold FOOTER_LENGTH. lia. }
  rewrite bool_decide_true by done. cbn [massert]. rewrite bind_Ret, <- !app_assoc, handle_decode, bind_Ret by done.
  rewrite slice_from_app, bind_Ret by done. rewrite handle_decode, bind_Ret by done. by destruct f.
Qed.

End roundtrip.
