(* ===== verification/Table.v ===== *)
(** * Table: [src/table_block.rs] and [src/table_reader.rs]

    Reading table files.  A table shares the block cache of its options with every other
    table, so the cache is an explicit state that the operations pass along. *)

From S2P Require Import Prelude Encoding Error Io Env Types Cmp KeyTypes Log Iterator Filter FilterBlock Options BlockBuilder Block Cache TableBuilder.

(** ** [table_block.rs] *)

Section table_block.
Context {IE : IntegerEncoding} {CR : Crc32} `{RA : RandomAccess F}.

(** Of a short read the rest of the buffer stays zero. *)
Definition read_bytes (f : F) (location : BlockHandle) : exec (Result bytes) :=
  bs ←? read_at f (bh_offset location) (bh_size location);
  Ret (Ok (bs ++ replicate (Z.to_nat (bh_size location) - length bs) 0)).

Definition read_filter_block (src : F) (location : BlockHandle) (policy : FilterPolicy) : exec (Result FilterBlockReader) :=
  if bh_size location =? 0 then Ret (err InvalidArgument "no filter block in empty location")
  else
    buf ←? read_bytes src location;
    r ← FilterBlockReader_new policy buf;
    Ret (Ok r).

Definition verify_table_block (data : bytes) (compression want : Z) : bool :=
  crc32 (data ++ [compression]) =? want.

Definition read_table_block (opt : Options) (f : F) (location : BlockHandle) : exec (Result Block) :=
  buf ←? read_bytes f location;
  compress ←? read_bytes f {| bh_offset := bh_offset location + bh_size location; bh_size := TABLE_BLOCK_COMPRESS_LEN |};
  cksum ←? read_bytes f {| bh_offset := bh_offset location + bh_size location + TABLE_BLOCK_COMPRESS_LEN;
                           bh_size := TABLE_BLOCK_CKSUM_LEN |};
  c0 ← index compress 0;
  if negb (verify_table_block buf c0 (unmask_crc (decode_fixed cksum))) then
    Ret (err Corruption ("checksum verification failed for block at " +:+ dec_digits 19 (bh_offset location) ""))
  else
    comp ←? compressor_get c0 (compressor_list opt);
    match decompress comp buf with
    | Err e => Ret (Err e)
    | Ok data => b ← Block_new opt data; Ret (Ok b)
    end.

End table_block.

(** ** [Table] *)

Record Table (F : Type) := mkTable {
  t_file : F;
  t_file_size : Z;
  t_cache_id : Z;
  t_opt : Options;
  t_footer : Footer;
  t_indexblock : Block;
  t_filters : option FilterBlockReader;
}.
Arguments mkTable {F}.
Arguments t_file {F}.
Arguments t_file_size {F}.
Arguments t_cache_id {F}.
Arguments t_opt {F}.
Arguments t_footer {F}.
Arguments t_indexblock {F}.
Arguments t_filters {F}.

Record TableIterator (F : Type) := mkTableIterator {
  ti_table : Table F;
  current_block : option BlockIter;
  current_block_off : Z;
  ti_index : BlockIter;
}.
Arguments mkTableIterator {F}.
Arguments ti_table {F}.
Arguments current_block {F}.
Arguments current_block_off {F}.
Arguments ti_index {F}.

Section table.
Context {IE : IntegerEncoding} {CR : Crc32} `{RA : RandomAccess F}.
(** [format!("{:?}", buf)] of a byte vector *)
Context (debug_bytes : bytes → string).
Abbreviation BlockCache := (Cache Block) (only parsing).

Definition read_footer (f : F) (size : Z) : exec (Result Footer) :=
  o ← usub size FULL_FOOTER_LENGTH;
  buf ←? read_bytes f {| bh_offset := o; bh_size := FULL_FOOTER_LENGTH |};
  r ← Footer_decode buf;
  match r with
  | Some ok => Ret (Ok ok)
  | None => Ret (err Corruption ("Couldn't decode damaged footer " +:+ debug_bytes buf))
  end.

Definition table_read_filter_block (metaix : Block) (file : F) (options : Options) : exec (Result (option FilterBlockReader)) :=
  it ← block_iter metaix;
  it ← bi_seek (filter_key (policy_name (filter_policy options))) it;
  kv ← bi_current it;
  match kv with
  | None => Ret (Ok None)
  | Some (_, val) =>
      fbl ← BlockHandle_decode val;
      match fbl with
      | None => Ret (err Corruption ("Couldn't decode corrupt blockhandle " +:+ debug_bytes val))
      | Some (loc, _) =>
          if 0 <? bh_size loc then
            r ←? read_filter_block file loc (filter_policy options);
            Ret (Ok (Some r))
          else Ret (Ok None)
      end
  end.

Definition Table_new_raw (opt : Options) (file : F) (size : Z) (cache : BlockCache) : exec (BlockCache * Result (Table F)) :=
  r ← (footer ←? read_footer file size;
       indexblock ←? read_table_block opt file (footer_index footer);
       metaindexblock ←? read_table_block opt file (meta_index footer);
       filters ←? table_read_filter_block metaindexblock file opt;
       Ret (Ok (footer, indexblock, filters)));
  match r with
  | Err e => Ret (cache, Err e)
  | Ok (footer, indexblock, filters) =>
      '(cache, cache_id) ← new_cache_id cache;
      Ret (cache, Ok {| t_file := file; t_file_size := size; t_cache_id := cache_id; t_opt := opt; t_footer := footer;
                        t_filters := filters; t_indexblock := indexblock |})
  end.

Definition Table_new (opt : Options) (file : F) (size : Z) (cache : BlockCache) : exec (BlockCache * Result (Table F)) :=
  Table_new_raw (with_internal_keys opt) file size cache.

Definition block_cache_handle (t : Table F) (block_off : Z) : CacheKey :=
  encode_fixed 8 (t_cache_id t) ++ encode_fixed 8 (wrap 64 block_off).

Definition read_block (t : Table F) (location : BlockHandle) (cache : BlockCache) : exec (BlockCache * Result Block) :=
  let cachekey := block_cache_handle t (bh_offset location) in
  '(cache, hit) ← cache_get cachekey cache;
  match hit with
  | Some block => Ret (cache, Ok block)
  | None =>
      r ← read_table_block (t_opt t) (t_file t) location;
      match r with
      | Err e => Ret (cache, Err e)
      | Ok b => cache ← cache_insert cachekey b cache; Ret (cache, Ok b)
      end
  end.

Definition approx_offset_of (t : Table F) (key : bytes) : exec Z :=
  it ← block_iter (t_indexblock t);
  it ← bi_seek key it;
  kv ← bi_current it;
  match kv with
  | Some (_, val) => h ← BlockHandle_decode val; h ← unwrap h; Ret (bh_offset h.1)
  | None => Ret (bh_offset (meta_index (t_footer t)))
  end.

Definition table_iter (t : Table F) : exec (TableIterator F) :=
  it ← block_iter (t_indexblock t);
  Ret {| current_block := None; current_block_off := 0; ti_index := it; ti_table := t |}.

(** The part of [get] behind the index and the filter. *)
Definition get_in_block (t : Table F) (handle : BlockHandle) (key : bytes) (cache : BlockCache)
  : exec (BlockCache * Result (option (bytes * bytes))) :=
  let? cache, tb := read_block t handle cache in
  it ← block_iter tb;
  it ← bi_seek key it;
  kv ← bi_current it;
  match kv with
  | Some (k, v) => o ← cmp (o_cmp (t_opt t)) k key; Ret (cache, Ok (if is_ge o then Some (k, v) else None))
  | None => Ret (cache, Ok None)
  end.

Definition table_get (t : Table F) (key : bytes) (cache : BlockCache) : exec (BlockCache * Result (option (bytes * bytes))) :=
  it ← block_iter (t_indexblock t);
  it ← bi_seek key it;
  kv ← bi_current it;
  match kv with
  | None => Ret (cache, Ok None)
  | Some (last_in_block, h) =>
      o ← cmp (o_cmp (t_opt t)) key last_in_block;
      if is_lt o then
        h ← BlockHandle_decode h;
        h ← unwrap h;
        let handle := h.1 in
        may ← match t_filters t with Some filters => fr_key_may_match filters (bh_offset handle) key | None => Ret true end;
        if negb may then Ret (cache, Ok None) else get_in_block t handle key cache
      else Ret (cache, Ok None)
  end.

(** ** [TableIterator] *)

Definition ti_set (it : TableIterator F) (cb : option BlockIter) (off : Z) (ix : BlockIter) : TableIterator F :=
  {| ti_table := ti_table it; current_block := cb; current_block_off := off; ti_index := ix |}.

Definition load_block (handle : bytes) (it : TableIterator F) (cache : BlockCache)
  : exec ((BlockCache * TableIterator F) * Result unit) :=
  h ← BlockHandle_decode handle;
  match h with
  | None => Ret ((cache, it), err Corruption "Couldn't decode corrupt block handle")
  | Some (h, _) =>
      '(cache, r) ← read_block (ti_table it) h cache;
      match r with
      | Err e => Ret ((cache, it), Err e)
      | Ok block => bi ← block_iter block; Ret ((cache, ti_set it (Some bi) (bh_offset h) (ti_index it)), Ok ())
      end
  end.

Definition skip_to_next_entry (it : TableIterator F) (cache : BlockCache)
  : exec ((BlockCache * TableIterator F) * Result bool) :=
  '(ix, kv) ← bi_next (ti_index it);
  let it := ti_set it (current_block it) (current_block_off it) ix in
  match kv with
  | Some (_, val) => let? s, _ := load_block val it cache in Ret (s, Ok true)
  | None => Ret ((cache, it), Ok false)
  end.

Definition ti_reset (it : TableIterator F) : TableIterator F :=
  ti_set it None (current_block_off it) (bi_reset (ti_index it)).

(** Every call of itself follows a step of the index iterator. *)
Fixpoint ti_advance_loop (fuel : nat) (it : TableIterator F) (cache : BlockCache)
  : exec ((BlockCache * TableIterator F) * bool) :=
  match fuel with
  | O => NoFuel
  | S fuel =>
      let next_block (it : TableIterator F) : exec ((BlockCache * TableIterator F) * bool) :=
        '((cache, it), r) ← skip_to_next_entry it cache;
        match r with
        | Ok false => Ret ((cache, ti_reset it), false)
        | _ => ti_advance_loop fuel it cache
        end in
      match current_block it with
      | None => next_block it
      | Some cb =>
          '(cb, more) ← bi_advance cb;
          if (more : bool) then Ret ((cache, ti_set it (Some cb) (current_block_off it) (ti_index it)), true)
          else next_block (ti_set it None (current_block_off it) (ti_index it))
      end
  end.
Definition ti_advance (it : TableIterator F) (cache : BlockCache) : exec ((BlockCache * TableIterator F) * bool) :=
  ti_advance_loop (2 * bi_fuel (ti_index it) + 2) it cache.

Definition ti_seek (to : bytes) (it : TableIterator F) (cache : BlockCache) : exec (BlockCache * TableIterator F) :=
  ix ← bi_seek to (ti_index it);
  let it := ti_set it (current_block it) (current_block_off it) ix in
  kv ← bi_current ix;
  match kv with
  | None => Ret (cache, ti_reset it)
  | Some (past_block, handle) =>
      o ← cmp (o_cmp (t_opt (ti_table it))) to past_block;
      if is_le o then
        '((cache, it), r) ← load_block handle it cache;
        match r with
        | Ok _ =>
            cb ← unwrap (current_block it);
            cb ← bi_seek to cb;
            Ret (cache, ti_set it (Some cb) (current_block_off it) (ti_index it))
        | Err _ => Ret (cache, ti_reset it)
        end
      else Ret (cache, ti_reset it)
  end.

(** The block before the current one. *)
Definition prev_block (it : TableIterator F) (cache : BlockCache) : exec ((BlockCache * TableIterator F) * bool) :=
  '(ix, ok) ← bi_prev (ti_index it);
  let it := ti_set it (current_block it) (current_block_off it) ix in
  if negb ok then Ret ((cache, it), false)
  else
    kv ← bi_current ix;
    match kv with
    | None => Ret ((cache, it), false)
    | Some (_, handle) =>
        '((cache, it), r) ← load_block handle it cache;
        match r with
        | Ok _ =>
            cb ← unwrap (current_block it);
            '(cb, _) ← seek_to_last cb;
            Ret ((cache, ti_set it (Some cb) (current_block_off it) (ti_index it)), bi_valid cb)
        | Err _ => Ret ((cache, ti_reset it), false)
        end
    end.

Definition ti_prev (it : TableIterator F) (cache : BlockCache) : exec ((BlockCache * TableIterator F) * bool) :=
  match current_block it with
  | Some cb =>
      '(cb, ok) ← bi_prev cb;
      let it := ti_set it (Some cb) (current_block_off it) (ti_index it) in
      if (ok : bool) then Ret ((cache, it), true) else prev_block it cache
  | None => prev_block it cache
  end.

Definition ti_valid (it : TableIterator F) : bool :=
  match current_block it with Some cb => bi_valid cb | None => false end.
Definition ti_current (it : TableIterator F) : exec (option (bytes * bytes)) :=
  match current_block it with Some cb => bi_current cb | None => Ret None end.

(** An iterator with the cache it shares. *)
#[export] Instance TableIterator_iterator : LdbIterator (BlockCache * TableIterator F) := {
  it_advance s := ti_advance s.2 s.1;
  it_current s := ti_current s.2;
  it_seek to s := ti_seek to s.2 s.1;
  it_reset s := Ret (s.1, ti_reset s.2);
  it_valid s := Ret (ti_valid s.2);
  it_prev s := ti_prev s.2 s.1;
}.

End table.
