(* ===== verification/TableFile.v ===== *)
(** * TableFile: the layout of table files

    What a table file is: data blocks, each with its compression type and checksum, a filter
    block, the metaindex and index blocks, and the footer.  The builder of
    [src/table_builder.rs] writes such a file, and the reader of [src/table_reader.rs] finds
    every entry in it. *)

From S2P Require Import Prelude Encoding Error Io Env Types Cmp KeyTypes Log Iterator Filter FilterBlock Options BlockBuilder Block Cache TableBuilder Table.

(** ** Stored blocks *)

Section frame.
Context `{IEL : IntegerEncodingLaws} `{CRL : Crc32Laws}.

(** A compressor that loses nothing and expands blocks only moderately; the documentation of
    the crate snap gives [32 + n + n / 6] for the size of a compressed block. *)
Definition good_compressor (c : Compressor) : Prop :=
  ∀ b, zlen b < 2 ^ 32 → ∃ d, compress c b = Ok d ∧ decompress c d = Ok b ∧ zlen d ≤ 32 + 2 * zlen b.

Lemma none_good : good_compressor NoneCompressor.
Proof. intros b _. exists b. split_and!; [done..|lia]. Qed.

(** The data of a block with its trailer. *)
Definition frame (data : bytes) (ctype : Z) : bytes :=
  data ++ [ctype] ++ encode_fixed 4 (mask_crc (crc32 (data ++ [ctype]))).

Lemma length_frame data ctype : zlen (frame data ctype) = zlen data + 5.
Proof. unfold frame. rewrite !length_app, !Nat2Z.inj_add, length_encode_fixed by lia. simpl. lia. Qed.

(** The file holds [block] at [h], compressed by the compressor [ctype] of [o]. *)
Definition stored (o : Options) (file : bytes) (h : BlockHandle) (block : bytes) : Prop :=
  ∃ pre post data ctype comp,
    file = pre ++ frame data ctype ++ post ∧ bh_offset h = zlen pre ∧ bh_size h = zlen data
    ∧ index (compressor_list o) ctype = Ret (Some comp) ∧ decompress comp data = Ok block.

Lemma stored_app o file post h b : stored o file h b → stored o (file ++ post) h b.
Proof.
  intros (pre & post' & data & ct & comp & -> & H). exists pre, (post' ++ post), data, ct, comp. by rewrite <- !app_assoc.
Qed.

Lemma read_bytes_at `{RA : RandomAccess F} (f : F) pre data post h :
  file_holds f (pre ++ data ++ post) → bh_offset h = zlen pre → bh_size h = zlen data → read_bytes f h = Ret (Ok data).
Proof.
  intros Hc Ho Hs. unfold read_bytes. rewrite Ho, Hs, Hc, rbind_Ok by (rewrite ?length_app; lia).
  rewrite !Nat2Z.id, drop_app_length, take_app_length, Nat.sub_diag. by rewrite app_nil_r.
Qed.

Lemma read_parts `{RA : RandomAccess F} (f : F) pre data ct sum post h :
  file_holds f (pre ++ data ++ [ct] ++ encode_fixed 4 sum ++ post) → bh_offset h = zlen pre → bh_size h = zlen data →
  read_bytes f h = Ret (Ok data)
  ∧ read_bytes f {| bh_offset := bh_offset h + bh_size h; bh_size := TABLE_BLOCK_COMPRESS_LEN |} = Ret (Ok [ct])
  ∧ read_bytes f {| bh_offset := bh_offset h + bh_size h + TABLE_BLOCK_COMPRESS_LEN; bh_size := TABLE_BLOCK_CKSUM_LEN |}
    = Ret (Ok (encode_fixed 4 sum)).
Proof.
  intros Hc Ho Hs. unfold TABLE_BLOCK_COMPRESS_LEN, TABLE_BLOCK_CKSUM_LEN. split_and!.
  - by apply (read_bytes_at f pre data _ h Hc).
  - apply (read_bytes_at f (pre ++ data) [ct] (encode_fixed 4 sum ++ post)); [by rewrite <- app_assoc| |done].
    cbn. rewrite length_app. lia.
  - apply (read_bytes_at f (pre ++ data ++ [ct]) _ post); [by rewrite <- !app_assoc| |].
    + cbn. rewrite !length_app. simpl. lia.
    + cbn. by rewrite length_encode_fixed.
Qed.

(** Reading a stored block verifies its checksum and decompresses it. *)
Lemma read_stored `{RA : RandomAccess F} o (f : F) file h b :
  file_holds f file → stored o file h b → 4 < zlen b → read_table_block o f h = Ret (Ok {| blk_contents := b; blk_opt := o |}).
Proof.
  intros Hc (pre & post & data & ct & comp & -> & Ho & Hs & Hcomp & Hd) Hb. unfold read_table_block, frame in *.
  rewrite <- !app_assoc in Hc. destruct (read_parts f pre data ct _ post h Hc Ho Hs) as (-> & -> & ->). rewrite !rbind_Ok.
  change (index [ct] 0) with (Ret ct). rewrite bind_Ret.
  rewrite decode_encode_fixed, unmask_mask; [|apply crc32_range|lia|apply mask_crc_u32].
  unfold verify_table_block. rewrite Z.eqb_refl. cbn [negb]. unfold compressor_get. rewrite Hcomp, bind_Ret, rbind_Ok, Hd.
  unfold Block_new. by ztest.
Qed.

(** A block whose checksum does not match its data is reported as corrupt. *)
Lemma read_corrupt `{RA : RandomAccess F} o (f : F) h pre data ct sum post :
  file_holds f (pre ++ data ++ [ct] ++ encode_fixed 4 sum ++ post) → bh_offset h = zlen pre → bh_size h = zlen data →
  is_u 32 sum → unmask_crc sum ≠ crc32 (data ++ [ct]) →
  ∃ msg, read_table_block o f h = Ret (err Corruption msg).
Proof.
  intros Hc Ho Hs Hsum Hne. unfold read_table_block. destruct (read_parts f pre data ct _ post h Hc Ho Hs) as (-> & -> & ->).
  rewrite !rbind_Ok. change (index [ct] 0) with (Ret ct). rewrite bind_Ret.
  rewrite decode_encode_fixed by done. unfold verify_table_block.
  rewrite (proj2 (Z.eqb_neq _ _)) by congruence. cbn [negb]. by eexists.
Qed.

End frame.

(** ** The blocks of a table *)

Record dblock := mkDblock { d_entries : list entry; d_sep : bytes; d_handle : BlockHandle }.

Definition all_entries (Bs : list dblock) : list entry := concat (d_entries <$> Bs).
Definition index_entries {IE : IntegerEncoding} (Bs : list dblock) : list entry :=
  (λ B, (d_sep B, handle_enc (d_handle B))) <$> Bs.
Definition filter_blocks (Bs : list dblock) : list (Z * list bytes) :=
  (λ B, (bh_offset (d_handle B), (d_entries B).*1)) <$> Bs.

Lemma all_entries_app A B : all_entries (A ++ B) = all_entries A ++ all_entries B.
Proof. unfold all_entries. by rewrite fmap_app, concat_app. Qed.
Lemma filter_blocks_keys Bs : concat ((filter_blocks Bs).*2) = (all_entries Bs).*1.
Proof.
  induction Bs as [|B Bs IH]; [done|].
  change (concat ((filter_blocks (B :: Bs)).*2)) with ((d_entries B).*1 ++ concat ((filter_blocks Bs).*2)).
  change (all_entries (B :: Bs)) with (d_entries B ++ all_entries Bs). by rewrite IH, fmap_app.
Qed.
Lemma all_entries_one B : all_entries [B] = d_entries B.
Proof. unfold all_entries. cbn. by rewrite app_nil_r. Qed.

Section blocks.
Context (c : Cmp) {OC : OrderedCmp c}.

(** The key that closes a block with last key [a] when the entries [rest] follow. *)
Definition next_sep (a : bytes) (rest : list entry) (s : bytes) : Prop :=
  match rest with
  | (k, _) :: _ => find_shortest_sep c a k = Ret s
  | [] => ∃ r, find_short_succ c a = Ret r ∧ find_shortest_sep c a r = Ret s
  end.
Record sep_ok (a : bytes) (rest : list entry) (s : bytes) : Prop := {
  so_next : next_sep a rest s;
  so_nonempty : s ≠ [];
  so_key : key_ok c s;
  so_len : zlen s ≤ zlen a + 10;
  so_above : ord c a s ≠ Gt;
  so_below : match rest with (k, _) :: _ => ord c s k = Lt | [] => True end;
}.

(** Between any two entries, and behind the last one, there is a separator. *)
Definition separable (L : list entry) : Prop := ∀ i a, L !! i = Some a → ∃ s, sep_ok a.1 (drop (S i) L) s.

(** The blocks, followed by the entries [rest]. *)
Fixpoint divided (Bs : list dblock) (rest : list entry) : Prop :=
  match Bs with
  | [] => True
  | B :: Bs => d_entries B ≠ [] ∧ sep_ok (last_key_of (d_entries B)) (all_entries Bs ++ rest) (d_sep B) ∧ divided Bs rest
  end.

Lemma divided_snoc Bs B rest :
  divided (Bs ++ [B]) rest ↔
  divided Bs (d_entries B ++ rest) ∧ d_entries B ≠ [] ∧ sep_ok (last_key_of (d_entries B)) rest (d_sep B).
Proof.
  induction Bs as [|A Bs IH]; cbn [divided app]; [tauto|]. rewrite IH, all_entries_app, all_entries_one, <- app_assoc. tauto.
Qed.

Lemma divided_at A B Bs rest :
  divided (A ++ B :: Bs) rest →
  d_entries B ≠ [] ∧ sep_ok (last_key_of (d_entries B)) (all_entries Bs ++ rest) (d_sep B) ∧ divided Bs rest.
Proof. induction A as [|A0 A IH]; [done|]. intros (_ & _ & H). by apply IH. Qed.

Lemma last_key_of_app (A B : list entry) : B ≠ [] → last_key_of (A ++ B) = last_key_of B.
Proof. intros HB. unfold last_key_of. rewrite last_app. by destruct (last B) eqn:E; [|apply last_None in E]. Qed.

Lemma last_key_of_elem (L : list entry) : L ≠ [] → ∃ v, (last_key_of L, v) ∈ L.
Proof.
  intros HL. unfold last_key_of. destruct (last L) as [[k v]|] eqn:E; [|by apply last_None in E].
  exists v. by apply last_Some_elem_of.
Qed.

(** No key of a sorted list is above its last one. *)
Lemma last_key_max (L : list entry) e : StronglySorted (key_lt (c := c)) L → e ∈ L → ord c e.1 (last_key_of L) ≠ Gt.
Proof.
  intros Hs He. unfold last_key_of. destruct (last L) as [x|] eqn:E; [|apply last_None in E as ->; by apply elem_of_nil in He].
  apply last_Some in E as [L' ->]. apply StronglySorted_app in Hs as (Hs & _). cbn.
  apply elem_of_app in He as [He| ->%list_elem_of_singleton]; [|by rewrite ord_refl].
  by rewrite (Hs e x He ltac:(left)).
Qed.

(** The separators increase. *)
Lemma divided_above B rest e : StronglySorted (key_lt (c := c)) (d_entries B) →
  sep_ok (last_key_of (d_entries B)) rest (d_sep B) → e ∈ d_entries B → ord c e.1 (d_sep B) ≠ Gt.
Proof.
  intros Hs Ho He. pose proof (last_key_max _ _ Hs He) as H1. pose proof (so_above _ _ _ Ho) as H2.
  destruct (ord c e.1 (last_key_of (d_entries B))) eqn:E; [by rewrite (ord_eq_l _ _ _ E)|by rewrite (ord_lt_le _ _ _ E H2)|done].
Qed.

Lemma sep_below (B : dblock) a rest e : StronglySorted (key_lt (c := c)) rest → sep_ok a rest (d_sep B) → e ∈ rest → ord c (d_sep B) e.1 = Lt.
Proof.
  intros Hs Ho He. pose proof (so_below _ _ _ Ho) as H. destruct rest as [|[k v] rest]; [by apply elem_of_nil in He|].
  apply elem_of_cons in He as [->|He]; [done|]. apply StronglySorted_inv in Hs as [_ Hs]. rewrite Forall_forall in Hs.
  eapply ord_trans; [exact H|]. exact (Hs e He).
Qed.

Lemma index_sorted {IE : IntegerEncoding} Bs rest :
  StronglySorted (key_lt (c := c)) (all_entries Bs ++ rest) → divided Bs rest → StronglySorted (key_lt (c := c)) (index_entries Bs).
Proof.
  induction Bs as [|B Bs IH]; intros Hs Hd; [constructor|]. cbn [divided] in Hd. destruct Hd as (Hne & Ho & Hd).
  change (all_entries (B :: Bs)) with (d_entries B ++ all_entries Bs) in Hs. rewrite <- app_assoc in Hs.
  pose proof Hs as Hs0. apply StronglySorted_app in Hs as (_ & _ & Hs). cbn [index_entries fmap list_fmap]. constructor; [by apply IH|].
  apply Forall_fmap, Forall_forall. intros B' HB'. unfold key_lt. cbn.
  apply list_elem_of_split in HB' as (B1 & B2 & ->).
  apply divided_at in Hd as (Hne' & Ho' & _). destruct (last_key_of_elem _ Hne') as [v Hv].
  eapply ord_lt_le; [|exact (so_above _ _ _ Ho')].
  apply (sep_below B _ _ (last_key_of (d_entries B'), v) Hs) in Ho; [exact Ho|].
  rewrite all_entries_app. change (all_entries (B' :: B2)) with (d_entries B' ++ all_entries B2). set_solver.
Qed.

End blocks.

(** Sorted internal keys over the default comparator are separable, except where a user key
    is the one before it followed by a zero byte. *)
Record internal_entries {IE : IntegerEncoding} (L : list entry) : Prop := {
  ie_keys : Forall (λ e : entry, ∃ k s t, e.1 = ikey k s t ∧ k ≠ [] ∧ is_bytes k ∧ is_u 56 s ∧ zlen k < 2 ^ 40) L;
  ie_zero : ∀ i a b, L !! i = Some a → L !! S i = Some b → ukey_of b.1 ≠ ukey_of a.1 ++ [0];
  ie_sorted : StronglySorted (key_lt (c := InternalKeyCmp DefaultCmp)) L;
}.

Lemma sep_ok_ikey `{IEL : IntegerEncodingLaws} a rest k s t :
  next_sep (InternalKeyCmp DefaultCmp) a rest (ikey k s t) → is_u 56 s → zlen k < 2 ^ 41 → zlen k + 8 ≤ zlen a + 10 →
  ord (InternalKeyCmp DefaultCmp) a (ikey k s t) ≠ Gt →
  match rest with (k', _) :: _ => ord (InternalKeyCmp DefaultCmp) (ikey k s t) k' = Lt | [] => True end →
  sep_ok (InternalKeyCmp DefaultCmp) a rest (ikey k s t).
Proof.
  intros Hn Hs Hl Hla Ha Hb. pose proof (length_ikey k s t) as Hlk. split; try done.
  - intros E. rewrite E in Hlk. simpl in Hlk. lia.
  - apply ikey_wf; [lia|done|exact I].
  - lia.
Qed.

Lemma internal_separable `{IEL : IntegerEncodingLaws} L : internal_entries L → separable (InternalKeyCmp DefaultCmp) L.
Proof.
  intros [Hk Hz Hs] i a Ha. rewrite Forall_lookup in Hk. destruct (Hk _ _ Ha) as (ka & sa & ta & Ea & Hne & Hba & Hsa & Hla). rewrite Ea.
  pose proof (length_ikey ka sa ta) as Hlka. destruct (L !! S i) as [[kb' vb]|] eqn:Hb.
  - rewrite (drop_S L (kb', vb) (S i) Hb). destruct (Hk _ _ Hb) as (kb & sb & tb & Eb & _ & Hbb & Hsb & _). cbn in Eb. subst kb'.
    pose proof (sorted_lookup_lt _ _ _ _ _ _ Hs Ha Hb ltac:(lia)) as Hlt. unfold key_lt in Hlt. rewrite Ea in Hlt. cbn [fst] in Hlt.
    specialize (Hz i a _ Ha Hb). rewrite Ea in Hz. cbn [fst] in Hz. rewrite !ukey_of_ikey in Hz.
    destruct (internal_sep_spec ka sa ta kb sb tb) as (k & s & t & E & Hs' & Hl & H1 & H2); [done|done|lia|done|by right|done|].
    exists (ikey k s t). apply sep_ok_ikey; try done; lia.
  - rewrite drop_ge by (by apply lookup_ge_None). destruct (internal_succ_spec ka sa ta Hsa ltac:(lia)) as [Er Hr].
    pose proof (short_succ_from_length ka 0 ka ltac:(lia)). pose proof (short_succ_from_zero ka 0 ka ltac:(lia)).
    destruct (internal_sep_spec ka sa ta (short_succ_from ka 0 ka) sa TypeValue) as (k & s & t & E & Hs' & Hl & H1 & H2);
      [done|done|lia|by apply short_succ_from_bytes|by right|done|].
    exists (ikey k s t). apply sep_ok_ikey; try done; try lia. by exists (ikey (short_succ_from ka 0 ka) sa TypeValue).
Qed.

(** ** The builder writes table files *)

(** The adds of a whole table, and its building. *)
Section build_defs.
Context {IE : IntegerEncoding} {CR : Crc32} `{FW : FixedIntWriter W}.

Fixpoint tb_adds (L : list entry) (tb : TableBuilder W) : exec (TableBuilder W * Result unit) :=
  match L with
  | [] => Ret (tb, Ok ())
  | (k, v) :: L => let? tb, _ := tb_add k v tb in tb_adds L tb
  end.
Definition build_table (o : Options) (dst : W) (L : list entry) : exec (TableBuilder W * Result Z) :=
  let? tb, _ := tb_adds L (TableBuilder_new_raw o dst) in tb_finish tb.

End build_defs.

Section builder.
Context `{IEL : IntegerEncodingLaws} `{CRL : Crc32Laws} `{WR : Write W} {FW : FixedIntWriter W} {RW : ReliableWrite W} {RF : ReliableFixedInt W}.
Context (o : Options) {OC : OrderedCmp (o_cmp o)} (comp : Compressor).
Context (fits : list bytes → Prop) (per_key base : Z) (L : list entry).

(** What is required of the options and of the entries. *)
Record buildable : Prop := {
  ba_interval : 1 ≤ block_restart_interval o;
  ba_size : 8 ≤ o_block_size o;
  ba_comp : index (compressor_list o) (o_compressor o) = Ret (Some comp);
  ba_good : good_compressor comp;
  ba_policy : no_false_negatives (filter_policy o) 8 fits;
  ba_fits : ∀ q p r, L.*1 = p ++ q ++ r → fits q;
  ba_sized : sized (filter_policy o) per_key base;
  ba_per_key : 0 ≤ per_key;
  ba_base : 0 ≤ base;
  ba_filter_key : key_ok (o_cmp o) (filter_key (policy_name (filter_policy o)));
  ba_filter_name : zlen (filter_key (policy_name (filter_policy o))) < 2 ^ 30;
  ba_entries : Forall (block_entry_ok (c := o_cmp o)) L;
  ba_sorted : StronglySorted (key_lt (c := o_cmp o)) L;
  ba_separable : separable (o_cmp o) L;
  ba_weight : weight 100 L < 2 ^ 30;
  ba_filters : per_key * zlen L + (base + 4) * (weight 100 L / 1024 + 3) + 5 < 2 ^ 32;
}.
Context (BA : buildable).

(** Bounds on the filter block and on the whole file. *)
Definition filter_bound : Z := per_key * zlen L + (base + 4) * (weight 100 L / 1024 + 3) + 5.
Definition table_bound : Z := 4 * weight 100 L + filter_bound + 2 * zlen (filter_key (policy_name (filter_policy o))) + 300.

Lemma write_block_ok b ctype cm data (tb : TableBuilder W) :
  compress cm b = Ok data → writable (tb_dst tb) →
  ∃ d, write_block b ctype cm tb
       = Ret (tb_set_out tb d (tb_offset tb + zlen (frame data ctype)), Ok {| bh_offset := tb_offset tb; bh_size := zlen data |})
     ∧ written d = written (tb_dst tb) ++ frame data ctype ∧ writable d.
Proof.
  intros Hc Hd. unfold write_block. rewrite Hc. change (replicate (Z.to_nat TABLE_BLOCK_COMPRESS_LEN) ctype) with [ctype].
  destruct (write_reliable data (tb_dst tb) Hd) as (d1 & E1 & W1 & D1).
  destruct (write_reliable [ctype] d1 D1) as (d2 & E2 & W2 & D2).
  destruct (fixedint_reliable 4 (mask_crc (crc32 (data ++ [ctype]))) d2 ltac:(lia) D2) as (d3 & E3 & W3 & D3).
  exists d3. unfold sbind, tb_io. rewrite E1, !bind_Ret. cbn [tb_set_out tb_dst]. rewrite E2, !bind_Ret.
  cbn [tb_set_out tb_dst]. rewrite E3, !bind_Ret. split_and!; [| |done].
  - unfold tb_set_out. cbn. rewrite length_frame. unfold TABLE_BLOCK_COMPRESS_LEN, TABLE_BLOCK_CKSUM_LEN. do 3 f_equal. lia.
  - rewrite W3, W2, W1. unfold frame. by rewrite <- !app_assoc.
Qed.

Definition block_in (file : bytes) (B : dblock) : Prop :=
  ∃ b, stored o file (d_handle B) b ∧ block_of (c := o_cmp o) b (d_entries B)
    ∧ 0 ≤ bh_offset (d_handle B) < 2 ^ 43 ∧ 0 ≤ bh_size (d_handle B) < 2 ^ 43.

Lemma block_in_app file post B : block_in file B → block_in (file ++ post) B.
Proof. intros (b & Hs & H). exists b. split; [by apply stored_app|done]. Qed.

(** The builder has written the blocks [Bs], holds the entries [cur], and [R] are to come. *)
Record tb_inv (tb : TableBuilder W) (Bs : list dblock) (cur R : list entry) : Prop := {
  tv_list : L = all_entries Bs ++ cur ++ R;
  tv_opt : tb_opt tb = o;
  tv_offset : tb_offset tb = zlen (written (tb_dst tb)) ∧ tb_offset tb ≤ 2 * weight 100 (all_entries Bs);
  tv_data : ∃ db Es rs, data_block tb = Some db ∧ bb_inv db Es cur rs ∧ bb_opt db = o;
  tv_index : ∃ ib Es rs, index_block tb = Some ib ∧ bb_inv ib Es (index_entries Bs) rs ∧ bb_opt ib = o;
  tv_filter : ∃ fb, filter_block tb = Some fb
    ∧ add_blocks (FilterBlockBuilder_new (filter_policy o)) (filter_blocks Bs ++ [(tb_offset tb, cur.*1)]) = Ret fb;
  tv_offsets : StronglySorted Z.le (0 :: (filter_blocks Bs).*1 ++ [tb_offset tb]);
  tv_prev : prev_block_last_key tb = last_key_of (all_entries Bs);
  tv_blocks : Forall (block_in (written (tb_dst tb))) Bs;
  tv_distinct : Forall (λ B, bh_offset (d_handle B) < tb_offset tb) Bs ∧ NoDup ((λ B, bh_offset (d_handle B)) <$> Bs);
  tv_divided : divided (o_cmp o) Bs (cur ++ R);
  tv_writable : writable (tb_dst tb);
}.

Lemma tb_new_inv dst : writable dst → written dst = [] → tb_inv (TableBuilder_new_raw o dst) [] [] L.
Proof.
  intros Hwd Hd. pose proof (ba_interval BA). split; cbn; try done; try rewrite Hd; try done.
  - exists (BlockBuilder_new o), [], [0%nat]. split_and!; [done|apply bb_new_inv; lia|done].
  - exists (BlockBuilder_new o), [], [0%nat]. split_and!; [done|apply bb_new_inv; lia|done].
  - eexists. split; [done|]. unfold add_blocks. cbn [mfoldl add_block fst snd foldl]. reflexivity.
  - by repeat constructor.
  - split; constructor.
Qed.

Lemma last_key_weight w (l : list entry) : 0 ≤ w → l ≠ [] → zlen (last_key_of l) + w ≤ weight w l.
Proof.
  intros Hw Hl. unfold last_key_of. destruct (last l) as [[k v]|] eqn:E; [|by apply last_None in E].
  apply last_Some in E as [l' ->]. rewrite weight_app. pose proof (weight_nonneg w l' ltac:(lia)).
  cbn. unfold entry_weight. cbn. lia.
Qed.

Lemma index_weight Bs rest : divided (o_cmp o) Bs rest → Forall (λ B, zlen (handle_enc (d_handle B)) ≤ 16) Bs →
  weight 34 (index_entries Bs) ≤ weight 100 (all_entries Bs).
Proof.
  induction Bs as [|B Bs IH]; intros Hd Hh; [cbn; lia|]. cbn [divided] in Hd. destruct Hd as (Hne & Ho & Hd).
  apply Forall_cons in Hh as [Hh Hhs]. specialize (IH Hd Hhs).
  change (all_entries (B :: Bs)) with (d_entries B ++ all_entries Bs). rewrite weight_app.
  change (index_entries (B :: Bs)) with ((d_sep B, handle_enc (d_handle B)) :: index_entries Bs). cbn [weight foldr].
  fold (weight 34 (index_entries Bs)). unfold entry_weight. cbn [fst snd]. pose proof (so_len _ _ _ _ Ho).
  assert (zlen (last_key_of (d_entries B)) + 100 ≤ weight 100 (d_entries B)); [|lia].
  by apply last_key_weight.
Qed.

(** The filter builder accepts the blocks that lie behind those it knows. *)
Lemma filter_step Bs (cur : list entry) off off' fb r :
  L.*1 = concat ((filter_blocks Bs).*2) ++ cur.*1 ++ r →
  StronglySorted Z.le (0 :: (filter_blocks Bs).*1 ++ [off; off']) → off' < 2 ^ 43 →
  Forall (λ B, Forall (λ e : entry, e.1 ≠ []) (d_entries B)) Bs → Forall (λ e : entry, e.1 ≠ []) cur →
  add_blocks (FilterBlockBuilder_new (filter_policy o)) (filter_blocks Bs ++ [(off, cur.*1)]) = Ret fb →
  ∃ fb', start_block off' fb = Ret fb'
    ∧ add_blocks (FilterBlockBuilder_new (filter_policy o)) ((filter_blocks Bs ++ [(off, cur.*1)]) ++ [(off', [])]) = Ret fb'.
Proof.
  intros HL Hs Ho HB Hcur E.
  destruct (add_blocks_ok (filter_policy o) 8 fits (ba_policy BA) ((filter_blocks Bs ++ [(off, cur.*1)]) ++ [(off', [])]) _ [] [] [] [] 0
    (new_built (filter_policy o) 8)) as (fb' & F & P & E' & _).
  - done.
  - done.
  - by rewrite !fmap_app, <- app_assoc.
  - apply Forall_forall. intros [x ks] Hx. apply StronglySorted_inv in Hs as [Hs _].
    rewrite <- app_assoc in Hx. apply elem_of_app in Hx as [Hx|Hx].
    + split.
      * apply StronglySorted_app in Hs as (Hs & _). cbn.
        assert (x ≤ off'); [|lia]. apply Hs; [by apply (list_elem_of_fmap_2 fst _ _ Hx)|set_solver].
      * apply list_elem_of_fmap in Hx as (B & [= -> ->] & Hx). rewrite Forall_forall in HB. by apply Forall_fmap, HB.
    + apply StronglySorted_app in Hs as (_ & _ & Hs). apply StronglySorted_inv in Hs as [_ [Hs _]%Forall_cons].
      cbn in Hx. apply elem_of_cons in Hx as [[= -> ->]|[= -> ->]%list_elem_of_singleton]; cbn.
      * split; [lia|]. by apply Forall_fmap.
      * split; [done|]. by constructor.
  - intros q p r' Hq. apply (ba_fits BA q p (r' ++ r)). rewrite !fmap_app, !concat_app in Hq. cbn in Hq.
    rewrite !app_nil_r in Hq. by rewrite HL, (app_assoc (concat _)), Hq, <- !app_assoc.
  - exists fb'. split; [|done]. unfold add_blocks in E, E'. rewrite mfoldl_app, E, bind_Ret in E'. cbn [mfoldl] in E'.
    unfold add_block in E'. cbn [fst snd foldl] in E'. destruct (start_block off' fb); cbn in *; congruence.
Qed.

(** What the invariant says about the parts of the list. *)
Lemma inv_parts tb Bs cur R :
  tb_inv tb Bs cur R →
  StronglySorted (key_lt (c := o_cmp o)) (all_entries Bs ++ cur ++ R) ∧ StronglySorted (key_lt (c := o_cmp o)) cur
  ∧ Forall (block_entry_ok (c := o_cmp o)) (all_entries Bs) ∧ Forall (block_entry_ok (c := o_cmp o)) cur
  ∧ Forall (block_entry_ok (c := o_cmp o)) R
  ∧ weight 100 (all_entries Bs) + weight 100 cur + weight 100 R < 2 ^ 30 ∧ 0 ≤ weight 100 (all_entries Bs) ∧ 0 ≤ weight 100 R.
Proof.
  intros I. pose proof (tv_list _ _ _ _ I) as HL. pose proof (ba_sorted BA) as Hs. pose proof (ba_entries BA) as He.
  pose proof (ba_weight BA) as Hw. rewrite HL in Hs, He, Hw. rewrite !weight_app in Hw.
  pose proof (weight_nonneg 100 (all_entries Bs)). pose proof (weight_nonneg 100 R).
  apply Forall_app in He as [HeB [Hec HeR]%Forall_app]. split_and!; try done || lia.
  apply StronglySorted_app in Hs as (_ & _ & Hs). by apply StronglySorted_app in Hs as (_ & Hs & _).
Qed.

(** A block of entries as it is written, compressed. *)
Lemma finish_block db Es cur rs file :
  bb_inv db Es cur rs → weight 34 cur < 2 ^ 31 → Forall (block_entry_ok (c := o_cmp o)) cur → StronglySorted (key_lt (c := o_cmp o)) cur →
  ∃ data, compress comp (bb_finish db) = Ok data ∧ zlen data ≤ 2 * weight 34 cur + 48
    ∧ block_of (c := o_cmp o) (bb_finish db) cur
    ∧ stored o (file ++ frame data (o_compressor o)) {| bh_offset := zlen file; bh_size := zlen data |} (bb_finish db).
Proof.
  intros I Hw He Hs. pose proof (bb_finish_size _ _ _ _ I) as Hsz.
  destruct (ba_good BA (bb_finish db)) as (data & Hc & Hd & Hl); [lia|]. exists data. split_and!; [done|lia| |].
  - eapply bb_block; [exact I|lia|done..].
  - exists file, [], data, (o_compressor o), comp. rewrite app_nil_r. split_and!; [done..|exact (ba_comp BA)|done].
Qed.

(** The entry of a written block in the index. *)
Lemma index_push tb Bs cur R ib Es rs s h :
  tb_inv tb Bs cur R → cur ≠ [] → sep_ok (o_cmp o) (last_key_of cur) R s → zlen (handle_enc h) ≤ 16 →
  bb_inv ib Es (index_entries Bs) rs → bb_opt ib = o →
  ∃ ib' e rs', bb_add s (handle_enc h) ib = Ret ib'
    ∧ bb_inv ib' (Es ++ [e]) (index_entries (Bs ++ [mkDblock cur s h])) rs' ∧ bb_opt ib' = o
    ∧ divided (o_cmp o) (Bs ++ [mkDblock cur s h]) R.
Proof.
  intros I Hne Hok Hh Ii Hio. pose proof (inv_parts _ _ _ _ I) as (Hsall & _ & _ & _ & _ & Hw & HwB & HwR). pose proof (tv_divided _ _ _ _ I) as Hdiv.
  set (B := mkDblock cur s h). assert (divided (o_cmp o) (Bs ++ [B]) R) as Hdiv' by (apply divided_snoc; by split_and!).
  assert (index_entries (Bs ++ [B]) = index_entries Bs ++ [(s, handle_enc h)]) as Hix by (unfold index_entries; by rewrite fmap_app).
  assert (StronglySorted (key_lt (c := o_cmp o)) (index_entries (Bs ++ [B]))) as Hixs.
  { eapply index_sorted; [|exact Hdiv']. by rewrite all_entries_app, all_entries_one, <- app_assoc. }
  rewrite Hix in Hixs |- *.
  destruct (bb_add_ok (o := o) ib Es (index_entries Bs) rs s (handle_enc h) Ii Hio (ba_interval BA)) as (ib' & e & rs2 & Ea & Ii' & Hio').
  - exact (so_key _ _ _ _ Hok).
  - apply Forall_fmap, Forall_forall. intros B' HB'. apply list_elem_of_split in HB' as (B1 & B2 & ->).
    apply divided_at in Hdiv as (_ & Ho & _). exact (so_key _ _ _ _ Ho).
  - pose proof (so_len _ _ _ _ Hok). pose proof (last_key_weight 100 cur ltac:(lia) Hne). lia.
  - lia.
  - exact (last_key_lt _ _ Hixs).
  - by exists ib', e, rs2.
Qed.

(** The filter builder is told where the next block starts. *)
Lemma filter_push tb Bs cur R fb off' :
  tb_inv tb Bs cur R → filter_block tb = Some fb → tb_offset tb ≤ off' < 2 ^ 43 →
  ∃ fb', start_block off' fb = Ret fb' ∧ StronglySorted Z.le (0 :: (filter_blocks Bs).*1 ++ [tb_offset tb; off'])
    ∧ add_blocks (FilterBlockBuilder_new (filter_policy o)) ((filter_blocks Bs ++ [(tb_offset tb, cur.*1)]) ++ [(off', [])]) = Ret fb'.
Proof.
  intros I Hfb Ho. pose proof (inv_parts _ _ _ _ I) as (_ & _ & HeB & Hec & _).
  destruct I as [HL _ _ _ _ (fb0 & Hfb0 & Efb) Hoffs _ _ _ _]. rewrite Hfb0 in Hfb. simplify_eq.
  assert (StronglySorted Z.le (0 :: (filter_blocks Bs).*1 ++ [tb_offset tb; off'])) as Hoffs'.
  { apply (sorted_snoc_le (0 :: _)); [exact Hoffs|lia]. }
  destruct (filter_step Bs cur (tb_offset tb) off' fb R.*1) as (fb' & Es2 & Efb'); [|done|lia| | |done|by exists fb'].
  - by rewrite HL, !fmap_app, filter_blocks_keys.
  - apply Forall_forall. intros B' HB'. apply list_elem_of_split in HB' as (B1 & B2 & ->).
    rewrite all_entries_app in HeB. apply Forall_app in HeB as [_ HeB]. change (all_entries (B' :: B2)) with (d_entries B' ++ all_entries B2) in HeB.
    apply Forall_app in HeB as [HeB _]. eapply Forall_impl; [exact HeB|]. by intros ? (? & _).
  - eapply Forall_impl; [exact Hec|]. by intros ? (? & _).
Qed.

(** The blocks of the file with one more block. *)
Lemma block_push tb Bs B off' file' :
  Forall (λ B, bh_offset (d_handle B) < tb_offset tb) Bs ∧ NoDup ((λ B, bh_offset (d_handle B)) <$> Bs) →
  Forall (block_in (written (tb_dst tb))) Bs → bh_offset (d_handle B) = tb_offset tb → tb_offset tb < off' →
  (∃ post, file' = written (tb_dst tb) ++ post) → block_in file' B →
  Forall (block_in file') (Bs ++ [B])
  ∧ Forall (λ B, bh_offset (d_handle B) < off') (Bs ++ [B]) ∧ NoDup ((λ B, bh_offset (d_handle B)) <$> Bs ++ [B]).
Proof.
  intros [Hdist Hnd] HB Hh Hoff [post ->] HBin. split_and!.
  - apply Forall_app. split; [|by apply Forall_singleton]. eapply Forall_impl; [exact HB|]. intros. by apply block_in_app.
  - apply Forall_app. split; [|apply Forall_singleton; lia]. eapply Forall_impl; [exact Hdist|]. simpl. lia.
  - rewrite fmap_app. apply NoDup_app. split_and!; [done| |apply NoDup_singleton].
    intros x Hx ->%list_elem_of_singleton. apply list_elem_of_fmap in Hx as (B' & E' & HB').
    rewrite Forall_forall in Hdist. specialize (Hdist B' HB'). lia.
Qed.

Lemma write_data_block_ok tb Bs cur R nk s :
  tb_inv tb Bs cur R → cur ≠ [] → find_shortest_sep (o_cmp o) (last_key_of cur) nk = Ret s → sep_ok (o_cmp o) (last_key_of cur) R s →
  ∃ tb' h, write_data_block nk tb = Ret (tb', Ok ()) ∧ tb_inv tb' (Bs ++ [mkDblock cur s h]) [] R.
Proof.
  intros I Hne Hsep Hok. pose proof (inv_parts _ _ _ _ I) as (Hsall & Hscur & HeB & Hec & HeR & Hw & HwB & HwR). pose proof I as I0.
  destruct I as [HL Hopt [Hoff Hoff2] (db & Es & rs & Hdb & Ib & Hbo) (ib & Es' & rs' & Hib & Ii & Hio) (fb & Hfb & Efb) Hoffs Hprev HB Hdist Hdiv Hwr].
  assert (weight 34 cur + 66 ≤ weight 100 cur) as Hwc.
  { pose proof (weight_split 34 66 cur) as Hsp. change (34 + 66) with 100 in Hsp. destruct cur; [done|]. simpl length in Hsp. lia. }
  assert (0 ≤ weight 34 cur) as Hw34 by (apply weight_nonneg; lia).
  destruct (finish_block db Es cur rs (written (tb_dst tb)) Ib) as (data & Hc & Hld & Hblk & Hst); [lia|done..|].
  set (h := {| bh_offset := tb_offset tb; bh_size := zlen data |}). rewrite <- Hoff in Hst. fold h in Hst.
  destruct (length_handle_small h) as [Hh Hh16]; [cbn; lia..|].
  destruct (index_push tb Bs cur R ib Es' rs' s h) as (ib' & e & rs2 & Ea & Ii' & Hio' & Hdiv'); [done..|].
  set (B := mkDblock cur s h) in *. set (off' := tb_offset tb + zlen (frame data (o_compressor o))).
  pose proof (length_frame data (o_compressor o)) as Hlf.
  destruct (filter_push tb Bs cur R fb off' I0 Hfb) as (fb' & Es2 & Hoffs' & Efb'); [unfold off'; lia|].
  unfold write_data_block. rewrite Hdb. cbn [unwrap]. rewrite bind_Ret. cbn [tb_set_data tb_opt]. rewrite Hopt.
  rewrite (inv_last _ _ _ _ Ib), Hsep, bind_Ret. unfold compressor_get. rewrite (ba_comp BA), !bind_Ret.
  match goal with |- context [write_block _ _ _ ?t] => set (tb1 := t) end.
  destruct (write_block_ok (bb_finish db) (o_compressor o) comp data tb1 Hc Hwr) as (d & Ew & Wd & Dd). unfold sbind. rewrite Ew, bind_Ret.
  change (tb_offset tb1) with (tb_offset tb) in *. change (tb_dst tb1) with (tb_dst tb) in Wd. fold h off'.
  rewrite (handle_bytes_ok h Hh Hh16), bind_Ret. cbn [tb_set_out index_block]. change (index_block tb1) with (index_block tb).
  rewrite Hib. cbn [unwrap]. rewrite bind_Ret, Ea, bind_Ret.
  match goal with |- context [match filter_block ?t with _ => _ end] => set (tb2 := t) end.
  change (filter_block tb2) with (filter_block tb). rewrite Hfb. change (tb_offset tb2) with off'. rewrite Es2, bind_Ret.
  destruct (block_push tb Bs B off' (written d) Hdist HB eq_refl) as [HB' Hdist'];
    [unfold off'; lia|by eexists|exists (bb_finish db); rewrite Wd; split_and!; try done; cbn; lia|].
  eexists _, h. split; [done|]. fold B. split; try done.
  - by rewrite all_entries_app, all_entries_one, <- app_assoc, HL.
  - cbn. rewrite Wd, length_app. unfold off'. rewrite all_entries_app, all_entries_one, weight_app. change (d_entries B) with cur. lia.
  - exists (BlockBuilder_new o), [], [0%nat]. split_and!; [cbn; by rewrite Hopt|apply bb_new_inv; pose proof (ba_interval BA); lia|done].
  - by exists ib', (Es' ++ [e]), rs2.
  - exists fb'. split; [done|]. unfold filter_blocks. rewrite fmap_app. exact Efb'.
  - cbn. unfold filter_blocks. rewrite !fmap_app. cbn. rewrite <- app_assoc. exact Hoffs'.
  - cbn. by rewrite all_entries_app, all_entries_one, last_key_of_app.
Qed.

Lemma finish_length b : zlen (bb_finish b) = bb_size_estimate b.
Proof.
  unfold bb_finish, bb_size_estimate. change (concat (encode_fixed 4 <$> ?l)) with (fixed_array 4 l).
  rewrite !length_app, !Nat2Z.inj_add, length_fixed_array, length_encode_fixed by lia. lia.
Qed.

(** The rest of [add], once there is room in the current block. *)
Lemma push_ok tb Bs cur k v R :
  tb_inv tb Bs cur ((k, v) :: R) →
  ∃ db db' tb', data_block tb = Some db ∧ bb_add k v db = Ret db'
    ∧ tb' = tb_set_data (tb_set_filter tb (match filter_block tb with Some f => Some (fb_add_key f k) | None => None end))
              (num_entries tb + 1) (prev_block_last_key tb) (Some db')
    ∧ tb_inv tb' Bs (cur ++ [(k, v)]) R.
Proof.
  intros I. pose proof (inv_parts _ _ _ _ I) as (Hsall & Hscur & HeB & Hec & [(Hk1 & Hk2 & Hk3 & Hk4) HeR]%Forall_cons & _). cbn [fst snd] in *.
  destruct I as [HL Hopt Hoff (db & Es & rs & Hdb & Ib & Hbo) Hix (fb & Hfb & Efb) Hoffs Hprev HB [Hdist Hnd] Hdiv].
  destruct (bb_add_ok (o := o) db Es cur rs k v Ib Hbo (ba_interval BA) Hk2) as (db' & e & rs' & Ea & Ib' & Hbo'); [|done..| |].
  { eapply Forall_impl; [exact Hec|]. by intros ? (_ & ? & _). }
  { apply StronglySorted_app in Hsall as (_ & _ & Hs). change ((k, v) :: R) with ([(k, v)] ++ R) in Hs. rewrite app_assoc in Hs.
    apply StronglySorted_app in Hs as (_ & Hs & _). exact (last_key_lt cur (k, v) Hs). }
  eexists db, db', _. split_and!; [done..|]. split.
  - by rewrite <- app_assoc.
  - done.
  - done.
  - by exists db', (Es ++ [e]), rs'.
  - done.
  - exists (fb_add_key fb k). cbn. rewrite Hfb. split; [done|]. unfold add_blocks in Efb |- *. rewrite mfoldl_app in Efb |- *.
    destruct (mfoldl add_block _ (filter_blocks Bs)) as [f0| |]; [|done..]. rewrite bind_Ret in Efb |- *. cbn [mfoldl] in Efb |- *.
    unfold add_block in Efb |- *. cbn [fst snd] in Efb |- *. destruct (start_block (tb_offset tb) f0) as [f1| |]; [|done..].
    rewrite !bind_Ret in Efb |- *. injection Efb as <-. by rewrite fmap_app, foldl_app.
  - done.
  - done.
  - done.
  - done.
  - by rewrite <- app_assoc.
  - done.
Qed.

Lemma tb_add_ok tb Bs cur k v R :
  tb_inv tb Bs cur ((k, v) :: R) →
  ∃ tb' Bs' cur', tb_add k v tb = Ret (tb', Ok ()) ∧ tb_inv tb' Bs' cur' R ∧ cur' ≠ [].
Proof.
  intros I. pose proof (inv_parts _ _ _ _ I) as (Hsall & Hscur & HeB & Hec & [(Hk1 & Hk2 & Hk3 & Hk4) HeR]%Forall_cons & _). cbn [fst snd] in *.
  destruct (tv_data _ _ _ _ I) as (db & Es & rs & Hdb & Ib & _). unfold tb_add. rewrite Hdb. cbn [unwrap]. rewrite bind_Ret.
  rewrite (tv_opt _ _ _ _ I), (tv_prev _ _ _ _ I).
  assert ((if decide (last_key_of (all_entries Bs) = []) then Ret ()
           else ord ← cmp (o_cmp o) (last_key_of (all_entries Bs)) k; massert (is_lt ord)) = Ret ()) as ->.
  { case_decide as Hnil; [done|]. destruct (last_key_of_elem (all_entries Bs)) as [v' Hv']; [by intros E; rewrite E in Hnil|].
    rewrite Forall_forall in HeB. destruct (HeB _ Hv') as (_ & Hok & _). cbn in Hok. rewrite cmp_ret, bind_Ret by done.
    apply StronglySorted_app in Hsall as (Hs & _). pose proof (Hs (last_key_of (all_entries Bs), v') (k, v) Hv' ltac:(set_solver)) as Hlt.
    unfold key_lt in Hlt. cbn in Hlt. by rewrite Hlt. }
  rewrite bind_Ret. unfold sbind.
  assert (∃ tb1 Bs1 cur1, (if o_block_size o <? bb_size_estimate db then write_data_block k tb else Ret (tb, Ok ())) = Ret (tb1, Ok ())
    ∧ tb_inv tb1 Bs1 cur1 ((k, v) :: R)) as (tb1 & Bs1 & cur1 & -> & I1).
  { destruct (Z.ltb_spec (o_block_size o) (bb_size_estimate db)) as [Hfull|_]; [|eauto].
    assert (cur ≠ []) as Hne.
    { intros ->. rewrite <- finish_length in Hfull. pose proof (bb_finish_size _ _ _ _ Ib). pose proof (ba_size BA). cbn in *. lia. }
    pose proof (ba_separable BA) as Hsep. destruct (last cur) as [a|] eqn:Ea; [|by apply last_None in Ea].
    apply last_Some in Ea as [cur0 ->]. destruct (Hsep (length (all_entries Bs ++ cur0)) a) as [s Hs].
    { by rewrite (tv_list _ _ _ _ I), <- app_assoc, app_assoc, lookup_app_r, Nat.sub_diag. }
    replace (drop _ L) with ((k, v) :: R) in Hs.
    2: { rewrite (tv_list _ _ _ _ I), <- app_assoc, (app_assoc (all_entries Bs)), drop_app_ge, Nat.sub_succ_l, Nat.sub_diag by lia. done. }
    destruct (write_data_block_ok tb Bs _ _ k s I Hne) as (tb1 & h & E & I1); [..|by eexists _, _, _].
    - rewrite last_key_of_app by done. exact (so_next _ _ _ _ Hs).
    - by rewrite last_key_of_app. }
  rewrite bind_Ret. destruct (push_ok tb1 Bs1 cur1 k v R I1) as (db1 & db' & tb' & Hdb1 & Eadd & -> & I').
  rewrite Hdb1. cbn [unwrap]. rewrite bind_Ret, Eadd, bind_Ret. eexists _, Bs1, _. split; [done|]. split; [exact I'|]. by destruct cur1.
Qed.

Lemma tb_adds_ok R : ∀ tb Bs cur,
  tb_inv tb Bs cur R → ∃ tb' Bs' cur', tb_adds R tb = Ret (tb', Ok ()) ∧ tb_inv tb' Bs' cur' [] ∧ (cur ≠ [] ∨ R ≠ [] → cur' ≠ []).
Proof.
  induction R as [|[k v] R IH]; intros tb Bs cur I; cbn [tb_adds]; [exists tb, Bs, cur; split_and!; [done..|naive_solver]|].
  destruct (tb_add_ok _ _ _ _ _ _ I) as (tb1 & Bs1 & cur1 & -> & I1 & Hne). unfold sbind. rewrite bind_Ret.
  destruct (IH _ _ _ I1) as (tb2 & Bs2 & cur2 & E & I2 & Hne2). exists tb2, Bs2, cur2. split_and!; [done..|]. auto.
Qed.

(** ** The finished file *)

(** The filter block lies at [fh]; its filters match every key of the block asked for
    and answer for every internal key. *)
Definition filters_in (file : bytes) (fh : BlockHandle) (Bs : list dblock) : Prop :=
  ∃ F pre post, file = pre ++ block_bytes F ++ post ∧ bh_offset fh = zlen pre ∧ bh_size fh = zlen (block_bytes F)
    ∧ zlen (block_bytes F) < 2 ^ 32
    ∧ ∀ B e, B ∈ Bs → e ∈ d_entries B → serves (filter_policy o) 8 F (bh_offset (d_handle B)) e.1.

Record table_file (file : bytes) (Bs : list dblock) : Prop := {
  tf_blocks : Forall (block_in file) Bs;
  tf_divided : divided (o_cmp o) Bs [];
  tf_entries : all_entries Bs = L;
  tf_sorted : StronglySorted (key_lt (c := o_cmp o)) L;
  tf_keys : Forall (λ e : entry, key_ok (o_cmp o) e.1) L;
  tf_distinct : NoDup ((λ B, bh_offset (d_handle B)) <$> Bs);
  tf_size : zlen file < 2 ^ 36;
  tf_footer : ∃ pre f ib mb fh, file = pre ++ footer_bytes f ∧ footer_ok f
    ∧ stored o file (footer_index f) ib ∧ block_of (c := o_cmp o) ib (index_entries Bs)
    ∧ stored o file (meta_index f) mb
    ∧ block_of (c := o_cmp o) mb [(filter_key (policy_name (filter_policy o)), handle_enc fh)]
    ∧ handle_ok fh ∧ filters_in file fh Bs;
}.

Lemma filters_finish tb Bs fb :
  tb_inv tb Bs [] [] → filter_block tb = Some fb →
  ∃ F, fb_finish fb = Ret (block_bytes F) ∧ zlen (block_bytes F) ≤ filter_bound
    ∧ (∀ B e, B ∈ Bs → e ∈ d_entries B → serves (filter_policy o) 8 F (bh_offset (d_handle B)) e.1)
    ∧ filter_name fb = policy_name (filter_policy o).
Proof.
  intros I Hfb. pose proof (inv_parts _ _ _ _ I) as (_ & _ & HeB & _ & _ & Hw & HwB & _).
  destruct I as [HL Hopt [Hoff Hoff2] _ _ (fb' & Hfb' & Efb) Hoffs Hprev HB [Hdist Hnd] Hdiv]. rewrite Hfb' in Hfb. simplify_eq.
  cbn [app] in HL. rewrite app_nil_r in HL.
  change (add_blocks (FilterBlockBuilder_new (filter_policy o)) (filter_blocks Bs ++ [(tb_offset tb, [])]) = Ret fb) in Efb.
  set (blks := filter_blocks Bs ++ [(tb_offset tb, [])]) in *.
  assert (concat (blks.*2) = L.*1) as Hkeys.
  { unfold blks. rewrite fmap_app, concat_app, filter_blocks_keys, HL. cbn. by rewrite app_nil_r. }
  assert (∀ x, x ∈ 0 :: blks.*1 → x ≤ tb_offset tb) as Hle.
  { intros x Hx. unfold blks in Hx. rewrite fmap_app in Hx. change (0 :: ?a ++ ?b) with ((0 :: a) ++ b) in Hx, Hoffs.
    apply elem_of_app in Hx as [Hx| ->%list_elem_of_singleton]; [|done].
    change (0 :: (filter_blocks Bs).*1 ++ [tb_offset tb]) with ((0 :: (filter_blocks Bs).*1) ++ [tb_offset tb]) in Hoffs.
    apply StronglySorted_app in Hoffs as (H & _). apply H; [done|left]. }
  destruct (add_blocks_ok (filter_policy o) 8 fits (ba_policy BA) blks _ [] [] [] [] 0 (new_built (filter_policy o) 8))
    as (fb2 & F & P & E2 & B2 & x & Hx & HF).
  - done.
  - done.
  - unfold blks. by rewrite fmap_app.
  - apply Forall_forall. intros [y ks] Hy. cbn. split.
    + assert (y ≤ tb_offset tb); [|change (weight 100 []) with 0 in Hw; lia]. apply Hle. right. by apply (list_elem_of_fmap_2 fst _ _ Hy).
    + apply Forall_forall. intros k Hk. assert (k ∈ L.*1) as HkL.
      { rewrite <- Hkeys. apply elem_of_concat. exists ks. split; [done|]. by apply (list_elem_of_fmap_2 snd _ _ Hy). }
      apply list_elem_of_fmap in HkL as (e & -> & He). rewrite HL in He. rewrite Forall_forall in HeB. by destruct (HeB e He).
  - intros q p r Hq. rewrite Hkeys in Hq. by apply (ba_fits BA q p r).
  - rewrite E2 in Efb. simplify_eq. destruct (built_pending _ _ _ _ _ _ _ B2) as [Q HQ].
    destruct (finish_ok (filter_policy o) 8 fits fb F P _ _ (ba_policy BA) B2) as (F' & Ef & Hserve).
    { apply (ba_fits BA P Q []). rewrite app_nil_r, <- HQ. by rewrite Hkeys. }
    exists F'. split_and!; [done| | |].
    + assert (fb_sized (filter_policy o) per_key base (FilterBlockBuilder_new (filter_policy o)) 0) as Hz by (split; [done|cbn; lia]).
      apply (add_blocks_sized _ _ _ (ba_sized BA) blks _ _ _ (ba_base BA) Hz) in E2.
      pose proof (finish_sized _ _ _ (ba_sized BA) _ _ _ (ba_per_key BA) (ba_base BA) E2 Ef) as Hfin.
      rewrite (built_offsets _ _ _ _ _ _ _ B2), length_offsets_of, Hkeys, length_fmap in Hfin.
      pose proof (ba_base BA). assert (zlen F ≤ weight 100 L / 1024 + 2); [|unfold filter_bound; nia].
      specialize (Hle x Hx). unfold window in HF. pose proof (Z.div_le_mono x (2 * weight 100 L) 2048 ltac:(lia) ltac:(rewrite HL; lia)) as Hdm.
      rewrite (Z.div_mul_cancel_l _ 1024 2) in Hdm by lia. assert (0 ≤ weight 100 L / 1024) by (apply Z.div_pos; rewrite ?HL; lia). lia.
    + intros B e HBin He. apply (Hserve _ (d_entries B).*1); [|by apply list_elem_of_fmap_2].
      cbn. apply elem_of_app. left. by apply (list_elem_of_fmap_2 (λ B, (bh_offset (d_handle B), (d_entries B).*1))).
    + unfold filter_name. by rewrite (built_policy _ _ _ _ _ _ _ B2).
Qed.

Lemma write_filter_block_ok tb Bs :
  tb_inv tb Bs [] [] →
  ∃ tb' b Es rs fh, write_filter_block (BlockBuilder_new o) tb = Ret (tb', Ok b)
    ∧ bb_inv b Es [(filter_key (policy_name (filter_policy o)), handle_enc fh)] rs ∧ handle_ok fh ∧ zlen (handle_enc fh) ≤ 16
    ∧ filters_in (written (tb_dst tb')) fh Bs
    ∧ (∃ post, written (tb_dst tb') = written (tb_dst tb) ++ post) ∧ tb_offset tb' = zlen (written (tb_dst tb'))
    ∧ tb_offset tb' ≤ 2 * weight 100 L + filter_bound + 5 ∧ tb_offset tb' < 2 ^ 34 ∧ index_block tb' = index_block tb ∧ tb_opt tb' = o ∧ writable (tb_dst tb').
Proof.
  intros I. pose proof (inv_parts _ _ _ _ I) as (_ & _ & _ & _ & _ & Hw & HwB & _). change (weight 100 []) with 0 in Hw.
  destruct (tv_filter _ _ _ _ I) as (fb & Hfb & _). destruct (filters_finish tb Bs fb I Hfb) as (F & Ef & HlB & Hserve & Hname).
  assert (zlen (block_bytes F) < 2 ^ 32) as HlF by (pose proof (ba_filters BA); unfold filter_bound in HlB; lia).
  pose proof (tv_list _ _ _ _ I) as HLs. cbn [app] in HLs. rewrite app_nil_r in HLs.
  destruct (tv_offset _ _ _ _ I) as [Hoff Hoff2].
  unfold write_filter_block. rewrite Hfb, Ef, bind_Ret, Hname. unfold sbind.
  destruct (write_block_ok (block_bytes F) NoneCompressor_ID NoneCompressor (block_bytes F) (tb_set_filter tb None) eq_refl (tv_writable _ _ _ _ I)) as (d & -> & Wd & Dd).
  rewrite bind_Ret. cbn [tb_set_filter tb_offset tb_dst] in Wd |- *. set (fh := {| bh_offset := tb_offset tb; bh_size := zlen (block_bytes F) |}).
  destruct (length_handle_small fh) as [Hh Hh16]; [cbn; lia..|]. rewrite (handle_bytes_ok fh Hh Hh16), bind_Ret.
  pose proof (ba_interval BA). pose proof (ba_filter_name BA).
  destruct (bb_add_ok (o := o) (BlockBuilder_new o) [] [] [0%nat] (filter_key (policy_name (filter_policy o))) (handle_enc fh))
    as (b & e & rs & -> & Ib & _); [apply bb_new_inv; lia|done|done|exact (ba_filter_key BA)|done|lia|lia|by left|]. rewrite bind_Ret.
  eexists _, b, _, rs, fh. split; [done|]. cbn [tb_set_out tb_dst tb_offset index_block tb_opt tb_set_filter]. split_and!; try done.
  - exists F, (written (tb_dst tb)), (drop (length (block_bytes F)) (frame (block_bytes F) NoneCompressor_ID)).
    split_and!; try done. rewrite Wd. unfold frame. by rewrite drop_app_length.
  - by eexists.
  - rewrite Wd, length_app. lia.
  - rewrite length_frame, HLs. lia.
  - rewrite length_frame. lia.
  - exact (tv_opt _ _ _ _ I).
Qed.

(** [finish] first writes the last data block. *)
Lemma flush_last tb Bs cur :
  tb_inv tb Bs cur [] →
  ∃ db tb1 Bs1, data_block tb = Some db
    ∧ (if 0 <? bb_entries db then
         key_past_last ← find_short_succ (o_cmp (tb_opt tb)) (bb_last_key db); write_data_block key_past_last tb
       else Ret (tb, Ok ())) = Ret (tb1, Ok ())
    ∧ tb_inv tb1 Bs1 [] [].
Proof.
  intros I. destruct (tv_data _ _ _ _ I) as (db & Es & rs & Hdb & Ib & _). exists db.
  unfold bb_entries. rewrite (inv_counter _ _ _ _ Ib), (inv_last _ _ _ _ Ib), (tv_opt _ _ _ _ I).
  destruct (last cur) as [a|] eqn:Ea; [|by apply last_None in Ea as ->; eauto].
  apply last_Some in Ea as [cur0 ->]. rewrite length_app. simpl length. ztest.
  destruct (ba_separable BA (length (all_entries Bs ++ cur0)) a) as [s Hs].
  { by rewrite (tv_list _ _ _ _ I), <- app_assoc, app_assoc, lookup_app_r, Nat.sub_diag. }
  replace (drop _ L) with (@nil entry) in Hs.
  2: { rewrite (tv_list _ _ _ _ I), app_nil_r, drop_ge; [done|]. rewrite !length_app. simpl. lia. }
  rewrite last_key_of_app by done. change (last_key_of [a]) with a.1.
  destruct (so_next _ _ _ _ Hs) as (r & -> & Hsep). rewrite bind_Ret.
  destruct (write_data_block_ok tb Bs (cur0 ++ [a]) [] r s I) as (tb1 & h & -> & I1); [by destruct cur0|by rewrite last_key_of_app..|].
  eauto.
Qed.

(** The metaindex and index blocks and the footer follow. *)
Lemma write_tail tb b Es cur rs h0 :
  bb_inv b Es cur rs → weight 34 cur < 2 ^ 31 → Forall (block_entry_ok (c := o_cmp o)) cur → StronglySorted (key_lt (c := o_cmp o)) cur →
  tb_offset tb = zlen (written (tb_dst tb)) → tb_offset tb < h0 → writable (tb_dst tb) →
  ∃ tb' h post, write_block (bb_finish b) (o_compressor o) comp tb = Ret (tb', Ok h)
    ∧ written (tb_dst tb') = written (tb_dst tb) ++ post ∧ tb_offset tb' = zlen (written (tb_dst tb')) ∧ tb_offset tb' < h0 + 2 ^ 33 ∧ tb_offset tb' ≤ tb_offset tb + 2 * weight 34 cur + 53
    ∧ stored o (written (tb_dst tb')) h (bb_finish b) ∧ block_of (c := o_cmp o) (bb_finish b) cur
    ∧ bh_offset h < h0 ∧ 0 ≤ bh_offset h ∧ 0 ≤ bh_size h < 2 ^ 33 ∧ index_block tb' = index_block tb ∧ writable (tb_dst tb').
Proof.
  intros Ib Hw He Hs Ho Hlt Hwr. destruct (finish_block b Es cur rs (written (tb_dst tb)) Ib Hw He Hs) as (data & Hc & Hl & Hb & Hst).
  destruct (write_block_ok (bb_finish b) (o_compressor o) comp data tb Hc Hwr) as (d & -> & Wd & Dd). pose proof (length_frame data (o_compressor o)).
  eexists _, _, (frame data (o_compressor o)). split; [done|]. cbn [tb_set_out tb_dst tb_offset bh_offset bh_size index_block tb_opt].
  rewrite Wd, length_app, <- Ho in *. split_and!; try done || lia.
Qed.

Lemma index_entries_ok Bs rest :
  divided (o_cmp o) Bs rest → Forall (λ e : entry, zlen e.1 < 2 ^ 60) (all_entries Bs) →
  Forall (λ B, zlen (handle_enc (d_handle B)) ≤ 16) Bs → Forall (block_entry_ok (c := o_cmp o)) (index_entries Bs).
Proof.
  intros Hd He Hh. apply Forall_fmap, Forall_forall. intros B HB. rewrite Forall_forall in Hh. specialize (Hh B HB).
  apply list_elem_of_split in HB as (B1 & B2 & ->). apply divided_at in Hd as (Hne & Ho & _).
  destruct (last_key_of_elem _ Hne) as [v Hv]. pose proof (so_len _ _ _ _ Ho). rewrite Forall_forall in He.
  assert ((last_key_of (d_entries B), v) ∈ all_entries (B1 ++ B :: B2)) as Hin%He.
  { rewrite all_entries_app. change (all_entries (B :: B2)) with (d_entries B ++ all_entries B2). set_solver. }
  split_and!; cbn in *; [exact (so_nonempty _ _ _ _ Ho)|exact (so_key _ _ _ _ Ho)|lia|lia].
Qed.

Lemma filters_in_app file post fh Bs : filters_in file fh Bs → filters_in (file ++ post) fh Bs.
Proof. intros (F & p & q & -> & H). exists F, p, (q ++ post). by rewrite <- !app_assoc. Qed.

Lemma file_intro tb Bs file f ib mb fh :
  tb_inv tb Bs [] [] → footer_ok f → (∃ post, file = written (tb_dst tb) ++ post) → zlen file < 2 ^ 36 - 48 →
  stored o file (footer_index f) ib → block_of (c := o_cmp o) ib (index_entries Bs) →
  stored o file (meta_index f) mb → block_of (c := o_cmp o) mb [(filter_key (policy_name (filter_policy o)), handle_enc fh)] →
  handle_ok fh → filters_in file fh Bs → table_file (file ++ footer_bytes f) Bs.
Proof.
  intros I Hf [post Hfile] Hsz St1 Bl1 St2 Bl2 Hfh HF. split.
  - eapply Forall_impl; [exact (tv_blocks _ _ _ _ I)|]. intros B HB. rewrite Hfile, <- app_assoc. by apply block_in_app.
  - exact (tv_divided _ _ _ _ I).
  - rewrite (tv_list _ _ _ _ I). cbn. by rewrite app_nil_r.
  - exact (ba_sorted BA).
  - eapply Forall_impl; [exact (ba_entries BA)|]. by intros ? (_ & ? & _).
  - exact (proj2 (tv_distinct _ _ _ _ I)).
  - pose proof (length_footer f Hf) as Hl. change FULL_FOOTER_LENGTH with 48 in Hl. rewrite length_app. lia.
  - exists file, f, ib, mb, fh. split_and!; try done; [by apply stored_app..|by apply filters_in_app].
Qed.

Lemma tb_finish_ok tb Bs cur :
  tb_inv tb Bs cur [] →
  ∃ tb' Bs', tb_finish tb = Ret (tb', Ok (zlen (written (tb_dst tb')))) ∧ table_file (written (tb_dst tb')) Bs' ∧ writable (tb_dst tb')
    ∧ zlen (written (tb_dst tb')) ≤ table_bound.
Proof.
  intros I. destruct (flush_last tb Bs cur I) as (db & tb1 & Bs1 & Hdb & E1 & I1). unfold tb_finish. rewrite Hdb. cbn [unwrap]. rewrite bind_Ret.
  rewrite (tv_opt _ _ _ _ I) in E1 |- *. unfold compressor_get. rewrite (ba_comp BA), !bind_Ret. unfold sbind at 1. rewrite E1, bind_Ret.
  rewrite (tv_opt _ _ _ _ I1). pose proof (inv_parts _ _ _ _ I1) as (Hsall & _ & HeB & _ & _ & Hw & HwB & _). change (weight 100 []) with 0 in Hw.
  destruct (write_filter_block_ok tb1 Bs1 I1) as (tb2 & mb & Es2 & rs2 & fh & E2 & Im & Hfh & Hfh16 & HF & [p2 W2] & Ho2 & Hle2 & Hlt2 & Hix2 & Hopt2 & Hwr2).
  unfold sbind at 1. rewrite E2, bind_Ret.
  destruct (write_tail tb2 mb Es2 _ rs2 (2 ^ 34) Im) as (tb3 & h3 & p3 & E3 & W3 & Ho3 & Hlt3 & Hle3 & St3 & Bl3 & Hh3 & Hh3' & Hs3 & Hix3 & Hwr3).
  { cbn. unfold entry_weight. cbn. pose proof (ba_filter_name BA). lia. }
  { apply Forall_singleton. split_and!; cbn; [done|exact (ba_filter_key BA)|pose proof (ba_filter_name BA); lia|lia]. }
  { by repeat constructor. }
  { done. }
  { done. }
  { done. }
  unfold sbind at 1. rewrite E3, bind_Ret. destruct (tv_index _ _ _ _ I1) as (ib & Es4 & rs4 & Hib & Ii & _).
  rewrite Hix3, Hix2, Hib. cbn [unwrap]. rewrite bind_Ret.
  assert (Forall (λ B, zlen (handle_enc (d_handle B)) ≤ 16) Bs1) as H16.
  { eapply Forall_impl; [exact (tv_blocks _ _ _ _ I1)|]. intros B (b & _ & _ & H1 & H2). apply length_handle_small; lia. }
  pose proof (tv_divided _ _ _ _ I1) as Hdiv. cbn [app] in Hdiv. pose proof (index_weight Bs1 _ Hdiv H16) as Hiw.
  destruct (write_tail (tb_set_index tb3 None) ib Es4 _ rs4 (2 ^ 35) Ii)
    as (tb4 & h4 & p4 & E4 & W4 & Ho4 & Hlt4 & Hle4 & St4 & Bl4 & Hh4 & Hh4' & Hs4 & _ & Hwr4).
  { lia. }
  { eapply index_entries_ok; [exact Hdiv| |exact H16]. apply Forall_forall. intros e He.
    pose proof (weight_elem 100 _ e ltac:(lia) He) as Hwe. unfold entry_weight in Hwe. lia. }
  { eapply index_sorted; [|exact Hdiv]. exact Hsall. }
  { done. }
  { cbn. lia. }
  { done. }
  unfold sbind at 1. rewrite E4, bind_Ret. cbn [tb_set_index tb_dst] in W4.
  assert (weight 100 L = weight 100 (all_entries Bs1)) as HwL by (rewrite (tv_list _ _ _ _ I1); cbn [app]; by rewrite app_nil_r).
  cbn [weight foldr] in Hle3. unfold entry_weight in Hle3. cbn [fst snd] in Hle3. change (tb_offset (tb_set_index tb3 None)) with (tb_offset tb3) in Hle4.
  set (f := {| meta_index := h3; footer_index := h4 |}).
  assert (footer_ok f) as Hf by (split; split; unfold is_u; cbn; lia).
  rewrite (footer_encode f Hf), bind_Ret. destruct (write_reliable (footer_bytes f) (tb_dst tb4) Hwr4) as (d5 & E5 & W5 & Hwr5).
  destruct (flush_reliable d5 Hwr5) as (d6 & E6 & W6 & Hwr6). unfold sbind, tb_io. rewrite E5, !bind_Ret. cbn [tb_set_out tb_dst tb_offset]. rewrite E6, !bind_Ret.
  cbn [tb_set_out tb_dst tb_offset]. match goal with |- ∃ _ _, Ret (?t, _) = _ ∧ _ => exists t, Bs1 end.
  split; [cbn [tb_set_out tb_dst]; rewrite W6, W5, length_app; do 3 f_equal; lia|]. split; [|split; [done|]]; cbn [tb_set_out tb_dst]; rewrite W6, W5; 
    [|rewrite length_app, Nat2Z.inj_add, <- Ho4, (length_footer f Hf); change FULL_FOOTER_LENGTH with 48; unfold table_bound; lia]. apply file_intro with (mb := bb_finish mb) (ib := bb_finish ib) (fh := fh) (tb := tb1);
    [done|done|rewrite W4, W3, W2, <- !app_assoc; by eexists|rewrite <- Ho4; lia|done..| |done|done|].
  - rewrite W4. by apply stored_app.
  - rewrite W4, W3, <- app_assoc. by apply filters_in_app.
Qed.

(** Building a table from sorted entries writes a table file of these entries. *)
Lemma build_table_ok dst :
  writable dst → written dst = [] →
  ∃ tb Bs, build_table o dst L = Ret (tb, Ok (zlen (written (tb_dst tb)))) ∧ table_file (written (tb_dst tb)) Bs ∧ writable (tb_dst tb)
    ∧ zlen (written (tb_dst tb)) ≤ table_bound.
Proof.
  intros Hwd Hd. unfold build_table. destruct (tb_adds_ok L _ _ _ (tb_new_inv dst Hwd Hd)) as (tb & Bs & cur & -> & I & _). unfold sbind. rewrite bind_Ret.
  destruct (tb_finish_ok tb Bs cur I) as (tb' & Bs' & -> & T). eauto.
Qed.

End builder.
