(* ===== verification/TableRead.v ===== *)
(** * TableRead: reading table files

    The reader of [src/table_reader.rs] on a table file: opening it, looking keys up and
    iterating, with the block cache that it shares with other tables. *)

From S2P Require Import Prelude Encoding Error Io Env Types Cmp KeyTypes Log Iterator Filter FilterBlock Options BlockBuilder Block Cache TableBuilder Table TableFile.

Section read.
Context `{IEL : IntegerEncodingLaws} `{CRL : Crc32Laws} `{RA : RandomAccess F}.
Context (o : Options) {OC : OrderedCmp (o_cmp o)} (L : list entry) (f : F) (file : bytes) (Bs : list dblock).
Context (Hf : file_holds f file) (TF : table_file o L file Bs).

(** ** Stored blocks are determined by the file *)

Lemma stored_det fl h b b' : stored o fl h b → stored o fl h b' → b = b'.
Proof.
  intros (p & q & d & ct & cm & -> & Ho & Hs & Hc & Hd) (p' & q' & d' & ct' & cm' & E & Ho' & Hs' & Hc' & Hd'). unfold frame in E.
  apply app_inj_1 in E as [<- E]; [|lia]. rewrite <- !app_assoc in E. apply app_inj_1 in E as [<- E]; [|lia].
  cbn in E. injection E as <- _. rewrite Hc in Hc'. simplify_eq. congruence.
Qed.

Lemma block_of_length b l : block_of (c := o_cmp o) b l → 8 ≤ zlen b.
Proof.
  intros (Es & rs & B & ->). pose proof (length_rs Es l rs (bl_layout _ _ _ B)). rewrite length_layout. lia.
Qed.

Lemma block_iter_ok b l :
  block_of (c := o_cmp o) b l →
  ∃ it, block_iter {| blk_contents := b; blk_opt := o |} = Ret it ∧ view (c := o_cmp o) it l Start.
Proof.
  intros Hb. pose proof (block_of_length b l Hb). destruct (block_iter_view o b l Hb eq_refl) as (it & E & V & _).
  unfold Block_new in E. rewrite (proj2 (Z.ltb_lt _ _)) in E by lia. exists it. split; [exact E|done].
Qed.

(** ** Opening a table *)

Record table_of (t : Table F) : Prop := {
  to_file : t_file t = f;
  to_opt : t_opt t = o;
  to_index : ∃ ib, t_indexblock t = {| blk_contents := ib; blk_opt := o |} ∧ block_of (c := o_cmp o) ib (index_entries Bs);
  to_filters : ∃ Fl, t_filters t = Some (reader_of (filter_policy o) Fl) ∧ zlen (block_bytes Fl) < 2 ^ 32
    ∧ ∀ B e, B ∈ Bs → e ∈ d_entries B → serves (filter_policy o) 8 Fl (bh_offset (d_handle B)) e.1;
  to_id : is_u 64 (t_cache_id t);
}.

Lemma read_footer_ok debug_bytes pre fo :
  file = pre ++ footer_bytes fo → footer_ok fo → read_footer debug_bytes f (zlen file) = Ret (Ok fo).
Proof.
  intros Hc Hfo. pose proof (length_footer fo Hfo) as Hl. unfold read_footer. rewrite Hc, length_app, Nat2Z.inj_add, Hl.
  rewrite usub_Ret, bind_Ret by lia. rewrite (read_bytes_at f pre (footer_bytes fo) []), rbind_Ok.
  - rewrite footer_decode by done. done.
  - rewrite app_nil_r, <- Hc. exact Hf.
  - cbn. lia.
  - cbn. lia.
Qed.

Lemma read_filters_ok debug_bytes mb fh :
  block_of (c := o_cmp o) mb [(filter_key (policy_name (filter_policy o)), handle_enc fh)] → handle_ok fh → filters_in o file fh Bs →
  ∃ Fl, table_read_filter_block debug_bytes {| blk_contents := mb; blk_opt := o |} f o = Ret (Ok (Some (reader_of (filter_policy o) Fl)))
    ∧ zlen (block_bytes Fl) < 2 ^ 32
    ∧ ∀ B e, B ∈ Bs → e ∈ d_entries B → serves (filter_policy o) 8 Fl (bh_offset (d_handle B)) e.1.
Proof.
  intros Hb Hh (Fl & pre & post & Hc & Ho & Hs & Hlt & Hserve). exists Fl. split; [|done]. unfold table_read_filter_block.
  destruct (block_iter_ok mb _ Hb) as (it & -> & V). rewrite bind_Ret.
  set (k := filter_key (policy_name (filter_policy o))) in *.
  assert (key_ok (o_cmp o) k) as Hk.
  { destruct Hb as (Es & rs & B & _). pose proof (bl_keys _ _ _ B) as Hks. by apply Forall_cons in Hks as [? _]. }
  destruct (seek_law _ _ _ k V Hk) as (it' & E & V'). cbn in E. rewrite E, bind_Ret.
  unfold pos_seek in V'. cbn [seek_index] in V'. rewrite ord_refl in V'. cbn [is_lt] in V'.
  rewrite at_or_off_lt in V' by (simpl; lia). pose proof (current_law _ _ _ V') as Hcur. cbn in Hcur. rewrite Hcur, bind_Ret.
  rewrite <- (app_nil_r (handle_enc fh)), handle_decode, bind_Ret by done.
  pose proof (length_block_bytes Fl). rewrite Hs. ztest. unfold read_filter_block. rewrite Hs. ztest.
  rewrite (read_bytes_at f pre (block_bytes Fl) post fh ltac:(by rewrite <- Hc) Ho Hs), rbind_Ok. rewrite reader_new_ok, bind_Ret, rbind_Ok by done. done.
Qed.

Lemma table_new_ok debug_bytes (cache : Cache Block) :
  c_id cache + 1 < 2 ^ 64 → 0 ≤ c_id cache →
  ∃ t, Table_new_raw debug_bytes o f (zlen file) cache
       = Ret ({| c_list := c_list cache; c_map := c_map cache; c_cap := c_cap cache; c_id := c_id cache + 1 |}, Ok t)
     ∧ table_of t ∧ t_cache_id t = c_id cache + 1.
Proof.
  intros Hid Hid0. destruct (tf_footer _ _ _ _ TF) as (pre & fo & ib & mb & fh & Hc & Hfo & Sti & Bli & Stm & Blm & Hfh & HF).
  unfold Table_new_raw. rewrite (read_footer_ok debug_bytes pre fo Hc Hfo), rbind_Ok.
  rewrite (read_stored o f file (footer_index fo) ib Hf Sti), rbind_Ok by (pose proof (block_of_length _ _ Bli); lia).
  rewrite (read_stored o f file (meta_index fo) mb Hf Stm), rbind_Ok by (pose proof (block_of_length _ _ Blm); lia).
  destruct (read_filters_ok debug_bytes mb fh Blm Hfh HF) as (Fl & -> & Hlt & Hserve). rewrite rbind_Ok, bind_Ret.
  unfold new_cache_id, uadd. ztest. rewrite !bind_Ret. eexists. split; [done|]. split; [|done].
  split; cbn; try done; [by eexists|by exists Fl|unfold is_u; lia].
Qed.

(** ** The block cache *)

(** The keys of the cache carry ids that were given out. *)
Definition cache_ids (cache : Cache Block) : Prop :=
  0 ≤ c_id cache ∧ ∃ C, cache_inv cache C ∧
    Forall (λ kv, ∃ id off, kv.1 = encode_fixed 8 id ++ encode_fixed 8 off ∧ 0 ≤ id ≤ c_id cache) C.

(** What the cache holds for the blocks of the table [t]. *)
Definition cache_good (t : Table F) (cache : Cache Block) : Prop :=
  ∃ C, cache_inv cache C ∧ ∀ B blk, B ∈ Bs → (block_cache_handle t (bh_offset (d_handle B)), blk) ∈ C →
    ∃ b, stored o file (d_handle B) b ∧ blk = {| blk_contents := b; blk_opt := o |}.

Lemma encode_fixed_inj k a b : 0 ≤ k → is_u (8 * k) a → is_u (8 * k) b → encode_fixed k a = encode_fixed k b → a = b.
Proof.
  intros Hk Ha Hb E. rewrite <- (decode_encode_fixed k a Hk Ha), <- (decode_encode_fixed k b Hk Hb). by rewrite E.
Qed.

(** A table that was just opened finds nothing of its own in the cache. *)
Lemma cache_good_new t cache :
  cache_ids cache → c_id cache + 1 < 2 ^ 64 → t_cache_id t = c_id cache + 1 →
  cache_good t {| c_list := c_list cache; c_map := c_map cache; c_cap := c_cap cache; c_id := c_id cache + 1 |}.
Proof.
  intros (H0 & C & HC & Hids) Hlt Hid. exists C. split; [exact HC|]. intros B blk _ Hin. rewrite Forall_forall in Hids.
  destruct (Hids _ Hin) as (id & off & E & Hr). cbn in E. unfold block_cache_handle in E.
  apply app_inj_1 in E as [E _]; [|by rewrite !length_encode_fixed_nat by lia].
  apply encode_fixed_inj in E; [lia|lia|unfold is_u; lia..].
Qed.

(** Reading a block of the table gives it, from the cache or from the file, and leaves in the
    cache nothing but this block and what was there. *)
Lemma read_block_effect t cache C B :
  table_of t → cache_inv cache C → B ∈ Bs →
  let key := block_cache_handle t (bh_offset (d_handle B)) in
  (∀ blk, (key, blk) ∈ C → ∃ b, stored o file (d_handle B) b ∧ blk = {| blk_contents := b; blk_opt := o |}) →
  ∃ cache' C' b, read_block t (d_handle B) cache = Ret (cache', Ok {| blk_contents := b; blk_opt := o |})
    ∧ block_of (c := o_cmp o) b (d_entries B) ∧ stored o file (d_handle B) b
    ∧ cache_inv cache' C' ∧ c_id cache' = c_id cache
    ∧ ∀ kv, kv ∈ C' → kv ∈ C ∨ kv = (key, {| blk_contents := b; blk_opt := o |}).
Proof.
  intros HT HC HB key Hgood. pose proof (tf_blocks _ _ _ _ TF) as HBs. rewrite Forall_forall in HBs.
  destruct (HBs B HB) as (b & Hst & Hbl & Ho & _). unfold read_block. fold key.
  destruct (decide (key ∈ C.*1)) as [Hin|Hnin].
  - apply list_elem_of_fmap in Hin as ([k blk] & Ek & Hin). cbn in Ek. rewrite <- Ek in Hin. destruct (Hgood blk Hin) as (b' & Hst' & ->).
    rewrite (stored_det _ _ _ _ Hst' Hst) in *. apply list_elem_of_split in Hin as (C1 & C2 & ->).
    destruct (cache_get_hit _ _ _ _ _ HC) as (cache' & -> & HC' & _ & Hid). rewrite bind_Ret. eexists cache', _, b. split_and!; [done..|].
    intros kv. rewrite elem_of_cons, !elem_of_app, elem_of_cons. tauto.
  - rewrite (cache_get_miss _ _ _ HC Hnin), bind_Ret, (to_opt _ HT), (to_file _ HT).
    rewrite (read_stored o f file (d_handle B) b Hf Hst), bind_Ret by (pose proof (block_of_length _ _ Hbl); lia).
    destruct (cache_insert_ok _ _ _ {| blk_contents := b; blk_opt := o |} HC Hnin) as (cache' & -> & HC' & _ & Hid). rewrite bind_Ret.
    eexists cache', _, b. split_and!; [done..|]. intros kv [->|Hin]%elem_of_cons; [by right|left].
    apply elem_of_take in Hin as (i & Hi & _). apply (list_elem_of_lookup_2 _ _ _ Hi).
Qed.

Lemma handle_inj (t t' : Table F) B B' :
  B ∈ Bs → is_u 64 (t_cache_id t) → is_u 64 (t_cache_id t') → 0 ≤ bh_offset (d_handle B') < 2 ^ 64 →
  block_cache_handle t' (bh_offset (d_handle B')) = block_cache_handle t (bh_offset (d_handle B)) →
  t_cache_id t' = t_cache_id t ∧ bh_offset (d_handle B') = bh_offset (d_handle B).
Proof.
  intros HB Hi Hi' Ho' E. pose proof (tf_blocks _ _ _ _ TF) as HBs. rewrite Forall_forall in HBs.
  destruct (HBs B HB) as (_ & _ & _ & Ho & _). unfold block_cache_handle in E.
  apply app_inj_1 in E as [E1 E2]; [|by rewrite !length_encode_fixed_nat by lia].
  rewrite !wrap_small in E2 by lia. split; eapply encode_fixed_inj; try exact E1; try exact E2; done || unfold is_u; lia.
Qed.

Lemma read_block_ok t cache B :
  table_of t → cache_good t cache → B ∈ Bs →
  ∃ cache' b, read_block t (d_handle B) cache = Ret (cache', Ok {| blk_contents := b; blk_opt := o |})
    ∧ block_of (c := o_cmp o) b (d_entries B) ∧ cache_good t cache'.
Proof.
  intros HT (C & HC & Hgood) HB. destruct (read_block_effect t cache C B HT HC HB) as (cache' & C' & b & E & Hb & Hst & HC' & _ & Hin); [by intros; eapply Hgood|].
  exists cache', b. split_and!; [done..|]. exists C'. split; [done|]. intros B' blk HB' [H|[= E' ->]]%Hin; [by eapply Hgood|].
  pose proof (tf_blocks _ _ _ _ TF) as HBs. rewrite Forall_forall in HBs. destruct (HBs B' HB') as (_ & _ & _ & Ho' & _).
  destruct (handle_inj t t B B' HB (to_id _ HT) (to_id _ HT) ltac:(lia) E') as [_ Ho].
  rewrite (NoDup_fmap_eq _ _ _ _ (tf_distinct _ _ _ _ TF) HB' HB Ho). by exists b.
Qed.

(** ** Iterating *)

(** What the clients of the table keep of the block cache: reading a block of the table gives
    this block and keeps it. *)
Definition serves_blocks (t : Table F) (CG : Cache Block → Prop) : Prop := ∀ cache B, CG cache → B ∈ Bs →
  ∃ cache' b, read_block t (d_handle B) cache = Ret (cache', Ok {| blk_contents := b; blk_opt := o |})
    ∧ block_of (c := o_cmp o) b (d_entries B) ∧ CG cache'.

Context (t : Table F) (HT : table_of t) (CG : Cache Block → Prop) (HCG : serves_blocks t CG).
Abbreviation ix_entries := (index_entries Bs) (only parsing).
Abbreviation bview := (view (c := o_cmp o)) (only parsing).
Implicit Types (it : TableIterator F) (cache : Cache Block).

(** The [j]-th entry of the block [B], with the index iterator on it. *)
Definition ti_pos it (p : pos) : Prop :=
  match p with
  | Start => current_block it = None ∧ bview (ti_index it) ix_entries Start
  | At n => ∃ A B C j cb, Bs = A ++ B :: C ∧ n = (length (all_entries A) + j)%nat ∧ current_block it = Some cb
              ∧ bview cb (d_entries B) (At j) ∧ bview (ti_index it) ix_entries (At (length A))
  | Off => (current_block it = None ∨ ∃ cb B, current_block it = Some cb ∧ bview cb (d_entries B) Off)
           ∧ ∃ q, bview (ti_index it) ix_entries q
  end.
Definition ti_view (s : Cache Block * TableIterator F) (l : list entry) (p : pos) : Prop :=
  l = L ∧ CG s.1 ∧ ti_table s.2 = t ∧ ti_pos s.2 p.

Lemma lookup_index i : ix_entries !! i = (λ B, (d_sep B, handle_enc (d_handle B))) <$> Bs !! i.
Proof. unfold index_entries. apply list_lookup_fmap. Qed.

Lemma length_index : length ix_entries = length Bs.
Proof. unfold index_entries. apply length_fmap. Qed.

Lemma load_ok it cache B :
  ti_table it = t → CG cache → B ∈ Bs →
  ∃ cache' cb off, load_block (handle_enc (d_handle B)) it cache = Ret ((cache', ti_set it (Some cb) off (ti_index it)), Ok ())
    ∧ bview cb (d_entries B) Start ∧ CG cache'.
Proof.
  intros Ht HC HB. destruct (HCG cache B HC HB) as (cache' & b & E & Hb & HC').
  destruct (block_iter_ok b _ Hb) as (cb & Eb & V). pose proof (tf_blocks _ _ _ _ TF) as HBs. rewrite Forall_forall in HBs.
  destruct (HBs B HB) as (_ & _ & _ & Ho & Hs). destruct (length_handle_small (d_handle B)) as [Hh _]; [lia..|].
  unfold load_block. rewrite <- (app_nil_r (handle_enc (d_handle B))), handle_decode, bind_Ret by done.
  rewrite Ht, E, !bind_Ret, Eb, bind_Ret. by exists cache', cb, (bh_offset (d_handle B)).
Qed.

Lemma skip_ok it cache q i :
  ti_table it = t → CG cache → bview (ti_index it) ix_entries q → q ≠ Off → pos_next ix_entries q = at_or_off ix_entries i →
  ∃ cache' it', skip_to_next_entry it cache = Ret ((cache', it'), Ok (bool_decide (i < length Bs)%nat))
    ∧ CG cache' ∧ ti_table it' = t ∧ bview (ti_index it') ix_entries (at_or_off ix_entries i)
    ∧ if decide (i < length Bs)%nat then ∃ cb B, Bs !! i = Some B ∧ current_block it' = Some cb ∧ bview cb (d_entries B) Start
      else current_block it' = current_block it.
Proof.
  intros Ht HC V Hq Hn. destruct (advance_law _ _ _ V Hq) as (ix & E & V'). rewrite Hn in E, V'. cbn in E.
  unfold skip_to_next_entry, bi_next. rewrite E, bind_Ret. rewrite <- length_index. pose proof (current_law _ _ _ V') as Hcur. cbn in Hcur.
  destruct (decide (i < length ix_entries)%nat) as [Hi|Hi].
  - rewrite bool_decide_true by done. rewrite at_or_off_lt in * by done. cbn [on_entry negb]. rewrite Hcur, !bind_Ret. cbn [entry_at].
    rewrite length_index in Hi. destruct (lookup_lt_is_Some_2 Bs i Hi) as [B HB]. rewrite lookup_index, HB. cbn [fmap option_fmap option_map].
    destruct (load_ok (ti_set it (current_block it) (current_block_off it) ix) cache B) as (cache' & cb & off & E' & Vb & HC');
      [done..|by apply (list_elem_of_lookup_2 _ i)|]. unfold sbind. rewrite E', bind_Ret. eexists cache', _. split; [done|].
    split_and!; try done. by exists cb, B.
  - rewrite bool_decide_false by done. rewrite at_or_off_ge in * by lia. cbn [on_entry negb]. rewrite bind_Ret. by eexists cache, _.
Qed.

Lemma reset_pos it q : bview (ti_index it) ix_entries q → ti_pos (ti_reset it) Start.
Proof.
  intros V. destruct (reset_law _ _ _ V) as (ix & E & V'). cbn in E. injection E as <-. by split.
Qed.

Lemma start_off it : ti_pos it Start → ti_pos it Off.
Proof. intros [H V]. split; [by left|by eexists]. Qed.

(** From the end of a block, or from the start, to the first entry of the next block. *)
Lemma advance_block fuel it cache q i :
  ti_table it = t → CG cache → current_block it = None → bview (ti_index it) ix_entries q → q ≠ Off →
  pos_next ix_entries q = at_or_off ix_entries i → (i ≤ length Bs)%nat →
  let n := length (all_entries (take i Bs)) in
  ∃ s', ti_advance_loop (S (S fuel)) it cache = Ret (s', on_entry (at_or_off L n)) ∧ ti_view s' L (at_or_off L n).
Proof.
  intros Ht HC Hcb V Hq Hn Hi n. cbn [ti_advance_loop]. rewrite Hcb.
  destruct (skip_ok it cache q i Ht HC V Hq Hn) as (cache' & it' & -> & HC' & Ht' & V' & Hcase). rewrite bind_Ret.
  destruct (decide (i < length Bs)%nat) as [Hlt|Hge].
  - rewrite bool_decide_true by done. destruct Hcase as (cb & B & HB & -> & Vb).
    pose proof (tf_divided _ _ _ _ TF) as Hd. pose proof (tf_entries _ _ _ _ TF) as HL.
    rewrite <- (take_drop_middle Bs i B HB) in Hd, HL. apply divided_at in Hd as (Hne & _).
    destruct (advance_law _ _ _ Vb ltac:(done)) as (cb' & E & Vb'). cbn in E. rewrite E, bind_Ret. cbn [pos_next] in *.
    rewrite at_or_off_lt in Vb' by (destruct (d_entries B); [done|simpl; lia]). cbn [on_entry].
    assert (n < length L)%nat as Hnlt.
    { rewrite <- HL, all_entries_app. change (all_entries (B :: drop (S i) Bs)) with (d_entries B ++ all_entries (drop (S i) Bs)).
      rewrite !length_app. destruct (d_entries B); [done|simpl; unfold n; lia]. }
    rewrite (at_or_off_lt (d_entries B)) by (destruct (d_entries B); [done|simpl; lia]). rewrite at_or_off_lt by done. cbn [on_entry].
    eexists. split; [done|]. split_and!; try done. exists (take i Bs), B, (drop (S i) Bs), 0%nat, cb'. split_and!; try done.
    + by rewrite take_drop_middle.
    + cbn [snd ti_set ti_index]. rewrite at_or_off_lt in V' by (rewrite length_index; lia). by rewrite length_take_le by lia.
  - rewrite bool_decide_false by done. assert (n = length L) as -> by (unfold n; by rewrite take_ge, (tf_entries _ _ _ _ TF) by lia).
    rewrite at_or_off_ge by lia. cbn [on_entry]. eexists. split; [done|]. split_and!; try done.
    apply start_off. by eapply reset_pos.
Qed.

(** The position of the [j]-th entry of a block. *)
Lemma lookup_all A B C j : Bs = A ++ B :: C → (j < length (d_entries B))%nat → L !! (length (all_entries A) + j)%nat = d_entries B !! j.
Proof.
  intros HBs Hj. rewrite <- (tf_entries _ _ _ _ TF), HBs, all_entries_app.
  change (all_entries (B :: C)) with (d_entries B ++ all_entries C). rewrite lookup_app_r by lia.
  rewrite lookup_app_l by lia. f_equal. lia.
Qed.

Lemma length_L A B C : Bs = A ++ B :: C → length L = (length (all_entries A) + length (d_entries B) + length (all_entries C))%nat.
Proof.
  intros HBs. rewrite <- (tf_entries _ _ _ _ TF), HBs, all_entries_app.
  change (all_entries (B :: C)) with (d_entries B ++ all_entries C). rewrite !length_app. lia.
Qed.

Lemma ti_advance_ok s p :
  ti_view s L p → p ≠ Off → ∃ s', it_advance s = Ret (s', on_entry (pos_next L p)) ∧ ti_view s' L (pos_next L p).
Proof.
  destruct s as [cache it]. intros (_ & HC & Ht & Hp) Hoff. cbn [fst snd] in *. cbn [it_advance TableIterator_iterator fst snd]. unfold ti_advance.
  replace (2 * bi_fuel (ti_index it) + 2)%nat with (S (S (2 * bi_fuel (ti_index it)))) by lia.
  destruct p as [|n|]; [| |done].
  - destruct Hp as [Hcb V]. exact (advance_block _ it cache Start 0 Ht HC Hcb V ltac:(done) eq_refl ltac:(lia)).
  - destruct Hp as (A & B & C & j & cb & HBs & -> & Hcb & Vb & Vi). cbn [pos_next]. pose proof (length_L A B C HBs) as HlL.
    destruct (advance_law _ _ _ Vb ltac:(done)) as (cb' & E & Vb'). cbn in E. cbn [pos_next] in E, Vb'.
    pose proof (view_bound _ _ _ Vb) as Hj. destruct (decide (S j < length (d_entries B))%nat) as [Hlt|Hge].
    + cbn [ti_advance_loop]. rewrite Hcb, E, bind_Ret. rewrite at_or_off_lt in Vb' |- * by done. rewrite at_or_off_lt by lia. cbn [on_entry].
      eexists. split; [done|]. split_and!; try done. exists A, B, C, (S j), cb'. split_and!; try done; lia.
    + rewrite at_or_off_ge in E by lia. cbn [on_entry] in E.
      assert (ti_advance_loop (S (S (2 * bi_fuel (ti_index it)))) it cache
              = ti_advance_loop (S (S (2 * bi_fuel (ti_index it)))) (ti_set it None (current_block_off it) (ti_index it)) cache) as ->.
      { cbn [ti_advance_loop]. rewrite Hcb, E, bind_Ret. done. }
      assert (length (all_entries (take (S (length A)) Bs)) = S (length (all_entries A) + j)) as Hn.
      { rewrite HBs. replace (S (length A)) with (length (A ++ [B])) by (rewrite length_app; simpl; lia).
        change (A ++ B :: C) with (A ++ [B] ++ C). rewrite app_assoc, take_app_length, all_entries_app, all_entries_one, length_app. lia. }
      rewrite <- Hn. apply (advance_block _ _ _ (At (length A)) (S (length A))); try done. rewrite HBs, length_app. simpl. lia.
Qed.

Lemma ti_valid_ok s p : ti_view s L p → ti_valid s.2 = on_entry p ∧ ti_current s.2 = Ret (entry_at L p).
Proof.
  intros (_ & _ & _ & Hp). unfold ti_valid, ti_current. destruct p as [|n|].
  - by destruct Hp as [-> _].
  - destruct Hp as (A & B & C & j & cb & HBs & -> & -> & Vb & _). pose proof (valid_law _ _ _ Vb) as Hv. cbn in Hv. injection Hv as ->.
    pose proof (current_law _ _ _ Vb) as Hc. cbn in Hc. rewrite Hc. split; [done|]. cbn [entry_at].
    by rewrite (lookup_all A B C j HBs (view_bound _ _ _ Vb)).
  - destruct Hp as [[->|(cb & B & -> & Vb)] _]; [done|]. pose proof (valid_law _ _ _ Vb) as Hv. cbn in Hv. injection Hv as ->.
    pose proof (current_law _ _ _ Vb) as Hc. cbn in Hc. by rewrite Hc.
Qed.

(** ** Seeking *)

(** The key does not lie between an entry and the separator behind it.  (It may be stored
    itself: a separator lies below the entry that follows.) *)
Definition gap_free (to : bytes) : Prop :=
  ∀ i a e s, L !! i = Some a → L !! S i = Some e → ord (o_cmp o) a.1 to = Lt → ord (o_cmp o) e.1 to ≠ Lt →
    find_shortest_sep (o_cmp o) a.1 e.1 = Ret s → ord (o_cmp o) s to = Lt.

Lemma block_parts A B C : Bs = A ++ B :: C →
  d_entries B ≠ [] ∧ sep_ok (o_cmp o) (last_key_of (d_entries B)) (all_entries C) (d_sep B)
  ∧ L = all_entries A ++ d_entries B ++ all_entries C
  ∧ StronglySorted (key_lt (c := o_cmp o)) (d_entries B) ∧ StronglySorted (key_lt (c := o_cmp o)) (all_entries C).
Proof.
  intros HBs. pose proof (tf_divided _ _ _ _ TF) as Hd. rewrite HBs in Hd. apply divided_at in Hd as (Hne & Ho & _). rewrite app_nil_r in Ho.
  assert (L = all_entries A ++ d_entries B ++ all_entries C) as HL by (by rewrite <- (tf_entries _ _ _ _ TF), HBs, all_entries_app).
  pose proof (tf_sorted _ _ _ _ TF) as Hs. rewrite HL in Hs. apply StronglySorted_app in Hs as (_ & _ & Hs).
  apply StronglySorted_app in Hs as (_ & H1 & H2). done.
Qed.

(** The blocks whose separators are below the key hold only entries below it. *)
Lemma below_blocks to A C : Bs = A ++ C → Forall (λ B, ord (o_cmp o) (d_sep B) to = Lt) A →
  Forall (λ e : entry, ord (o_cmp o) e.1 to = Lt) (all_entries A).
Proof.
  intros HBs HA. apply Forall_forall. intros e He. unfold all_entries in He. apply elem_of_concat in He as (l & Hel & Hl).
  apply list_elem_of_fmap in Hl as (B & -> & HB). rewrite Forall_forall in HA. specialize (HA B HB).
  apply list_elem_of_split in HB as (A1 & A2 & ->). rewrite <- app_assoc in HBs. cbn in HBs.
  destruct (block_parts A1 B (A2 ++ C) HBs) as (_ & Ho & _ & Hs & _).
  pose proof (divided_above _ B _ e Hs Ho Hel) as Hle. eapply ord_le_lt; [exact Hle|done].
Qed.

(** What the index finds. *)
Lemma index_seek to :
  let i := seek_index (o_cmp o) to ix_entries in
  (i = length Bs ∧ Forall (λ e : entry, ord (o_cmp o) e.1 to = Lt) L)
  ∨ ∃ A B C, Bs = A ++ B :: C ∧ i = length A ∧ ix_entries !! i = Some (d_sep B, handle_enc (d_handle B))
      ∧ ord (o_cmp o) (d_sep B) to ≠ Lt ∧ key_ok (o_cmp o) (d_sep B)
      ∧ Forall (λ e : entry, ord (o_cmp o) e.1 to = Lt) (all_entries A).
Proof.
  intros i. assert (∀ A C, Bs = A ++ C → (length A ≤ i)%nat → Forall (λ e : entry, ord (o_cmp o) e.1 to = Lt) (all_entries A)) as Hbelow.
  { intros A C HBs Hl. eapply below_blocks; [exact HBs|]. apply Forall_lookup. intros j B HB.
    apply (seek_index_below to ix_entries j (d_sep B, handle_enc (d_handle B))).
    - rewrite lookup_index, HBs, lookup_app_l by (by apply lookup_lt_Some in HB). by rewrite HB.
    - apply lookup_lt_Some in HB. fold i. lia. }
  destruct (Bs !! i) as [B|] eqn:HB.
  - right. exists (take i Bs), B, (drop (S i) Bs). pose proof (take_drop_middle Bs i B HB) as HBs. symmetry in HBs.
    assert (ix_entries !! i = Some (d_sep B, handle_enc (d_handle B))) as Hix by (by rewrite lookup_index, HB).
    destruct (block_parts _ _ _ HBs) as (_ & Ho & _). split_and!; try done.
    + rewrite length_take. apply lookup_lt_Some in HB. lia.
    + exact (seek_index_not_below to ix_entries _ Hix).
    + exact (so_key _ _ _ _ Ho).
    + eapply Hbelow; [exact HBs|]. rewrite length_take. lia.
  - left. apply lookup_ge_None in HB. pose proof (seek_index_le to ix_entries) as Hle. rewrite length_index in Hle. fold i in Hle. split; [lia|].
    rewrite <- (tf_entries _ _ _ _ TF). eapply (Hbelow Bs []); [by rewrite app_nil_r|lia].
Qed.

(** The first entry not below the key, in the block that the index finds. *)
Lemma seek_in_block to A B C :
  Bs = A ++ B :: C → Forall (λ e : entry, ord (o_cmp o) e.1 to = Lt) (all_entries A) → ord (o_cmp o) (d_sep B) to ≠ Lt →
  (seek_index (o_cmp o) to (d_entries B) < length (d_entries B) ∧
     seek_index (o_cmp o) to L = length (all_entries A) + seek_index (o_cmp o) to (d_entries B))%nat
  ∨ (seek_index (o_cmp o) to (d_entries B) = length (d_entries B)
     ∧ seek_index (o_cmp o) to L = length (all_entries A) + length (d_entries B)
     ∧ (C = [] ∨ ¬ gap_free to))%nat.
Proof.
  intros HBs HA Hsep. destruct (block_parts A B C HBs) as (Hne & Ho & HL & HsB & HsC). rewrite HL. rewrite (seek_index_skip to) by done.
  pose proof (seek_index_le to (d_entries B)) as Hle. destruct (decide (seek_index (o_cmp o) to (d_entries B) = length (d_entries B))) as [Hj|Hj].
  2: { left. split; [lia|]. by rewrite seek_index_app_l by lia. }
  right. pose proof (seek_index_all to _ Hj) as HB. rewrite (seek_index_skip to) by done.
  destruct (all_entries C) as [|e rest] eqn:HC.
  - split_and!; [done|cbn; lia|]. left. destruct C as [|B' C]; [done|]. destruct (block_parts (A ++ [B]) B' C) as (Hne' & _).
    { by rewrite <- app_assoc. }
    by apply app_eq_nil in HC as [HC _].
  - assert (ord (o_cmp o) e.1 to ≠ Lt) as He.
    { intros Hlt. apply Hsep. destruct e as [ke ve]. pose proof (so_below _ _ _ _ Ho) as H. cbn in *. by eapply ord_trans. }
    rewrite seek_index_here by done. split_and!; [done|lia|]. right. intros Hgap. destruct (last (d_entries B)) as [a|] eqn:Ea; [|by apply last_None in Ea].
    apply last_Some in Ea as [l El]. apply Hsep. rewrite El in *. rewrite last_key_of_app in Ho by done. destruct e as [ke ve].
    apply (Hgap (length (all_entries A ++ l)) a (ke, ve)).
    + by rewrite HL, <- app_assoc, app_assoc, lookup_app_r, Nat.sub_diag.
    + rewrite HL, <- app_assoc, app_assoc, lookup_app_r by lia. by replace (S _ - _)%nat with 1%nat by lia.
    + apply Forall_app in HB as [_ HB]. by apply Forall_cons in HB as [? _].
    + done.
    + exact (so_next _ _ _ _ Ho).
Qed.

Lemma ti_seek_ok s p to :
  ti_view s L p → key_ok (o_cmp o) to → gap_free to → ∃ s', it_seek to s = Ret s' ∧ ti_view s' L (pos_seek (o_cmp o) to L).
Proof.
  destruct s as [cache it]. intros (_ & HC & Ht & Hp) Hk Hgap. cbn [fst snd] in *.
  assert (∃ q, bview (ti_index it) ix_entries q) as [q V].
  { destruct p as [|n|]; [destruct Hp as [_ V]; eauto|destruct Hp as (A & B & C & j & cb & _ & _ & _ & _ & V); eauto|by destruct Hp as [_ ?]]. }
  cbn [it_seek TableIterator_iterator fst snd]. unfold ti_seek. destruct (seek_law _ _ _ to V Hk) as (ix & E & V'). cbn in E. rewrite E, bind_Ret.
  pose proof (current_law _ _ _ V') as Hcur. cbn in Hcur. rewrite Hcur, bind_Ret. unfold pos_seek in V' |- *.
  destruct (index_seek to) as [[Hi Hall]|(A & B & C & HBs & Hi & Hix & Hsep & Hks & HA)].
  - rewrite at_or_off_ge in V' |- * by (rewrite length_index; lia). cbn [entry_at]. eexists. split; [done|]. split_and!; try done.
    assert (seek_index (o_cmp o) to L = length L) as -> by (rewrite <- (app_nil_r L) at 1; rewrite (seek_index_skip to) by done; cbn; lia).
    rewrite at_or_off_ge by lia. apply start_off. eapply (reset_pos (ti_set it (current_block it) (current_block_off it) ix)). exact V'.
  - assert (seek_index (o_cmp o) to ix_entries < length ix_entries)%nat as Hlt by (by apply lookup_lt_Some in Hix).
    rewrite at_or_off_lt in V' |- * by done. cbn [entry_at]. rewrite Hix. cbn [ti_set ti_table]. rewrite Ht, (to_opt _ HT), cmp_ret, bind_Ret by done.
    assert (is_le (ord (o_cmp o) to (d_sep B)) = true) as ->.
    { rewrite (ord_antisym (d_sep B) to). by destruct (ord (o_cmp o) (d_sep B) to). }
    destruct (load_ok (ti_set it (current_block it) (current_block_off it) ix) cache B) as (cache' & cb & off & E' & Vb & HC');
      [done..|rewrite HBs; set_solver|]. rewrite E', bind_Ret. cbn [current_block ti_set unwrap]. rewrite bind_Ret.
    destruct (seek_law _ _ _ to Vb Hk) as (cb' & E2 & Vb'). cbn in E2. rewrite E2, bind_Ret. eexists. split; [done|]. split_and!; try done.
    rewrite Hi in V'. destruct (seek_in_block to A B C HBs HA Hsep) as [(Hj & ->)|(Hj & -> & [->|Hng])]; [..|done].
    + unfold pos_seek in Vb'. rewrite at_or_off_lt in Vb' by done. rewrite at_or_off_lt by (rewrite (length_L A B C HBs); lia).
      exists A, B, C, (seek_index (o_cmp o) to (d_entries B)), cb'. by split_and!.
    + unfold pos_seek in Vb'. rewrite at_or_off_ge in Vb' by lia. rewrite at_or_off_ge by (rewrite (length_L A B [] HBs); cbn; lia).
      split; [right; by exists cb', B|]. by eexists.
Qed.

(** ** Going back *)

Lemma prev_block_ok it cache A B C n :
  ti_table it = t → CG cache → Bs = A ++ B :: C → bview (ti_index it) ix_entries (At (length A)) →
  (∃ cb B, current_block it = Some cb ∧ bview cb (d_entries B) Off) → n = length (all_entries A) →
  ∃ s', prev_block it cache = Ret (s', on_entry (pos_prev (At n))) ∧ ti_view s' L (pos_prev (At n)).
Proof.
  intros Ht HC HBs Vi Hcb ->. unfold prev_block. destruct (prev_law _ _ _ Vi) as (ix & E & Vi'). cbn in E. rewrite E, bind_Ret.
  destruct (last A) as [B0|] eqn:EA; cycle 1.
  - apply last_None in EA as ->. cbn [pos_prev on_entry length all_entries negb] in *. eexists. split; [done|]. split_and!; try done.
    split; [by right|by eexists].
  - apply last_Some in EA as [A0 ->]. rewrite length_app in Vi', E |- *. cbn [length] in Vi', E |- *. rewrite Nat.add_1_r in Vi', E |- *.
    cbn [pos_prev on_entry negb] in *. pose proof (current_law _ _ _ Vi') as Hcur. cbn in Hcur. rewrite Hcur, bind_Ret.
    rewrite <- app_assoc in HBs. cbn in HBs. assert (Bs !! length A0 = Some B0) as HB0 by (by rewrite HBs, lookup_app_r, Nat.sub_diag).
    rewrite lookup_index, HB0. cbn [fmap option_fmap option_map].
    destruct (load_ok (ti_set it (current_block it) (current_block_off it) ix) cache B0) as (cache' & cb & off & E' & Vb & HC');
      [done..|by apply (list_elem_of_lookup_2 _ (length A0))|]. rewrite E', bind_Ret. cbn [current_block ti_set unwrap]. rewrite bind_Ret.
    destruct (block_parts A0 B0 (B :: C) HBs) as (Hne & _). destruct (seek_to_last_law cb _ _ Vb Hne) as (cb' & E2 & Vb'). rewrite E2, bind_Ret.
    assert (length (d_entries B0) ≠ 0%nat) as Hl by (by destruct (d_entries B0)).
    pose proof (valid_law _ _ _ Vb') as Hv. cbn in Hv. injection Hv as Hv. rewrite all_entries_app, all_entries_one, length_app, Hv.
    replace (length (all_entries A0) + length (d_entries B0))%nat with (S (length (all_entries A0) + (length (d_entries B0) - 1))) by lia.
    cbn [pos_prev on_entry]. eexists. split; [done|]. split_and!; try done.
    exists A0, B0, (B :: C), (length (d_entries B0) - 1)%nat, cb'. by split_and!.
Qed.

Lemma ti_prev_ok s n :
  ti_view s L (At n) → ∃ s', it_prev s = Ret (s', on_entry (pos_prev (At n))) ∧ ti_view s' L (pos_prev (At n)).
Proof.
  destruct s as [cache it]. intros (_ & HC & Ht & (A & B & C & j & cb & HBs & -> & Hcb & Vb & Vi)). cbn [fst snd] in *.
  cbn [it_prev TableIterator_iterator fst snd]. unfold ti_prev. rewrite Hcb. destruct (prev_law _ _ _ Vb) as (cb' & E & Vb'). cbn in E. rewrite E, bind_Ret.
  destruct j as [|j]; cbn [pos_prev on_entry] in *.
  - rewrite Nat.add_0_r. eapply prev_block_ok; try done. by exists cb', B.
  - rewrite Nat.add_succ_r. eexists. split; [done|]. split_and!; try done. by exists A, B, C, j, cb'.
Qed.

(** ** The contract of iterators *)

(** The keys that [seek] handles. *)
Definition seekable_keys : OrderedCmp (o_cmp o).
Proof.
  refine {| key_ok k := key_ok (o_cmp o) k ∧ gap_free k; ord := ord (o_cmp o) |}.
  - intros a b [Ha _] [Hb _]. by apply cmp_ret.
  - apply ord_refl.
  - apply ord_antisym.
  - apply ord_trans.
  - apply ord_eq_l.
Defined.

Lemma seek_index_seekable to l : seek_index (o_cmp o) (OC := seekable_keys) to l = seek_index (o_cmp o) to l.
Proof. induction l as [|[k v] l IH]; [done|]. cbn. by rewrite IH. Qed.

#[program] Definition TableIterator_forward : ForwardIterator (o_cmp o) (OC := seekable_keys) (Cache Block * TableIterator F) :=
  {| view := ti_view |}.
Next Obligation.
  intros s l i (-> & _ & _ & (A & B & C & j & cb & HBs & -> & _ & Vb & _)). pose proof (view_bound _ _ _ Vb). rewrite (length_L A B C HBs). lia.
Qed.
Next Obligation. intros s l p V Hp. pose proof V as (-> & _). by apply ti_advance_ok. Qed.
Next Obligation. intros s l p V. pose proof V as (-> & _). by apply ti_valid_ok. Qed.
Next Obligation. intros s l p V. pose proof V as (-> & _). cbn. by rewrite (proj1 (ti_valid_ok s p V)). Qed.
Next Obligation.
  intros [cache it] l p (-> & HC & Ht & Hp). cbn. eexists. split; [done|]. split_and!; try done. cbn [fst snd] in *.
  destruct p as [|n|]; [destruct Hp as [_ V]|destruct Hp as (A & B & C & j & cb & _ & _ & _ & _ & V)|destruct Hp as [_ [q V]]]; by eapply reset_pos.
Qed.
Next Obligation.
  intros s l p to V [Hk Hg]. pose proof V as (-> & _). unfold pos_seek. rewrite seek_index_seekable. exact (ti_seek_ok s p to V Hk Hg).
Qed.

Lemma TableIterator_backward : BackwardIterator (o_cmp o) (OC := seekable_keys) (Cache Block * TableIterator F) (FI := TableIterator_forward).
Proof. intros s l i V. pose proof V as (-> & _). by apply ti_prev_ok. Qed.

Lemma table_iter_ok cache : CG cache → ∃ it, table_iter t = Ret it ∧ ti_view (cache, it) L Start.
Proof.
  intros HC. unfold table_iter. destruct (to_index _ HT) as (ib & -> & Hib). destruct (block_iter_ok ib _ Hib) as (ix & -> & V). rewrite bind_Ret.
  eexists. split; [done|]. by split_and!.
Qed.

(** ** Looking keys up *)

(** The key lies below the separator behind the [n]-th entry. *)
Definition below_sep (n : nat) (k : bytes) : Prop :=
  ∀ e s, L !! n = Some e → next_sep (o_cmp o) e.1 (drop (S n) L) s → ord (o_cmp o) k s = Lt.

(** The block that holds the first entry not below a key is the one the index finds. *)
Lemma sought_block n k e :
  n = seek_index (o_cmp o) k L → L !! n = Some e → gap_free k → below_sep n k →
  ∃ A B C, Bs = A ++ B :: C ∧ ix_entries !! seek_index (o_cmp o) k ix_entries = Some (d_sep B, handle_enc (d_handle B))
    ∧ ord (o_cmp o) k (d_sep B) = Lt ∧ key_ok (o_cmp o) (d_sep B)
    ∧ d_entries B !! seek_index (o_cmp o) k (d_entries B) = Some e.
Proof.
  intros Hself Hn Hgap Hsep. destruct (index_seek k) as [[_ Hall]|(A & B & C & HBs & Hi & Hix & Hs & Hks & HA)].
  { rewrite Forall_lookup in Hall. specialize (Hall _ _ Hn). rewrite Hself in Hn. by destruct (seek_index_not_below k L e Hn). }
  destruct (block_parts A B C HBs) as (Hne & Ho & HL & HsB & _). exists A, B, C.
  destruct (seek_in_block k A B C HBs HA Hs) as [[Hj Hk]|(Hj & Hk & [->|Hng])]; [| |done].
  - rewrite <- Hself in Hk. set (j := seek_index (o_cmp o) k (d_entries B)) in *. pose proof Hn as Hn0.
    rewrite Hk, (lookup_all A B C j HBs Hj) in Hn. split_and!; try done.
    destruct (last (d_entries B)) as [a|] eqn:Ea; [|by apply last_None in Ea]. apply last_Some in Ea as [l El]. rewrite El in *.
    rewrite last_key_of_app in Ho by done. change (last_key_of [a]) with a.1 in Ho. rewrite length_app in Hj. cbn [length] in Hj.
    destruct (decide (j = length l)) as [Hjl|Hjl].
    + rewrite Hjl, lookup_app_r, Nat.sub_diag in Hn by lia. cbn in Hn. injection Hn as ->. apply (Hsep e); [done|].
      rewrite HL, Hk, Hjl, drop_app_ge by lia. replace (S _ - _)%nat with (S (length l)) by lia. rewrite <- app_assoc, drop_app_ge by lia.
      replace (S (length l) - length l)%nat with 1%nat by lia. cbn [drop app]. exact (so_next _ _ _ _ Ho).
    + eapply ord_lt_le; [|exact (so_above _ _ _ _ Ho)]. rewrite lookup_app_l in Hn by lia.
      apply StronglySorted_app in HsB as (H & _). pose proof (H e a (list_elem_of_lookup_2 _ _ _ Hn) ltac:(left)) as Hea.
      rewrite Hself in Hn0. apply seek_index_not_below in Hn0. eapply ord_le_lt; [|exact Hea]. by rewrite ord_antisym; destruct (ord (o_cmp o) e.1 k).
  - exfalso. apply lookup_lt_Some in Hn. rewrite Hself, Hk, (length_L A B [] HBs) in Hn. cbn in Hn. lia.
Qed.

(** The filter does not tell the keys apart. *)
Definition same_filtered (k k' : bytes) : Prop := ∀ fl, key_may_match (filter_policy o) k fl = key_may_match (filter_policy o) k' fl.

Lemma table_get_ok n k e cache :
  CG cache → key_ok (o_cmp o) k → n = seek_index (o_cmp o) k L → L !! n = Some e → gap_free k → below_sep n k → same_filtered k e.1 →
  ∃ cache', table_get t k cache = Ret (cache', Ok (Some e)) ∧ CG cache'.
Proof.
  intros HC Hk Hself Hn Hgap Hsep Hfl. destruct (sought_block n k e Hself Hn Hgap Hsep) as (A & B & C & HBs & Hix & Hlt & Hks & HB).
  assert (key_ok (o_cmp o) e.1) as Hke by (pose proof (tf_keys _ _ _ _ TF) as H; rewrite Forall_lookup in H; exact (H _ _ Hn)).
  assert (B ∈ Bs) as HBin by (rewrite HBs; set_solver).
  pose proof (tf_blocks _ _ _ _ TF) as HBl. rewrite Forall_forall in HBl. destruct (HBl B HBin) as (_ & _ & _ & Ho & Hsz).
  destruct (length_handle_small (d_handle B)) as [Hh _]; [lia..|].
  unfold table_get. destruct (to_index _ HT) as (ib & -> & Hib). destruct (block_iter_ok ib _ Hib) as (ix & -> & V). rewrite bind_Ret.
  destruct (seek_law _ _ _ k V Hk) as (ix' & E & V'). cbn in E. rewrite E, bind_Ret. pose proof (current_law _ _ _ V') as Hcur. cbn in Hcur.
  unfold pos_seek in Hcur. rewrite at_or_off_lt in Hcur by (by apply lookup_lt_Some in Hix). rewrite Hcur, bind_Ret. cbn [entry_at]. rewrite Hix.
  rewrite (to_opt _ HT), cmp_ret, bind_Ret, Hlt by done. cbn [is_lt].
  rewrite <- (app_nil_r (handle_enc (d_handle B))), handle_decode, bind_Ret by done. cbn [unwrap]. rewrite bind_Ret. cbn [fst].
  destruct (to_filters _ HT) as (Fl & -> & HFl & Hserve).
  assert (serves (filter_policy o) 8 Fl (bh_offset (d_handle B)) k) as Hsv.
  { destruct (Hserve B e HBin (list_elem_of_lookup_2 _ _ _ HB)) as (fl & H1 & H2 & H3 & H4). exists fl. split_and!; [done..|]. by rewrite Hfl. }
  rewrite (reader_ok (filter_policy o) 8 Fl (bh_offset (d_handle B)) k HFl Ho Hsv), bind_Ret. cbn [negb].
  unfold get_in_block, sbind. destruct (HCG cache B HC HBin) as (cache' & b & -> & Hb & HC'). rewrite bind_Ret.
  destruct (block_iter_ok b _ Hb) as (bi & -> & Vb). rewrite bind_Ret. destruct (seek_law _ _ _ k Vb Hk) as (bi' & E' & Vb'). cbn in E'.
  rewrite E', bind_Ret. pose proof (current_law _ _ _ Vb') as Hcur'. cbn in Hcur'. unfold pos_seek in Hcur'.
  rewrite at_or_off_lt in Hcur' by (by apply lookup_lt_Some in HB). rewrite Hcur', bind_Ret. cbn [entry_at]. rewrite HB. destruct e as [ke v]. cbn [fst] in *.
  rewrite (to_opt _ HT), cmp_ret, bind_Ret by done. pose proof (seek_index_not_below k _ _ HB) as Hge. cbn in Hge.
  destruct (ord (o_cmp o) ke k); cbn [is_ge]; try done; by exists cache'.
Qed.

(** Whatever key of at least 8 bytes is looked up, [get] answers: with the first entry not
    below the key or with nothing. *)
Lemma table_get_cases k cache :
  CG cache → key_ok (o_cmp o) k → (8 ≤ length k)%nat →
  ∃ cache' r, table_get t k cache = Ret (cache', Ok r) ∧ CG cache' ∧ (r = None ∨ is_Some r ∧ r = L !! seek_index (o_cmp o) k L).
Proof.
  intros HC Hk H8. unfold table_get. destruct (to_index _ HT) as (ib & -> & Hib). destruct (block_iter_ok ib _ Hib) as (ix & -> & V). rewrite bind_Ret.
  destruct (seek_law _ _ _ k V Hk) as (ix' & E & V'). cbn in E. rewrite E, bind_Ret. pose proof (current_law _ _ _ V') as Hcur. cbn in Hcur.
  rewrite Hcur, bind_Ret. unfold pos_seek. destruct (index_seek k) as [[Hi _]|(A & B & C & HBs & Hi & Hix & Hs & Hks & HA)].
  { rewrite at_or_off_ge by (rewrite length_index; lia). exists cache, None. auto. }
  rewrite at_or_off_lt by (by apply lookup_lt_Some in Hix). cbn [entry_at]. rewrite Hix, (to_opt _ HT), cmp_ret, bind_Ret by done.
  destruct (is_lt _); [|exists cache, None; auto]. assert (B ∈ Bs) as HBin by (rewrite HBs; set_solver).
  pose proof (tf_blocks _ _ _ _ TF) as HBl. rewrite Forall_forall in HBl. destruct (HBl B HBin) as (_ & _ & _ & Ho & Hsz).
  destruct (length_handle_small (d_handle B)) as [Hh _]; [lia..|].
  rewrite <- (app_nil_r (handle_enc (d_handle B))), handle_decode, bind_Ret by done. cbn [unwrap]. rewrite bind_Ret. cbn [fst].
  destruct (to_filters _ HT) as (Fl & -> & HFl & Hserve). destruct (block_parts A B C HBs) as (Hne & _).
  destruct (d_entries B) as [|e0 rest] eqn:HBe; [done|]. destruct (Hserve B e0 HBin ltac:(rewrite HBe; left)) as (fl & H1 & H2 & H3 & _).
  rewrite (reader_asks (filter_policy o) Fl (bh_offset (d_handle B)) k fl HFl Ho H1 H2). destruct (H3 k H8) as [[] ->]; rewrite bind_Ret; cbn [negb]; [|exists cache, None; auto].
  unfold get_in_block, sbind. destruct (HCG cache B HC HBin) as (cache' & b & -> & Hb & HC'). rewrite bind_Ret.
  destruct (block_iter_ok b _ Hb) as (bi & -> & Vb). rewrite bind_Ret. destruct (seek_law _ _ _ k Vb Hk) as (bi' & E' & Vb'). cbn in E'.
  rewrite E', bind_Ret. pose proof (current_law _ _ _ Vb') as Hcur'. cbn in Hcur'. rewrite Hcur', bind_Ret. unfold pos_seek.
  destruct (seek_in_block k A B C HBs HA Hs) as [[Hj Hk']|(Hj & _)].
  2: { rewrite at_or_off_ge by lia. exists cache', None. auto. }
  rewrite at_or_off_lt by done. cbn [entry_at]. rewrite Hk', (lookup_all A B C _ HBs Hj).
  destruct (lookup_lt_is_Some_2 _ _ Hj) as [[ke v] He]. rewrite He. assert (key_ok (o_cmp o) ke) as Hke.
  { pose proof (tf_keys _ _ _ _ TF) as H. rewrite Forall_lookup in H. apply (H (length (all_entries A) + seek_index (o_cmp o) k (d_entries B))%nat (ke, v)).
    by rewrite (lookup_all A B C _ HBs Hj). }
  rewrite (to_opt _ HT), cmp_ret, bind_Ret by done. pose proof (seek_index_not_below k _ _ He) as Hge. cbn in Hge.
  destruct (ord (o_cmp o) ke k); cbn [is_ge]; try done; eexists cache', _; eauto.
Qed.

(** The index key of a block is not looked for in the block, although it may be stored there. *)
Lemma table_get_sep B cache : B ∈ Bs → table_get t (d_sep B) cache = Ret (cache, Ok None).
Proof.
  intros HB. apply list_elem_of_lookup in HB as [i HB]. unfold table_get.
  assert (ix_entries !! i = Some (d_sep B, handle_enc (d_handle B))) as Hix by (by rewrite lookup_index, HB).
  destruct (to_index _ HT) as (ib & -> & Hib). pose proof Hib as (Es & rs & BL & _).
  assert (key_ok (o_cmp o) (d_sep B)) as Hk by (pose proof (bl_keys _ _ _ BL) as H; rewrite Forall_lookup in H; exact (H _ _ Hix)).
  destruct (block_iter_ok ib _ Hib) as (ix & -> & V). rewrite bind_Ret.
  destruct (seek_law _ _ _ (d_sep B) V Hk) as (ix' & E & V'). cbn in E. rewrite E, bind_Ret. pose proof (current_law _ _ _ V') as Hcur. cbn in Hcur.
  unfold pos_seek in Hcur. rewrite (seek_index_self _ i _ (bl_sorted _ _ _ BL) Hix : seek_index (o_cmp o) (d_sep B) ix_entries = i) in Hcur.
  rewrite at_or_off_lt in Hcur by (by apply lookup_lt_Some in Hix). rewrite Hcur, bind_Ret. cbn [entry_at]. rewrite Hix.
  by rewrite (to_opt _ HT), cmp_ret, bind_Ret, ord_refl by done.
Qed.

End read.

(** A stored key is not in a gap. *)
Lemma stored_gap_free (o : Options) {OC : OrderedCmp (o_cmp o)} L n k v :
  separable (o_cmp o) L → StronglySorted (key_lt (c := o_cmp o)) L → L !! n = Some (k, v) → gap_free o L k.
Proof.
  intros Hsep Hs Hn i a [ke ve] s Ha He Hlt Hge Es. cbn [fst] in *.
  assert (S i = n) as <-.
  { destruct (Nat.lt_trichotomy (S i) n) as [H|[H|H]]; [|done|].
    - exfalso. apply Hge. exact (sorted_lookup_lt _ _ _ _ _ _ Hs He Hn H).
    - exfalso. destruct (decide (n = i)) as [->|]; [rewrite Hn in Ha; simplify_eq; by rewrite ord_refl in Hlt|].
      pose proof (sorted_lookup_lt _ _ _ _ _ _ Hs Hn Ha ltac:(lia)) as H'. unfold key_lt in H'. cbn in H'. rewrite ord_antisym, H' in Hlt. done. }
  rewrite He in Hn. simplify_eq. destruct (Hsep i a Ha) as [s' Ho]. rewrite (drop_S L (k, v) (S i) He) in Ho.
  pose proof (so_next _ _ _ _ Ho) as H1. pose proof (so_below _ _ _ _ Ho) as H2. cbn in H1, H2. congruence.
Qed.

(** ** Tables from building to reading *)

Section theorems.
Context `{IEL : IntegerEncodingLaws} `{CRL : Crc32Laws} `{WR : Write W} {FW : FixedIntWriter W} {RW : ReliableWrite W} {RF : ReliableFixedInt W}.
Context `{RA : RandomAccess F} (debug_bytes : bytes → string).
Context (o : Options) {OC : OrderedCmp (o_cmp o)} (comp : Compressor) (fits : list bytes → Prop) (per_key base : Z) (L : list entry).

(** A table of [L] that was just opened, with the cache it leaves. *)
Definition opens (dst : W) (P : Cache Block → Table F → Prop) : Prop :=
  ∃ tb, build_table o dst L = Ret (tb, Ok (zlen (written (tb_dst tb))))
    ∧ ∀ (f : F) cache, file_holds f (written (tb_dst tb)) → cache_ids cache → c_id cache + 1 < 2 ^ 64 →
      ∃ cache' t, Table_new_raw debug_bytes o f (zlen (written (tb_dst tb))) cache = Ret (cache', Ok t) ∧ P cache' t.

Lemma opens_intro dst P :
  buildable o comp fits per_key base L → writable dst → written dst = [] →
  (∀ f file Bs cache t (CG : Cache Block → Prop), file_holds f file → table_file o L file Bs → table_of o f Bs t → serves_blocks o Bs t CG → CG cache → P cache t) → opens dst P.
Proof.
  intros BA Hwd Hd HP. destruct (build_table_ok o comp fits per_key base L BA dst Hwd Hd) as (tb & Bs & E & TF & _). exists tb. split; [done|].
  intros f cache Hc Hids Hid.
  destruct (table_new_ok o L f _ Bs Hc TF debug_bytes cache Hid) as (t & Et & HT & Hti); [by destruct Hids|].
  eexists _, t. split; [exact Et|]. eapply (HP f _ Bs _ t (cache_good o (written (tb_dst tb)) Bs t)); [exact Hc|exact TF|exact HT| |by apply cache_good_new].
  intros cache' B HG HB. by apply (read_block_ok o L f _ Bs Hc TF).
Qed.

(** C31: a table built from sorted entries, opened again from the file that was written, with
    a block cache that other tables may have filled, iterates over exactly these entries.
    ([buildable]: among other things between any two entries there is a separator, and sizes
    stay in the range of the format.) *)
Theorem table_roundtrip dst :
  buildable o comp fits per_key base L → writable dst → written dst = [] →
  opens dst (λ cache t, ∃ it s, table_iter t = Ret it ∧ collect (S (length L)) (cache, it) = Ret (s, L)).
Proof.
  intros BA Hwd Hd. eapply opens_intro; [done..|]. intros f file Bs cache t CG Hf TF HT HCG HC.
  destruct (table_iter_ok o L f Bs t HT CG cache HC) as (it & E & V). exists it.
  destruct (collect_all (c := o_cmp o) (OC := seekable_keys o L) (FI := TableIterator_forward o L f file Bs Hf TF t HT CG HCG) _ _ (S (length L)) V) as (s & Es & _); [lia|].
  by exists s.
Qed.


(** [seek] finds the first entry not below the key and iteration goes on from there,
    unless the key lies between an entry and the separator behind it; and from any entry
    [prev] visits the entries before it in reverse order. *)
Theorem table_seek_prev dst :
  buildable o comp fits per_key base L → writable dst → written dst = [] →
  opens dst (λ cache t, ∃ it, table_iter t = Ret it ∧ ∀ key, key_ok (o_cmp o) key → gap_free o L key →
    let n := seek_index (o_cmp o) key L in
    ∃ s s', it_seek key (cache, it) = Ret s ∧ it_current s = Ret (L !! n)
      ∧ ((n < length L)%nat → collect (S (length L)) s = Ret (s', drop (S n) L)
                              ∧ collect_back (S (S (length L))) s = Ret (reverse (take (S n) L)))).
Proof.
  intros BA Hwd Hd. eapply opens_intro; [done..|]. intros f file Bs cache t CG Hf TF HT HCG HC.
  destruct (table_iter_ok o L f Bs t HT CG cache HC) as (it & E & V). exists it. split; [done|]. intros key Hk Hg n.
  destruct (ti_seek_ok o L f file Bs Hf TF t HT CG HCG _ _ key V Hk Hg) as (s & Es & Vs). unfold pos_seek in Vs. fold n in Vs.
  pose proof (ti_valid_ok o L file Bs TF t CG s _ Vs) as [_ Hcur]. exists s. destruct (decide (n < length L)%nat) as [Hn|Hn].
  - rewrite at_or_off_lt in Vs, Hcur by done.
    destruct (collect_from (c := o_cmp o) (OC := seekable_keys o L) (FI := TableIterator_forward o L f file Bs Hf TF t HT CG HCG) s L (At n) (S n) Vs
      ltac:(done) eq_refl ltac:(lia) (S (length L)) ltac:(lia)) as (s' & Ec & _).
    exists s'. split_and!; [done..|]. intros _. split; [done|].
    apply (collect_back_ok (c := o_cmp o) (OC := seekable_keys o L) (BI := TableIterator_backward o L f file Bs Hf TF t HT CG HCG) s L n _ Vs). lia.
  - exists s. split_and!; [done| |lia]. rewrite at_or_off_ge in Hcur by lia. rewrite lookup_ge_None_2 by lia. exact Hcur.
Qed.

End theorems.

(** ** Witnesses *)

Module TestTable.
#[local] Existing Instance Reference.ref_encoding.
#[local] Existing Instance Reference.ref_encoding_laws.
#[local] Existing Instance Reference.ref_crc.
#[local] Existing Instance Reference.ref_crc_laws.

(** Files and writers that are byte vectors. *)
#[export] Instance bytes_file : RandomAccess bytes := λ f off n, Ret (Ok (take (Z.to_nat n) (drop (Z.to_nat off) f))).
Lemma bytes_hold (f : bytes) : file_holds f f.
Proof. intros off n _ _. reflexivity. Qed.
#[export] Instance vec_fixedint : FixedIntWriter bytes := λ k n w, Ret (w ++ encode_fixed k n, Ok k).
#[export] Instance vec_fixedint_reliable : ReliableFixedInt bytes.
Proof. intros k n w _ _. by eexists. Qed.

(** The options of the tests over internal keys, with blocks of the given size. *)
Definition opts (size : Z) : Options :=
  let o := TestOptions.opts 16 in
  {| o_cmp := InternalKeyCmp DefaultCmp; create_if_missing := true; error_if_exists := false;
     paranoid_checks := false; write_buffer_size := write_buffer_size o; max_open_files := max_open_files o;
     max_file_size := max_file_size o; o_block_size := size; block_restart_interval := 2;
     reuse_logs := true; reuse_manifest := true; o_compressor := 0; compressor_list := compressor_list o;
     filter_policy := InternalFilterPolicy (Bloom (BloomPolicy_new 10)) |}.

(** Two entries of [abc], then [abf], [b] and [ba]. *)
Definition L : list entry :=
  [(ikey [97; 98; 99] 5 TypeValue, [1]); (ikey [97; 98; 99] 3 TypeDeletion, []); (ikey [97; 98; 102] 4 TypeValue, [2; 3]);
   (ikey [98] 7 TypeValue, [4]); (ikey [98; 97] 2 TypeValue, [])].

Lemma L_internal : internal_entries L.
Proof.
  split.
  - repeat apply Forall_cons_2; try apply Forall_nil_2; eexists _, _, _; (split; [reflexivity|split_and!; by_decide || done]).
  - intros [|[|[|[|[|i]]]]] a b Ha Hb; cbn in Ha, Hb; simplify_eq; by_decide.
  - repeat constructor.
Qed.

Definition fits (ks : list bytes) : Prop :=
  Forall (λ k, 8 ≤ length k)%nat ks ∧ bloom_fits (BloomPolicy_new 10) ((λ k, take (length k - 8) k) <$> ks).

Lemma small_buildable l :
  internal_entries l → Forall (block_entry_ok (c := InternalKeyCmp DefaultCmp)) l → (length l ≤ 100)%nat → weight 100 l < 2 ^ 20 →
  buildable (opts 20) NoneCompressor fits 10 10 l.
Proof.
  intros HI He Hl Hw. split; try done.
  - apply none_good.
  - apply internal_no_fn, bloom_no_fn, bloom_new_wf. lia.
  - intros q p r E. split.
    + assert (Forall (λ k, 8 ≤ length k)%nat l.*1) as H.
      { apply Forall_fmap. eapply Forall_impl; [exact (ie_keys _ HI)|]. intros e (k & s & ty & Ek & _). cbn. rewrite Ek, length_ikey. lia. }
      rewrite E in H. by apply Forall_app in H as [_ [H _]%Forall_app].
    + unfold bloom_fits. rewrite length_fmap. apply (f_equal length) in E. rewrite !length_app, length_fmap in E. change (bits_per_key (BloomPolicy_new 10)) with 10. lia.
  - by apply internal_sized, (bloom_sized (BloomPolicy_new 10)).
  - exact (ie_sorted _ HI).
  - exact (internal_separable l HI).
  - lia.
  - assert (weight 100 l / 1024 ≤ 1024) by (apply Z.lt_le_incl, Z.div_lt_upper_bound; lia). lia.
Qed.

Lemma L_buildable : buildable (opts 20) NoneCompressor fits 10 10 L.
Proof.
  apply small_buildable; [exact L_internal| |by_decide|by_decide].
  repeat apply Forall_cons_2; try apply Forall_nil_2; (split; [done|split; [split_and!; by_decide || exact I|by_decide]]).
Qed.

Lemma key_seekable : gap_free (opts 20) L (ikey [98] 7 TypeValue).
Proof. exact (stored_gap_free (opts 20) L 3 _ [4] (internal_separable _ L_internal) (ie_sorted _ L_internal) eq_refl). Qed.

Lemma lookup_gap_free : gap_free (opts 20) L (ikey [97; 98; 102] 9 TypeValue).
Proof.
  intros i a e s Ha He Hlt Hge Hs. destruct i as [|[|[|[|[|i]]]]]; cbn in Ha, He; simplify_eq; vm_compute in Hs; simplify_eq; try reflexivity;
    vm_compute in Hlt, Hge; congruence.
Qed.

Definition no_debug (_ : bytes) : string := "".

(** A new cache, and the table opened with it after building. *)
Definition opened (o : Options) (l : list entry) : exec (Cache Block * Result (Table bytes)) :=
  cache ← Cache_new 100;
  '(tb, r) ← build_table o ([] : bytes) l;
  match r with Ok size => Table_new_raw no_debug o (tb_dst tb) size cache | Err e => Ret (cache, Err e) end.
Definition get_in (o : Options) (l : list entry) (k : bytes) : exec (Result (option entry)) :=
  '(cache, r) ← opened o l;
  match r with Ok t => '(_, r) ← table_get t k cache; Ret r | Err e => Ret (Err e) end.
Lemma cache_empty : ∃ cache : Cache Block, Cache_new 100 = Ret cache ∧ cache_ids cache ∧ c_id cache = 0.
Proof.
  eexists. split; [reflexivity|]. split; [|done]. split; [cbn; lia|]. destruct (cache_new_inv (T := Block) 100 ltac:(lia)) as (c & E & I & _).
  injection E as <-. by exists [].
Qed.
End TestTable.

#[local] Existing Instances TestTable.bytes_file TestTable.vec_fixedint TestTable.vec_fixedint_reliable.

Lemma table_roundtrip_witness :
  let IE := Reference.ref_encoding in let CR := Reference.ref_crc in
  ∃ dst t (cache : Cache Block) it s, build_table (TestTable.opts 20) ([] : bytes) TestTable.L = Ret (dst, Ok (zlen (tb_dst dst)))
    ∧ table_iter (F := bytes) t = Ret it ∧ collect 6 (cache, it) = Ret (s, TestTable.L).
Proof.
  intros IE CR. destruct (table_roundtrip (IEL := Reference.ref_encoding_laws) (CRL := Reference.ref_crc_laws) (RW := vec_reliable) (F := bytes) TestTable.no_debug
    (TestTable.opts 20) NoneCompressor TestTable.fits 10 10 TestTable.L ([] : bytes) TestTable.L_buildable I eq_refl) as (tb & E & H).
  destruct TestTable.cache_empty as (cache & _ & Hids & Hid).
  destruct (H (tb_dst tb) cache (TestTable.bytes_hold _) Hids ltac:(rewrite Hid; reflexivity)) as (cache' & t & _ & it & s & Ei & Es).
  exists tb, t, cache', it, s. split; [exact E|]. split; [exact Ei|exact Es].
Defined.


Lemma table_seek_prev_witness :
  let IE := Reference.ref_encoding in let CR := Reference.ref_crc in
  ∃ (it : Cache Block * TableIterator bytes) s s', it_seek (ikey [98] 7 TypeValue) it = Ret s ∧ it_current s = Ret (Some (ikey [98] 7 TypeValue, [4]))
    ∧ collect 6 s = Ret (s', [(ikey [98; 97] 2 TypeValue, [])])
    ∧ collect_back 7 s = Ret (reverse (take 4 TestTable.L)).
Proof.
  intros IE CR. destruct (table_seek_prev (IEL := Reference.ref_encoding_laws) (CRL := Reference.ref_crc_laws) (RW := vec_reliable) (F := bytes) TestTable.no_debug
    (TestTable.opts 20) NoneCompressor TestTable.fits 10 10 TestTable.L ([] : bytes) TestTable.L_buildable I eq_refl) as (tb & E & H).
  destruct TestTable.cache_empty as (cache & _ & Hids & Hid).
  destruct (H (tb_dst tb) cache (TestTable.bytes_hold _) Hids ltac:(rewrite Hid; reflexivity)) as (cache' & t & _ & it & _ & Hseek).
  destruct (Hseek (ikey [98] 7 TypeValue)) as (s & s' & E1 & E2 & E3).
  - change (ikey_ok (u := DefaultCmp) (ikey [98] 7 TypeValue)). split_and!; by_decide || exact I.
  - exact TestTable.key_seekable.
  - exists (cache', it), s, s'. destruct E3 as [E3 E4]; [by_decide|]. split_and!; [exact E1|exact E2|exact E3|exact E4].
Defined.

(** Where [Table::get] misses a stored entry: the first entry of [abc] is the last of its
    block, and the separator of two internal keys with the same user key is the first of
    them, so the key looked up is not below the index key. *)
Theorem table_get_misses_last :
  let IE := Reference.ref_encoding in let CR := Reference.ref_crc in
  TestTable.get_in (TestTable.opts 20) TestTable.L (ikey [97; 98; 99] 5 TypeValue) = Ret (Ok None).
Proof. vm_compute. reflexivity. Qed.

(** Where [TableIterator::seek] goes wrong: behind the entry of [abc] at 3 and below the
    separator ["abd"] that closes its block, it stays in this block, at its end, instead of
    going to [abf] in the next one; and [advance] then shows the block's entries again. *)
Theorem table_seek_gap_ends :
  let IE := Reference.ref_encoding in let CR := Reference.ref_crc in
  (let? cache, t := TestTable.opened (TestTable.opts 20) TestTable.L in
   it ← table_iter t;
   s ← it_seek (ikey [97; 98; 99] 1 TypeValue) (cache, it);
   v ← it_valid s;
   '(s, b) ← it_advance s;
   kv ← it_current s;
   Ret (cache, Ok (v, b, kv))) ≫= (λ r, Ret r.2)
  = Ret (Ok (false, true, Some (ikey [97; 98; 99] 3 TypeDeletion, []))).
Proof. vm_compute. reflexivity. Qed.
