(* ===== verification/TableCache.v ===== *)
(** * TableCache: [src/table_cache.rs]

    The cache of open tables.  A table cache works on shared state: the environment and the
    block cache of its options.  They are a record with the table cache, which the operations
    pass along. *)

From S2P Require Import Prelude Encoding Error Io Env MemEnv Types Cmp KeyTypes Log Iterator Filter FilterBlock Options BlockBuilder Block Cache TableBuilder Table TableFile TableRead.

Definition filenum_to_key {IE : IntegerEncoding} (num : Z) : CacheKey := encode_fixed 8 num ++ replicate 8 0.

Record TableCache (F : Type) := mkTableCache {
  tc_dbname : string;
  tc_cache : Cache (Table F);
  tc_opts : Options;
}.
Arguments mkTableCache {F}.
Arguments tc_dbname {F}.
Arguments tc_cache {F}.
Arguments tc_opts {F}.

(** The table cache with the environment and the block cache it shares with others. *)
Record Storage (E F : Type) := mkStorage {
  st_env : E;
  st_blocks : Cache Block;
  st_tables : TableCache F;
}.
Arguments mkStorage {E F}.
Arguments st_env {E F}.
Arguments st_blocks {E F}.
Arguments st_tables {E F}.

Section table_cache.
Context {IE : IntegerEncoding} {CR : Crc32} `{EN : Env E} (debug_bytes : bytes → string).
Abbreviation Storage := (Storage E ra_file) (only parsing).
Abbreviation Table := (Table ra_file) (only parsing).

Definition with_blocks (b : Cache Block) (st : Storage) : Storage :=
  {| st_env := st_env st; st_blocks := b; st_tables := st_tables st |}.
Definition with_env (e : E) (st : Storage) : Storage :=
  {| st_env := e; st_blocks := st_blocks st; st_tables := st_tables st |}.
Definition with_cache (c : Cache Table) (st : Storage) : Storage :=
  {| st_env := st_env st; st_blocks := st_blocks st;
     st_tables := {| tc_dbname := tc_dbname (st_tables st); tc_cache := c; tc_opts := tc_opts (st_tables st) |} |}.

Definition TableCache_new (db : string) (opt : Options) (entries : Z) : exec (TableCache ra_file) :=
  c ← Cache_new entries;
  Ret {| tc_dbname := db; tc_cache := c; tc_opts := opt |}.

Definition open_table (file_num : Z) (st : Storage) : exec (Storage * Result Table) :=
  path ← table_file_name (tc_dbname (st_tables st)) file_num;
  sz ← env_size_of path (st_env st);
  match sz with
  | Err e => Ret (st, Err e)
  | Ok file_size =>
      if file_size =? 0 then Ret (st, err InvalidData "file is empty")
      else
        '(e, file) ← env_open_random_access_file path (st_env st);
        let st := with_env e st in
        match file with
        | Err e => Ret (st, Err e)
        | Ok file =>
            '(b, table) ← Table_new (RA := ra_read (st_env st)) debug_bytes (tc_opts (st_tables st)) file file_size (st_blocks st);
            let st := with_blocks b st in
            match table with
            | Err e => Ret (st, Err e)
            | Ok table =>
                c ← cache_insert (filenum_to_key file_num) table (tc_cache (st_tables st));
                Ret (with_cache c st, Ok table)
            end
        end
  end.

Definition get_table (file_num : Z) (st : Storage) : exec (Storage * Result Table) :=
  '(c, hit) ← cache_get (filenum_to_key file_num) (tc_cache (st_tables st));
  let st := with_cache c st in
  match hit with
  | Some t => Ret (st, Ok t)
  | None => open_table file_num st
  end.

Definition tc_get (file_num : Z) (key : bytes) (st : Storage) : exec (Storage * Result (option (bytes * bytes))) :=
  let? st, tbl := get_table file_num st in
  '(b, r) ← table_get (RA := ra_read (st_env st)) tbl key (st_blocks st);
  Ret (with_blocks b st, r).

Definition evict (file_num : Z) (st : Storage) : exec (Storage * Result unit) :=
  '(c, r) ← cache_remove (filenum_to_key file_num) (tc_cache (st_tables st));
  Ret (with_cache c st, match r with Some _ => Ok () | None => err NotFound "table not present in cache" end).

End table_cache.

(** ** Storages that hold tables *)

(** A table file: its handle, its bytes and what is in it. *)
Record tfile (F : Type) := mkTfile { tfl_file : F; tfl_bytes : bytes; tfl_list : list entry; tfl_blocks : list dblock }.
Arguments mkTfile {F}.
Arguments tfl_file {F}.
Arguments tfl_bytes {F}.
Arguments tfl_list {F}.
Arguments tfl_blocks {F}.

Section storage.
Context `{IEL : IntegerEncodingLaws} `{CRL : Crc32Laws} `{EN : Env E} (debug_bytes : bytes → string).
Context (e0 : E) (db : string) (opts : Options).
Abbreviation o := (with_internal_keys opts) (only parsing).
Context {OC : OrderedCmp (o_cmp o)} (T : gmap Z (tfile ra_file)).
#[local] Instance RA0 : RandomAccess ra_file := ra_read e0.
Abbreviation Table := (Table ra_file) (only parsing).
Implicit Types (st : Storage E ra_file) (ids : gmap Z Z) (tf : tfile ra_file).

(** The environment has these tables. *)
Record files_in_env : Prop := {
  fe_num num tf : T !! num = Some tf → 0 < num < 2 ^ 64;
  fe_table num tf : T !! num = Some tf → file_holds (tfl_file tf) (tfl_bytes tf) ∧ table_file o (tfl_list tf) (tfl_bytes tf) (tfl_blocks tf);
  fe_open num tf path : T !! num = Some tf → table_file_name db num = Ret path →
    env_size_of path e0 = Ret (Ok (zlen (tfl_bytes tf))) ∧ env_open_random_access_file path e0 = Ret (e0, Ok (tfl_file tf));
}.

(** [ids] are the cache ids given out to tables, with the files they were given out for. *)
Definition table_for ids (num : Z) (tf : tfile ra_file) (t : Table) : Prop :=
  T !! num = Some tf ∧ table_of o (tfl_file tf) (tfl_blocks tf) t ∧ ids !! t_cache_id t = Some num.

Record blocks_ok ids (cache : Cache Block) : Prop := {
  bk_id : 0 ≤ c_id cache;
  bk_ids id num : ids !! id = Some num → 0 ≤ id ≤ c_id cache ∧ id < 2 ^ 64;
  bk_cache : ∃ C, cache_inv cache C
    ∧ (∀ kv, kv ∈ C → ∃ id off, kv.1 = encode_fixed 8 id ++ encode_fixed 8 off ∧ 0 ≤ id ≤ c_id cache ∧ id < 2 ^ 64)
    ∧ ∀ num tf t B blk, table_for ids num tf t → B ∈ tfl_blocks tf → (block_cache_handle t (bh_offset (d_handle B)), blk) ∈ C →
        ∃ b, stored o (tfl_bytes tf) (d_handle B) b ∧ blk = {| blk_contents := b; blk_opt := o |};
}.

Record storage_ok ids st : Prop := {
  sk_env : st_env st = e0;
  sk_db : tc_dbname (st_tables st) = db;
  sk_opts : tc_opts (st_tables st) = opts;
  sk_blocks : blocks_ok ids (st_blocks st);
  sk_tables : ∃ C, cache_inv (tc_cache (st_tables st)) C
    ∧ (∀ key t, (key, t) ∈ C → ∃ num tf, key = filenum_to_key num ∧ table_for ids num tf t)
    ∧ zlen C ≤ Z.of_nat (base.size T) ≤ c_cap (tc_cache (st_tables st))
    ∧ c_id (st_blocks st) + (Z.of_nat (base.size T) - zlen C) < 2 ^ 64;
}.

Context (FE : files_in_env).

Lemma filenum_to_key_inj a b : is_u 64 a → is_u 64 b → filenum_to_key a = filenum_to_key b → a = b.
Proof.
  intros Ha Hb E'. unfold filenum_to_key in E'. apply app_inj_1 in E' as [E' _]; [|by rewrite !length_encode_fixed_nat by lia].
  apply (encode_fixed_inj 8 a b); (lia || done).
Qed.

Lemma table_file_name_ok num : 0 < num → ∃ path, table_file_name db num = Ret path.
Proof. intros H. unfold table_file_name. ztest. by eexists. Qed.

Lemma table_file_size L file Bs : table_file o L file Bs → 0 < zlen file.
Proof.
  intros TF. destruct (tf_footer _ _ _ _ TF) as (pre & fo & _ & _ & _ & -> & Hfo & _). rewrite length_app. pose proof (length_footer fo Hfo) as Hl. change FULL_FOOTER_LENGTH with 48 in Hl. lia.
Qed.

(** Reading a block of an open table. *)
Lemma read_block_world ids num tf t n :
  table_for ids num tf t → serves_blocks o (tfl_blocks tf) t (λ cache, blocks_ok ids cache ∧ c_id cache = n).
Proof.
  intros HT cache B [[Hid0 Hids (C & HC & Hkeys & Hgood)] <-] HB. pose proof HT as (Hnum & Hof & Hti). destruct (fe_table FE _ _ Hnum) as [Hf TF].
  destruct (read_block_effect o (tfl_list tf) (tfl_file tf) (tfl_bytes tf) (tfl_blocks tf) Hf TF t cache C B Hof HC HB)
    as (cache' & C' & b & E' & Hb & Hst & HC' & Hid' & Hin); [by intros; eapply Hgood|].
  exists cache', b. split_and!; [done..| |done]. destruct (Hids _ _ Hti) as [Hi1 Hi2].
  pose proof (tf_blocks _ _ _ _ TF) as HBs. rewrite Forall_forall in HBs. destruct (HBs B HB) as (_ & _ & _ & Ho & _).
  split; rewrite ?Hid'; [done..|]. exists C'. split; [done|]. split.
  - intros kv [Hkv| ->]%Hin; [by apply Hkeys|]. eexists _, _. split; [reflexivity|]. done.
  - intros num' tf' t' B' blk HT' HB' [Hkv|[= E1 ->]]%Hin; [by eapply Hgood|]. pose proof HT' as (Hnum' & Hof' & Hti').
    destruct (fe_table FE _ _ Hnum') as [Hf' TF']. pose proof (tf_blocks _ _ _ _ TF') as HBs'. rewrite Forall_forall in HBs'.
    destruct (HBs' B' HB') as (_ & _ & _ & Ho' & _).
    destruct (handle_inj o (tfl_list tf) (tfl_bytes tf) (tfl_blocks tf) TF t t' B B' HB (to_id _ _ _ _ Hof) (to_id _ _ _ _ Hof') ltac:(lia) E1) as [Ei Eo].
    assert (num' = num) as -> by congruence. assert (tf' = tf) as -> by congruence.
    rewrite (NoDup_fmap_eq _ _ _ _ (tf_distinct _ _ _ _ TF) HB' HB Eo). by exists b.
Qed.

(** Opening a table. *)
Lemma open_new ids cache num tf :
  blocks_ok ids cache → T !! num = Some tf → c_id cache + 1 < 2 ^ 64 →
  ∃ cache' t, Table_new debug_bytes opts (tfl_file tf) (zlen (tfl_bytes tf)) cache = Ret (cache', Ok t)
    ∧ ids !! t_cache_id t = None ∧ c_id cache' = c_id cache + 1
    ∧ table_for (<[t_cache_id t := num]> ids) num tf t ∧ blocks_ok (<[t_cache_id t := num]> ids) cache'.
Proof.
  intros [Hid0 Hids (C & HC & Hkeys & Hgood)] Hnum Hlt. destruct (fe_table FE _ _ Hnum) as [Hf TF].
  destruct (table_new_ok o (tfl_list tf) (tfl_file tf) (tfl_bytes tf) (tfl_blocks tf) Hf TF debug_bytes cache Hlt Hid0) as (t & E' & HT & Hti).
  eexists _, t. split; [exact E'|]. assert (ids !! t_cache_id t = None) as Hnone.
  { apply eq_None_not_Some. intros [n Hn]. apply Hids in Hn. lia. }
  split; [done|]. split; [done|]. split; [split_and!; [done..|]; by rewrite lookup_insert_eq|].
  split; [cbn; lia| |].
  - intros id n. cbn. rewrite lookup_insert_Some. intros [[<- <-]|[_ H%Hids]]; rewrite ?Hti; lia.
  - exists C. split; [exact HC|]. split.
    + intros kv Hkv. destruct (Hkeys kv Hkv) as (id & off & -> & Hr & Hr'). eexists id, off. cbn. split; [done|lia].
    + intros n tf' t' B blk (Hn & Hof & Ht') HB Hin. apply lookup_insert_Some in Ht' as [[Et <-]|[Hne Ht']]; [|by apply (Hgood n tf' t' B blk)].
      destruct (Hkeys _ Hin) as (id & off & E1 & Hr & Hr'). cbn in E1. unfold block_cache_handle in E1.
      apply app_inj_1 in E1 as [E1 _]; [|by rewrite !length_encode_fixed_nat by lia].
      apply encode_fixed_inj in E1; [lia|lia|exact (to_id _ _ _ _ Hof)|unfold is_u; lia].
Qed.

Lemma table_for_mono ids ids' num tf t : ids ⊆ ids' → table_for ids num tf t → table_for ids' num tf t.
Proof. intros Hs (H1 & H2 & H3). split_and!; [done..|]. by eapply lookup_weaken. Qed.

(** Different keys are those of different files. *)
Lemma keys_files (ks : list CacheKey) :
  NoDup ks → Forall (λ k, ∃ num, k = filenum_to_key num ∧ is_Some (T !! num)) ks → zlen ks ≤ Z.of_nat (base.size T).
Proof.
  intros Hnd Hks. assert (∃ ns : list Z, ks = filenum_to_key <$> ns ∧ Forall (λ n, n ∈ dom T) ns) as (ns & -> & Hns).
  { clear Hnd. induction Hks as [|k ks (n & -> & Hn) Hks (ns & -> & Hns)]; [by exists []|]. exists (n :: ns). split; [done|].
    constructor; [by apply elem_of_dom|done]. }
  assert (NoDup ns) as Hn by (by eapply NoDup_fmap_1). rewrite length_fmap.
  rewrite <- size_dom, <- (size_list_to_set (C := gset Z)) by done. apply inj_le, subseteq_size. intros x Hx.
  apply elem_of_list_to_set in Hx. rewrite Forall_forall in Hns. by apply Hns.
Qed.

Lemma get_table_ok ids st num tf :
  storage_ok ids st → T !! num = Some tf →
  ∃ st' t ids', get_table debug_bytes num st = Ret (st', Ok t) ∧ ids ⊆ ids' ∧ storage_ok ids' st' ∧ table_for ids' num tf t.
Proof.
  intros [He Hdb Hop Hbl (C & HC & Htab & Hsz & Hbud)] Hnum. pose proof (fe_num FE _ _ Hnum) as Hrange. unfold get_table.
  destruct (decide (filenum_to_key num ∈ C.*1)) as [Hin|Hnin].
  - apply list_elem_of_fmap in Hin as ([k t] & Ek & Hin). cbn in Ek. rewrite <- Ek in Hin. destruct (Htab _ _ Hin) as (n & tf' & En & HT).
    pose proof HT as (Hn & _). pose proof (fe_num FE _ _ Hn). apply filenum_to_key_inj in En as <-; [|unfold is_u; lia..].
    assert (tf' = tf) as -> by congruence. apply list_elem_of_split in Hin as (C1 & C2 & ->).
    destruct (cache_get_hit _ _ _ _ _ HC) as (c' & -> & HC' & Hcap & _). rewrite bind_Ret. eexists _, t, ids. split; [reflexivity|].
    split_and!; [done| |done]. split; try done. eexists. split; [exact HC'|]. rewrite length_app in *. cbn [length] in *. rewrite length_app in *.
    split_and!; [|cbn; lia..]. intros key t'. rewrite elem_of_cons, elem_of_app. intros H'. apply Htab. rewrite elem_of_app, elem_of_cons. tauto.
  - rewrite (cache_get_miss _ _ _ HC Hnin), bind_Ret. unfold open_table. cbn [st_tables with_cache st_env tc_dbname]. rewrite Hdb, He.
    destruct (table_file_name_ok num ltac:(lia)) as [path Hp]. rewrite Hp, bind_Ret. destruct (fe_open FE _ _ _ Hnum Hp) as [-> ->]. rewrite bind_Ret.
    destruct (fe_table FE _ _ Hnum) as [_ TF]. pose proof (table_file_size _ _ _ TF). ztest. rewrite bind_Ret.
    cbn [st_tables with_cache with_env st_env st_blocks tc_opts]. rewrite Hop.
    assert (NoDup (filenum_to_key num :: C.*1)) as Hnd by (constructor; [done|by destruct HC as (_ & _ & _ & _ & ? & _)]).
    assert (zlen C + 1 ≤ Z.of_nat (base.size T)) as Hroom.
    { pose proof (keys_files _ Hnd) as H'. cbn [length] in H'. rewrite length_fmap in H'. cut (Z.of_nat (S (length C)) ≤ Z.of_nat (base.size T)); [lia|].
      apply H'. constructor; [exists num; split; [done|by eexists]|]. apply Forall_forall. intros k ([k' t] & -> & Hk)%list_elem_of_fmap.
      destruct (Htab _ _ Hk) as (n & tf' & -> & (Hn & _)). exists n. split; [done|by eexists]. }
    destruct (open_new ids (st_blocks st) num tf Hbl Hnum ltac:(lia)) as (b' & t & E' & Hnone & Hid & HT & Hbl'). cbn. unfold RA0 in E'. rewrite E', bind_Ret.
    destruct (cache_insert_ok _ _ (filenum_to_key num) t HC Hnin) as (c' & Ec & HC' & Hcap & _). cbn. rewrite Ec, bind_Ret.
    eexists _, t, (<[t_cache_id t := num]> ids). split; [reflexivity|]. split; [by apply insert_subseteq|]. split; [|done].
    split; try done. eexists. split; [exact HC'|]. unfold lru_put. cbn [st_tables with_cache with_blocks with_env tc_cache st_blocks].
    rewrite (take_ge C) by lia. split_and!.
    + intros key t' [[= -> ->]|Hin]%elem_of_cons; [by eexists num, tf|]. destruct (Htab _ _ Hin) as (n & tf' & -> & HT'). exists n, tf'.
      split; [done|]. eapply table_for_mono; [by apply insert_subseteq|done].
    + cbn [length]. lia.
    + lia.
    + cbn [length]. lia.
Qed.

(** What [get] finds. *)
Record sought (num : Z) (k : bytes) (e : entry) : Prop := {
  so_file : ∃ tf, T !! num = Some tf
    ∧ tfl_list tf !! seek_index (o_cmp o) k (tfl_list tf) = Some e ∧ gap_free o (tfl_list tf) k
    ∧ below_sep o (tfl_list tf) (seek_index (o_cmp o) k (tfl_list tf)) k;
  so_ok : key_ok (o_cmp o) k;
  so_filter : same_filtered o k e.1;
}.

(** A storage as it changes while one of its tables is read. *)
Definition same_storage ids st (b : Cache Block) : Prop := storage_ok ids (with_blocks b st).

Lemma storage_serves ids st num tf t :
  table_for ids num tf t → serves_blocks o (tfl_blocks tf) t (same_storage ids st).
Proof.
  intros HT b B Hst HB. destruct (read_block_world ids num tf t (c_id b) HT b B) as (b' & blk & E' & Hblk & Hb' & Hid); [split; [apply Hst|done]|done|].
  exists b', blk. split_and!; [done..|]. destruct Hst as [H1 H2 H3 H4 H5]. split; try done. cbn in *. by rewrite Hid.
Qed.

Lemma tc_get_ok ids st num k e :
  storage_ok ids st → sought num k e →
  ∃ st' ids', tc_get debug_bytes num k st = Ret (st', Ok (Some e)) ∧ ids ⊆ ids' ∧ storage_ok ids' st'.
Proof.
  intros Hst [(tf & Hnum & Hn & Hg & Hb) Hk Hfl]. destruct (get_table_ok ids st num tf Hst Hnum) as (st1 & t & ids' & E' & Hids & Hst1 & HT).
  unfold tc_get, sbind. rewrite E', bind_Ret. destruct (fe_table FE _ _ Hnum) as [Hf TF]. rewrite (sk_env _ _ Hst1).
  destruct (table_get_ok o (tfl_list tf) (tfl_file tf) (tfl_bytes tf) (tfl_blocks tf) Hf TF t (proj1 (proj2 HT))
    (same_storage ids' st1) (storage_serves ids' st1 num tf t HT) (seek_index (o_cmp o) k (tfl_list tf)) k e (st_blocks st1)) as (b' & Eg & Hst2); try done.
  { unfold same_storage. by destruct st1. }
  unfold RA0 in Eg. rewrite Eg, bind_Ret. by eexists _, ids'.
Qed.

(** Whatever is looked up in a table, [get] answers: with the first entry not below the key or
    with nothing. *)
Lemma tc_get_cases ids st num tf k :
  storage_ok ids st → T !! num = Some tf → key_ok (o_cmp o) k → (8 ≤ length k)%nat →
  ∃ st' ids' r, tc_get debug_bytes num k st = Ret (st', Ok r) ∧ storage_ok ids' st'
    ∧ (r = None ∨ is_Some r ∧ r = tfl_list tf !! seek_index (o_cmp o) k (tfl_list tf)).
Proof.
  intros Hst Hnum Hk H8. destruct (get_table_ok ids st num tf Hst Hnum) as (st1 & t & ids' & E' & Hids & Hst1 & HT).
  unfold tc_get, sbind. rewrite E', bind_Ret. destruct (fe_table FE _ _ Hnum) as [Hf TF]. rewrite (sk_env _ _ Hst1).
  destruct (table_get_cases o (tfl_list tf) (tfl_file tf) (tfl_bytes tf) (tfl_blocks tf) Hf TF t (proj1 (proj2 HT))
    (same_storage ids' st1) (storage_serves ids' st1 num tf t HT) k (st_blocks st1)) as (b' & r & Eg & Hst2 & Hr); try done.
  { unfold same_storage. by destruct st1. }
  unfold RA0 in Eg. rewrite Eg, bind_Ret. by eexists _, ids', r.
Qed.

Fixpoint gets (reqs : list (Z * bytes)) st : exec (Storage E ra_file * list (Result (option entry))) :=
  match reqs with
  | [] => Ret (st, [])
  | (num, k) :: reqs =>
      '(st, r) ← tc_get debug_bytes num k st;
      '(st, rs) ← gets reqs st;
      Ret (st, r :: rs)
  end.

Lemma gets_ok ids st reqs es :
  storage_ok ids st → Forall2 (λ r e, sought r.1 r.2 e) reqs es →
  ∃ st' ids', gets reqs st = Ret (st', (λ e, Ok (Some e)) <$> es) ∧ storage_ok ids' st'.
Proof.
  intros Hst Hr. revert ids st Hst. induction Hr as [|[num k] e reqs es Hs Hr IH]; intros ids st Hst; cbn [gets]; [by eexists st, ids|].
  destruct (tc_get_ok ids st num k e Hst Hs) as (st1 & ids1 & -> & _ & Hst1). rewrite bind_Ret.
  destruct (IH ids1 st1 Hst1) as (st2 & ids2 & -> & Hst2). rewrite bind_Ret. by eexists st2, ids2.
Qed.

(** A storage that was just made. *)
Lemma storage_new cap bcap :
  0 < bcap → 0 < cap → Z.of_nat (base.size T) ≤ cap → Z.of_nat (base.size T) < 2 ^ 64 →
  ∃ b tc, Cache_new bcap = Ret b ∧ TableCache_new db opts cap = Ret tc ∧ storage_ok ∅ {| st_env := e0; st_blocks := b; st_tables := tc |}.
Proof.
  intros Hb Hc Hs Hlt. destruct (cache_new_inv (T := Block) bcap Hb) as (b & Eb & Ib & _). destruct (cache_new_inv (T := Table) cap Hc) as (c & Ec & Ic & Hcap).
  exists b. eexists. split; [done|]. unfold TableCache_new. rewrite Ec, bind_Ret. split; [done|].
  assert (c_id b = 0) as Hid by (unfold Cache_new, massert in Eb; destruct (0 <? bcap); [by injection Eb as <-|done]).
  split; cbn; try done.
  - split; [lia|done|]. exists []. split_and!; [done|by intros kv ?%elem_of_nil|]. intros ? ? ? ? ? ? ? ?%elem_of_nil. done.
  - exists []. split; [done|]. cbn [length]. split_and!; [by intros ? ? ?%elem_of_nil|lia..].
Qed.

End storage.

(** ** Theorems *)

Section theorems.
Context `{IEL : IntegerEncodingLaws} `{CRL : Crc32Laws} `{EN : Env E} (debug_bytes : bytes → string).
Context (e0 : E) (db : string) (opts : Options) {OC : OrderedCmp (o_cmp (with_internal_keys opts))} (T : gmap Z (tfile ra_file)).

(** A table cache answers every sequence of lookups in the tables of its database from
    their files: each lookup finds the first entry of its table that is not below the key,
    whether the table is already open or not, and whatever blocks the tables have left in the
    block cache they share.  (The cache has room for all the tables; keys as in
    [sought].) *)
Theorem table_cache_serves cap bcap b tc reqs es :
  files_in_env e0 db opts T → Z.of_nat (base.size T) ≤ cap → Z.of_nat (base.size T) < 2 ^ 64 → 0 < bcap → 0 < cap →
  Cache_new bcap = Ret b → TableCache_new db opts cap = Ret tc → Forall2 (λ r e, sought opts T r.1 r.2 e) reqs es →
  ∃ st', gets debug_bytes reqs {| st_env := e0; st_blocks := b; st_tables := tc |} = Ret (st', (λ e, Ok (Some e)) <$> es).
Proof.
  intros FE Hs Hlt Hb Hc Eb Ec Hr. destruct (storage_new e0 db opts T cap bcap Hb Hc Hs Hlt) as (b' & tc' & Eb' & Ec' & Hst).
  rewrite Eb in Eb'. rewrite Ec in Ec'. simplify_eq. destruct (gets_ok debug_bytes e0 db opts T FE ∅ _ reqs es Hst Hr) as (st' & _ & E' & _). by exists st'.
Qed.

(** What goes wrong: a missing file, an empty file, and evicting a table that is not open. *)
Theorem table_cache_errors (st : Storage E ra_file) num path e C :
  0 < num → table_file_name (tc_dbname (st_tables st)) num = Ret path → cache_inv (tc_cache (st_tables st)) C → filenum_to_key num ∉ C.*1 →
  (env_size_of path (st_env st) = Ret (Err e) → get_table debug_bytes num st = Ret (st, Err e))
  ∧ (env_size_of path (st_env st) = Ret (Ok 0) → get_table debug_bytes num st = Ret (st, err InvalidData "file is empty")).
Proof.
  intros Hn Hp HC Hk. unfold get_table. rewrite (cache_get_miss _ _ _ HC Hk), bind_Ret. unfold open_table.
  assert (with_cache (tc_cache (st_tables st)) st = st) as -> by (by destruct st as [? ? []]). rewrite Hp, bind_Ret. by split; intros ->.
Qed.

End theorems.

(** ** Witness *)

Module TestStorage.
#[local] Existing Instance Reference.ref_encoding.
#[local] Existing Instance Reference.ref_encoding_laws.
#[local] Existing Instance Reference.ref_crc.
#[local] Existing Instance Reference.ref_crc_laws.
#[local] Existing Instances TestTable.vec_fixedint TestTable.vec_fixedint_reliable.

Definition uopts : Options :=
  let o := TestTable.opts 20 in
  {| o_cmp := DefaultCmp; create_if_missing := true; error_if_exists := false;
     paranoid_checks := false; write_buffer_size := write_buffer_size o; max_open_files := max_open_files o;
     max_file_size := max_file_size o; o_block_size := 20; block_restart_interval := 2;
     reuse_logs := true; reuse_manifest := true; o_compressor := 0; compressor_list := compressor_list o;
     filter_policy := Bloom (BloomPolicy_new 10) |}.

Lemma uopts_internal : with_internal_keys uopts = TestTable.opts 20.
Proof. reflexivity. Qed.

(** A file system with one table in the directory [db]. *)
Definition fs (b : bytes) : MemFS := {| buffers := [b]; store := {[ "db/000007.ldb" := {| e_f := 0%nat; e_locked := false |} ]} |}.
Definition tables (b : bytes) (L : list entry) (Bs : list dblock) : gmap Z (tfile nat) :=
  {[ 7 := {| tfl_file := 0%nat; tfl_bytes := b; tfl_list := L; tfl_blocks := Bs |} ]}.

Lemma fs_files b L Bs : table_file (TestTable.opts 20) L b Bs → files_in_env (EN := MemEnv id) (fs b) "db" uopts (tables b L Bs).
Proof.
  intros TF. split; [intros num tf Hn|intros num tf Hn|intros num tf path Hn]; (apply (proj1 (lookup_singleton_Some (M := gmap Z) 7 num _ tf)) in Hn as [<- <-]); [lia| |].
  - split; [by apply memfile_holds|exact TF].
  - intros E. vm_compute in E. injection E as <-. done.
Qed.
End TestStorage.

Lemma table_cache_serves_witness :
  let IE := Reference.ref_encoding in let CR := Reference.ref_crc in let EN := MemEnv id in
  ∃ (fs : MemFS) b tc st', Cache_new (T := Block) 10 = Ret b ∧ TableCache_new "db" TestStorage.uopts 4 = Ret tc
    ∧ gets TestTable.no_debug [(7, ikey [97; 98; 102] 9 TypeValue); (7, ikey [98] 7 TypeValue)] {| st_env := fs; st_blocks := b; st_tables := tc |}
      = Ret (st', [Ok (Some (ikey [97; 98; 102] 4 TypeValue, [2; 3])); Ok (Some (ikey [98] 7 TypeValue, [4]))]).
Proof.
  intros IE CR EN. pose proof (TestTable.vec_fixedint_reliable) as RF.
  destruct (build_table_ok (IEL := Reference.ref_encoding_laws) (CRL := Reference.ref_crc_laws) (RW := vec_reliable) (RF := RF)
    (TestTable.opts 20) NoneCompressor TestTable.fits 10 10 TestTable.L TestTable.L_buildable ([] : bytes) I eq_refl) as (tb & Bs & _ & TF & _).
  set (T := TestStorage.tables (tb_dst tb) TestTable.L Bs).
  assert (Z.of_nat (base.size T) ≤ 4 ∧ Z.of_nat (base.size T) < 2 ^ 64) as [HT4 HT64] by (unfold T, TestStorage.tables; rewrite map_size_singleton; lia).
  destruct (storage_new (EN := MemEnv id) (TestStorage.fs (tb_dst tb)) "db" TestStorage.uopts T 4 10 ltac:(lia) ltac:(lia) HT4 HT64) as (b & tc & Eb & Ec & _).
  exists (TestStorage.fs (tb_dst tb)), b, tc.
  destruct (table_cache_serves (IEL := Reference.ref_encoding_laws) (CRL := Reference.ref_crc_laws) (EN := MemEnv id) TestTable.no_debug
    (TestStorage.fs (tb_dst tb)) "db" TestStorage.uopts T 4 10 b tc
    [(7, ikey [97; 98; 102] 9 TypeValue); (7, ikey [98] 7 TypeValue)]
    [(ikey [97; 98; 102] 4 TypeValue, [2; 3]); (ikey [98] 7 TypeValue, [4])]
    (TestStorage.fs_files (tb_dst tb) TestTable.L Bs TF)) as (st' & E); [..|exists st'; split; [exact Eb|split; [exact Ec|exact E]]].
  - exact HT4.
  - exact HT64.
  - lia.
  - lia.
  - exact Eb.
  - exact Ec.
  - repeat apply Forall2_cons_2; try apply Forall2_nil_2.
    + split; [|split_and!; by_decide || exact I|intros fl; reflexivity]. eexists. split; [apply lookup_singleton_eq|]. split; [by_decide|].
      split; [exact TestTable.lookup_gap_free|]. intros e s He Hs. change (Some (ikey [97; 98; 102] 4 TypeValue, [2; 3]) = Some e) in He.
      injection He as <-. vm_compute in Hs. injection Hs as <-. reflexivity.
    + split; [|split_and!; by_decide || exact I|intros fl; reflexivity]. eexists. split; [apply lookup_singleton_eq|]. split; [by_decide|].
      split; [exact TestTable.key_seekable|]. intros e s He Hs. change (Some (ikey [98] 7 TypeValue, [4]) = Some e) in He.
      injection He as <-. vm_compute in Hs. injection Hs as <-. reflexivity.
Defined.
