(* ===== verification/Version.v ===== *)
(** * Version: [src/version.rs]

    A version: the table files of each level, lookups in them, the choice of files for
    compactions, and iteration over the files of a level.

    A [FileMetaHandle] is shared by versions and can be modified: handles are locations of a
    store [Metas], which the operation that modifies metadata ([update_stats]) passes along.
    What the version reads from tables goes through the table cache: a [Storage]. *)

From Stdlib Require Import SpecFloat.
From S2P Require Import Prelude Encoding Error Io Env MemEnv Types Cmp KeyTypes Log Iterator Filter FilterBlock Options BlockBuilder Block Cache TableBuilder Table TableFile TableRead TableCache.

Abbreviation FileMetaHandle := nat (only parsing).
Definition Metas := FileMetaHandle → FileMetaData.
Definition set_meta (f : FileMetaHandle) (d : FileMetaData) (M : Metas) : Metas := λ g, if decide (g = f) then d else M g.

Record GetStats := mkGetStats { gs_file : option FileMetaHandle; gs_level : Z }.

(** The shared table cache is not part of the record. *)
Record Version := mkVersion {
  user_cmp : Cmp;
  v_files : list (list FileMetaHandle);
  file_to_compact : option FileMetaHandle;
  file_to_compact_lvl : Z;
  compaction_score : option spec_float;
  compaction_level : option Z;
}.

Definition Version_new (ucmp : Cmp) : Version :=
  {| user_cmp := ucmp; v_files := replicate (Z.to_nat NUM_LEVELS) []; file_to_compact := None; file_to_compact_lvl := 0;
     compaction_score := None; compaction_level := None |}.

(** ** Files and keys *)

Section files.
Context {IE : IntegerEncoding} (M : Metas).
Implicit Types (cmp : Cmp) (f : FileMetaHandle) (files : list FileMetaHandle).

(** [parse_internal_key(k).2] *)
Definition parsed_ukey (k : bytes) : exec bytes := '(_, _, u) ← parse_internal_key k; Ret u.

Definition total_size (files : list FileMetaHandle) : exec Z := mfoldl (λ a f, uadd 64 a (size (M f))) 0 files.

Definition key_is_after_file (ucmp : Cmp) (key : bytes) (f : FileMetaHandle) : exec bool :=
  ulargest ← parsed_ukey (largest (M f));
  if decide (key = []) then Ret false else o ← cmp_inner ucmp key ulargest; Ret (is_gt o).

Definition key_is_before_file (ucmp : Cmp) (key : bytes) (f : FileMetaHandle) : exec bool :=
  usmallest ← parsed_ukey (smallest (M f));
  if decide (key = []) then Ret false else o ← cmp_inner ucmp key usmallest; Ret (is_lt o).

Fixpoint find_file_loop (fuel : nat) (ucmp : Cmp) (files : list FileMetaHandle) (key : bytes) (left right : Z) : exec Z :=
  if left <? right then
    match fuel with
    | O => NoFuel
    | S fuel =>
        let mid := (left + right) / 2 in
        f ← index files mid;
        o ← cmp (InternalKeyCmp ucmp) (largest (M f)) key;
        if is_lt o then find_file_loop fuel ucmp files key (mid + 1) right
        else find_file_loop fuel ucmp files key left mid
    end
  else Ret right.
Definition find_file (ucmp : Cmp) (files : list FileMetaHandle) (key : bytes) : exec (option Z) :=
  right ← find_file_loop (length files) ucmp files key 0 (zlen files);
  Ret (if right <? zlen files then Some right else None).

Definition some_file_overlaps_range_disjoint (ucmp : Cmp) (files : list FileMetaHandle) (smallest largest : bytes) : exec bool :=
  lk ← LookupKey_new smallest MAX_SEQUENCE_NUMBER;
  ikey ← internal_key lk;
  ix ← find_file ucmp files ikey;
  match ix with
  | Some ix => f ← index files ix; b ← key_is_before_file ucmp largest f; Ret (negb b)
  | None => Ret false
  end.

Fixpoint some_file_overlaps_range (ucmp : Cmp) (files : list FileMetaHandle) (smallest largest : bytes) : exec bool :=
  match files with
  | [] => Ret false
  | f :: files =>
      a ← key_is_after_file ucmp smallest f;
      ab ← (if (a : bool) then Ret true else key_is_before_file ucmp largest f);
      if negb ab then Ret true else some_file_overlaps_range ucmp files smallest largest
  end.

(** ** Versions *)

Implicit Types v : Version.

Definition level_files v (l : Z) : exec (list FileMetaHandle) := index (v_files v) l.

Definition num_level_bytes v (l : Z) : exec Z :=
  _ ← massert (l <? NUM_LEVELS); fs ← level_files v l; total_size fs.
Definition num_level_files v (l : Z) : exec Z :=
  _ ← massert (l <? NUM_LEVELS); fs ← level_files v l; Ret (zlen fs).

(** [format!("{:?}", filedesc)] *)
Fixpoint debug_pairs (l : list (Z * Z)) : string :=
  match l with
  | [] => ""
  | [(a, b)] => ("(" +:+ dec_digits 19 a "" +:+ ", " +:+ dec_digits 19 b "" +:+ ")")%string
  | (a, b) :: l => ("(" +:+ dec_digits 19 a "" +:+ ", " +:+ dec_digits 19 b "" +:+ "), " +:+ debug_pairs l)%string
  end.
Definition level_summary v : exec string :=
  mfoldl (λ acc (level : nat),
    fs ← level_files v (Z.of_nat level);
    if decide (fs = []) then Ret acc
    else
      total ← total_size fs;
      Ret (acc +:+ "level " +:+ dec_digits 19 (Z.of_nat level) "" +:+ ": " +:+ dec_digits 19 (zlen fs) "" +:+ " files, "
               +:+ dec_digits 19 total "" +:+ " bytes ([" +:+ debug_pairs ((λ f, (num (M f), size (M f))) <$> fs) +:+ "]); ")%string)
    "" (seq 0 (Z.to_nat NUM_LEVELS)).

Definition in_user_range v (ukey : bytes) (f : FileMetaHandle) : exec bool :=
  fsmallest ← parsed_ukey (smallest (M f));
  flargest ← parsed_ukey (largest (M f));
  o1 ← cmp (user_cmp v) ukey fsmallest;
  if is_ge o1 then o2 ← cmp (user_cmp v) ukey flargest; Ret (is_le o2) else Ret false.

Definition get_overlapping v (key : bytes) : exec (list (list FileMetaHandle)) :=
  ukey ← parsed_ukey key;
  files0 ← level_files v 0;
  level0 ← mfoldl (λ acc f, b ← in_user_range v ukey f; Ret (if (b : bool) then acc ++ [f] else acc)) [] files0;
  level0 ← sort_by (λ a b, Ret (num (M b) ?= num (M a))) level0;
  rest ← mfoldl (λ acc (level : nat),
           files ← level_files v (Z.of_nat level);
           ix ← find_file (user_cmp v) files key;
           match ix with
           | None => Ret (acc ++ [[]])
           | Some ix =>
               f ← index files ix;
               fsmallest ← parsed_ukey (smallest (M f));
               o ← cmp (user_cmp v) ukey fsmallest;
               Ret (acc ++ [if is_ge o then [f] else []])
           end) [] (seq 1 (Z.to_nat NUM_LEVELS - 1));
  Ret (level0 :: rest).

(** [do_search] of [overlapping_inputs]: a wider range to search, or the files found. *)
Inductive search_result := Wider (ubegin uend : bytes) | Found (inputs : list FileMetaHandle).

Fixpoint do_search v (level : Z) (ubegin uend : bytes) (files inputs : list FileMetaHandle) : exec search_result :=
  match files with
  | [] => Ret (Found inputs)
  | f :: files =>
      fsmallest ← parsed_ukey (smallest (M f));
      flargest ← parsed_ukey (largest (M f));
      below ← (if decide (ubegin = []) then Ret false else o ← cmp (user_cmp v) flargest ubegin; Ret (is_lt o));
      if (below : bool) then do_search v level ubegin uend files inputs
      else
        above ← (if decide (uend = []) then Ret false else o ← cmp (user_cmp v) fsmallest uend; Ret (is_gt o));
        if (above : bool) then do_search v level ubegin uend files inputs
        else
          let inputs := inputs ++ [f] in
          if level =? 0 then
            lower ← (if decide (ubegin = []) then Ret false else o ← cmp (user_cmp v) fsmallest ubegin; Ret (is_lt o));
            if (lower : bool) then Ret (Wider fsmallest uend)
            else
              higher ← (if decide (uend = []) then Ret false else o ← cmp (user_cmp v) flargest uend; Ret (is_gt o));
              if (higher : bool) then Ret (Wider ubegin flargest)
              else do_search v level ubegin uend files inputs
          else do_search v level ubegin uend files inputs
  end.

Fixpoint overlapping_loop (fuel : nat) v (level : Z) (ubegin uend : bytes) : exec (list FileMetaHandle) :=
  match fuel with
  | O => NoFuel
  | S fuel =>
      files ← level_files v level;
      r ← do_search v level ubegin uend files [];
      match r with
      | Wider ubegin uend => overlapping_loop fuel v level ubegin uend
      | Found inputs => Ret inputs
      end
  end.

(** Every restart moves a bound to the bound of a file, away from the others. *)
Definition overlapping_inputs v (level : Z) (ibegin iend : bytes) : exec (list FileMetaHandle) :=
  _ ← massert (level <? NUM_LEVELS);
  ubegin ← parsed_ukey ibegin;
  uend ← parsed_ukey iend;
  files ← level_files v level;
  overlapping_loop (2 * length files + 1) v level ubegin uend.

Definition overlap_in_level v (level : Z) (smallest largest : bytes) : exec bool :=
  _ ← massert (level <? NUM_LEVELS);
  files ← level_files v level;
  if level =? 0 then some_file_overlaps_range_disjoint (user_cmp v) files smallest largest
  else some_file_overlaps_range (user_cmp v) files smallest largest.

Definition MAX_MEM_COMPACT_LEVEL : Z := 2.

Fixpoint pick_level_loop (fuel : nat) v (min max start limit : bytes) (level : Z) : exec Z :=
  if level <? MAX_MEM_COMPACT_LEVEL then
    match fuel with
    | O => NoFuel
    | S fuel =>
        ov ← overlap_in_level v (level + 1) min max;
        if (ov : bool) then Ret level
        else
          stop ← (if level + 2 <? NUM_LEVELS then
                    overlaps ← overlapping_inputs v (level + 2) start limit;
                    sz ← total_size overlaps;
                    Ret (10 * Z.shiftl 2 20 <? sz)
                  else Ret false);
          if (stop : bool) then Ret level else pick_level_loop fuel v min max start limit (level + 1)
    end
  else Ret level.

Definition pick_memtable_output_level v (min max : bytes) : exec Z :=
  ov ← overlap_in_level v 0 min max;
  if (ov : bool) then Ret 0
  else
    start ← LookupKey_new min MAX_SEQUENCE_NUMBER;
    limit ← LookupKey_new_full max 0 TypeDeletion;
    start ← internal_key start;
    limit ← internal_key limit;
    pick_level_loop 2 v min max start limit 0.

Definition max_next_level_overlapping_bytes v : exec Z :=
  mfoldl (λ mx (lvl : nat),
    files ← level_files v (Z.of_nat lvl);
    mfoldl (λ mx f,
      ols ← overlapping_inputs v (Z.of_nat lvl + 1) (smallest (M f)) (largest (M f));
      sum ← total_size ols;
      Ret (if mx <? sum then sum else mx)) mx files)
    0 (seq 1 (Z.to_nat NUM_LEVELS - 2)).

(** [update_stats] and [record_read_sample] change the version and the metadata. *)
Definition update_stats (stats : GetStats) v : exec ((Metas * Version) * bool) :=
  match gs_file stats with
  | Some file =>
      let d := M file in
      if (allowed_seeks d <=? 1) && bool_decide (file_to_compact v = None) then
        Ret ((M, {| user_cmp := user_cmp v; v_files := v_files v; file_to_compact := Some file;
                    file_to_compact_lvl := gs_level stats; compaction_score := compaction_score v;
                    compaction_level := compaction_level v |}), true)
      else if 0 <? allowed_seeks d then
        Ret ((set_meta file {| allowed_seeks := allowed_seeks d - 1; num := num d; size := size d;
                               smallest := smallest d; largest := largest d |} M, v), false)
      else Ret ((M, v), false)
  | None => Ret ((M, v), false)
  end.

Definition version_record_read_sample (key : bytes) v : exec ((Metas * Version) * bool) :=
  levels ← get_overlapping v key;
  '(contained_in, i, first) ← mfoldl (λ '(contained_in, i, first) level,
      let first := match level, first with
                   | f :: _, None => Some (f, i)
                   | _, _ => first
                   end in
      Ret (contained_in + zlen level, i + 1, first)) (0, 0, None) levels;
  if 1 <? contained_in then
    update_stats {| gs_file := fst <$> first; gs_level := default 0 (snd <$> first) |} v
  else Ret ((M, v), false).

End files.

(** ** Reading *)

Section reading.
Context {IE : IntegerEncoding} {CR : Crc32} `{EN : Env E} (debug_bytes : bytes → string) (M : Metas).
Abbreviation Storage := (Storage E ra_file) (only parsing).
Abbreviation TableIterator := (TableIterator ra_file) (only parsing).

(** The files of one level, newest first. *)
Fixpoint get_in_files (v : Version) (ikey ukey : bytes) (level : Z) (files : list FileMetaHandle)
    (stats : GetStats) (last_read : option FileMetaHandle) (last_read_level : Z) (st : Storage)
  : exec (Storage * (GetStats + option (bytes * GetStats))) :=
  match files with
  | [] => Ret (st, inl stats)
  | f :: files =>
      let stats := match last_read, gs_file stats with
                   | Some _, None => {| gs_file := last_read; gs_level := last_read_level |}
                   | _, _ => stats
                   end in
      '(st, r) ← tc_get debug_bytes (num (M f)) ikey st;
      let continue := get_in_files v ikey ukey level files stats (Some f) level st in
      match r with
      | Ok (Some (k, val)) =>
          '(typ, _, foundkey) ← parse_internal_key k;
          match typ with
          | TypeValue =>
              o ← cmp (user_cmp v) foundkey ukey;
              if is_eq o then Ret (st, inr (Some (val, stats))) else continue
          | TypeDeletion => Ret (st, inr None)
          end
      | _ => continue
      end
  end.

Fixpoint get_in_levels (v : Version) (ikey ukey : bytes) (level : Z) (levels : list (list FileMetaHandle)) (stats : GetStats) (st : Storage)
  : exec (Storage * option (bytes * GetStats)) :=
  match levels with
  | [] => Ret (st, None)
  | files :: levels =>
      '(st, r) ← get_in_files v ikey ukey level files stats None 0 st;
      match r with
      | inr res => Ret (st, res)
      | inl stats => get_in_levels v ikey ukey (level + 1) levels stats st
      end
  end.

Definition version_get (v : Version) (key : bytes) (st : Storage) : exec (Storage * Result (option (bytes * GetStats))) :=
  levels ← get_overlapping M v key;
  ukey ← parsed_ukey key;
  '(st, r) ← get_in_levels v key ukey 0 levels {| gs_file := None; gs_level := 0 |} st;
  Ret (st, Ok r).

(** ** [VersionIter] *)

Record VersionIter := mkVersionIter {
  vi_files : list FileMetaHandle;
  vi_cmp : Cmp;
  vi_current : option TableIterator;
  current_ix : Z;
}.

Definition new_version_iter (files : list FileMetaHandle) (ucmp : Cmp) : VersionIter :=
  {| vi_files := files; vi_cmp := ucmp; vi_current := None; current_ix := 0 |}.

Definition vi_set (it : VersionIter) (t : option TableIterator) (ix : Z) : VersionIter :=
  {| vi_files := vi_files it; vi_cmp := vi_cmp it; vi_current := t; current_ix := ix |}.

(** The [TableIterator] operations on the shared storage. *)
Definition on_table {A} (op : TableIterator → Cache Block → exec ((Cache Block * TableIterator) * A)) (t : TableIterator) (st : Storage)
  : exec ((Storage * TableIterator) * A) :=
  '((b, t), r) ← op t (st_blocks st);
  Ret ((with_blocks b st, t), r).
Definition st_advance (t : TableIterator) (st : Storage) := on_table (ti_advance (RA := ra_read (st_env st))) t st.
Definition st_prev (t : TableIterator) (st : Storage) := on_table (ti_prev (RA := ra_read (st_env st))) t st.
Definition st_seek (key : bytes) (t : TableIterator) (st : Storage) :=
  on_table (λ t b, s ← ti_seek (RA := ra_read (st_env st)) key t b; Ret (s, ())) t st.

(** Every call of itself has loaded another table. *)
Fixpoint vi_advance_loop (fuel : nat) (it : VersionIter) (st : Storage) : exec ((Storage * VersionIter) * bool) :=
  match fuel with
  | O => NoFuel
  | S fuel =>
      _ ← massert (negb (bool_decide (vi_files it = [])));
      let load (it : VersionIter) (st : Storage) : exec ((Storage * VersionIter) * bool) :=
        f ← index (vi_files it) (current_ix it);
        '(st, tbl) ← get_table debug_bytes (num (M f)) st;
        match tbl with
        | Ok tbl => t ← table_iter tbl; vi_advance_loop fuel (vi_set it (Some t) (current_ix it)) st
        | Err _ => Ret ((st, it), false)
        end in
      match vi_current it with
      | Some t =>
          '((st, t), ok) ← st_advance t st;
          let it := vi_set it (Some t) (current_ix it) in
          if (ok : bool) then Ret ((st, it), true)
          else if zlen (vi_files it) - 1 <=? current_ix it then Ret ((st, it), false)
          else load (vi_set it (Some t) (current_ix it + 1)) st
      | None => load it st
      end
  end.
Definition vi_advance (it : VersionIter) (st : Storage) : exec ((Storage * VersionIter) * bool) :=
  vi_advance_loop (2 + length (vi_files it)) it st.

Definition vi_current_kv (it : VersionIter) : exec (option (bytes * bytes)) :=
  match vi_current it with Some t => ti_current t | None => Ret None end.

Definition vi_reset (it : VersionIter) : VersionIter := vi_set it None 0.

Definition vi_seek (key : bytes) (it : VersionIter) (st : Storage) : exec (Storage * VersionIter) :=
  ix ← find_file M (vi_cmp it) (vi_files it) key;
  match ix with
  | None => Ret (st, vi_reset it)
  | Some ix =>
      f ← index (vi_files it) ix;
      '(st, tbl) ← get_table debug_bytes (num (M f)) st;
      match tbl with
      | Err _ => Ret (st, vi_reset it)
      | Ok tbl =>
          iter ← table_iter tbl;
          '((st, iter), _) ← st_seek key iter st;
          if ti_valid iter then Ret (st, vi_set it (Some iter) ix) else Ret (st, vi_reset it)
      end
  end.

Definition vi_valid (it : VersionIter) : bool :=
  match vi_current it with Some t => ti_valid t | None => false end.

Definition vi_prev (it : VersionIter) (st : Storage) : exec ((Storage * VersionIter) * bool) :=
  match vi_current it with
  | None => Ret ((st, vi_reset it), false)
  | Some t =>
      '((st, t), ok) ← st_prev t st;
      let it := vi_set it (Some t) (current_ix it) in
      if (ok : bool) then Ret ((st, it), true)
      else if 0 <? current_ix it then
        f ← index (vi_files it) (current_ix it - 1);
        '(st, tbl) ← get_table debug_bytes (num (M f)) st;
        match tbl with
        | Err _ => Ret ((st, vi_reset it), false)
        | Ok tbl =>
            iter ← table_iter tbl;
            '((st, iter), _) ← st_seek (largest (M f)) iter st;
            _ ← massert (ti_valid iter);
            Ret ((st, vi_set it (Some iter) (current_ix it - 1)), true)
        end
      else Ret ((st, vi_reset it), false)
  end.

(** An iterator with the storage it shares. *)
#[export] Instance VersionIter_iterator : LdbIterator (Storage * VersionIter) := {
  it_advance s := vi_advance s.2 s.1;
  it_current s := vi_current_kv s.2;
  it_seek key s := vi_seek key s.2 s.1;
  it_reset s := Ret (s.1, vi_reset s.2);
  it_valid s := Ret (vi_valid s.2);
  it_prev s := vi_prev s.2 s.1;
}.

(** ** [new_iters]

    The iterators of a version: one per table of level 0, one per level above it. *)

Inductive version_iterator := LevelZero (t : TableIterator) | Concat (it : VersionIter).

Definition new_concat_iter (v : Version) (level : Z) : exec VersionIter :=
  files ← level_files v level;
  Ret (new_version_iter files (user_cmp v)).

Fixpoint level_zero_iters (files : list FileMetaHandle) (st : Storage) : exec (Storage * Result (list version_iterator)) :=
  match files with
  | [] => Ret (st, Ok [])
  | f :: files =>
      let? st, tbl := get_table debug_bytes (num (M f)) st in
      t ← table_iter tbl;
      let? st, iters := level_zero_iters files st in
      Ret (st, Ok (LevelZero t :: iters))
  end.

Definition new_iters (v : Version) (st : Storage) : exec (Storage * Result (list version_iterator)) :=
  files0 ← level_files v 0;
  let? st, iters := level_zero_iters files0 st in
  iters ← mfoldl (λ iters (l : nat),
            files ← level_files v (Z.of_nat l);
            if decide (files = []) then Ret iters
            else it ← new_concat_iter v (Z.of_nat l); Ret (iters ++ [Concat it])) iters (seq 1 (Z.to_nat NUM_LEVELS - 1));
  Ret (st, Ok iters).

End reading.

(** ** The files of a level *)

Section file_lemmas.
Context `{IEL : IntegerEncodingLaws} {u : Cmp} {UO : OrderedCmp u} (M : Metas).
Abbreviation icmp := (InternalKeyCmp u) (only parsing).
Implicit Types (f : FileMetaHandle) (files : list FileMetaHandle) (v : Version).

(** The user keys of a file, and files whose metadata makes sense. *)
Definition lo f : bytes := ukey_of (smallest (M f)).
Definition hi f : bytes := ukey_of (largest (M f)).
Definition file_ok f : Prop :=
  key_ok icmp (smallest (M f)) ∧ key_ok icmp (largest (M f)) ∧ ord icmp (smallest (M f)) (largest (M f)) ≠ Gt.

Lemma parsed_ukey_ok k : 8 ≤ zlen k → parsed_ukey k = Ret (ukey_of k).
Proof. intros Hk. unfold parsed_ukey. by rewrite parse_internal_key_views. Qed.

Lemma ikey_length k : key_ok icmp k → 8 ≤ zlen k.
Proof. intros (? & _). lia. Qed.
Lemma ikey_user k : key_ok icmp k → key_ok u (ukey_of k).
Proof. by intros (_ & _ & ?). Qed.

Lemma file_keys f : file_ok f → key_ok u (lo f) ∧ key_ok u (hi f)
  ∧ parsed_ukey (smallest (M f)) = Ret (lo f) ∧ parsed_ukey (largest (M f)) = Ret (hi f) ∧ ord u (lo f) (hi f) ≠ Gt.
Proof.
  intros (H1 & H2 & H3). split_and!; try (by apply ikey_user); try (by apply parsed_ukey_ok, ikey_length).
  intros H. apply H3. change (ord_internal (u := u) (smallest (M f)) (largest (M f)) = Gt). unfold ord_internal. unfold lo, hi in H. by rewrite H.
Qed.

(** *** [find_file] *)

(** The largest keys ascend. *)
Definition ascending files : Prop := StronglySorted (λ f g, ord icmp (largest (M f)) (largest (M g)) ≠ Gt) files.

Lemma ascending_below files key i j f g :
  ascending files → files !! i = Some f → files !! j = Some g → (i ≤ j)%nat → ord icmp (largest (M g)) key = Lt → ord icmp (largest (M f)) key = Lt.
Proof.
  intros Hs Hi Hj Hij Hlt. destruct (decide (i = j)) as [->|]; [congruence|]. eapply ord_le_lt; [|exact Hlt].
  exact (sorted_lookup_lt _ _ _ _ _ _ Hs Hi Hj ltac:(lia)).
Qed.

Lemma find_file_loop_ok files key :
  ascending files → Forall file_ok files → key_ok icmp key →
  ∀ fuel left right, 0 ≤ left ≤ right → right ≤ zlen files → right - left ≤ Z.of_nat fuel →
  (∀ i f, files !! i = Some f → Z.of_nat i < left → ord icmp (largest (M f)) key = Lt) →
  (∀ i f, files !! i = Some f → right ≤ Z.of_nat i → ord icmp (largest (M f)) key ≠ Lt) →
  ∃ r, find_file_loop M fuel u files key left right = Ret r ∧ left ≤ r ≤ right
    ∧ (∀ i f, files !! i = Some f → Z.of_nat i < r → ord icmp (largest (M f)) key = Lt)
    ∧ (∀ i f, files !! i = Some f → r ≤ Z.of_nat i → ord icmp (largest (M f)) key ≠ Lt).
Proof.
  intros Hs Hok Hk. induction fuel as [|fuel IH]; intros left right Hlr Hr Hf HL HR.
  - exists right. cbn. ztest. split_and!; try done; try lia. intros i f Hi Hlt. apply (HL i f Hi). lia.
  - cbn [find_file_loop]. destruct (Z.ltb_spec left right) as [Hlt|Hge].
    2: { exists right. split_and!; try done; try lia. intros i f Hi H. apply (HL i f Hi). lia. }
    set (mid := (left + right) / 2). assert (left ≤ mid < right) as Hm by (unfold mid; split; [apply Z.div_le_lower_bound|apply Z.div_lt_upper_bound]; lia).
    destruct (lookup_lt_is_Some_2 files (Z.to_nat mid)) as [f Hfm]; [lia|].
    rewrite (index_Z files mid f ltac:(lia) Hfm), bind_Ret. rewrite Forall_lookup in Hok. destruct (Hok _ _ Hfm) as (_ & Hfk & _).
    rewrite cmp_ret, bind_Ret by done. destruct (ord icmp (largest (M f)) key) eqn:Ho; cbn [is_lt].
    1,3: destruct (IH left mid) as (r & -> & Hr' & H1 & H2); [lia|lia|lia|done| |exists r; split_and!; done || lia];
      intros i g Hi Hge Hgl; pose proof (ascending_below files key (Z.to_nat mid) i f g Hs Hfm Hi ltac:(lia) Hgl); congruence.
    destruct (IH (mid + 1) right) as (r & -> & Hr' & H1 & H2); [lia|lia|lia| |done|exists r; split_and!; done || lia].
    intros i g Hi Hle. apply (ascending_below files key i (Z.to_nat mid) g f Hs Hi Hfm ltac:(lia) Ho).
Qed.

(** The file that a linear search finds. *)
Definition not_below key f : Prop := ord icmp (largest (M f)) key ≠ Lt.
#[export] Instance not_below_dec key f : Decision (not_below key f).
Proof. unfold not_below. apply _. Defined.

Lemma find_file_spec files key :
  ascending files → Forall file_ok files → key_ok icmp key →
  find_file M u files key = Ret (Z.of_nat ∘ fst <$> list_find (not_below key) files).
Proof.
  intros Hs Hok Hk. unfold find_file.
  destruct (find_file_loop_ok files key Hs Hok Hk (length files) 0 (zlen files)) as (r & -> & Hr & HL & HR);
    [lia..|intros i f _ ?; lia|intros i f Hi ?; apply lookup_lt_Some in Hi; lia|].
  rewrite bind_Ret. f_equal. destruct (list_find (not_below key) files) as [[i f]|] eqn:E.
  - apply list_find_Some in E as (Hi & Hn & Hfirst). cbn. pose proof (lookup_lt_Some _ _ _ Hi).
    assert (r ≤ Z.of_nat i) by (destruct (Z.le_gt_cases r (Z.of_nat i)); [done|]; by destruct (Hn (HL i f Hi ltac:(lia)))).
    assert (¬ r < Z.of_nat i).
    { intros Hlt. destruct (lookup_lt_is_Some_2 files (Z.to_nat r)) as [g Hg]; [lia|]. apply (Hfirst _ _ Hg); [lia|]. apply (HR _ _ Hg). lia. }
    ztest. f_equal. lia.
  - apply list_find_None in E. destruct (Z.ltb_spec r (zlen files)) as [Hlt|]; [|done]. exfalso.
    destruct (lookup_lt_is_Some_2 files (Z.to_nat r)) as [g Hg]; [lia|]. rewrite Forall_lookup in E. apply (E _ _ Hg). apply (HR _ _ Hg). lia.
Qed.

(** *** Ranges of user keys; an empty bound is no bound. *)

Definition lt_begin (k b : bytes) : Prop := b ≠ [] ∧ ord u k b = Lt.
Definition gt_end (k e : bytes) : Prop := e ≠ [] ∧ ord u k e = Gt.
Definition overlaps (b e : bytes) f : Prop := ¬ lt_begin (hi f) b ∧ ¬ gt_end (lo f) e.
#[export] Instance lt_begin_dec k b : Decision (lt_begin k b).
Proof. unfold lt_begin. apply _. Defined.
#[export] Instance gt_end_dec k e : Decision (gt_end k e).
Proof. unfold gt_end. apply _. Defined.
#[export] Instance overlaps_dec b e f : Decision (overlaps b e f).
Proof. unfold overlaps. apply _. Defined.

(** The bounds: no bound, or a user key. *)
Definition bound_ok (k : bytes) : Prop := k = [] ∨ key_ok u k.

Lemma test_begin k b : key_ok u k → bound_ok b →
  (if decide (b = []) then Ret false else o ← cmp u k b; Ret (is_lt o)) = Ret (bool_decide (lt_begin k b)).
Proof.
  intros Hk Hb. destruct (decide (b = [])) as [->|Hne]; [by rewrite bool_decide_false by (intros []; done)|].
  destruct Hb as [->|Hb]; [done|]. rewrite cmp_ret, bind_Ret by done. f_equal. symmetry.
  destruct (is_lt (ord u k b)) eqn:E; [apply bool_decide_eq_true|apply bool_decide_eq_false]; unfold lt_begin; destruct (ord u k b); cbn in E; intuition congruence.
Qed.
Lemma test_end k e : key_ok u k → bound_ok e →
  (if decide (e = []) then Ret false else o ← cmp u k e; Ret (is_gt o)) = Ret (bool_decide (gt_end k e)).
Proof.
  intros Hk Hb. destruct (decide (e = [])) as [->|Hne]; [by rewrite bool_decide_false by (intros []; done)|].
  destruct Hb as [->|Hb]; [done|]. rewrite cmp_ret, bind_Ret by done. f_equal. symmetry.
  destruct (is_gt (ord u k e)) eqn:E; [apply bool_decide_eq_true|apply bool_decide_eq_false]; unfold gt_end; destruct (ord u k e); cbn in E; intuition congruence.
Qed.

(** *** [overlapping_inputs] *)

(** A file that overlaps the range but sticks out of it, with the range that takes it in. *)
Definition widens (b e : bytes) f (b' e' : bytes) : Prop :=
  overlaps b e f ∧ (lt_begin (lo f) b ∧ b' = lo f ∧ e' = e ∨ gt_end (hi f) e ∧ b' = b ∧ e' = hi f).

Lemma do_search_ok v level b e : user_cmp v = u → bound_ok b → bound_ok e → ∀ files acc,
  Forall file_ok files →
  (do_search M v level b e files acc = Ret (Found (acc ++ filter (overlaps b e) files))
     ∧ (level = 0 → ∀ f, f ∈ files → overlaps b e f → ¬ lt_begin (lo f) b ∧ ¬ gt_end (hi f) e))
  ∨ (level = 0 ∧ ∃ f b' e', f ∈ files ∧ widens b e f b' e' ∧ do_search M v level b e files acc = Ret (Wider b' e')).
Proof.
  intros Hv Hb He. induction files as [|f files IH]; intros acc Hok; cbn [do_search].
  { left. rewrite app_nil_r. split; [done|]. by intros _ f ?%elem_of_nil. }
  apply Forall_cons in Hok as [Hf Hok]. destruct (file_keys f Hf) as (Kl & Kh & -> & -> & _). rewrite !bind_Ret, !Hv.
  rewrite (test_begin (hi f) b), bind_Ret by done.
  assert (∀ acc', acc' = acc ++ (if decide (overlaps b e f) then [f] else []) →
    (level = 0 → overlaps b e f → ¬ lt_begin (lo f) b ∧ ¬ gt_end (hi f) e) →
    (do_search M v level b e files acc' = Ret (Found (acc ++ filter (overlaps b e) (f :: files)))
       ∧ (level = 0 → ∀ g, g ∈ f :: files → overlaps b e g → ¬ lt_begin (lo g) b ∧ ¬ gt_end (hi g) e))
    ∨ (level = 0 ∧ ∃ g b' e', g ∈ f :: files ∧ widens b e g b' e' ∧ do_search M v level b e files acc' = Ret (Wider b' e'))) as Hrest.
  { intros acc' -> Hin. rewrite filter_cons. destruct (IH (acc ++ (if decide (overlaps b e f) then [f] else [])) Hok) as [[-> H]|(-> & g & b' & e' & Hg & H1 & H2)].
    - left. split; [by case_decide; rewrite <- ?app_assoc, ?app_nil_r|]. intros Hl g [->|Hg]%elem_of_cons; [by apply Hin|by apply H].
    - right. split; [done|]. exists g, b', e'. split_and!; [by right|done..]. }
  destruct (bool_decide (lt_begin (hi f) b)) eqn:E1.
  { apply bool_decide_eq_true in E1. apply Hrest; [rewrite decide_False, app_nil_r; [done|]|]; unfold overlaps; tauto. }
  rewrite (test_end (lo f) e), bind_Ret by done. destruct (bool_decide (gt_end (lo f) e)) eqn:E2.
  { apply bool_decide_eq_true in E2. apply Hrest; [rewrite decide_False, app_nil_r; [done|]|]; unfold overlaps; tauto. }
  apply bool_decide_eq_false in E1, E2. destruct (Z.eqb_spec level 0) as [->|Hl].
  2: { apply Hrest; [by rewrite decide_True by (by split)|done]. }
  rewrite (test_begin (lo f) b), bind_Ret by done. destruct (bool_decide (lt_begin (lo f) b)) eqn:E3.
  { apply bool_decide_eq_true in E3. right. split; [done|]. exists f, (lo f), e. split_and!; [by left| |done]. split; [by split|]. by left. }
  rewrite (test_end (hi f) e), bind_Ret by done. destruct (bool_decide (gt_end (hi f) e)) eqn:E4.
  { apply bool_decide_eq_true in E4. right. split; [done|]. exists f, b, (hi f). split_and!; [by left| |done]. split; [by split|]. by right. }
  apply bool_decide_eq_false in E3, E4. apply Hrest; [by rewrite decide_True by (by split)|done].
Qed.

(** The files that stick out of the range: at each end, fewer after widening it. *)
Definition sticking files (b e : bytes) : nat :=
  length (filter (λ f, lt_begin (lo f) b) files) + length (filter (λ f, gt_end (hi f) e) files).

Lemma widens_fewer files b e f b' e' : f ∈ files → widens b e f b' e' → (sticking files b' e' < sticking files b e)%nat.
Proof.
  intros Hf [_ [(Hl & -> & ->)|(Hg & -> & ->)]]; unfold sticking.
  - pose proof (filter_length_lt (λ g, lt_begin (lo g) (lo f)) (λ g, lt_begin (lo g) b) files f) as H.
    cut (length (filter (λ g, lt_begin (lo g) (lo f)) files) < length (filter (λ g, lt_begin (lo g) b) files))%nat; [lia|]. apply H; try done.
    + intros g _ [_ Hlt]. destruct Hl as [Hb Hl]. split; [done|]. by eapply ord_trans.
    + intros [_ Hlt]. by rewrite ord_refl in Hlt.
  - pose proof (filter_length_lt (λ g, gt_end (hi g) (hi f)) (λ g, gt_end (hi g) e) files f) as H.
    cut (length (filter (λ g, gt_end (hi g) (hi f)) files) < length (filter (λ g, gt_end (hi g) e) files))%nat; [lia|]. apply H; try done.
    + intros g _ [_ Hlt]. destruct Hg as [Hb Hg]. split; [done|]. rewrite ord_Gt_Lt in *. by eapply ord_trans.
    + intros [_ Hlt]. by rewrite ord_refl in Hlt.
Qed.

Lemma widens_ok b e f b' e' : file_ok f → bound_ok b → bound_ok e → widens b e f b' e' → bound_ok b' ∧ bound_ok e'.
Proof. intros Hf Hb He [_ [(_ & -> & ->)|(_ & -> & ->)]]; destruct (file_keys f Hf) as (Hl & Hh & _); split; try done; by right. Qed.

(** What the search preserves holds of the range it ends with. *)
Lemma overlapping_loop_ok v level files (I : bytes → bytes → Prop) :
  user_cmp v = u → level_files v level = Ret files → Forall file_ok files →
  (∀ b e f b' e', I b e → f ∈ files → widens b e f b' e' → I b' e') →
  ∀ fuel b e, bound_ok b → bound_ok e → I b e → (sticking files b e < fuel)%nat →
  ∃ b' e', overlapping_loop M fuel v level b e = Ret (filter (overlaps b' e') files) ∧ I b' e'
    ∧ (level = 0 → ∀ f, f ∈ files → overlaps b' e' f → ¬ lt_begin (lo f) b' ∧ ¬ gt_end (hi f) e')
    ∧ (level ≠ 0 → b' = b ∧ e' = e).
Proof.
  intros Hv Hl Hok HI. induction fuel as [|fuel IH]; intros b e Hb He Ib Hf; [lia|]. cbn [overlapping_loop]. rewrite Hl, bind_Ret.
  destruct (do_search_ok v level b e Hv Hb He files [] Hok) as [[-> H]|(-> & f & b' & e' & Hin & Hw & ->)]; rewrite bind_Ret; [by exists b, e|].
  rewrite Forall_forall in Hok. destruct (widens_ok b e f b' e' (Hok _ Hin) Hb He Hw) as [Hb' He']. pose proof (widens_fewer files b e f b' e' Hin Hw).
  destruct (IH b' e' Hb' He' (HI _ _ _ _ _ Ib Hin Hw) ltac:(lia)) as (b2 & e2 & E & I2 & H1 & _). exists b2, e2. by split_and!.
Qed.

Lemma sticking_bound files b e : (sticking files b e ≤ 2 * length files)%nat.
Proof. unfold sticking. pose proof (length_filter (λ f, lt_begin (lo f) b) files). pose proof (length_filter (λ f, gt_end (hi f) e) files). lia. Qed.

(** The files that overlap the range, and those that overlap these, and so on. *)
Definition touch f g : Prop := ord u (lo g) (hi f) ≠ Gt ∧ ord u (lo f) (hi g) ≠ Gt.
Inductive reach (files : list FileMetaHandle) (b e : bytes) : FileMetaHandle → Prop :=
  | reach_range f : f ∈ files → overlaps b e f → reach files b e f
  | reach_file f g : reach files b e f → g ∈ files → touch f g → reach files b e g.

Lemma reach_elem files b e f : reach files b e f → f ∈ files.
Proof. by destruct 1. Qed.

Definition reach_inv files (b e b' e' : bytes) : Prop :=
  (∀ g, g ∈ files → overlaps b' e' g → reach files b e g) ∧ (∀ g, overlaps b e g → overlaps b' e' g).

Lemma reach_inv_step files b e b1 e1 f b2 e2 :
  (∀ k, ord u [] k ≠ Gt) → Forall file_ok files →
  reach_inv files b e b1 e1 → f ∈ files → widens b1 e1 f b2 e2 → reach_inv files b e b2 e2.
Proof.
  intros Hleast Hok [H1 H2] Hf [Hov Hw]. pose proof (H1 f Hf Hov) as Rf. rewrite Forall_forall in Hok.
  destruct (file_keys f (Hok f Hf)) as (_ & _ & _ & _ & Hlf). destruct Hw as [([Hb1 Hl] & -> & ->)|([He1 Hg] & -> & ->)]; split.
  - intros g Hgin Hog. destruct (decide (lt_begin (hi g) b1)) as [[_ Hgb]|]; [|apply H1; [done|]; split; [done|apply Hog]].
    apply (reach_file _ _ _ f g Rf Hgin). destruct (file_keys g (Hok g Hgin)) as (_ & _ & _ & _ & Hlg). split.
    + assert (ord u (lo g) b1 = Lt) as Hlt by (by eapply ord_le_lt). assert (ord u b1 (hi f) ≠ Gt) as Hle.
      { apply ord_not_lt. intros H. apply (proj1 Hov). by split. }
      assert (ord u (lo g) (hi f) = Lt) as -> by (by eapply ord_lt_le). done.
    + destruct (decide (lo f = [])) as [->|Hne]; [apply Hleast|]. apply ord_not_lt. intros H. apply (proj1 Hog). by split.
  - intros g Hog%H2. destruct Hog as [Ha Hb]. split; [|done]. intros [Hne Hlt]. apply Ha. split; [done|]. by eapply ord_trans.
  - intros g Hgin Hog. destruct (decide (gt_end (lo g) e1)) as [[_ Hge]|]; [|apply H1; [done|]; split; [apply Hog|done]].
    apply (reach_file _ _ _ f g Rf Hgin). destruct (file_keys g (Hok g Hgin)) as (_ & _ & _ & _ & Hlg). split.
    + destruct (decide (hi f = [])) as [E|Hne]; [exfalso; apply (Hleast e1); by rewrite <- E|]. intros H. apply (proj2 Hog). by split.
    + assert (ord u e1 (hi g) = Lt) as Hlt by (eapply ord_lt_le; [by apply ord_Gt_Lt|done]). assert (ord u (lo f) e1 ≠ Gt) as Hle.
      { intros H. apply (proj2 Hov). by split. }
      assert (ord u (lo f) (hi g) = Lt) as -> by (by eapply ord_le_lt). done.
  - intros g Hog%H2. destruct Hog as [Ha Hb]. split; [done|]. intros [Hne Hlt]. apply Hb. split; [done|].
    rewrite ord_Gt_Lt in *. by eapply ord_trans.
Qed.

Lemma overlapping_least v files b e :
  (∀ k, ord u [] k ≠ Gt) → user_cmp v = u → level_files v 0 = Ret files → Forall file_ok files → key_ok icmp b → key_ok icmp e →
  ∃ fs, overlapping_inputs M v 0 b e = Ret fs ∧ sublist fs files ∧ ∀ f, f ∈ fs ↔ reach files (ukey_of b) (ukey_of e) f.
Proof.
  intros Hleast Hv Hl Hok Hb He. unfold overlapping_inputs. rewrite !parsed_ukey_ok by (by apply ikey_length). cbn [massert]. change (0 <? NUM_LEVELS) with true.
  cbn [massert]. rewrite !bind_Ret, Hl, bind_Ret. pose proof (sticking_bound files (ukey_of b) (ukey_of e)).
  destruct (overlapping_loop_ok v 0 files (reach_inv files (ukey_of b) (ukey_of e)) Hv Hl Hok
    ltac:(intros; by eapply reach_inv_step) (2 * length files + 1) (ukey_of b) (ukey_of e)) as (b' & e' & -> & [H1 H2] & Hin & _);
    [right; by apply ikey_user..|split; [intros; by constructor|done]|lia|].
  specialize (Hin eq_refl). eexists. split; [done|]. split; [apply sublist_filter|]. intros f. rewrite list_elem_of_filter. split; [by intros [? ?]; apply H1|].
  intros R. split; [|by eapply reach_elem]. induction R as [f Hf Hov|f g R IH Hg [T1 T2]]; [by apply H2|].
  pose proof (reach_elem _ _ _ _ R) as Hf. destruct (Hin f Hf IH) as [Ha Hb']. split.
  - intros [Hne Hlt]. apply Ha. split; [done|]. by eapply ord_le_lt.
  - intros [Hne Hgt]. apply Hb'. split; [done|]. apply ord_Gt_Lt in Hgt. apply ord_Gt_Lt. by eapply ord_lt_le.
Qed.

Lemma overlapping_exact v level files b e :
  user_cmp v = u → 0 < level < NUM_LEVELS → level_files v level = Ret files → Forall file_ok files → key_ok icmp b → key_ok icmp e →
  overlapping_inputs M v level b e = Ret (filter (overlaps (ukey_of b) (ukey_of e)) files).
Proof.
  intros Hv Hlv Hl Hok Hb He. unfold overlapping_inputs. rewrite !parsed_ukey_ok by (by apply ikey_length). ztest. cbn [massert]. rewrite !bind_Ret, Hl, bind_Ret.
  pose proof (sticking_bound files (ukey_of b) (ukey_of e)).
  destruct (overlapping_loop_ok v level files (λ _ _, True) Hv Hl Hok ltac:(done) (2 * length files + 1) (ukey_of b) (ukey_of e)) as (b' & e' & -> & _ & _ & H2);
    [right; by apply ikey_user..|done|lia|]. by destruct (H2 ltac:(lia)) as [-> ->].
Qed.

(** *** The level for a new table *)

Lemma after_file_ok key f : file_ok f → bound_ok key → key_is_after_file M u key f = Ret (bool_decide (lt_begin (hi f) key)).
Proof.
  intros Hf Hk. destruct (file_keys f Hf) as (_ & Kh & _ & E & _). unfold key_is_after_file, cmp_inner. rewrite E, bind_Ret.
  rewrite <- (test_begin (hi f) key Kh Hk). destruct (decide (key = [])) as [|Hne]; [done|]. destruct Hk as [|Hk]; [done|].
  rewrite !cmp_ret, !bind_Ret by done. rewrite (ord_antisym (hi f) key). by destruct (ord u (hi f) key).
Qed.

Lemma before_file_ok key f : file_ok f → bound_ok key → key_is_before_file M u key f = Ret (bool_decide (gt_end (lo f) key)).
Proof.
  intros Hf Hk. destruct (file_keys f Hf) as (Kl & _ & E & _ & _). unfold key_is_before_file, cmp_inner. rewrite E, bind_Ret.
  rewrite <- (test_end (lo f) key Kl Hk). destruct (decide (key = [])) as [|Hne]; [done|]. destruct Hk as [|Hk]; [done|].
  rewrite !cmp_ret, !bind_Ret by done. rewrite (ord_antisym (lo f) key). by destruct (ord u (lo f) key).
Qed.

Lemma overlaps_range_ok files min max :
  Forall file_ok files → bound_ok min → bound_ok max →
  some_file_overlaps_range M u files min max = Ret (bool_decide (Exists (overlaps min max) files)).
Proof.
  intros Hok Hmin Hmax. induction Hok as [|f files Hf Hok IH]; cbn [some_file_overlaps_range].
  { by rewrite bool_decide_false by (by intros ?%Exists_nil). }
  rewrite after_file_ok, bind_Ret by done. destruct (bool_decide (lt_begin (hi f) min)) eqn:E1.
  - rewrite bind_Ret. cbn [negb]. rewrite IH. f_equal. apply bool_decide_ext. rewrite Exists_cons. apply bool_decide_eq_true in E1. unfold overlaps at 2. tauto.
  - rewrite before_file_ok, bind_Ret by done. destruct (bool_decide (gt_end (lo f) max)) eqn:E2; cbn [negb].
    + rewrite IH. f_equal. apply bool_decide_ext. rewrite Exists_cons. apply bool_decide_eq_true in E2. unfold overlaps at 2. tauto.
    + apply bool_decide_eq_false in E1, E2. rewrite bool_decide_true; [done|]. by left.
Qed.

(** Files of disjoint ranges in order. *)
Definition disjoint_files files : Prop := StronglySorted (λ f g, ord icmp (largest (M f)) (smallest (M g)) = Lt) files.

Lemma disjoint_ascending files : Forall file_ok files → disjoint_files files → ascending files.
Proof.
  intros Hok Hd. induction Hd as [|f files Hd IH Hf]; [constructor|]. apply Forall_cons in Hok as [_ Hok]. constructor; [by apply IH|].
  rewrite Forall_forall in *. intros g Hg. destruct (Hok g Hg) as (_ & _ & Hle). assert (ord icmp (largest (M f)) (largest (M g)) = Lt) as ->; [|done].
  eapply ord_lt_le; [by apply Hf|done].
Qed.

Lemma seek_key_ok min : key_ok u min → zlen min + 8 < 2 ^ 63 →
  ∃ lk, LookupKey_new min MAX_SEQUENCE_NUMBER = Ret lk ∧ internal_key lk = Ret (ikey min MAX_SEQUENCE_NUMBER TypeValue)
  ∧ key_ok icmp (ikey min MAX_SEQUENCE_NUMBER TypeValue).
Proof.
  intros Hm Hl. destruct (lookup_key_spec min MAX_SEQUENCE_NUMBER TypeValue) as (lk & E & _ & Hi & _); [unfold is_u; lia|].
  exists lk. split_and!; [done..|]. by apply ikey_wf.
Qed.

Lemma largest_not_below f min : file_ok f → not_below (ikey min MAX_SEQUENCE_NUMBER TypeValue) f ↔ ord u (hi f) min ≠ Lt.
Proof.
  intros (_ & (_ & Hs & _) & _). unfold not_below, hi.
  change (ord_internal (u := u) (largest (M f)) (ikey min MAX_SEQUENCE_NUMBER TypeValue) ≠ Lt ↔ ord u (ukey_of (largest (M f))) min ≠ Lt).
  unfold ord_internal. rewrite ukey_of_ikey, seq_of_ikey by done. destruct (ord u (ukey_of (largest (M f))) min); [|done..].
  unfold is_u in Hs. split; [done|]. intros _. rewrite Z.compare_lt_iff. unfold MAX_SEQUENCE_NUMBER. lia.
Qed.

(** The binary search among disjoint files answers like the linear one. *)
Lemma overlaps_disjoint_ok files min max :
  Forall file_ok files → disjoint_files files → key_ok u min → min ≠ [] → zlen min + 8 < 2 ^ 63 → bound_ok max →
  some_file_overlaps_range_disjoint M u files min max = Ret (bool_decide (Exists (overlaps min max) files)).
Proof.
  intros Hok Hd Hm Hne Hl Hmax. unfold some_file_overlaps_range_disjoint. destruct (seek_key_ok min Hm Hl) as (lk & -> & E & Hk).
  rewrite bind_Ret, E, bind_Ret, find_file_spec, bind_Ret by (done || by apply disjoint_ascending).
  destruct (list_find _ files) as [[i f]|] eqn:Ef; cbn [fmap option_fmap option_map].
  - apply list_find_Some in Ef as (Hi & Hnb & Hfirst). cbn [compose fst]. rewrite (index_lookup _ _ _ Hi), bind_Ret.
    pose proof Hok as Hok'. rewrite Forall_lookup in Hok'. pose proof (Hok' _ _ Hi) as Hf. rewrite before_file_ok, bind_Ret by done. f_equal.
    rewrite largest_not_below in Hnb by done. rewrite <- bool_decide_not. apply bool_decide_ext. split.
    + intros Hgt. apply Exists_exists. exists f. split; [by apply (list_elem_of_lookup_2 _ i)|]. split; [intros [_ Hx]; done|done].
    + intros (g & (j & Hj)%list_elem_of_lookup & Hov)%Exists_exists [Hmne Hgt]. apply (proj2 Hov). split; [done|].
      assert (i ≤ j)%nat as Hij.
      { destruct (Nat.le_gt_cases i j); [done|]. exfalso. apply (Hfirst _ _ Hj); [done|]. rewrite largest_not_below by (by eapply Hok').
        intros Hx. apply (proj1 Hov). done. }
      destruct (decide (i = j)) as [<-|Hn]; [congruence|]. pose proof (sorted_lookup_lt _ _ _ _ _ _ Hd Hi Hj ltac:(lia)) as Hlt. cbn in Hlt.
      destruct (file_keys f Hf) as (_ & _ & _ & _ & Hlf). assert (ord u (hi f) (lo g) ≠ Gt) as Hfg.
      { intros Hx. change (ord_internal (u := u) (largest (M f)) (smallest (M g)) = Lt) in Hlt. unfold ord_internal in Hlt. unfold hi, lo in Hx. by rewrite Hx in Hlt. }
      apply ord_Gt_Lt. apply ord_Gt_Lt in Hgt. eapply ord_lt_le; [exact Hgt|]. by eapply ord_le_trans.
  - apply list_find_None in Ef. rewrite bool_decide_false; [done|]. intros (g & Hg & Hov)%Exists_exists. rewrite Forall_forall in Ef, Hok.
    apply (Ef g Hg). apply largest_not_below; [by apply Hok|]. intros Hx. apply (proj1 Hov). done.
Qed.

Definition sum_sizes files : Z := foldr (λ f a, size (M f) + a) 0 files.

Lemma sum_sizes_filter files (P : FileMetaHandle → Prop) `{∀ f, Decision (P f)} :
  Forall (λ f, 0 ≤ size (M f)) files → 0 ≤ sum_sizes (filter P files) ≤ sum_sizes files.
Proof. induction 1 as [|f files Hf Hfs IH]; [done|]. rewrite filter_cons. unfold sum_sizes in *. case_decide; cbn [foldr]; lia. Qed.

Lemma total_size_from files a :
  0 ≤ a → Forall (λ f, 0 ≤ size (M f)) files → a + sum_sizes files < 2 ^ 64 → mfoldl (λ a f, uadd 64 a (size (M f))) a files = Ret (a + sum_sizes files).
Proof.
  intros Ha Hf. revert a Ha. induction Hf as [|f files Hf Hfs IH]; intros a Ha Hs; unfold sum_sizes in *; cbn [mfoldl foldr] in *; [f_equal; lia|].
  assert (0 ≤ foldr (λ f a, size (M f) + a) 0 files) by (clear -Hfs; induction Hfs; cbn; lia).
  assert (uadd 64 a (size (M f)) = Ret (a + size (M f))) as -> by (unfold uadd; by ztest). rewrite bind_Ret, IH by lia. f_equal. lia.
Qed.

Record version_ok v : Prop := {
  vo_cmp : user_cmp v = u;
  vo_levels : length (v_files v) = Z.to_nat NUM_LEVELS;
  vo_files : Forall (Forall file_ok) (v_files v);
  vo_sizes : Forall (λ fs, Forall (λ f, 0 ≤ size (M f)) fs ∧ sum_sizes fs < 2 ^ 64) (v_files v);
}.

Lemma version_level v l : version_ok v → 0 ≤ l < NUM_LEVELS →
  ∃ files, v_files v !! Z.to_nat l = Some files ∧ level_files v l = Ret files ∧ Forall file_ok files
    ∧ Forall (λ f, 0 ≤ size (M f)) files ∧ sum_sizes files < 2 ^ 64.
Proof.
  intros V Hl. destruct (lookup_lt_is_Some_2 (v_files v) (Z.to_nat l)) as [files Hf]; [rewrite (vo_levels _ V); lia|].
  exists files. pose proof (vo_files _ V) as H1. pose proof (vo_sizes _ V) as H2. rewrite Forall_lookup in H1, H2.
  split; [done|]. split; [apply index_Z; [lia|done]|]. split; [by eapply H1|by eapply H2].
Qed.

(** The files of a level of the version. *)
Definition files_at v (l : Z) : list FileMetaHandle := default [] (v_files v !! Z.to_nat l).

(** A table with these keys goes no further than level [l]: a file of the next level overlaps it,
    or those of the level after that have more than 20 MB. *)
Definition blocked v (min max : bytes) (l : Z) : Prop :=
  Exists (overlaps min max) (files_at v (l + 1)) ∨ 10 * 2 ^ 21 < sum_sizes (filter (overlaps min max) (files_at v (l + 2))).

Lemma pick_level_loop_ok v min max : version_ok v → key_ok u min → key_ok u max → zlen min + 8 < 2 ^ 63 → zlen max + 8 < 2 ^ 63 →
  ∀ fuel level, 0 ≤ level → MAX_MEM_COMPACT_LEVEL - level ≤ Z.of_nat fuel → level ≤ MAX_MEM_COMPACT_LEVEL →
  ∃ l, pick_level_loop M fuel v min max (ikey min MAX_SEQUENCE_NUMBER TypeValue) (ikey max 0 TypeDeletion) level = Ret l
    ∧ level ≤ l ≤ MAX_MEM_COMPACT_LEVEL ∧ (l < MAX_MEM_COMPACT_LEVEL → blocked v min max l)
    ∧ ∀ j, level < j ≤ l → Forall (λ f, ¬ overlaps min max f) (files_at v j) ∧ sum_sizes (filter (overlaps min max) (files_at v (j + 1))) ≤ 10 * 2 ^ 21.
Proof.
  intros V Hmin Hmax Lmin Lmax. unfold MAX_MEM_COMPACT_LEVEL. induction fuel as [|fuel IH]; intros level H0 Hf Hle.
  - exists level. cbn. unfold MAX_MEM_COMPACT_LEVEL. ztest. split; [done|]. split_and!; [lia..|]. intros j Hj. lia.
  - cbn [pick_level_loop]. unfold MAX_MEM_COMPACT_LEVEL. destruct (Z.ltb_spec level 2) as [Hlt|Hge].
    2: { exists level. split; [done|]. split_and!; [lia..|]. intros j Hj. lia. }
    assert (blocked v min max level → ∃ l, Ret level = Ret l ∧ level ≤ l ≤ 2 ∧ (l < 2 → blocked v min max l) ∧ ∀ j, level < j ≤ l → Forall (λ f, ¬ overlaps min max f) (files_at v j)
              ∧ sum_sizes (filter (overlaps min max) (files_at v (j + 1))) ≤ 10 * 2 ^ 21) as Hstop by (intros Hb; exists level; split_and!; [done|lia..|done|intros j Hj; lia]).
    destruct (version_level v (level + 1) V ltac:(unfold NUM_LEVELS; lia)) as (f1 & L1 & E1 & Ok1 & _).
    unfold overlap_in_level. change NUM_LEVELS with 7 in *. ztest. cbn [massert]. rewrite bind_Ret, E1, !bind_Ret, (vo_cmp _ V).
    rewrite overlaps_range_ok, bind_Ret by (done || by right). destruct (bool_decide (Exists (overlaps min max) f1)) eqn:E; [apply bool_decide_eq_true in E; apply Hstop; left; unfold files_at; by rewrite L1|]. apply bool_decide_eq_false in E.
    destruct (version_level v (level + 2) V ltac:(unfold NUM_LEVELS; lia)) as (f2 & L2 & E2 & Ok2 & S2 & T2).
    rewrite (overlapping_exact v (level + 2) f2), bind_Ret;
      [|exact (vo_cmp _ V)|change NUM_LEVELS with 7; lia|done|done|by apply ikey_wf|by apply ikey_wf].
    rewrite !ukey_of_ikey. pose proof (sum_sizes_filter f2 (overlaps min max) S2) as Hs.
    assert (Forall (λ f, 0 ≤ size (M f)) (filter (overlaps min max) f2)) as S2'
      by (rewrite Forall_forall in S2 |- *; intros f [_ Hin]%list_elem_of_filter; by apply S2).
    unfold total_size. rewrite total_size_from by (done || lia). rewrite Z.add_0_l, !bind_Ret. change (10 * Z.shiftl 2 20) with (10 * 2 ^ 21).
    destruct (Z.ltb_spec (10 * 2 ^ 21) (sum_sizes (filter (overlaps min max) f2))) as [Hbig|]; [apply Hstop; right; unfold files_at; by rewrite L2|].
    destruct (IH (level + 1)) as (l & -> & Hl & Hbl & Hj); [lia..|]. exists l. split; [done|]. split_and!; [lia..|done|]. intros j Hjl. destruct (decide (j = level + 1)) as [->|]; [|apply Hj; lia].
    unfold files_at. rewrite L1. replace (level + 1 + 1) with (level + 2) by lia. rewrite L2. cbn. split; [by apply Forall_Exists_neg|done].
Qed.

(** Whatever the order of the files, the binary search ends at one of them or behind them. *)
Lemma find_file_total files key : Forall file_ok files → key_ok icmp key →
  ∀ fuel left right, 0 ≤ left ≤ right → right ≤ zlen files → right - left ≤ Z.of_nat fuel →
  ∃ r, find_file_loop M fuel u files key left right = Ret r ∧ left ≤ r ≤ right.
Proof.
  intros Hok Hk. induction fuel as [|fuel IH]; intros left right Hlr Hr Hf; cbn [find_file_loop].
  - exists right. ztest. split; [done|lia].
  - destruct (Z.ltb_spec left right) as [Hlt|Hge]; [|exists right; split; [done|lia]].
    set (mid := (left + right) / 2). assert (left ≤ mid < right) as Hm by (unfold mid; split; [apply Z.div_le_lower_bound|apply Z.div_lt_upper_bound]; lia).
    destruct (lookup_lt_is_Some_2 files (Z.to_nat mid)) as [f Hfm]; [lia|].
    rewrite (index_Z files mid f ltac:(lia) Hfm), bind_Ret. rewrite Forall_lookup in Hok. destruct (Hok _ _ Hfm) as (_ & Hfk & _). rewrite cmp_ret, bind_Ret by done.
    destruct (is_lt _); [destruct (IH (mid + 1) right) as (r & -> & ?)|destruct (IH left mid) as (r & -> & ?)]; try lia; exists r; (split; [done|lia]).
Qed.

Lemma overlaps_disjoint_total files min max : Forall file_ok files → key_ok u min → zlen min + 8 < 2 ^ 63 → bound_ok max →
  ∃ b, some_file_overlaps_range_disjoint M u files min max = Ret b.
Proof.
  intros Hok Hm Hl Hmax. unfold some_file_overlaps_range_disjoint. destruct (seek_key_ok min Hm Hl) as (lk & -> & E & Hk). rewrite bind_Ret, E, bind_Ret.
  unfold find_file. destruct (find_file_total files _ Hok Hk (length files) 0 (zlen files)) as (r & -> & Hr); [lia..|]. rewrite !bind_Ret.
  destruct (Z.ltb_spec r (zlen files)) as [Hlt|]; [|by eexists]. destruct (lookup_lt_is_Some_2 files (Z.to_nat r)) as [f Hf]; [lia|].
  rewrite (index_Z files r f ltac:(lia) Hf), bind_Ret. rewrite Forall_lookup in Hok. rewrite before_file_ok, bind_Ret by eauto. by eexists.
Qed.

(** The level for a new table, when the search in level 0 has answered [b]. *)
Lemma pick_level_ok v min max b : version_ok v → some_file_overlaps_range_disjoint M u (files_at v 0) min max = Ret b →
  key_ok u min → key_ok u max → zlen min + 8 < 2 ^ 63 → zlen max + 8 < 2 ^ 63 →
  ∃ l, pick_memtable_output_level M v min max = Ret l ∧ 0 ≤ l ≤ MAX_MEM_COMPACT_LEVEL ∧ (b = true → l = 0) ∧ (b = false → l < MAX_MEM_COMPACT_LEVEL → blocked v min max l)
    ∧ ∀ j, 0 < j ≤ l → Forall (λ f, ¬ overlaps min max f) (files_at v j) ∧ sum_sizes (filter (overlaps min max) (files_at v (j + 1))) ≤ 10 * 2 ^ 21.
Proof.
  intros V Eb Hmin Hmax Lmin Lmax. unfold pick_memtable_output_level, overlap_in_level. change (0 <? NUM_LEVELS) with true. cbn [massert]. rewrite bind_Ret.
  destruct (version_level v 0 V ltac:(unfold NUM_LEVELS; lia)) as (f0 & L0 & E0 & _). rewrite E0, bind_Ret, (vo_cmp _ V). cbn [Z.eqb].
  assert (files_at v 0 = f0) as F0 by (unfold files_at; by rewrite L0). rewrite F0 in Eb. rewrite Eb, bind_Ret. destruct b.
  - exists 0. split_and!; [done|lia|unfold MAX_MEM_COMPACT_LEVEL; lia|done|done|]. intros j Hj. lia.
  - destruct (seek_key_ok min Hmin Lmin) as (lk1 & -> & Ei1 & _). rewrite bind_Ret.
    destruct (lookup_key_spec max 0 TypeDeletion) as (lk2 & -> & _ & Ei2 & _); [unfold is_u; lia|]. rewrite bind_Ret, Ei1, bind_Ret, Ei2, bind_Ret.
    destruct (pick_level_loop_ok v min max V Hmin Hmax Lmin Lmax 2 0) as (l & -> & Hl & Hbl & Hj); [unfold MAX_MEM_COMPACT_LEVEL; lia..|].
    exists l. split_and!; [done|lia..|done|done|done].
Qed.

End file_lemmas.

(** *** Seeks *)

(** The answers of [n] calls of [update_stats]. *)
Fixpoint samples (n : nat) (stats : GetStats) (s : Metas * Version) : exec ((Metas * Version) * list bool) :=
  match n with
  | O => Ret (s, [])
  | S n =>
      '(s, b) ← update_stats s.1 stats s.2;
      '(s, bs) ← samples n stats s;
      Ret (s, b :: bs)
  end.

Lemma samples_S n stats s :
  samples (S n) stats s = ('(s, b) ← update_stats s.1 stats s.2; '(s, bs) ← samples n stats s; Ret (s, b :: bs)).
Proof. done. Qed.

Lemma samples_until (M : Metas) v f level n :
  file_to_compact v = None → allowed_seeks (M f) = Z.of_nat (S n) →
  ∃ M' v', samples (S n) {| gs_file := Some f; gs_level := level |} (M, v) = Ret ((M', v'), replicate n false ++ [true])
    ∧ file_to_compact v' = Some f ∧ file_to_compact_lvl v' = level ∧ v_files v' = v_files v.
Proof.
  revert M. induction n as [|n IH]; intros M Hn Ha.
  - cbn [samples]. unfold update_stats. cbn [gs_file fst snd]. cbv zeta. rewrite Ha, Hn. cbn. by eexists _, _.
  - rewrite samples_S. unfold update_stats. cbn [gs_file fst snd]. cbv zeta. rewrite Ha. ztest. rewrite bind_Ret.
    set (M1 := set_meta f _ M).
    destruct (IH M1 Hn) as (M' & v' & E & H1); [unfold M1, set_meta; rewrite decide_True by done; cbn; lia|].
    rewrite E, bind_Ret. exists M', v'. by split.
Qed.

(** ** Theorems *)

Section theorems.
Context `{IEL : IntegerEncodingLaws} (u : Cmp) {UO : OrderedCmp u} (M : Metas).
Implicit Types (v : Version) (files : list FileMetaHandle).

(** C40: In a level whose files are in ascending order [find_file], a binary search, finds the file that a linear search finds: the first one
    whose largest key is not below the key; none if there is no such file. *)
Theorem find_file_linear files key :
  ascending (u := u) M files → Forall (file_ok (u := u) M) files → key_ok (InternalKeyCmp u) key →
  find_file M u files key = Ret (Z.of_nat ∘ fst <$> list_find (not_below (u := u) M key) files).
Proof. apply find_file_spec. Qed.

(** C35: [overlapping_inputs] ends and gives, above level 0, exactly the files that overlap the
    range of user keys; in level 0, where files overlap each other, exactly the files reached
    from the range by overlaps, however often the search is restarted with a wider range.
    (The empty key is the least one, as for the default comparator.) *)
Theorem overlapping_inputs_closed v level files b e :
  user_cmp v = u → (∀ k, ord u [] k ≠ Gt) → level_files v level = Ret files → 0 ≤ level < NUM_LEVELS →
  Forall (file_ok (u := u) M) files → key_ok (InternalKeyCmp u) b → key_ok (InternalKeyCmp u) e →
  ∃ fs, overlapping_inputs M v level b e = Ret fs ∧ sublist fs files
    ∧ ∀ f, f ∈ fs ↔ if decide (level = 0) then reach (u := u) M files (ukey_of b) (ukey_of e) f
                    else f ∈ files ∧ overlaps (u := u) M (ukey_of b) (ukey_of e) f.
Proof.
  intros Hv Hleast Hl Hlv Hok Hb He. case_decide as Hz.
  - subst level. by apply overlapping_least.
  - eexists. rewrite (overlapping_exact (u := u) M v level files b e) by (done || lia). split; [done|]. split; [apply sublist_filter|].
    intros f. rewrite list_elem_of_filter. tauto.
Qed.

(** C36: in a version whose level-0 files are disjoint and in order, the level that
    [pick_memtable_output_level] gives to a new table is at most 2; if it is not 0, no file of
    this level or of one above it overlaps the table, and for every level it goes down the files
    one level further that overlap it have at most 20 MB.  The level is the deepest such one: if
    it is below 2, a file of level 0 or of the next level overlaps the table, or the files of the
    level after that which overlap it have more than 20 MB.  (Level-0 files overlap in general;
    then a file that overlaps the table can be missed, see [pick_level_misses_overlap].) *)
Theorem pick_level_bounds v min max :
  version_ok (u := u) M v → disjoint_files (u := u) M (files_at v 0) →
  key_ok u min → key_ok u max → min ≠ [] → zlen min + 8 < 2 ^ 63 → zlen max + 8 < 2 ^ 63 →
  ∃ l, pick_memtable_output_level M v min max = Ret l ∧ 0 ≤ l ≤ MAX_MEM_COMPACT_LEVEL
    ∧ (0 < l → ∀ j, 0 ≤ j ≤ l → Forall (λ f, ¬ overlaps (u := u) M min max f) (files_at v j))
    ∧ (∀ j, 0 < j ≤ l → sum_sizes M (filter (overlaps (u := u) M min max) (files_at v (j + 1))) ≤ 10 * 2 ^ 21)
    ∧ (l < MAX_MEM_COMPACT_LEVEL → Exists (overlaps (u := u) M min max) (files_at v 0) ∨ blocked (u := u) M v min max l).
Proof.
  intros V Hd Hmin Hmax Hne Lmin Lmax. destruct (version_level (u := u) M v 0 V ltac:(unfold NUM_LEVELS; lia)) as (f0 & L0 & _ & Ok0 & _).
  assert (files_at v 0 = f0) as F0 by (unfold files_at; by rewrite L0). rewrite <- F0 in Ok0.
  pose proof (overlaps_disjoint_ok (u := u) M _ min max Ok0 Hd Hmin Hne Lmin (or_intror Hmax)) as Eb.
  destruct (pick_level_ok (u := u) M v min max _ V Eb Hmin Hmax Lmin Lmax) as (l & E & Hl & Hb & Hbl & Hj). exists l.
  split_and!; [done|lia..| |by intros; apply Hj|intros Hlt; case_bool_decide; [by left|right; by apply Hbl]].
  intros Hpos j Hjl. destruct (decide (j = 0)) as [->|]; [|apply Hj; lia]. apply Forall_Exists_neg. intros Hex. rewrite bool_decide_true in Hb by done. specialize (Hb eq_refl). lia.
Qed.

(** C37: a file that is read in vain becomes the file to compact: with [n] seeks allowed, the
    [n]-th call of [update_stats] for it answers [true] and the ones before it [false], if no
    other file was chosen meanwhile. *)
Theorem update_stats_triggers v f level n :
  file_to_compact v = None → allowed_seeks (M f) = Z.of_nat (S n) →
  ∃ M' v', samples (S n) {| gs_file := Some f; gs_level := level |} (M, v) = Ret ((M', v'), replicate n false ++ [true])
    ∧ file_to_compact v' = Some f ∧ file_to_compact_lvl v' = level ∧ v_files v' = v_files v.
Proof. apply samples_until. Qed.

End theorems.

(** ** Witnesses *)

Module TestVersion.
#[local] Existing Instance Reference.ref_encoding.
#[local] Existing Instance Reference.ref_encoding_laws.

Definition file (n : Z) (lo : bytes) (slo : Z) (hi : bytes) (shi : Z) : FileMetaData :=
  {| allowed_seeks := 10; num := n; size := 163840; smallest := ikey lo slo TypeValue; largest := ikey hi shi TypeValue |}.
Definition metas (l : list FileMetaData) : Metas := λ f, default FileMetaData_default (l !! f).
Definition version (levels : list (list FileMetaHandle)) : Version :=
  {| user_cmp := DefaultCmp; v_files := levels ++ replicate (7 - length levels) []; file_to_compact := None; file_to_compact_lvl := 0;
     compaction_score := None; compaction_level := None |}.

(** Level 0: [aaa..aba] and [aax..abz], overlapping; level 1: [daa..daf] and [ffa..ffz]. *)
Definition M : Metas := metas
  [file 2 [97; 97; 97] 4 [97; 98; 97] 1; file 3 [97; 97; 120] 5 [97; 98; 122] 3; file 5 [100; 97; 97] 11 [100; 97; 102] 14;
   file 6 [102; 102; 97] 20 [102; 102; 122] 22].
Definition V : Version := version [[0; 1]; [2; 3]]%nat.

Lemma files_ok : Forall (file_ok (u := DefaultCmp) M) [0; 1; 2; 3]%nat.
Proof. repeat apply Forall_cons_2; try apply Forall_nil_2; (split_and!; by_decide || exact I). Qed.
End TestVersion.

Lemma find_file_linear_witness :
  let IE := Reference.ref_encoding in
  find_file TestVersion.M DefaultCmp [2; 3]%nat (ikey [101] 9 TypeValue) = Ret (Some 1).
Proof.
  intros IE. pose proof TestVersion.files_ok as H.
  rewrite (find_file_linear DefaultCmp TestVersion.M [2; 3]%nat (ikey [101] 9 TypeValue)).
  - reflexivity.
  - repeat constructor; by_decide.
  - by apply (Forall_app _ [0; 1]%nat [2; 3]%nat) in H as [_ H].
  - split_and!; by_decide || exact I.
Defined.

Lemma overlapping_inputs_closed_witness :
  let IE := Reference.ref_encoding in
  ∃ fs, overlapping_inputs TestVersion.M TestVersion.V 0 (ikey [97; 97; 97] 9 TypeValue) (ikey [97; 97; 98] 9 TypeValue) = Ret fs ∧ 1%nat ∈ fs.
Proof.
  intros IE. pose proof TestVersion.files_ok as H.
  destruct (overlapping_inputs_closed DefaultCmp TestVersion.M TestVersion.V 0 [0; 1]%nat
    (ikey [97; 97; 97] 9 TypeValue) (ikey [97; 97; 98] 9 TypeValue)) as (fs & E & _ & Hin).
  - reflexivity.
  - by intros [|k ks].
  - reflexivity.
  - unfold NUM_LEVELS. lia.
  - by apply (Forall_app _ [0; 1]%nat [2; 3]%nat) in H as [H _].
  - split_and!; by_decide || exact I.
  - split_and!; by_decide || exact I.
  - exists fs. split; [exact E|]. apply Hin. apply (reach_file _ _ _ _ 0%nat).
    + apply reach_range; by_decide.
    + by_decide.
    + split; by_decide.
Defined.

Lemma pick_level_bounds_witness :
  let IE := Reference.ref_encoding in
  let v := TestVersion.version [[0]; [2; 3]]%nat in
  ∃ l, pick_memtable_output_level TestVersion.M v [99] [101] = Ret l ∧ 0 ≤ l ≤ 2.
Proof.
  intros IE v. pose proof TestVersion.files_ok as H.
  destruct (pick_level_bounds (IEL := Reference.ref_encoding_laws) DefaultCmp TestVersion.M v [99] [101]) as (l & E & Hl & _).
  - split; [reflexivity|reflexivity| |].
    + rewrite Forall_forall in H. repeat apply Forall_cons_2; try apply Forall_nil_2; apply H; set_solver.
    + repeat apply Forall_cons_2; try apply Forall_nil_2; (split; [|by_decide]); repeat apply Forall_cons_2; try apply Forall_nil_2; by_decide.
  - repeat constructor.
  - exact I.
  - exact I.
  - discriminate.
  - by_decide.
  - by_decide.
  - exists l. split; [exact E|exact Hl].
Defined.

Lemma update_stats_triggers_witness :
  ∃ M' v', samples 10 {| gs_file := Some 1%nat; gs_level := 0 |} (TestVersion.M, TestVersion.V) = Ret ((M', v'), replicate 9 false ++ [true]) ∧ file_to_compact v' = Some 1%nat.
Proof.
  destruct (update_stats_triggers TestVersion.M TestVersion.V 1 0 9 eq_refl eq_refl) as (M' & v' & E & F & _). exists M', v'. split; [exact E|exact F].
Defined.

(** What [overlap_in_level] gets wrong: it uses the binary search of disjoint files in level 0,
    where files are neither disjoint nor in order, and so misses the second file, whose keys
    [a..d] contain the range [b..c]: a table of this range, newer than the file, goes to level
    2, where the older file hides it. *)
Theorem pick_level_misses_overlap :
  let IE := Reference.ref_encoding in
  let M := TestVersion.metas [TestVersion.file 3 [103] 4 [107] 5; TestVersion.file 4 [97] 6 [100] 7] in
  let v := TestVersion.version [[0; 1]]%nat in
  overlap_in_level M v 0 [98] [99] = Ret false ∧ pick_memtable_output_level M v [98] [99] = Ret 2
  ∧ some_file_overlaps_range M DefaultCmp [0; 1]%nat [98] [99] = Ret true.
Proof. vm_compute. done. Qed.
