(* ===== verification/VersionRead.v ===== *)
(** * VersionRead: reading the tables of a version

    What [VersionIter] and [Version::get] ([src/version.rs]) read from the tables of a
    version, through the table cache and the block cache that they share. *)

From S2P Require Import Prelude Encoding Error Io Env MemEnv Types Cmp KeyTypes Log Iterator Filter FilterBlock Options BlockBuilder Block Cache TableBuilder Table TableFile TableRead TableCache Version.

Section read.
Context `{IEL : IntegerEncodingLaws} `{CRL : Crc32Laws} `{EN : Env E} (debug_bytes : bytes → string).
Context (e0 : E) (db : string) (opts : Options) {UO : OrderedCmp (o_cmp opts)}.
Abbreviation u := (o_cmp opts) (only parsing).
Abbreviation o := (with_internal_keys opts) (only parsing).
#[local] Instance OC : OrderedCmp (o_cmp o) := InternalKeyCmp_ordered (u := u).
Context (T : gmap Z (tfile ra_file)) (FE : files_in_env e0 db opts T) (M : Metas).
#[local] Instance RA0 : RandomAccess ra_file := ra_read e0.
Implicit Types (st : Storage E ra_file) (ids : gmap Z Z) (tf : tfile ra_file) (t : TableIterator ra_file).
Abbreviation ok := (storage_ok e0 db opts T) (only parsing).

(** ** One table of the storage *)

(** An iterator over the table [tab] of the file [tf], at [p]. *)
Definition tv ids st n tf tab t (p : pos) : Prop :=
  table_for opts T ids n tf tab
  ∧ ti_view o (tfl_list tf) (tfl_blocks tf) tab (same_storage e0 db opts T ids st) (st_blocks st, t) (tfl_list tf) p.

Lemma tv_storage ids st n tf tab t p : tv ids st n tf tab t p → ok ids st.
Proof. intros (_ & _ & H & _). unfold same_storage in H. cbn in H. by destruct st. Qed.

Lemma open_iter_ok ids st n tf :
  ok ids st → T !! n = Some tf →
  ∃ st' tab t ids', get_table debug_bytes n st = Ret (st', Ok tab) ∧ table_iter tab = Ret t ∧ ids ⊆ ids' ∧ tv ids' st' n tf tab t Start.
Proof.
  intros Hst Hn. destruct (get_table_ok debug_bytes e0 db opts T FE ids st n tf Hst Hn) as (st' & tab & ids' & E' & Hids & Hst' & HT).
  destruct (table_iter_ok o (tfl_list tf) (tfl_file tf) (tfl_blocks tf) tab (proj1 (proj2 HT)) (same_storage e0 db opts T ids' st') (st_blocks st')) as (t & Et & V).
  { unfold same_storage. by destruct st'. }
  exists st', tab, t, ids'. by split_and!.
Qed.

Lemma ti_laws ids st n tf tab (HT : table_for opts T ids n tf tab) :
  file_holds (tfl_file tf) (tfl_bytes tf) ∧ table_file o (tfl_list tf) (tfl_bytes tf) (tfl_blocks tf)
  ∧ table_of o (tfl_file tf) (tfl_blocks tf) tab ∧ serves_blocks o (tfl_blocks tf) tab (same_storage e0 db opts T ids st).
Proof.
  pose proof HT as (Hn & Hof & _). destruct (fe_table _ _ _ _ FE _ _ Hn) as [Hf TF]. split_and!; [done..|].
  apply (storage_serves e0 db opts T FE ids st n tf tab HT).
Qed.

Lemma st_advance_ok ids st n tf tab t p :
  tv ids st n tf tab t p → p ≠ Off →
  ∃ st' t', st_advance t st = Ret ((st', t'), on_entry (pos_next (tfl_list tf) p)) ∧ tv ids st' n tf tab t' (pos_next (tfl_list tf) p).
Proof.
  intros V Hp. pose proof (tv_storage _ _ _ _ _ _ _ V) as Hst. destruct V as [HT V]. destruct (ti_laws ids st n tf tab HT) as (Hf & TF & Hof & Hsv).
  destruct (ti_advance_ok o (tfl_list tf) (tfl_bytes tf) (tfl_blocks tf) TF tab _ Hsv _ _ V Hp) as ([b' t'] & E' & V').
  unfold st_advance, on_table. rewrite (sk_env _ _ _ _ _ _ Hst). cbn [it_advance TableIterator_iterator fst snd] in E'. unfold RA0 in E'. rewrite E', bind_Ret. by eexists _, t'.
Qed.

Lemma st_prev_ok ids st n tf tab t j :
  tv ids st n tf tab t (At j) →
  ∃ st' t', st_prev t st = Ret ((st', t'), on_entry (pos_prev (At j))) ∧ tv ids st' n tf tab t' (pos_prev (At j)).
Proof.
  intros V. pose proof (tv_storage _ _ _ _ _ _ _ V) as Hst. destruct V as [HT V]. destruct (ti_laws ids st n tf tab HT) as (Hf & TF & Hof & Hsv).
  destruct (ti_prev_ok o (tfl_list tf) (tfl_bytes tf) (tfl_blocks tf) TF tab _ Hsv _ _ V) as ([b' t'] & E' & V').
  unfold st_prev, on_table. rewrite (sk_env _ _ _ _ _ _ Hst). cbn [it_prev TableIterator_iterator fst snd] in E'. unfold RA0 in E'. rewrite E', bind_Ret. by eexists _, t'.
Qed.

Lemma st_seek_ok ids st n tf tab t p k :
  tv ids st n tf tab t p → key_ok (o_cmp o) k → gap_free o (tfl_list tf) k →
  ∃ st' t', st_seek k t st = Ret ((st', t'), ()) ∧ tv ids st' n tf tab t' (pos_seek (o_cmp o) k (tfl_list tf)).
Proof.
  intros V Hk Hg. pose proof (tv_storage _ _ _ _ _ _ _ V) as Hst. destruct V as [HT V]. destruct (ti_laws ids st n tf tab HT) as (Hf & TF & Hof & Hsv).
  destruct (ti_seek_ok o (tfl_list tf) (tfl_file tf) (tfl_bytes tf) (tfl_blocks tf) Hf TF tab Hof _ Hsv _ _ k V Hk Hg) as ([b' t'] & E' & V').
  unfold st_seek, on_table. rewrite (sk_env _ _ _ _ _ _ Hst). cbn [it_seek TableIterator_iterator fst snd] in E'. unfold RA0 in E'. rewrite E', !bind_Ret. by eexists _, t'.
Qed.

Lemma tv_valid ids st n tf tab t p : tv ids st n tf tab t p → ti_valid t = on_entry p ∧ ti_current t = Ret (entry_at (tfl_list tf) p).
Proof.
  intros [HT V]. destruct (ti_laws ids st n tf tab HT) as (Hf & TF & Hof & Hsv).
  exact (ti_valid_ok o (tfl_list tf) (tfl_bytes tf) (tfl_blocks tf) TF tab _ _ _ V).
Qed.

Lemma tv_bound ids st n tf tab t j : tv ids st n tf tab t (At j) → (j < length (tfl_list tf))%nat.
Proof.
  intros [HT V]. destruct (ti_laws ids st n tf tab HT) as (Hf & TF & Hof & Hsv).
  destruct V as (_ & _ & _ & (A & B & C & i & cb & HBs & -> & _ & Vb & _)). pose proof (view_bound _ _ _ Vb).
  rewrite (length_L o (tfl_list tf) (tfl_bytes tf) (tfl_blocks tf) TF A B C HBs). lia.
Qed.

(** ** The tables of a level, one after the other *)

(** The metadata [f] describes the table [tf]. *)
Record file_table (f : FileMetaHandle) (tf : tfile ra_file) : Prop := {
  ft_file : T !! num (M f) = Some tf;
  ft_last : ∃ l e, tfl_list tf = l ++ [e] ∧ largest (M f) = e.1;
  ft_sep : separable (o_cmp o) (tfl_list tf);
  ft_ok : file_ok (u := u) M f;
}.

Definition all_of (tfs : list (tfile ra_file)) : list entry := concat (tfl_list <$> tfs).

Context (files : list FileMetaHandle) (tfs : list (tfile ra_file)) (HF : Forall2 file_table files tfs) (Hne : files ≠ []).
Context (Hsorted : StronglySorted (key_lt (c := o_cmp o)) (all_of tfs)).
#[local] Instance VI : LdbIterator (Storage E ra_file * VersionIter) := VersionIter_iterator debug_bytes M.
Abbreviation L := (all_of tfs) (only parsing).
Implicit Types (it : VersionIter) (A B C : list (tfile ra_file)).

Lemma all_of_app A B : all_of (A ++ B) = all_of A ++ all_of B.
Proof. unfold all_of. by rewrite fmap_app, concat_app. Qed.

Lemma files_length : length files = length tfs.
Proof. by eapply Forall2_length. Qed.

Lemma file_nonempty f tf : file_table f tf → (0 < length (tfl_list tf))%nat.
Proof. intros [_ (l & e & -> & _) _ _]. rewrite length_app. cbn. lia. Qed.

Lemma file_at i : (i < length files)%nat → ∃ f tf, files !! i = Some f ∧ tfs !! i = Some tf ∧ file_table f tf.
Proof.
  intros Hi. destruct (lookup_lt_is_Some_2 files i Hi) as [f Hf]. destruct (Forall2_lookup_l _ _ _ _ _ HF Hf) as (tf & Htf & H). by exists f, tf.
Qed.

Lemma length_all A tf C : tfs = A ++ tf :: C → length L = (length (all_of A) + length (tfl_list tf) + length (all_of C))%nat.
Proof. intros ->. rewrite all_of_app. change (all_of (tf :: C)) with (tfl_list tf ++ all_of C). rewrite !length_app. lia. Qed.

Lemma lookup_all_of A tf C j : tfs = A ++ tf :: C → (j < length (tfl_list tf))%nat → L !! (length (all_of A) + j)%nat = tfl_list tf !! j.
Proof.
  intros -> Hj. rewrite all_of_app. change (all_of (tf :: C)) with (tfl_list tf ++ all_of C). rewrite lookup_app_r by lia.
  rewrite lookup_app_l by lia. f_equal. lia.
Qed.

Definition vi_pos ids st it (p : pos) : Prop :=
  match p with
  | Start => vi_current it = None ∧ current_ix it = 0
  | At n => ∃ A tf C j fn tab t, tfs = A ++ tf :: C ∧ n = (length (all_of A) + j)%nat ∧ current_ix it = zlen A
              ∧ vi_current it = Some t ∧ tv ids st fn tf tab t (At j)
  | Off => vi_current it = None ∨ ∃ fn tf tab t, vi_current it = Some t ∧ tv ids st fn tf tab t Off
  end.
Definition vi_view (s : Storage E ra_file * VersionIter) (l : list entry) (p : pos) : Prop :=
  l = L ∧ vi_files s.2 = files ∧ vi_cmp s.2 = u ∧ ∃ ids, ok ids s.1 ∧ vi_pos ids s.1 s.2 p.

(** From the end of a table, or from the start, to the first entry of the next table. *)
Lemma vi_load_ok fuel it st ids i :
  vi_files it = files → vi_cmp it = u → ok ids st → current_ix it = Z.of_nat i → (i < length files)%nat →
  ∃ s', (f ← index (vi_files it) (current_ix it);
         '(st, tbl) ← get_table debug_bytes (num (M f)) st;
         match tbl with
         | Ok tbl => t ← table_iter tbl; vi_advance_loop debug_bytes M (S fuel) (vi_set it (Some t) (current_ix it)) st
         | Err _ => Ret ((st, it), false)
         end) = Ret (s', true) ∧ vi_view s' L (At (length (all_of (take i tfs)))).
Proof.
  intros Hfs Hc Hst Hix Hi. destruct (file_at i Hi) as (f & tf & Hf & Htf & FT). rewrite Hfs, Hix, (index_lookup _ _ _ Hf), bind_Ret.
  destruct (open_iter_ok ids st _ tf Hst (ft_file _ _ FT)) as (st1 & tab & t & ids1 & -> & Et & _ & V). rewrite !bind_Ret, Et, bind_Ret. cbn [vi_advance_loop].
  cbn [vi_set vi_files vi_current current_ix]. rewrite Hfs, bool_decide_false by done. cbn [negb massert]. rewrite bind_Ret.
  destruct (st_advance_ok ids1 st1 _ tf tab t Start V ltac:(done)) as (st2 & t2 & -> & V2). rewrite bind_Ret. cbn [pos_next] in *.
  pose proof (file_nonempty _ _ FT). rewrite at_or_off_lt in V2 |- * by done. cbn [on_entry]. eexists. split; [reflexivity|].
  split_and!; [done..|]. exists ids1. split; [by eapply tv_storage|]. cbn [snd fst].
  exists (take i tfs), tf, (drop (S i) tfs), 0%nat, (num (M f)), tab, t2. split; [by rewrite take_drop_middle|]. split; [lia|].
  split; [|done]. cbn. rewrite length_take_le; [done|]. apply lookup_lt_Some in Htf. lia.
Qed.

Lemma vi_advance_ok s p :
  vi_view s L p → p ≠ Off → ∃ s', it_advance s = Ret (s', on_entry (pos_next L p)) ∧ vi_view s' L (pos_next L p).
Proof.
  destruct s as [st [fs uc cur ix]]. intros (_ & Hfs & Hc & ids & Hst & Hp) Hoff. cbn [fst snd vi_files vi_cmp] in *. subst fs uc.
  set (it := {| vi_files := files; vi_cmp := u; vi_current := cur; current_ix := ix |}) in *. cbn [it_advance VI VersionIter_iterator fst snd]. unfold vi_advance.
  assert (0 < length files)%nat as Hlen by (destruct files; [done|cbn; lia]).
  cbn [Nat.add]. change (vi_files it) with files. set (fuel := length files). destruct p as [|n|]; [| |done].
  - destruct Hp as [Hcur Hix]. cbn [pos_next]. rewrite at_or_off_lt.
    2: { destruct (file_at 0 Hlen) as (f & tf & _ & Htf & FT). pose proof (file_nonempty _ _ FT). rewrite (length_all [] tf (drop 1 tfs)); [lia|].
         by rewrite <- (take_drop_middle tfs 0 tf Htf) at 1. }
    destruct (vi_load_ok fuel it st ids 0 eq_refl eq_refl Hst Hix Hlen) as (s' & E' & V). exists s'. split; [|exact V].
    cbn [vi_advance_loop]. change (vi_files it) with files. rewrite bool_decide_false by done. cbn [negb massert]. rewrite bind_Ret, Hcur. exact E'.
  - destruct Hp as (A & tf & C & j & fn & tab & t & Htfs & -> & Hix & Hcur & V). pose proof (length_all A tf C Htfs) as HL. pose proof (tv_bound _ _ _ _ _ _ _ V) as Hj.
    destruct (st_advance_ok ids st fn tf tab t (At j) V ltac:(done)) as (st1 & t1 & E1 & V1). cbn [pos_next] in E1, V1 |- *.
    assert (length files = S (length A + length C))%nat as Hlf by (rewrite files_length, Htfs, length_app; cbn; lia).
    destruct (decide (S j < length (tfl_list tf))%nat) as [Hlt|Hge].
    + rewrite at_or_off_lt in E1, V1 by done. rewrite at_or_off_lt by lia. eexists. split.
      { cbn [vi_advance_loop]. change (vi_files it) with files. rewrite bool_decide_false by done. cbn [negb massert]. rewrite bind_Ret, Hcur, E1, bind_Ret. reflexivity. }
      split_and!; [done..|]. exists ids. split; [by eapply tv_storage|]. exists A, tf, C, (S j), fn, tab, t1. split_and!; done || lia.
    + rewrite at_or_off_ge in E1, V1 by lia. cbn [on_entry] in E1. destruct C as [|tf' C].
      * cbn in HL. rewrite at_or_off_ge by lia. eexists. split.
        { cbn [vi_advance_loop]. change (vi_files it) with files. rewrite bool_decide_false by done. cbn [negb massert]. rewrite bind_Ret, Hcur, E1, bind_Ret.
          cbn [vi_set vi_files current_ix]. rewrite Hix. change (vi_files it) with files. rewrite Hlf. cbn [length]. ztest. reflexivity. }
        split_and!; [done..|]. exists ids. split; [by eapply tv_storage|]. right. by exists fn, tf, tab, t1.
      * destruct (vi_load_ok fuel (vi_set it (Some t1) (zlen A + 1)) st1 ids (S (length A)) eq_refl eq_refl (tv_storage _ _ _ _ _ _ _ V1)) as (s' & E' & V'); [cbn; lia|cbn in *; lia|].
        assert (length (all_of (take (S (length A)) tfs)) = S (length (all_of A) + j)) as Hn.
        { rewrite Htfs. change (A ++ tf :: tf' :: C) with (A ++ [tf] ++ tf' :: C). rewrite app_assoc.
          replace (S (length A)) with (length (A ++ [tf])) by (rewrite length_app; cbn; lia). rewrite take_app_length, all_of_app, length_app. cbn. rewrite app_nil_r. lia. }
        rewrite Hn in V'. pose proof (length_all (A ++ [tf]) tf' C) as HL'. rewrite <- app_assoc in HL'. specialize (HL' Htfs).
        assert (0 < length (tfl_list tf'))%nat as Hne'.
        { destruct (file_at (S (length A))) as (f' & tf2 & _ & Htf2 & FT); [cbn in Hlf; lia|]. rewrite Htfs, lookup_app_r in Htf2 by lia.
          replace (S (length A) - length A)%nat with 1%nat in Htf2 by lia. cbn in Htf2. injection Htf2 as <-. by eapply file_nonempty. }
        rewrite all_of_app, length_app in HL'. cbn in HL'. rewrite app_nil_r in HL'.
        rewrite at_or_off_lt by lia. exists s'. split; [|exact V'].
        cbn [vi_advance_loop]. change (vi_files it) with files. rewrite bool_decide_false by done. cbn [negb massert]. rewrite bind_Ret, Hcur, E1, bind_Ret.
        cbn [vi_set vi_files current_ix] in E' |- *. rewrite Hix. change (vi_files it) with files. assert (zlen files - 1 <=? zlen A = false) as -> by (apply Z.leb_gt; cbn in Hlf; lia).
        exact E'.
Qed.

Lemma vi_valid_ok s p : vi_view s L p → vi_valid s.2 = on_entry p ∧ vi_current_kv s.2 = Ret (entry_at L p).
Proof.
  intros (_ & _ & _ & ids & _ & Hp). unfold vi_valid, vi_current_kv. destruct p as [|n|].
  - by destruct Hp as [-> _].
  - destruct Hp as (A & tf & C & j & fn & tab & t & Htfs & -> & _ & -> & V). destruct (tv_valid _ _ _ _ _ _ _ V) as [-> ->]. split; [done|].
    cbn [entry_at]. by rewrite (lookup_all_of A tf C j Htfs (tv_bound _ _ _ _ _ _ _ V)).
  - destruct Hp as [->|(fn & tf & tab & t & -> & V)]; [done|]. by destruct (tv_valid _ _ _ _ _ _ _ V) as [-> ->].
Qed.

(** *** Seeking *)

Lemma table_sorted f tf : file_table f tf → StronglySorted (key_lt (c := o_cmp o)) (tfl_list tf).
Proof. intros FT. destruct (fe_table _ _ _ _ FE _ _ (ft_file _ _ FT)) as [_ TF]. apply TF. Qed.

(** The largest key is that of the last entry. *)
Lemma largest_last f tf e : file_table f tf → e ∈ tfl_list tf → ord (o_cmp o) e.1 (largest (M f)) ≠ Gt.
Proof.
  intros FT He. pose proof (table_sorted f tf FT) as Hs. destruct (ft_last _ _ FT) as (l & e' & El & ->). rewrite El in He, Hs.
  apply elem_of_app in He as [He| ->%list_elem_of_singleton]; [|by rewrite ord_refl].
  apply StronglySorted_app in Hs as (H & _). specialize (H e e' He ltac:(left)). unfold key_lt in H. by rewrite H.
Qed.

Lemma files_ascending : ascending (u := u) M files.
Proof.
  revert Hsorted. clear Hne. unfold ascending. induction HF as [|f tf fs ts FT HF' IH]; intros Hs; [constructor|].
  change (all_of (tf :: ts)) with (tfl_list tf ++ all_of ts) in Hs. apply StronglySorted_app in Hs as (Hx & _ & Hs). constructor; [by apply IH|].
  apply Forall_forall. intros g (i & Hg)%list_elem_of_lookup. destruct (Forall2_lookup_l _ _ _ _ _ HF' Hg) as (tg & Htg & FTg).
  destruct (ft_last _ _ FT) as (l & e & El & ->). destruct (ft_last _ _ FTg) as (l' & e' & El' & ->).
  assert (key_lt (c := o_cmp o) e e') as Hlt; [|unfold key_lt in Hlt; change (ord (o_cmp o) e.1 e'.1 ≠ Gt); by rewrite Hlt].
  apply Hx; [rewrite El; set_solver|]. unfold all_of. apply elem_of_concat. exists (tfl_list tg). split; [rewrite El'; set_solver|].
  apply list_elem_of_fmap. exists tg. split; [done|]. by eapply list_elem_of_lookup_2.
Qed.

Lemma files_all_ok : Forall (file_ok (u := u) M) files.
Proof. apply Forall_lookup. intros i f Hf. destruct (Forall2_lookup_l _ _ _ _ _ HF Hf) as (tf & _ & FT). apply FT. Qed.

(** The tables in front of the file found hold only keys below. *)
Lemma below_files k i : (∀ j f, files !! j = Some f → (j < i)%nat → ¬ not_below (u := u) M k f) →
  Forall (λ e : entry, ord (o_cmp o) e.1 k = Lt) (all_of (take i tfs)).
Proof.
  intros Hbelow. apply Forall_forall. intros e He. unfold all_of in He. apply elem_of_concat in He as (l & He & Hl).
  apply list_elem_of_fmap in Hl as (tf & -> & Htf). apply elem_of_take in Htf as (j & Hj & Hji).
  destruct (Forall2_lookup_r _ _ _ _ _ HF Hj) as (f & Hf & FT). specialize (Hbelow j f Hf Hji).
  eapply ord_le_lt; [exact (largest_last f tf e FT He)|]. apply dec_stable. exact Hbelow.
Qed.

(** The keys that [seek] handles in every table. *)
Definition level_keys (k : bytes) : Prop := key_ok (o_cmp o) k ∧ Forall (λ tf, gap_free o (tfl_list tf) k) tfs.

Lemma vi_seek_ok s p k : vi_view s L p → level_keys k → ∃ s', it_seek k s = Ret s' ∧ vi_view s' L (pos_seek (o_cmp o) k L).
Proof.
  destruct s as [st it]. intros (_ & Hfs & Hc & ids & Hst & Hp) [Hk Hg]. cbn [fst snd] in *. cbn [it_seek VI VersionIter_iterator fst snd].
  unfold vi_seek. rewrite Hfs, Hc, find_file_spec, bind_Ret by (apply files_ascending || apply files_all_ok || exact Hk). unfold pos_seek.
  destruct (list_find _ files) as [[i f]|] eqn:Ef; cbn [fmap option_fmap option_map].
  - apply list_find_Some in Ef as (Hf & Hnb & Hfirst). cbn [compose fst]. rewrite (index_lookup _ _ _ Hf), bind_Ret.
    destruct (Forall2_lookup_l _ _ _ _ _ HF Hf) as (tf & Htf & FT). pose proof (take_drop_middle tfs i tf Htf) as Htfs. symmetry in Htfs.
    destruct (open_iter_ok ids st _ tf Hst (ft_file _ _ FT)) as (st1 & tab & t & ids1 & -> & Et & _ & V). rewrite !bind_Ret, Et, bind_Ret.
    rewrite Forall_lookup in Hg. destruct (st_seek_ok ids1 st1 _ tf tab t Start k V Hk (Hg _ _ Htf)) as (st2 & t2 & -> & V2). rewrite bind_Ret.
    assert (seek_index (o_cmp o) k (tfl_list tf) < length (tfl_list tf))%nat as Hlt.
    { pose proof (seek_index_le (c := o_cmp o) k (tfl_list tf)). destruct (decide (seek_index (o_cmp o) k (tfl_list tf) = length (tfl_list tf))) as [E'|]; [|lia].
      exfalso. apply Hnb. apply seek_index_all in E'. destruct (ft_last _ _ FT) as (l & e & El & ->). rewrite El in E'.
      apply Forall_app in E' as [_ E']. by apply Forall_cons in E' as [? _]. }
    unfold pos_seek in V2. rewrite at_or_off_lt in V2 by done. destruct (tv_valid _ _ _ _ _ _ _ V2) as [-> _]. cbn [on_entry].
    eexists. split; [reflexivity|]. split_and!; [done..|]. exists ids1. split; [by eapply tv_storage|].
    assert (seek_index (o_cmp o) k L = (length (all_of (take i tfs)) + seek_index (o_cmp o) k (tfl_list tf))%nat) as Hsk.
    { rewrite Htfs at 1. rewrite all_of_app. change (all_of (tf :: drop (S i) tfs)) with (tfl_list tf ++ all_of (drop (S i) tfs)).
      rewrite seek_index_skip by (by apply below_files). by rewrite seek_index_app_l. }
    rewrite Hsk, at_or_off_lt by (rewrite (length_all (take i tfs) tf (drop (S i) tfs) Htfs); lia). cbn [snd fst].
    eexists (take i tfs), tf, (drop (S i) tfs), _, (num (M f)), tab, t2. split; [exact Htfs|]. split; [reflexivity|]. split; [|by split].
    cbn. rewrite length_take_le; [done|]. apply lookup_lt_Some in Htf. lia.
  - apply list_find_None in Ef. rewrite Forall_lookup in Ef. eexists. split; [reflexivity|]. split_and!; [done..|]. exists ids. split; [done|].
    pose proof (below_files k (length tfs)) as Hb. rewrite take_ge in Hb by lia. specialize (Hb (λ j f Hf _, Ef j f Hf)).
    assert (seek_index (o_cmp o) k L = length L) as -> by (rewrite <- (app_nil_r L) at 1; rewrite seek_index_skip by done; cbn; lia).
    rewrite at_or_off_ge by lia. by left.
Qed.

(** *** Going back *)

Lemma vi_prev_ok s n : vi_view s L (At n) → ∃ s', it_prev s = Ret (s', on_entry (pos_prev (At n))) ∧ vi_view s' L (pos_prev (At n)).
Proof.
  destruct s as [st it]. intros (_ & Hfs & Hc & ids & Hst & (A & tf & C & j & fn & tab & t & Htfs & -> & Hix & Hcur & V)). cbn [fst snd] in *.
  cbn [it_prev VI VersionIter_iterator fst snd]. unfold vi_prev. rewrite Hcur. destruct (st_prev_ok _ _ _ _ _ _ _ V) as (st1 & t1 & -> & V1). rewrite bind_Ret.
  destruct j as [|j]; cbn [pos_prev on_entry] in *.
  2: { rewrite Nat.add_succ_r. eexists. split; [reflexivity|]. split_and!; [done..|]. exists ids. split; [by eapply tv_storage|].
       exists A, tf, C, j, fn, tab, t1. by split_and!. }
  rewrite Nat.add_0_r. cbn [vi_set current_ix vi_files]. rewrite Hix. destruct (last A) as [tf0|] eqn:EA.
  - apply last_Some in EA as [A0 ->]. rewrite length_app. cbn [length]. rewrite Nat2Z.inj_add. ztest. replace (zlen A0 + Z.of_nat 1 - 1) with (zlen A0) by lia.
    rewrite <- app_assoc in Htfs. cbn in Htfs. assert (tfs !! length A0 = Some tf0) as H0 by (by rewrite Htfs, lookup_app_r, Nat.sub_diag by lia).
    destruct (Forall2_lookup_r _ _ _ _ _ HF H0) as (f0 & Hf0 & FT). rewrite Hfs, (index_lookup _ _ _ Hf0), bind_Ret.
    destruct (open_iter_ok ids st1 _ tf0 (tv_storage _ _ _ _ _ _ _ V1) (ft_file _ _ FT)) as (st2 & tab0 & t0 & ids2 & -> & Et & _ & V2). rewrite !bind_Ret, Et, bind_Ret.
    pose proof (table_sorted _ _ FT) as Hs. destruct (ft_last _ _ FT) as (l & [ke ve] & El & Elast). cbn [fst] in Elast.
    assert (tfl_list tf0 !! length l = Some (ke, ve)) as Hl by (by rewrite El, lookup_app_r, Nat.sub_diag by lia).
    destruct (st_seek_ok ids2 st2 _ tf0 tab0 t0 Start (largest (M f0)) V2) as (st3 & t3 & -> & V3).
    { apply (ft_ok _ _ FT). }
    { rewrite Elast. exact (stored_gap_free o _ _ ke ve (ft_sep _ _ FT) Hs Hl). }
    rewrite bind_Ret. unfold pos_seek in V3. rewrite Elast in V3. rewrite (seek_index_self _ _ (ke, ve) Hs Hl : seek_index (o_cmp o) ke _ = _) in V3.
    rewrite at_or_off_lt in V3 by (rewrite El, length_app; cbn; lia). destruct (tv_valid _ _ _ _ _ _ _ V3) as [-> _]. cbn [on_entry massert]. rewrite bind_Ret.
    rewrite all_of_app, length_app. change (all_of [tf0]) with (tfl_list tf0 ++ []). rewrite app_nil_r, El, length_app. cbn [length].
    replace (length (all_of A0) + (length l + 1))%nat with (S (length (all_of A0) + length l)) by lia. cbn [pos_prev on_entry].
    eexists. split; [reflexivity|]. split_and!; [done..|]. exists ids2. split; [by eapply tv_storage|].
    exists A0, tf0, (tf :: C), (length l), (num (M f0)), tab0, t3. by split_and!.
  - apply last_None in EA as ->. cbn [length pos_prev on_entry all_of fmap list_fmap concat] in *. ztest. eexists. split; [reflexivity|]. split_and!; [done..|].
    exists ids. split; [by eapply tv_storage|]. by left.
Qed.

(** *** The contract of iterators *)

Definition level_ordered : OrderedCmp (o_cmp o).
Proof.
  refine {| key_ok := level_keys; ord := ord (o_cmp o) |}.
  - intros a b [Ha _] [Hb _]. by apply cmp_ret.
  - apply ord_refl.
  - apply ord_antisym.
  - apply ord_trans.
  - apply ord_eq_l.
Defined.

Lemma seek_index_level k l : seek_index (o_cmp o) (OC := level_ordered) k l = seek_index (o_cmp o) k l.
Proof. induction l as [|[k' v'] l IH]; [done|]. cbn [seek_index]. by rewrite IH. Qed.

#[program] Definition VersionIter_forward : ForwardIterator (o_cmp o) (OC := level_ordered) (Storage E ra_file * VersionIter) :=
  {| view := vi_view |}.
Next Obligation.
  intros s l i (-> & _ & _ & ids & _ & (A & tf & C & j & fn & tab & t & Htfs & -> & _ & _ & V)). pose proof (tv_bound _ _ _ _ _ _ _ V).
  rewrite (length_all A tf C Htfs). lia.
Qed.
Next Obligation. intros s l p V Hp. pose proof V as (-> & _). by apply vi_advance_ok. Qed.
Next Obligation. intros s l p V. pose proof V as (-> & _). by apply vi_valid_ok. Qed.
Next Obligation. intros s l p V. pose proof V as (-> & _). cbn. by rewrite (proj1 (vi_valid_ok s p V)). Qed.
Next Obligation.
  intros [st it] l p (-> & Hfs & Hc & ids & Hst & Hp). cbn. eexists. split; [done|]. split_and!; [done..|]. exists ids. by split.
Qed.
Next Obligation.
  intros s l p k V Hk. pose proof V as (-> & _). unfold pos_seek. rewrite seek_index_level. exact (vi_seek_ok s p k V Hk).
Qed.

Lemma VersionIter_backward : BackwardIterator (o_cmp o) (OC := level_ordered) (Storage E ra_file * VersionIter) (FI := VersionIter_forward).
Proof. intros s l i V. pose proof V as (-> & _). by apply vi_prev_ok. Qed.

Lemma new_version_iter_ok ids st : ok ids st → vi_view (st, new_version_iter files u) L Start.
Proof. intros Hst. split_and!; [done..|]. exists ids. by split. Qed.

End read.

(** ** Looking keys up *)

Section get.
Context `{IEL : IntegerEncodingLaws} `{CRL : Crc32Laws} `{EN : Env E} (debug_bytes : bytes → string).
Context (e0 : E) (db : string) (opts : Options) {UO : OrderedCmp (o_cmp opts)}.
Abbreviation u := (o_cmp opts) (only parsing).
Abbreviation o := (with_internal_keys opts) (only parsing).
#[local] Instance OC' : OrderedCmp (o_cmp o) := InternalKeyCmp_ordered (u := u).
Context (T : gmap Z (tfile ra_file)) (FE : files_in_env e0 db opts T) (M : Metas).
Implicit Types (st : Storage E ra_file) (ids : gmap Z Z) (tf : tfile ra_file) (f : FileMetaHandle).
Abbreviation ok := (storage_ok e0 db opts T) (only parsing).

(** The files in which a key is looked for, in this order: the files of level 0 with the user
    key in their range, newest first; then one file of each level. *)
Definition candidate v (k : bytes) (l : nat) : list FileMetaHandle :=
  match list_find (not_below (u := u) M k) (files_at v (Z.of_nat l)) with
  | Some (_, f) => if is_ge (ord u (ukey_of k) (lo M f)) then [f] else []
  | None => []
  end.
Definition covers (k : bytes) f : Prop := ord u (ukey_of k) (lo M f) ≠ Lt ∧ ord u (ukey_of k) (hi M f) ≠ Gt.
#[export] Instance covers_dec k f : Decision (covers k f).
Proof. unfold covers. apply _. Defined.
Definition candidates v (k : bytes) (levels : list (list FileMetaHandle)) : Prop :=
  ∃ l0, levels = l0 :: (candidate v k <$> seq 1 6) ∧ l0 ≡ₚ filter (covers k) (files_at v 0)
    ∧ StronglySorted (λ f g, num (M g) ≤ num (M f)) l0.

Lemma get_overlapping_ok v k :
  version_ok (u := u) M v → (∀ l, 0 < l < NUM_LEVELS → ascending (u := u) M (files_at v l)) → key_ok (o_cmp o) k →
  ∃ levels, get_overlapping M v k = Ret levels ∧ candidates v k levels.
Proof.
  intros V Hasc Hk. unfold get_overlapping. rewrite parsed_ukey_ok, bind_Ret by (by apply (ikey_length (u := u))).
  destruct (version_level (u := u) M v 0 V ltac:(unfold NUM_LEVELS; lia)) as (f0 & L0 & E0 & Ok0 & _). rewrite E0, bind_Ret.
  assert (files_at v 0 = f0) as F0 by (unfold files_at; by rewrite L0). pose proof (ikey_user (u := u) k Hk) as Hu.
  rewrite (mfoldl_ext_in _ (λ acc f, Ret (if decide (covers k f) then acc ++ [f] else acc))).
  2: { intros acc f Hf. unfold in_user_range. rewrite Forall_forall in Ok0. destruct (file_keys (u := u) M f (Ok0 f Hf)) as (Kl & Kh & -> & -> & _).
       rewrite !bind_Ret, (vo_cmp _ _ V), !cmp_ret, !bind_Ret by done.
       destruct (decide (covers k f)) as [[H1 H2]|Hn].
       - by rewrite (proj2 (is_ge_true _) H1), bind_Ret, (proj2 (is_le_true _) H2).
       - destruct (is_ge _) eqn:G1; rewrite bind_Ret; [|done]. destruct (is_le _) eqn:G2; [|done]. exfalso. apply Hn. by split; [apply is_ge_true|apply is_le_true]. }
  rewrite mfoldl_ret, bind_Ret.
  assert (∀ l acc, foldl (λ acc f, if decide (covers k f) then acc ++ [f] else acc) acc l = acc ++ filter (covers k) l) as Hfold.
  { induction l as [|f l IH]; intros acc; cbn [foldl]; [by rewrite app_nil_r|]. rewrite IH, filter_cons. by case_decide; rewrite <- ?app_assoc. }
  rewrite Hfold, app_nil_l. destruct (sort_by_desc (λ f, num (M f)) (filter (covers k) f0)) as (l0 & -> & P0 & S0). rewrite bind_Ret.
  rewrite (mfoldl_ext_in _ (λ acc l, Ret (acc ++ [candidate v k l]))).
  2: { intros acc l Hl. apply elem_of_seq in Hl. change (Z.to_nat NUM_LEVELS - 1)%nat with 6%nat in Hl.
       destruct (version_level (u := u) M v (Z.of_nat l) V ltac:(unfold NUM_LEVELS; lia)) as (fl & Ll & -> & Okl & _). rewrite bind_Ret.
       assert (files_at v (Z.of_nat l) = fl) as Fl by (unfold files_at; by rewrite Ll). pose proof (Hasc (Z.of_nat l) ltac:(unfold NUM_LEVELS; lia)) as Ha. rewrite Fl in Ha.
       rewrite (vo_cmp _ _ V), find_file_spec, bind_Ret by done. unfold candidate. rewrite Fl.
       destruct (list_find _ fl) as [[i f]|] eqn:Ef; [|done]. cbn [fmap option_fmap option_map compose fst]. apply list_find_Some in Ef as (Hf & _).
       rewrite (index_lookup _ _ _ Hf), bind_Ret. rewrite Forall_lookup in Okl. destruct (file_keys (u := u) M f (Okl _ _ Hf)) as (Kl & _ & -> & _).
       by rewrite bind_Ret, cmp_ret, bind_Ret by done. }
  rewrite mfoldl_ret, bind_Ret. eexists. split; [reflexivity|]. exists l0. split_and!; [done|by rewrite F0|done].
Qed.

(** The table of the file has nothing for the key: no entry behind it, or one of another user
    key, which is not a deletion. *)
Definition misses (k : bytes) f : Prop := ∃ tf, T !! num (M f) = Some tf
  ∧ match tfl_list tf !! seek_index (o_cmp o) k (tfl_list tf) with
    | Some e => key_ok (o_cmp o) e.1 ∧ ord u (ukey_of e.1) (ukey_of k) ≠ Eq ∧ typ_of e.1 = TypeValue
    | None => True
    end.

(** What is found in a table. *)
Definition found (e : entry) (stats : GetStats) : option (bytes * GetStats) :=
  match typ_of e.1 with TypeValue => Some (e.2, stats) | TypeDeletion => None end.

Lemma get_in_files_miss v k files level stats last_read last_level ids st :
  user_cmp v = u → key_ok (o_cmp o) k → ok ids st → Forall (misses k) files →
  ∃ st' ids' stats', get_in_files debug_bytes M v k (ukey_of k) level files stats last_read last_level st = Ret (st', inl stats') ∧ ok ids' st'.
Proof.
  intros Hv Hk Hst Hf. revert stats last_read last_level ids st Hst. induction Hf as [|f files (tf & Hn & Hm) Hf IH]; intros stats last_read last_level ids st Hst; cbn [get_in_files].
  { by eexists st, ids, _. }
  pose proof (ikey_length (u := u) k Hk) as H8.
  destruct (tc_get_cases debug_bytes e0 db opts T FE ids st (num (M f)) tf k Hst Hn Hk ltac:(lia)) as (st1 & ids1 & r & -> & Hst1 & Hr). rewrite bind_Ret.
  destruct Hr as [->|[[[ke v'] ->] Hr]]; [by eapply IH|]. rewrite <- Hr in Hm. destruct Hm as (Kk & Hne & Ht). cbn [fst] in *.
  rewrite parse_internal_key_views, bind_Ret by (by apply (ikey_length (u := u))). rewrite Ht, Hv.
  rewrite cmp_ret, bind_Ret by (by apply (ikey_user (u := u))). destruct (ord u (ukey_of ke) (ukey_of k)); cbn [is_eq]; [done|by eapply IH..].
Qed.

Lemma get_in_files_hit v k before f after e level stats last_read last_level ids st :
  user_cmp v = u → key_ok (o_cmp o) k → key_ok (o_cmp o) e.1 → ok ids st → Forall (misses k) before →
  sought opts T (num (M f)) k e → ord u (ukey_of e.1) (ukey_of k) = Eq →
  ∃ st' ids' stats', get_in_files debug_bytes M v k (ukey_of k) level (before ++ f :: after) stats last_read last_level st = Ret (st', inr (found e stats')) ∧ ok ids' st'.
Proof.
  intros Hv Hk Hke Hst Hb Hs Heq. revert stats last_read last_level ids st Hst.
  induction Hb as [|g before (tf & Hn & Hm) Hb IH]; intros stats last_read last_level ids st Hst; cbn [get_in_files app].
  - destruct (tc_get_ok debug_bytes e0 db opts T FE ids st (num (M f)) k e Hst Hs) as (st1 & ids1 & -> & _ & Hst1). rewrite bind_Ret. destruct e as [ke v']. cbn [fst] in *.
    rewrite parse_internal_key_views, bind_Ret by (by apply (ikey_length (u := u))). unfold found. cbn [fst snd].
    destruct (typ_of ke); [by eexists st1, ids1, stats|]. rewrite Hv, cmp_ret, bind_Ret, Heq by (by apply (ikey_user (u := u))). cbn [is_eq]. by eexists st1, ids1, _.
  - pose proof (ikey_length (u := u) k Hk) as H8.
    destruct (tc_get_cases debug_bytes e0 db opts T FE ids st (num (M g)) tf k Hst Hn Hk ltac:(lia)) as (st1 & ids1 & r & -> & Hst1 & Hr). rewrite bind_Ret.
    destruct Hr as [->|[[[kg vg] ->] Hr]]; [by eapply IH|]. rewrite <- Hr in Hm. destruct Hm as (Kk & Hne & Ht). cbn [fst] in *.
    rewrite parse_internal_key_views, bind_Ret by (by apply (ikey_length (u := u))). rewrite Ht, Hv.
    rewrite cmp_ret, bind_Ret by (by apply (ikey_user (u := u))). destruct (ord u (ukey_of kg) (ukey_of k)); cbn [is_eq]; [done|by eapply IH..].
Qed.

Lemma get_in_levels_miss v k levels level stats ids st :
  user_cmp v = u → key_ok (o_cmp o) k → ok ids st → Forall (misses k) (concat levels) →
  ∃ st' ids', get_in_levels debug_bytes M v k (ukey_of k) level levels stats st = Ret (st', None) ∧ ok ids' st'.
Proof.
  intros Hv Hk. revert level stats ids st. induction levels as [|files levels IH]; intros level stats ids st Hst Hm; cbn [get_in_levels]; [by eexists st, ids|].
  cbn in Hm. apply Forall_app in Hm as [Hf Hm].
  destruct (get_in_files_miss v k files level stats None 0 ids st Hv Hk Hst Hf) as (st1 & ids1 & stats1 & -> & Hst1). rewrite bind_Ret. by eapply IH.
Qed.

Lemma get_in_levels_hit v k levels before f after e level stats ids st :
  user_cmp v = u → key_ok (o_cmp o) k → key_ok (o_cmp o) e.1 → ok ids st → concat levels = before ++ f :: after → Forall (misses k) before →
  sought opts T (num (M f)) k e → ord u (ukey_of e.1) (ukey_of k) = Eq →
  ∃ st' ids' stats', get_in_levels debug_bytes M v k (ukey_of k) level levels stats st = Ret (st', found e stats') ∧ ok ids' st'.
Proof.
  intros Hv Hk Hke. revert before level stats ids st. induction levels as [|files levels IH]; intros before level stats ids st Hst Hc Hb Hs Heq; cbn [get_in_levels].
  { cbn in Hc. by destruct before. }
  cbn in Hc. apply app_eq_inv in Hc as [(d & -> & Hd)|(d & -> & Hd)].
  - destruct d as [|f' d]; cbn in Hd.
    + rewrite app_nil_r. destruct (get_in_files_miss v k before level stats None 0 ids st Hv Hk Hst Hb) as (st1 & ids1 & stats1 & -> & Hst1). rewrite bind_Ret.
      by apply (IH [] _ _ ids1).
    + injection Hd as <- ->. destruct (get_in_files_hit v k before f d e level stats None 0 ids st Hv Hk Hke Hst Hb Hs Heq) as (st1 & ids1 & stats1 & -> & Hst1).
      rewrite bind_Ret. by eexists st1, ids1, stats1.
  - apply Forall_app in Hb as [Hb1 Hb2]. destruct (get_in_files_miss v k files level stats None 0 ids st Hv Hk Hst Hb1) as (st1 & ids1 & stats1 & -> & Hst1). rewrite bind_Ret.
    by eapply IH.
Qed.

End get.

(** ** Theorems *)

Section theorems.
Context `{IEL : IntegerEncodingLaws} `{CRL : Crc32Laws} `{EN : Env E} (debug_bytes : bytes → string).
Context (e0 : E) (db : string) (opts : Options) {UO : OrderedCmp (o_cmp opts)} (T : gmap Z (tfile ra_file)) (M : Metas).
Abbreviation u := (o_cmp opts) (only parsing).
Abbreviation o := (with_internal_keys opts) (only parsing).
#[local] Instance OCt : OrderedCmp (o_cmp o) := InternalKeyCmp_ordered (u := u).
#[local] Instance VIt : LdbIterator (Storage E ra_file * VersionIter) := VersionIter_iterator debug_bytes M.

(** A storage with new caches over the tables [T]. *)
Definition new_storage (cap bcap : Z) (st : Storage E ra_file) : Prop :=
  files_in_env e0 db opts T ∧ Z.of_nat (base.size T) ≤ cap ∧ Z.of_nat (base.size T) < 2 ^ 64 ∧ 0 < cap ∧ 0 < bcap
  ∧ ∃ b tc, Cache_new bcap = Ret b ∧ TableCache_new db opts cap = Ret tc ∧ st = {| st_env := e0; st_blocks := b; st_tables := tc |}.

Lemma new_storage_ok cap bcap st : new_storage cap bcap st → storage_ok e0 db opts T ∅ st.
Proof.
  intros (FE & Hs & Hlt & Hc & Hb & b & tc & Eb & Ec & ->). destruct (storage_new e0 db opts T cap bcap Hb Hc Hs Hlt) as (b' & tc' & Eb' & Ec' & Hst).
  rewrite Eb in Eb'. rewrite Ec in Ec'. by simplify_eq.
Qed.

(** C34: The iterator over the files of a level, whose tables are sorted one behind the other,
    shows the entries of their tables, one table after the other, opening the tables on the way.
    For keys that do not lie between the last key of a block and the separator behind it, in any
    of the tables ([level_keys]), it seeks to the first entry not below the key (in the table
    that [find_file] gives), goes on from there into the tables that follow, and back through
    the tables before it.  For other keys [seek] can end the iteration, see
    [table_seek_gap_ends].  (The table cache has room for all the tables.) *)
Theorem level_iterates cap bcap st files tfs :
  new_storage cap bcap st → Forall2 (file_table opts T M) files tfs → files ≠ [] → StronglySorted (key_lt (c := o_cmp o)) (all_of tfs) →
  let L := all_of tfs in let it := new_version_iter files u in
  (∃ s, collect (S (length L)) (st, it) = Ret (s, L))
  ∧ ∀ k, level_keys opts tfs k → let n := seek_index (o_cmp o) k L in
      ∃ s s', it_seek k (st, it) = Ret s ∧ it_current s = Ret (L !! n)
        ∧ ((n < length L)%nat → collect (S (length L)) s = Ret (s', drop (S n) L)
                                ∧ collect_back (S (S (length L))) s = Ret (reverse (take (S n) L))).
Proof.
  intros Hst HF Hne Hs L it. pose proof (proj1 Hst) as FE. apply new_storage_ok in Hst.
  pose proof (new_version_iter_ok e0 db opts T files tfs _ _ Hst) as V. fold it in V. fold L in V.
  set (FI := VersionIter_forward debug_bytes e0 db opts T FE M files tfs HF Hne Hs).
  set (BI := VersionIter_backward debug_bytes e0 db opts T FE M files tfs HF Hne Hs).
  split.
  - destruct (collect_all (c := o_cmp o) (OC := level_ordered opts tfs) (FI := FI) _ _ (S (length L)) V) as (s & Es & _); [lia|]. by exists s.
  - intros k Hk n. destruct (vi_seek_ok debug_bytes e0 db opts T FE M files tfs HF Hs _ _ k V Hk) as (s & Es & Vs). unfold pos_seek in Vs. fold L n in Vs.
    pose proof (vi_valid_ok e0 db opts T FE M files tfs HF Hs s _ Vs) as [_ Hcur]. exists s. destruct (decide (n < length L)%nat) as [Hn|Hn].
    + rewrite at_or_off_lt in Vs, Hcur by done.
      destruct (collect_from (c := o_cmp o) (OC := level_ordered opts tfs) (FI := FI) s L (At n) (S n) Vs ltac:(done) eq_refl ltac:(lia) (S (length L)) ltac:(lia)) as (s' & Ec & _).
      exists s'. split_and!; [done..|]. intros _. split; [done|].
      apply (collect_back_ok (c := o_cmp o) (OC := level_ordered opts tfs) (BI := BI) s L n _ Vs). lia.
    + exists s. split_and!; [done| |by intros ?]. rewrite at_or_off_ge in Hcur by (by apply Nat.nlt_ge). rewrite lookup_ge_None_2 by (by apply Nat.nlt_ge). exact Hcur.
Qed.

(** C33: [Version::get] looks for the key in the files of level 0 that cover it, the newest
    first, and then in one file per level, and answers with what the first of these files
    that has the key holds: the value, or nothing for a deletion; with nothing, if no file has
    the key.  This is so where [Table::get] finds the key, which it does not when the key lies
    between the last key of a block and the separator behind it, or is the separator ([sought]),
    and where the files before it do not answer with the deletion of another key, as they can
    when a filter gives a false positive ([misses]).  The levels behind the first are sorted and
    the table cache has room for all the tables. *)
Theorem version_get_first cap bcap st v k :
  new_storage cap bcap st → version_ok (u := u) M v → (∀ l, 0 < l < NUM_LEVELS → ascending (u := u) M (files_at v l)) → key_ok (o_cmp o) k →
  ∃ levels, get_overlapping M v k = Ret levels ∧ candidates opts M v k levels
    ∧ (∀ before f after e, concat levels = before ++ f :: after → Forall (misses opts T M k) before →
         sought opts T (num (M f)) k e → key_ok (o_cmp o) e.1 → ord u (ukey_of e.1) (ukey_of k) = Eq →
         ∃ st' stats, version_get debug_bytes M v k st = Ret (st', Ok (found e stats)))
    ∧ (Forall (misses opts T M k) (concat levels) → ∃ st', version_get debug_bytes M v k st = Ret (st', Ok None)).
Proof.
  intros Hst V Hasc Hk. pose proof (proj1 Hst) as FE. apply new_storage_ok in Hst.
  destruct (get_overlapping_ok opts M v k V Hasc Hk) as (levels & E' & HC). exists levels. split; [done|]. split; [done|].
  assert (parsed_ukey k = Ret (ukey_of k)) as Hu by (by apply parsed_ukey_ok, (ikey_length (u := u))).
  unfold version_get. rewrite E', bind_Ret, Hu, bind_Ret. split.
  - intros before f after e Hc Hb Hs Hke Heq.
    destruct (get_in_levels_hit debug_bytes e0 db opts T FE M v k levels before f after e 0 {| gs_file := None; gs_level := 0 |} ∅ st
      (vo_cmp _ _ V) Hk Hke Hst Hc Hb Hs Heq) as (st' & ids' & stats & -> & _). rewrite bind_Ret. by exists st', stats.
  - intros Hm. destruct (get_in_levels_miss debug_bytes e0 db opts T FE M v k levels 0 {| gs_file := None; gs_level := 0 |} ∅ st (vo_cmp _ _ V) Hk Hst Hm) as (st' & ids' & -> & _).
    rewrite bind_Ret. by exists st'.
Qed.

End theorems.

(** ** Witnesses *)

Module TestRead.
#[local] Existing Instance Reference.ref_encoding.
#[local] Existing Instance Reference.ref_encoding_laws.
#[local] Existing Instance Reference.ref_crc.
#[local] Existing Instance Reference.ref_crc_laws.
#[local] Existing Instances TestTable.vec_fixedint TestTable.vec_fixedint_reliable.

(** A second table, behind [TestTable.L]: [c] and a deleted [d]. *)
Definition L2 : list entry := [(ikey [99] 9 TypeValue, [7]); (ikey [100] 8 TypeDeletion, [])].

Lemma L2_internal : internal_entries L2.
Proof.
  split.
  - repeat apply Forall_cons_2; try apply Forall_nil_2; eexists _, _, _; (split; [reflexivity|split_and!; by_decide || done]).
  - intros [|[|i]] a b Ha Hb; cbn in Ha, Hb; simplify_eq; by_decide.
  - repeat constructor.
Qed.

Lemma L2_buildable : buildable (TestTable.opts 20) NoneCompressor TestTable.fits 10 10 L2.
Proof.
  apply TestTable.small_buildable; [exact L2_internal| |by_decide|by_decide].
  repeat apply Forall_cons_2; try apply Forall_nil_2; (split; [done|split; [split_and!; by_decide || exact I|by_decide]]).
Qed.

Definition fs (b1 b2 : bytes) : MemFS :=
  {| buffers := [b1; b2];
     store := {[ "db/000007.ldb" := {| e_f := 0%nat; e_locked := false |}; "db/000008.ldb" := {| e_f := 1%nat; e_locked := false |} ]} |}.
Definition tf1 (b : bytes) (Bs : list dblock) : tfile nat := {| tfl_file := 0%nat; tfl_bytes := b; tfl_list := TestTable.L; tfl_blocks := Bs |}.
Definition tf2 (b : bytes) (Bs : list dblock) : tfile nat := {| tfl_file := 1%nat; tfl_bytes := b; tfl_list := L2; tfl_blocks := Bs |}.
Definition tables (b1 b2 : bytes) (Bs1 Bs2 : list dblock) : gmap Z (tfile nat) := {[ 7 := tf1 b1 Bs1; 8 := tf2 b2 Bs2 ]}.

Lemma two_files b1 b2 Bs1 Bs2 :
  table_file (TestTable.opts 20) TestTable.L b1 Bs1 → table_file (TestTable.opts 20) L2 b2 Bs2 →
  files_in_env (EN := MemEnv id) (fs b1 b2) "db" TestStorage.uopts (tables b1 b2 Bs1 Bs2).
Proof.
  intros TF1 TF2.
  assert (∀ num tf, tables b1 b2 Bs1 Bs2 !! num = Some tf → num = 7 ∧ tf = tf1 b1 Bs1 ∨ num = 8 ∧ tf = tf2 b2 Bs2) as Hcases.
  { intros num tf. unfold tables. rewrite lookup_insert_Some, lookup_singleton_Some. naive_solver. }
  split; [intros num tf Hn|intros num tf Hn|intros num tf path Hn]; destruct (Hcases num tf Hn) as [[-> ->]|[-> ->]]; try lia.
  - split; [by apply memfile_holds|exact TF1].
  - split; [by apply memfile_holds|exact TF2].
  - intros E. vm_compute in E. injection E as <-. done.
  - intros E. vm_compute in E. injection E as <-. done.
Qed.

Lemma tables_size b1 b2 Bs1 Bs2 : base.size (tables b1 b2 Bs1 Bs2) = 2%nat.
Proof. unfold tables. rewrite map_size_insert_None by done. by rewrite map_size_singleton. Qed.

(** The metadata of the two files. *)
Definition M : Metas := TestVersion.metas [TestVersion.file 7 [97; 98; 99] 5 [98; 97] 2;
  {| allowed_seeks := 10; num := 8; size := 100; smallest := ikey [99] 9 TypeValue; largest := ikey [100] 8 TypeDeletion |}].

Lemma files_tables b1 b2 Bs1 Bs2 :
  Forall2 (file_table (EN := MemEnv id) TestStorage.uopts (tables b1 b2 Bs1 Bs2) M) [0; 1]%nat [tf1 b1 Bs1; tf2 b2 Bs2].
Proof.
  repeat apply Forall2_cons_2; try apply Forall2_nil_2.
  - split; [reflexivity|exists (take 4 TestTable.L); eexists; split; reflexivity|exact (internal_separable _ TestTable.L_internal)|split_and!; by_decide || exact I].
  - split; [reflexivity|exists (take 1 L2); eexists; split; reflexivity|exact (internal_separable _ L2_internal)|split_and!; by_decide || exact I].
Qed.
End TestRead.

(** The two tables, built, in an in-memory environment with new caches. *)
Lemma test_storage :
  let IE := Reference.ref_encoding in let CR := Reference.ref_crc in let EN := MemEnv id in
  ∃ b1 b2 Bs1 Bs2 st, new_storage (TestRead.fs b1 b2) "db" TestStorage.uopts (TestRead.tables b1 b2 Bs1 Bs2) 4 10 st.
Proof.
  intros IE CR EN. pose proof (TestTable.vec_fixedint_reliable) as RF.
  destruct (build_table_ok (IEL := Reference.ref_encoding_laws) (CRL := Reference.ref_crc_laws) (RW := vec_reliable) (RF := RF)
    (TestTable.opts 20) NoneCompressor TestTable.fits 10 10 TestTable.L TestTable.L_buildable ([] : bytes) I eq_refl) as (tb1 & Bs1 & _ & TF1 & _).
  destruct (build_table_ok (IEL := Reference.ref_encoding_laws) (CRL := Reference.ref_crc_laws) (RW := vec_reliable) (RF := RF)
    (TestTable.opts 20) NoneCompressor TestTable.fits 10 10 TestRead.L2 TestRead.L2_buildable ([] : bytes) I eq_refl) as (tb2 & Bs2 & _ & TF2 & _).
  exists (tb_dst tb1), (tb_dst tb2), Bs1, Bs2. eexists. split; [exact (TestRead.two_files _ _ _ _ TF1 TF2)|].
  pose proof (TestRead.tables_size (tb_dst tb1) (tb_dst tb2) Bs1 Bs2) as Hs.
  assert (Z.of_nat (base.size (TestRead.tables (tb_dst tb1) (tb_dst tb2) Bs1 Bs2)) ≤ 4) as H4 by (rewrite Hs; lia).
  assert (Z.of_nat (base.size (TestRead.tables (tb_dst tb1) (tb_dst tb2) Bs1 Bs2)) < 2 ^ 64) as H64 by (rewrite Hs; lia).
  split; [exact H4|]. split; [exact H64|]. split; [lia|]. split; [lia|]. eexists _, _. split; [reflexivity|]. split; reflexivity.
Qed.

Lemma level_iterates_witness :
  let IE := Reference.ref_encoding in let CR := Reference.ref_crc in let EN := MemEnv id in
  ∃ st s, @collect _ (VersionIter_iterator TestTable.no_debug TestRead.M) 8 (st, new_version_iter [0; 1]%nat DefaultCmp) = Ret (s, TestTable.L ++ TestRead.L2).
Proof.
  intros IE CR EN. destruct test_storage as (b1 & b2 & Bs1 & Bs2 & st & Hst). exists st.
  destruct (level_iterates (IEL := Reference.ref_encoding_laws) (CRL := Reference.ref_crc_laws) (EN := MemEnv id) TestTable.no_debug
    (TestRead.fs b1 b2) "db" TestStorage.uopts (TestRead.tables b1 b2 Bs1 Bs2) TestRead.M 4 10 st [0; 1]%nat [TestRead.tf1 b1 Bs1; TestRead.tf2 b2 Bs2]
    Hst (TestRead.files_tables b1 b2 Bs1 Bs2)) as [(s & Es) _].
  - discriminate.
  - repeat constructor.
  - exists s. exact Es.
Defined.

Lemma version_get_first_witness :
  let IE := Reference.ref_encoding in let CR := Reference.ref_crc in let EN := MemEnv id in
  ∃ st st' stats, version_get TestTable.no_debug TestRead.M (TestVersion.version [[0]; [1]]%nat) (ikey [97; 98; 102] 9 TypeValue) st
    = Ret (st', Ok (Some ([2; 3], stats))).
Proof.
  intros IE CR EN. destruct test_storage as (b1 & b2 & Bs1 & Bs2 & st & Hst). exists st.
  destruct (version_get_first (IEL := Reference.ref_encoding_laws) (CRL := Reference.ref_crc_laws) (EN := MemEnv id) TestTable.no_debug
    (TestRead.fs b1 b2) "db" TestStorage.uopts (TestRead.tables b1 b2 Bs1 Bs2) TestRead.M 4 10 st (TestVersion.version [[0]; [1]]%nat) (ikey [97; 98; 102] 9 TypeValue)
    Hst) as (levels & El & _ & Hhit & _).
  - split; [reflexivity|reflexivity| |].
    + repeat apply Forall_cons_2; try apply Forall_nil_2; split_and!; by_decide || exact I.
    + repeat apply Forall_cons_2; try apply Forall_nil_2; (split; [|by_decide]); repeat apply Forall_cons_2; try apply Forall_nil_2; by_decide.
  - intros l Hl. unfold NUM_LEVELS in Hl. assert (l = 1 ∨ l = 2 ∨ l = 3 ∨ l = 4 ∨ l = 5 ∨ l = 6) as Hc by lia.
    destruct Hc as [->|[->|[->|[->|[->| ->]]]]]; repeat constructor.
  - split_and!; by_decide || exact I.
  - vm_compute in El. injection El as <-.
    destruct (Hhit [] 0%nat [] (ikey [97; 98; 102] 4 TypeValue, [2; 3])) as (st' & stats & E).
    + reflexivity.
    + constructor.
    + split; [|split_and!; by_decide || exact I|intros fl; reflexivity]. eexists. split; [reflexivity|]. split; [by_decide|].
      split; [exact TestTable.lookup_gap_free|]. intros e s He Hs. change (Some (ikey [97; 98; 102] 4 TypeValue, [2; 3]) = Some e) in He.
      injection He as <-. vm_compute in Hs. injection Hs as <-. reflexivity.
    + split_and!; by_decide || exact I.
    + by_decide.
    + exists st', stats. exact E.
Defined.
