(* ===== verification/VersionEdit.v ===== *)
(** * VersionEdit: [src/version_edit.rs]

    Changes to the set of files, and their encoding in the manifest.  [deleted] is a hash set:
    [encode] writes it in the order the set happens to enumerate, which is an argument of
    [encode_with]. *)

From S2P Require Import Prelude Encoding Error Types.

Record CompactionPointer := mkCompactionPointer { cp_level : Z; cp_key : bytes }.
#[export] Instance CompactionPointer_eq_dec : EqDecision CompactionPointer.
Proof. solve_decision. Defined.

Inductive EditTag :=
  | TComparator | TLogNumber | TNextFileNumber | TLastSequence | TCompactPointer | TDeletedFile | TNewFile | TPrevLogNumber.
Definition tag_u32 (t : EditTag) : Z :=
  match t with
  | TComparator => 1 | TLogNumber => 2 | TNextFileNumber => 3 | TLastSequence => 4
  | TCompactPointer => 5 | TDeletedFile => 6 | TNewFile => 7 | TPrevLogNumber => 9
  end.
Definition tag_to_enum (t : Z) : option EditTag :=
  match t with
  | 1 => Some TComparator | 2 => Some TLogNumber | 3 => Some TNextFileNumber | 4 => Some TLastSequence
  | 5 => Some TCompactPointer | 6 => Some TDeletedFile | 7 => Some TNewFile | 9 => Some TPrevLogNumber
  | _ => None
  end.

Record VersionEdit := mkVersionEdit {
  ve_comparator : option string;
  log_number : option Z;
  prev_log_number : option Z;
  next_file_number : option Z;
  ve_last_seq : option Z;
  compaction_ptrs : list CompactionPointer;
  deleted : gset (Z * Z);
  new_files : list (Z * FileMetaData);
}.

Definition VersionEdit_new : VersionEdit :=
  {| ve_comparator := None; log_number := None; prev_log_number := None; next_file_number := None; ve_last_seq := None;
     compaction_ptrs := []; deleted := ∅; new_files := [] |}.
Definition ve_clear (ve : VersionEdit) : VersionEdit := VersionEdit_new.

Definition add_file (level : Z) (file : FileMetaData) (ve : VersionEdit) : VersionEdit :=
  {| ve_comparator := ve_comparator ve; log_number := log_number ve; prev_log_number := prev_log_number ve;
     next_file_number := next_file_number ve; ve_last_seq := ve_last_seq ve; compaction_ptrs := compaction_ptrs ve;
     deleted := deleted ve; new_files := new_files ve ++ [(level, file)] |}.
Definition delete_file (level file_num : Z) (ve : VersionEdit) : VersionEdit :=
  {| ve_comparator := ve_comparator ve; log_number := log_number ve; prev_log_number := prev_log_number ve;
     next_file_number := next_file_number ve; ve_last_seq := ve_last_seq ve; compaction_ptrs := compaction_ptrs ve;
     deleted := {[ (level, file_num) ]} ∪ deleted ve; new_files := new_files ve |}.
Definition set_comparator_name (name : string) (ve : VersionEdit) : VersionEdit :=
  {| ve_comparator := Some name; log_number := log_number ve; prev_log_number := prev_log_number ve;
     next_file_number := next_file_number ve; ve_last_seq := ve_last_seq ve; compaction_ptrs := compaction_ptrs ve;
     deleted := deleted ve; new_files := new_files ve |}.
Definition set_log_num (n : Z) (ve : VersionEdit) : VersionEdit :=
  {| ve_comparator := ve_comparator ve; log_number := Some n; prev_log_number := prev_log_number ve;
     next_file_number := next_file_number ve; ve_last_seq := ve_last_seq ve; compaction_ptrs := compaction_ptrs ve;
     deleted := deleted ve; new_files := new_files ve |}.
Definition set_prev_log_num (n : Z) (ve : VersionEdit) : VersionEdit :=
  {| ve_comparator := ve_comparator ve; log_number := log_number ve; prev_log_number := Some n;
     next_file_number := next_file_number ve; ve_last_seq := ve_last_seq ve; compaction_ptrs := compaction_ptrs ve;
     deleted := deleted ve; new_files := new_files ve |}.
Definition set_last_seq (n : Z) (ve : VersionEdit) : VersionEdit :=
  {| ve_comparator := ve_comparator ve; log_number := log_number ve; prev_log_number := prev_log_number ve;
     next_file_number := next_file_number ve; ve_last_seq := Some n; compaction_ptrs := compaction_ptrs ve;
     deleted := deleted ve; new_files := new_files ve |}.
Definition set_next_file (n : Z) (ve : VersionEdit) : VersionEdit :=
  {| ve_comparator := ve_comparator ve; log_number := log_number ve; prev_log_number := prev_log_number ve;
     next_file_number := Some n; ve_last_seq := ve_last_seq ve; compaction_ptrs := compaction_ptrs ve;
     deleted := deleted ve; new_files := new_files ve |}.
Definition set_compact_pointer (level : Z) (key : bytes) (ve : VersionEdit) : VersionEdit :=
  {| ve_comparator := ve_comparator ve; log_number := log_number ve; prev_log_number := prev_log_number ve;
     next_file_number := next_file_number ve; ve_last_seq := ve_last_seq ve;
     compaction_ptrs := compaction_ptrs ve ++ [{| cp_level := level; cp_key := key |}];
     deleted := deleted ve; new_files := new_files ve |}.

(** [String::from_utf8]: well-formed UTF-8. *)
Definition is_tail (b : byte) : bool := (0x80 <=? b) && (b <=? 0xbf).
Fixpoint utf8_valid (bs : bytes) : bool :=
  match bs with
  | [] => true
  | b :: rest =>
      if b <? 0x80 then utf8_valid rest
      else
        match rest with
        | b1 :: rest1 =>
            if (0xc2 <=? b) && (b <=? 0xdf) then is_tail b1 && utf8_valid rest1
            else
              match rest1 with
              | b2 :: rest2 =>
                  if (0xe0 <=? b) && (b <=? 0xef) then
                    is_tail b1 && is_tail b2 && utf8_valid rest2
                    && (if b =? 0xe0 then 0xa0 <=? b1 else if b =? 0xed then b1 <=? 0x9f else true)
                  else
                    match rest2 with
                    | b3 :: rest3 =>
                        (0xf0 <=? b) && (b <=? 0xf4) && is_tail b1 && is_tail b2 && is_tail b3 && utf8_valid rest3
                        && (if b =? 0xf0 then 0x90 <=? b1 else if b =? 0xf4 then b1 <=? 0x8f else true)
                    | [] => false
                    end
              | [] => false
              end
        | [] => false
        end
  end.

Section codec.
Context {IE : IntegerEncoding}.

(** ** [encode] *)

Definition put_tag (t : EditTag) : bytes := encode_var (tag_u32 t).
Definition put_bytes (b : bytes) : bytes := encode_var (zlen b) ++ b.
Definition put_opt (t : EditTag) (o : option Z) : bytes :=
  match o with Some n => put_tag t ++ encode_var n | None => [] end.

Definition encode_with (del : list (Z * Z)) (ve : VersionEdit) : bytes :=
  (match ve_comparator ve with
   | Some c => put_tag TComparator ++ put_bytes (string_bytes c)
   | None => []
   end)
  ++ put_opt TLogNumber (log_number ve)
  ++ put_opt TPrevLogNumber (prev_log_number ve)
  ++ put_opt TNextFileNumber (next_file_number ve)
  ++ put_opt TLastSequence (ve_last_seq ve)
  ++ concat ((λ c, put_tag TCompactPointer ++ encode_var (cp_level c) ++ put_bytes (cp_key c)) <$> compaction_ptrs ve)
  ++ concat ((λ d, put_tag TDeletedFile ++ encode_var d.1 ++ encode_var d.2) <$> del)
  ++ concat ((λ nf, put_tag TNewFile ++ encode_var nf.1 ++ encode_var (num nf.2) ++ encode_var (size nf.2)
                    ++ put_bytes (smallest nf.2) ++ put_bytes (largest nf.2)) <$> new_files ve).
Definition ve_encode (ve : VersionEdit) : bytes := encode_with (elements (deleted ve)) ve.

(** ** [decode_from]

    A reader is what is left of the slice. *)

Definition read_u64 (msg : string) (reader : bytes) : exec (Result (Z * bytes)) :=
  Ret (match read_varint 64 reader with Some r => Ok r | None => err IOError msg end).

(** A length beyond [isize::MAX] is a capacity overflow. *)
Definition read_length_prefixed (reader : bytes) : exec (Result (bytes * bytes)) :=
  match read_varint 64 reader with
  | None => Ret (err IOError "Couldn't read key length")
  | Some (klen, reader) =>
      _ ← massert (klen <? 2 ^ 63);
      let keybuf := take (Z.to_nat klen) reader in
      if negb (zlen keybuf =? klen) then Ret (err IOError "Couldn't read full key")
      else Ret (Ok (keybuf, drop (Z.to_nat klen) reader))
  end.

Definition decode_field (tag : EditTag) (reader : bytes) (ve : VersionEdit) : exec (Result (VersionEdit * bytes)) :=
  match tag with
  | TComparator =>
      '(buf, reader) ←? read_length_prefixed reader;
      Ret (if utf8_valid buf then Ok (set_comparator_name (bytes_string buf) ve, reader)
           else err Corruption "Bad comparator encoding")
  | TLogNumber => '(n, reader) ←? read_u64 "Couldn't read lognumber" reader; Ret (Ok (set_log_num n ve, reader))
  | TPrevLogNumber => '(n, reader) ←? read_u64 "Couldn't read prevlognumber" reader; Ret (Ok (set_prev_log_num n ve, reader))
  | TNextFileNumber => '(n, reader) ←? read_u64 "Couldn't read next_file_number" reader; Ret (Ok (set_next_file n ve, reader))
  | TLastSequence => '(n, reader) ←? read_u64 "Couldn't read last_sequence" reader; Ret (Ok (set_last_seq n ve, reader))
  | TCompactPointer =>
      '(lvl, reader) ←? read_u64 "Couldn't read level" reader;
      '(key, reader) ←? read_length_prefixed reader;
      Ret (Ok (set_compact_pointer lvl key ve, reader))
  | TDeletedFile =>
      '(lvl, reader) ←? read_u64 "Couldn't read level" reader;
      '(n, reader) ←? read_u64 "Couldn't read file num" reader;
      Ret (Ok (delete_file lvl n ve, reader))
  | TNewFile =>
      '(lvl, reader) ←? read_u64 "Couldn't read file level" reader;
      '(n, reader) ←? read_u64 "Couldn't read file num" reader;
      '(sz, reader) ←? read_u64 "Couldn't read file size" reader;
      '(smallest, reader) ←? read_length_prefixed reader;
      '(largest, reader) ←? read_length_prefixed reader;
      Ret (Ok (add_file lvl (mkFile 0 n sz smallest largest) ve, reader))
  end.

(** Every iteration takes a byte from the reader. *)
Fixpoint decode_loop (fuel : nat) (reader : bytes) (ve : VersionEdit) : exec (Result VersionEdit) :=
  match fuel with
  | O => NoFuel
  | S fuel =>
      match read_varint 32 reader with
      | None => Ret (Ok ve)
      | Some (t, reader) =>
          match tag_to_enum t with
          | Some tag => '(ve, reader) ←? decode_field tag reader ve; decode_loop fuel reader ve
          | None => Ret (err Corruption ("Invalid tag number " +:+ dec_digits 19 t ""))
          end
      end
  end.
Definition decode_from (src : bytes) : exec (Result VersionEdit) := decode_loop (S (length src)) src VersionEdit_new.

End codec.

(** ** Round trip *)

(** An edit as the sequence of its fields. *)
Inductive item :=
  | IComparator (c : string) | ILogNumber (n : Z) | IPrevLogNumber (n : Z) | INextFile (n : Z) | ILastSeq (n : Z)
  | ICompactPointer (c : CompactionPointer) | IDeleted (d : Z * Z) | INewFile (nf : Z * FileMetaData).

Definition item_tag (i : item) : EditTag :=
  match i with
  | IComparator _ => TComparator | ILogNumber _ => TLogNumber | IPrevLogNumber _ => TPrevLogNumber
  | INextFile _ => TNextFileNumber | ILastSeq _ => TLastSequence | ICompactPointer _ => TCompactPointer
  | IDeleted _ => TDeletedFile | INewFile _ => TNewFile
  end.
Definition apply_item (ve : VersionEdit) (i : item) : VersionEdit :=
  match i with
  | IComparator c => set_comparator_name c ve
  | ILogNumber n => set_log_num n ve
  | IPrevLogNumber n => set_prev_log_num n ve
  | INextFile n => set_next_file n ve
  | ILastSeq n => set_last_seq n ve
  | ICompactPointer c => set_compact_pointer (cp_level c) (cp_key c) ve
  | IDeleted d => delete_file d.1 d.2 ve
  | INewFile nf => add_file nf.1 nf.2 ve
  end.
Definition items (del : list (Z * Z)) (ve : VersionEdit) : list item :=
  option_list (IComparator <$> ve_comparator ve) ++ option_list (ILogNumber <$> log_number ve)
  ++ option_list (IPrevLogNumber <$> prev_log_number ve) ++ option_list (INextFile <$> next_file_number ve)
  ++ option_list (ILastSeq <$> ve_last_seq ve) ++ (ICompactPointer <$> compaction_ptrs ve)
  ++ (IDeleted <$> del) ++ (INewFile <$> new_files ve).

(** What the format can represent: the number of seeks allowed is not written. *)
Definition key_fits (k : bytes) : Prop := zlen k < 2 ^ 63.
Definition item_ok (i : item) : Prop :=
  match i with
  | IComparator c => utf8_valid (string_bytes c) = true ∧ key_fits (string_bytes c)
  | ILogNumber n | IPrevLogNumber n | INextFile n | ILastSeq n => is_u 64 n
  | ICompactPointer c => is_u 64 (cp_level c) ∧ key_fits (cp_key c)
  | IDeleted d => is_u 64 d.1 ∧ is_u 64 d.2
  | INewFile nf => is_u 64 nf.1 ∧ is_u 64 (num nf.2) ∧ is_u 64 (size nf.2) ∧ key_fits (smallest nf.2)
      ∧ key_fits (largest nf.2) ∧ allowed_seeks nf.2 = 0
  end.
#[export] Instance item_ok_dec i : Decision (item_ok i).
Proof. destruct i; cbn [item_ok]; unfold key_fits; apply _. Defined.
Definition edit_ok (ve : VersionEdit) : Prop := Forall item_ok (items (elements (deleted ve)) ve).

Section roundtrip.
Context `{IEL : IntegerEncodingLaws}.

Definition item_body (i : item) : bytes :=
  match i with
  | IComparator c => put_bytes (string_bytes c)
  | ILogNumber n | IPrevLogNumber n | INextFile n | ILastSeq n => encode_var n
  | ICompactPointer c => encode_var (cp_level c) ++ put_bytes (cp_key c)
  | IDeleted d => encode_var d.1 ++ encode_var d.2
  | INewFile nf => encode_var nf.1 ++ encode_var (num nf.2) ++ encode_var (size nf.2)
      ++ put_bytes (smallest nf.2) ++ put_bytes (largest nf.2)
  end.
Definition item_bytes (i : item) : bytes := put_tag (item_tag i) ++ item_body i.

Lemma put_opt_items t I o :
  (∀ n, item_bytes (I n) = put_tag t ++ encode_var n) → put_opt t o = concat (item_bytes <$> option_list (I <$> o)).
Proof. intros H. destruct o as [n|]; [|done]. cbn. by rewrite H, app_nil_r. Qed.

Lemma encode_items del ve : encode_with del ve = concat (item_bytes <$> items del ve).
Proof.
  unfold encode_with, items. rewrite !fmap_app, !concat_app, <- !list_fmap_compose.
  rewrite (put_opt_items TLogNumber ILogNumber), (put_opt_items TPrevLogNumber IPrevLogNumber),
    (put_opt_items TNextFileNumber INextFile), (put_opt_items TLastSequence ILastSeq) by done.
  f_equal. destruct (ve_comparator ve); [|done]. cbn. by rewrite app_nil_r.
Qed.

Lemma tag_roundtrip t : is_u 32 (tag_u32 t) ∧ tag_to_enum (tag_u32 t) = Some t.
Proof. by destruct t. Qed.

Lemma read_prefixed_ok k rest : key_fits k → read_length_prefixed (put_bytes k ++ rest) = Ret (Ok (k, rest)).
Proof.
  intros Hk. unfold read_length_prefixed, put_bytes, key_fits in *. rewrite <- app_assoc.
  rewrite read_varint_usize by (unfold is_u; lia). ztest. rewrite Nat2Z.id, take_app_length, drop_app_length. by ztest.
Qed.

Lemma read_u64_ok msg n rest : is_u 64 n → read_u64 msg (encode_var n ++ rest) = Ret (Ok (n, rest)).
Proof. intros Hn. unfold read_u64. by rewrite read_varint_usize. Qed.

Lemma decode_field_ok i ve rest :
  item_ok i → decode_field (item_tag i) (item_body i ++ rest) ve = Ret (Ok (apply_item ve i, rest)).
Proof.
  destruct i as [c|n|n|n|n|[l k]|[l n]|[l [a n s sm la]]]; cbn [item_ok item_tag item_body decode_field fst snd num size smallest largest cp_level cp_key allowed_seeks];
    intros H; rewrite <- ?app_assoc.
  - destruct H as [Hu Hk]. rewrite read_prefixed_ok by done. cbn. by rewrite Hu, bytes_string_bytes.
  - by rewrite read_u64_ok.
  - by rewrite read_u64_ok.
  - by rewrite read_u64_ok.
  - by rewrite read_u64_ok.
  - destruct H as [Hl Hk]. rewrite read_u64_ok by done. rewrite rbind_Ok. by rewrite read_prefixed_ok.
  - destruct H as [Hl Hn]. rewrite read_u64_ok by done. rewrite rbind_Ok. by rewrite read_u64_ok.
  - destruct H as (Hl & Hn & Hs & Hsm & Hla & ->). do 3 (rewrite read_u64_ok by done; rewrite rbind_Ok).
    do 2 (rewrite read_prefixed_ok by done; rewrite rbind_Ok). done.
Qed.

Lemma decode_loop_items its fuel : ∀ ve,
  Forall item_ok its → (length its < fuel)%nat →
  decode_loop fuel (concat (item_bytes <$> its)) ve = Ret (Ok (foldl apply_item ve its)).
Proof.
  revert fuel. induction its as [|i its IH]; intros [|fuel] ve Hok Hf; try (simpl in Hf; lia); cbn [decode_loop].
  - cbn. by rewrite read_varint_nil.
  - apply Forall_cons in Hok as [Hi Hok]. cbn [fmap list_fmap concat]. unfold item_bytes at 1, put_tag.
    destruct (tag_roundtrip (item_tag i)) as [Ht He]. rewrite <- !app_assoc, read_varint_u32, He by done.
    rewrite decode_field_ok, rbind_Ok by done. apply IH; [done|]. simpl in Hf. lia.
Qed.

Lemma item_bytes_pos i : (1 ≤ length (item_bytes i))%nat.
Proof.
  unfold item_bytes, put_tag. rewrite length_app. destruct (tag_roundtrip (item_tag i)) as [Ht _].
  pose proof (encode_var_pos (tag_u32 (item_tag i))) as Hp. unfold is_u in *. lia.
Qed.

Lemma items_fuel its : (length its ≤ length (concat (item_bytes <$> its)))%nat.
Proof.
  induction its as [|i its IH]; [done|]. cbn [fmap list_fmap concat]. rewrite length_app. pose proof (item_bytes_pos i). simpl. lia.
Qed.

(** Reapplying the fields of an edit gives the edit. *)
Lemma apply_ptrs cs ve : foldl apply_item ve (ICompactPointer <$> cs) =
  {| ve_comparator := ve_comparator ve; log_number := log_number ve; prev_log_number := prev_log_number ve;
     next_file_number := next_file_number ve; ve_last_seq := ve_last_seq ve;
     compaction_ptrs := compaction_ptrs ve ++ cs; deleted := deleted ve; new_files := new_files ve |}.
Proof.
  revert ve. induction cs as [|[l k] cs IH]; intros ve; cbn; [rewrite app_nil_r; by destruct ve|].
  rewrite IH. cbn. by rewrite <- app_assoc.
Qed.
Lemma apply_deleted ds ve : foldl apply_item ve (IDeleted <$> ds) =
  {| ve_comparator := ve_comparator ve; log_number := log_number ve; prev_log_number := prev_log_number ve;
     next_file_number := next_file_number ve; ve_last_seq := ve_last_seq ve;
     compaction_ptrs := compaction_ptrs ve; deleted := list_to_set ds ∪ deleted ve; new_files := new_files ve |}.
Proof.
  revert ve. induction ds as [|[l n] ds IH]; intros ve; cbn; [rewrite (left_id_L ∅ (∪)); by destruct ve|].
  rewrite IH. cbn. f_equal. set_solver.
Qed.
Lemma apply_files fs ve : foldl apply_item ve (INewFile <$> fs) =
  {| ve_comparator := ve_comparator ve; log_number := log_number ve; prev_log_number := prev_log_number ve;
     next_file_number := next_file_number ve; ve_last_seq := ve_last_seq ve;
     compaction_ptrs := compaction_ptrs ve; deleted := deleted ve; new_files := new_files ve ++ fs |}.
Proof.
  revert ve. induction fs as [|[l f] fs IH]; intros ve; cbn; [rewrite app_nil_r; by destruct ve|].
  rewrite IH. cbn. by rewrite <- app_assoc.
Qed.

Lemma apply_items del ve : list_to_set del = deleted ve → foldl apply_item VersionEdit_new (items del ve) = ve.
Proof.
  intros Hd. unfold items. rewrite !foldl_app. rewrite apply_files, apply_deleted, apply_ptrs.
  destruct ve as [c l p n s cs ds fs]. cbn in Hd |- *. subst ds.
  by destruct c, l, p, n, s; cbn; rewrite (right_id_L ∅ (∪)).
Qed.

Lemma decode_encode ve del :
  edit_ok ve → del ≡ₚ elements (deleted ve) → decode_from (encode_with del ve) = Ret (Ok ve).
Proof.
  intros Hok Hdel. unfold decode_from. rewrite encode_items. rewrite decode_loop_items.
  - rewrite apply_items; [done|]. rewrite Hdel. apply list_to_set_elements_L.
  - unfold edit_ok, items in *. by rewrite Hdel.
  - pose proof (items_fuel (items del ve)). lia.
Qed.


(** Whatever the bytes are, decoding ends. *)
Lemma read_prefixed_shorter reader k rest :
  read_length_prefixed reader = Ret (Ok (k, rest)) → (length rest ≤ length reader)%nat.
Proof.
  unfold read_length_prefixed. destruct (read_varint 64 reader) as [[n r]|] eqn:E; [|done].
  apply read_varint_rest in E as [_ E]. intros H. exec_inv H. destruct (negb _); simplify_eq. rewrite length_drop. lia.
Qed.

Lemma read_u64_shorter msg reader n rest : read_u64 msg reader = Ret (Ok (n, rest)) → (length rest ≤ length reader)%nat.
Proof.
  unfold read_u64. destruct (read_varint 64 reader) as [[m r]|] eqn:E; [|done]. intros [= <- <-].
  apply read_varint_rest in E as [_ E]. lia.
Qed.

Lemma read_prefixed_fuel reader : read_length_prefixed reader ≠ NoFuel.
Proof.
  unfold read_length_prefixed. destruct (read_varint 64 reader) as [[n r]|]; [|done].
  destruct (n <? 2 ^ 63); cbn; [|done]. by destruct (negb _).
Qed.

Lemma decode_field_shorter tag reader ve ve' rest :
  decode_field tag reader ve = Ret (Ok (ve', rest)) → (length rest ≤ length reader)%nat.
Proof.
  destruct tag; cbn [decode_field]; intros H;
    repeat (let Hr := fresh "Hr" in apply rbind_Ok_inv in H as ([? ?] & Hr & H);
            first [apply read_u64_shorter in Hr | apply read_prefixed_shorter in Hr]);
    try destruct (utf8_valid _); simplify_eq; lia.
Qed.

Lemma decode_field_fuel tag reader ve : decode_field tag reader ve ≠ NoFuel.
Proof.
  destruct tag; cbn [decode_field];
    repeat (apply rbind_fuel; [first [done | apply read_prefixed_fuel]|intros [? ?] _]); done.
Qed.

(** Decoding ends on every input, well-formed or not. *)
Theorem version_edit_decode_ends src : decode_from src ≠ NoFuel.
Proof.
  unfold decode_from. assert (length src < S (length src))%nat as Hf by lia. revert Hf.
  generalize VersionEdit_new as ve, (S (length src)) as fuel. intros ve fuel. revert src ve.
  induction fuel as [|fuel IH]; intros src ve Hf; [lia|]. cbn [decode_loop].
  destruct (read_varint 32 src) as [[t r]|] eqn:E; [|done]. apply read_varint_rest in E as [_ E].
  destruct (tag_to_enum t) as [tag|]; [|done]. apply rbind_fuel; [apply decode_field_fuel|].
  intros [ve' r'] Hd. apply decode_field_shorter in Hd. apply IH. lia.
Qed.

End roundtrip.

Lemma version_edit_decode_ends_witness :
  let IE := Reference.ref_encoding in decode_from [7; 1; 200; 255; 3] ≠ NoFuel.
Proof. apply (version_edit_decode_ends (IEL := Reference.ref_encoding_laws)). Defined.

