(* ===== verification/Snapshot.v ===== *)
(** * Snapshot: [src/snapshot.rs]

    The list of live snapshots.  A [Snapshot] is a reference-counted pointer; the counts are
    part of the state, and dropping the last clone deletes the entry from the list. *)

From S2P Require Import Prelude Types.

Record InnerSnapshot := mkSnapshot { sn_id : Z; sn_seq : Z }.
Definition sequence (s : InnerSnapshot) : Z := sn_seq s.

Record SnapshotList := mkSnapshotList {
  sl_map : gmap Z Z;
  sl_newest : Z;
  sl_oldest : Z;
  (** The strong count of the [Rc] of each snapshot by its id. *)
  sl_refs : gmap Z nat;
}.

Definition SnapshotList_new : SnapshotList := {| sl_map := ∅; sl_newest := 0; sl_oldest := 0; sl_refs := ∅ |}.

Definition new_snapshot (seq : Z) (sl : SnapshotList) : exec (SnapshotList * InnerSnapshot) :=
  newest ← uadd 64 (sl_newest sl) 1;
  Ret ({| sl_map := <[newest := seq]> (sl_map sl); sl_newest := newest;
          sl_oldest := if sl_oldest sl =? 0 then newest else sl_oldest sl;
          sl_refs := <[newest := 1%nat]> (sl_refs sl) |},
       {| sn_id := newest; sn_seq := seq |}).

Definition sl_delete (id : Z) (sl : SnapshotList) : SnapshotList :=
  {| sl_map := delete id (sl_map sl); sl_newest := sl_newest sl; sl_oldest := sl_oldest sl; sl_refs := sl_refs sl |}.

Definition set_refs (id : Z) (n : option nat) (sl : SnapshotList) : SnapshotList :=
  {| sl_map := sl_map sl; sl_newest := sl_newest sl; sl_oldest := sl_oldest sl;
     sl_refs := partial_alter (λ _, n) id (sl_refs sl) |}.

(** [Clone] and [Drop] of a [Snapshot] that is alive. *)
Definition snapshot_clone (s : InnerSnapshot) (sl : SnapshotList) : exec (SnapshotList * InnerSnapshot) :=
  n ← unwrap (sl_refs sl !! sn_id s);
  Ret (set_refs (sn_id s) (Some (S n)) sl, s).
Definition snapshot_drop (s : InnerSnapshot) (sl : SnapshotList) : exec SnapshotList :=
  n ← unwrap (sl_refs sl !! sn_id s);
  match n with
  | S (S n) => Ret (set_refs (sn_id s) (Some (S n)) sl)
  | _ => Ret (sl_delete (sn_id s) (set_refs (sn_id s) None sl))
  end.

(** [map.iter().fold(..)]; the closure's [seq] is the first component of the pair. *)
Definition sl_oldest_of (sl : SnapshotList) : Z :=
  let oldest := foldr (λ '(seq, _) s, if seq <? s then seq else s) MAX_SEQUENCE_NUMBER (map_to_list (sl_map sl)) in
  if oldest =? MAX_SEQUENCE_NUMBER then 0 else oldest.
Definition sl_newest_of (sl : SnapshotList) : Z :=
  foldr (λ '(seq, _) s, if s <? seq then seq else s) 0 (map_to_list (sl_map sl)).
Definition sl_empty (sl : SnapshotList) : bool := sl_oldest sl =? 0.

(** ** The list holds the live snapshots

    [reach sl live]: creating, cloning and dropping snapshots leads to the list [sl] and the
    live pointers [live]. *)

#[export] Instance InnerSnapshot_eq_dec : EqDecision InnerSnapshot.
Proof. solve_decision. Defined.

Inductive reach : SnapshotList → list InnerSnapshot → Prop :=
  | reach_new : reach SnapshotList_new []
  | reach_snapshot sl live seq sl' s :
      reach sl live → new_snapshot seq sl = Ret (sl', s) → reach sl' (s :: live)
  | reach_clone sl live s sl' s' :
      reach sl live → s ∈ live → snapshot_clone s sl = Ret (sl', s') → reach sl' (s' :: live)
  | reach_drop sl live s live' sl' :
      reach sl live → live ≡ₚ s :: live' → snapshot_drop s sl = Ret sl' → reach sl' live'.

Definition refs_to (id : Z) (live : list InnerSnapshot) : nat := length (filter (λ s, sn_id s = id) live).

Record sl_inv (sl : SnapshotList) (live : list InnerSnapshot) : Prop := {
  sl_live s : s ∈ live ↔ sl_map sl !! sn_id s = Some (sn_seq s);
  sl_counts id : sl_refs sl !! id = match refs_to id live with O => None | n => Some n end;
  sl_ids s : s ∈ live → 1 ≤ sn_id s ≤ sl_newest sl;
  sl_first : 0 ≤ sl_oldest sl ≤ sl_newest sl ∧ (sl_oldest sl = 0 → sl_newest sl = 0);
}.

Lemma refs_to_cons id s live : refs_to id (s :: live) = if decide (sn_id s = id) then S (refs_to id live) else refs_to id live.
Proof. unfold refs_to. rewrite filter_cons. by destruct (decide _). Qed.
Lemma refs_to_0 id live : refs_to id live = 0%nat ↔ ∀ s, s ∈ live → sn_id s ≠ id.
Proof.
  induction live as [|s live IH]; [set_solver|]. rewrite refs_to_cons. destruct (decide (sn_id s = id)) as [E|E].
  - split; [lia|]. intros H. destruct (H s); [left|done].
  - rewrite IH. set_solver.
Qed.
Lemma refs_to_perm id live live' : live ≡ₚ live' → refs_to id live = refs_to id live'.
Proof. intros H. unfold refs_to. by rewrite H. Qed.

Lemma new_inv sl live seq sl' s : sl_inv sl live → new_snapshot seq sl = Ret (sl', s) → sl_inv sl' (s :: live).
Proof.
  intros [Hl Hc Hi [Hf1 Hf2]] E. unfold new_snapshot in E. exec_inv E. unfold uadd in Hm. destruct (_ <? _); simplify_eq.
  set (n := sl_newest sl + 1). assert (∀ x, x ∈ live → sn_id x ≠ n) as Hnew by (intros x Hx ?; apply Hi in Hx; lia).
  split; cbn [sl_map sl_newest sl_oldest sl_refs].
  - intros [i q]. cbn [sn_id sn_seq]. rewrite elem_of_cons, Hl. cbn [sn_id sn_seq].
    destruct (decide (i = n)) as [->|Hne].
    + rewrite lookup_insert_eq. split; [intros [[=]|H]; [by simplify_eq|]|intros [=]; left; by f_equal].
      by destruct (Hnew {| sn_id := n; sn_seq := q |}); [apply Hl|].
    + rewrite lookup_insert_ne by done. split; [intros [[=]|H]; [done..]|by right].
  - intros id. rewrite refs_to_cons. cbn [sn_id]. destruct (decide (n = id)) as [<-|Hne].
    + rewrite lookup_insert_eq. by rewrite (proj2 (refs_to_0 n live) Hnew).
    + by rewrite lookup_insert_ne.
  - intros x [->|Hx]%elem_of_cons; [cbn; lia|]. apply Hi in Hx. lia.
  - destruct (Z.eqb_spec (sl_oldest sl) 0); lia.
Qed.

Lemma clone_inv sl live s sl' s' :
  sl_inv sl live → s ∈ live → snapshot_clone s sl = Ret (sl', s') → sl_inv sl' (s' :: live).
Proof.
  intros [Hl Hc Hi Hf] Hs E. unfold snapshot_clone in E. exec_inv E. simplify_eq.
  split; cbn [set_refs sl_map sl_newest sl_oldest sl_refs]; [|..|done].
  - intros x. rewrite elem_of_cons, Hl. split; [intros [->|H]; [by apply Hl|done]|by right].
  - intros id. rewrite refs_to_cons. specialize (Hc id). destruct (decide (sn_id s' = id)) as [<-|Hne].
    + rewrite lookup_partial_alter_eq. destruct (sl_refs sl !! sn_id s') as [k|]; simplify_eq/=.
      destruct (refs_to _ live); by simplify_eq.
    + by rewrite lookup_partial_alter_ne.
  - intros x [->|Hx]%elem_of_cons; [by apply Hi|by apply Hi].
Qed.

Lemma drop_inv sl live s live' sl' :
  sl_inv sl live → live ≡ₚ s :: live' → snapshot_drop s sl = Ret sl' → sl_inv sl' live'.
Proof.
  intros [Hl Hc Hi Hf] Hp E. unfold snapshot_drop in E. exec_inv E.
  assert (∀ id, refs_to id live = refs_to id (s :: live')) as Hr by (intros; by apply refs_to_perm).
  assert (sl_refs sl !! sn_id s = Some (S (refs_to (sn_id s) live'))) as Hs.
  { rewrite Hc, Hr, refs_to_cons. by rewrite decide_True. }
  assert (∀ id, id ≠ sn_id s → sl_refs sl !! id = match refs_to id live' with O => None | n => Some n end) as Ho.
  { intros id Hne. rewrite Hc, Hr, refs_to_cons. by rewrite decide_False. }
  rewrite Hs in Hm. simplify_eq/=. destruct (refs_to (sn_id s) live') as [|n] eqn:Hn; simplify_eq/=.
  - pose proof (proj1 (refs_to_0 _ _) Hn) as Hgone. split; cbn [sl_delete set_refs sl_map sl_newest sl_oldest sl_refs]; [|..|done].
    + intros x. destruct (decide (sn_id x = sn_id s)) as [Ex|Ex].
      * rewrite Ex, lookup_delete_eq. split; [|done]. intros Hx. by destruct (Hgone x Hx).
      * rewrite lookup_delete_ne by done. rewrite <- Hl, Hp. set_solver.
    + intros id. destruct (decide (id = sn_id s)) as [->|Hne]; [by rewrite lookup_partial_alter_eq, Hn|].
      by rewrite lookup_partial_alter_ne, Ho.
    + intros x Hx. apply Hi. rewrite Hp. by right.
  - split; cbn [set_refs sl_map sl_newest sl_oldest sl_refs]; [|..|done].
    + intros x. rewrite <- Hl, Hp, elem_of_cons. split; [by right|]. intros [->|Hx]; [|done].
      assert (∃ y, y ∈ live' ∧ sn_id y = sn_id s) as (y & Hy & Ey).
      { destruct (decide (Exists (λ y, sn_id y = sn_id s) live')) as [(y & ? & ?)%Exists_exists|Hno]; [by exists y|].
        exfalso. assert (refs_to (sn_id s) live' = 0%nat); [|lia]. apply refs_to_0. intros y Hy E'. apply Hno.
        apply Exists_exists. by exists y. }
      assert (y = s) as ->; [|done]. assert (y ∈ live ∧ s ∈ live) as [H1 H2] by (rewrite Hp; set_solver).
      apply Hl in H1, H2. rewrite Ey in H1. destruct y, s; simplify_eq/=; congruence.
    + intros id. destruct (decide (id = sn_id s)) as [->|Hne]; [by rewrite lookup_partial_alter_eq, Hn|].
      by rewrite lookup_partial_alter_ne, Ho.
    + intros x Hx. apply Hi. rewrite Hp. by right.
Qed.

Lemma reach_inv sl live : reach sl live → sl_inv sl live.
Proof.
  induction 1; [|by eapply new_inv|by eapply clone_inv|by eapply drop_inv].
  split; cbn; [intros s; rewrite lookup_empty; set_solver|done|set_solver|lia].
Qed.

(** C28: the list has an entry for a snapshot exactly while a clone of it is alive, and
    cloning or dropping a live snapshot never fails. *)
Theorem snapshot_list_live sl live s :
  reach sl live →
  (s ∈ live ↔ sl_map sl !! sn_id s = Some (sn_seq s))
  ∧ (s ∈ live → (∃ r, snapshot_clone s sl = Ret r) ∧ ∃ sl', snapshot_drop s sl = Ret sl').
Proof.
  intros [Hl Hc Hi Hf]%reach_inv. split; [apply Hl|]. intros Hs. unfold snapshot_clone, snapshot_drop. rewrite Hc.
  destruct (refs_to (sn_id s) live) as [|n] eqn:En; [by destruct (proj1 (refs_to_0 _ _) En s Hs)|].
  cbn. split; [eauto|]. destruct n; eauto.
Qed.

Lemma fold_min (l : list (Z * Z)) m :
  foldr (λ '(seq, _) s, if seq <? s then seq else s) m l = foldr Z.min m l.*1.
Proof. induction l as [|[a b] l IH]; cbn; [done|]. rewrite IH. destruct (Z.ltb_spec a (foldr Z.min m l.*1)); lia. Qed.
Lemma foldr_min_in (l : list Z) m : foldr Z.min m l = m ∨ foldr Z.min m l ∈ l.
Proof.
  induction l as [|a l IH]; cbn; [by left|]. destruct (Z.min_spec a (foldr Z.min m l)) as [[_ ->]|[_ ->]]; [right; left|].
  destruct IH as [IH|IH]; [by left|right; by right].
Qed.
Lemma foldr_min_le (l : list Z) m x : x ∈ l → foldr Z.min m l ≤ x.
Proof. induction l as [|a l IH]; [set_solver|]. cbn. intros [->|Hx]%elem_of_cons; [lia|]. specialize (IH Hx). lia. Qed.

(** What [oldest] returns, while fewer than 2^56-1 snapshots were taken, is the least
    {e handle} of a live snapshot (0 when none is alive) and not, as documented, the least
    sequence number: the fold looks at the keys of the map. *)
Theorem snapshot_oldest_is_handle sl live :
  reach sl live → sl_newest sl < MAX_SEQUENCE_NUMBER →
  (live = [] ∧ sl_oldest_of sl = 0)
  ∨ ∃ s, s ∈ live ∧ sl_oldest_of sl = sn_id s ∧ ∀ s', s' ∈ live → sn_id s ≤ sn_id s'.
Proof.
  intros [Hl Hc Hi Hf]%reach_inv Hmax. unfold sl_oldest_of. rewrite fold_min. set (ids := (map_to_list (sl_map sl)).*1).
  assert (∀ id, id ∈ ids → ∃ s, s ∈ live ∧ sn_id s = id) as Hids.
  { intros id ([i q] & -> & Hin%elem_of_map_to_list)%list_elem_of_fmap. exists {| sn_id := i; sn_seq := q |}. by rewrite Hl. }
  assert (∀ s, s ∈ live → sn_id s ∈ ids) as Hids'.
  { intros s Hs. apply list_elem_of_fmap. exists (sn_id s, sn_seq s). split; [done|]. apply elem_of_map_to_list. by apply Hl. }
  destruct (foldr_min_in ids MAX_SEQUENCE_NUMBER) as [E|(s & Hs & E)%Hids].
  - left. rewrite E, Z.eqb_refl. split; [|done]. destruct live as [|s live]; [done|].
    pose proof (foldr_min_le ids MAX_SEQUENCE_NUMBER (sn_id s)) as H. specialize (Hids' s). specialize (Hi s).
    rewrite E in H. assert (s ∈ s :: live) as Hs by left. apply Hi in Hs as Hs1. apply Hids' in Hs. apply H in Hs. lia.
  - right. exists s. split; [done|]. split.
    + apply Hi in Hs. rewrite <- E. by rewrite (proj2 (Z.eqb_neq _ _)) by lia.
    + intros s' Hs'. rewrite E. apply foldr_min_le. by apply Hids'.
Qed.

(** Two snapshots at sequence 5, the first dropped: [oldest] is 2. *)
Lemma two_snapshots :
  ∃ sl, reach sl [{| sn_id := 2; sn_seq := 5 |}] ∧ sl_newest sl < MAX_SEQUENCE_NUMBER ∧ sl_oldest_of sl = 2.
Proof.
  eexists. split; [|split].
  - eapply (reach_drop _ [{| sn_id := 2; sn_seq := 5 |}; {| sn_id := 1; sn_seq := 5 |}] {| sn_id := 1; sn_seq := 5 |}).
    + eapply (reach_snapshot _ _ 5); [eapply (reach_snapshot _ _ 5); [constructor|reflexivity]|reflexivity].
    + apply Permutation_swap.
    + reflexivity.
  - done.
  - by vm_compute.
Defined.

Lemma snapshot_list_live_witness :
  ∃ sl, (∃ r, snapshot_clone {| sn_id := 2; sn_seq := 5 |} sl = Ret r).
Proof.
  destruct two_snapshots as (sl & R & _). exists sl. apply (snapshot_list_live sl _ {| sn_id := 2; sn_seq := 5 |} R). left.
Defined.

Lemma snapshot_oldest_is_handle_witness :
  ∃ sl, sl_oldest_of sl = 2 ∧
  (([{| sn_id := 2; sn_seq := 5 |}] = [] ∧ sl_oldest_of sl = 0)
   ∨ ∃ s, s ∈ [{| sn_id := 2; sn_seq := 5 |}] ∧ sl_oldest_of sl = sn_id s
      ∧ ∀ s', s' ∈ [{| sn_id := 2; sn_seq := 5 |}] → sn_id s ≤ sn_id s').
Proof.
  destruct two_snapshots as (sl & R & Hm & Ho). exists sl. split; [exact Ho|].
  apply (snapshot_oldest_is_handle sl _ R Hm).
Defined.

(** Once a snapshot was taken, [empty] is false for good. *)
Lemma sl_empty_never_again sl live : reach sl live → 0 < sl_newest sl → sl_empty sl = false.
Proof. intros [_ _ _ [H1 H2]]%reach_inv Hn. unfold sl_empty. apply Z.eqb_neq. lia. Qed.
