(* ===== verification/MergingIter.v ===== *)
(** * MergingIter: [src/merging_iter.rs]

    The iterator that merges several iterators by a comparator.  The iterators may share a
    state [St] (the files and caches of a database), which every operation passes along.
    [Box<dyn LdbIterator>] is [BoxIter]: a value together with its implementation of the
    trait. *)

From S2P Require Import Prelude Encoding Types Cmp Iterator Filter Options BlockBuilder Block.

(** ** [Box<dyn LdbIterator>] *)

Record BoxIter (St : Type) := mkBox { box_type : Type; box_impl : LdbIterator (St * box_type); box_it : box_type }.
Arguments mkBox {St}.
Arguments box_type {St}.
Arguments box_impl {St}.
Arguments box_it {St}.

Definition rebox {St} (b : BoxIter St) (x : St * box_type b) : St * BoxIter St :=
  (x.1, {| box_type := box_type b; box_impl := box_impl b; box_it := x.2 |}).

#[export] Instance BoxIter_iterator {St} : LdbIterator (St * BoxIter St) := {
  it_advance b := '(it, r) ← @it_advance _ (box_impl b.2) (b.1, box_it b.2); Ret (rebox b.2 it, r);
  it_current b := @it_current _ (box_impl b.2) (b.1, box_it b.2);
  it_seek key b := it ← @it_seek _ (box_impl b.2) key (b.1, box_it b.2); Ret (rebox b.2 it);
  it_reset b := it ← @it_reset _ (box_impl b.2) (b.1, box_it b.2); Ret (rebox b.2 it);
  it_valid b := @it_valid _ (box_impl b.2) (b.1, box_it b.2);
  it_prev b := '(it, r) ← @it_prev _ (box_impl b.2) (b.1, box_it b.2); Ret (rebox b.2 it, r);
}.

(** ** [MergingIter] *)

Inductive SL := Smallest | Largest.

Record MergingIter (It : Type) := mkMerging {
  iters : list It;
  mi_current : option nat;
  mi_direction : Direction;
  mi_cmp : Cmp;
}.
Arguments mkMerging {It}.
Arguments iters {It}.
Arguments mi_current {It}.
Arguments mi_direction {It}.
Arguments mi_cmp {It}.

Definition MergingIter_new {It} (c : Cmp) (its : list It) : MergingIter It :=
  {| iters := its; mi_current := None; mi_direction := Forward; mi_cmp := c |}.

Section defs.
Context {St It : Type} {LI : LdbIterator (St * It)}.
Implicit Types (m : MergingIter It) (s : St).
Abbreviation state := (St * MergingIter It)%type (only parsing).

Definition mi_set m (its : list It) (cur : option nat) (d : Direction) : MergingIter It :=
  {| iters := its; mi_current := cur; mi_direction := d; mi_cmp := mi_cmp m |}.

(** [for i in 0..self.iters.len() { .. self.iters[i] .. }] with a body that changes [iters[i]]. *)
Fixpoint for_iters (f : nat → St * It → exec (St * It)) (i : nat) (its : list It) s : exec (St * list It) :=
  match its with
  | [] => Ret (s, [])
  | it :: its => '(s, it) ← f i (s, it); '(s, its) ← for_iters f (S i) its s; Ret (s, it :: its)
  end.

(** The loop of [find] over [i]; [next_ix] is the best index so far. *)
Fixpoint find_loop (sl : SL) s m (n i next_ix : nat) : exec nat :=
  match n with
  | O => Ret next_ix
  | S n =>
      it ← unwrap (iters m !! i);
      kv ← it_current (s, it);
      next_ix ←
        match kv with
        | None => Ret next_ix
        | Some (current, _) =>
            best ← unwrap (iters m !! next_ix);
            skv ← it_current (s, best);
            match skv with
            | Some (smallest, _) =>
                o ← cmp (mi_cmp m) current smallest;
                Ret (if (match sl with Smallest => is_lt o | Largest => is_gt o end) then i else next_ix)
            | None => Ret i
            end
        end;
      find_loop sl s m n (S i) next_ix
  end.

Definition mi_find (sl : SL) (x : state) : exec state :=
  let (s, m) := x in
  match iters m with
  | [] => Ret x
  | _ :: rest =>
      next_ix ← find_loop sl s m (length rest) 1 0;
      Ret (s, mi_set m (iters m) (Some next_ix) (mi_direction m))
  end.
Definition find_smallest (x : state) : exec state := mi_find Smallest x.
Definition find_largest (x : state) : exec state := mi_find Largest x.

Definition mi_init (x : state) : exec state :=
  let (s, m) := x in
  '(s, its) ← for_iters
    (λ _ it,
      it ← it_reset it;
      '(it, _) ← it_advance it;
      v ← it_valid it;
      if (v : bool) then Ret it else it_reset it) 0 (iters m) s;
  find_smallest (s, mi_set m its (mi_current m) (mi_direction m)).

Definition mi_valid (x : state) : exec bool :=
  let (s, m) := x in
  match mi_current m with
  | Some ix => it ← unwrap (iters m !! ix); it_valid (s, it)
  | None => Ret false
  end.
Definition mi_current_kv (x : state) : exec (option (bytes * bytes)) :=
  let (s, m) := x in
  match mi_current m with
  | Some ix => it ← unwrap (iters m !! ix); it_current (s, it)
  | None => Ret None
  end.

(** [while self.iters[i].advance() {}] *)
Fixpoint advance_while (fuel : nat) (it : St * It) : exec (St * It) :=
  match fuel with
  | O => NoFuel
  | S fuel => '(it, more) ← it_advance it; if (more : bool) then advance_while fuel it else Ret it
  end.

(** The bodies of the two loops of [update_direction]. *)
Definition turn_forward (c : Cmp) (key : bytes) (it : St * It) : exec (St * It) :=
  it ← it_seek key it;
  kv ← it_current it;
  match kv with
  | Some (k, _) => o ← cmp c k key; if is_eq o then '(it, _) ← it_advance it; Ret it else Ret it
  | None => Ret it
  end.
Definition turn_reverse (fuel : nat) (key : bytes) (it : St * It) : exec (St * It) :=
  it ← it_seek key it;
  v ← it_valid it;
  if (v : bool) then '(it, _) ← it_prev it; Ret it else advance_while fuel it.

(** [fuel] bounds the runs of [advance_while]. *)
Definition update_direction (fuel : nat) (d : Direction) (x : state) : exec state :=
  let (s, m) := x in
  if decide (mi_direction m = d) then Ret x
  else
    kv ← mi_current_kv x;
    match kv, mi_current m with
    | Some (key, _), Some current =>
        '(s, its) ← for_iters
          (λ i it,
            if decide (i = current) then Ret it
            else match d with Forward => turn_forward (mi_cmp m) key it | Reverse => turn_reverse fuel key it end)
          0 (iters m) s;
        Ret (s, mi_set m its (mi_current m) d)
    | _, _ => Ret x
    end.

Definition set_iter (i : nat) (it : It) m : MergingIter It :=
  mi_set m (<[i := it]> (iters m)) (mi_current m) (mi_direction m).

Definition mi_advance (fuel : nat) (x : state) : exec (state * bool) :=
  x ← match mi_current x.2 with
      | Some current =>
          '(s, m) ← update_direction fuel Forward x;
          it ← unwrap (iters m !! current);
          '(it, more) ← it_advance (s, it);
          '(s, it) ← (if (more : bool) then Ret it else it_reset it);
          find_smallest (s, set_iter current it m)
      | None => mi_init x
      end;
  v ← mi_valid x;
  Ret (x, v).

Definition mi_seek (key : bytes) (x : state) : exec state :=
  let (s, m) := x in
  '(s, its) ← for_iters (λ _ it, it_seek key it) 0 (iters m) s;
  find_smallest (s, mi_set m its (mi_current m) (mi_direction m)).

Definition mi_reset (x : state) : exec state :=
  let (s, m) := x in
  '(s, its) ← for_iters (λ _ it, it_reset it) 0 (iters m) s;
  Ret (s, mi_set m its None (mi_direction m)).

Definition mi_prev (fuel : nat) (x : state) : exec (state * bool) :=
  let (s, m) := x in
  match mi_current m with
  | None => Ret (x, false)
  | Some current =>
      it ← unwrap (iters m !! current);
      v ← it_valid (s, it);
      if (v : bool) then
        '(s, m) ← update_direction fuel Reverse x;
        it ← unwrap (iters m !! current);
        '((s, it), _) ← it_prev (s, it);
        x ← find_largest (s, set_iter current it m);
        v ← mi_valid x;
        Ret (x, v)
      else Ret (x, false)
  end.

Definition MergingIter_iterator (fuel : nat) : LdbIterator (St * MergingIter It) := {|
  it_advance := mi_advance fuel;
  it_current := mi_current_kv;
  it_seek := mi_seek;
  it_reset := mi_reset;
  it_valid := mi_valid;
  it_prev := mi_prev fuel;
|}.

End defs.

(** ** Forward iteration merges

    What is left of an iterator over [l] that stands at [p]. *)

Definition rem (l : list entry) (p : pos) : list entry := match p with At i => drop i l | _ => [] end.

Section sorted.
Context {c : Cmp} {OC : OrderedCmp c}.

Lemma sorted_drop i (l : list entry) : StronglySorted (key_lt (c := c)) l → StronglySorted (key_lt (c := c)) (drop i l).
Proof. intros H. rewrite <- (take_drop i l) in H. by apply StronglySorted_app_1_r in H. Qed.

Lemma sorted_rem l p : StronglySorted (key_lt (c := c)) l → StronglySorted (key_lt (c := c)) (rem l p).
Proof. destruct p as [|i|]; [constructor|apply sorted_drop|constructor]. Qed.

(** Seeking keeps the entries that are not below the key. *)
Lemma seek_filter key l :
  StronglySorted (key_lt (c := c)) l → drop (seek_index c key l) l = filter (λ e : entry, ord c e.1 key ≠ Lt) l.
Proof.
  induction l as [|[k v] l IH]; intros Hs; [done|]. apply StronglySorted_inv in Hs as [Hs Hlt]. cbn [seek_index].
  destruct (ord c k key) eqn:Ho; cbn [is_lt drop].
  1,3: rewrite list_filter_all; [done|]; apply Forall_cons; split; [cbn; congruence|];
    eapply Forall_impl; [exact Hlt|]; intros [k' v'] Hk Hlt'; unfold key_lt in Hk; cbn in Hk, Hlt';
    pose proof (ord_trans _ _ _ Hk Hlt'); congruence.
  rewrite filter_cons_False by (cbn; naive_solver). by apply IH.
Qed.

(** The least of the heads of sorted lists is the head of their sorted union. *)
Lemma min_head (Rs : list (list entry)) (R : list entry) ix h t :
  concat Rs ≡ₚ R → StronglySorted (key_lt (c := c)) R → Forall (StronglySorted (key_lt (c := c))) Rs →
  Rs !! ix = Some (h :: t) → (∀ k h' t', Rs !! k = Some (h' :: t') → ord c h'.1 h.1 ≠ Lt) →
  head R = Some h.
Proof.
  intros HP HR HRs Hix Hmin. destruct R as [|e R].
  { symmetry in HP. apply Permutation_nil in HP. exfalso. apply list_elem_of_lookup_2 in Hix.
    assert (h ∈ concat Rs) as Hh by (apply elem_of_concat; exists (h :: t); split; [left|done]). rewrite HP in Hh. set_solver. }
  cbn. f_equal. assert (e ∈ concat Rs) as He by (rewrite HP; left).
  apply elem_of_concat in He as (Rk & HeR & [k Hk]%list_elem_of_lookup). destruct Rk as [|h' t']; [set_solver|].
  assert (h ∈ e :: R) as Hh.
  { rewrite <- HP. apply elem_of_concat. exists (h :: t). split; [left|]. by eapply list_elem_of_lookup_2. }
  apply elem_of_cons in Hh as [->|Hh]; [done|]. exfalso.
  apply StronglySorted_inv in HR as [_ HR]. rewrite Forall_forall in HR. specialize (HR h Hh). unfold key_lt in HR.
  assert (ord c h'.1 e.1 ≠ Gt) as Hle.
  { rewrite Forall_lookup in HRs. specialize (HRs k _ Hk). apply StronglySorted_inv in HRs as [_ HRs].
    apply elem_of_cons in HeR as [->|HeR]; [by rewrite ord_refl|]. rewrite Forall_forall in HRs. specialize (HRs e HeR).
    unfold key_lt in HRs. congruence. }
  apply (Hmin k h' t' Hk). by apply (ord_le_lt _ e.1).
Qed.

End sorted.

Section forward.
Context {c : Cmp} {OC : OrderedCmp c} {St It : Type} {SS : SharedState St} {LI : LdbIterator (St * It)} {SI : SharedIterator c St It}.
Implicit Types (m : MergingIter It) (X : list (list entry * list entry)) (g : ghost) (s : St).

(** A child over the list [x.1] with [x.2] left. *)
Definition child g (it : It) (x : list entry * list entry) : Prop := ∃ p, gview g it x.1 p ∧ rem x.1 p = x.2.

Lemma child_mono g g' it x : grows g g' → child g it x → child g' it x.
Proof. intros Hg (p & V & Hr). exists p. split; [by eapply gview_mono|done]. Qed.

Lemma children_mono g g' its X : grows g g' → Forall2 (child g) its X → Forall2 (child g') its X.
Proof. intros Hg H. eapply Forall2_impl; [exact H|]. intros it x. by apply child_mono. Qed.

Lemma child_current g s it x : shared_ok g s → child g it x → it_current (s, it) = Ret (head x.2).
Proof.
  intros Hs (p & V & <-). rewrite (gcurrent_law _ _ _ _ _ Hs V). f_equal. destruct p as [|i|]; cbn [entry_at rem]; [done| |done].
  rewrite <- (Nat.add_0_r i) at 1. rewrite <- lookup_drop. by destruct (drop i x.1).
Qed.

Lemma child_valid g s it x : shared_ok g s → child g it x → it_valid (s, it) = Ret (bool_decide (x.2 ≠ [])).
Proof.
  intros Hs (p & V & <-). rewrite (gvalid_law _ _ _ _ _ Hs V). f_equal. destruct p as [|i|]; cbn [on_entry rem]; [done| |done].
  symmetry. apply bool_decide_true. pose proof (gview_bound _ _ _ _ V). intros Hn%(f_equal length). rewrite length_drop in Hn. simpl in Hn. lia.
Qed.

Lemma for_iters_ok (t : list entry * list entry → list entry * list entry) f :
  (∀ i g s it x, shared_ok g s → child g it x → ∃ s' it' g', f i (s, it) = Ret (s', it') ∧ shared_ok g' s' ∧ grows g g' ∧ child g' it' (t x)) →
  ∀ its X i g s, shared_ok g s → Forall2 (child g) its X →
  ∃ s' its' g', for_iters f i its s = Ret (s', its') ∧ shared_ok g' s' ∧ grows g g' ∧ Forall2 (child g') its' (t <$> X).
Proof.
  intros Hf its. induction its as [|it its IH]; intros X i g s Hs H; inversion H as [|? x ? xs Hx Hxs]; subst; cbn [for_iters].
  - exists s, [], g. split_and!; [done|done|reflexivity|constructor].
  - destruct (Hf i g s it x Hs Hx) as (s1 & it' & g1 & -> & Hs1 & G1 & Hx'). rewrite bind_Ret.
    destruct (IH xs (S i) g1 s1 Hs1) as (s2 & its' & g2 & -> & Hs2 & G2 & H'); [by eapply children_mono|].
    exists s2, (it' :: its'), g2. split_and!; [done|done|by etransitivity|]. constructor; [by eapply child_mono|done].
Qed.

(** All children reset. *)
Lemma child_reset g s it x : shared_ok g s → child g it x →
  ∃ s' it' g', it_reset (s, it) = Ret (s', it') ∧ shared_ok g' s' ∧ grows g g' ∧ child g' it' (x.1, []).
Proof.
  intros Hs (p & V & _). destruct (greset_law _ _ _ _ _ Hs V) as (s' & it' & g' & -> & Hs' & Hg & V'). exists s', it', g'. split_and!; [done..|]. by exists Start.
Qed.

Lemma child_seek key g s it x : key_ok c key → shared_ok g s → child g it x →
  ∃ s' it' g', it_seek key (s, it) = Ret (s', it') ∧ shared_ok g' s' ∧ grows g g' ∧ child g' it' (x.1, drop (seek_index c key x.1) x.1).
Proof.
  intros Hk Hs (p & V & _). destruct (gseek_law _ _ _ _ _ key Hs V Hk) as (s' & it' & g' & -> & Hs' & Hg & V'). exists s', it', g'. split_and!; [done..|].
  eexists. split; [exact V'|]. cbn [fst snd]. unfold pos_seek, at_or_off. case_decide; [done|]. by rewrite drop_ge by lia.
Qed.

Lemma child_advance g s it l h t : shared_ok g s → child g it (l, h :: t) →
  ∃ x more s' it' g', it_advance (s, it) = Ret (x, more) ∧ (if (more : bool) then Ret x else it_reset x) = Ret (s', it')
    ∧ shared_ok g' s' ∧ grows g g' ∧ child g' it' (l, t).
Proof.
  intros Hs (p & V & Hr). cbn [fst snd] in *. destruct p as [|i|]; try done. cbn [rem] in Hr.
  destruct (gadvance_law _ _ _ _ _ Hs V ltac:(done)) as (s1 & it1 & g1 & -> & Hs1 & G1 & V1). cbn [pos_next] in *.
  assert (drop (S i) l = t) as <-. { rewrite <- Nat.add_1_r, <- drop_drop, Hr. done. }
  destruct (decide (S i < length l)%nat) as [Hlt|Hge].
  - rewrite at_or_off_lt in * by done. exists (s1, it1), true, s1, it1, g1. split_and!; [done..|]. by exists (At (S i)).
  - rewrite at_or_off_ge in * by lia. cbn [on_entry]. destruct (greset_law _ _ _ _ _ Hs1 V1) as (s2 & it2 & g2 & E2 & Hs2 & G2 & V2).
    exists (s1, it1), false, s2, it2, g2. split_and!; [done..|by etransitivity|]. exists Start. split; [done|]. cbn. by rewrite drop_ge by lia.
Qed.

Lemma child_first g s it x : shared_ok g s → child g it x →
  ∃ s' it' g', (it ← it_reset (s, it); '(it, _) ← it_advance it; v ← it_valid it; if (v : bool) then Ret it else it_reset it) = Ret (s', it')
    ∧ shared_ok g' s' ∧ grows g g' ∧ child g' it' (x.1, x.1).
Proof.
  intros Hs (p & V & _). destruct (greset_law _ _ _ _ _ Hs V) as (s1 & it1 & g1 & -> & Hs1 & G1 & V1). rewrite bind_Ret.
  destruct (gadvance_law _ _ _ _ _ Hs1 V1 ltac:(done)) as (s2 & it2 & g2 & -> & Hs2 & G2 & V2). rewrite bind_Ret. cbn [pos_next] in *.
  rewrite (gvalid_law _ _ _ _ _ Hs2 V2), bind_Ret. destruct x as [l r]. cbn [fst] in *. destruct (decide (0 < length l)%nat) as [Hlt|Hge].
  - rewrite at_or_off_lt in * by done. exists s2, it2, g2. split_and!; [done|done|by etransitivity|]. by exists (At 0).
  - rewrite at_or_off_ge in * by lia. cbn [on_entry]. destruct (greset_law _ _ _ _ _ Hs2 V2) as (s3 & it3 & g3 & -> & Hs3 & G3 & V3).
    exists s3, it3, g3. split_and!; [done|done|by do 2 etransitivity|]. exists Start. split; [done|]. by destruct l; [|simpl in Hge; lia].
Qed.

(** ** [find_smallest] *)

Definition keys_ok X : Prop := Forall (λ x, Forall (λ kv : entry, key_ok c kv.1) x.2) X.

(** [next] is not above the first [i] heads. *)
Definition best X (next i : nat) : Prop :=
  ∀ k h t, (k < i)%nat → X.*2 !! k = Some (h :: t) →
    ∃ h0 t0, X.*2 !! next = Some (h0 :: t0) ∧ ord c h.1 h0.1 ≠ Lt.

Lemma find_loop_ok g s m X n : shared_ok g s → ∀ i next,
  Forall2 (child g) (iters m) X → keys_ok X → mi_cmp m = c → best X next i → (next < length X)%nat → (i + n = length X)%nat →
  ∃ r, find_loop Smallest s m n i next = Ret r ∧ best X r (length X) ∧ (r < length X)%nat.
Proof.
  intros Hs. induction n as [|n IH]; intros i next HX Hk Hc Hb Hn Hi; cbn [find_loop].
  { assert (i = length X) as -> by lia. by exists next. }
  destruct (lookup_lt_is_Some_2 X i ltac:(lia)) as [x Hx]. destruct (Forall2_lookup_r _ _ _ _ _ HX Hx) as (it & Hit & Cit).
  rewrite Hit. cbn [unwrap mbind exec_bind]. rewrite (child_current _ _ _ _ Hs Cit), bind_Ret.
  assert (∀ next' , (∀ h t, x.2 = h :: t → ∃ h0 t0, X.*2 !! next' = Some (h0 :: t0) ∧ ord c h.1 h0.1 ≠ Lt) →
    (∀ k h t, (k < i)%nat → X.*2 !! k = Some (h :: t) → ∃ h0 t0, X.*2 !! next' = Some (h0 :: t0) ∧ ord c h.1 h0.1 ≠ Lt) →
    best X next' (S i)) as Hstep.
  { intros next' H1 H2 k h t Hki Hkk. destruct (decide (k = i)) as [->|]; [|by apply (H2 k h t); [lia|]].
    rewrite list_lookup_fmap, Hx in Hkk. simplify_eq/=. by apply (H1 h t). }
  assert (X.*2 !! i = Some x.2) as Hxi by (by rewrite list_lookup_fmap, Hx).
  destruct x as [l [|[k v] t]]; cbn [head snd] in *.
  { rewrite bind_Ret. apply IH; [done..| |done|lia]. apply Hstep; [done|exact Hb]. }
  destruct (lookup_lt_is_Some_2 X next Hn) as [y Hy]. destruct (Forall2_lookup_r _ _ _ _ _ HX Hy) as (itn & Hitn & Citn).
  rewrite Hitn. cbn [unwrap mbind exec_bind]. rewrite (child_current _ _ _ _ Hs Citn), bind_Ret.
  assert (X.*2 !! next = Some y.2) as Hyi by (by rewrite list_lookup_fmap, Hy).
  unfold keys_ok in Hk. rewrite Forall_lookup in Hk. pose proof (Hk _ _ Hx) as Hkx. pose proof (Hk _ _ Hy) as Hky.
  destruct y as [l' [|[k' v'] t']]; cbn [head snd] in *.
  { rewrite bind_Ret. apply IH; [done|by apply Forall_lookup|done| |lia|lia]. apply Hstep.
    - intros h0 t0 [= <- <-]. exists (k, v), t. split; [done|]. by rewrite ord_refl.
    - intros j h0 t0 Hj Hjj. destruct (Hb j h0 t0 Hj Hjj) as (h1 & t1 & E & _). by rewrite Hyi in E. }
  apply Forall_cons in Hkx as [Hkx _]. apply Forall_cons in Hky as [Hky _]. cbn [fst] in *.
  rewrite Hc, cmp_ret, !bind_Ret by done. apply IH; [done|by apply Forall_lookup|done| |by destruct (is_lt _); lia|lia].
  destruct (ord c k k') eqn:Ho; cbn [is_lt]; apply Hstep.
  1,5: intros h0 t0 [= <- <-]; exists (k', v'), t'; split; [done|]; cbn; congruence.
  1,4: exact Hb.
  - intros h0 t0 [= <- <-]. exists (k, v), t. split; [done|]. by rewrite ord_refl.
  - intros j h0 t0 Hj Hjj. destruct (Hb j h0 t0 Hj Hjj) as (h1 & t1 & E & Hle). rewrite Hyi in E. simplify_eq/=.
    exists (k, v), t. split; [done|]. cbn. intros Hlt. apply Hle. by eapply ord_trans.
Qed.

(** The state between two calls: the children with what is left of each. *)
Record merging g m X : Prop := {
  mg_children : Forall2 (child g) (iters m) X;
  mg_forward : mi_direction m = Forward;
  mg_cmp : mi_cmp m = c;
}.

Lemma find_smallest_ok g s m X :
  shared_ok g s → merging g m X → keys_ok X → X ≠ [] →
  ∃ r, find_smallest (s, m) = Ret (s, mi_set m (iters m) (Some r) Forward) ∧ best X r (length X) ∧ (r < length X)%nat.
Proof.
  intros Hs [HX Hd Hc] Hk Hne. unfold find_smallest, mi_find. pose proof (Forall2_length _ _ _ HX) as Hlen.
  destruct (iters m) as [|it its] eqn:Ei; [by destruct X|]. cbn [length] in Hlen.
  destruct (find_loop_ok g s m X (length its) Hs 1 0) as (r & -> & Hr & Hrl).
  - by rewrite Ei.
  - done.
  - done.
  - intros k h t Hk1 Hkk. assert (k = 0%nat) as -> by lia. exists h, t. split; [done|]. by rewrite ord_refl.
  - lia.
  - lia.
  - rewrite bind_Ret, Hd. by exists r.
Qed.

(** ** The contract *)

Record merge_of (Ls : list (list entry)) (M : list entry) : Prop := {
  mo_perm : concat Ls ≡ₚ M;
  mo_each : Forall (StronglySorted (key_lt (c := c))) Ls;
  mo_sorted : StronglySorted (key_lt (c := c)) M;
  mo_keys : Forall (λ kv : entry, key_ok c kv.1) M;
}.

Definition mi_view g m (M : list entry) (p : pos) : Prop :=
  ∃ X, merging g m X ∧ merge_of X.*1 M ∧
    match p with
    | Start => mi_current m = None
    | At n => (n < length M)%nat ∧ concat X.*2 ≡ₚ drop n M
        ∧ ∃ ix h t, mi_current m = Some ix ∧ X.*2 !! ix = Some (h :: t) ∧ M !! n = Some h
    | Off => mi_current m = None ∨ ∃ ix, mi_current m = Some ix ∧ X.*2 !! ix = Some []
    end.

Lemma child_suffix g it x : child g it x → ∃ r, x.1 = r ++ x.2.
Proof.
  intros (p & _ & <-). destruct p as [|i|]; cbn [rem]; [exists x.1; by rewrite app_nil_r| |exists x.1; by rewrite app_nil_r].
  exists (take i x.1). by rewrite take_drop.
Qed.

Lemma merging_rems g m X M : merging g m X → merge_of X.*1 M → keys_ok X ∧ Forall (StronglySorted (key_lt (c := c))) X.*2.
Proof.
  intros [HX _ _] [HP HE _ HK]. split.
  - apply Forall_lookup. intros i x Hx. destruct (Forall2_lookup_r _ _ _ _ _ HX Hx) as (it & _ & (r & Hr)%child_suffix).
    apply Forall_forall. intros e He. rewrite Forall_forall in HK. apply HK. rewrite <- HP. apply elem_of_concat.
    exists x.1. split; [rewrite Hr; set_solver|]. apply list_elem_of_fmap. exists x. split; [done|]. by eapply list_elem_of_lookup_2.
  - apply Forall_lookup. intros i r (x & -> & Hx)%list_lookup_fmap_Some. destruct (Forall2_lookup_r _ _ _ _ _ HX Hx) as (it & _ & (p & _ & <-)).
    apply sorted_rem. rewrite Forall_lookup in HE. apply (HE i). by rewrite list_lookup_fmap, Hx.
Qed.

Lemma mi_valid_at g s m X ix r : shared_ok g s → merging g m X → mi_current m = Some ix → X.*2 !! ix = Some r → mi_valid (s, m) = Ret (bool_decide (r ≠ [])).
Proof.
  intros Hs [HX _ _] Hc (x & -> & Hx)%list_lookup_fmap_Some. unfold mi_valid. rewrite Hc.
  destruct (Forall2_lookup_r _ _ _ _ _ HX Hx) as (it & -> & Cit). cbn [unwrap mbind exec_bind]. by apply (child_valid g).
Qed.
Lemma mi_current_at g s m X ix r : shared_ok g s → merging g m X → mi_current m = Some ix → X.*2 !! ix = Some r → mi_current_kv (s, m) = Ret (head r).
Proof.
  intros Hs [HX _ _] Hc (x & -> & Hx)%list_lookup_fmap_Some. unfold mi_current_kv. rewrite Hc.
  destruct (Forall2_lookup_r _ _ _ _ _ HX Hx) as (it & -> & Cit). cbn [unwrap mbind exec_bind]. by apply (child_current g).
Qed.

Lemma mi_view_valid g s m M p : shared_ok g s → mi_view g m M p → mi_valid (s, m) = Ret (on_entry p).
Proof.
  intros Hs (X & HX & HM & Hp). destruct p as [|n|].
  - unfold mi_valid. by rewrite Hp.
  - destruct Hp as (_ & _ & ix & h & t & Hc & Hix & _). rewrite (mi_valid_at g s m X ix _ Hs HX Hc Hix). by rewrite bool_decide_true.
  - destruct Hp as [Hc|(ix & Hc & Hix)]; [unfold mi_valid; by rewrite Hc|]. by rewrite (mi_valid_at g s m X ix _ Hs HX Hc Hix).
Qed.

(** [find_smallest] ends every move. *)
Lemma settle g s m X M n :
  shared_ok g s → merging g m X → merge_of X.*1 M → concat X.*2 ≡ₚ drop n M → (X = [] → mi_current m = None) →
  ∃ m', find_smallest (s, m) = Ret (s, m') ∧ mi_view g m' M (at_or_off M n).
Proof.
  intros Hsh HX HM HP Hnil. destruct (decide (X = [])) as [->|Hne].
  { destruct HX as [HX Hd Hc]. inversion HX as [Hi|]. unfold find_smallest, mi_find. rewrite <- Hi. exists m. split; [done|].
    destruct HM as [HPM ? ? ?]. cbn in HPM. apply Permutation_nil in HPM as ->. exists []. split_and!; [by split|by split|]. left. by apply Hnil. }
  destruct (merging_rems g m X M HX HM) as [Hk Hs]. destruct (find_smallest_ok g s m X Hsh HX Hk Hne) as (r & -> & Hb & Hr).
  eexists. split; [done|]. exists X. split_and!; [by destruct HX; split|done|].
  destruct (lookup_lt_is_Some_2 X.*2 r) as [R HR]; [by rewrite length_fmap|].
  destruct (decide (n < length M)%nat) as [Hn|Hn].
  - rewrite at_or_off_lt by done. destruct (lookup_lt_is_Some_2 M n Hn) as [e He].
    assert (e ∈ concat X.*2) as (L & HeL & [k Hk']%list_elem_of_lookup)%elem_of_concat.
    { rewrite HP, <- (take_drop_middle M n e He), drop_app_length' by (rewrite length_take; lia). left. }
    destruct L as [|h t]; [set_solver|]. pose proof (lookup_lt_Some _ _ _ Hk') as Hkl. rewrite length_fmap in Hkl.
    destruct (Hb k h t Hkl Hk') as (h0 & t0 & E0 & _). split_and!; [done..|]. exists r, h0, t0. split_and!; [done..|].
    pose proof (min_head (c := c) X.*2 (drop n M) r h0 t0 HP) as Hh.
    rewrite <- (Nat.add_0_r n), <- lookup_drop. specialize (Hh (sorted_drop n M (mo_sorted _ _ HM)) Hs E0).
    destruct (drop n M); [|cbn; apply Hh].
    + cbn in Hh |- *. apply Hh. intros k' h' t' Hkk. pose proof (lookup_lt_Some _ _ _ Hkk) as Hkl'. rewrite length_fmap in Hkl'.
      destruct (Hb k' h' t' Hkl' Hkk) as (h1 & t1 & E1 & Hle). rewrite E0 in E1. by simplify_eq.
    + intros k' h' t' Hkk. pose proof (lookup_lt_Some _ _ _ Hkk) as Hkl'. rewrite length_fmap in Hkl'.
      destruct (Hb k' h' t' Hkl' Hkk) as (h1 & t1 & E1 & Hle). rewrite E0 in E1. by simplify_eq.
  - rewrite at_or_off_ge by lia. right. exists r. split; [done|]. rewrite HR. f_equal. destruct R as [|h t]; [done|].
    rewrite drop_ge in HP by lia. apply Permutation_nil_r in HP. assert (h ∈ concat X.*2) as Hh; [|rewrite HP in Hh; set_solver].
    apply elem_of_concat. exists (h :: t). split; [left|]. by eapply list_elem_of_lookup_2.
Qed.

Lemma seek_merge key Ls M :
  merge_of Ls M → concat ((λ l, drop (seek_index c key l) l) <$> Ls) ≡ₚ drop (seek_index c key M) M.
Proof.
  intros [HP HE HS _]. rewrite (seek_filter key M HS), <- HP. clear HP HS. induction HE as [|l Ls Hl _ IH]; cbn; [done|].
  by rewrite filter_app, IH, (seek_filter key l Hl).
Qed.

Lemma mi_view_nil g m X : merging g m X → X = [] → ∀ M p, mi_view g m M p → mi_current m = None.
Proof.
  intros HX -> M p (Y & HY & _ & Hp). destruct HX as [HX _ _], HY as [HY _ _]. inversion HX as [Hi|]. rewrite <- Hi in HY. inversion HY. subst Y.
  destruct p as [|n|]; [done| |].
  - destruct Hp as (_ & _ & ix & h & t & _ & H' & _). done.
  - destruct Hp as [|(ix & _ & H')]; done.
Qed.

Lemma mi_advance_ok fuel g s m M p : shared_ok g s → mi_view g m M p → p ≠ Off →
  ∃ s' m' g', mi_advance fuel (s, m) = Ret ((s', m'), on_entry (pos_next M p)) ∧ shared_ok g' s' ∧ grows g g' ∧ mi_view g' m' M (pos_next M p).
Proof.
  intros Hs V Hp. assert (∃ s' m' g', match mi_current m with
      | Some current =>
          '(s, m) ← update_direction fuel Forward (s, m);
          it ← unwrap (iters m !! current);
          '(it, more) ← it_advance (s, it);
          '(s, it) ← (if (more : bool) then Ret it else it_reset it);
          find_smallest (s, set_iter current it m)
      | None => mi_init (s, m)
      end = Ret (s', m') ∧ shared_ok g' s' ∧ grows g g' ∧ mi_view g' m' M (pos_next M p)) as (s' & m' & g' & E & Hs' & Hg & V').
  2: { exists s', m', g'. split_and!; [|done..]. unfold mi_advance. cbn [snd]. rewrite E, bind_Ret. by rewrite (mi_view_valid g' s' m' M _ Hs' V'). }
  destruct V as (X & HX & HM & Hv). destruct p as [|n|]; [| |done]; cbn [pos_next].
  - rewrite Hv. unfold mi_init. destruct HX as [HX Hd Hc].
    destruct (for_iters_ok (λ x, (x.1, x.1)) (λ _ it, it ← it_reset it; '(it, _) ← it_advance it; v ← it_valid it;
      if (v : bool) then Ret it else it_reset it)) with (its := iters m) (X := X) (i := 0%nat) (g := g) (s := s) as (s1 & its & g1 & -> & Hs1 & G1 & HX'); [|done..|].
    { intros _ g0 s0 it x Hs0 C. by apply child_first. }
    rewrite bind_Ret. destruct (settle g1 s1 (mi_set m its (mi_current m) (mi_direction m)) ((λ x, (x.1, x.1)) <$> X) M 0) as (m' & E' & V'); [done|by split|..|by intros ->%fmap_nil_inv|].
    + by rewrite <- list_fmap_compose.
    + rewrite <- list_fmap_compose, drop_0. apply HM.
    + by exists s1, m', g1.
  - destruct Hv as (Hn & HP & ix & h & t & Hcur & Hix & He). rewrite Hcur. destruct HX as [HX Hd Hc]. unfold update_direction.
    rewrite decide_True by done. rewrite bind_Ret. apply list_lookup_fmap_Some in Hix as ([l r] & Hr & Hix). cbn in Hr. subst r.
    destruct (Forall2_lookup_r _ _ _ _ _ HX Hix) as (it & -> & Cit). cbn [unwrap]. rewrite bind_Ret.
    destruct (child_advance g s it l h t Hs Cit) as (x & more & s2 & it2 & g2 & -> & E2 & Hs2 & G2 & C2). rewrite bind_Ret, E2, bind_Ret.
    destruct (settle g2 s2 (set_iter ix it2 m) (<[ix := (l, t)]> X) M (S n)) as (m' & E' & V'); [done|split; cbn; [apply Forall2_insert; [by eapply children_mono|done]|done..]|..|by exists s2, m', g2].
    + by rewrite list_fmap_insert, list_insert_id by (by rewrite list_lookup_fmap, Hix).
    + rewrite list_fmap_insert. cbn [snd]. apply (Permutation_cons_inv (a := h)).
      transitivity (concat X.*2).
      * rewrite <- (take_drop_middle X ix _ Hix) at 2. rewrite insert_take_drop by (rewrite length_fmap; by eapply lookup_lt_Some).
        rewrite fmap_app, fmap_cons, !concat_app, fmap_take, fmap_drop. cbn [concat snd]. by rewrite Permutation_middle.
      * rewrite HP. rewrite <- (take_drop_middle M n h He) at 1. rewrite drop_app_length' by (rewrite length_take; lia). done.
    + intros E. apply (f_equal length) in E. rewrite length_insert in E. apply lookup_lt_Some in Hix. simpl in E. lia.
Qed.

Lemma mi_seek_ok key g s m M p : shared_ok g s → mi_view g m M p → key_ok c key →
  ∃ s' m' g', mi_seek key (s, m) = Ret (s', m') ∧ shared_ok g' s' ∧ grows g g' ∧ mi_view g' m' M (pos_seek c key M).
Proof.
  intros Hs V Hk. pose proof V as (X & HX & HM & _). pose proof HX as [HC Hd Hc]. unfold mi_seek.
  destruct (for_iters_ok (λ x, (x.1, drop (seek_index c key x.1) x.1)) (λ _ it, it_seek key it))
    with (its := iters m) (X := X) (i := 0%nat) (g := g) (s := s) as (s1 & its & g1 & -> & Hs1 & G1 & HX'); [|done..|].
  { intros _ g0 s0 it x Hs0 C. by apply child_seek. }
  rewrite bind_Ret. destruct (settle g1 s1 (mi_set m its (mi_current m) (mi_direction m)) ((λ x, (x.1, drop (seek_index c key x.1) x.1)) <$> X) M (seek_index c key M))
    as (m' & E' & V'); [done|by split|..|by exists s1, m', g1].
  - by rewrite <- list_fmap_compose.
  - rewrite <- (seek_merge key X.*1 M HM). by rewrite <- !list_fmap_compose.
  - intros E%fmap_nil_inv. cbn. by eapply (mi_view_nil g).
Qed.

Lemma mi_reset_ok g s m M p : shared_ok g s → mi_view g m M p →
  ∃ s' m' g', mi_reset (s, m) = Ret (s', m') ∧ shared_ok g' s' ∧ grows g g' ∧ mi_view g' m' M Start.
Proof.
  intros Hs (X & [HC Hd Hc] & HM & _). unfold mi_reset.
  destruct (for_iters_ok (λ x, (x.1, [])) (λ _ it, it_reset it))
    with (its := iters m) (X := X) (i := 0%nat) (g := g) (s := s) as (s1 & its & g1 & -> & Hs1 & G1 & HX'); [|done..|].
  { intros _ g0 s0 it x Hs0 C. by apply child_reset. }
  rewrite bind_Ret. eexists s1, _, g1. split_and!; [done..|]. exists ((λ x, (x.1, [])) <$> X). split_and!; [by split| |done].
  by rewrite <- list_fmap_compose.
Qed.

(** A merging iterator is an iterator over the merged list. *)
#[export] Program Instance MergingIter_shared (fuel : nat) : SharedIterator c St (MergingIter It) (LI := MergingIter_iterator fuel) :=
  {| gview := mi_view |}.
Next Obligation.
  intros fuel g g' m M p Hg (X & [HX Hd Hc] & HM & Hp). exists X. split_and!; [|done..]. split; [by eapply children_mono|done..].
Qed.
Next Obligation. by intros fuel g m M n (X & _ & _ & Hn & _). Qed.
Next Obligation. intros fuel g s m M p. apply mi_advance_ok. Qed.
Next Obligation.
  intros fuel g s m M p Hs (X & HX & HM & Hv). change (mi_current_kv (s, m) = Ret (entry_at M p)). destruct p as [|n|].
  - unfold mi_current_kv. by rewrite Hv.
  - destruct Hv as (_ & _ & ix & h & t & Hc & Hix & He). rewrite (mi_current_at g s m X ix _ Hs HX Hc Hix). cbn. by rewrite He.
  - destruct Hv as [Hc|(ix & Hc & Hix)]; [unfold mi_current_kv; by rewrite Hc|]. exact (mi_current_at g s m X ix _ Hs HX Hc Hix).
Qed.
Next Obligation. intros fuel g s m M p. apply mi_view_valid. Qed.
Next Obligation. intros fuel g s m M p. apply mi_reset_ok. Qed.
Next Obligation. intros fuel g s m M p key. apply mi_seek_ok. Qed.

(** The iterator as [MergingIter::new] makes it stands before the merge. *)
Lemma mi_new_view g (its : list It) Ls M :
  Forall2 (λ it l, gview g it l Start) its Ls → merge_of Ls M → mi_view g (MergingIter_new c its) M Start.
Proof.
  intros Hits HM. exists ((λ l, (l, [])) <$> Ls). split_and!; [split; [|done..]| |done].
  - apply Forall2_fmap_r. eapply Forall2_impl; [exact Hits|]. intros it l V. by exists Start.
  - rewrite <- list_fmap_compose. by rewrite (list_fmap_id Ls : (fst ∘ (λ l, (l, []))) <$> Ls = Ls).
Qed.

End forward.

(** ** Boxed iterators *)

Section box.
Context {c : Cmp} {OC : OrderedCmp c} {St : Type} {SS : SharedState St}.

Definition box_view (g : ghost) (b : BoxIter St) (l : list entry) (p : pos) : Prop :=
  ∃ SI : SharedIterator c St (box_type b) (LI := box_impl b), @gview _ _ _ _ _ _ SI g (box_it b) l p.

#[export] Program Instance BoxIter_shared : SharedIterator c St (BoxIter St) := {| gview := box_view |}.
Next Obligation. intros g g' b l p Hg [SI V]. exists SI. by eapply gview_mono. Qed.
Next Obligation. intros g b l i [SI V]. exact (gview_bound _ _ _ _ V). Qed.
Next Obligation.
  intros g s b l p Hs [SI V] Hp. destruct (gadvance_law _ _ _ _ _ Hs V Hp) as (s' & it & g' & E & Hs' & Hg & V'). cbn. rewrite E, bind_Ret.
  eexists s', _, g'. split_and!; [done..|]. by exists SI.
Qed.
Next Obligation. intros g s b l p Hs [SI V]. exact (gcurrent_law _ _ _ _ _ Hs V). Qed.
Next Obligation. intros g s b l p Hs [SI V]. exact (gvalid_law _ _ _ _ _ Hs V). Qed.
Next Obligation.
  intros g s b l p Hs [SI V]. destruct (greset_law _ _ _ _ _ Hs V) as (s' & it & g' & E & Hs' & Hg & V'). cbn. rewrite E, bind_Ret.
  eexists s', _, g'. split_and!; [done..|]. by exists SI.
Qed.
Next Obligation.
  intros g s b l p key Hs [SI V] Hk. destruct (gseek_law _ _ _ _ _ key Hs V Hk) as (s' & it & g' & E & Hs' & Hg & V'). cbn. rewrite E, bind_Ret.
  eexists s', _, g'. split_and!; [done..|]. by exists SI.
Qed.

(** C29: iterating over a merging iterator gives the entries of all its iterators in key
    order, and seeking it finds the first of them that is not below the key; the iterators
    merged can be of any kinds that keep the contract, and they may share a state. *)
Theorem merging_merges fuel g (s : St) (its : list (BoxIter St)) Ls M key : shared_ok g s →
  Forall2 (λ it l, box_view g it l Start) its Ls → merge_of (c := c) Ls M → key_ok c key →
  ∃ x x', @collect _ (MergingIter_iterator fuel) (S (length M)) (s, MergingIter_new c its) = Ret (x, M)
    ∧ mi_seek key x = Ret x' ∧ mi_current_kv x' = Ret (M !! seek_index c key M).
Proof.
  intros Hs Hits HM Hk. set (FI := shared_forward (c := c) (St := St) (It := MergingIter (BoxIter St)) (LI := MergingIter_iterator fuel)).
  assert (view (ForwardIterator := FI) (s, MergingIter_new c its) M Start) as V by (exists g; split; [done|]; by apply (mi_new_view g its Ls M)).
  destruct (collect_all (c := c) (FI := FI) _ _ (S (length M)) V) as (m & E & Vm); [lia|].
  destruct (seek_law (c := c) (ForwardIterator := FI) m M Off key Vm Hk) as (m' & E' & V').
  exists m, m'. split_and!; [done..|]. pose proof (current_law (c := c) (ForwardIterator := FI) _ _ _ V') as Hcur.
  cbn in Hcur. rewrite Hcur. unfold pos_seek, at_or_off. case_decide; [done|]. cbn. by rewrite lookup_ge_None_2 by lia.
Qed.

End box.

(** ** Witnesses *)

Module TestMerging.
Definition A : list entry := [([97], [1]); ([100], [4])].
Definition B : list entry := [([98], [2]); ([99], [3]); ([101], [5])].
Definition M : list entry := [([97], [1]); ([98], [2]); ([99], [3]); ([100], [4]); ([101], [5])].
Definition box (l : list entry) : BoxIter () := {| box_type := TestLdbIter; box_impl := own_iterator; box_it := TestLdbIter_new l |}.

Lemma box_start l : (2 ≤ length l)%nat → StronglySorted (key_lt (c := DefaultCmp)) l → box_view (c := DefaultCmp) (SS := no_state) () (box l) l Start.
Proof. intros Hl Hs. exists (own_shared (SS := no_state) (FI := TestLdbIter_forward)). split_and!; done. Qed.

Lemma merged : merge_of (c := DefaultCmp) [A; B] M.
Proof. split; [by_decide|repeat constructor..]. Qed.
End TestMerging.

Lemma merging_merges_witness :
  ∃ m m', @collect _ (MergingIter_iterator 9) 6 ((), MergingIter_new DefaultCmp [TestMerging.box TestMerging.A; TestMerging.box TestMerging.B]) = Ret (m, TestMerging.M)
    ∧ mi_seek [99; 0] m = Ret m' ∧ mi_current_kv m' = Ret (Some ([100], [4])).
Proof.
  destruct (merging_merges (c := DefaultCmp) (SS := no_state) 9 () () [TestMerging.box TestMerging.A; TestMerging.box TestMerging.B]
              [TestMerging.A; TestMerging.B] TestMerging.M [99; 0]) as (m & m' & E & E' & C).
  - exact I.
  - repeat apply Forall2_cons_2; try apply Forall2_nil_2; apply TestMerging.box_start; by repeat constructor.
  - exact TestMerging.merged.
  - exact I.
  - exists m, m'. split_and!; [exact E|exact E'|exact C].
Defined.

(** Going back does not work when another iterator has run out: it is meant to be moved to its
    last entry, but [while advance() {}] moves it off the end.  Two blocks hold the keys 1, 2
    and 3, 4; the merging iterator stands on 3, and [prev] finds nothing before it. *)
Definition block_iter_of {IE : IntegerEncoding} (l : list entry) : exec BlockIter :=
  b ← build_block (TestOptions.opts 16) l; blk ← Block_new (TestOptions.opts 16) b; block_iter blk.

Theorem merging_prev_loses_entries :
  let IE := Reference.ref_encoding in let LI := own_iterator (St := ()) (It := BlockIter) in
  (a ← block_iter_of [([1], []); ([2], [])];
   b ← block_iter_of [([3], []); ([4], [])];
   m ← mi_seek [3] ((), MergingIter_new DefaultCmp [a; b]);
   kv ← mi_current_kv m; '(m, r) ← mi_prev 9 m; Ret (kv, r)) = Ret (Some ([3], []), false).
Proof. vm_compute. reflexivity. Qed.
