(* ===== verification/DbIter.v ===== *)
(** * DbIter: [src/db_iter.rs]

    The iterator over the user's view of a database: of an iterator over internal keys it
    shows, for every user key, the newest entry that the snapshot sees, unless that one is a
    deletion.  Recording a read sample in the current version is an operation of the
    inner iterator, whose state has the version set ([Iterate] has it for the database); the
    random generator is a parameter. *)

From S2P Require Import Prelude Encoding Types Cmp KeyTypes Options BlockBuilder Block Iterator MergingIter.

Definition READ_BYTES_PERIOD : Z := 1048576.

(** [rand::random::<isize>()] *)
Class RandomIsize (G : Type) := random_isize : G → Z * G.
(** [v.borrow_mut().record_read_sample(key)] of the current version of the shared version set *)
Class ReadSampled (It : Type) := sample_read : bytes → It → exec It.

Record DBIterator (It G : Type) := mkDBIterator {
  dbi_cmp : Cmp;
  dbi_rng : G;
  dbi_iter : It;
  dbi_ss : Z;
  dbi_dir : Direction;
  byte_count : Z;
  dbi_valid : bool;
  savedkey : bytes;
  keybuf : bytes;
  savedval : bytes;
  valbuf : bytes;
}.
Arguments mkDBIterator {It G}.
Arguments dbi_cmp {It G}.
Arguments dbi_rng {It G}.
Arguments dbi_iter {It G}.
Arguments dbi_ss {It G}.
Arguments dbi_dir {It G}.
Arguments byte_count {It G}.
Arguments dbi_valid {It G}.
Arguments savedkey {It G}.
Arguments keybuf {It G}.
Arguments savedval {It G}.
Arguments valbuf {It G}.

Section defs.
Context {IE : IntegerEncoding} `{LI : LdbIterator It} {RS : ReadSampled It} `{RI : RandomIsize G}.
Implicit Types (d : DBIterator It G).

(** Field updates: the sampling state, the iterator, the buffers, direction and validity. *)
Definition set_sampling d (it : It) (g : G) (n : Z) : DBIterator It G :=
  {| dbi_cmp := dbi_cmp d; dbi_rng := g; dbi_iter := it; dbi_ss := dbi_ss d; dbi_dir := dbi_dir d;
     byte_count := n; dbi_valid := dbi_valid d; savedkey := savedkey d; keybuf := keybuf d; savedval := savedval d; valbuf := valbuf d |}.
Definition dbi_set_iter d (it : It) : DBIterator It G :=
  {| dbi_cmp := dbi_cmp d; dbi_rng := dbi_rng d; dbi_iter := it; dbi_ss := dbi_ss d; dbi_dir := dbi_dir d;
     byte_count := byte_count d; dbi_valid := dbi_valid d; savedkey := savedkey d; keybuf := keybuf d; savedval := savedval d; valbuf := valbuf d |}.
Definition set_bufs d (sk kb sv vb : bytes) : DBIterator It G :=
  {| dbi_cmp := dbi_cmp d; dbi_rng := dbi_rng d; dbi_iter := dbi_iter d; dbi_ss := dbi_ss d; dbi_dir := dbi_dir d;
     byte_count := byte_count d; dbi_valid := dbi_valid d; savedkey := sk; keybuf := kb; savedval := sv; valbuf := vb |}.
Definition set_status d (dir : Direction) (b : bool) : DBIterator It G :=
  {| dbi_cmp := dbi_cmp d; dbi_rng := dbi_rng d; dbi_iter := dbi_iter d; dbi_ss := dbi_ss d; dbi_dir := dir;
     byte_count := byte_count d; dbi_valid := b; savedkey := savedkey d; keybuf := keybuf d; savedval := savedval d; valbuf := valbuf d |}.

(** [%] on [isize] truncates. *)
Definition random_period (g : G) : Z * G := let '(r, g) := random_isize g in (Z.rem r (2 * READ_BYTES_PERIOD), g).

Definition DBIterator_new (c : Cmp) (g : G) (it : It) (ss : Z) : DBIterator It G :=
  let '(p, g) := random_period g in
  {| dbi_cmp := c; dbi_rng := g; dbi_iter := it; dbi_ss := ss; dbi_dir := Forward; byte_count := p;
     dbi_valid := false; savedkey := []; keybuf := []; savedval := []; valbuf := [] |}.

(** [fuel] bounds the number of draws and of entries passed over. *)
Context (fuel : nat).

(** [while self.byte_count < 0 { self.byte_count += random_period() }] *)
Fixpoint refill (n : nat) (count : Z) (g : G) : exec (Z * G) :=
  match n with
  | O => NoFuel
  | S n => if count <? 0 then let '(p, g) := random_period g in refill n (count + p) g else Ret (count, g)
  end.

Definition record_read_sample (len : Z) d : exec (DBIterator It G) :=
  let count := byte_count d - len in
  if count <? 0 then
    it ← sample_read (keybuf d) (dbi_iter d);
    '(count, g) ← refill fuel count (dbi_rng d);
    Ret (set_sampling d it g count)
  else Ret (set_sampling d (dbi_iter d) (dbi_rng d) count).

(** [self.iter.current(&mut k, &mut v)] leaves the buffers alone when there is no entry. *)
Definition iter_current (k v : bytes) d : exec (bytes * bytes) :=
  kv ← it_current (dbi_iter d); Ret (match kv with Some e => e | None => (k, v) end).

Fixpoint next_user_loop (n : nat) (skipping : bool) d : exec (DBIterator It G * bool) :=
  match n with
  | O => NoFuel
  | S n =>
      v ← it_valid (dbi_iter d);
      if (v : bool) then
        '(kb, sv) ← iter_current (keybuf d) (savedval d) d;
        let d := set_bufs d (savedkey d) kb sv (valbuf d) in
        d ← record_read_sample (zlen kb + zlen sv) d;
        '(typ, seq, ukey) ← parse_internal_key (keybuf d);
        let next d skipping := '(it, _) ← it_advance (dbi_iter d); next_user_loop n skipping (dbi_set_iter d it) in
        if seq <=? dbi_ss d then
          match typ with
          | TypeDeletion => next (set_bufs d ukey (keybuf d) (savedval d) (valbuf d)) true
          | TypeValue =>
              hidden ← (if (skipping : bool) then o ← cmp (dbi_cmp d) ukey (savedkey d); Ret (is_le o) else Ret false);
              if (hidden : bool) then next d skipping
              else Ret (set_status (set_bufs d [] (keybuf d) (savedval d) (valbuf d)) (dbi_dir d) true, true)
          end
        else next d skipping
      else Ret (set_status (set_bufs d [] (keybuf d) (savedval d) (valbuf d)) (dbi_dir d) false, false)
  end.
Definition find_next_user_entry (skipping : bool) d : exec (DBIterator It G * bool) :=
  v ← it_valid (dbi_iter d);
  _ ← massert v;
  _ ← massert (bool_decide (dbi_dir d = Forward));
  next_user_loop fuel skipping d.

Fixpoint prev_user_loop (n : nat) (value_type : ValueType) d : exec (DBIterator It G * ValueType) :=
  match n with
  | O => NoFuel
  | S n =>
      v ← it_valid (dbi_iter d);
      if (v : bool) then
        '(kb, vb) ← iter_current (keybuf d) (valbuf d) d;
        let d := set_bufs d (savedkey d) kb (savedval d) vb in
        d ← record_read_sample (zlen kb + zlen vb) d;
        '(typ, seq, ukey) ← parse_internal_key (keybuf d);
        let next d vt := '(it, _) ← it_prev (dbi_iter d); prev_user_loop n vt (dbi_set_iter d it) in
        if (0 <? seq) && (seq <=? dbi_ss d) then
          stop ← match value_type with
                 | TypeDeletion => Ret false
                 | TypeValue => o ← cmp (dbi_cmp d) ukey (savedkey d); Ret (is_lt o)
                 end;
          if (stop : bool) then Ret (d, value_type)
          else
            match typ with
            | TypeDeletion => next (set_bufs d [] (keybuf d) [] (valbuf d)) typ
            | TypeValue => next (set_bufs d ukey (keybuf d) (valbuf d) (savedval d)) typ
            end
        else next d value_type
      else Ret (d, value_type)
  end.
Definition find_prev_user_entry d : exec (DBIterator It G * bool) :=
  _ ← massert (bool_decide (dbi_dir d = Reverse));
  '(d, value_type) ← prev_user_loop fuel TypeDeletion d;
  match value_type with
  | TypeDeletion => Ret (set_status (set_bufs d [] (keybuf d) [] (valbuf d)) Forward false, true)
  | TypeValue => Ret (set_status d (dbi_dir d) true, true)
  end.

Definition dbi_seek_to_first d : exec (DBIterator It G) :=
  let d := set_status (set_bufs d (savedkey d) (keybuf d) [] (valbuf d)) Forward (dbi_valid d) in
  it ← it_seek_to_first (dbi_iter d);
  let d := dbi_set_iter d it in
  v ← it_valid (dbi_iter d);
  if (v : bool) then '(d, _) ← find_next_user_entry false d; Ret d
  else Ret (set_status d (dbi_dir d) false).

Definition dbi_advance d : exec (DBIterator It G * bool) :=
  if negb (dbi_valid d) then d ← dbi_seek_to_first d; Ret (d, dbi_valid d)
  else
    match dbi_dir d with
    | Reverse =>
        let d := set_status d Forward (dbi_valid d) in
        v ← it_valid (dbi_iter d);
        it ← (if (v : bool) then '(it, _) ← it_advance (dbi_iter d); Ret it else it_seek_to_first (dbi_iter d));
        let d := dbi_set_iter d it in
        v ← it_valid (dbi_iter d);
        if (v : bool) then find_next_user_entry true d
        else Ret (set_status (set_bufs d [] (keybuf d) (savedval d) (valbuf d)) (dbi_dir d) false, false)
    | Forward =>
        kv ← it_current (dbi_iter d);
        '(k, v) ← unwrap kv;
        k ← truncate_to_userkey k;
        find_next_user_entry true (set_bufs d k (keybuf d) v (valbuf d))
    end.

Definition dbi_current d : exec (option (bytes * bytes)) :=
  if negb (dbi_valid d) then Ret None
  else
    match dbi_dir d with
    | Forward => '(k, v) ← iter_current [] [] d; k ← truncate_to_userkey k; Ret (Some (k, v))
    | Reverse => Ret (Some (savedkey d, savedval d))
    end.

(** The loop of [prev] that looks for a smaller user key; [None] when there is none. *)
Fixpoint prev_key_loop (n : nat) d : exec (DBIterator It G * bool) :=
  match n with
  | O => NoFuel
  | S n =>
      '(it, _) ← it_prev (dbi_iter d);
      let d := dbi_set_iter d it in
      v ← it_valid (dbi_iter d);
      if (v : bool) then
        '(kb, sv) ← iter_current (keybuf d) (savedval d) d;
        kb ← truncate_to_userkey kb;
        let d := set_bufs d (savedkey d) kb sv (valbuf d) in
        o ← cmp (dbi_cmp d) (keybuf d) (savedkey d);
        if is_lt o then Ret (d, true) else prev_key_loop n d
      else Ret (set_status (set_bufs d [] (keybuf d) [] (valbuf d)) (dbi_dir d) false, false)
  end.

Definition dbi_prev d : exec (DBIterator It G * bool) :=
  if negb (dbi_valid d) then Ret (d, false)
  else
    match dbi_dir d with
    | Forward =>
        '(k, v) ← iter_current (savedkey d) (savedval d) d;
        k ← truncate_to_userkey k;
        '(d, found) ← prev_key_loop fuel (set_bufs d k (keybuf d) v (valbuf d));
        if (found : bool) then find_prev_user_entry (set_status d Reverse (dbi_valid d)) else Ret (d, false)
    | Reverse => find_prev_user_entry d
    end.

Definition dbi_seek (to : bytes) d : exec (DBIterator It G) :=
  lk ← LookupKey_new to (dbi_ss d);
  k ← internal_key lk;
  let d := set_status (set_bufs d k (keybuf d) [] (valbuf d)) Forward (dbi_valid d) in
  it ← it_seek (savedkey d) (dbi_iter d);
  let d := dbi_set_iter d it in
  v ← it_valid (dbi_iter d);
  if (v : bool) then '(d, _) ← find_next_user_entry false d; Ret d
  else Ret (set_status d (dbi_dir d) false).

Definition dbi_reset d : exec (DBIterator It G) :=
  it ← it_reset (dbi_iter d);
  Ret (set_status (set_bufs (dbi_set_iter d it) [] [] [] (valbuf d)) (dbi_dir d) false).

Definition DBIterator_iterator : LdbIterator (DBIterator It G) := {|
  it_advance := dbi_advance;
  it_current := dbi_current;
  it_seek := dbi_seek;
  it_reset := dbi_reset;
  it_valid d := Ret (dbi_valid d);
  it_prev := dbi_prev;
|}.

End defs.

(** ** What a snapshot shows *)

Section visible.
Context {IE : IntegerEncoding} {u : Cmp} {UO : OrderedCmp u} (s : Z).

(** An entry is shadowed by a newer entry of the same user key that the snapshot sees. *)
Definition shadows (e e' : entry) : Prop :=
  ord u (ukey_of e'.1) (ukey_of e.1) = Eq ∧ seq_of e'.1 < seq_of e.1 ≤ s.
Definition shown_in (L : list entry) (e : entry) : Prop :=
  typ_of e.1 = TypeValue ∧ seq_of e.1 ≤ s ∧ Forall (λ e', ¬ shadows e' e) L.
#[export] Instance shadows_dec e e' : Decision (shadows e e').
Proof. unfold shadows. apply _. Defined.
#[export] Instance shown_in_dec L e : Decision (shown_in L e).
Proof. unfold shown_in. apply _. Defined.

Definition user_entry (e : entry) : entry := (ukey_of e.1, e.2).
Definition visible (L : list entry) : list entry := user_entry <$> filter (shown_in L) L.

(** The scan of [find_next_user_entry]: the entries shown, given the user key to be skipped. *)
Definition hides (skip : option bytes) (k : bytes) : bool :=
  match skip with Some k' => is_le (ord u k k') | None => false end.
Fixpoint scan (skip : option bytes) (L : list entry) : list entry :=
  match L with
  | [] => []
  | e :: L =>
      if decide (seq_of e.1 ≤ s) then
        match typ_of e.1 with
        | TypeDeletion => scan (Some (ukey_of e.1)) L
        | TypeValue => if hides skip (ukey_of e.1) then scan skip L else user_entry e :: scan (Some (ukey_of e.1)) L
        end
      else scan skip L
  end.

(** [skip] is the greatest user key passed whose entry the snapshot sees. *)
Definition skip_of (P : list entry) (skip : option bytes) : Prop :=
  match skip with
  | None => Forall (λ e, ¬ seq_of e.1 ≤ s) P
  | Some k => ∃ e, e ∈ P ∧ ukey_of e.1 = k ∧ seq_of e.1 ≤ s ∧ Forall (λ e', seq_of e'.1 ≤ s → ord u (ukey_of e'.1) k ≠ Gt) P
  end.

Abbreviation ikey_lt := (key_lt (c := InternalKeyCmp u)) (only parsing).
Context {IEL : IntegerEncodingLaws IE}.

Lemma ikey_lt_split (a b : entry) :
  key_lt (c := InternalKeyCmp u) a b ↔
  ord u (ukey_of a.1) (ukey_of b.1) = Lt ∨ (ord u (ukey_of a.1) (ukey_of b.1) = Eq ∧ seq_of b.1 < seq_of a.1).
Proof.
  unfold key_lt. cbn [ord InternalKeyCmp_ordered]. unfold ord_internal. destruct (ord u _ _) eqn:E.
  - rewrite Z.compare_lt_iff. naive_solver.
  - naive_solver.
  - naive_solver.
Qed.

(** An entry of the rest of the list is hidden exactly when it is shadowed. *)
Lemma hides_shadowed P e R skip :
  StronglySorted (key_lt (c := InternalKeyCmp u)) (P ++ e :: R) → skip_of P skip → seq_of e.1 ≤ s →
  hides skip (ukey_of e.1) = false ↔ Forall (λ e', ¬ shadows e' e) (P ++ e :: R).
Proof.
  intros (Hs1 & _ & Hs2)%StronglySorted_app Hsk He.
  assert (∀ e', e' ∈ P → key_lt (c := InternalKeyCmp u) e' e) as HP by (intros; apply Hs1; [done|left]).
  apply StronglySorted_inv in Hs2 as [_ Hs2]. rewrite Forall_forall in Hs2.
  assert (Forall (λ e', ¬ shadows e' e) (P ++ e :: R) ↔ ∀ e', e' ∈ P → seq_of e'.1 ≤ s → ord u (ukey_of e.1) (ukey_of e'.1) ≠ Eq) as ->.
  { rewrite Forall_forall. split.
    - intros H e' He' Hse' Heq. apply (H e'); [set_solver|]. split; [done|]. split; [|done].
      specialize (HP e' He'). apply ikey_lt_split in HP as [HP|[_ HP]]; [|done]. apply ord_eq_sym in Heq. congruence.
    - intros H e' [He'|[->|He']%elem_of_cons]%elem_of_app [Heq Hseq]; [by apply (H e'); [|lia|]|lia|].
      specialize (Hs2 e' He'). apply ikey_lt_split in Hs2 as [Hlt|[_ Hlt]]; [congruence|lia]. }
  destruct skip as [k|]; cbn [hides skip_of] in *.
  - destruct Hsk as (x & Hx & <- & Hsx & Hmax). rewrite Forall_forall in Hmax.
    assert (ord u (ukey_of e.1) (ukey_of x.1) ≠ Lt) as Hnlt.
    { specialize (HP x Hx). apply ikey_lt_split in HP. intros Hlt. pose proof (ord_antisym (ukey_of x.1) (ukey_of e.1)) as Ha.
      rewrite Hlt in Ha. by destruct (ord u (ukey_of x.1) (ukey_of e.1)), HP as [|[]]. }
    destruct (ord u (ukey_of e.1) (ukey_of x.1)) eqn:Ex; cbn; [|done|].
    + split; [done|]. intros H. by destruct (H x Hx Hsx).
    + split; [|done]. intros _ e' He' Hse' Heq. specialize (Hmax e' He' Hse').
      apply Hmax. by rewrite <- (ord_eq_l _ _ _ Heq).
  - rewrite Forall_forall in Hsk. split; [|done]. intros _ e' He' Hse'. by destruct (Hsk e' He').
Qed.

Lemma skip_of_seen P e R :
  StronglySorted (key_lt (c := InternalKeyCmp u)) (P ++ e :: R) → seq_of e.1 ≤ s → skip_of (P ++ [e]) (Some (ukey_of e.1)).
Proof.
  intros (Hs & _ & _)%StronglySorted_app He. exists e. split_and!; [set_solver|done|done|].
  apply Forall_forall. intros e' [He'| ->%list_elem_of_singleton]%elem_of_app _; [|by rewrite ord_refl].
  specialize (Hs e' e He' ltac:(left)). apply ikey_lt_split in Hs as [Hs|[Hs _]]; by rewrite Hs.
Qed.

Lemma skip_of_passed P e skip :
  skip_of P skip → (seq_of e.1 ≤ s → hides skip (ukey_of e.1) = true) → skip_of (P ++ [e]) skip.
Proof.
  intros Hsk He. destruct skip as [k|]; cbn [skip_of hides] in *.
  - destruct Hsk as (x & Hx & Hk & Hsx & Hmax). exists x. split_and!; [set_solver|done..|]. apply Forall_app. split; [done|].
    apply Forall_singleton. intros Hse. specialize (He Hse). by apply is_le_true.
  - apply Forall_app. split; [done|]. apply Forall_singleton. intros Hse. by specialize (He Hse).
Qed.

Lemma scan_shown R : ∀ P skip,
  StronglySorted (key_lt (c := InternalKeyCmp u)) (P ++ R) → skip_of P skip →
  scan skip R = user_entry <$> filter (shown_in (P ++ R)) R.
Proof.
  induction R as [|e R IH]; intros P skip Hs Hsk; [done|]. cbn [scan].
  assert (∀ skip', skip_of (P ++ [e]) skip' → scan skip' R = user_entry <$> filter (shown_in (P ++ e :: R)) R) as IH'.
  { intros skip' Hsk'. rewrite (IH (P ++ [e]) skip'); rewrite <- ?app_assoc; done. }
  destruct (decide (seq_of e.1 ≤ s)) as [He|He]; cycle 1.
  { rewrite filter_cons_False by (by intros (_ & ? & _)). apply IH'. apply skip_of_passed; [done|tauto]. }
  pose proof (hides_shadowed P e R skip Hs Hsk He) as Hh. pose proof (skip_of_seen P e R Hs He) as Hseen.
  destruct (typ_of e.1) eqn:Et.
  { rewrite filter_cons_False by (intros (? & _); congruence). by apply IH'. }
  destruct (hides skip (ukey_of e.1)) eqn:Eh.
  - rewrite filter_cons_False by (intros (_ & _ & H); apply Hh in H; congruence). apply IH'. by apply skip_of_passed.
  - rewrite filter_cons_True, fmap_cons; [by rewrite (IH' _ Hseen)|]. split_and!; [done..|by apply Hh].
Qed.

Lemma scan_visible L : StronglySorted (key_lt (c := InternalKeyCmp u)) L → scan None L = visible L.
Proof. intros Hs. apply (scan_shown L []); [done|]. by apply Forall_nil. Qed.

End visible.

(** ** The generator *)

Section draws.
Context `{RI : RandomIsize G}.

(** The generator after [j] draws, and what [k] draws add up to. *)
Fixpoint after (j : nat) (g : G) : G := match j with O => g | S j => after j (random_period g).2 end.
Fixpoint drawn (k : nat) (g : G) : Z := match k with O => 0 | S k => (random_period g).1 + drawn k (random_period g).2 end.

(** The draws add up to any amount, from any point on: the condition under which
    [while self.byte_count < 0 { self.byte_count += random_period() }] ends, whatever was drawn
    before and however much was read. *)
Definition makes_up (g : G) : Prop := ∀ j n, ∃ k, n ≤ drawn k (after j g).

(** The next [T] times, [fuel] draws are enough to make up for [need]. *)
Fixpoint lively (fuel : nat) (need : Z) (T : nat) (g : G) : Prop :=
  match T with
  | O => True
  | S T => ∀ n, - need ≤ n → ∃ n' g', refill fuel n g = Ret (n', g') ∧ 0 ≤ n' ∧ lively fuel need T g'
  end.

Lemma after_add i j g : after j (after i g) = after (i + j) g.
Proof. revert g. induction i as [|i IH]; intros g; [done|]. apply IH. Qed.

Lemma lively_S fuel need T g : lively fuel need (S T) g → lively fuel need T g.
Proof.
  revert g. induction T as [|T IH]; intros g H; [done|]. intros n Hn. destruct (H n Hn) as (n' & g' & E & Hn' & H'). exists n', g'. split_and!; [done..|]. by apply IH.
Qed.

Lemma lively_le fuel need T T' g : (T' ≤ T)%nat → lively fuel need T g → lively fuel need T' g.
Proof. induction 1; [done|]. intros H'%lively_S. auto. Qed.

Lemma refill_drawn k : ∀ fuel n g, (k < fuel)%nat → - n ≤ drawn k g → ∃ n' m, refill fuel n g = Ret (n', after m g) ∧ 0 ≤ n' ∧ (m ≤ k)%nat.
Proof.
  induction k as [|k IH]; intros fuel n g Hf Hn; (destruct fuel as [|fuel]; [lia|]); cbn [refill drawn] in *.
  { rewrite (proj2 (Z.ltb_ge n 0)) by lia. exists n, 0%nat. split_and!; [done|lia|lia]. }
  destruct (Z.ltb_spec n 0); [|exists n, 0%nat; split_and!; [done|lia|lia]].
  destruct (random_period g) as [p g'] eqn:E. cbn [fst snd] in Hn. destruct (IH fuel (n + p) g') as (n' & m & -> & ? & ?); [lia..|]. exists n', (S m). cbn [after]. rewrite E. split_and!; [done|done|lia].
Qed.

(** One bound for finitely many. *)
Lemma common_bound (P : nat → nat → Prop) K : (∀ m, (m ≤ K)%nat → ∃ N, ∀ n, (N ≤ n)%nat → P m n) → ∃ N, ∀ m n, (m ≤ K)%nat → (N ≤ n)%nat → P m n.
Proof.
  induction K as [|K IH]; intros H.
  - destruct (H 0%nat) as [N HN]; [lia|]. exists N. intros m n Hm Hn. assert (m = 0%nat) as -> by lia. by apply HN.
  - destruct IH as [N HN]; [intros m Hm; apply H; lia|]. destruct (H (S K)) as [N' HN']; [lia|]. exists (N + N')%nat. intros m n Hm Hn.
    destruct (decide (m = S K)) as [->|]; [apply HN'; lia|apply HN; lia].
Qed.

(** For any number of times some amount of fuel is enough. *)
Lemma makes_up_lively need T g : makes_up g → ∃ N, ∀ fuel, (N ≤ fuel)%nat → lively fuel need T g.
Proof.
  intros Hg. assert (∀ j, ∃ N, ∀ fuel, (N ≤ fuel)%nat → lively fuel need T (after j g)) as H; [|exact (H 0%nat)].
  induction T as [|T IH]; intros j; [by exists 0%nat|]. destruct (Hg j need) as [K HK].
  destruct (common_bound (λ m fuel, lively fuel need T (after m (after j g))) K) as [N HN].
  { intros m _. destruct (IH (j + m)%nat) as [N HN]. exists N. intros n Hn. rewrite after_add. by apply HN. }
  exists (N + S K)%nat. intros fuel Hf n Hn. destruct (refill_drawn K fuel n (after j g)) as (n' & m & E & Hn' & Hm); [lia..|].
  exists n', (after m (after j g)). split_and!; [done..|]. apply HN; lia.
Qed.

End draws.

(** ** Forward iteration *)

Section forward.
Context `{IEL : IntegerEncodingLaws} {u : Cmp} {UO : OrderedCmp u}.
Context `{LI : LdbIterator It} {FI : ForwardIterator (InternalKeyCmp u) It} {RS : ReadSampled It} `{RI : RandomIsize G}.
Context (fuel : nat) (maxlen : Z) (size : nat).
Implicit Types (d : DBIterator It G) (L : list entry) (T : nat).

(** What is said about read samples: recording one succeeds and leaves the entries alone. *)
Class Sampled : Prop :=
  sample_law k it l p : key_ok (InternalKeyCmp u) k → view it l p → ∃ it', sample_read k it = Ret it' ∧ view it' l p.
Context {SA : Sampled}.

Abbreviation lively := (lively fuel (2 * READ_BYTES_PERIOD + maxlen)) (only parsing).

Record entries_ok L : Prop := {
  eo_sorted : StronglySorted (key_lt (c := InternalKeyCmp u)) L;
  eo_keys : Forall (λ e : entry, key_ok (InternalKeyCmp u) e.1) L;
  eo_len : Forall (λ e : entry, zlen e.1 + zlen e.2 ≤ maxlen) L;
  eo_size : (length L ≤ size)%nat;
  eo_fuel : (size < fuel)%nat;
}.

(** What the moves keep; [T] is how often the byte count can still be made up. *)
Definition same T d d' : Prop :=
  dbi_cmp d' = dbi_cmp d ∧ dbi_ss d' = dbi_ss d ∧ dbi_dir d' = dbi_dir d ∧ - (2 * READ_BYTES_PERIOD) ≤ byte_count d' ∧ lively T (dbi_rng d').

Lemma record_ok T len d l p : view (dbi_iter d) l p → key_ok (InternalKeyCmp u) (keybuf d) → lively (S T) (dbi_rng d) →
  0 ≤ len ≤ maxlen → - (2 * READ_BYTES_PERIOD) ≤ byte_count d →
  ∃ it g n, record_read_sample fuel len d = Ret (set_sampling d it g n) ∧ view it l p ∧ 0 ≤ n ∧ lively T g.
Proof.
  intros V Hk Hg Hl Hb. unfold record_read_sample. destruct (Z.ltb_spec (byte_count d - len) 0); [|eexists _, _, _; split_and!; [done..|by apply lively_S]].
  destruct (sample_law (keybuf d) _ _ _ Hk V) as (it & -> & V'). rewrite bind_Ret.
  destruct (Hg (byte_count d - len)) as (n & g & -> & Hn & Hg'); [lia|]. rewrite bind_Ret. by eexists _, _, _.
Qed.

Definition found L skip i d' (b : bool) : Prop :=
  if b then
    ∃ j e, view (c := InternalKeyCmp u) (dbi_iter d') L (At j) ∧ L !! j = Some e ∧ dbi_valid d' = true
      ∧ scan (u := u) (dbi_ss d') skip (drop i L) = user_entry e :: scan (u := u) (dbi_ss d') (Some (ukey_of e.1)) (drop (S j) L)
  else
    view (c := InternalKeyCmp u) (dbi_iter d') L Off ∧ dbi_valid d' = false ∧ scan (u := u) (dbi_ss d') skip (drop i L) = [].

Lemma next_user_loop_ok T L n : ∀ i skipping d,
  entries_ok L → view (c := InternalKeyCmp u) (dbi_iter d) L (at_or_off L i) → dbi_cmp d = u →
  - (2 * READ_BYTES_PERIOD) ≤ byte_count d → lively (length L - i + T) (dbi_rng d) → (skipping = true → key_ok u (savedkey d)) → (length L - i < n)%nat →
  ∃ d' b, next_user_loop fuel n skipping d = Ret (d', b) ∧ same T d d'
    ∧ found L (if skipping then Some (savedkey d) else None) i d' b.
Proof.
  induction n as [|n IH]; intros i skipping d HL V Hc Hb Hg Hsk Hf; [lia|]. cbn [next_user_loop].
  rewrite (valid_law _ _ _ V), bind_Ret. destruct (decide (i < length L)%nat) as [Hi|Hi]; cycle 1.
  { rewrite at_or_off_ge in * by lia. cbn [on_entry]. eexists _, _. split; [done|]. split; [split_and!; [done..|by apply (lively_le _ _ (length L - i + T)); [lia|]]|]. cbn.
    rewrite drop_ge by lia. done. }
  rewrite at_or_off_lt in * by done. cbn [on_entry]. destruct (lookup_lt_is_Some_2 L i Hi) as [e He].
  unfold iter_current. rewrite (current_law _ _ _ V), !bind_Ret. cbn [entry_at]. rewrite He. destruct e as [ik v].
  pose proof (eo_keys L HL) as HK. rewrite Forall_lookup in HK. destruct (HK _ _ He) as (Hk8 & Hk56 & Hku). cbn [fst] in *.
  pose proof (eo_len L HL) as HE. rewrite Forall_lookup in HE. specialize (HE _ _ He). cbn [fst snd] in HE.
  set (d1 := set_bufs d (savedkey d) ik v (valbuf d)).
  replace (length L - i + T)%nat with (S (length L - S i + T)) in Hg by lia.
  destruct (record_ok (length L - S i + T) (zlen ik + zlen v) d1 L (At i)) as (its & g & cnt & -> & V2 & Hcnt & Hg'); [done|exact (conj Hk8 (conj Hk56 Hku))|done|lia|done|]. rewrite bind_Ret. clear V. rename V2 into V.
  set (d2 := set_sampling d1 its g cnt). change (keybuf d2) with ik. rewrite parse_internal_key_views, bind_Ret by lia.
  destruct (advance_law _ _ _ V ltac:(done)) as (it' & Hadv & V'). cbn [pos_next] in V'.
  change (dbi_iter d2) with its.
  assert (∀ sk' d3, dbi_iter d3 = its → dbi_cmp d3 = u → dbi_ss d3 = dbi_ss d → dbi_dir d3 = dbi_dir d → 0 ≤ byte_count d3 → lively (length L - S i + T) (dbi_rng d3) →
    (sk' = true → key_ok u (savedkey d3)) →
    scan (u := u) (dbi_ss d) (if skipping then Some (savedkey d) else None) (drop i L)
      = scan (u := u) (dbi_ss d) (if sk' then Some (savedkey d3) else None) (drop (S i) L) →
    ∃ d' b, ('(it, _) ← it_advance (dbi_iter d3); next_user_loop fuel n sk' (dbi_set_iter d3 it)) = Ret (d', b) ∧ same T d d'
      ∧ found L (if skipping then Some (savedkey d) else None) i d' b) as Hnext.
  { intros sk' d3 Hi3 Hc3 Hs3 Hd3 Hb3 Hg3 Hk3 Hscan. rewrite Hi3, Hadv, bind_Ret.
    destruct (IH (S i) sk' (dbi_set_iter d3 it')) as (d' & b & -> & (S1 & S2 & S3 & S4 & S5) & F); [done..|cbn; unfold READ_BYTES_PERIOD; lia|done|done|lia|].
    exists d', b. cbn in S1, S2, S3, F. split; [done|]. split; [split_and!; [congruence..|done]|]. unfold found in *. rewrite S2, Hs3 in *.
    by rewrite Hscan. }
  rewrite (drop_S L (ik, v) i He) in Hnext. cbn [scan] in Hnext. cbn [fst snd] in Hnext.
  change (dbi_ss d2) with (dbi_ss d). change (dbi_cmp d2) with (dbi_cmp d). change (savedkey d2) with (savedkey d).
  destruct (Z.leb_spec (seq_of ik) (dbi_ss d)) as [Hse|Hse]; cycle 1.
  { rewrite decide_False in Hnext by lia. by apply (Hnext skipping d2). }
  rewrite decide_True in Hnext by done. destruct (typ_of ik) eqn:Et.
  { by apply (Hnext true (set_bufs d2 (ukey_of ik) ik (savedval d2) (valbuf d2))). }
  assert ((if skipping then o ← cmp (dbi_cmp d) (ukey_of ik) (savedkey d); Ret (is_le o) else Ret false)
     = Ret (hides (u := u) (if skipping then Some (savedkey d) else None) (ukey_of ik))) as ->.
  { destruct skipping; [|done]. rewrite Hc, cmp_ret by auto. done. }
  rewrite bind_Ret. destruct (hides _ (ukey_of ik)) eqn:Eh.
  { by apply (Hnext skipping d2). }
  eexists _, true. split; [done|]. split; [split_and!; [done..|cbn; unfold READ_BYTES_PERIOD; lia|by apply (lively_le _ _ (length L - S i + T)); [lia|]]|]. exists i, (ik, v). split_and!; [done..|].
  rewrite (drop_S L (ik, v) i He). cbn [scan fst snd]. cbn. rewrite decide_True by done. by rewrite Et, Eh.
Qed.

Definition dbi_view T d (W : list entry) (p : pos) : Prop :=
  ∃ L q, view (c := InternalKeyCmp u) (dbi_iter d) L q ∧ entries_ok L ∧ dbi_cmp d = u ∧ dbi_dir d = Forward
    ∧ is_u 56 (dbi_ss d) ∧ (- (2 * READ_BYTES_PERIOD) ≤ byte_count d ∧ lively T (dbi_rng d)) ∧ W = visible (u := u) (dbi_ss d) L
    ∧ match p with
      | At n => dbi_valid d = true ∧ ∃ j e, q = At j ∧ L !! j = Some e
          ∧ drop n W = user_entry e :: scan (u := u) (dbi_ss d) (Some (ukey_of e.1)) (drop (S j) L)
      | _ => dbi_valid d = false
      end.

Lemma found_view T L skip i n d d' b :
  entries_ok L → dbi_cmp d = u → dbi_dir d = Forward → is_u 56 (dbi_ss d) → same T d d' → found L skip i d' b →
  scan (u := u) (dbi_ss d) skip (drop i L) = drop n (visible (u := u) (dbi_ss d) L) →
  b = on_entry (at_or_off (visible (u := u) (dbi_ss d) L) n) ∧ dbi_valid d' = b
  ∧ dbi_view T d' (visible (u := u) (dbi_ss d) L) (at_or_off (visible (u := u) (dbi_ss d) L) n).
Proof.
  intros HL Hc Hd Hs (S1 & S2 & S3 & S4 & S5) F Hscan. unfold found in F. rewrite S2, Hscan in F. set (W := visible _ L) in *.
  destruct b.
  - destruct F as (j & e & V & He & Hv & Hdrop). assert (n < length W)%nat as Hn.
    { apply (f_equal length) in Hdrop. rewrite length_drop in Hdrop. simpl in Hdrop. lia. }
    rewrite at_or_off_lt by done. split; [done|]. split; [done|]. exists L, (At j).
    rewrite S1, S2, S3. split_and!; try done. by exists j, e.
  - destruct F as (V & Hv & Hdrop). assert (length W ≤ n)%nat as Hn.
    { apply (f_equal length) in Hdrop. rewrite length_drop in Hdrop. simpl in Hdrop. lia. }
    rewrite at_or_off_ge by done. split; [done|]. split; [done|]. exists L, Off. rewrite S1, S2, S3. by split_and!.
Qed.

Lemma scan_skip_self e R s : scan (u := u) s (Some (ukey_of e.1)) (e :: R) = scan (u := u) s (Some (ukey_of e.1)) R.
Proof. cbn [scan]. case_decide; [|done]. destruct (typ_of e.1); [done|]. cbn [hides]. by rewrite ord_refl. Qed.

(** Where the iterator ends up after its inner one was moved to [at_or_off L i]. *)
Lemma settle_from T L i n d :
  entries_ok L → view (c := InternalKeyCmp u) (dbi_iter d) L (at_or_off L i) → dbi_cmp d = u → dbi_dir d = Forward →
  is_u 56 (dbi_ss d) → - (2 * READ_BYTES_PERIOD) ≤ byte_count d ∧ lively (size + T) (dbi_rng d) →
  scan (u := u) (dbi_ss d) None (drop i L) = drop n (visible (u := u) (dbi_ss d) L) →
  ∃ d', (v ← it_valid (dbi_iter d);
         if (v : bool) then '(d, _) ← find_next_user_entry fuel false d; Ret d else Ret (set_status d (dbi_dir d) false)) = Ret d'
    ∧ dbi_valid d' = on_entry (at_or_off (visible (u := u) (dbi_ss d) L) n)
    ∧ dbi_view T d' (visible (u := u) (dbi_ss d) L) (at_or_off (visible (u := u) (dbi_ss d) L) n).
Proof.
  intros HL V Hc Hd Hs [Hb Hg] Hscan. rewrite (valid_law _ _ _ V), bind_Ret. destruct (decide (i < length L)%nat) as [Hi|Hi].
  - rewrite at_or_off_lt in * by done. cbn [on_entry]. unfold find_next_user_entry.
    rewrite (valid_law _ _ _ V), bind_Ret. cbn [on_entry]. cbn [massert mbind exec_bind]. rewrite bool_decide_true by done.
    cbn [massert mbind exec_bind].
    destruct (next_user_loop_ok T L fuel i false d) as (d' & b & -> & Hsame & F); [done|by rewrite at_or_off_lt|done|done|apply (lively_le _ _ (size + T)); [pose proof (eo_size L HL); lia|done]|done| |].
    { pose proof (eo_fuel L HL). pose proof (eo_size L HL). lia. }
    rewrite bind_Ret. exists d'. split; [done|].
    destruct (found_view T L None i n d d' b HL Hc Hd Hs Hsame F Hscan) as (Hb1 & Hb2 & Vw). by rewrite Hb2.
  - rewrite at_or_off_ge in V |- * by lia. cbn [on_entry]. eexists. split; [done|]. rewrite drop_ge in Hscan by lia. cbn [scan] in Hscan.
    assert (at_or_off (visible (u := u) (dbi_ss d) L) n = Off) as ->.
    { apply at_or_off_ge. symmetry in Hscan. apply (f_equal length) in Hscan. rewrite length_drop in Hscan. simpl in Hscan. lia. }
    split; [done|]. exists L, Off. split_and!; try done. by apply (lively_le _ _ (size + T)); [lia|].
Qed.

Lemma seek_to_first_ok T d W p :
  dbi_view (size + T) d W p → ∃ d', dbi_seek_to_first fuel d = Ret d' ∧ dbi_valid d' = on_entry (at_or_off W 0) ∧ dbi_view T d' W (at_or_off W 0).
Proof.
  intros (L & q & V & HL & Hc & Hd & Hs & [Hb Hg] & -> & _). unfold dbi_seek_to_first, it_seek_to_first.
  destruct (reset_law _ _ _ V) as (it1 & E1 & V1). cbn [dbi_iter set_status set_bufs]. rewrite E1, !bind_Ret.
  destruct (advance_law _ _ _ V1 ltac:(done)) as (it2 & E2 & V2). rewrite E2, !bind_Ret. cbn [pos_next] in V2.
  set (d1 := dbi_set_iter _ it2). apply (settle_from T L 0 0 d1); try done.
  rewrite !drop_0. eapply scan_visible; [done|by apply eo_sorted].
Qed.

Lemma dbi_advance_ok T d W p :
  dbi_view (size + T) d W p → p ≠ Off → ∃ d', dbi_advance fuel d = Ret (d', on_entry (pos_next W p)) ∧ dbi_view T d' W (pos_next W p).
Proof.
  intros Vd Hp. destruct p as [|n|]; [| |done]; cbn [pos_next].
  - pose proof Vd as (L & q & _ & _ & _ & _ & _ & _ & _ & Hv). destruct (seek_to_first_ok T d W _ Vd) as (d' & E & Hv' & V').
    exists d'. split; [|done]. unfold dbi_advance. rewrite Hv. cbn [negb]. by rewrite E, bind_Ret, Hv'.
  - destruct Vd as (L & q & V & HL & Hc & Hd & Hs & [Hb Hg] & -> & Hv & j & e & -> & He & Hdrop).
    unfold dbi_advance. rewrite Hv, Hd. cbn [negb]. rewrite (current_law _ _ _ V), bind_Ret. cbn [entry_at]. rewrite He.
    destruct e as [ik v]. cbn [unwrap mbind exec_bind].
    pose proof (eo_keys L HL) as HK. rewrite Forall_lookup in HK. destruct (HK _ _ He) as (Hk8 & Hk56 & Hku). cbn [fst] in *.
    unfold truncate_to_userkey. ztest. cbn [massert mbind exec_bind]. unfold vec_truncate.
    replace (take (Z.to_nat (zlen ik - 8)) ik) with (ukey_of ik) by (unfold ukey_of; f_equal; lia).
    unfold find_next_user_entry. cbn [dbi_iter set_bufs]. rewrite (valid_law _ _ _ V), bind_Ret. cbn [on_entry massert mbind exec_bind].
    rewrite bool_decide_true by done. cbn [massert mbind exec_bind]. set (d1 := set_bufs d (ukey_of ik) (keybuf d) v (valbuf d)).
    pose proof (lookup_lt_Some _ _ _ He) as Hj.
    destruct (next_user_loop_ok T L fuel j true d1) as (d' & b & -> & Hsame & F); [done|by rewrite at_or_off_lt|done|done|apply (lively_le _ _ (size + T)); [pose proof (eo_size L HL); lia|done]|done| |].
    { pose proof (eo_fuel L HL). pose proof (eo_size L HL). lia. }
    destruct (found_view T L (Some (ukey_of ik)) j (S n) d1 d' b HL Hc Hd Hs Hsame F) as (Hb1 & Hb2 & Vw).
    + rewrite (drop_S L (ik, v) j He), (scan_skip_self (ik, v)). cbn [fst] in Hdrop |- *. change (dbi_ss d1) with (dbi_ss d).
      rewrite <- (Nat.add_1_r n), <- drop_drop, Hdrop. done.
    + exists d'. by rewrite Hb1.
Qed.

(** Of the entries from the lookup key on, the ones shown are those of the whole list. *)
Lemma seek_visible L to s i :
  StronglySorted (key_lt (c := InternalKeyCmp u)) L → is_u 56 s →
  i = seek_index (InternalKeyCmp u) (ikey to s TypeValue) L →
  scan (u := u) s None (drop i L) = drop (seek_index u to (visible (u := u) s L)) (visible (u := u) s L).
Proof.
  intros HL Hs ->. set (k := ikey to s TypeValue). set (i := seek_index _ k L).
  assert (∀ e, e ∈ take i L → seq_of e.1 ≤ s → ord u (ukey_of e.1) to = Lt) as Hbelow.
  { intros e (j & Hj & Hji)%elem_of_take Hse. pose proof (seek_index_below (c := InternalKeyCmp u) k L j e Hj Hji) as Ho.
    cbn [ord InternalKeyCmp_ordered] in Ho. unfold ord_internal in Ho. unfold k in Ho. rewrite ukey_of_ikey, seq_of_ikey in Ho by done.
    destruct (ord u (ukey_of e.1) to); [|done..]. apply (proj1 (Z.compare_lt_iff _ _)) in Ho. exfalso. lia. }
  assert (∀ e, e ∈ drop i L → ord u (ukey_of e.1) to ≠ Lt) as Habove.
  { intros e He. unfold i in He. rewrite (seek_filter (c := InternalKeyCmp u) k L HL) in He. apply list_elem_of_filter in He as [Ho _].
    cbn [ord InternalKeyCmp_ordered] in Ho. unfold ord_internal in Ho. unfold k in Ho. rewrite ukey_of_ikey in Ho. intros Hlt. by rewrite Hlt in Ho. }
  rewrite (scan_visible s (drop i L)) by (by apply sorted_drop). unfold visible at 1.
  assert (filter (shown_in (u := u) s (drop i L)) (drop i L) = filter (shown_in (u := u) s L) (drop i L)) as ->.
  { apply list_filter_iff'. intros e He. unfold shown_in.
    rewrite <- (take_drop i L) at 2. rewrite Forall_app. split; [|tauto]. intros (H1 & H2 & H3). split_and!; [done..| |done].
    apply Forall_forall. intros e' He' [Heq Hseq]. specialize (Hbelow e' He' ltac:(lia)). apply (Habove e He).
    by rewrite (ord_eq_l _ _ _ Heq). }
  assert (visible (u := u) s L = (user_entry <$> filter (shown_in (u := u) s L) (take i L)) ++ (user_entry <$> filter (shown_in (u := u) s L) (drop i L))) as ->.
  { unfold visible. rewrite <- fmap_app, <- filter_app. by rewrite (take_drop i L). }
  rewrite (seek_index_app to), drop_app_length; [done|..].
  - apply Forall_fmap, Forall_forall. intros e [(_ & Hse & _) He]%list_elem_of_filter. by apply Hbelow.
  - apply Forall_fmap, Forall_forall. intros e [_ He]%list_elem_of_filter. by apply Habove.
Qed.

Lemma dbi_seek_ok T d W p to :
  dbi_view (size + T) d W p → key_ok u to → zlen to + 8 < 2 ^ 63 →
  ∃ d', dbi_seek fuel to d = Ret d' ∧ dbi_view T d' W (at_or_off W (seek_index u to W)).
Proof.
  intros (L & q & V & HL & Hc & Hd & Hs & [Hb Hg] & -> & _) Hk Hl. unfold dbi_seek, LookupKey_new.
  destruct (lookup_key_spec to (dbi_ss d) TypeValue) as (lk & -> & _ & Hik & _); [unfold is_u; lia|]. rewrite bind_Ret, Hik, bind_Ret.
  cbn [savedkey dbi_iter set_status set_bufs].
  destruct (seek_law _ _ _ (ikey to (dbi_ss d) TypeValue) V) as (it1 & -> & V1); [by apply ikey_wf|]. rewrite bind_Ret.
  set (d1 := dbi_set_iter _ it1).
  destruct (settle_from T L (seek_index (InternalKeyCmp u) (ikey to (dbi_ss d) TypeValue) L) (seek_index u to (visible (u := u) (dbi_ss d) L)) d1)
    as (d' & E & _ & V'); try done.
  - by apply seek_visible; [apply eo_sorted|..].
  - by exists d'.
Qed.

Lemma dbi_current_ok T d W p : dbi_view T d W p → dbi_current d = Ret (entry_at W p).
Proof.
  intros (L & q & V & HL & Hc & Hd & Hs & _ & -> & Hp). unfold dbi_current. destruct p as [|n|]; [by rewrite Hp| |by rewrite Hp].
  destruct Hp as (Hv & j & e & -> & He & Hdrop). rewrite Hv, Hd. cbn [negb]. unfold iter_current.
  rewrite (current_law _ _ _ V), !bind_Ret. cbn [entry_at]. rewrite He. destruct e as [ik v].
  pose proof (eo_keys L HL) as HK. rewrite Forall_lookup in HK. destruct (HK _ _ He) as (Hk8 & _ & _). cbn [fst] in *.
  unfold truncate_to_userkey. ztest. cbn [massert mbind exec_bind]. unfold vec_truncate.
  replace (take (Z.to_nat (zlen ik - 8)) ik) with (ukey_of ik) by (unfold ukey_of; f_equal; lia).
  rewrite <- (Nat.add_0_r n), <- lookup_drop, Hdrop. done.
Qed.

(** Iterating to the end. *)
Lemma dbi_collect_ok T W n : ∀ d p i, dbi_view ((length W - i + 1) * size + T) d W p → p ≠ Off → pos_next W p = at_or_off W i → (i ≤ length W)%nat → (length W - i < n)%nat →
  ∃ d', @collect _ (DBIterator_iterator fuel) n d = Ret (d', drop i W) ∧ dbi_view T d' W Off.
Proof.
  induction n as [|n IH]; intros d p i V Hp Hn Hi Hf; [lia|]. cbn [collect]. unfold it_next. cbn [it_advance it_current DBIterator_iterator].
  replace ((length W - i + 1) * size + T)%nat with (size + ((length W - i) * size + T))%nat in V by lia.
  destruct (dbi_advance_ok _ d W p V Hp) as (d1 & -> & V1). rewrite Hn in *. rewrite bind_Ret. destruct (decide (i < length W)%nat) as [Hlt|Hge].
  - rewrite at_or_off_lt in * by done. cbn [on_entry negb]. rewrite (dbi_current_ok _ _ _ _ V1). cbn [entry_at]. rewrite !bind_Ret.
    destruct (lookup_lt_is_Some_2 W i Hlt) as [e He]. rewrite He.
    destruct (IH d1 (At i) (S i)) as (d2 & -> & V2); [|done|done|lia|lia|].
    { replace (length W - S i + 1)%nat with (length W - i)%nat by lia. exact V1. }
    exists d2. split; [|done]. cbn. by rewrite (drop_S _ _ _ He).
  - rewrite at_or_off_ge in * by lia. exists d1. replace (length W - i)%nat with 0%nat in V1 by lia. cbn [on_entry negb]. rewrite bind_Ret. by rewrite drop_ge by lia.
Qed.

Lemma random_period_low (g : G) : - (2 * READ_BYTES_PERIOD) ≤ (random_period g).1.
Proof.
  unfold random_period, READ_BYTES_PERIOD. destruct (random_isize g) as [r g']. cbn [fst].
  pose proof (Z.rem_bound_abs r (2 * 1048576) ltac:(lia)). lia.
Qed.

Lemma dbi_new_view T (g : G) (it : It) ss L :
  view (c := InternalKeyCmp u) it L Start → entries_ok L → lively T (random_period g).2 → is_u 56 ss → dbi_view T (DBIterator_new u g it ss) (visible (u := u) ss L) Start.
Proof.
  intros V HL Hg Hs. pose proof (random_period_low g) as Hp. unfold DBIterator_new. destruct (random_period g) as [n g']. exists L, Start. by split_and!.
Qed.

End forward.

Section shows.
Context `{IEL : IntegerEncodingLaws} {u : Cmp} {UO : OrderedCmp u}.
Context `{LI : LdbIterator It} {FI : ForwardIterator (InternalKeyCmp u) It} {RS : ReadSampled It} `{RI : RandomIsize G} {SA : Sampled (u := u) (It := It)}.

(** What the entries weigh at most. *)
Lemma entries_max (L : list entry) : ∃ m, Forall (λ e : entry, zlen e.1 + zlen e.2 ≤ m) L.
Proof.
  induction L as [|e L [m IH]]; [by exists 0|]. exists (Z.max (zlen e.1 + zlen e.2) m). constructor; [lia|]. eapply Forall_impl; [exact IH|]. cbn. lia.
Qed.

(** Whatever iterator over internal keys it is given, the database iterator shows exactly what
    the snapshot sees: iterating gives, in order, for every user key the newest value that is
    not newer than the snapshot unless a deletion came after it; and seeking finds the first of
    these entries whose key is not below the one asked for. *)
Theorem db_iter_shows_visible (g : G) (it : It) ss L :
  view (c := InternalKeyCmp u) it L Start → StronglySorted (key_lt (c := InternalKeyCmp u)) L → Forall (λ e : entry, key_ok (InternalKeyCmp u) e.1) L →
  makes_up g → is_u 56 ss → let W := visible (u := u) ss L in
  ∃ N, ∀ fuel, (N ≤ fuel)%nat → ∃ d, @collect _ (DBIterator_iterator fuel) (S (length W)) (DBIterator_new u g it ss) = Ret (d, W)
    ∧ ∀ key, key_ok u key → zlen key + 8 < 2 ^ 63 → ∃ d', dbi_seek fuel key d = Ret d' ∧ dbi_current d' = Ret (W !! seek_index u key W).
Proof.
  intros V Hs Hk Hg Hss W. destruct (entries_max L) as [maxlen Hmax].
  assert (makes_up (random_period g).2) as Hg' by (intros j n; destruct (Hg (S j) n) as [k Hn]; by exists k).
  set (T := ((length W - 0 + 1) * length L + (length L + 0))%nat). destruct (makes_up_lively (2 * READ_BYTES_PERIOD + maxlen) T _ Hg') as [N HN].
  exists (N + S (length L))%nat. intros fuel Hf. assert (entries_ok (u := u) fuel maxlen (length L) L) as HL by (split; try done; lia).
  assert (dbi_view (u := u) fuel maxlen (length L) T (DBIterator_new u g it ss) W Start) as Vd by (apply dbi_new_view; [done..|apply HN; lia|done]).
  destruct (dbi_collect_ok fuel maxlen (length L) (length L + 0) W (S (length W)) _ Start 0 Vd) as (d & E & V1); [done|done|lia|lia|]. exists d. split; [done|]. intros key Hkey Hl.
  destruct (dbi_seek_ok fuel maxlen (length L) 0 d W Off key V1 Hkey Hl) as (d' & E' & V'). exists d'. split; [done|].
  rewrite (dbi_current_ok _ _ _ _ _ _ _ V'). unfold at_or_off. case_decide; [done|]. cbn. by rewrite lookup_ge_None_2 by lia.
Qed.

End shows.
