(* ===== verification/VersionSet.v ===== *)
(** * VersionSet: [src/version_set.rs]

    The set of versions of a database and its manifest, and the choice of compactions.

    What the version set shares with others is a [World]: the storage (environment, block
    cache and table cache), the file metadata and the versions.  A [FileMetaHandle] and a
    [Shared<Version>] are locations; [share] allocates.  Messages to the information log are
    left out, and so are the borrow flags of [RefCell]s. *)

From Stdlib Require Import SpecFloat.
From S2P Require Import Prelude Encoding Error Io Env MemEnv Types Cmp KeyTypes Log Iterator Filter FilterBlock Options BlockBuilder Block Cache TableBuilder Table TableFile TableRead TableCache Version VersionEdit MergingIter.

Record World (E F : Type) := mkWorld {
  w_storage : Storage E F;
  w_metas : Metas;
  w_fresh : nat;
  w_versions : list Version;
}.
Arguments mkWorld {E F}.
Arguments w_storage {E F}.
Arguments w_metas {E F}.
Arguments w_fresh {E F}.
Arguments w_versions {E F}.

Definition set_storage {E F} (st : Storage E F) (w : World E F) : World E F :=
  {| w_storage := st; w_metas := w_metas w; w_fresh := w_fresh w; w_versions := w_versions w |}.
Definition set_versions {E F} (vs : list Version) (w : World E F) : World E F :=
  {| w_storage := w_storage w; w_metas := w_metas w; w_fresh := w_fresh w; w_versions := vs |}.
(** [share(f)] for a [FileMetaData]. *)
Definition share_meta {E F} (d : FileMetaData) (w : World E F) : World E F * FileMetaHandle :=
  ({| w_storage := w_storage w; w_metas := set_meta (w_fresh w) d (w_metas w); w_fresh := S (w_fresh w); w_versions := w_versions w |}, w_fresh w).
(** The environment of the world. *)
Definition w_env {E F} (w : World E F) : E := st_env (w_storage w).
Definition set_env {E F} (e : E) (w : World E F) : World E F :=
  set_storage {| st_env := e; st_blocks := st_blocks (w_storage w); st_tables := st_tables (w_storage w) |} w.

(** ** [Compaction] *)

Record Compaction := mkCompaction {
  c_level : Z;
  c_max_file_size : Z;
  input_version : option nat;
  level_ixs : list Z;
  c_cmp : Cmp;
  manual : bool;
  inputs : list (list FileMetaHandle);
  grandparent_ix : Z;
  grandparents : option (list FileMetaHandle);
  overlapped_bytes : Z;
  seen_key : bool;
  c_edit : VersionEdit;
}.

Definition Compaction_new (opt : Options) (level : Z) (input : option nat) : Compaction :=
  {| c_level := level; c_max_file_size := max_file_size opt; input_version := input;
     level_ixs := replicate (Z.to_nat NUM_LEVELS) 0; c_cmp := o_cmp opt; manual := false;
     inputs := [[]; []]; grandparent_ix := 0; grandparents := None; overlapped_bytes := 0; seen_key := false;
     c_edit := VersionEdit_new |}.

Definition set_inputs (i : list (list FileMetaHandle)) (c : Compaction) : Compaction :=
  {| c_level := c_level c; c_max_file_size := c_max_file_size c; input_version := input_version c; level_ixs := level_ixs c;
     c_cmp := c_cmp c; manual := manual c; inputs := i; grandparent_ix := grandparent_ix c; grandparents := grandparents c;
     overlapped_bytes := overlapped_bytes c; seen_key := seen_key c; c_edit := c_edit c |}.
Definition set_c_edit (e : VersionEdit) (c : Compaction) : Compaction :=
  {| c_level := c_level c; c_max_file_size := c_max_file_size c; input_version := input_version c; level_ixs := level_ixs c;
     c_cmp := c_cmp c; manual := manual c; inputs := inputs c; grandparent_ix := grandparent_ix c; grandparents := grandparents c;
     overlapped_bytes := overlapped_bytes c; seen_key := seen_key c; c_edit := e |}.
Definition set_grandparents (g : option (list FileMetaHandle)) (c : Compaction) : Compaction :=
  {| c_level := c_level c; c_max_file_size := c_max_file_size c; input_version := input_version c; level_ixs := level_ixs c;
     c_cmp := c_cmp c; manual := manual c; inputs := inputs c; grandparent_ix := grandparent_ix c; grandparents := g;
     overlapped_bytes := overlapped_bytes c; seen_key := seen_key c; c_edit := c_edit c |}.
Definition set_level (l : Z) (v : option nat) (c : Compaction) : Compaction :=
  {| c_level := l; c_max_file_size := c_max_file_size c; input_version := v; level_ixs := level_ixs c;
     c_cmp := c_cmp c; manual := manual c; inputs := inputs c; grandparent_ix := grandparent_ix c; grandparents := grandparents c;
     overlapped_bytes := overlapped_bytes c; seen_key := seen_key c; c_edit := c_edit c |}.
Definition set_manual (m : bool) (c : Compaction) : Compaction :=
  {| c_level := c_level c; c_max_file_size := c_max_file_size c; input_version := input_version c; level_ixs := level_ixs c;
     c_cmp := c_cmp c; manual := m; inputs := inputs c; grandparent_ix := grandparent_ix c; grandparents := grandparents c;
     overlapped_bytes := overlapped_bytes c; seen_key := seen_key c; c_edit := c_edit c |}.
Definition set_level_ixs (ixs : list Z) (c : Compaction) : Compaction :=
  {| c_level := c_level c; c_max_file_size := c_max_file_size c; input_version := input_version c; level_ixs := ixs;
     c_cmp := c_cmp c; manual := manual c; inputs := inputs c; grandparent_ix := grandparent_ix c; grandparents := grandparents c;
     overlapped_bytes := overlapped_bytes c; seen_key := seen_key c; c_edit := c_edit c |}.
Definition set_overlap (ix bytes : Z) (c : Compaction) : Compaction :=
  {| c_level := c_level c; c_max_file_size := c_max_file_size c; input_version := input_version c; level_ixs := level_ixs c;
     c_cmp := c_cmp c; manual := manual c; inputs := inputs c; grandparent_ix := ix; grandparents := grandparents c;
     overlapped_bytes := bytes; seen_key := true; c_edit := c_edit c |}.

Section compaction.
Context {IE : IntegerEncoding} (M : Metas).
Implicit Types c : Compaction.

Definition add_input (parent : Z) (f : FileMetaHandle) c : exec Compaction :=
  _ ← massert (parent <=? 1);
  l ← index (inputs c) parent;
  i ← set_index (inputs c) parent (l ++ [f]);
  Ret (set_inputs i c).

Definition c_input (parent ix : Z) c : exec FileMetaData :=
  _ ← massert (parent <? 2);
  l ← index (inputs c) parent;
  _ ← massert (ix <? zlen l);
  f ← index l ix;
  Ret (M f).

Definition num_inputs (parent : Z) c : exec Z :=
  _ ← massert (parent <? 2);
  l ← index (inputs c) parent;
  Ret (zlen l).

Definition add_input_deletions c : exec Compaction :=
  mfoldl (λ c (parent : Z),
    l ← index (inputs c) parent;
    level ← uadd 64 (c_level c) parent;
    Ret (foldl (λ c f, set_c_edit (delete_file level (num (M f)) (c_edit c)) c) c l)) c [0; 1].

(** The inner loop of [is_base_level_for], over the files from the saved index on: the new
    index, and whether the key is in the range of a file. *)
Fixpoint base_scan (ucmp : Cmp) (k : bytes) (files : list FileMetaHandle) (ix : Z) : exec (Z * bool) :=
  match files with
  | [] => Ret (ix, false)
  | f :: files =>
      l ← parsed_ukey (largest (M f));
      o ← cmp ucmp k l;
      if is_le o then
        s ← parsed_ukey (smallest (M f));
        o ← cmp ucmp k s;
        Ret (ix, is_ge o)
      else base_scan ucmp k files (ix + 1)
  end.

Fixpoint base_levels (k : bytes) (v : Version) (levels : list nat) c : exec (Compaction * bool) :=
  match levels with
  | [] => Ret (c, true)
  | level :: levels =>
      files ← level_files v (Z.of_nat level);
      ix ← index (level_ixs c) (Z.of_nat level);
      '(ix, inside) ← base_scan (c_cmp c) k (drop (Z.to_nat ix) files) ix;
      ixs ← set_index (level_ixs c) (Z.of_nat level) ix;
      let c := set_level_ixs ixs c in
      if (inside : bool) then Ret (c, false) else base_levels k v levels c
  end.

(** [versions]: where the input version is. *)
Definition is_base_level_for (versions : list Version) (k : bytes) c : exec (Compaction * bool) :=
  l ← unwrap (input_version c);
  v ← unwrap (versions !! l);
  base_levels k v (seq (Z.to_nat (c_level c + 2)) (Z.to_nat NUM_LEVELS - Z.to_nat (c_level c + 2))) c.

Definition is_trivial_move c : exec bool :=
  if manual c then Ret false
  else
    inputs_size ← match grandparents c with Some gp => total_size M gp | None => Ret 0 end;
    n0 ← num_inputs 0 c;
    if n0 =? 1 then
      n1 ← num_inputs 1 c;
      if n1 =? 0 then limit ← umul 64 10 (c_max_file_size c); Ret (inputs_size <? limit)
      else Ret false
    else Ret false.

(** The loop of [should_stop_before], over the grandparents from the saved index on. *)
Fixpoint stop_scan (icmp : Cmp) (seen : bool) (k : bytes) (gp : list FileMetaHandle) (ix overlapped : Z) : exec (Z * Z) :=
  match gp with
  | [] => Ret (ix, overlapped)
  | f :: gp =>
      o ← cmp icmp k (largest (M f));
      if is_gt o then
        overlapped ← (if seen then uadd 64 overlapped (size (M f)) else Ret overlapped);
        stop_scan icmp seen k gp (ix + 1) overlapped
      else Ret (ix, overlapped)
  end.

Definition should_stop_before (k : bytes) c : exec (Compaction * bool) :=
  match grandparents c with
  | None => Ret (set_overlap (grandparent_ix c) (overlapped_bytes c) c, false)
  | Some gp =>
      '(ix, overlapped) ← stop_scan (InternalKeyCmp (c_cmp c)) (seen_key c) k (drop (Z.to_nat (grandparent_ix c)) gp)
                            (grandparent_ix c) (overlapped_bytes c);
      limit ← umul 64 10 (c_max_file_size c);
      if limit <? overlapped then Ret (set_overlap ix 0 c, true)
      else Ret (set_overlap ix overlapped c, false)
  end.

(** ** Lists of files *)

Definition sort_files_by_smallest (c : Cmp) (files : list FileMetaHandle) : exec (list FileMetaHandle) :=
  sort_by (λ a b, cmp c (smallest (M a)) (smallest (M b))) files.

(** The heads are the items that [merge_iters] has taken from the iterators. *)
Fixpoint merge_iters {A} (c : A → A → exec comparison) (la : list A) : list A → exec (list A) :=
  fix merge_b (lb : list A) : exec (list A) :=
    match la, lb with
    | [], _ => Ret lb
    | _, [] => Ret la
    | a :: la', b :: lb' =>
        o ← c a b;
        if is_lt o then out ← merge_iters c la' lb; Ret (a :: out)
        else out ← merge_b lb'; Ret (b :: out)
    end.

Definition get_range (c : Cmp) (files : list FileMetaHandle) : exec (bytes * bytes) :=
  '(s, l) ← mfoldl (λ '(s, l) f,
      let smallest' := default (smallest (M f)) s in
      let largest' := default (largest (M f)) l in
      o ← cmp c (smallest (M f)) smallest';
      let smallest' := if is_lt o then smallest (M f) else smallest' in
      o ← cmp c (largest (M f)) largest';
      let largest' := if is_gt o then largest (M f) else largest' in
      Ret (Some smallest', Some largest')) (None, None) files;
  s ← unwrap s;
  l ← unwrap l;
  Ret (s, l).

End compaction.

(** ** [Builder] *)

Record Builder := mkBuilder { b_deleted : list (list Z); b_added : list (list FileMetaHandle) }.

Definition Builder_new : Builder :=
  {| b_deleted := replicate (Z.to_nat NUM_LEVELS) []; b_added := replicate (Z.to_nat NUM_LEVELS) [] |}.

Section builder.
Context {E F : Type} (order : gset (Z * Z) → list (Z * Z)).
Implicit Types (w : World E F) (b : Builder).

(** The files of an edit: each is shared anew, with its number of seeks. *)
Definition seeks_for (f : FileMetaData) : FileMetaData :=
  let seeks := size f / 16384 in
  {| allowed_seeks := if seeks <? 100 then 100 else seeks; num := num f; size := size f; smallest := smallest f; largest := largest f |}.

Definition builder_apply (edit : VersionEdit) (compaction_ptrs : list bytes) b w : exec (World E F * (Builder * list bytes)) :=
  ptrs ← mfoldl (λ ptrs c, set_index ptrs (cp_level c) (cp_key c)) compaction_ptrs (VersionEdit.compaction_ptrs edit);
  del ← mfoldl (λ del '(level, n), l ← index del level; set_index del level (l ++ [n])) (b_deleted b) (order (deleted edit));
  '(w, b) ← mfoldl (λ '(w, b) '(level, f),
      let f := seeks_for f in
      dl ← index (b_deleted b) level;
      del ← set_index (b_deleted b) level (filter (λ d, d ≠ num f) dl);
      al ← index (b_added b) level;
      let (w, h) := share_meta f w in
      add ← set_index (b_added b) level (al ++ [h]);
      Ret (w, {| b_deleted := del; b_added := add |}))
    (w, {| b_deleted := del; b_added := b_added b |}) (new_files edit);
  Ret (w, (b, ptrs)).

Definition with_files (files : list (list FileMetaHandle)) (v : Version) : Version :=
  {| user_cmp := user_cmp v; v_files := files; file_to_compact := file_to_compact v; file_to_compact_lvl := file_to_compact_lvl v;
     compaction_score := compaction_score v; compaction_level := compaction_level v |}.

Definition maybe_add_file (M : Metas) (icmp : Cmp) b (level : Z) (f : FileMetaHandle) (v : Version) : exec Version :=
  del ← index (b_deleted b) level;
  if bool_decide (num (M f) ∈ del) then Ret v
  else
    files ← index (v_files v) level;
    _ ← (match last files with
         | Some l => if 0 <? level then o ← cmp icmp (largest (M l)) (smallest (M f)); massert (is_lt o) else Ret ()
         | None => Ret ()
         end);
    fs ← set_index (v_files v) level (files ++ [f]);
    Ret (with_files fs v).

(** [assert!(cmp.cmp(prev_end, this_begin) < Ordering::Equal)] for every pair of neighbours *)
Fixpoint check_disjoint (M : Metas) (icmp : Cmp) (files : list FileMetaHandle) : exec unit :=
  match files with
  | f :: (g :: _) as rest =>
      o ← cmp icmp (largest (M f)) (smallest (M g));
      _ ← massert (is_lt o);
      check_disjoint M icmp rest
  | _ => Ret ()
  end.

(** The base version is sorted in place. *)
Definition save_to (M : Metas) (icmp : Cmp) (base : Version) (v : Version) b : exec (Builder * Version * Version) :=
  mfoldl (λ '(b, base, v) (lv : nat),
    let level := Z.of_nat lv in
    al ← index (b_added b) level;
    added ← sort_files_by_smallest M icmp al;
    a ← set_index (b_added b) level added;
    let b := {| b_deleted := b_deleted b; b_added := a |} in
    bl ← index (v_files base) level;
    basefiles ← sort_files_by_smallest M icmp bl;
    bf ← set_index (v_files base) level basefiles;
    let base := with_files bf base in
    merged ← merge_iters (λ x y, cmp icmp (smallest (M x)) (smallest (M y))) added basefiles;
    v ← mfoldl (λ v m, maybe_add_file M icmp b level m v) v merged;
    if level =? 0 then Ret (b, base, v)
    else files ← index (v_files v) level; _ ← check_disjoint M icmp files; Ret (b, base, v))
    (b, base, v) (seq 0 (Z.to_nat NUM_LEVELS)).

End builder.

(** ** Floating-point scores

    [f64] arithmetic on the Standard Library's specification floats. *)

Definition f64_of (n : Z) : spec_float := binary_normalize 53 1024 n 0 false.
Definition f64_mul : spec_float → spec_float → spec_float := SFmul 53 1024.
Definition f64_div : spec_float → spec_float → spec_float := SFdiv 53 1024.

(** ** [VersionSet] *)

Record VersionSet (WF : Type) := mkVersionSet {
  vs_dbname : string;
  vs_opt : Options;
  next_file_num : Z;
  manifest_num : Z;
  vs_last_seq : Z;
  log_num : Z;
  prev_log_num : Z;
  vs_current : option nat;
  vs_compaction_ptrs : list bytes;
  descriptor_log : option (LogWriter WF);
}.
Arguments mkVersionSet {WF}.
Arguments vs_dbname {WF}.
Arguments vs_opt {WF}.
Arguments next_file_num {WF}.
Arguments manifest_num {WF}.
Arguments vs_last_seq {WF}.
Arguments log_num {WF}.
Arguments prev_log_num {WF}.
Arguments vs_current {WF}.
Arguments vs_compaction_ptrs {WF}.
Arguments descriptor_log {WF}.

Section setters.
Context {WF : Type}.
Implicit Types vs : VersionSet WF.

Definition set_next_file_num (n : Z) vs : VersionSet WF :=
  {| vs_dbname := vs_dbname vs; vs_opt := vs_opt vs; next_file_num := n; manifest_num := manifest_num vs; vs_last_seq := vs_last_seq vs;
     log_num := log_num vs; prev_log_num := prev_log_num vs; vs_current := vs_current vs; vs_compaction_ptrs := vs_compaction_ptrs vs;
     descriptor_log := descriptor_log vs |}.
Definition set_manifest_num (n : Z) vs : VersionSet WF :=
  {| vs_dbname := vs_dbname vs; vs_opt := vs_opt vs; next_file_num := next_file_num vs; manifest_num := n; vs_last_seq := vs_last_seq vs;
     log_num := log_num vs; prev_log_num := prev_log_num vs; vs_current := vs_current vs; vs_compaction_ptrs := vs_compaction_ptrs vs;
     descriptor_log := descriptor_log vs |}.
Definition set_vs_last_seq (n : Z) vs : VersionSet WF :=
  {| vs_dbname := vs_dbname vs; vs_opt := vs_opt vs; next_file_num := next_file_num vs; manifest_num := manifest_num vs; vs_last_seq := n;
     log_num := log_num vs; prev_log_num := prev_log_num vs; vs_current := vs_current vs; vs_compaction_ptrs := vs_compaction_ptrs vs;
     descriptor_log := descriptor_log vs |}.
Definition set_vs_log_num (n : Z) vs : VersionSet WF :=
  {| vs_dbname := vs_dbname vs; vs_opt := vs_opt vs; next_file_num := next_file_num vs; manifest_num := manifest_num vs; vs_last_seq := vs_last_seq vs;
     log_num := n; prev_log_num := prev_log_num vs; vs_current := vs_current vs; vs_compaction_ptrs := vs_compaction_ptrs vs;
     descriptor_log := descriptor_log vs |}.
Definition set_vs_prev_log_num (n : Z) vs : VersionSet WF :=
  {| vs_dbname := vs_dbname vs; vs_opt := vs_opt vs; next_file_num := next_file_num vs; manifest_num := manifest_num vs; vs_last_seq := vs_last_seq vs;
     log_num := log_num vs; prev_log_num := n; vs_current := vs_current vs; vs_compaction_ptrs := vs_compaction_ptrs vs;
     descriptor_log := descriptor_log vs |}.
Definition set_current (c : option nat) vs : VersionSet WF :=
  {| vs_dbname := vs_dbname vs; vs_opt := vs_opt vs; next_file_num := next_file_num vs; manifest_num := manifest_num vs; vs_last_seq := vs_last_seq vs;
     log_num := log_num vs; prev_log_num := prev_log_num vs; vs_current := c; vs_compaction_ptrs := vs_compaction_ptrs vs;
     descriptor_log := descriptor_log vs |}.
Definition set_ptrs (p : list bytes) vs : VersionSet WF :=
  {| vs_dbname := vs_dbname vs; vs_opt := vs_opt vs; next_file_num := next_file_num vs; manifest_num := manifest_num vs; vs_last_seq := vs_last_seq vs;
     log_num := log_num vs; prev_log_num := prev_log_num vs; vs_current := vs_current vs; vs_compaction_ptrs := p;
     descriptor_log := descriptor_log vs |}.
Definition set_descriptor_log (l : option (LogWriter WF)) vs : VersionSet WF :=
  {| vs_dbname := vs_dbname vs; vs_opt := vs_opt vs; next_file_num := next_file_num vs; manifest_num := manifest_num vs; vs_last_seq := vs_last_seq vs;
     log_num := log_num vs; prev_log_num := prev_log_num vs; vs_current := vs_current vs; vs_compaction_ptrs := vs_compaction_ptrs vs;
     descriptor_log := l |}.

(** ** File numbers *)

Definition new_file_number vs : exec (VersionSet WF * Z) :=
  n ← uadd 64 (next_file_num vs) 1;
  Ret (set_next_file_num n vs, n - 1).

Definition reuse_file_number (n : Z) vs : exec (VersionSet WF) :=
  m ← usub (next_file_num vs) 1;
  Ret (if n =? m then set_next_file_num n vs else vs).

Definition mark_file_number_used (n : Z) vs : exec (VersionSet WF) :=
  if next_file_num vs <=? n then m ← uadd 64 n 1; Ret (set_next_file_num m vs) else Ret vs.

End setters.

(** An operation of a log writer whose destination is a file of the environment. *)
Definition log_in {E W} (lw : LogWriter W) (e : E) : LogWriter (E * W) :=
  {| lw_dst := (e, lw_dst lw); current_block_offset := current_block_offset lw; block_size := block_size lw |}.
Definition log_out {E W} (lw : LogWriter (E * W)) : E * LogWriter W :=
  (fst (lw_dst lw), {| lw_dst := snd (lw_dst lw); current_block_offset := current_block_offset lw; block_size := block_size lw |}).

Section version_set.
Context {IE : IntegerEncoding} {CR : Crc32} `{EN : Env E} (debug_bytes : bytes → string) (order : gset (Z * Z) → list (Z * Z)).
Abbreviation World := (World E ra_file) (only parsing).
Abbreviation VersionSet := (VersionSet w_file) (only parsing).
Implicit Types (w : World) (vs : VersionSet).

Definition VersionSet_new (db : string) (opt : Options) w : World * VersionSet :=
  (set_versions (w_versions w ++ [Version_new (o_cmp opt)]) w,
   {| vs_dbname := db; vs_opt := opt; next_file_num := 2; manifest_num := 0; vs_last_seq := 0; log_num := 0; prev_log_num := 0;
      vs_current := Some (length (w_versions w)); vs_compaction_ptrs := replicate (Z.to_nat NUM_LEVELS) [];
      descriptor_log := None |}).

Definition vs_icmp vs : Cmp := InternalKeyCmp (o_cmp (vs_opt vs)).

(** [self.current.as_ref().unwrap().borrow()] *)
Definition current w vs : exec Version := l ← unwrap (vs_current vs); unwrap (w_versions w !! l).

Definition current_summary w vs : exec string := v ← current w vs; level_summary (w_metas w) v.

Definition live_files w vs : exec (gset Z) :=
  match vs_current vs with
  | Some l =>
      v ← unwrap (w_versions w !! l);
      mfoldl (λ files (level : nat), fs ← level_files v (Z.of_nat level); Ret (files ∪ list_to_set ((λ f, num (w_metas w f)) <$> fs)))
        ∅ (seq 0 (Z.to_nat NUM_LEVELS))
  | None => Ret ∅
  end.

Definition add_version (v : Version) (s : World * VersionSet) : World * VersionSet :=
  let (w, vs) := s in
  (set_versions (w_versions w ++ [v]) w, set_current (Some (length (w_versions w))) vs).

Definition needs_compaction w vs : exec bool :=
  v ← current w vs;
  Ret (SFleb (f64_of 1) (default (f64_of 0) (compaction_score v)) || bool_decide (is_Some (file_to_compact v))).

(** The files of one level in [approximate_offset]. *)
Fixpoint approx_files (ucmp : Cmp) (level : Z) (key : bytes) (files : list FileMetaHandle) (offset : Z) w : exec (World * Z) :=
  match files with
  | [] => Ret (w, offset)
  | f :: files =>
      let d := w_metas w f in
      o ← cmp ucmp (largest d) key;
      if is_le o then offset ← uadd 64 offset (size d); approx_files ucmp level key files offset w
      else
        o ← cmp ucmp (smallest d) key;
        if is_gt o then
          if 0 <? level then Ret (w, offset) else approx_files ucmp level key files offset w
        else
          '(st, tbl) ← get_table debug_bytes (num d) (w_storage w);
          let w := set_storage st w in
          match tbl with
          | Ok tbl => n ← approx_offset_of tbl key; offset ← uadd 64 offset n; approx_files ucmp level key files offset w
          | Err _ => approx_files ucmp level key files offset w
          end
  end.

Definition approximate_offset (v : Version) (key : bytes) w vs : exec (World * Z) :=
  mfoldl (λ '(w, offset) (level : nat),
    files ← level_files v (Z.of_nat level);
    approx_files (o_cmp (vs_opt vs)) (Z.of_nat level) key files offset w) (w, 0) (seq 0 (Z.to_nat NUM_LEVELS)).

(** ** Choosing a compaction *)

(** More inputs of the level, if that takes no more inputs of the next one: the inputs of both
    levels, the largest key of the first ones and the range of all. *)
Definition expand_inputs (M : Metas) (v : Version) vs (level : Z) (in0 in1 : list FileMetaHandle) (largest allstart alllimit : bytes)
  : exec (list FileMetaHandle * list FileMetaHandle * bytes * bytes * bytes) :=
  let icmp := vs_icmp vs in
  let unchanged := Ret (in0, in1, largest, allstart, alllimit) in
  match in1 with
  | [] => unchanged
  | _ =>
      expanded0 ← overlapping_inputs M v level allstart alllimit;
      inputs1_size ← total_size M in1;
      expanded0_size ← total_size M expanded0;
      if zlen in0 <? zlen expanded0 then
        both ← uadd 64 inputs1_size expanded0_size;
        limit ← umul 64 25 (max_file_size (vs_opt vs));
        if both <? limit then
          '(new_start, new_limit) ← get_range M icmp expanded0;
          expanded1 ← overlapping_inputs M v (level + 1) new_start new_limit;
          if zlen expanded1 =? zlen in1 then
            '(newallstart, newalllimit) ← get_range M icmp (expanded0 ++ expanded1);
            Ret (expanded0, expanded1, new_limit, newallstart, newalllimit)
          else unchanged
        else unchanged
      else unchanged
  end.

Definition setup_other_inputs (c : Compaction) w vs : exec (VersionSet * Compaction) :=
  let M := w_metas w in let icmp := vs_icmp vs in
  v ← current w vs;
  let level := c_level c in
  in0 ← index (inputs c) 0;
  '(smallest, largest) ← get_range M icmp in0;
  in1 ← overlapping_inputs M v (level + 1) smallest largest;
  '(allstart, alllimit) ← get_range M icmp (in0 ++ in1);
  '(in0, in1, largest, allstart, alllimit) ← expand_inputs M v vs level in0 in1 largest allstart alllimit;
  let c := set_inputs [in0; in1] c in
  c ← (if level + 2 <? NUM_LEVELS then
         gp ← overlapping_inputs M v (level + 2) allstart alllimit;
         Ret (set_grandparents (Some gp) c)
       else Ret c);
  let c := set_c_edit (set_compact_pointer level largest (c_edit c)) c in
  ptrs ← set_index (vs_compaction_ptrs vs) level largest;
  Ret (set_ptrs ptrs vs, c).

(** The first file behind the compaction pointer. *)
Fixpoint first_past (M : Metas) (icmp : Cmp) (ptr : bytes) (files : list FileMetaHandle) : exec (option FileMetaHandle) :=
  match files with
  | [] => Ret None
  | f :: files =>
      past ← (if decide (ptr = []) then Ret true else o ← cmp icmp (largest (M f)) ptr; Ret (is_gt o));
      if (past : bool) then Ret (Some f) else first_past M icmp ptr files
  end.

Definition pick_compaction w vs : exec (VersionSet * option Compaction) :=
  let M := w_metas w in let icmp := vs_icmp vs in
  v ← current w vs;
  let c := Compaction_new (vs_opt vs) 0 (vs_current vs) in
  picked ←
    (if SFleb (f64_of 1) (default (f64_of 0) (compaction_score v)) then
       level ← unwrap (compaction_level v);
       _ ← massert (level <? NUM_LEVELS - 1);
       files ← level_files v level;
       ptr ← index (vs_compaction_ptrs vs) level;
       f ← first_past M icmp ptr files;
       c ← match f with Some f => add_input 0 f c | None => Ret c end;
       n0 ← num_inputs 0 c;
       c ← (if n0 =? 0 then f ← index files 0; add_input 0 f c else Ret c);
       Ret (Some (level, c))
     else
       match file_to_compact v with
       | Some ftc => c ← add_input 0 ftc c; Ret (Some (file_to_compact_lvl v, c))
       | None => Ret None
       end);
  match picked with
  | None => Ret (vs, None)
  | Some (level, c) =>
      let c := set_level level (vs_current vs) c in
      c ← (if level =? 0 then
             in0 ← index (inputs c) 0;
             '(smallest, largest) ← get_range M icmp in0;
             in0 ← overlapping_inputs M v 0 smallest largest;
             i ← set_index (inputs c) 0 in0;
             _ ← massert (negb (bool_decide (in0 = [])));
             Ret (set_inputs i c)
           else Ret c);
      '(vs, c) ← setup_other_inputs c w vs;
      Ret (vs, Some c)
  end.

(** The files up to the one that makes the sum of the sizes exceed the limit. *)
Fixpoint take_up_to (M : Metas) (limit total : Z) (files : list FileMetaHandle) : exec (list FileMetaHandle) :=
  match files with
  | [] => Ret []
  | f :: files =>
      total ← uadd 64 total (size (M f));
      if limit <? total then Ret [f] else r ← take_up_to M limit total files; Ret (f :: r)
  end.

Definition compact_range (level : Z) (from to : bytes) w vs : exec (VersionSet * option Compaction) :=
  let M := w_metas w in
  v ← current w vs;
  ins ← overlapping_inputs M v level from to;
  match ins with
  | [] => Ret (vs, None)
  | _ =>
      ins ← (if 0 <? level then take_up_to M (max_file_size (vs_opt vs)) 0 ins else Ret ins);
      let c := Compaction_new (vs_opt vs) level (vs_current vs) in
      i ← set_index (inputs c) 0 ins;
      let c := set_manual true (set_inputs i c) in
      '(vs, c) ← setup_other_inputs c w vs;
      Ret (vs, Some c)
  end.

(** ** The manifest *)

(** [self.descriptor_log.as_mut().unwrap().op()] *)
Definition on_descriptor_log {A} (op : LogWriter (E * w_file) → exec (LogWriter (E * w_file) * Result A)) (s : World * VersionSet)
  : exec ((World * VersionSet) * Result A) :=
  let (w, vs) := s in
  lw ← unwrap (descriptor_log vs);
  '(lw, r) ← op (log_in lw (w_env w));
  let (e, lw) := log_out lw in
  Ret ((set_env e w, set_descriptor_log (Some lw) vs), r).

Definition edit_ptrs (ptrs : list bytes) (edit : VersionEdit) : VersionEdit :=
  snd (foldl (λ '(level, edit) p, (level + 1, if decide (p = []) then edit else set_compact_pointer level p edit)) (0, edit) ptrs).

Definition edit_files (M : Metas) (files : list (list FileMetaHandle)) (edit : VersionEdit) : VersionEdit :=
  snd (foldl (λ '(level, edit) fs, (level + 1, foldl (λ edit f, add_file level (M f) edit) edit fs)) (0, edit) files).

(** The arrays [compaction_ptrs] and [files] have [NUM_LEVELS] elements. *)
Definition write_snapshot (s : World * VersionSet) : exec ((World * VersionSet) * Result Z) :=
  let (w, vs) := s in
  _ ← massert (bool_decide (is_Some (descriptor_log vs)));
  let edit := set_comparator_name (cmp_id (o_cmp (vs_opt vs))) VersionEdit_new in
  let edit := edit_ptrs (vs_compaction_ptrs vs) edit in
  v ← current w vs;
  let edit := edit_files (w_metas w) (v_files v) edit in
  on_descriptor_log (add_record (encode_with (order (deleted edit)) edit)) s.

Definition set_current_file (dbname : string) (manifest_file_num : Z) (e : E) : exec (E * Result unit) :=
  let manifest_base := manifest_name manifest_file_num in
  let tempfile := temp_file_name dbname manifest_file_num in
  let? e, f := env_open_writable_file tempfile e in
  '((e, f), r) ← w_write_all (string_bytes manifest_base) (e, f);
  match r with
  | Err s => Ret (e, Err (Status_from_io s))
  | Ok _ =>
      '((e, f), r) ← w_write_all [10] (e, f);
      match r with
      | Err s => Ret (e, Err (Status_from_io s))
      | Ok _ =>
          '(e, r) ← env_rename tempfile (current_file_name dbname) e;
          match r with
          | Err s => '(e, _) ← env_delete tempfile e; Ret (e, Err s)
          | Ok _ => Ret (e, Ok ())
          end
      end
  end.

(** [finalize] compares the scores of the levels. *)
Fixpoint max_bytes_for (n : nat) : spec_float :=
  match n with O => f64_mul (f64_of 10) (f64_of (Z.shiftl 1 20)) | S n => f64_mul (max_bytes_for n) (f64_of 10) end.

Definition level_score (M : Metas) (v : Version) (l : nat) : exec spec_float :=
  files ← level_files v (Z.of_nat l);
  match l with
  | O => Ret (f64_div (f64_of (zlen files)) (f64_of 4))
  | S l' => sz ← total_size M files; Ret (f64_div (f64_of sz) (max_bytes_for l'))
  end.

Definition finalize (M : Metas) (v : Version) : exec Version :=
  best ← mfoldl (λ best (l : nat),
      score ← level_score M v l;
      Ret (match best with
           | Some (b, _) => if SFltb b score then Some (score, Z.of_nat l) else best
           | None => Some (score, Z.of_nat l)
           end)) None (seq 0 (Z.to_nat NUM_LEVELS - 1));
  Ret {| user_cmp := user_cmp v; v_files := v_files v; file_to_compact := file_to_compact v; file_to_compact_lvl := file_to_compact_lvl v;
         compaction_score := fst <$> best; compaction_level := snd <$> best |}.

(** [builder.save_to(&self.cmp, self.current.as_ref().unwrap(), &mut v)] *)
Definition build_version (b : Builder) (w : World) vs : exec (World * Version) :=
  l ← unwrap (vs_current vs);
  base ← unwrap (w_versions w !! l);
  '(_, base, v) ← save_to (w_metas w) (vs_icmp vs) base (Version_new (o_cmp (vs_opt vs))) b;
  Ret (set_versions (<[l := base]> (w_versions w)) w, v).

(** The manifest is created when there is none yet. *)
Definition open_descriptor (edit : VersionEdit) (s : World * VersionSet) : exec ((World * VersionSet) * Result VersionEdit) :=
  let (w, vs) := s in
  match descriptor_log vs with
  | Some _ => Ret (s, Ok edit)
  | None =>
      let edit := set_next_file (next_file_num vs) edit in
      '(e, f) ← env_open_writable_file (manifest_file_name (vs_dbname vs) (manifest_num vs)) (w_env w);
      let w := set_env e w in
      match f with
      | Err s => Ret ((w, vs), Err s)
      | Ok f =>
          '(s, r) ← write_snapshot (w, set_descriptor_log (Some (LogWriter_new f)) vs);
          Ret (s, match r with Ok _ => Ok edit | Err e => Err e end)
      end
  end.

Definition log_and_apply (edit : VersionEdit) (s : World * VersionSet) : exec ((World * VersionSet) * Result unit) :=
  let (w, vs) := s in
  _ ← massert (bool_decide (is_Some (vs_current vs)));
  edit ← match log_number edit with
         | None => Ret (set_log_num (log_num vs) edit)
         | Some n => _ ← massert (log_num vs <=? n); _ ← massert (n <? next_file_num vs); Ret edit
         end;
  let edit := match prev_log_number edit with None => set_prev_log_num (prev_log_num vs) edit | Some _ => edit end in
  let edit := set_next_file (next_file_num vs) edit in
  let edit := set_last_seq (vs_last_seq vs) edit in
  '(w, (b, ptrs)) ← builder_apply order edit (vs_compaction_ptrs vs) Builder_new w;
  let vs := set_ptrs ptrs vs in
  '(w, v) ← build_version b w vs;
  v ← finalize (w_metas w) v;
  '((w, vs), opened) ← open_descriptor edit (w, vs);
  match opened with
  | Err e => Ret ((w, vs), Err e)
  | Ok edit =>
      let? s, _ := on_descriptor_log (add_record (encode_with (order (deleted edit)) edit)) (w, vs) in
      let? s, _ := on_descriptor_log log_flush s in
      let (w, vs) := s in
      '(e, r) ← set_current_file (vs_dbname vs) (manifest_num vs) (w_env w);
      let w := set_env e w in
      match r with
      | Err e => Ret ((w, vs), Err e)
      | Ok _ =>
          let (w, vs) := add_version v (w, vs) in
          n ← unwrap (log_number edit);
          Ret ((w, set_vs_log_num n vs), Ok ())
      end
  end.

(** ** Recovery *)

(** [read_to_string]: chunks until there is no more; the contents are UTF-8. *)
Fixpoint read_all `{Read R} (fuel : nat) (acc : bytes) (r : R) : exec (R * io_result bytes) :=
  match fuel with
  | O => NoFuel
  | S fuel =>
      '(r, out) ← r_read 32 r;
      match out with
      | Ok [] => Ret (r, Ok acc)
      | Ok bs => read_all fuel (acc ++ bs) r
      | Err e => Ret (r, Err e)
      end
  end.
Definition read_to_string `{Read R} (fuel : nat) (r : R) : exec (R * io_result string) :=
  '(r, out) ← read_all fuel [] r;
  Ret (r, match out with
          | Ok bs => if utf8_valid bs then Ok (bytes_string bs) else Err {| kind := KOther; io_msg := "stream did not contain valid UTF-8" |}
          | Err e => Err e
          end).

(** [s.ends_with('\n')] *)
Fixpoint ends_with_newline (s : string) : bool :=
  match s with
  | EmptyString => false
  | String c EmptyString => bool_decide (c = Ascii.ascii_of_nat 10)
  | String _ s => ends_with_newline s
  end.

Definition read_current_file (fuel : nat) (dbname : string) (e : E) : exec (E * Result string) :=
  let? e, f := env_open_sequential_file (current_file_name dbname) e in
  '((e, f), r) ← read_to_string fuel (e, f);
  Ret (e, match r with
          | Err s => Err (Status_from_io s)
          | Ok current =>
              if bool_decide (current = "") || negb (ends_with_newline current)
              then err Corruption "current file is empty or has no newline"
              else Ok current
          end).

(** What the loop of [recover] collects. *)
Record Recovered := mkRecovered {
  rc_builder : Builder;
  rc_ptrs : list bytes;
  rc_log : option Z;
  rc_prev : option Z;
  rc_next : option Z;
  rc_seq : option Z;
}.

Definition or_else (a b : option Z) : option Z := match a with Some _ => a | None => b end.

Definition recover_edit (edit : VersionEdit) (r : Recovered) w : exec (World * Recovered) :=
  '(w, (b, ptrs)) ← builder_apply order edit (rc_ptrs r) (rc_builder r) w;
  Ret (w, {| rc_builder := b; rc_ptrs := ptrs; rc_log := or_else (log_number edit) (rc_log r); rc_prev := or_else (prev_log_number edit) (rc_prev r);
             rc_next := or_else (next_file_number edit) (rc_next r); rc_seq := or_else (ve_last_seq edit) (rc_seq r) |}).

(** [fuel] bounds the number of records, [rfuel] the number of fragments of one. *)
Fixpoint recover_loop (fuel rfuel : nat) (lr : LogReader (E * seq_file)) (r : Recovered) w : exec (World * (Recovered * Result unit)) :=
  match fuel with
  | O => NoFuel
  | S fuel =>
      '(lr, buf, res) ← log_read rfuel lr;
      match res with
      | Err _ => Ret (set_env (fst (lr_src lr)) w, (r, Ok ()))
      | Ok sz =>
          if sz =? 0 then Ret (set_env (fst (lr_src lr)) w, (r, Ok ()))
          else
            d ← decode_from buf;
            match d with
            | Err e => Ret (set_env (fst (lr_src lr)) w, (r, Err e))
            | Ok edit => '(w, r) ← recover_edit edit r w; recover_loop fuel rfuel lr r w
            end
      end
  end.

Definition do_reuse_manifest (path base : string) (s : World * VersionSet) : exec ((World * VersionSet) * bool) :=
  let (w, vs) := s in
  if negb (reuse_manifest (vs_opt vs)) then Ret (s, false)
  else
    match parse_file_name base with
    | Ok (n, Descriptor) =>
        sz ← env_size_of path (w_env w);
        match sz with
        | Ok sz =>
            if max_file_size (vs_opt vs) <=? sz then Ret (s, false)
            else
              _ ← massert (bool_decide (descriptor_log vs = None));
              '(e, f) ← env_open_appendable_file path (w_env w);
              let w := set_env e w in
              match f with
              | Ok f => Ret ((w, set_manifest_num n (set_descriptor_log (Some (LogWriter_new_with_off f sz)) vs)), true)
              | Err _ => Ret ((w, vs), false)
              end
        | Err _ => Ret (s, false)
        end
    | _ => Ret (s, false)
    end.

(** The counters of the manifest. *)
Definition recover_counters (r : Recovered) vs : exec (VersionSet * Result unit) :=
  match rc_log r with
  | None => Ret (vs, err Corruption "no meta-lognumber entry in descriptor")
  | Some ln =>
      vs ← mark_file_number_used ln (set_vs_log_num ln vs);
      match rc_next r with
      | None => Ret (vs, err Corruption "no meta-next-file entry in descriptor")
      | Some nfn =>
          n ← uadd 64 nfn 1;
          let vs := set_next_file_num n vs in
          match rc_seq r with
          | None => Ret (vs, err Corruption "no last-sequence entry in descriptor")
          | Some ls =>
              let vs := set_vs_last_seq ls vs in
              match rc_prev r with
              | Some pln => vs ← mark_file_number_used pln (set_vs_prev_log_num pln vs); Ret (vs, Ok ())
              | None => Ret (set_vs_prev_log_num 0 vs, Ok ())
              end
          end
      end
  end.

Definition vs_recover (fuel rfuel : nat) (s : World * VersionSet) : exec ((World * VersionSet) * Result bool) :=
  let (w, vs) := s in
  _ ← massert (bool_decide (is_Some (vs_current vs)));
  '(e, c) ← read_current_file fuel (vs_dbname vs) (w_env w);
  let w := set_env e w in
  match c with
  | Err e => Ret ((w, vs), Err e)
  | Ok current =>
      len ← usub (Z.of_nat (String.length current)) 1;
      let base := String.substring 0 (Z.to_nat len) current in
      let descfilename := path_join (vs_dbname vs) base in
      '(e, f) ← env_open_sequential_file descfilename (w_env w);
      let w := set_env e w in
      match f with
      | Err e => Ret ((w, vs), Err e)
      | Ok f =>
          '(w, (r, res)) ← recover_loop fuel rfuel (LogReader_new (w_env w, f) true)
              {| rc_builder := Builder_new; rc_ptrs := vs_compaction_ptrs vs; rc_log := None; rc_prev := None; rc_next := None; rc_seq := None |} w;
          let vs := set_ptrs (rc_ptrs r) vs in
          match res with
          | Err e => Ret ((w, vs), Err e)
          | Ok _ =>
              '(vs, res) ← recover_counters r vs;
              match res with
              | Err e => Ret ((w, vs), Err e)
              | Ok _ =>
                  '(w, v) ← build_version (rc_builder r) w vs;
                  v ← finalize (w_metas w) v;
                  let (w, vs) := add_version v (w, vs) in
                  m ← usub (next_file_num vs) 1;
                  '(s, reused) ← do_reuse_manifest descfilename base (w, set_manifest_num m vs);
                  Ret (s, Ok (negb reused))
              end
          end
      end
  end.

(** ** Iterating over the inputs of a compaction *)

Fixpoint open_inputs (M : Metas) (files : list FileMetaHandle) (st : Storage E ra_file) : exec (Storage E ra_file * list version_iterator) :=
  match files with
  | [] => Ret (st, [])
  | f :: files =>
      '(st, t) ← get_table debug_bytes (num (M f)) st;
      match t with
      | Ok tbl => it ← table_iter tbl; '(st, its) ← open_inputs M files st; Ret (st, LevelZero it :: its)
      | Err _ => open_inputs M files st
      end
  end.

Definition make_input_iterator (c : Compaction) w vs : exec (World * MergingIter version_iterator) :=
  let M := w_metas w in
  n0 ← num_inputs 0 c;
  let cap := if c_level c =? 0 then n0 + 1 else 2 in
  '(w, its) ← mfoldl (λ '(w, its) (i : Z),
      n ← num_inputs i c;
      if n =? 0 then Ret (w, its)
      else
        fs ← index (inputs c) i;
        if c_level c + i =? 0 then
          '(st, more) ← open_inputs M fs (w_storage w);
          Ret (set_storage st w, its ++ more)
        else Ret (w, its ++ [Concat (new_version_iter fs (o_cmp (vs_opt vs)))])) (w, []) [0; 1];
  _ ← massert (zlen its <=? cap);
  Ret (w, MergingIter_new (vs_icmp vs) its).

End version_set.
