(* ===== verification/Builder.v ===== *)
(** * Builder: edits and the versions built from them

    The [Builder] of [src/version_set.rs] against its specification: a version is a map from
    levels and file numbers to file metadata, and an edit takes files out of it and puts
    files into it. *)

From Stdlib Require Import SpecFloat.
From S2P Require Import Prelude Encoding Error Io Env MemEnv Types Cmp KeyTypes Log Iterator Filter FilterBlock Options BlockBuilder Block Cache TableBuilder Table TableFile TableRead TableCache Version VersionEdit MergingIter VersionSet.

(** ** Sorting and merging by a key *)

Section sorting.
Context {c : Cmp} {OC : OrderedCmp c} {A : Type} (key : A → bytes).
Implicit Types l : list A.

Definition key_le (a b : A) : Prop := ord c (key a) (key b) ≠ Gt.
Abbreviation compare := (λ a b, cmp c (key a) (key b)) (only parsing).
Abbreviation keys_ok := (Forall (λ a, key_ok c (key a))) (only parsing).

Lemma key_le_trans x y z : key_le x y → key_le y z → key_le x z.
Proof. apply ord_le_trans. Qed.

Lemma insert_by_ok x l : key_ok c (key x) → keys_ok l → StronglySorted key_le l →
  ∃ l', insert_by compare x l = Ret l' ∧ l' ≡ₚ x :: l ∧ StronglySorted key_le l'.
Proof.
  intros Hx. induction l as [|y l IH]; intros Hk Hs; cbn [insert_by]; [exists [x]; split_and!; [done..|by repeat constructor]|].
  apply Forall_cons in Hk as [Hy Hk]. rewrite cmp_ret, bind_Ret by done. apply StronglySorted_inv in Hs as [Hs Hle].
  destruct (ord c (key x) (key y)) eqn:E.
  1-2: (exists (x :: y :: l); split_and!; [done..|]; assert (key_le x y) as Hxy by (unfold key_le; by rewrite E);
    constructor; [by constructor|]; constructor; [done|]; eapply Forall_impl; [exact Hle|]; intros z; by apply key_le_trans).
  destruct (IH Hk Hs) as (l' & -> & HP & Hs'). exists (y :: l'). split_and!; [done|rewrite HP; by constructor|].
  constructor; [done|]. rewrite HP. constructor; [|done]. unfold key_le. apply ord_Gt_Lt in E. by rewrite E.
Qed.

Lemma sort_by_ok l : keys_ok l → ∃ l', sort_by compare l = Ret l' ∧ l' ≡ₚ l ∧ StronglySorted key_le l'.
Proof.
  induction l as [|x l IH]; intros Hk; cbn [sort_by]; [exists []; split_and!; [done..|constructor]|]. apply Forall_cons in Hk as [Hx Hk].
  destruct (IH Hk) as (l1 & -> & P1 & S1). rewrite bind_Ret. destruct (insert_by_ok x l1 Hx) as (l2 & -> & P2 & S2); [by rewrite P1|done|].
  exists l2. split_and!; [done|by rewrite P2, P1|done].
Qed.

Lemma merge_iters_ok la : ∀ lb, keys_ok la → keys_ok lb → StronglySorted key_le la → StronglySorted key_le lb →
  ∃ l, merge_iters compare la lb = Ret l ∧ l ≡ₚ la ++ lb ∧ StronglySorted key_le l.
Proof.
  induction la as [|a la IHa]; intros lb Ha Hb Sa Sb; [by destruct lb; eexists|].
  induction lb as [|b lb IHb]; [exists (a :: la); by rewrite app_nil_r|].
  apply Forall_cons in Ha as [Ka Ha]. apply Forall_cons in Hb as [Kb Hb]. cbn [merge_iters]. rewrite cmp_ret, bind_Ret by done.
  pose proof (StronglySorted_inv Sa) as [Sa' Fa]. pose proof (StronglySorted_inv Sb) as [Sb' Fb].
  assert (∀ x y l, key_le x y → Forall (key_le y) l → Forall (key_le x) l) as Htr.
  { intros x y l Hxy Hy. eapply Forall_impl; [exact Hy|]. intros z. by apply key_le_trans. }
  destruct (ord c (key a) (key b)) eqn:E; cbn [is_lt].
  2: { destruct (IHa (b :: lb)) as (l & -> & P & S); [done|by constructor|done..|]. exists (a :: l). split_and!; [done|by rewrite P|].
       constructor; [done|]. rewrite P, Forall_app, Forall_cons. assert (key_le a b) by (unfold key_le; by rewrite E). eauto. }
  all: destruct IHb as (l & El & P & S); [done..|]; cbn [merge_iters] in El; rewrite El, bind_Ret; exists (b :: l).
  all: split_and!; [done|rewrite P; by rewrite Permutation_middle|constructor; [done|]; rewrite P, Forall_app, Forall_cons].
  all: assert (key_le b a) by (unfold key_le; rewrite (ord_antisym (key a) (key b)), E; done); eauto.
Qed.

End sorting.

(** ** Files by level and number *)

Abbreviation filemap := (gmap (Z * Z) FileMetaData) (only parsing).

(** What of a file is written to the manifest. *)
Definition core (f : FileMetaData) : FileMetaData := mkFile 0 (num f) (size f) (smallest f) (largest f).

Definition file_key (lf : Z * FileMetaData) : Z * Z := (lf.1, num lf.2).

(** The files after an edit. *)
Definition edit_map (m : filemap) (ve : VersionEdit) : filemap :=
  foldl (λ m lf, <[file_key lf := core lf.2]> m) (filter (λ kd, kd.1 ∉ deleted ve) m) (new_files ve).
Definition files_of (es : list VersionEdit) : filemap := foldl edit_map ∅ es.

(** Every file of the edits gets a new place. *)
Fixpoint fresh_edits (used : gset (Z * Z)) (es : list VersionEdit) : Prop :=
  match es with
  | [] => True
  | ve :: es =>
      let ks := file_key <$> new_files ve in
      NoDup ks ∧ Forall (.∉ used) ks ∧ fresh_edits (used ∪ list_to_set ks) es
  end.
Definition keys_used (es : list VersionEdit) : gset (Z * Z) := list_to_set (concat ((λ ve, file_key <$> new_files ve) <$> es)).

(** The levels that an edit names exist. *)
Definition level_ok (l : Z) : Prop := 0 ≤ l < NUM_LEVELS.
Record edit_levels (ve : VersionEdit) : Prop := {
  el_ptrs : Forall (λ c, level_ok (cp_level c)) (compaction_ptrs ve);
  el_deleted : set_Forall (λ d, level_ok d.1) (deleted ve);
  el_files : Forall (λ lf, level_ok lf.1) (new_files ve);
}.

(** The sum of the sizes of the files. *)
Definition map_bytes (m : filemap) : Z := foldr (λ kd a, size kd.2 + a) 0 (map_to_list m).

Section maps.
Context `{IEL : IntegerEncodingLaws} {u : Cmp} {UO : OrderedCmp u}.
Abbreviation icmp := (InternalKeyCmp u) (only parsing).

Definition meta_ok (d : FileMetaData) : Prop :=
  key_ok icmp (smallest d) ∧ key_ok icmp (largest d) ∧ ord icmp (smallest d) (largest d) ≠ Gt
  ∧ is_u 64 (size d) ∧ is_u 64 (num d) ∧ key_fits (smallest d) ∧ key_fits (largest d).

(** The files make sense: they are under their numbers, and from level 1 on their ranges are disjoint. *)
Record map_ok (m : filemap) : Prop := {
  mo_key l n d : m !! (l, n) = Some d → level_ok l ∧ num d = n ∧ core d = d ∧ meta_ok d;
  mo_disjoint l n d n' d' : m !! (l, n) = Some d → m !! (l, n') = Some d' → 0 < l → n ≠ n' →
    ord icmp (largest d) (smallest d') = Lt ∨ ord icmp (largest d') (smallest d) = Lt;
  mo_bytes : map_bytes m < 2 ^ 64;
}.

(** [fs] are the files of level [l] of the map. *)
Record level_files_of (M : Metas) (m : filemap) (l : Z) (fs : list FileMetaHandle) : Prop := {
  lf_nodup : NoDup ((λ f, num (M f)) <$> fs);
  lf_files n d : m !! (l, n) = Some d ↔ ∃ f, f ∈ fs ∧ num (M f) = n ∧ core (M f) = d;
  lf_disjoint : 0 < l → disjoint_files (u := u) M fs;
}.

(** The version has the files of the map; its handles are allocated. *)
Record represents (M : Metas) (fresh : nat) (v : Version) (m : filemap) : Prop := {
  rp_cmp : user_cmp v = u;
  rp_levels : length (v_files v) = Z.to_nat NUM_LEVELS;
  rp_files (l : nat) fs : v_files v !! l = Some fs → level_files_of M m (Z.of_nat l) fs;
  rp_live : Forall (Forall (λ f, (f < fresh)%nat)) (v_files v);
}.

End maps.

(** ** Applying edits *)

Definition at_level {A} (ls : list (list A)) (l : Z) : list A := default [] (ls !! Z.to_nat l).

Lemma at_level_index {A} (ls : list (list A)) l : length ls = Z.to_nat NUM_LEVELS → level_ok l → index ls l = Ret (at_level ls l).
Proof.
  intros Hl Ho. unfold level_ok in Ho. unfold at_level, index. ztest. destruct (lookup_lt_is_Some_2 ls (Z.to_nat l)) as [x ->]; [lia|done].
Qed.

Lemma at_level_set {A} (ls : list A) l x : length ls = Z.to_nat NUM_LEVELS → level_ok l →
  set_index ls l x = Ret (<[Z.to_nat l := x]> ls).
Proof. intros Hl Ho. unfold level_ok, set_index in *. change NUM_LEVELS with 7 in *. by ztest. Qed.

Lemma at_level_insert {A} (ls : list (list A)) l l' x : length ls = Z.to_nat NUM_LEVELS → level_ok l → 0 ≤ l' →
  at_level (<[Z.to_nat l := x]> ls) l' = if decide (l = l') then x else at_level ls l'.
Proof.
  intros Hl Ho Hl'. unfold at_level, level_ok in *. case_decide as E.
  - subst l'. rewrite list_lookup_insert_eq by lia. done.
  - rewrite list_lookup_insert_ne; [done|lia].
Qed.

(** Induction over a loop that does not fail. *)
Lemma mfoldl_inv {A B} (P : list A → B → Prop) (f : B → A → exec B) (l : list A) b :
  P [] b → (∀ done x rest b, l = done ++ x :: rest → P done b → ∃ b', f b x = Ret b' ∧ P (done ++ [x]) b') →
  ∃ b', mfoldl f b l = Ret b' ∧ P l b'.
Proof.
  intros H0 Hs. assert (∀ rest done b, l = done ++ rest → P done b → ∃ b', mfoldl f b rest = Ret b' ∧ P l b') as H.
  { induction rest as [|x rest IH]; intros dn b' E HP; [exists b'; rewrite app_nil_r in E; by subst|].
    destruct (Hs dn x rest b' E HP) as (b1 & E1 & HP1). cbn [mfoldl]. rewrite E1, bind_Ret. apply (IH (dn ++ [x])); [by rewrite <- app_assoc|done]. }
  by apply (H l []).
Qed.

Definition apply_ptrs (ptrs : list bytes) (cs : list CompactionPointer) : list bytes :=
  foldl (λ ptrs c, <[Z.to_nat (cp_level c) := cp_key c]> ptrs) ptrs cs.
Definition ptrs_of (es : list VersionEdit) : list bytes :=
  foldl (λ ptrs ve, apply_ptrs ptrs (compaction_ptrs ve)) (replicate (Z.to_nat NUM_LEVELS) []) es.

Lemma length_apply_ptrs cs ptrs : length (apply_ptrs ptrs cs) = length ptrs.
Proof. unfold apply_ptrs. revert ptrs. induction cs as [|c cs IH]; intros ptrs; cbn; [done|]. by rewrite IH, length_insert. Qed.

Lemma apply_ptrs_ok cs ptrs : length ptrs = Z.to_nat NUM_LEVELS → Forall (λ c, level_ok (cp_level c)) cs →
  mfoldl (λ ptrs c, set_index ptrs (cp_level c) (cp_key c)) ptrs cs = Ret (apply_ptrs ptrs cs).
Proof.
  intros Hl Hc. unfold apply_ptrs. revert ptrs Hl. induction Hc as [|c cs Hc Hcs IH]; intros ptrs Hl; cbn [mfoldl foldl]; [done|].
  rewrite at_level_set, bind_Ret by done. apply IH. by rewrite length_insert.
Qed.

Lemma delete_ok (ds : list (Z * Z)) (del : list (list Z)) : length del = Z.to_nat NUM_LEVELS → Forall (λ d, level_ok d.1) ds →
  ∃ del', mfoldl (λ del '(level, n), l ← index del level; set_index del level (l ++ [n])) del ds = Ret del'
    ∧ length del' = Z.to_nat NUM_LEVELS ∧ ∀ l n, 0 ≤ l → n ∈ at_level del' l ↔ n ∈ at_level del l ∨ (l, n) ∈ ds.
Proof.
  intros Hl Hd. apply (mfoldl_inv (λ (dn : list (Z * Z)) (del' : list (list Z)), length del' = Z.to_nat NUM_LEVELS ∧ ∀ l n, 0 ≤ l → n ∈ at_level del' l ↔ n ∈ at_level del l ∨ (l, n) ∈ dn)).
  - split; [done|]. intros l n _. set_solver.
  - intros dn [l0 n0] rest del1 -> [Hl1 H1]. apply Forall_app in Hd as [_ [Hx _]%Forall_cons]. cbn in Hx.
    rewrite (at_level_index del1), bind_Ret, at_level_set by done. eexists. split; [done|]. split; [by rewrite length_insert|].
    intros l n Hln. rewrite at_level_insert by done. rewrite elem_of_app, list_elem_of_singleton. case_decide as E.
    + subst l. rewrite elem_of_app, H1, list_elem_of_singleton by done. naive_solver.
    + rewrite H1 by done. naive_solver.
Qed.

Section apply.
Context `{IEL : IntegerEncodingLaws} {u : Cmp} {UO : OrderedCmp u} {E F : Type} (order : gset (Z * Z) → list (Z * Z)).
Context (order_ok : ∀ s, order s ≡ₚ elements s).
Implicit Types (w : World E F) (b : Builder) (m : filemap).

(** From the files [m0], with what the builder has recorded, come the files [m]; [used] are
    the places that had a file. *)
Record builder_inv (M : Metas) (fresh : nat) b (m0 : filemap) (used : gset (Z * Z)) m : Prop := {
  bi_deleted : length (b_deleted b) = Z.to_nat NUM_LEVELS;
  bi_added : length (b_added b) = Z.to_nat NUM_LEVELS;
  bi_live : Forall (Forall (λ h, (h < fresh)%nat)) (b_added b);
  bi_meta : Forall (Forall (λ h, meta_ok (u := u) (M h))) (b_added b);
  bi_map l n d : level_ok l → m !! (l, n) = Some d ↔
    n ∉ at_level (b_deleted b) l
    ∧ (m0 !! (l, n) = Some d ∨ ∃ h, h ∈ at_level (b_added b) l ∧ num (M h) = n ∧ core (M h) = d);
  bi_new l h : level_ok l → h ∈ at_level (b_added b) l → (l, num (M h)) ∈ used ∧ m0 !! (l, num (M h)) = None;
  bi_nodup l : level_ok l → NoDup ((λ h, num (M h)) <$> at_level (b_added b) l);
  bi_used0 k : is_Some (m0 !! k) → k ∈ used;
  bi_used k : is_Some (m !! k) → k ∈ used ∧ level_ok k.1;
}.

Lemma at_level_new {A} l : at_level (replicate (Z.to_nat NUM_LEVELS) ([] : list A)) l = [].
Proof. unfold at_level. destruct (_ !! _) as [x|] eqn:Ex; [|done]. by apply lookup_replicate in Ex as [-> _]. Qed.

Lemma builder_new M fresh m0 used : (∀ k, is_Some (m0 !! k) → k ∈ used ∧ level_ok k.1) → builder_inv M fresh Builder_new m0 used m0.
Proof.
  intros Hu. split; cbn [b_deleted b_added Builder_new]; try done.
  - by apply Forall_replicate.
  - by apply Forall_replicate.
  - intros l n d Hl. rewrite !at_level_new. split; [intros Hd; split; [by intros ?%elem_of_nil|by left]|].
    intros [_ [Hd|(h & Hh%elem_of_nil & _)]]; done.
  - intros l h _. rewrite at_level_new. by intros ?%elem_of_nil.
  - intros l _. rewrite at_level_new. constructor.
  - intros k Hk. by apply Hu.
Qed.

(** The deletions of an edit. *)
Lemma builder_delete M fresh b m0 used m (ds : list (Z * Z)) del' ds' :
  builder_inv M fresh b m0 used m → length del' = Z.to_nat NUM_LEVELS →
  (∀ l n, 0 ≤ l → n ∈ at_level del' l ↔ n ∈ at_level (b_deleted b) l ∨ (l, n) ∈ ds) → (∀ k, k ∈ ds ↔ k ∈ ds') →
  builder_inv M fresh {| b_deleted := del'; b_added := b_added b |} m0 used (filter (λ kd : (Z * Z) * FileMetaData, kd.1 ∉ (ds' : gset (Z * Z))) m).
Proof.
  intros I Hl Hd Hds. destruct I as [H1 H2 H3 H4 H5 H6 H7 H8 H9]. split; cbn [b_deleted b_added]; try done.
  - intros l n d Ho. rewrite map_lookup_filter_Some, H5, Hd by (unfold level_ok in *; lia || done). cbn. rewrite <- Hds. naive_solver.
  - intros k [d (Hk & _)%map_lookup_filter_Some]. apply H9. by eexists.
Qed.

Lemma Forall_at_level {A} (P : A → Prop) ls l : Forall (Forall P) ls → Forall P (at_level ls l).
Proof. intros H. unfold at_level. destruct (ls !! Z.to_nat l) eqn:Ex; [by eapply Forall_lookup_1 in H|constructor]. Qed.

(** One new file of an edit. *)
Lemma builder_add M fresh b m0 used m l f :
  builder_inv M fresh b m0 used m → level_ok l → meta_ok (u := u) f → (l, num f) ∉ used →
  builder_inv (set_meta fresh (seeks_for f) M) (S fresh)
    {| b_deleted := <[Z.to_nat l := filter (λ d, d ≠ num f) (at_level (b_deleted b) l)]> (b_deleted b);
       b_added := <[Z.to_nat l := at_level (b_added b) l ++ [fresh]]> (b_added b) |}
    m0 ({[(l, num f)]} ∪ used) (<[(l, num f) := core f]> m).
Proof.
  intros I Ho Hm Hf. destruct I as [H1 H2 H3 H4 H5 H6 H7 H8 H9]. set (M' := set_meta fresh (seeks_for f) M).
  assert (M' fresh = seeks_for f) as EM by (unfold M', set_meta; by rewrite decide_True).
  assert (∀ l h, h ∈ at_level (b_added b) l → M' h = M h) as EM'.
  { intros l' h Hh. pose proof (Forall_at_level _ _ l' H3) as Hlv. rewrite Forall_forall in Hlv. specialize (Hlv h Hh).
    unfold M', set_meta. rewrite decide_False; [done|lia]. }
  assert (∀ l', level_ok l' → 0 ≤ l') as Hpos by (intros l' [? _]; done).
  split; cbn [b_deleted b_added]; try (by rewrite length_insert).
  - apply Forall_insert; [eapply Forall_impl; [exact H3|]; intros fs Hfs; eapply Forall_impl; [exact Hfs|]; cbn; lia|].
    rewrite Forall_app. split; [|repeat constructor]. eapply Forall_impl; [by apply (Forall_at_level _ _ l H3)|]. intros; cbn in *; lia.
  - assert (Forall (Forall (λ h, meta_ok (u := u) (M' h))) (b_added b)) as H4'.
    { apply Forall_lookup. intros i fs Hi. apply Forall_forall. intros h Hh. rewrite (EM' (Z.of_nat i)); [|unfold at_level; by rewrite Nat2Z.id, Hi].
      rewrite Forall_lookup in H4. specialize (H4 i fs Hi). by rewrite Forall_forall in H4; apply H4. }
    apply Forall_insert; [done|]. rewrite Forall_app. split; [by apply Forall_at_level|]. constructor; [by rewrite EM|constructor].
  - intros l' n d Ho'. rewrite !at_level_insert by auto. destruct (decide (l = l')) as [<-|Hne].
    + destruct (decide (n = num f)) as [->|Hn].
      * rewrite lookup_insert_eq, list_elem_of_filter. split.
        -- intros [= <-]. split; [naive_solver|]. right. exists fresh. rewrite EM. split; [set_solver|]. done.
        -- intros [_ [Hm0|(h & Hh & En & Ec)]]; [exfalso; apply Hf, H8; by eexists|].
           apply elem_of_app in Hh as [Hh|Hh%list_elem_of_singleton]; [|subst h; by rewrite EM in Ec; rewrite <- Ec].
           rewrite (EM' l) in En by done. exfalso. apply Hf. rewrite <- En. by apply H6.
      * rewrite lookup_insert_ne by congruence. rewrite H5, list_elem_of_filter by done. split.
        -- intros [Hd Hx]. split; [naive_solver|]. destruct Hx as [Hx|(h & Hh & En & Ec)]; [by left|]. right. exists h. rewrite (EM' l) by done. set_solver.
        -- intros [Hd Hx]. split; [naive_solver|]. destruct Hx as [Hx|(h & Hh & En & Ec)]; [by left|]. right.
           apply elem_of_app in Hh as [Hh|Hh%list_elem_of_singleton]; [|subst h; rewrite EM in En; by rewrite <- En in Hn]. rewrite (EM' l) in En, Ec by done. by exists h.
    + rewrite lookup_insert_ne by congruence. rewrite H5 by done. split; (intros [Hd Hx]; split; [done|]; destruct Hx as [Hx|(h & Hh & En & Ec)]; [by left|]; right; exists h).
      * by rewrite (EM' l').
      * by rewrite (EM' l') in En, Ec.
  - intros l' h Ho'. rewrite at_level_insert by auto. case_decide as El.
    + subst l'. intros [Hh|Hh%list_elem_of_singleton]%elem_of_app.
      * rewrite (EM' l) by done. destruct (H6 l h Ho Hh). set_solver.
      * subst h. rewrite EM. cbn. split; [set_solver|]. destruct (m0 !! (l, num f)) eqn:Ex; [|done]. exfalso. apply Hf, H8. by eexists.
    + intros Hh. rewrite (EM' l') by done. destruct (H6 l' h Ho' Hh). set_solver.
  - intros l' Ho'. rewrite at_level_insert by auto. assert (∀ l, (λ h, num (M' h)) <$> at_level (b_added b) l = (λ h, num (M h)) <$> at_level (b_added b) l) as Hmap.
    { intros l1. apply list_fmap_ext. intros i h Hi. by rewrite (EM' l1) by (by eapply list_elem_of_lookup_2). }
    case_decide as El; [|by rewrite Hmap; apply H7]. subst l'. rewrite fmap_app, NoDup_app, Hmap. split_and!; [by apply H7| |by apply NoDup_singleton].
    intros n (h & En & Hh)%list_elem_of_fmap En2%list_elem_of_singleton. rewrite EM in En2. cbn in En2. apply Hf.
    destruct (H6 l h Ho Hh) as [Hu _]. congruence.
  - intros k Hk. apply elem_of_union. right. by apply H8.
  - intros k. destruct (decide (k = (l, num f))) as [->|Hne]; [intros _; split; [set_solver|done]|].
    rewrite lookup_insert_ne by done. intros [? ?]%H9. set_solver.
Qed.
(** The world changes by new metadata only. *)
Record allocated w w' : Prop := {
  al_storage : w_storage w' = w_storage w;
  al_versions : w_versions w' = w_versions w;
  al_fresh : (w_fresh w ≤ w_fresh w')%nat;
  al_metas h : (h < w_fresh w)%nat → w_metas w' h = w_metas w h;
}.

Lemma allocated_refl w : allocated w w.
Proof. by split. Qed.

Lemma allocated_trans w1 w2 w3 : allocated w1 w2 → allocated w2 w3 → allocated w1 w3.
Proof.
  intros [A1 A2 A3 A4] [B1 B2 B3 B4]. split; [congruence|congruence|lia|]. intros h Hh. rewrite B4 by lia. by apply A4.
Qed.

Lemma builder_apply_ok edit ptrs b w m0 used m :
  builder_inv (w_metas w) (w_fresh w) b m0 used m → length ptrs = Z.to_nat NUM_LEVELS → edit_levels edit →
  Forall (λ lf, meta_ok (u := u) lf.2) (new_files edit) → NoDup (file_key <$> new_files edit) → Forall (.∉ used) (file_key <$> new_files edit) →
  ∃ w' b', builder_apply order edit ptrs b w = Ret (w', (b', apply_ptrs ptrs (compaction_ptrs edit)))
    ∧ builder_inv (w_metas w') (w_fresh w') b' m0 (used ∪ list_to_set (file_key <$> new_files edit)) (edit_map m edit)
    ∧ allocated w w'.
Proof.
  intros I Hp [L1 L2 L3] Hm Hn Hu. unfold builder_apply. rewrite apply_ptrs_ok, bind_Ret by done.
  destruct (delete_ok (order (deleted edit)) (b_deleted b)) as (del & -> & Hl & Hd);
    [exact (bi_deleted _ _ _ _ _ _ I)|rewrite order_ok; apply Forall_forall; intros d Hd; apply L2; by apply elem_of_elements|].
  rewrite bind_Ret. set (b0 := {| b_deleted := del; b_added := b_added b |}).
  assert (builder_inv (w_metas w) (w_fresh w) b0 m0 used (filter (λ kd, kd.1 ∉ deleted edit) m)) as I0.
  { eapply builder_delete; [exact I|done|exact Hd|]. intros k. by rewrite order_ok, elem_of_elements. }
  destruct (mfoldl_inv (λ dn '(w', b'), builder_inv (w_metas w') (w_fresh w') b' m0 (used ∪ list_to_set (file_key <$> dn))
      (foldl (λ m lf, <[file_key lf := core lf.2]> m) (filter (λ kd, kd.1 ∉ deleted edit) m) dn) ∧ allocated w w')
    (λ '(w, b) '(level, f),
      let f := seeks_for f in
      dl ← index (b_deleted b) level;
      del ← set_index (b_deleted b) level (filter (λ d, d ≠ num f) dl);
      al ← index (b_added b) level;
      let (w, h) := share_meta f w in
      add ← set_index (b_added b) level (al ++ [h]);
      Ret (w, {| b_deleted := del; b_added := add |})) (new_files edit) (w, b0)) as ([w' b'] & E' & I' & A').
  - cbn. rewrite (right_id_L ∅ (∪)). split; [done|apply allocated_refl].
  - intros dn [l f] rest [w1 b1] En [I1 A1]. rewrite En, !fmap_app, ?fmap_cons in *. cbn [file_key fst snd] in *.
    apply Forall_app in L3 as [_ [Hlf _]%Forall_cons]. apply Forall_app in Hm as [_ [Hmf _]%Forall_cons]. cbn in Hlf, Hmf.
    apply Forall_app in Hu as [_ [Huf _]%Forall_cons]. apply NoDup_app in Hn as (_ & Hnd & _).
    assert ((l, num f) ∉ used ∪ list_to_set (file_key <$> dn)) as Hfr.
    { intros [?|Hx%elem_of_list_to_set]%elem_of_union; [done|]. apply (Hnd (l, num f)); [done|]. by left. }
    pose proof (builder_add _ _ _ _ _ _ l f I1 Hlf Hmf Hfr) as I2. destruct I1 as [D1 D2 _ _ _ _ _ _ _].
    rewrite (at_level_index (b_deleted b1)), bind_Ret, at_level_set, bind_Ret, (at_level_index (b_added b1)), bind_Ret by done.
    cbn [share_meta]. rewrite at_level_set, bind_Ret by done. eexists. split; [reflexivity|]. rewrite foldl_app. cbn [foldl w_metas w_fresh file_key fst snd]. split.
    + rewrite list_to_set_app_L, (assoc_L (∪)). cbn [fmap list_fmap list_to_set file_key fst snd]. rewrite (right_id_L ∅ (∪)), (comm_L (∪)). exact I2.
    + eapply allocated_trans; [exact A1|]. split; cbn; [done..|lia|]. intros h Hh. unfold set_meta. rewrite decide_False; [done|lia].
  - cbv zeta in E'. rewrite E', bind_Ret. by exists w', b'.
Qed.

End apply.

(** ** Building the new version *)

Section save.
Context `{IEL : IntegerEncodingLaws} {u : Cmp} {UO : OrderedCmp u} (M : Metas).
Abbreviation icmp := (InternalKeyCmp u) (only parsing).
Implicit Types (b : Builder) (m : filemap) (fs : list FileMetaHandle).

Abbreviation by_smallest := (key_le (c := icmp) (λ f, smallest (M f))) (only parsing).

(** Files in the order of their smallest keys whose ranges are disjoint are disjoint in order. *)
Lemma sorted_disjoint fs :
  Forall (λ f, meta_ok (u := u) (M f)) fs → StronglySorted by_smallest fs → NoDup ((λ f, num (M f)) <$> fs) →
  (∀ f g, f ∈ fs → g ∈ fs → num (M f) ≠ num (M g) →
    ord icmp (largest (M f)) (smallest (M g)) = Lt ∨ ord icmp (largest (M g)) (smallest (M f)) = Lt) →
  disjoint_files (u := u) M fs.
Proof.
  intros Hm Hs. induction Hs as [|f fs Hs IH Hf]; intros Hn Hd; [constructor|]. apply Forall_cons in Hm as [Hmf Hm]. rewrite fmap_cons in Hn. apply NoDup_cons in Hn as [Hnf Hn].
  constructor; [apply IH; [done..|]; intros; apply Hd; [by right..|done]|]. rewrite Forall_forall in Hm, Hf |- *. intros g Hg.
  destruct (Hd f g) as [?|Hgf]; [by left|by right|intros E; apply Hnf; rewrite E; by apply (list_elem_of_fmap_2 (λ f, num (M f)))|done|].
  exfalso. destruct (Hm g Hg) as (_ & _ & Hle & _). apply (Hf g Hg). apply ord_Gt_Lt. eapply ord_le_lt; [exact Hle|done].
Qed.

(** What remains of the merged files of a level. *)
Definition kept_files (del : list Z) fs : list FileMetaHandle := filter (λ f, num (M f) ∉ del) fs.

Lemma maybe_add_ok b l merged (v : Version) :
  length (v_files v) = Z.to_nat NUM_LEVELS → length (b_deleted b) = Z.to_nat NUM_LEVELS → level_ok l → at_level (v_files v) l = [] →
  Forall (λ f, meta_ok (u := u) (M f)) merged → (0 < l → disjoint_files (u := u) M (kept_files (at_level (b_deleted b) l) merged)) →
  mfoldl (λ v f, maybe_add_file M icmp b l f v) v merged
  = Ret (with_files (<[Z.to_nat l := kept_files (at_level (b_deleted b) l) merged]> (v_files v)) v).
Proof.
  intros Hv Hb Ho He Hm Hd. set (D := at_level (b_deleted b) l) in *.
  destruct (mfoldl_inv (λ dn v', v' = with_files (<[Z.to_nat l := kept_files D dn]> (v_files v)) v)
    (λ v f, maybe_add_file M icmp b l f v) merged v) as (v' & -> & ->); [| |done].
  - cbn. unfold at_level in He. rewrite list_insert_id; [by destruct v|].
    destruct (lookup_lt_is_Some_2 (v_files v) (Z.to_nat l)) as [x Hx]; [unfold level_ok in Ho; lia|]. rewrite Hx in He |- *. cbn in He. by rewrite He.
  - intros dn f rest v1 -> ->. unfold maybe_add_file. rewrite (at_level_index (b_deleted b)), bind_Ret by done. fold D.
    unfold kept_files in *. rewrite !filter_app in Hd. rewrite filter_app, filter_cons.
    case_bool_decide as Hin; [rewrite decide_False by tauto; rewrite filter_nil, app_nil_r; by eexists|].
    rewrite decide_True by done. cbn [v_files with_files]. rewrite at_level_index, bind_Ret by (done || by rewrite length_insert).
    rewrite at_level_insert, decide_True by (done || unfold level_ok in *; lia). rewrite filter_cons, decide_True in Hd by done.
    apply Forall_app in Hm as [Hm1 [Hmf _]%Forall_cons]. set (kd := filter (λ f, num (M f) ∉ D) dn) in *.
    assert (match last kd with Some g => if 0 <? l then o ← cmp icmp (largest (M g)) (smallest (M f)); massert (is_lt o) else Ret () | None => Ret () end = Ret ()) as ->.
    { destruct (last kd) as [g|] eqn:Eg; [|done]. destruct (Z.ltb_spec 0 l) as [Hl|]; [|done]. apply last_Some in Eg as [kd' Ek].
      specialize (Hd Hl). unfold disjoint_files in Hd. rewrite Ek, <- app_assoc in Hd. apply StronglySorted_app in Hd as (_ & _ & Hd).
      cbn [app] in Hd. apply StronglySorted_inv in Hd as [_ Hg]. apply Forall_cons in Hg as [Hg _].
      assert (g ∈ dn) as Hgd by (apply (list_elem_of_filter (λ f, num (M f) ∉ D)); fold kd; rewrite Ek; set_solver).
      rewrite Forall_forall in Hm1. destruct (Hm1 g Hgd) as (_ & Kg & _). destruct Hmf as (Kf & _). rewrite cmp_ret, bind_Ret by done. by rewrite Hg. }
    rewrite bind_Ret, at_level_set, bind_Ret by (done || by rewrite length_insert). eexists. split; [done|]. rewrite list_insert_insert_eq. done.
Qed.

Lemma check_disjoint_ok fs : Forall (λ f, meta_ok (u := u) (M f)) fs → disjoint_files (u := u) M fs → check_disjoint M icmp fs = Ret ().
Proof.
  intros Hm Hd. induction Hd as [|f fs Hd IH Hf]; [done|]. apply Forall_cons in Hm as [(_ & Kf & _) Hm]. destruct fs as [|g fs]; [done|].
  cbn [check_disjoint]. apply Forall_cons in Hf as [Hg _]. pose proof Hm as [(Kg & _) _]%Forall_cons. rewrite cmp_ret, bind_Ret by done.
  rewrite Hg. cbn [is_lt massert]. rewrite bind_Ret. by apply IH.
Qed.

Lemma meta_ok_core d : meta_ok (u := u) (core d) ↔ meta_ok (u := u) d.
Proof. done. Qed.

(** The files of a version of good files are good. *)
Lemma represents_meta fresh (v : Version) m l : map_ok (u := u) m → represents (u := u) M fresh v m → level_ok l →
  level_files_of (u := u) M m l (at_level (v_files v) l) ∧ Forall (λ f, meta_ok (u := u) (M f)) (at_level (v_files v) l).
Proof.
  intros Hm R Ho. unfold level_ok in Ho. destruct (lookup_lt_is_Some_2 (v_files v) (Z.to_nat l)) as [fs Hfs]; [rewrite (rp_levels _ _ _ _ R); lia|].
  assert (level_files_of (u := u) M m l (at_level (v_files v) l)) as L.
  { pose proof (rp_files _ _ _ _ R _ _ Hfs) as L. rewrite Z2Nat.id in L by lia. unfold at_level. by rewrite Hfs. }
  split; [done|]. apply Forall_forall. intros f Hf. apply meta_ok_core.
  destruct (mo_key _ Hm l (num (M f)) (core (M f))) as (_ & _ & _ & ?); [|done]. apply (lf_files _ _ _ _ L). by exists f.
Qed.

(** The files that the merge of a level keeps. *)
Lemma merged_files fresh b (base : Version) m0 used m l added basefiles merged :
  builder_inv (u := u) M fresh b m0 used m → map_ok (u := u) m0 → represents (u := u) M fresh base m0 → map_ok (u := u) m → level_ok l →
  added ≡ₚ at_level (b_added b) l → basefiles ≡ₚ at_level (v_files base) l → merged ≡ₚ added ++ basefiles → StronglySorted by_smallest merged →
  let fs := kept_files (at_level (b_deleted b) l) merged in
  level_files_of (u := u) M m l fs ∧ Forall (λ f, meta_ok (u := u) (M f)) fs ∧ Forall (λ f, (f < fresh)%nat) fs.
Proof.
  intros I Hm0 R Hm Ho Pa Pb Pm Hs fs. destruct (represents_meta fresh base m0 l Hm0 R Ho) as [L Hb].
  assert (∀ f, f ∈ fs ↔ num (M f) ∉ at_level (b_deleted b) l ∧ (f ∈ at_level (b_added b) l ∨ f ∈ at_level (v_files base) l)) as Hin.
  { intros f. unfold fs, kept_files. rewrite list_elem_of_filter, Pm, elem_of_app, Pa, Pb. done. }
  assert (∀ n d, m !! (l, n) = Some d ↔ ∃ f, f ∈ fs ∧ num (M f) = n ∧ core (M f) = d) as Hmap.
  { intros n d. rewrite (bi_map _ _ _ _ _ _ I l n d Ho), (lf_files _ _ _ _ L n d). setoid_rewrite Hin. naive_solver. }
  assert (Forall (λ f, meta_ok (u := u) (M f)) fs) as Hmeta.
  { apply Forall_forall. intros f [_ [Hf|Hf]]%Hin; [|by rewrite Forall_forall in Hb; apply Hb].
    pose proof (Forall_at_level _ _ l (bi_meta _ _ _ _ _ _ I)) as Ha. rewrite Forall_forall in Ha. by apply Ha. }
  assert (NoDup ((λ f, num (M f)) <$> fs)) as Hnd.
  { apply (sublist_NoDup _ ((λ f, num (M f)) <$> merged)); [|apply fmap_sublist, sublist_filter]. rewrite Pm, Pa, Pb, fmap_app. apply NoDup_app.
    split_and!; [by apply (bi_nodup _ _ _ _ _ _ I)| |exact (lf_nodup _ _ _ _ L)].
    intros n (h & -> & Hh)%list_elem_of_fmap (f & En & Hf)%list_elem_of_fmap. destruct (bi_new _ _ _ _ _ _ I l h Ho Hh) as [_ Hnone].
    assert (m0 !! (l, num (M h)) = Some (core (M f))) as Hsome; [|congruence]. apply (lf_files _ _ _ _ L). by exists f. }
  split_and!; [|done|].
  - split; [done|done|]. intros Hl. apply sorted_disjoint; [done| |done|].
    + by apply sorted_filter.
    + intros f g Hf Hg Hne. eapply (mo_disjoint _ Hm l (num (M f)) (core (M f)) (num (M g)) (core (M g))); [apply Hmap; by exists f|apply Hmap; by exists g|done..].
  - apply Forall_forall. intros f [_ [Hf|Hf]]%Hin.
    + pose proof (Forall_at_level _ _ l (bi_live _ _ _ _ _ _ I)) as Ha. rewrite Forall_forall in Ha. by apply Ha.
    + pose proof (Forall_at_level _ _ l (rp_live _ _ _ _ R)) as Ha. rewrite Forall_forall in Ha. by apply Ha.
Qed.

(** A loop state of [save_to] after the levels [dn]. *)
Definition saved fresh b (base : Version) m0 m (dn : list nat) (s : Builder * Version * Version) : Prop :=
  let '(b', base', v) := s in
  b_deleted b' = b_deleted b ∧ length (b_added b') = Z.to_nat NUM_LEVELS ∧ (∀ l, level_ok l → at_level (b_added b') l ≡ₚ at_level (b_added b) l)
  ∧ represents (u := u) M fresh base' m0 ∧ (∀ l, level_ok l → at_level (v_files base') l ≡ₚ at_level (v_files base) l)
  ∧ user_cmp v = u ∧ length (v_files v) = Z.to_nat NUM_LEVELS
  ∧ ∀ l : nat, level_ok (Z.of_nat l) →
      (l ∈ dn → level_files_of (u := u) M m (Z.of_nat l) (at_level (v_files v) (Z.of_nat l)) ∧ Forall (λ f, (f < fresh)%nat) (at_level (v_files v) (Z.of_nat l)))
      ∧ (l ∉ dn → at_level (v_files v) (Z.of_nat l) = []).

(** Sorting the files of a level of a version. *)
Lemma represents_sorted fresh (v : Version) m l fs :
  map_ok (u := u) m → represents (u := u) M fresh v m → level_ok l → fs ≡ₚ at_level (v_files v) l → StronglySorted by_smallest fs →
  represents (u := u) M fresh (with_files (<[Z.to_nat l := fs]> (v_files v)) v) m.
Proof.
  intros Hm R Ho P Hs. destruct (represents_meta fresh v m l Hm R Ho) as [[L1 L2 L3] Hmeta]. pose proof Ho as [Hl0 Hl7].
  split; cbn [user_cmp v_files with_files]; [exact (rp_cmp _ _ _ _ R)|rewrite length_insert; exact (rp_levels _ _ _ _ R)| |].
  - intros i gs Hi. apply list_lookup_insert_Some in Hi as [(<- & <- & _)|[_ Hi]]; [|exact (rp_files _ _ _ _ R _ _ Hi)].
    rewrite Z2Nat.id by lia. assert (NoDup ((λ f, num (M f)) <$> fs)) as Hnd by (by rewrite P). split; [done|intros n d; rewrite L2; by setoid_rewrite P|].
    intros Hl. apply sorted_disjoint; [by rewrite P|done..|]. intros f g Hf Hg Hne. rewrite P in Hf, Hg.
    eapply (mo_disjoint _ Hm l (num (M f)) (core (M f)) (num (M g)) (core (M g))); [apply L2; by exists f|apply L2; by exists g|done..].
  - apply Forall_insert; [exact (rp_live _ _ _ _ R)|]. rewrite P. apply Forall_at_level. exact (rp_live _ _ _ _ R).
Qed.

Lemma save_to_ok fresh b (base : Version) m0 used m :
  builder_inv (u := u) M fresh b m0 used m → map_ok (u := u) m0 → represents (u := u) M fresh base m0 → map_ok (u := u) m →
  ∃ b' base' v, save_to M icmp base (Version_new u) b = Ret (b', base', v)
    ∧ represents (u := u) M fresh v m ∧ represents (u := u) M fresh base' m0.
Proof.
  intros I Hm0 R Hm. unfold save_to.
  match goal with |- context [mfoldl ?g ?s ?l] => destruct (mfoldl_inv (saved fresh b base m0 m) g l s) as ([[b' base'] v] & -> & S) end.
  - unfold saved. split_and!; try done; [exact (bi_added _ _ _ _ _ _ I)|]. intros l Hl. split; [by intros ?%elem_of_nil|]. intros _. apply at_level_new.
  - intros dn lv rest [[b1 base1] v1] Es (S1 & S2 & S3 & S4 & S5 & S6 & S7 & S8). set (l := Z.of_nat lv).
    assert (level_ok l ∧ lv ∉ dn) as [Ho Hdn].
    { assert (NoDup (seq 0 (Z.to_nat NUM_LEVELS))) as Hnd by apply NoDup_seq. rewrite Es in Hnd. apply NoDup_app in Hnd as (_ & Hnd & _).
      assert (lv ∈ seq 0 (Z.to_nat NUM_LEVELS)) as Hin%elem_of_seq by (rewrite Es; set_solver). split; [unfold level_ok, l; lia|].
      intros Hx. apply (Hnd lv Hx). by left. }
    pose proof (Forall_at_level _ _ l (bi_meta _ _ _ _ _ _ I)) as Ka. destruct (represents_meta fresh base m0 l Hm0 R Ho) as [_ Kb].
    assert (∀ fs, Forall (λ f, meta_ok (u := u) (M f)) fs → Forall (λ f, key_ok icmp (smallest (M f))) fs) as Hkey.
    { intros fs Hfs. eapply Forall_impl; [exact Hfs|]. by intros f (? & _). }
    rewrite (at_level_index (b_added b1)), bind_Ret by done. unfold sort_files_by_smallest.
    destruct (sort_by_ok (c := icmp) (λ f, smallest (M f)) (at_level (b_added b1) l)) as (added & -> & Pa & Sa); [apply Hkey; by rewrite S3|].
    rewrite bind_Ret, at_level_set, bind_Ret, at_level_index, bind_Ret by (done || exact (rp_levels _ _ _ _ S4)). rewrite S3 in Pa by done.
    destruct (sort_by_ok (c := icmp) (λ f, smallest (M f)) (at_level (v_files base1) l)) as (bfs & -> & Pb & Sb); [apply Hkey; by rewrite S5|].
    pose proof (represents_sorted fresh base1 m0 l bfs Hm0 S4 Ho Pb Sb) as R1. rewrite S5 in Pb by done.
    rewrite bind_Ret, at_level_set, bind_Ret by (done || exact (rp_levels _ _ _ _ S4)).
    destruct (merge_iters_ok (c := icmp) (λ f, smallest (M f)) added bfs) as (merged & -> & Pm & Sm); [apply Hkey; by rewrite ?Pa, ?Pb..|done|done|].
    rewrite bind_Ret. destruct (merged_files fresh b base m0 used m l added bfs merged I Hm0 R Hm Ho Pa Pb Pm Sm) as (L & Kf & Lf).
    set (b2 := {| b_deleted := b_deleted b1; b_added := <[Z.to_nat l := added]> (b_added b1) |}).
    assert (at_level (b_deleted b2) l = at_level (b_deleted b) l) as ED by (cbn; by rewrite S1).
    rewrite (maybe_add_ok b2 l merged v1), bind_Ret; [|done|cbn; rewrite S1; exact (bi_deleted _ _ _ _ _ _ I)|done|by apply S8|rewrite Pm, Forall_app, Pa, Pb; done|rewrite ED; apply L].
    rewrite ED. set (fs := kept_files (at_level (b_deleted b) l) merged) in *.
    set (v2 := with_files (<[Z.to_nat l := fs]> (v_files v1)) v1).
    assert (saved fresh b base m0 m (dn ++ [lv]) (b2, with_files (<[Z.to_nat l := bfs]> (v_files base1)) base1, v2)) as S'.
    { assert (∀ i : nat, Z.of_nat i = l → i = lv) as Hi by (unfold l; lia).
      split_and!; cbn [b_deleted b_added v_files user_cmp with_files b2 v2]; try done; try (by rewrite length_insert).
      - intros l' Ho'. rewrite at_level_insert by (done || apply Ho'). case_decide; [by subst|by apply S3].
      - intros l' Ho'. rewrite at_level_insert by (exact (rp_levels _ _ _ _ S4) || done || apply Ho'). case_decide; [by subst|by apply S5].
      - intros i Hoi. rewrite at_level_insert by (done || lia). destruct (decide (l = Z.of_nat i)) as [E|E].
        + rewrite <- E. split; [done|]. intros Hx. exfalso. apply Hx. assert (i = lv) as -> by (by apply Hi). set_solver.
        + assert (i ≠ lv) by (intros ->; by apply E). destruct (S8 i Hoi) as [A B]. split; [intros [?|?%list_elem_of_singleton]%elem_of_app; [by apply A|done]|].
          intros Hx. apply B. set_solver. }
    destruct (Z.eqb_spec l 0) as [E0|E0]; [by eexists|]. rewrite at_level_index, bind_Ret by (done || cbn; by rewrite length_insert).
    cbn [v_files with_files v2]. rewrite at_level_insert, decide_True by (done || apply Ho). rewrite check_disjoint_ok, bind_Ret; [by eexists|done|].
    apply L. unfold level_ok in Ho. lia.
  - exists b', base', v. destruct S as (_ & _ & _ & R' & _ & Hc & Hl & S8). split_and!; [done| |done].
    assert (∀ i fs, v_files v !! i = Some fs → i ∈ seq 0 (Z.to_nat NUM_LEVELS) ∧ level_ok (Z.of_nat i) ∧ at_level (v_files v) (Z.of_nat i) = fs) as Hat.
    { intros i fs Hi. pose proof (lookup_lt_Some _ _ _ Hi). split_and!; [apply elem_of_seq; lia|unfold level_ok; change NUM_LEVELS with 7 in *; lia|].
      unfold at_level. by rewrite Nat2Z.id, Hi. }
    split; [done|done| |].
    + intros i fs Hi. destruct (Hat i fs Hi) as (Hin & Ho & <-). by apply S8.
    + apply Forall_lookup. intros i fs Hi. destruct (Hat i fs Hi) as (Hin & Ho & <-). by apply S8.
Qed.

(** The sizes of the files of a level. *)
Lemma sizes_perm {A} (g : A → Z) l l' : l ≡ₚ l' → foldr (λ x a, g x + a) 0 l = foldr (λ x a, g x + a) 0 l'.
Proof. induction 1; cbn; lia. Qed.

Lemma sizes_app {A} (g : A → Z) l l' : foldr (λ x a, g x + a) 0 (l ++ l') = foldr (λ x a, g x + a) 0 l + foldr (λ x a, g x + a) 0 l'.
Proof. induction l; cbn; lia. Qed.

Lemma level_bytes m l fs : map_ok (u := u) m → level_files_of (u := u) M m l fs →
  Forall (λ f, 0 ≤ size (M f)) fs ∧ 0 ≤ sum_sizes M fs ≤ map_bytes m.
Proof.
  intros Hm [L1 L2 _].
  assert (Forall (λ kd : (Z * Z) * FileMetaData, 0 ≤ size kd.2) (map_to_list m)) as Hpos.
  { apply Forall_forall. intros [[l0 n] d] Hd%elem_of_map_to_list. destruct (mo_key _ Hm _ _ _ Hd) as (_ & _ & _ & _ & _ & _ & [? _] & _). done. }
  assert (∀ f, f ∈ fs → ((l, num (M f)), core (M f)) ∈ map_to_list m) as Hin.
  { intros f Hf. apply elem_of_map_to_list, L2. by exists f. }
  assert (Forall (λ f, 0 ≤ size (M f)) fs) as Hfs.
  { apply Forall_forall. intros f Hf. rewrite Forall_forall in Hpos. apply (Hpos _ (Hin f Hf)). }
  split; [done|]. set (ks := (λ f, ((l, num (M f)), core (M f))) <$> fs).
  assert (sum_sizes M fs = foldr (λ kd a, size kd.2 + a) 0 ks) as ->.
  { unfold ks, sum_sizes. clear. induction fs as [|f fs IH]; cbn; [done|]. by rewrite IH. }
  assert (ks ⊆+ map_to_list m) as Hsub.
  { apply NoDup_submseteq; [|intros x (f & -> & Hf)%list_elem_of_fmap; by apply Hin].
    apply (NoDup_fmap_1 (λ kd : (Z * Z) * FileMetaData, kd.1.2)). unfold ks. rewrite <- list_fmap_compose. exact L1. }
  apply submseteq_Permutation in Hsub as [k Hk]. unfold map_bytes. rewrite (sizes_perm (λ kd : (Z * Z) * FileMetaData, size kd.2) _ _ Hk), sizes_app.
  rewrite Hk, Forall_app in Hpos. destruct Hpos as [H1 H2].
  assert (∀ l, Forall (λ kd : (Z * Z) * FileMetaData, 0 ≤ size kd.2) l → 0 ≤ foldr (λ kd a, size kd.2 + a) 0 l) as Hnn.
  { intros l0. induction 1; cbn; lia. }
  pose proof (Hnn _ H1). pose proof (Hnn _ H2). lia.
Qed.

Lemma finalize_ok fresh (v : Version) m : map_ok (u := u) m → represents (u := u) M fresh v m →
  ∃ v', finalize M v = Ret v' ∧ represents (u := u) M fresh v' m ∧ v_files v' = v_files v.
Proof.
  intros Hm R. unfold finalize. match goal with |- context [mfoldl ?g ?s ?l] => destruct (mfoldl_inv (λ _ _, True) g l s I) as (best & -> & _) end.
  - intros dn l rest best Es _. assert (l ∈ seq 0 (Z.to_nat NUM_LEVELS - 1)) as Hl%elem_of_seq by (rewrite Es; set_solver).
    assert (level_ok (Z.of_nat l)) as Ho by (unfold level_ok; change NUM_LEVELS with 7 in *; lia).
    destruct (represents_meta fresh v m _ Hm R Ho) as [L _]. destruct (level_bytes m _ _ Hm L) as [Hp Hs]. pose proof (mo_bytes _ Hm).
    unfold level_score, level_files. rewrite at_level_index, bind_Ret by (done || exact (rp_levels _ _ _ _ R)).
    destruct l as [|l]; [rewrite bind_Ret; by eexists|]. unfold total_size. rewrite total_size_from by (done || lia). rewrite !bind_Ret. by eexists.
  - rewrite bind_Ret. eexists. split; [done|]. split; [|done]. destruct R as [R1 R2 R3 R4]. by split.
Qed.

(** [save_to] fills in files and nothing else. *)
Lemma mfoldl_pres {A B} (P : A → Prop) (f : A → B → exec A) (Hf : ∀ a x a', P a → f a x = Ret a' → P a') l : ∀ a a', P a → mfoldl f a l = Ret a' → P a'.
Proof.
  induction l as [|x l IH]; intros a a' Ha H; cbn [mfoldl] in H; [by injection H as <-|]. exec_inv H. eapply IH; [|exact Hk]. by eapply Hf.
Qed.

Lemma save_to_fields base v b b' base' v' : save_to M icmp base v b = Ret (b', base', v') → file_to_compact v' = file_to_compact v.
Proof.
  unfold save_to. intros H. apply (mfoldl_pres (λ x, file_to_compact x.2 = file_to_compact v) _) in H; [done| |done].
  intros [[b1 base1] v1] lv [[b2 base2] v2] Hv1 H1. cbn in Hv1 |- *. exec_invs.
  match goal with H : mfoldl _ v1 _ = Ret ?r |- _ => assert (file_to_compact r = file_to_compact v) as Hr; [|rename H into Hfold] end.
  { eapply (mfoldl_pres (λ x, file_to_compact x = file_to_compact v)); [|exact Hv1|eassumption]. intros a f a' Ha Hf. unfold maybe_add_file in Hf. exec_inv Hf.
    destruct (bool_decide _); exec_invs; by simplify_eq. }
  destruct (_ =? 0); [by simplify_eq|]. exec_invs. by simplify_eq.
Qed.

End save.

(** ** Floating-point scores *)

Lemma digits2_log2 p : Z.pos (digits2_pos p) = Z.log2 (Z.pos p) + 1.
Proof. induction p as [p IH|p IH|]; cbn [digits2_pos]; [rewrite Pos2Z.inj_succ, IH, Pos2Z.inj_xI, Z.log2_succ_double by lia; lia|rewrite Pos2Z.inj_succ, IH, Pos2Z.inj_xO, Z.log2_double by lia; lia|done]. Qed.

Lemma digits2_is k p : 0 ≤ k → 2 ^ k ≤ Z.pos p < 2 ^ (k + 1) → Z.pos (digits2_pos p) = k + 1.
Proof. intros Hk H. rewrite digits2_log2. f_equal. by apply Z.log2_unique. Qed.

(** Rounding moves the exponent by one at most. *)
Lemma round_nearest_bounds m l : m ≤ round_nearest_even m l ≤ m + 1.
Proof. destruct l as [|[]]; cbn; try lia. destruct (Z.even m); lia. Qed.

Lemma round_aux_below m e l : 2 ^ 52 ≤ m < 2 ^ 54 - 2 → -1000 ≤ e ≤ 900 →
  ∃ m' e', binary_round_aux 53 1024 false m e l = S754_finite false m' e' ∧ e' ≤ e + 1.
Proof.
  intros Hm He.
  assert (∀ k x f lx, 2 ^ k ≤ x < 2 ^ (k + 1) → 52 ≤ k ≤ 53 → -1000 ≤ f ≤ 901 → shr_fexp 53 1024 x f lx = if decide (k = 52) then (shr_record_of_loc x lx, f) else (shr_1 (shr_record_of_loc x lx), f + 1)) as Hshr.
  { intros k x f lx Hx Hk Hf. unfold shr_fexp. destruct x as [|p|]; [lia..| |lia]. cbn [Zdigits2]. rewrite (digits2_is k p) by lia. unfold fexp, emin.
    destruct (decide (k = 52)) as [->|]; [by replace (Z.max _ _ - f) with 0 by lia|]. replace (Z.max _ _ - f) with 1 by lia. done. }
  assert (∀ x f, 2 ^ 52 ≤ x ≤ 2 ^ 53 → -1000 ≤ f ≤ 901 → ∃ m' e', (let '(mrs'', e'') := shr_fexp 53 1024 x f loc_Exact in
     match shr_m mrs'' with Z0 => S754_zero false | Zpos m => if Z.leb e'' (1024 - 53) then S754_finite false m e'' else S754_infinity false | _ => S754_nan end) = S754_finite false m' e'
     ∧ e' = if decide (x = 2 ^ 53) then f + 1 else f) as Hlast.
  { intros x f Hx Hf. destruct (decide (x = 2 ^ 53)) as [->|Hne].
    - rewrite (Hshr 53) by lia. rewrite decide_False by done. change (shr_1 (shr_record_of_loc (2 ^ 53) loc_Exact)) with (Build_shr_record (2 ^ 52) false false). change (2 ^ 52) with (Z.pos 4503599627370496). cbn [shr_m]. rewrite (proj2 (Z.leb_le _ _)) by lia. by eexists _, _.
    - rewrite (Hshr 52) by lia. rewrite decide_True by done. destruct x; [lia..| |lia]. cbn [shr_record_of_loc shr_m]. rewrite (proj2 (Z.leb_le _ _)) by lia. by eexists _, _. }
  unfold binary_round_aux. destruct (decide (m < 2 ^ 53)) as [Hs|Hs].
  - rewrite (Hshr 52 m e l) by lia. cbn [decide]. assert (shr_m (shr_record_of_loc m l) = m) as Hr by (by destruct l as [|[]]). rewrite decide_True by done. rewrite Hr.
    pose proof (round_nearest_bounds m (loc_of_shr_record (shr_record_of_loc m l))). destruct (Hlast (round_nearest_even m (loc_of_shr_record (shr_record_of_loc m l))) e) as (m' & e' & -> & He'); [lia..|].
    exists m', e'. split; [done|]. destruct (decide _) in He'; lia.
  - rewrite (Hshr 53 m e l) by lia. rewrite decide_False by done. assert (2 ^ 52 ≤ shr_m (shr_1 (shr_record_of_loc m l)) ≤ 2 ^ 53 - 2) as Hr.
    { assert (shr_m (shr_1 (shr_record_of_loc m l)) = m / 2) as ->; [|split; [apply Z.div_le_lower_bound; lia|apply Z.lt_succ_r, Z.div_lt_upper_bound; lia]].
      destruct m as [|[p|p|]|]; try lia; destruct l as [|[]]; cbn [shr_record_of_loc shr_1 shr_m]; first [apply (Z.div_unique _ 2 _ 1); lia|apply (Z.div_unique _ 2 _ 0); lia]. }
    set (x := shr_1 _) in *. pose proof (round_nearest_bounds (shr_m x) (loc_of_shr_record x)). destruct (Hlast (round_nearest_even (shr_m x) (loc_of_shr_record x)) (e + 1)) as (m' & e' & -> & He'); [lia..|].
    exists m', e'. split; [done|]. destruct (decide _) in He'; lia.
Qed.

(** An integer is its own float. *)
Lemma f64_of_small n : 0 < n < 2 ^ 53 → ∃ m, f64_of n = S754_finite false m (Z.log2 n - 52) ∧ 2 ^ 52 ≤ Z.pos m < 2 ^ 53.
Proof.
  intros Hn. destruct n as [|p|]; [lia..| |lia]. pose proof (Z.log2_spec (Z.pos p) ltac:(lia)) as Hl. pose proof (Z.log2_nonneg (Z.pos p)).
  assert (Z.log2 (Z.pos p) < 53) by (apply Z.log2_lt_pow2; lia). set (k := Z.log2 (Z.pos p)) in *.
  unfold f64_of, binary_normalize, binary_round. rewrite (digits2_is k p) by lia. unfold fexp at 1, emin. rewrite Z.add_0_r, Z.max_l by lia.
  assert (∃ m, shl_align p 0 (k + 1 - 53) = (m, k - 52) ∧ Z.pos m = Z.pos p * 2 ^ (52 - k)) as (m & -> & Em).
  { unfold shl_align. rewrite Z.sub_0_r. destruct (k + 1 - 53) as [|d|d] eqn:Ed; [exists p; split; [f_equal; lia|replace (52 - k) with 0 by lia; lia]|lia|]. exists (Pos.iter xO p d). split; [f_equal; lia|].
    replace (52 - k) with (Z.pos d) by lia. clear. induction d as [|d IH] using Pos.peano_ind; [cbn; lia|]. rewrite Pos.iter_succ, Pos2Z.inj_xO, IH, Pos2Z.inj_succ, Z.pow_succ_r by lia. lia. }
  assert (2 ^ 52 ≤ Z.pos m < 2 ^ 53) as Hm.
  { assert (2 ^ 52 = 2 ^ k * 2 ^ (52 - k)) as E52 by (rewrite <- Z.pow_add_r by lia; f_equal; lia). change (2 ^ 53) with (2 ^ 52 * 2). rewrite Em, E52. rewrite Z.pow_succ_r in Hl by lia.
    assert (0 < 2 ^ (52 - k)) by (apply Z.pow_pos_nonneg; lia). nia. }
  exists m. split; [|done]. unfold binary_round_aux, shr_fexp. cbn [Zdigits2]. rewrite (digits2_is 52 m) by lia. unfold fexp, emin. rewrite !Z.max_l by lia.
  replace (52 + 1 + (k - 52) - 53 - (k - 52)) with 0 by lia. cbn [shr shr_record_of_loc shr_m loc_of_shr_record round_nearest_even Zdigits2]. rewrite (digits2_is 52 m), Z.max_l by lia.
  replace (52 + 1 + (k - 52) - 53 - (k - 52)) with 0 by lia. cbn [shr shr_m]. by rewrite (proj2 (Z.leb_le _ _)) by lia.
Qed.

(** A quotient by a larger power of two is less than one. *)
Lemma f64_div_below n m2 e2 : 0 ≤ n < 2 ^ 53 → 2 ^ 52 < Z.pos m2 < 2 ^ 53 → n < 2 ^ (e2 + 52) → -52 ≤ e2 ≤ 100 → SFleb (f64_of 1) (f64_div (f64_of n) (S754_finite false m2 e2)) = false.
Proof.
  intros Hn Hm2 Hlt He2. destruct (decide (n = 0)) as [->|]; [done|]. destruct (f64_of_small n ltac:(lia)) as (m1 & -> & Hm1). set (e1 := Z.log2 n - 52).
  assert (e1 < e2) as He by (unfold e1; pose proof (proj1 (Z.log2_lt_pow2 n (e2 + 52) ltac:(lia)) Hlt); lia). pose proof (Z.log2_nonneg n).
  unfold f64_div, SFdiv, SFdiv_core_binary. cbn [Zdigits2]. rewrite (digits2_is 52 m1), (digits2_is 52 m2) by lia. unfold fexp, emin. rewrite Z.max_l, Z.min_l by lia.
  replace (e1 - e2 - (52 + 1 + e1 - (52 + 1 + e2) - 53)) with 53 by lia. rewrite Z.shiftl_mul_pow2 by lia.
  pose proof (Z_div_mod (Z.pos m1 * 2 ^ 53) (Z.pos m2) ltac:(lia)) as Hd. destruct (Z.div_eucl _ _) as [q r]. destruct Hd as [Hq Hr].
  destruct (round_aux_below q (52 + 1 + e1 - (52 + 1 + e2) - 53) (new_location (Z.pos m2) r)) as (m' & e' & E & He'); [nia|lia|].
  cbn [xorb]. rewrite E. change (f64_of 1) with (S754_finite false 4503599627370496 (-52)). unfold SFleb. cbn [SFcompare]. by rewrite (proj2 (Z.compare_gt_iff (-52) e')) by lia.
Qed.

(** The score of a level with less than 8 MiB is below one. *)
Lemma light_score l n : (l < 5)%nat → 0 ≤ n < 2 ^ 23 → SFleb (f64_of 1) (f64_div (f64_of n) (max_bytes_for l)) = false.
Proof.
  intros Hl Hn.
  assert (∃ m2 e2, max_bytes_for l = S754_finite false m2 e2 ∧ 2 ^ 52 < Z.pos m2 < 2 ^ 53 ∧ -29 ≤ e2 ≤ 100) as (m2 & e2 & -> & Hm & He).
  { destruct l as [|[|[|[|[|]]]]]; [..|lia]; (eexists _, _; split; [vm_compute; reflexivity|lia]). }
  apply f64_div_below; [lia|done| |lia]. eapply Z.lt_le_trans; [apply Hn|]. apply Z.pow_le_mono_r; lia.
Qed.

(** ** Scores *)

(** The scores of the version are those of its files. *)
Definition scored (v : Version) : Prop := file_to_compact v = None ∧ ∃ M, finalize M v = Ret v.

Lemma finalize_scored M v v' : file_to_compact v = None → finalize M v = Ret v' → scored v'.
Proof.
  intros Hf H. pose proof H as H'. unfold finalize in H. exec_inv H. injection Hk as <-. split; [done|]. exists M. unfold finalize.
  match goal with Hm : ?m = Ret r |- context [mfoldl ?g None ?ls] => change (mfoldl g None ls) with m end.
  by rewrite Hm, bind_Ret.
Qed.

(** A version without files needs no compaction. *)
Lemma scored_empty v : scored v → v_files v = replicate (Z.to_nat NUM_LEVELS) [] →
  SFleb (f64_of 1) (default (f64_of 0) (compaction_score v)) || bool_decide (is_Some (file_to_compact v)) = false.
Proof.
  intros [Hf [M H]] He. rewrite Hf. destruct v as [c fs fc fl sc lv]. cbn in He, Hf. subst fs fc.
  assert (sc = Some (f64_div (f64_of 0) (f64_of 4))) as ->; [|reflexivity]. vm_compute in H. by injection H.
Qed.

(** The scores are those of the files of the map. *)
Definition scored_as {IE : IntegerEncoding} {u : Cmp} {UO : OrderedCmp u} (m : filemap) (v : Version) : Prop :=
  file_to_compact v = None ∧ ∃ M fresh, represents (u := u) M fresh v m ∧ finalize M v = Ret v.

Lemma scored_as_scored {IE : IntegerEncoding} {u : Cmp} {UO : OrderedCmp u} m v : scored_as (u := u) m v → scored v.
Proof. intros (H1 & M & _ & _ & H2). split; [done|by exists M]. Qed.

Lemma finalize_scored_as {IE : IntegerEncoding} {u : Cmp} {UO : OrderedCmp u} M fresh m v v' : file_to_compact v = None → finalize M v = Ret v' → represents (u := u) M fresh v' m → scored_as (u := u) m v'.
Proof.
  intros Hf H R. split; [by apply (finalize_scored M v)|]. exists M, fresh. split; [done|]. pose proof H as H'. unfold finalize in H. exec_inv H. injection Hk as <-. unfold finalize.
  match goal with Hm : ?m = Ret r |- context [mfoldl ?g None ?ls] => change (mfoldl g None ls) with m end. by rewrite Hm, bind_Ret.
Qed.
