(* ===== verification/Manifest.v ===== *)
(** * Manifest: the files of a database on disk

    The persistence of a version set ([src/version_set.rs]) against the interface of
    environments: [set_current_file] and [read_current_file], what [log_and_apply] leaves on
    disk, and that [recover] gets it back. *)

From Stdlib Require Import Ascii.
From S2P Require Import Prelude Encoding Error Io Env MemEnv Types Cmp KeyTypes Log Iterator Filter FilterBlock Options BlockBuilder Block Cache TableBuilder Table TableFile TableRead TableCache Version VersionEdit MergingIter VersionSet Builder.

(** ** Strings *)

Definition is_ascii (s : string) : Prop := Forall (λ b, b < 0x80) (string_bytes s).

Lemma string_bytes_app s t : string_bytes (s +:+ t) = string_bytes s ++ string_bytes t.
Proof. induction s as [|a s IH]; simpl; [done|]. by rewrite <- IH. Qed.

Lemma bytes_string_app bs bs' : bytes_string (bs ++ bs') = (bytes_string bs +:+ bytes_string bs')%string.
Proof. induction bs as [|b bs IH]; simpl; [done|]. by rewrite IH. Qed.

Lemma utf8_ascii bs : Forall (λ b, b < 0x80) bs → utf8_valid bs = true.
Proof. induction 1 as [|b bs Hb Hbs IH]; cbn; [done|]. by rewrite (proj2 (Z.ltb_lt b 128) Hb). Qed.

Lemma digit_ascii c d : digit_val c = Some d → Z.of_N (N_of_ascii c) < 0x80.
Proof. unfold digit_val. destruct (_ && _) eqn:Eq; [|done]. intros _. apply andb_true_iff in Eq as [_ H]. apply Z.leb_le in H. lia. Qed.

Lemma app_cancel (s t t' : string) : (s +:+ t)%string = (s +:+ t')%string → t = t'.
Proof. induction s as [|a s IH]; simpl; [done|]. intros [= ?]. auto. Qed.

Lemma path_join_inj db n n' : path_join db n = path_join db n' → n = n'.
Proof.
  unfold path_join. case_decide; [done|]. destruct (String.get _ _) as [c|]; [|intros ?%app_cancel; by simplify_eq/=].
  destruct c as [[] [] [] [] [] [] [] []]; intros H'%app_cancel; by simplify_eq/=.
Qed.

Lemma digits_ascii s : all_digits s → is_ascii s.
Proof. induction 1 as [|c s [d Hd] Hs IH]; constructor; [by eapply digit_ascii|done]. Qed.

Lemma manifest_ascii n : is_u 64 n → is_ascii (manifest_name n).
Proof.
  intros Hn. unfold is_ascii, manifest_name. rewrite string_bytes_app, Forall_app. split; [by_decide|]. by apply digits_ascii, fmt06_all.
Qed.

Lemma temp_base_parse n : is_u 64 n → parse_file_name (temp_base n) = Ok (n, Temp).
Proof.
  intros Hn. unfold temp_base. change ".dbtmp"%string with (String "." "dbtmp").
  by rewrite (parse_numbered _ _ n (fmt06_all n Hn) (fmt06_nonempty n) (fmt06_parse n Hn)).
Qed.

(** The files of the version set are at different paths. *)
Lemma paths_differ db n n' : is_u 64 n → is_u 64 n' →
  manifest_file_name db n ≠ current_file_name db ∧ temp_file_name db n ≠ current_file_name db ∧ temp_file_name db n ≠ manifest_file_name db n'.
Proof.
  intros Hn Hn'. pose proof (parse_manifest n Hn) as Pm. pose proof (parse_manifest n' Hn') as Pm'. pose proof (temp_base_parse n Hn) as Pt.
  split_and!; intros Hp%path_join_inj; rewrite Hp in *; [by vm_compute in Pm|by vm_compute in Pt|congruence].
Qed.

Lemma newline_end s : ends_with_newline (s +:+ String (ascii_of_nat 10) "") = true.
Proof. induction s as [|a s IH]; [done|]. simpl. destruct s; [done|]. exact IH. Qed.

Lemma substring_all (s t : string) : String.substring 0 (String.length s) (s +:+ t) = s.
Proof. induction s as [|a s IH]; simpl; [by destruct t|]. by rewrite IH. Qed.

Lemma string_length_app (s t : string) : String.length (s +:+ t) = (String.length s + String.length t)%nat.
Proof. induction s as [|a s IH]; simpl; [done|]. by rewrite IH. Qed.

(** ** [CURRENT] *)

Definition current_bytes (n : Z) : bytes := string_bytes (manifest_name n) ++ [10].

Section current.
Context `{EL : EnvLaws E}.

Lemma read_all_ok `{RR : ReliableRead R} fuel : ∀ (r : R) acc, readable r → (length (unread r) < fuel)%nat →
  ∃ r', read_all fuel acc r = Ret (r', Ok (acc ++ unread r)) ∧ readable r'.
Proof.
  induction fuel as [|fuel IH]; intros r acc Hr Hf; [lia|]. cbn [read_all].
  destruct (read_reliable 32 r) as (r1 & -> & Hu & Hr1); [lia|done|]. rewrite bind_Ret.
  destruct (take (Z.to_nat 32) (unread r)) as [|b bs] eqn:Et.
  - assert (unread r = []) as ->; [|rewrite app_nil_r; by exists r1]. destruct (unread r); [done|]. by cbn in Et.
  - destruct (IH r1 (acc ++ b :: bs) Hr1) as (r' & -> & Hr'); [rewrite Hu, length_drop; destruct (unread r); [done|simpl in *; lia]|].
    exists r'. split; [|done]. rewrite Hu, <- app_assoc. rewrite <- Et, take_drop. done.
Qed.

Lemma set_current_file_ok db n e : env_ok e → is_u 64 n →
  ∃ e', set_current_file db n e = Ret (e', Ok ()) ∧ kept [temp_file_name db n; current_file_name db] e e'
    ∧ contents e' = <[current_file_name db := current_bytes n]> (delete (temp_file_name db n) (contents e)).
Proof.
  intros He Hn. set (t := temp_file_name db n). set (cur := current_file_name db). unfold set_current_file. fold t cur.
  destruct (open_writable_law t e He) as (e1 & f1 & E1 & K1 & C1 & A1). unfold sbind. rewrite E1, bind_Ret.
  destruct (env_write_all_law e1 f1 t [] (string_bytes (manifest_name n))) as (e2 & f2 & -> & K2 & C2 & A2); [by apply K1|done|by rewrite C1, lookup_insert_eq|].
  rewrite bind_Ret. destruct (env_write_all_law e2 f2 t (string_bytes (manifest_name n)) [10]) as (e3 & f3 & -> & K3 & C3 & A3);
    [by apply K2|done|by rewrite C2, lookup_insert_eq|].
  rewrite bind_Ret. destruct (rename_law t cur e3 (current_bytes n)) as (e4 & -> & K4 & C4); [by apply K3|by rewrite C3, lookup_insert_eq|].
  rewrite bind_Ret. exists e4. split_and!; [done| |].
  - eapply (kept_trans [t] [t; cur]); [|exact K4|set_solver|done]. eapply (kept_trans [t] [t] [t]); [|exact K3|done..]. by eapply kept_trans.
  - rewrite C4, C3, C2, C1. by rewrite !insert_insert_eq, delete_insert_eq.
Qed.

Lemma read_current_file_ok fuel db n e : env_ok e → is_u 64 n → contents e !! current_file_name db = Some (current_bytes n) →
  (length (current_bytes n) < fuel)%nat →
  ∃ e', read_current_file fuel db e = Ret (e', Ok (manifest_name n +:+ String (ascii_of_nat 10) "")) ∧ kept [] e e' ∧ contents e' = contents e.
Proof.
  intros He Hn Hc Hf. unfold read_current_file. destruct (open_sequential_law _ e _ He Hc) as (e1 & f1 & E1 & K1 & C1 & L1). unfold sbind.
  rewrite E1, bind_Ret. unfold read_to_string.
  destruct (read_all_ok (RR := env_reader e1) fuel (e1, f1) []) as ([e2 f2] & -> & (K2 & C2 & _)); [cbn; split_and!; [by apply kept_refl; apply K1|done|by rewrite L1]|cbn; by rewrite L1|].
  rewrite !bind_Ret. cbn [unread env_reader app]. rewrite L1. cbn [default]. change (id ?x) with x.
  rewrite utf8_ascii by (unfold current_bytes; rewrite Forall_app; split; [by apply manifest_ascii|by repeat constructor]).
  unfold current_bytes. rewrite bytes_string_app, bytes_string_bytes. change (bytes_string [10]) with (String (ascii_of_nat 10) "").
  rewrite newline_end. rewrite bool_decide_false by (by destruct (manifest_name n)). exists e2. split_and!; [done|by eapply kept_trans|by rewrite C2].
Qed.

End current.

(** ** Edits on disk *)

(** An edit without what is not written. *)
Definition strip_edit (ve : VersionEdit) : VersionEdit :=
  {| ve_comparator := ve_comparator ve; log_number := log_number ve; prev_log_number := prev_log_number ve;
     next_file_number := next_file_number ve; ve_last_seq := ve_last_seq ve; compaction_ptrs := compaction_ptrs ve;
     deleted := deleted ve; new_files := (λ lf, (lf.1, core lf.2)) <$> new_files ve |}.

Lemma strip_keys ve : file_key <$> new_files (strip_edit ve) = file_key <$> new_files ve.
Proof. cbn. rewrite <- list_fmap_compose. by apply list_fmap_ext. Qed.

Lemma edit_map_strip m ve : edit_map m (strip_edit ve) = edit_map m ve.
Proof.
  unfold edit_map. cbn. generalize (filter (λ kd : (Z * Z) * FileMetaData, kd.1 ∉ deleted ve) m).
  induction (new_files ve) as [|lf l IH]; intros m'; cbn; [done|]. apply IH.
Qed.

(** The files that an edit adds. *)
Lemma add_files_lookup (lfs : list (Z * FileMetaData)) (m : filemap) k d : NoDup (file_key <$> lfs) →
  foldl (λ m lf, <[file_key lf := core lf.2]> m) m lfs !! k = Some d
  ↔ (∃ lf, lf ∈ lfs ∧ file_key lf = k ∧ core lf.2 = d) ∨ m !! k = Some d ∧ k ∉ file_key <$> lfs.
Proof.
  revert m. induction lfs as [|lf lfs IH]; intros m; cbn [foldl fmap list_fmap];
    [intros _; split; [by right; split; [|apply not_elem_of_nil]|by intros [(? & ?%elem_of_nil & _)|[? _]]]|]. rewrite NoDup_cons. intros [Hn Hnd].
  rewrite IH by done. destruct (decide (k = file_key lf)) as [->|Hne].
  - rewrite lookup_insert_eq. split.
    + intros [(lf' & Hin & E & <-)|[[= <-] _]]; left; [exists lf'; split_and!; [by right|done..]|exists lf; split_and!; [by left|done..]].
    + intros [(lf' & [->|Hin]%elem_of_cons & E & <-)|[_ Hx]]; [by right|left; by exists lf'|exfalso; apply Hx; by left].
  - rewrite lookup_insert_ne by done. split.
    + intros [(lf' & Hin & E & <-)|[? ?]]; [left; exists lf'; split_and!; [by right|done..]|right; split; [done|by apply not_elem_of_cons]].
    + intros [(lf' & [->|Hin]%elem_of_cons & E & <-)|[? ?]]; [done|left; by exists lf'|right; split; [done|by eapply not_elem_of_cons]].
Qed.

Lemma edit_map_lookup m ve k d : NoDup (file_key <$> new_files ve) →
  edit_map m ve !! k = Some d ↔
  (∃ lf, lf ∈ new_files ve ∧ file_key lf = k ∧ core lf.2 = d) ∨ (m !! k = Some d ∧ k ∉ deleted ve) ∧ k ∉ file_key <$> new_files ve.
Proof. intros Hn. unfold edit_map. rewrite add_files_lookup by done. by rewrite map_lookup_filter_Some. Qed.

Lemma files_of_app es es' : files_of (es ++ es') = foldl edit_map (files_of es) es'.
Proof. apply foldl_app. Qed.

Lemma keys_used_app es es' : keys_used (es ++ es') = keys_used es ∪ keys_used es'.
Proof. unfold keys_used. by rewrite fmap_app, concat_app, list_to_set_app_L. Qed.

Lemma fresh_edits_app used es es' : fresh_edits used (es ++ es') ↔ fresh_edits used es ∧ fresh_edits (used ∪ keys_used es) es'.
Proof.
  revert used. induction es as [|ve es IH]; intros used; cbn [app fresh_edits].
  - unfold keys_used. cbn. rewrite (right_id_L ∅ (∪)). tauto.
  - rewrite IH. replace (keys_used (ve :: es)) with (list_to_set (file_key <$> new_files ve) ∪ keys_used es : gset (Z * Z)); [rewrite (assoc_L (∪)); tauto|].
    change (ve :: es) with ([ve] ++ es). rewrite keys_used_app. f_equal. unfold keys_used. cbn. by rewrite app_nil_r.
Qed.

(** Files are where an edit put them. *)
Lemma files_used es : fresh_edits ∅ es → ∀ k, is_Some (files_of es !! k) → k ∈ keys_used es.
Proof.
  induction es as [|ve es IH] using rev_ind; [by intros _ k [? ?]|]. rewrite fresh_edits_app, files_of_app, keys_used_app. cbn [fresh_edits foldl].
  intros (Hf & Hn & _) k [d Hd]. apply edit_map_lookup in Hd; [|done]. apply elem_of_union. destruct Hd as [(lf & Hin & <- & _)|[[Hd _] _]].
  - right. unfold keys_used. cbn. rewrite app_nil_r. apply elem_of_list_to_set. by apply (list_elem_of_fmap_2 file_key).
  - left. apply IH; [done|by eexists].
Qed.

Section manifest.
Context `{IEL : IntegerEncodingLaws} {u : Cmp} {UO : OrderedCmp u}.

(** A sequence of edits that makes sense. *)
Record history_ok (es : list VersionEdit) : Prop := {
  hi_fresh : fresh_edits ∅ es;
  hi_levels : Forall edit_levels es;
  hi_meta : Forall (λ ve, Forall (λ lf, meta_ok (u := u) lf.2) (new_files ve)) es;
  hi_map : map_ok (u := u) (files_of es);
  hi_ptrs : Forall (λ ve, Forall (λ c, key_fits (cp_key c)) (compaction_ptrs ve)) es;
}.

Lemma history_keys es k : history_ok es → is_Some (files_of es !! k) → k ∈ keys_used es ∧ level_ok k.1.
Proof.
  intros H Hk. split; [apply files_used; [apply H|done]|]. destruct Hk as [d Hd]. destruct k as [l n]. by destruct (mo_key _ (hi_map _ H) l n d Hd).
Qed.

Lemma encodable_ptrs ve : edit_ok ve → Forall (λ c, key_fits (cp_key c)) (compaction_ptrs ve).
Proof.
  unfold edit_ok, items. rewrite !Forall_app, Forall_fmap. intros (_ & _ & _ & _ & _ & H & _).
  eapply Forall_impl; [exact H|]. by intros c [_ ?].
Qed.

(** A record of the manifest. *)
Definition edit_record (r : bytes) (ve : VersionEdit) : Prop := r ≠ [] ∧ decode_from r = Ret (Ok ve).

Lemma edit_record_encode (order : gset (Z * Z) → list (Z * Z)) ve :
  (∀ s, order s ≡ₚ elements s) → edit_ok (strip_edit ve) → (is_Some (log_number ve) ∨ is_Some (ve_comparator ve)) →
  edit_record (encode_with (order (deleted ve)) ve) (strip_edit ve).
Proof.
  intros Ho Hok Hne. assert (encode_with (order (deleted ve)) ve = encode_with (order (deleted ve)) (strip_edit ve)) as E.
  { unfold encode_with. cbn. do 7 f_equal. rewrite <- list_fmap_compose. done. }
  split; [|rewrite E; apply decode_encode; [done|apply Ho]]. unfold encode_with, put_opt, put_tag. intros Hx.
  assert (∀ n, is_u 64 n → length (encode_var n) ≠ 0%nat) as Hpos. { intros n Hn Hz. pose proof (encode_var_pos n Hn) as Hp. rewrite Hz in Hp. cbn in Hp. lia. }
  destruct Hne as [[n Hn]|[c Hc]].
  - rewrite Hn in Hx. apply app_eq_nil in Hx as [_ Hx]. apply app_eq_nil in Hx as [Hx _]. apply app_eq_nil in Hx as [Hx _].
    apply (Hpos (tag_u32 TLogNumber)); [by unfold is_u|]. by rewrite Hx.
  - rewrite Hc in Hx. apply app_eq_nil in Hx as [Hx _]. apply app_eq_nil in Hx as [Hx _]. apply (Hpos (tag_u32 TComparator)); [by unfold is_u|]. by rewrite Hx.
Qed.

End manifest.

(** ** The manifest as a log *)

Section log.
Context `{IEL : IntegerEncodingLaws} `{CRL : Crc32Laws} `{EL : EnvLaws E}.
Implicit Types (lw : LogWriter w_file) (w : World E ra_file) (vs : VersionSet w_file).

(** The log writer [lw] appends to the file at [p], which has the edits [es]. *)
Definition descriptor (e : E) (p : string) lw (es : list VersionEdit) : Prop :=
  ∃ rs, log_writer (RW := env_writer e p) (log_in lw e) rs ∧ Forall2 edit_record rs es.

(** The writer since the environment was [e0] is one since it is what it is now. *)
Lemma log_writer_rebase e0 p (lw : LogWriter (E * w_file)) rs : log_writer (RW := env_writer e0 p) lw rs →
  let (e, lw') := log_out lw in
  log_writer (RW := env_writer e p) (log_in lw' e) rs ∧ kept [p] e0 e ∧ ∃ b, contents e = <[p := b]> (contents e0) ∧ is_log b rs.
Proof.
  intros [(I1 & I2 & I3) I4 I5]. destruct lw as [[e f] off bs]. cbn [log_out lw_dst fst snd]. cbn in I1, I2, I3, I4, I5. destruct I3 as (K & A & b & C).
  assert (contents e !! p = Some b) as Hb by (by rewrite C, lookup_insert_eq). split_and!; [|done|].
  - split; [split_and!; cbn; [done|lia..|]|done|exact I5]. split_and!; [apply kept_refl, K|done|]. exists b. symmetry. by apply insert_id.
  - exists b. split; [done|]. destruct I5 as (o & He & _). exists o. rewrite Hb in He. exact He.
Qed.

Lemma descriptor_keep e e' ps p lw es : descriptor e p lw es → kept ps e e' → p ∉ ps → contents e' !! p = contents e !! p → descriptor e' p lw es.
Proof.
  intros (rs & [(I1 & I2 & I3) I4 I5] & Hr) (K1 & K2 & _) Hp Hc. exists rs. split; [|done]. cbn in I1, I2, I3, I4, I5. destruct I3 as (_ & A & b & C).
  assert (contents e' !! p = Some b) as Hb by (by rewrite Hc, C, lookup_insert_eq).
  split; [split_and!; cbn; [done|lia..|]|done|cbn; rewrite Hc; exact I5]. split_and!; [by apply kept_refl|by apply K2|]. exists b. symmetry. by apply insert_id.
Qed.

Lemma descriptor_new e p f : env_ok e → appends_to e f p → contents e !! p = Some [] → descriptor e p (LogWriter_new f) [].
Proof.
  intros He Ha Hc. exists []. split; [|constructor]. apply (log_writer_new (RW := env_writer e p) (e, f)).
  - cbn. split_and!; [by apply kept_refl|done|]. exists []. symmetry. by apply insert_id.
  - cbn. by rewrite Hc.
Qed.

(** Adding an edit to the manifest. *)
Lemma descriptor_add w vs p lw es r ve : descriptor_log vs = Some lw → descriptor (w_env w) p lw es → edit_record r ve →
  ∃ e' lw' m, on_descriptor_log (add_record r) (w, vs) = Ret ((set_env e' w, set_descriptor_log (Some lw') vs), Ok m)
    ∧ descriptor e' p lw' (es ++ [ve]) ∧ kept [p] (w_env w) e' ∧ ∃ b, contents e' = <[p := b]> (contents (w_env w)).
Proof.
  intros Hl (rs & L & Hr) [Hne Hd]. unfold on_descriptor_log. rewrite Hl. cbn [unwrap]. rewrite bind_Ret.
  destruct (log_writer_add (RW := env_writer (w_env w) p) _ _ r L Hne) as (lw1 & m & -> & L1). rewrite bind_Ret.
  pose proof (log_writer_rebase _ _ _ _ L1) as Hb. destruct (log_out lw1) as [e' lw'] eqn:Eo. destruct Hb as (L2 & K & b & C & _).
  exists e', lw', m. split_and!; [done| |done|by exists b]. exists (rs ++ [r]). split; [done|]. apply Forall2_app; [done|]. by repeat constructor.
Qed.

Lemma descriptor_flush w vs p lw es : descriptor_log vs = Some lw → descriptor (w_env w) p lw es →
  ∃ e' lw', on_descriptor_log log_flush (w, vs) = Ret ((set_env e' w, set_descriptor_log (Some lw') vs), Ok ())
    ∧ descriptor e' p lw' es ∧ kept [p] (w_env w) e' ∧ ∃ b, contents e' = <[p := b]> (contents (w_env w)).
Proof.
  intros Hl (rs & L & Hr). unfold on_descriptor_log. rewrite Hl. cbn [unwrap]. rewrite bind_Ret.
  destruct (log_writer_flush (RW := env_writer (w_env w) p) _ _ L) as (lw1 & -> & L1). rewrite bind_Ret.
  pose proof (log_writer_rebase _ _ _ _ L1) as Hb. destruct (log_out lw1) as [e' lw'] eqn:Eo. destruct Hb as (L2 & K & b & C & _).
  exists e', lw'. split_and!; [done| |done|by exists b]. by exists rs.
Qed.

(** The manifest number [n] of the database has the edits [es] and [CURRENT] names it. *)
Definition manifest (e : E) (db : string) (n : Z) (es : list VersionEdit) : Prop :=
  contents e !! current_file_name db = Some (current_bytes n)
  ∧ ∃ b rs, contents e !! manifest_file_name db n = Some b ∧ is_log b rs ∧ Forall2 edit_record rs es.

Lemma descriptor_manifest e db n lw es : contents e !! current_file_name db = Some (current_bytes n) →
  descriptor e (manifest_file_name db n) lw es → manifest e db n es.
Proof.
  intros Hc (rs & L & Hr). split; [done|]. pose proof (lgw_inv _ _ L) as (_ & _ & (_ & _ & b & C)). cbn in C.
  exists b, rs. assert (contents e !! manifest_file_name db n = Some b) as Hb by (by rewrite C, lookup_insert_eq). split_and!; [done| |done].
  pose proof (log_writer_is_log (RW := env_writer e _) _ _ L) as Hl. cbn in Hl. by rewrite Hb in Hl.
Qed.

End log.

(** ** The snapshot of a version *)

Fixpoint level_entries (M : Metas) (level : Z) (files : list (list FileMetaHandle)) : list (Z * FileMetaData) :=
  match files with
  | [] => []
  | fs :: files => ((λ f, (level, M f)) <$> fs) ++ level_entries M (level + 1) files
  end.

Fixpoint ptr_entries (level : Z) (ptrs : list bytes) : list CompactionPointer :=
  match ptrs with
  | [] => []
  | p :: ptrs => (if decide (p = []) then [] else [{| cp_level := level; cp_key := p |}]) ++ ptr_entries (level + 1) ptrs
  end.

Definition with_entries (cs : list CompactionPointer) (fs : list (Z * FileMetaData)) (ve : VersionEdit) : VersionEdit :=
  {| ve_comparator := ve_comparator ve; log_number := log_number ve; prev_log_number := prev_log_number ve;
     next_file_number := next_file_number ve; ve_last_seq := ve_last_seq ve; compaction_ptrs := compaction_ptrs ve ++ cs;
     deleted := deleted ve; new_files := new_files ve ++ fs |}.

Lemma edit_ptrs_entries ptrs edit : edit_ptrs ptrs edit = with_entries (ptr_entries 0 ptrs) [] edit.
Proof.
  unfold edit_ptrs. cut (∀ l, snd (foldl (λ '(level, edit) p, (level + 1, if decide (p = []) then edit else set_compact_pointer level p edit)) (l, edit) ptrs)
    = with_entries (ptr_entries l ptrs) [] edit); [auto|]. revert edit. induction ptrs as [|p ptrs IH]; intros edit l; cbn [foldl ptr_entries].
  - unfold with_entries. rewrite !app_nil_r. by destruct edit.
  - rewrite IH. destruct (decide (p = [])); [done|]. unfold with_entries, set_compact_pointer. cbn. by rewrite <- app_assoc.
Qed.

Lemma add_all_files M level fs edit :
  foldl (λ edit f, add_file level (M f) edit) edit fs = with_entries [] ((λ f : nat, (level, M f)) <$> fs) edit.
Proof.
  revert edit. induction fs as [|f fs IH]; intros edit; cbn [foldl fmap list_fmap].
  - unfold with_entries. rewrite !app_nil_r. by destruct edit.
  - rewrite IH. unfold with_entries, add_file. cbn. by rewrite <- app_assoc.
Qed.

Lemma edit_files_entries M files edit : edit_files M files edit = with_entries [] (level_entries M 0 files) edit.
Proof.
  unfold edit_files. cut (∀ l, snd (foldl (λ '(level, edit) fs, (level + 1, foldl (λ edit f, add_file level (M f) edit) edit fs)) (l, edit) files)
    = with_entries [] (level_entries M l files) edit); [auto|]. revert edit. induction files as [|fs files IH]; intros edit l; cbn [foldl level_entries].
  - unfold with_entries. rewrite !app_nil_r. by destruct edit.
  - rewrite IH, add_all_files. unfold with_entries. cbn. by rewrite ?app_nil_r, <- ?app_assoc.
Qed.

Lemma level_entries_elem M l0 files lf :
  lf ∈ level_entries M l0 files ↔ ∃ i fs f, files !! i = Some fs ∧ f ∈ fs ∧ lf = (l0 + Z.of_nat i, M f).
Proof.
  revert l0. induction files as [|fs files IH]; intros l0; cbn [level_entries].
  - split; [by intros ?%elem_of_nil|]. intros (i & fs & f & Hi & _). by rewrite lookup_nil in Hi.
  - rewrite elem_of_app, list_elem_of_fmap, IH. split.
    + intros [(f & -> & Hf)|(i & gs & f & Hi & Hf & ->)]; [exists 0%nat, fs, f|exists (S i), gs, f]; split_and!; try done; f_equal; lia.
    + intros ([|i] & gs & f & Hi & Hf & ->); cbn in Hi; [left; simplify_eq; exists f; split; [f_equal; lia|done]|right; exists i, gs, f; split_and!; try done; f_equal; lia].
Qed.

Lemma ptr_entries_elem l0 ptrs c : c ∈ ptr_entries l0 ptrs → ∃ i p, ptrs !! i = Some p ∧ c = {| cp_level := l0 + Z.of_nat i; cp_key := p |}.
Proof.
  revert l0. induction ptrs as [|p ptrs IH]; intros l0; cbn [ptr_entries]; [by intros ?%elem_of_nil|]. rewrite elem_of_app. intros [Hc|Hc].
  - case_decide; [by apply elem_of_nil in Hc|]. apply list_elem_of_singleton in Hc as ->. exists 0%nat, p. split; [done|]. f_equal; lia.
  - apply IH in Hc as (i & q & Hi & ->). exists (S i), q. split; [done|]. f_equal; lia.
Qed.

Section snapshot.
Context `{IEL : IntegerEncodingLaws} {u : Cmp} {UO : OrderedCmp u} (M : Metas).

Lemma level_entries_nodup l0 files :
  (∀ i fs, files !! i = Some fs → NoDup ((λ f, num (M f)) <$> fs)) → NoDup (file_key <$> level_entries M l0 files).
Proof.
  revert l0. induction files as [|fs files IH]; intros l0 Hn; cbn [level_entries]; [constructor|]. rewrite fmap_app, NoDup_app, <- list_fmap_compose. split_and!.
  - pose proof (Hn 0%nat fs eq_refl) as H0. apply (NoDup_fmap_1 snd). rewrite <- list_fmap_compose. exact H0.
  - intros k (f & -> & Hf)%list_elem_of_fmap (lf & E & Hlf)%list_elem_of_fmap. apply level_entries_elem in Hlf as (i & gs & g & _ & _ & ->). unfold file_key in E. cbn in E. injection E. lia.
  - apply IH. intros i gs Hi. by apply (Hn (S i)).
Qed.

(** The edit that [write_snapshot] writes. *)
Definition snapshot_edit (ptrs : list bytes) (v : Version) : VersionEdit :=
  edit_files M (v_files v) (edit_ptrs ptrs (set_comparator_name (cmp_id u) VersionEdit_new)).

Context (fresh : nat) (v : Version) (m : filemap) (Hm : map_ok (u := u) m) (R : represents (u := u) M fresh v m) (ptrs : list bytes).

Lemma snapshot_new_files : new_files (snapshot_edit ptrs v) = level_entries M 0 (v_files v).
Proof. unfold snapshot_edit. by rewrite edit_files_entries, edit_ptrs_entries. Qed.

Lemma snapshot_keys_nodup : NoDup (file_key <$> new_files (snapshot_edit ptrs v)).
Proof. rewrite snapshot_new_files. apply level_entries_nodup. intros i fs Hi. exact (lf_nodup _ _ _ _ (rp_files _ _ _ _ R i fs Hi)). Qed.

Lemma snapshot_files lf : lf ∈ new_files (snapshot_edit ptrs v) → m !! file_key lf = Some (core lf.2) ∧ level_ok lf.1 ∧ meta_ok (u := u) lf.2.
Proof.
  rewrite snapshot_new_files, level_entries_elem. intros (i & fs & f & Hi & Hin & ->). cbn [file_key fst snd]. rewrite Z.add_0_l.
  assert (m !! (Z.of_nat i, num (M f)) = Some (core (M f))) as E by (apply (lf_files _ _ _ _ (rp_files _ _ _ _ R i fs Hi)); by exists f).
  destruct (mo_key _ Hm _ _ _ E) as (? & _ & _ & ?). split_and!; try done.
Qed.

Lemma snapshot_map : edit_map ∅ (snapshot_edit ptrs v) = m.
Proof.
  apply map_eq_iff. intros [l n]. apply option_eq. intros d. rewrite edit_map_lookup by apply snapshot_keys_nodup. split.
  - intros [(lf & Hin & E & <-)|[[? _] _]]; [|by rewrite lookup_empty in *]. rewrite <- E. by apply snapshot_files.
  - intros Hd. left. destruct (mo_key _ Hm _ _ _ Hd) as ([Hl0 Hl7] & _). rewrite snapshot_new_files.
    destruct (lookup_lt_is_Some_2 (v_files v) (Z.to_nat l)) as [fs Hfs]; [rewrite (rp_levels _ _ _ _ R); lia|].
    pose proof (rp_files _ _ _ _ R _ _ Hfs) as L. rewrite Z2Nat.id in L by lia. apply (lf_files _ _ _ _ L) in Hd as (f & Hin & En & Ec).
    exists (l, M f). split_and!; [|cbn; by rewrite <- En|done]. apply level_entries_elem. exists (Z.to_nat l), fs, f. split_and!; [done..|]. f_equal. lia.
Qed.

Context (Hp : length ptrs = Z.to_nat NUM_LEVELS).

Lemma snapshot_levels : edit_levels (snapshot_edit ptrs v).
Proof.
  split.
  - unfold snapshot_edit. rewrite edit_files_entries, edit_ptrs_entries. cbn. rewrite app_nil_r. apply Forall_forall. intros c (i & p & Hi & ->)%ptr_entries_elem.
    apply lookup_lt_Some in Hi. unfold level_ok. cbn. change NUM_LEVELS with 7 in *. lia.
  - unfold snapshot_edit. rewrite edit_files_entries, edit_ptrs_entries. cbn. set_solver.
  - apply Forall_forall. intros lf Hin. by apply snapshot_files.
Qed.

Context (Hf : Forall key_fits ptrs) (Hid : utf8_valid (string_bytes (cmp_id u)) = true ∧ key_fits (string_bytes (cmp_id u))).

Lemma snapshot_encodable : edit_ok (strip_edit (snapshot_edit ptrs v)).
Proof.
  unfold edit_ok, items. pose proof snapshot_files as Hfiles. rewrite snapshot_new_files in Hfiles. unfold snapshot_edit.
  rewrite edit_files_entries, edit_ptrs_entries. cbn. rewrite elements_empty. cbn. constructor; [done|]. apply Forall_app. split.
  - rewrite app_nil_r. apply Forall_fmap, Forall_forall. intros c (i & p & Hi & ->)%ptr_entries_elem. cbn.
    rewrite Forall_lookup in Hf. specialize (Hf _ _ Hi). apply lookup_lt_Some in Hi. change NUM_LEVELS with 7 in *. split; [unfold is_u; lia|done].
  - apply Forall_fmap, Forall_fmap, Forall_forall. intros lf Hin. destruct (Hfiles lf Hin) as (_ & [? ?] & (_ & _ & _ & ? & ? & ? & ?)). cbn.
    change NUM_LEVELS with 7 in *. split_and!; try done. unfold is_u. lia.
Qed.

End snapshot.

(** ** [log_and_apply] *)

(** The edit that is written: with the counters of the version set. *)
Definition full_edit {WF} (vs : VersionSet WF) (edit : VersionEdit) : VersionEdit :=
  let edit := match log_number edit with None => set_log_num (log_num vs) edit | Some _ => edit end in
  let edit := match prev_log_number edit with None => set_prev_log_num (prev_log_num vs) edit | Some _ => edit end in
  set_last_seq (vs_last_seq vs) (set_next_file (next_file_num vs) edit).

Lemma full_edit_fields {WF} (vs : VersionSet WF) edit : let e := full_edit vs edit in
  compaction_ptrs e = compaction_ptrs edit ∧ deleted e = deleted edit ∧ new_files e = new_files edit
  ∧ log_number e = Some (default (log_num vs) (log_number edit)) ∧ prev_log_number e = Some (default (prev_log_num vs) (prev_log_number edit))
  ∧ next_file_number e = Some (next_file_num vs) ∧ ve_last_seq e = Some (vs_last_seq vs).
Proof. unfold full_edit. destruct edit as [c [ln|] [pn|] nn ls cs ds fs]; by split_and!. Qed.

Section log_and_apply.
Context `{IEL : IntegerEncodingLaws} `{CRL : Crc32Laws} `{EL : EnvLaws E} {u : Cmp} {UO : OrderedCmp u}.
Context (order : gset (Z * Z) → list (Z * Z)) (order_ok : ∀ s, order s ≡ₚ elements s).
Context (Hid : utf8_valid (string_bytes (cmp_id u)) = true ∧ key_fits (string_bytes (cmp_id u))).
Implicit Types (w : World E ra_file) (vs : VersionSet w_file) (es : list VersionEdit).

(** The version set has the files that the edits [es] give, and the manifest it writes to,
    if it has one, has these edits. *)
Record vs_inv w vs es : Prop := {
  vi_env : env_ok (w_env w);
  vi_cmp : o_cmp (vs_opt vs) = u;
  vi_current : ∃ l v, vs_current vs = Some l ∧ w_versions w !! l = Some v ∧ represents (u := u) (w_metas w) (w_fresh w) v (files_of es);
  vi_history : history_ok (u := u) es;
  vi_ptrs : length (vs_compaction_ptrs vs) = Z.to_nat NUM_LEVELS ∧ Forall key_fits (vs_compaction_ptrs vs);
  vi_num : is_u 64 (manifest_num vs);
  vi_log lw : descriptor_log vs = Some lw → descriptor (w_env w) (manifest_file_name (vs_dbname vs) (manifest_num vs)) lw es;
}.

(** What the edit must satisfy: it can be written, the log number is in range, its files are
    new and keep the levels in order. *)
Record good_edit vs es (edit : VersionEdit) : Prop := {
  ge_log n : log_number edit = Some n → log_num vs ≤ n < next_file_num vs;
  ge_encodable : edit_ok (strip_edit (full_edit vs edit));
  ge_levels : edit_levels edit;
  ge_meta : Forall (λ lf, meta_ok (u := u) lf.2) (new_files edit);
  ge_nodup : NoDup (file_key <$> new_files edit);
  ge_fresh : Forall (.∉ keys_used es) (file_key <$> new_files edit);
  ge_map : map_ok (u := u) (edit_map (files_of es) edit);
}.

Lemma edit_map_full vs m edit : edit_map m (full_edit vs edit) = edit_map m edit.
Proof. destruct (full_edit_fields vs edit) as (_ & Hd & Hn & _). unfold edit_map. by rewrite Hd, Hn. Qed.

Lemma good_history vs es edit : history_ok (u := u) es → good_edit vs es edit → history_ok (u := u) (es ++ [strip_edit (full_edit vs edit)]).
Proof.
  intros [H1 H2 H3 H4 H5] [G1 G2 G3 G4 G5 G6 G7]. destruct (full_edit_fields vs edit) as (Hc & Hd & Hn & _).
  assert (Forall (λ lf, meta_ok (u := u) lf.2) (new_files (strip_edit (full_edit vs edit)))) as Hmeta.
  { cbn [new_files strip_edit]. rewrite Hn. apply Forall_fmap. exact G4. }
  split.
  - rewrite fresh_edits_app, (left_id_L ∅ (∪)). cbn [fresh_edits]. rewrite strip_keys, Hn. done.
  - apply Forall_app. split; [done|]. constructor; [|constructor]. destruct G3 as [L1 L2 L3].
    split; cbn [new_files strip_edit compaction_ptrs deleted]; [by rewrite Hc|by rewrite Hd|]. rewrite Hn. apply Forall_fmap. exact L3.
  - apply Forall_app. split; [done|]. by constructor.
  - rewrite files_of_app. cbn [foldl]. by rewrite edit_map_strip, edit_map_full.
  - apply Forall_app. split; [done|]. constructor; [|constructor]. by apply encodable_ptrs.
Qed.

(** The history of a version starts anew with its snapshot. *)
Lemma snapshot_history w vs es l v : vs_inv w vs es → vs_current vs = Some l → w_versions w !! l = Some v →
  let snap := strip_edit (snapshot_edit (u := u) (w_metas w) (vs_compaction_ptrs vs) v) in
  history_ok (u := u) [snap] ∧ files_of [snap] = files_of es ∧ keys_used [snap] ⊆ keys_used es ∧ edit_ok snap.
Proof.
  intros [I1 I2 (l' & v' & El & Ev & R) I4 [Ip If] I6 I7] El' Ev' snap.
  rewrite El in El'. injection El' as <-. rewrite Ev in Ev'. injection Ev' as <-.
  pose proof (snapshot_map (u := u) _ _ _ _ (hi_map _ I4) R (vs_compaction_ptrs vs)) as Em.
  pose proof (snapshot_keys_nodup (u := u) _ _ _ _ R (vs_compaction_ptrs vs)) as Hnd.
  pose proof (snapshot_files (u := u) _ _ _ _ (hi_map _ I4) R (vs_compaction_ptrs vs)) as Hfs.
  assert (files_of [snap] = files_of es) as Ef by (unfold files_of at 1, snap; cbn [foldl]; rewrite edit_map_strip; exact Em).
  split_and!; [split| done| |].
  - cbn [fresh_edits]. unfold snap. rewrite strip_keys. split_and!; [done| |done]. apply Forall_forall. set_solver.
  - constructor; [|constructor]. destruct (snapshot_levels (u := u) _ _ _ _ (hi_map _ I4) R _ Ip) as [L1 L2 L3]. split; [done|done|]. cbn. apply Forall_fmap. exact L3.
  - constructor; [|constructor]. cbn. apply Forall_fmap, Forall_forall. intros lf Hin. apply meta_ok_core. by apply Hfs.
  - rewrite Ef. apply I4.
  - constructor; [|constructor]. apply encodable_ptrs. exact (snapshot_encodable (u := u) _ _ _ _ (hi_map _ I4) R _ Ip If Hid).
  - intros k. unfold keys_used at 1. cbn [fmap list_fmap concat]. rewrite app_nil_r, elem_of_list_to_set. unfold snap. rewrite strip_keys.
    intros (lf & -> & Hin)%list_elem_of_fmap. apply files_used; [apply I4|]. destruct (Hfs lf Hin) as [Ek _]. by eexists.
  - exact (snapshot_encodable (u := u) _ _ _ _ (hi_map _ I4) R _ Ip If Hid).
Qed.

Lemma represents_allocated w w' (v : Version) m : allocated w w' →
  represents (u := u) (w_metas w) (w_fresh w) v m → represents (u := u) (w_metas w') (w_fresh w') v m.
Proof.
  intros [_ _ Hf Hm] [R1 R2 R3 R4]. split; [done|done| |eapply Forall_impl; [exact R4|]; intros fs Hfs; eapply Forall_impl; [exact Hfs|]; cbn; lia].
  intros l fs Hl. assert (∀ f, f ∈ fs → w_metas w' f = w_metas w f) as Heq.
  { intros f Hin. apply Hm. rewrite Forall_lookup in R4. specialize (R4 _ _ Hl). rewrite Forall_forall in R4. by apply R4. }
  destruct (R3 l fs Hl) as [L1 L2 L3]. split.
  - erewrite list_fmap_ext; [exact L1|]. intros i f Hi. by rewrite (Heq f) by (by eapply list_elem_of_lookup_2).
  - intros n d. rewrite L2. split; intros (f & Hin & Hn & Hd); exists f; specialize (Heq f Hin); rewrite Heq in *; done.
  - intros H0. specialize (L3 H0). unfold disjoint_files in *. clear -L3 Heq. induction L3 as [|f fs L3 IH Hf]; [constructor|]. constructor.
    + apply IH. intros g Hg. apply Heq. by right.
    + rewrite Forall_forall in *. intros g Hg. rewrite (Heq f), (Heq g) by (by constructor). by apply Hf.
Qed.

Lemma apply_ptrs_fits ptrs cs : Forall key_fits ptrs → Forall (λ c, key_fits (cp_key c)) cs → Forall key_fits (apply_ptrs ptrs cs).
Proof.
  intros Hp Hc. revert ptrs Hp. induction Hc as [|c cs Hk _ IH]; intros ptrs Hp; cbn; [done|]. apply IH. by apply Forall_insert.
Qed.

(** The new version is built from the current one. *)
Lemma build_version_ok w vs l base b m0 used m : o_cmp (vs_opt vs) = u → vs_current vs = Some l → w_versions w !! l = Some base →
  builder_inv (u := u) (w_metas w) (w_fresh w) b m0 used m → represents (u := u) (w_metas w) (w_fresh w) base m0 →
  map_ok (u := u) m0 → map_ok (u := u) m →
  ∃ base' v v', build_version b w vs = Ret (set_versions (<[l := base']> (w_versions w)) w, v) ∧ finalize (w_metas w) v = Ret v'
    ∧ represents (u := u) (w_metas w) (w_fresh w) base' m0 ∧ represents (u := u) (w_metas w) (w_fresh w) v' m ∧ scored_as (u := u) m v'.
Proof.
  intros Ho El Ev B R M0 M1. destruct (save_to_ok (u := u) (w_metas w) (w_fresh w) b base m0 _ _ B M0 R M1) as (b' & base' & v & E2 & Rv & Rb).
  destruct (finalize_ok (u := u) (w_metas w) _ _ _ M1 Rv) as (v' & E3 & Rv' & _). exists base', v, v'. split_and!; try done; [|eapply finalize_scored_as; [by apply save_to_fields in E2|done|done]].
  unfold build_version, vs_icmp. rewrite El. cbn [unwrap]. rewrite bind_Ret, Ev. cbn [unwrap]. by rewrite bind_Ret, Ho, E2.
Qed.

(** The version that the edit makes of the current one. *)
Lemma apply_edit_ok w vs es edit : vs_inv w vs es → good_edit vs es edit →
  ∃ w1 b w2 v v',
    let vs1 := set_ptrs (apply_ptrs (vs_compaction_ptrs vs) (compaction_ptrs edit)) vs in
    builder_apply order (full_edit vs edit) (vs_compaction_ptrs vs) Builder_new w = Ret (w1, (b, vs_compaction_ptrs vs1))
    ∧ build_version b w1 vs1 = Ret (w2, v) ∧ finalize (w_metas w2) v = Ret v'
    ∧ vs_inv w2 vs1 es ∧ w_storage w2 = w_storage w ∧ length (w_versions w2) = length (w_versions w)
    ∧ represents (u := u) (w_metas w2) (w_fresh w2) v' (edit_map (files_of es) edit) ∧ scored_as (u := u) (edit_map (files_of es) edit) v'.
Proof.
  intros I G. pose proof I as [I1 I2 (l & v0 & El & Ev & R) I4 [Ip If] I6 I7]. pose proof G as [G1 G2 G3 G4 G5 G6 G7].
  destruct (full_edit_fields vs edit) as (Hc & Hd & Hn & _).
  destruct (builder_apply_ok (u := u) order order_ok (full_edit vs edit) (vs_compaction_ptrs vs) Builder_new w (files_of es) (keys_used es) (files_of es))
    as (w1 & b & E1 & B & A); [apply builder_new; intros k; by apply history_keys|done| |by rewrite Hn..|].
  { destruct G3. split; [by rewrite Hc|by rewrite Hd|by rewrite Hn]. }
  rewrite Hc in E1. pose proof (al_versions _ _ A) as Av. rewrite edit_map_full in B.
  set (vs1 := set_ptrs (apply_ptrs (vs_compaction_ptrs vs) (compaction_ptrs edit)) vs).
  destruct (build_version_ok w1 vs1 l v0 b (files_of es) _ _ I2 El ltac:(by rewrite Av) B (represents_allocated _ _ _ _ A R) (hi_map _ I4) G7)
    as (base' & v & v' & E2 & E3 & Rb & Rv & Sv).
  exists w1, b, (set_versions (<[l := base']> (w_versions w1)) w1), v, v'. split_and!; [done|done|done| |by apply A| |done|done].
  - split; [unfold w_env in *; cbn; by rewrite (al_storage _ _ A)|done| |done| |done|].
    + exists l, base'. split_and!; [done| |done]. cbn. rewrite Av. apply list_lookup_insert_eq. by eapply lookup_lt_Some.
    + cbn. split; [by rewrite length_apply_ptrs|]. apply apply_ptrs_fits; [done|]. rewrite <- Hc. by apply (encodable_ptrs _ G2).
    + intros lw Hlw. unfold w_env. cbn. rewrite (al_storage _ _ A). by apply I7.
  - cbn. by rewrite length_insert, Av.
Qed.

(** The manifest is open and has the files of the current version. *)
Lemma open_descriptor_ok w vs es edit : vs_inv w vs es → next_file_number edit = Some (next_file_num vs) →
  let p := manifest_file_name (vs_dbname vs) (manifest_num vs) in
  ∃ e' lw es', open_descriptor order edit (w, vs) = Ret ((set_env e' w, set_descriptor_log (Some lw) vs), Ok edit)
    ∧ descriptor e' p lw es' ∧ history_ok (u := u) es' ∧ files_of es' = files_of es ∧ keys_used es' ⊆ keys_used es
    ∧ kept [p] (w_env w) e' ∧ ∃ b, contents e' = <[p := b]> (contents (w_env w)).
Proof.
  intros I Hnf p. pose proof I as [I1 I2 (l & v & El & Ev & R) I4 [Ip If] I6 I7]. unfold open_descriptor. destruct (descriptor_log vs) as [lw|] eqn:Ed.
  - exists (w_env w), lw, es. destruct (I7 lw eq_refl) as (rs & L & Hr). pose proof (lgw_inv _ _ L) as (_ & _ & _ & A & b & C). cbn in C.
    split_and!; [destruct w as [[] ? ? ?], vs; cbn in *; by subst|by exists rs|done..|by apply kept_refl|by exists b].
  - destruct (open_writable_law p (w_env w) I1) as (e1 & f & E1 & K1 & C1 & A1). fold p. rewrite E1, bind_Ret.
    destruct (snapshot_history w vs es l v I El Ev) as (S1 & S2 & S3 & S4).
    set (snap := snapshot_edit (u := u) (w_metas w) (vs_compaction_ptrs vs) v) in *.
    destruct (descriptor_add (set_env e1 w) (set_descriptor_log (Some (LogWriter_new f)) vs) p (LogWriter_new f) [] (encode_with (order (deleted snap)) snap) (strip_edit snap))
      as (e2 & lw & m & E2 & D2 & K2 & b & C2);
      [done|apply descriptor_new; [by apply K1|done|change (w_env (set_env e1 w)) with e1; by rewrite C1, lookup_insert_eq]|apply edit_record_encode; [done..|right; unfold snap, snapshot_edit; rewrite edit_files_entries, edit_ptrs_entries; by eexists]|].
    exists e2, lw, [strip_edit snap]. split_and!; [|done..|by eapply kept_trans|exists b; rewrite C2; change (w_env (set_env e1 w)) with e1; by rewrite C1, insert_insert_eq].
    unfold write_snapshot. cbn [descriptor_log set_descriptor_log]. rewrite bool_decide_true by (by eexists); cbn [massert]; rewrite bind_Ret.
    unfold current. cbn [vs_current w_versions set_env set_storage set_descriptor_log vs_opt vs_compaction_ptrs w_metas]. rewrite El. cbn [unwrap]. rewrite bind_Ret, Ev. cbn [unwrap].
    rewrite bind_Ret, I2. change (on_descriptor_log _ _) with (on_descriptor_log (add_record (encode_with (order (deleted snap)) snap)) (set_env e1 w, set_descriptor_log (Some (LogWriter_new f)) vs)).
    rewrite E2, bind_Ret. destruct edit; cbn in *; subst; done.
Qed.

(** The paths that [log_and_apply] touches. *)
Definition manifest_paths vs : list string :=
  [manifest_file_name (vs_dbname vs) (manifest_num vs); temp_file_name (vs_dbname vs) (manifest_num vs); current_file_name (vs_dbname vs)].

(** [log_and_apply] after the version was built. *)
Definition after_edit vs (edit : VersionEdit) (n : nat) lw : VersionSet w_file :=
  set_vs_log_num (default (log_num vs) (log_number edit)) (set_current (Some n)
    (set_descriptor_log (Some lw) (set_ptrs (apply_ptrs (vs_compaction_ptrs vs) (compaction_ptrs edit)) vs))).

Lemma add_inv w vs es es' v e' lw n : vs_inv w vs es → env_ok e' → history_ok (u := u) es' →
  represents (u := u) (w_metas w) (w_fresh w) v (files_of es') →
  descriptor e' (manifest_file_name (vs_dbname vs) (manifest_num vs)) lw es' →
  vs_inv (set_versions (w_versions w ++ [v]) (set_env e' w)) (set_vs_log_num n (set_current (Some (length (w_versions w))) (set_descriptor_log (Some lw) vs))) es'.
Proof.
  intros [I1 I2 _ I4 Ip I6 _] He Hh R D. split; [done|done| |done|done|done|intros lw' [= <-]; exact D].
  exists (length (w_versions w)), v. split_and!; [done| |done]. cbn. by rewrite lookup_app_r, Nat.sub_diag by lia.
Qed.

Lemma good_edit_history vs es es' edit : files_of es' = files_of es → keys_used es' ⊆ keys_used es → good_edit vs es edit → good_edit vs es' edit.
Proof.
  intros Hf Hk [G1 G2 G3 G4 G5 G6 G7]. split; [done..| |by rewrite Hf]. eapply Forall_impl; [exact G6|]. intros k Hn Hin. by apply Hn, Hk.
Qed.

Lemma log_and_apply_ok w vs es edit : vs_inv w vs es → good_edit vs es edit →
  ∃ w' lw es', log_and_apply order edit (w, vs) = Ret ((w', after_edit vs edit (length (w_versions w)) lw), Ok ())
    ∧ vs_inv w' (after_edit vs edit (length (w_versions w)) lw) es' ∧ manifest (w_env w') (vs_dbname vs) (manifest_num vs) es'
    ∧ files_of es' = edit_map (files_of es) edit ∧ last es' = Some (strip_edit (full_edit vs edit))
    ∧ keys_used es' ⊆ keys_used es ∪ list_to_set (file_key <$> new_files edit)
    ∧ kept (manifest_paths vs) (w_env w) (w_env w')
    ∧ (∀ p, p ∉ manifest_paths vs → contents (w_env w') !! p = contents (w_env w) !! p)
    ∧ w_storage w' = with_env (w_env w') (w_storage w) ∧ ∃ v, w_versions w' !! length (w_versions w) = Some v ∧ scored_as (u := u) (files_of es') v.
Proof.
  intros I G. destruct (apply_edit_ok w vs es edit I G) as (w1 & b & w2 & v & v' & E1 & E2 & E3 & I2 & Hst & Hlen & Rv & Sv).
  set (vs1 := set_ptrs _ vs) in *. set (p := manifest_file_name (vs_dbname vs) (manifest_num vs)).
  destruct (full_edit_fields vs edit) as (_ & Hd & Hn & Hl & _ & Hnf & _).
  destruct (open_descriptor_ok w2 vs1 es (full_edit vs edit) I2 Hnf) as (e3 & lw3 & es0 & E4 & D3 & H3 & F3 & U3 & K3 & b3 & C3). fold p in D3, K3, C3.
  destruct (descriptor_add (set_env e3 w2) (set_descriptor_log (Some lw3) vs1) p lw3 es0 (encode_with (order (deleted (full_edit vs edit))) (full_edit vs edit)) (strip_edit (full_edit vs edit)))
    as (e4 & lw4 & m & E5 & D4 & K4 & b4 & C4); [done..|apply edit_record_encode; [done|apply G|left; by rewrite Hl]|].
  destruct (descriptor_flush (set_env e4 w2) (set_descriptor_log (Some lw4) vs1) p lw4 _ eq_refl D4) as (e5 & lw5 & E6 & D5 & K5 & b5 & C5).
  destruct (set_current_file_ok (vs_dbname vs) (manifest_num vs) e5) as (e6 & E7 & K6 & C6); [by apply K5|by apply I|].
  change (w_env (set_env e3 w2)) with e3 in *. change (w_env (set_env e4 w2)) with e4 in *.
  destruct (paths_differ (vs_dbname vs) (manifest_num vs) (manifest_num vs)) as (P1 & P2 & P3); [by apply I..|].
  pose proof (proj1 (proj1 (conj K3 I))) as _. assert (w_env w2 = w_env w) as Ew by (unfold w_env; by rewrite Hst). rewrite Ew in *.
  assert (descriptor e6 p lw5 (es0 ++ [strip_edit (full_edit vs edit)])) as D6.
  { eapply descriptor_keep; [exact D5|exact K6|set_solver|]. rewrite C6, lookup_insert_ne, lookup_delete_ne by done. done. }
  exists (set_versions (w_versions w2 ++ [v']) (set_env e6 w2)), lw5, (es0 ++ [strip_edit (full_edit vs edit)]).
  assert (files_of (es0 ++ [strip_edit (full_edit vs edit)]) = edit_map (files_of es) edit) as Ef.
  { rewrite files_of_app. cbn [foldl]. by rewrite edit_map_strip, edit_map_full, F3. }
  split_and!; [| | |done|by rewrite last_snoc| | | |cbn; by rewrite Hst|exists v'; split; [|by rewrite Ef]; cbn; by rewrite <- Hlen, lookup_app_r, Nat.sub_diag by lia].
  - unfold log_and_apply. destruct (vi_current _ _ _ I) as (l & v0 & El & _). rewrite bool_decide_true by (rewrite El; by eexists). cbn [massert]. rewrite bind_Ret.
    replace (match log_number edit with None => _ | Some _ => _ end)
      with (Ret (match log_number edit with None => set_log_num (log_num vs) edit | Some _ => edit end)).
    2:{ pose proof (ge_log _ _ _ G) as Gl. destruct (log_number edit) as [n|]; [|done]. specialize (Gl n eq_refl). exec_run. done. }
    rewrite bind_Ret. change (set_last_seq (vs_last_seq vs) _) with (full_edit vs edit). rewrite E1, bind_Ret. cbn [vs_compaction_ptrs vs1 set_ptrs].
    fold vs1. rewrite E2, bind_Ret, E3, bind_Ret, E4, bind_Ret. unfold sbind. rewrite E5, bind_Ret.
    change (set_env e4 (set_env e3 w2)) with (set_env e4 w2). change (set_descriptor_log (Some lw4) (set_descriptor_log (Some lw3) vs1)) with (set_descriptor_log (Some lw4) vs1).
    rewrite E6, bind_Ret. change (set_env e5 (set_env e4 w2)) with (set_env e5 w2). change (w_env (set_env e5 w2)) with e5. cbn [vs_dbname manifest_num set_descriptor_log vs1 set_ptrs].
    rewrite E7, bind_Ret. unfold add_version. rewrite Hl. cbn [unwrap]. rewrite bind_Ret. unfold after_edit. rewrite <- Hlen. done.
  - unfold after_edit. fold vs1. rewrite <- Hlen. apply add_inv with (es := es); [done|by apply K6| |by rewrite Ef|exact D6].
    apply good_history; [done|]. by eapply good_edit_history.
  - eapply descriptor_manifest; [|exact D6]. cbn. by rewrite C6, lookup_insert_eq.
  - rewrite keys_used_app. apply union_mono; [done|]. unfold keys_used. cbn [fmap list_fmap concat]. by rewrite app_nil_r, strip_keys, Hn.
  - cbn. unfold manifest_paths. fold p. eapply (kept_trans [p]); [|exact K6|set_solver..].
    eapply (kept_trans [p] [p] [p]); [|exact K5|done..]. by eapply kept_trans.
  - intros q Hq. cbn. unfold manifest_paths in Hq. fold p in Hq. apply not_elem_of_cons in Hq as [Q1 Hq]. apply not_elem_of_cons in Hq as [Q2 Hq].
    apply not_elem_of_cons in Hq as [Q3 _]. by rewrite C6, lookup_insert_ne, lookup_delete_ne, C5, lookup_insert_ne, C4, lookup_insert_ne, C3, lookup_insert_ne by done.
Qed.

(** C3: An edit that is applied is on disk: [log_and_apply] of a good edit succeeds, the new
    current version has exactly the files that the edit makes of the old ones, and the manifest
    that [CURRENT] names (a new one with a snapshot of the old version, or the one in use)
    holds edits that give these files, the last of them with the counters of the version
    set; no other file of the environment is touched, and the invariant of the version set
    holds again. *)
Theorem log_and_apply_durable w vs es edit : vs_inv w vs es → good_edit vs es edit →
  ∃ w' vs' es' v', log_and_apply order edit (w, vs) = Ret ((w', vs'), Ok ())
    ∧ vs_inv w' vs' es' ∧ manifest (w_env w') (vs_dbname vs) (manifest_num vs) es'
    ∧ current w' vs' = Ret v' ∧ represents (u := u) (w_metas w') (w_fresh w') v' (edit_map (files_of es) edit)
    ∧ files_of es' = edit_map (files_of es) edit ∧ last es' = Some (strip_edit (full_edit vs edit))
    ∧ log_num vs' = default (log_num vs) (log_number edit)
    ∧ ∀ p, p ∉ manifest_paths vs → contents (w_env w') !! p = contents (w_env w) !! p.
Proof.
  intros I G. destruct (log_and_apply_ok w vs es edit I G) as (w' & lw & es' & E' & I' & M' & F' & L' & _ & _ & C' & _).
  destruct (vi_current _ _ _ I') as (l & v & El & Ev & R). rewrite F' in R. exists w', (after_edit vs edit (length (w_versions w)) lw), es', v.
  split_and!; try done. unfold current. rewrite El. cbn [unwrap]. by rewrite bind_Ret, Ev.
Qed.

(** A new version set. *)
Lemma version_set_new w db opt : env_ok (w_env w) → o_cmp opt = u →
  let (w', vs) := VersionSet_new db opt w in vs_inv w' vs [] ∧ descriptor_log vs = None ∧ vs_dbname vs = db ∧ vs_opt vs = opt ∧ w_env w' = w_env w.
Proof.
  intros He Ho. cbn. split_and!; try done. split; [done|done| | | |done|done].
  - exists (length (w_versions w)), (Version_new u). cbn. rewrite Ho, lookup_app_r, Nat.sub_diag by lia. split_and!; [done..|].
    split; [done|done| |by repeat constructor]. intros l fs Hl. cbn in Hl. apply lookup_replicate in Hl as [-> _].
    split; [constructor| |constructor]. intros n d. cbn. rewrite lookup_empty. split; [done|by intros (? & ?%elem_of_nil & _)].
  - split; try constructor; try done.
  - cbn. split; [done|]. by repeat constructor.
Qed.

End log_and_apply.

(** ** Witnesses *)

Module TestManifest.
#[local] Existing Instance Reference.ref_encoding.
#[local] Existing Instance Reference.ref_encoding_laws.
#[local] Existing Instance Reference.ref_crc.
#[local] Existing Instance Reference.ref_crc_laws.
#[local] Instance EN : Env MemFS := MemEnv id.
#[local] Instance EL : EnvLaws MemFS := MemEnv_laws id.

Definition storage : Storage MemFS ra_file :=
  {| st_env := MemFS_new; st_blocks := {| c_list := LRUList_new; c_map := ∅; c_cap := 10; c_id := 0 |};
     st_tables := {| tc_dbname := "db"; tc_cache := {| c_list := LRUList_new; c_map := ∅; c_cap := 4; c_id := 0 |}; tc_opts := TestStorage.uopts |} |}.
Definition world : World MemFS ra_file := {| w_storage := storage; w_metas := λ _, FileMetaData_default; w_fresh := 0; w_versions := [] |}.
Definition fresh : World MemFS ra_file * VersionSet w_file := VersionSet_new "db" TestStorage.uopts world.

(** Two files, of level 0 and of level 1. *)
Definition file (n : Z) (lo hi : bytes) : FileMetaData := mkFile 0 n 1000 (ikey lo 5 TypeValue) (ikey hi 4 TypeValue).
Definition edit : VersionEdit := add_file 1 (file 4 [97] [98]) (add_file 0 (file 3 [97] [100]) VersionEdit_new).

Lemma world_ok : env_ok (w_env world).
Proof. split; cbn; by intros. Qed.

Lemma fresh_ok : vs_inv (u := DefaultCmp) fresh.1 fresh.2 [] ∧ descriptor_log fresh.2 = None ∧ vs_dbname fresh.2 = "db" ∧ vs_opt fresh.2 = TestStorage.uopts ∧ w_env fresh.1 = w_env world.
Proof. exact (version_set_new (u := DefaultCmp) world "db" TestStorage.uopts world_ok eq_refl). Qed.

Lemma id_ok : utf8_valid (string_bytes (cmp_id DefaultCmp)) = true ∧ key_fits (string_bytes (cmp_id DefaultCmp)).
Proof. split; [done|]. by_decide. Qed.

Lemma file_ok n lo hi : is_u 64 n → key_ok (InternalKeyCmp DefaultCmp) (ikey lo 5 TypeValue) → key_ok (InternalKeyCmp DefaultCmp) (ikey hi 4 TypeValue) →
  ord (InternalKeyCmp DefaultCmp) (ikey lo 5 TypeValue) (ikey hi 4 TypeValue) ≠ Gt → key_fits (ikey lo 5 TypeValue) → key_fits (ikey hi 4 TypeValue) →
  meta_ok (u := DefaultCmp) (file n lo hi).
Proof. intros. by split_and!. Qed.

Lemma edit_good : good_edit (u := DefaultCmp) fresh.2 [] edit.
Proof.
  assert (meta_ok (u := DefaultCmp) (file 3 [97] [100])) as M3 by (apply file_ok; by_decide || (split_and!; by_decide || done) || done).
  assert (meta_ok (u := DefaultCmp) (file 4 [97] [98])) as M4 by (apply file_ok; by_decide || (split_and!; by_decide || done) || done).
  split.
  - done.
  - by_decide.
  - split; [constructor|by intros ?|]. by repeat constructor.
  - by repeat constructor.
  - by_decide.
  - by_decide.
  - assert (∀ l n d, edit_map (files_of []) edit !! (l, n) = Some d → (l = 1 ∧ n = 4 ∧ d = core (file 4 [97] [98])) ∨ (l = 0 ∧ n = 3 ∧ d = core (file 3 [97] [100]))) as Hm.
    { intros l n d. rewrite edit_map_lookup by by_decide. intros [(lf & Hin & [= <- <-] & <-)|[[Hd _] _]]; [|done].
      cbn in Hin. apply elem_of_cons in Hin as [->|Hin]; [by right|]. apply list_elem_of_singleton in Hin as ->. by left. }
    split; [|intros l n d n' d' H1 H2 Hl Hne|by_decide].
    + intros l n d [(-> & -> & ->)|(-> & -> & ->)]%Hm; split_and!; try done; by apply meta_ok_core.
    + apply Hm in H1 as [(-> & -> & ->)|(-> & -> & ->)]; [|lia]. apply Hm in H2 as [(_ & -> & _)|(? & _)]; [done|lia].
Qed.
End TestManifest.

Lemma log_and_apply_durable_witness :
  let IE := Reference.ref_encoding in let CR := Reference.ref_crc in let EN := MemEnv id in let EL := MemEnv_laws id in
  let w := TestManifest.fresh.1 in let vs := TestManifest.fresh.2 in
  ∃ w' vs' es' v', log_and_apply elements TestManifest.edit (w, vs) = Ret ((w', vs'), Ok ())
    ∧ vs_inv (u := DefaultCmp) w' vs' es' ∧ manifest (w_env w') (vs_dbname vs) (manifest_num vs) es'
    ∧ current w' vs' = Ret v' ∧ represents (u := DefaultCmp) (w_metas w') (w_fresh w') v' (edit_map (files_of []) TestManifest.edit)
    ∧ files_of es' = edit_map (files_of []) TestManifest.edit ∧ last es' = Some (strip_edit (full_edit vs TestManifest.edit))
    ∧ log_num vs' = default (log_num vs) (log_number TestManifest.edit)
    ∧ ∀ p, p ∉ manifest_paths vs → contents (w_env w') !! p = contents (w_env w) !! p.
Proof.
  intros IE CR EN EL w vs.
  apply (log_and_apply_durable (IEL := Reference.ref_encoding_laws) (CRL := Reference.ref_crc_laws) (u := DefaultCmp) elements (λ s, reflexivity _) TestManifest.id_ok w vs [] TestManifest.edit).
  - apply TestManifest.fresh_ok.
  - apply TestManifest.edit_good.
Defined.
