(* ===== verification/Recover.v ===== *)
(** * Recover: what [VersionSet::recover] reads from the manifest

    [recover] of [src/version_set.rs] against the interface of environments: the version set
    has the files, the counters and the compaction pointers that the edits of the manifest
    give, and goes on writing to it or to a new one. *)

From Stdlib Require Import Ascii.
From S2P Require Import Prelude Encoding Error Io Env MemEnv Types Cmp KeyTypes Log Iterator Filter FilterBlock Options BlockBuilder Block Cache TableBuilder Table TableFile TableRead TableCache Version VersionEdit MergingIter VersionSet Builder Manifest.

(** The last value of a field that the edits give. *)
Definition last_field (f : VersionEdit → option Z) (es : list VersionEdit) (o : option Z) : option Z :=
  foldl (λ o ve, or_else (f ve) o) o es.

Lemma last_field_snoc f es ve o n : f ve = Some n → last_field f (es ++ [ve]) o = Some n.
Proof. intros H. unfold last_field. rewrite foldl_app. cbn. by rewrite H. Qed.

Section recover.
Context `{IEL : IntegerEncodingLaws} `{CRL : Crc32Laws} `{EL : EnvLaws E} {u : Cmp} {UO : OrderedCmp u}.
Context (order : gset (Z * Z) → list (Z * Z)) (order_ok : ∀ s, order s ≡ₚ elements s).
Implicit Types (w : World E ra_file) (vs : VersionSet w_file) (es : list VersionEdit) (r : Recovered).

(** What has been recovered after the edits [es], from [r]. *)
Record recovered (r : Recovered) es (r' : Recovered) : Prop := {
  rc_ptrs_ok : rc_ptrs r' = foldl (λ ptrs ve, apply_ptrs ptrs (compaction_ptrs ve)) (rc_ptrs r) es;
  rc_log_ok : rc_log r' = last_field log_number es (rc_log r);
  rc_prev_ok : rc_prev r' = last_field prev_log_number es (rc_prev r);
  rc_next_ok : rc_next r' = last_field next_file_number es (rc_next r);
  rc_seq_ok : rc_seq r' = last_field ve_last_seq es (rc_seq r);
}.

Lemma recover_edit_ok ve r w used m :
  builder_inv (u := u) (w_metas w) (w_fresh w) (rc_builder r) ∅ used m → length (rc_ptrs r) = Z.to_nat NUM_LEVELS →
  edit_levels ve → Forall (λ lf, meta_ok (u := u) lf.2) (new_files ve) → NoDup (file_key <$> new_files ve) → Forall (.∉ used) (file_key <$> new_files ve) →
  ∃ w' r', recover_edit order ve r w = Ret (w', r') ∧ recovered r [ve] r' ∧ allocated w w'
    ∧ builder_inv (u := u) (w_metas w') (w_fresh w') (rc_builder r') ∅ (used ∪ list_to_set (file_key <$> new_files ve)) (edit_map m ve).
Proof.
  intros B Hp Hl Hm Hn Hu. unfold recover_edit.
  destruct (builder_apply_ok (u := u) order order_ok ve (rc_ptrs r) (rc_builder r) w ∅ used m B Hp Hl Hm Hn Hu) as (w' & b' & -> & B' & A).
  rewrite bind_Ret. eexists w', _. by split_and!.
Qed.

Lemma recover_loop_ok (e0 : E) rfuel rs es : Forall2 edit_record rs es → ∀ off b off' fuel lr r w used m,
  enc_records BLOCK_SIZE off rs b off' → 0 ≤ off ≤ BLOCK_SIZE → reader_at (RR := env_reader e0) BLOCK_SIZE off lr b →
  (length rs < fuel)%nat → Forall (λ b : bytes, 2 * length b + 2 ≤ S rfuel)%nat rs →
  builder_inv (u := u) (w_metas w) (w_fresh w) (rc_builder r) ∅ used m → length (rc_ptrs r) = Z.to_nat NUM_LEVELS →
  fresh_edits used es → Forall edit_levels es → Forall (λ ve, Forall (λ lf, meta_ok (u := u) lf.2) (new_files ve)) es →
  ∃ e' w' r' used', recover_loop order fuel (S rfuel) lr r w = Ret (set_env e' w', (r', Ok ()))
    ∧ kept [] e0 e' ∧ contents e' = contents e0 ∧ allocated w w' ∧ recovered r es r'
    ∧ builder_inv (u := u) (w_metas w') (w_fresh w') (rc_builder r') ∅ used' (foldl edit_map m es).
Proof.
  assert (size_ok BLOCK_SIZE) as Hs by (by_decide || done).
  induction 1 as [|rec ve rs es [Hne Hdec] Hrs IH]; intros off b off' fuel lr r w used m He Ho Hat Hf Hrf B Hp Hfr Hlv Hmt;
    (destruct fuel as [|fuel]; [cbn in Hf; lia|]); cbn [recover_loop]; inversion He; subst.
  - destruct (log_read_end (RR := env_reader e0) BLOCK_SIZE off' rfuel lr Hs Ho Hat) as (lr' & buf & res & -> & Hres & Hr). rewrite bind_Ret.
    destruct (lr_src lr') as [e' f'] eqn:Es. cbn in Hr. destruct Hr as (K & C & _). exists e', w, r, used.
    split_and!; [|done|done|apply allocated_refl|by split|done]. destruct res as [n|]; [|done]. by rewrite Hres.
  - apply Forall_cons in Hrf as [Hrf Hrfs]. match goal with H : enc_record _ _ _ _ _ |- _ => rename H into Hrec end.
    match goal with H : enc_records _ _ rs _ _ |- _ => rename H into Hencs end.
    pose proof (enc_record_offset _ _ _ _ _ Hs Hrec Ho) as [Ho1 _].
    destruct (log_read_record (RR := env_reader e0) BLOCK_SIZE off rec _ _ (S rfuel) lr _ Hs Hrec Ho Hrf Hat) as (lr' & -> & Hat'). rewrite bind_Ret.
    rewrite (proj2 (Z.eqb_neq (zlen rec) 0)) by (destruct rec; [done|simpl; lia]). rewrite Hdec, bind_Ret.
    cbn [fresh_edits] in Hfr. destruct Hfr as (F1 & F2 & F3). apply Forall_cons in Hlv as [L1 L2]. apply Forall_cons in Hmt as [M1 M2].
    destruct (recover_edit_ok ve r w used m B Hp L1 M1 F1 F2) as (w1 & r1 & -> & [P1 P2 P3 P4 P5] & A1 & B1). rewrite bind_Ret. cbn in P1, P2, P3, P4, P5.
    destruct (IH _ _ _ fuel lr' r1 w1 (used ∪ list_to_set (file_key <$> new_files ve)) (edit_map m ve) Hencs Ho1 Hat') as (e' & w' & r' & used' & E' & K & C & A & [Q1 Q2 Q3 Q4 Q5] & B'); [simpl in Hf; lia|done|exact B1|by rewrite P1, length_apply_ptrs|done..|].
    exists e', w', r', used'. split_and!; [done..|by eapply allocated_trans| |done].
    split; cbn; [by rewrite Q1, P1|by rewrite Q2, P2|by rewrite Q3, P3|by rewrite Q4, P4|by rewrite Q5, P5].
Qed.

(** The counters after [recover]. *)
Record counters := mkCounters { cn_log : Z; cn_prev : option Z; cn_next : Z; cn_seq : Z }.

Definition counters_of es : option counters :=
  ln ← last_field log_number es None;
  nf ← last_field next_file_number es None;
  sq ← last_field ve_last_seq es None;
  Some (mkCounters ln (last_field prev_log_number es None) nf sq).

(** The file numbers in use leave room for the next one. *)
Definition counters_ok (c : counters) : Prop :=
  0 ≤ cn_log c < 2 ^ 64 - 1 ∧ 0 ≤ cn_next c < 2 ^ 64 - 1 ∧ 0 ≤ default 0 (cn_prev c) < 2 ^ 64 - 1.

Definition next_number (c : counters) : Z := Z.max (cn_next c + 1) (match cn_prev c with Some p => p + 1 | None => 0 end).

Lemma mark_used (n : Z) vs : 0 ≤ n < 2 ^ 64 - 1 → mark_file_number_used n vs = Ret (set_next_file_num (Z.max (next_file_num vs) (n + 1)) vs).
Proof.
  intros Hn. unfold mark_file_number_used. destruct (Z.leb_spec (next_file_num vs) n).
  - unfold uadd. rewrite (proj2 (Z.ltb_lt (n + 1) (2 ^ 64))), bind_Ret by lia. by rewrite Z.max_r by lia.
  - rewrite Z.max_l by lia. by destruct vs.
Qed.

Lemma recover_counters_ok r vs c : counters_ok c →
  rc_log r = Some (cn_log c) → rc_prev r = cn_prev c → rc_next r = Some (cn_next c) → rc_seq r = Some (cn_seq c) →
  recover_counters r vs = Ret (set_next_file_num (next_number c) (set_vs_prev_log_num (default 0 (cn_prev c))
    (set_vs_last_seq (cn_seq c) (set_vs_log_num (cn_log c) vs))), Ok ()).
Proof.
  intros (H1 & H2 & H3) E1 E2 E3 E4. unfold recover_counters. rewrite E1, mark_used, bind_Ret, E3, E4 by done.
  unfold uadd. rewrite (proj2 (Z.ltb_lt (cn_next c + 1) (2 ^ 64))), bind_Ret by lia. rewrite E2. unfold next_number. destruct (cn_prev c) as [p|].
  - rewrite mark_used, bind_Ret by done. done.
  - by rewrite (Z.max_l _ 0) by lia.
Qed.

(** A log is at least as long as its records. *)
Lemma enc_record_length bs off rec b off' : enc_record bs off rec b off' → (length rec < length b)%nat.
Proof.
  induction 1 as [off rec t Ht Hr|off r1 r2 t b off' Ht Hr Hb IH]; rewrite !length_app.
  - pose proof (length_frag t rec). change HEADER_SIZE with 7 in *. lia.
  - pose proof (length_frag t r1). change HEADER_SIZE with 7 in *. lia.
Qed.

Lemma enc_records_length bs off rs b off' : enc_records bs off rs b off' →
  (length rs ≤ length b)%nat ∧ Forall (λ rec, length rec ≤ length b)%nat rs.
Proof.
  induction 1 as [|off rec b off1 rs bb off' _ Hr _ [IH1 IH2]]; [done|]. apply enc_record_length in Hr. rewrite length_app. cbn. split; [lia|].
  constructor; [lia|]. eapply Forall_impl; [exact IH2|]. cbn. lia.
Qed.

(** The manifest number [n] is open for appending, or a new one will be written. *)
Lemma do_reuse_ok w vs es n : vs_inv (u := u) w vs es → descriptor_log vs = None → is_u 64 n → manifest (w_env w) (vs_dbname vs) n es →
  ∃ e' vs' reused, do_reuse_manifest (manifest_file_name (vs_dbname vs) n) (manifest_name n) (w, vs) = Ret ((set_env e' w, vs'), reused)
    ∧ vs_inv (u := u) (set_env e' w) vs' es ∧ contents e' = contents (w_env w) ∧ kept [manifest_file_name (vs_dbname vs) n] (w_env w) e'
    ∧ (if reused then ∃ lw, vs' = set_manifest_num n (set_descriptor_log (Some lw) vs) else vs' = vs).
Proof.
  intros I Hd Hn (Hcur & b & rs & Hb & [off Hl] & Hr). pose proof I as [I1 I2 I3 I4 I5 I6 I7]. set (p := manifest_file_name (vs_dbname vs) n) in *.
  assert (∀ vs0, (w, vs0) = (set_env (w_env w) w, vs0)) as Hw by (intros vs0; by destruct w as [[] ? ? ?]).
  assert (vs_inv (u := u) (set_env (w_env w) w) vs es) as Iw by (by destruct w as [[] ? ? ?]).
  unfold do_reuse_manifest. destruct (reuse_manifest (vs_opt vs)); cbn [negb]; [|exists (w_env w), vs, false; split_and!; [by rewrite <- Hw|done|done|by apply kept_refl|done]].
  rewrite parse_manifest, (size_law p (w_env w) b), bind_Ret by done.
  destruct (_ <=? zlen b); [exists (w_env w), vs, false; split_and!; [by rewrite <- Hw|done|done|by apply kept_refl|done]|].
  rewrite bool_decide_true by done. cbn [massert]. rewrite bind_Ret.
  destruct (open_appendable_law p (w_env w) I1) as (e1 & f & -> & K1 & C1 & A1). rewrite bind_Ret. rewrite Hb in C1. cbn in C1. rewrite insert_id in C1 by done.
  eexists e1, _, true. split_and!; [done| |done|done|by eexists].
  split; [apply K1|done|done|done|done|done|]. intros lw [= <-]. exists rs. split; [|done].
  assert (written (ReliableWrite := env_writer e1 p) (e1, f) = b) as Hw1 by (cbn; by rewrite C1, Hb).
  pose proof (log_writer_reopen (RW := env_writer e1 p) (e1, f) rs) as L. rewrite Hw1 in L. apply L; [|by exists off].
  cbn. split_and!; [by apply kept_refl, K1|done|]. exists b. rewrite insert_id; [done|]. by rewrite C1.
Qed.

(** The version set after the edits [es], before it is known whether the manifest is reused. *)
Definition after_recover vs es (c : counters) (n : nat) : VersionSet w_file :=
  set_manifest_num (next_number c - 1) (set_current (Some n) (set_next_file_num (next_number c) (set_vs_prev_log_num (default 0 (cn_prev c))
    (set_vs_last_seq (cn_seq c) (set_vs_log_num (cn_log c)
      (set_ptrs (foldl (λ ptrs ve, apply_ptrs ptrs (compaction_ptrs ve)) (vs_compaction_ptrs vs) es) vs)))))).

Lemma counters_of_Some es c : counters_of es = Some c →
  last_field log_number es None = Some (cn_log c) ∧ last_field prev_log_number es None = cn_prev c
  ∧ last_field next_file_number es None = Some (cn_next c) ∧ last_field ve_last_seq es None = Some (cn_seq c).
Proof. unfold counters_of. intros H. by simplify_option_eq. Qed.

Lemma ptrs_fold es ptrs : length ptrs = Z.to_nat NUM_LEVELS → Forall key_fits ptrs → Forall (λ ve, Forall (λ c, key_fits (cp_key c)) (compaction_ptrs ve)) es →
  let ptrs' := foldl (λ ptrs ve, apply_ptrs ptrs (compaction_ptrs ve)) ptrs es in length ptrs' = Z.to_nat NUM_LEVELS ∧ Forall key_fits ptrs'.
Proof.
  intros Hl Hf He. revert ptrs Hl Hf. induction He as [|ve es Hv _ IH]; intros ptrs Hl Hf; cbn; [done|]. apply IH; [by rewrite length_apply_ptrs|by apply apply_ptrs_fits].
Qed.

Lemma vs_recover_ok fuel rfuel w vs es n c b : vs_inv (u := u) w vs [] → descriptor_log vs = None → is_u 64 n →
  manifest (w_env w) (vs_dbname vs) n es → contents (w_env w) !! manifest_file_name (vs_dbname vs) n = Some b →
  history_ok (u := u) es → counters_of es = Some c → counters_ok c →
  (length (current_bytes n) < fuel)%nat → (length b < fuel)%nat → (2 * length b + 2 ≤ rfuel)%nat →
  ∃ w' vs' reused, vs_recover order fuel rfuel (w, vs) = Ret ((w', vs'), Ok (negb reused))
    ∧ vs_inv (u := u) w' vs' es ∧ contents (w_env w') = contents (w_env w) ∧ w_storage w' = with_env (w_env w') (w_storage w)
    ∧ kept [manifest_file_name (vs_dbname vs) n] (w_env w) (w_env w')
    ∧ (∃ v, w_versions w' !! length (w_versions w) = Some v ∧ scored_as (u := u) (files_of es) v)
    ∧ let vs1 := after_recover vs es c (length (w_versions w)) in
      if reused then ∃ lw, vs' = set_manifest_num n (set_descriptor_log (Some lw) vs1) else vs' = vs1.
Proof.
  intros I Hd Hn Hman Hb Hh Hc Hco Hf1 Hf2 Hf3. pose proof I as [I1 I2 (l & v0 & El & Ev & R) I4 [Ip If] I6 I7].
  destruct Hman as (Hcur & b' & rs & Hb' & [off Hl] & Hr). rewrite Hb in Hb'. injection Hb' as <-. destruct (enc_records_length _ _ _ _ _ Hl) as [Hl1 Hl2].
  destruct (counters_of_Some _ _ Hc) as (C1 & C2 & C3 & C4). destruct rfuel as [|rfuel]; [lia|].
  unfold vs_recover. rewrite bool_decide_true by (rewrite El; by eexists). cbn [massert]. rewrite bind_Ret.
  destruct (read_current_file_ok fuel (vs_dbname vs) n (w_env w) I1 Hn Hcur Hf1) as (e1 & -> & K1 & Ce1). rewrite bind_Ret.
  rewrite string_length_app. change (String.length (String (ascii_of_nat 10) "")) with 1%nat. rewrite usub_Ret, bind_Ret by lia.
  replace (Z.to_nat (Z.of_nat (String.length (manifest_name n) + 1) - 1)) with (String.length (manifest_name n)) by lia. rewrite substring_all.
  change (path_join (vs_dbname vs) (manifest_name n)) with (manifest_file_name (vs_dbname vs) n). change (w_env (set_env e1 w)) with e1.
  destruct (open_sequential_law (manifest_file_name (vs_dbname vs) n) e1 b) as (e2 & f & -> & K2 & Ce2 & L2); [apply K1|by rewrite Ce1|]. rewrite bind_Ret.
  change (w_env (set_env e2 (set_env e1 w))) with e2. set (w2 := set_env e2 (set_env e1 w)).
  destruct (recover_loop_ok e2 rfuel rs es Hr 0 b off fuel (LogReader_new (e2, f) true)
    {| rc_builder := Builder_new; rc_ptrs := vs_compaction_ptrs vs; rc_log := None; rc_prev := None; rc_next := None; rc_seq := None |} w2 ∅ ∅)
    as (e3 & w3 & r & used & E3 & K3 & Ce3 & A3 & [P1 P2 P3 P4 P5] & B3);
    [done|done| |lia| |apply builder_new; by intros ? [? ?]|done|apply Hh..|].
  { split; try done; cbn; [|by rewrite L2]. split_and!; [apply kept_refl, K2|done|by rewrite L2]. }
  { eapply Forall_impl; [exact Hl2|]. cbn. lia. }
  rewrite E3, bind_Ret. cbn in P1, P2, P3, P4, P5. rewrite C1 in P2. rewrite C2 in P3. rewrite C3 in P4. rewrite C4 in P5.
  rewrite (recover_counters_ok r _ c), bind_Ret by done.
  pose proof (al_versions _ _ A3) as Av. pose proof (represents_allocated _ _ _ _ A3 R) as R3.
  match goal with |- context [build_version _ ?w ?vs] => set (w4 := w); set (vs4 := vs) end.
  destruct (build_version_ok w4 vs4 l v0 (rc_builder r) ∅ used (files_of es) I2 El ltac:(cbn; by rewrite Av) B3 R3 (hi_map _ I4) (hi_map _ Hh))
    as (base' & v & v' & -> & E5 & Rb & Rv & Sv). rewrite bind_Ret. change (w_metas (set_versions _ w4)) with (w_metas w4). rewrite E5, bind_Ret. unfold add_version.
  match goal with |- context [set_current (Some ?k) vs4] => replace k with (length (w_versions w)) by (cbn; by rewrite length_insert, Av) end.
  rewrite usub_Ret, bind_Ret by (unfold counters_ok in Hco; cbn; unfold next_number; lia).
  match goal with |- context [do_reuse_manifest _ _ (?w, ?vs)] => set (w5 := w); set (vs5 := vs) end.
  destruct (ptrs_fold es (vs_compaction_ptrs vs) Ip If (hi_ptrs _ Hh)) as [Ip' If']. rewrite <- P1 in Ip', If'.
  assert (contents (w_env w5) = contents (w_env w)) as Cw by (cbn; by rewrite Ce3, Ce2, Ce1).
  destruct (do_reuse_ok w5 vs5 es n) as (e6 & vs6 & reused & E6 & I6' & Ce6 & K6 & Hreused); [|done|done| |].
  { split; [apply K3|done| |done|done| |cbn; by rewrite Hd].
    - exists (length (w_versions w)), v'. split_and!; [done| |done]. cbn. rewrite lookup_app_r, length_insert, Av by (rewrite length_insert, Av; cbn; lia). by rewrite Nat.sub_diag.
    - cbn. unfold counters_ok in Hco. unfold next_number, is_u. destruct (cn_prev c); cbn in Hco; lia. }
  { split; rewrite Cw; [done|]. exists b, rs. split_and!; [done|by exists off|done]. }
  change (vs_dbname vs5) with (vs_dbname vs) in E6. rewrite E6, bind_Ret. exists (set_env e6 w5), vs6, reused.
  split_and!; [done|done|by rewrite <- Cw|cbn; by rewrite (al_storage _ _ A3)| |exists v'; split; [|done]; cbn; by rewrite lookup_app_r, length_insert, Av, Nat.sub_diag by (rewrite length_insert, Av; cbn; lia)|].
  { eapply kept_trans; [exact K1| |by apply list_subseteq_nil|done]. eapply kept_trans; [exact K2| |by apply list_subseteq_nil|done].
    eapply kept_trans; [exact K3|exact K6|by apply list_subseteq_nil|done]. }
  assert (vs5 = after_recover vs es c (length (w_versions w))) as -> by (unfold vs5, vs4, after_recover; cbn; by rewrite P1).
  done.
Qed.

(** The counters that an edit leaves in the manifest. *)
Definition edit_counters vs (edit : VersionEdit) : counters :=
  {| cn_log := default (log_num vs) (log_number edit); cn_prev := Some (default (prev_log_num vs) (prev_log_number edit));
     cn_next := next_file_num vs; cn_seq := vs_last_seq vs |}.

Lemma counters_of_last vs edit es : last es = Some (strip_edit (full_edit vs edit)) → counters_of es = Some (edit_counters vs edit).
Proof.
  intros (es' & ->)%last_Some. destruct (full_edit_fields vs edit) as (_ & _ & _ & H1 & H2 & H3 & H4). unfold counters_of.
  set (ve := strip_edit (full_edit vs edit)).
  by rewrite (last_field_snoc log_number _ ve _ _ H1), (last_field_snoc prev_log_number _ ve _ _ H2), (last_field_snoc next_file_number _ ve _ _ H3), (last_field_snoc ve_last_seq _ ve _ _ H4).
Qed.

Context (Hid : utf8_valid (string_bytes (cmp_id u)) = true ∧ key_fits (string_bytes (cmp_id u))).

(** C4: What [log_and_apply] has put on disk, [recover] gets back: a new version set over any
    environment with the same contents recovers, its version has exactly the files of the version
    that the edit made, its log numbers and last sequence number are those of the version set
    that wrote the manifest, and the next file number is larger; it satisfies the invariant
    again, whether it goes on with the same manifest or starts a new one.  Fuel for as many
    records as the manifest has bytes is enough. *)
Theorem recover_restores w vs es edit : vs_inv (u := u) w vs es → good_edit (u := u) vs es edit → counters_ok (edit_counters vs edit) →
  ∃ w1 vs1 b, log_and_apply order edit (w, vs) = Ret ((w1, vs1), Ok ())
    ∧ contents (w_env w1) !! manifest_file_name (vs_dbname vs) (manifest_num vs) = Some b
    ∧ ∀ (w2 : World E ra_file) opt fuel rfuel, env_ok (w_env w2) → contents (w_env w2) = contents (w_env w1) → o_cmp opt = u →
      (length (current_bytes (manifest_num vs)) < fuel)%nat → (length b < fuel)%nat → (2 * length b + 2 ≤ rfuel)%nat →
      ∃ w3 vs3 es3 v3 reused, vs_recover order fuel rfuel (VersionSet_new (vs_dbname vs) opt w2) = Ret ((w3, vs3), Ok (negb reused))
        ∧ vs_inv (u := u) w3 vs3 es3 ∧ (reused = true ↔ is_Some (descriptor_log vs3))
        ∧ current w3 vs3 = Ret v3 ∧ represents (u := u) (w_metas w3) (w_fresh w3) v3 (edit_map (files_of es) edit)
        ∧ log_num vs3 = log_num vs1 ∧ prev_log_num vs3 = default (prev_log_num vs) (prev_log_number edit) ∧ vs_last_seq vs3 = vs_last_seq vs1
        ∧ next_file_num vs1 < next_file_num vs3.
Proof.
  intros I G Hco. destruct (log_and_apply_ok order order_ok Hid w vs es edit I G) as (w1 & lw & es1 & E1 & I1 & M1 & F1 & L1 & _).
  pose proof M1 as (_ & b & _ & Hb & _). exists w1, (after_edit vs edit (length (w_versions w)) lw), b. split_and!; [done|done|].
  intros w2 opt fuel rfuel He Hc Ho Hf1 Hf2 Hf3. pose proof (version_set_new (u := u) w2 (vs_dbname vs) opt He Ho) as Hnew.
  destruct (VersionSet_new (vs_dbname vs) opt w2) as [w2' vs2]. destruct Hnew as (I2 & D2 & N2 & _ & W2).
  destruct (vs_recover_ok fuel rfuel w2' vs2 es1 (manifest_num vs) (edit_counters vs edit) b) as (w3 & vs3 & reused & E3 & I3 & _ & _ & _ & _ & Hr3); try done.
  - apply I.
  - rewrite N2, W2. unfold manifest. by rewrite Hc.
  - by rewrite N2, W2, Hc.
  - apply I1.
  - by apply counters_of_last.
  - destruct (vi_current _ _ _ I3) as (l3 & v3 & El3 & Ev3 & R3). rewrite F1 in R3. exists w3, vs3, es1, v3, reused.
    assert (current w3 vs3 = Ret v3) as Ec by (unfold current; rewrite El3; cbn [unwrap]; by rewrite bind_Ret, Ev3).
    assert (next_file_num vs < next_number (edit_counters vs edit)) as Hnn by (unfold next_number; cbn; lia).
    split_and!; try done; (destruct reused; cbv zeta iota in Hr3; [destruct Hr3 as [lw3 ->]|rewrite Hr3]); try done.
    split; [done|]. cbn. rewrite D2. by intros [? ?].
Qed.

End recover.

Lemma recover_restores_witness :
  let IE := Reference.ref_encoding in let CR := Reference.ref_crc in let EN := MemEnv id in let EL := MemEnv_laws id in
  let w := TestManifest.fresh.1 in let vs := TestManifest.fresh.2 in
  ∃ w1 vs1 b, log_and_apply elements TestManifest.edit (w, vs) = Ret ((w1, vs1), Ok ())
    ∧ contents (w_env w1) !! manifest_file_name (vs_dbname vs) (manifest_num vs) = Some b
    ∧ ∀ (w2 : World MemFS ra_file) opt fuel rfuel, env_ok (w_env w2) → contents (w_env w2) = contents (w_env w1) → o_cmp opt = DefaultCmp →
      (length (current_bytes (manifest_num vs)) < fuel)%nat → (length b < fuel)%nat → (2 * length b + 2 ≤ rfuel)%nat →
      ∃ w3 vs3 es3 v3 reused, vs_recover elements fuel rfuel (VersionSet_new (vs_dbname vs) opt w2) = Ret ((w3, vs3), Ok (negb reused))
        ∧ vs_inv (u := DefaultCmp) w3 vs3 es3 ∧ (reused = true ↔ is_Some (descriptor_log vs3))
        ∧ current w3 vs3 = Ret v3 ∧ represents (u := DefaultCmp) (w_metas w3) (w_fresh w3) v3 (edit_map (files_of []) TestManifest.edit)
        ∧ log_num vs3 = log_num vs1 ∧ prev_log_num vs3 = default (prev_log_num vs) (prev_log_number TestManifest.edit) ∧ vs_last_seq vs3 = vs_last_seq vs1
        ∧ next_file_num vs1 < next_file_num vs3.
Proof.
  intros IE CR EN EL w vs.
  apply (recover_restores (IEL := Reference.ref_encoding_laws) (CRL := Reference.ref_crc_laws) (u := DefaultCmp) elements (λ s, reflexivity _) TestManifest.id_ok w vs [] TestManifest.edit).
  - apply TestManifest.fresh_ok.
  - apply TestManifest.edit_good.
  - cbv. split_and!; done.
Defined.
