(* ===== verification/Tables.v ===== *)
(** * Tables: the files of a version

    A version of [src/version_set.rs] as a map of files: what [live_files] gives, and a file
    that is added to the level [pick_memtable_output_level] of [src/version.rs] has chosen. *)

From S2P Require Import Prelude Encoding Error Io Env MemEnv Types Cmp KeyTypes Log Iterator Filter FilterBlock Options BlockBuilder Block Cache TableBuilder Table TableFile TableRead TableCache Version VersionEdit MergingIter VersionSet Builder Manifest Recover.

(** ** The version *)

Section version.
Context {IE : IntegerEncoding} {u : Cmp} {UO : OrderedCmp u}.
Implicit Types (M : Metas) (v : Version) (m : filemap).

Lemma represents_files M fresh v m l : map_ok (u := u) m → represents (u := u) M fresh v m → level_ok l →
  ∃ fs, v_files v !! Z.to_nat l = Some fs ∧ files_at v l = fs ∧ level_files_of (u := u) M m l fs ∧ Forall (λ f, meta_ok (u := u) (core (M f))) fs.
Proof.
  intros Hm R Hl. destruct (lookup_lt_is_Some_2 (v_files v) (Z.to_nat l)) as [fs Hf]; [rewrite (rp_levels _ _ _ _ R); unfold level_ok in Hl; lia|]. exists fs.
  pose proof (rp_files _ _ _ _ R _ _ Hf) as L. rewrite Z2Nat.id in L by apply Hl. split_and!; [done|unfold files_at; by rewrite Hf|done|].
  apply Forall_forall. intros f Hin. apply (mo_key _ Hm l (num (M f))). apply (lf_files _ _ _ _ L). by exists f.
Qed.

Lemma represents_ok M fresh v m : map_ok (u := u) m → represents (u := u) M fresh v m → version_ok (u := u) M v.
Proof.
  intros Hm R. assert (∀ l fs, v_files v !! l = Some fs → Forall (file_ok (u := u) M) fs ∧ Forall (λ f, 0 ≤ size (M f)) fs ∧ sum_sizes M fs < 2 ^ 64) as H.
  { intros l fs Hl. pose proof (rp_files _ _ _ _ R _ _ Hl) as L. destruct (level_bytes (u := u) M m _ _ Hm L) as [Hp Hs]. pose proof (mo_bytes _ Hm). split_and!; [|done|lia].
    apply Forall_forall. intros f Hin. destruct (mo_key _ Hm (Z.of_nat l) (num (M f)) (core (M f))) as (_ & _ & _ & K1 & K2 & K3 & _); [|done].
    apply (lf_files _ _ _ _ L). by exists f. }
  split; [apply R|apply R|apply Forall_lookup..]; intros l fs Hl; by apply (H l fs Hl).
Qed.

(** The files of the map. *)
Definition numbers m : gset Z := set_map snd (dom m).

Lemma numbers_insert m l n d k : k ∈ numbers (<[(l, n) := d]> m) ↔ k = n ∨ k ∈ numbers m.
Proof. unfold numbers. rewrite dom_insert, set_map_union_L, set_map_singleton_L. set_solver. Qed.

Lemma live_files_ok `{EN : Env E} (w : World E ra_file) (vs : VersionSet w_file) l v m : vs_current vs = Some l → w_versions w !! l = Some v →
  map_ok (u := u) m → represents (u := u) (w_metas w) (w_fresh w) v m → live_files w vs = Ret (numbers m).
Proof.
  intros El Ev Hm R. unfold live_files. rewrite El, Ev. cbn [unwrap]. rewrite bind_Ret.
  destruct (mfoldl_inv (λ dn (files : gset Z), ∀ n, n ∈ files ↔ ∃ i : nat, i ∈ dn ∧ is_Some (m !! (Z.of_nat i, n)))
    (λ files (level : nat), fs ← level_files v (Z.of_nat level); Ret (files ∪ list_to_set ((λ f, num (w_metas w f)) <$> fs))) (seq 0 (Z.to_nat NUM_LEVELS)) ∅) as (files & -> & Hf).
  - intros n. split; [by intros ?%elem_of_empty|by intros (i & ?%elem_of_nil & _)].
  - intros dn i rest files Es Hd. assert (i ∈ seq 0 (Z.to_nat NUM_LEVELS)) as Hi%elem_of_seq by (rewrite Es; set_solver).
    assert (level_ok (Z.of_nat i)) as Ho by (unfold level_ok; change NUM_LEVELS with 7 in *; lia).
    destruct (represents_files _ _ _ _ _ Hm R Ho) as (fs & Hl & _ & L & _). unfold level_files. rewrite Nat2Z.id in Hl. rewrite (index_lookup _ _ _ Hl), bind_Ret. eexists. split; [done|].
    intros n. rewrite elem_of_union, Hd, elem_of_list_to_set, list_elem_of_fmap. split.
    + intros [(j & Hj & Hs)|(f & -> & Hin)]; [exists j; split; [set_solver|done]|]. exists i. split; [set_solver|]. exists (core (w_metas w f)). apply (lf_files _ _ _ _ L). by exists f.
    + intros (j & [Hj| ->%list_elem_of_singleton]%elem_of_app & Hs); [left; by exists j|]. right. destruct Hs as [d (f & Hin & <- & _)%(lf_files _ _ _ _ L)]. by exists f.
  - f_equal. apply set_eq. intros n. rewrite Hf. unfold numbers. rewrite elem_of_map. split.
    + intros (i & _ & [d Hd]). exists (Z.of_nat i, n). split; [done|]. by eapply elem_of_dom_2.
    + intros ([j n'] & -> & [d Hd]%elem_of_dom). destruct (mo_key _ Hm _ _ _ Hd) as (Ho & _). unfold level_ok in Ho. exists (Z.to_nat j).
      split; [apply elem_of_seq; change NUM_LEVELS with 7 in *; lia|]. rewrite Z2Nat.id by lia. by eexists.
Qed.

Lemma numbers_u64 m n : map_ok (u := u) m → n ∈ numbers m → is_u 64 n.
Proof.
  intros Hm Hn. unfold numbers in Hn. apply elem_of_map in Hn as ([l n'] & -> & [d Hd]%elem_of_dom). by destruct (mo_key _ Hm _ _ _ Hd) as (_ & <- & _ & _ & _ & _ & _ & ? & _).
Qed.

End version.

(** ** A file is added to the version *)

Section add.
Context `{IEL : IntegerEncodingLaws} {u : Cmp} {UO : OrderedCmp u}.
Implicit Types (M : Metas) (v : Version) (m : filemap) (d : FileMetaData).

Lemma map_bytes_insert m k d : m !! k = None → map_bytes (<[k := d]> m) = size d + map_bytes m.
Proof.
  intros Hk. unfold map_bytes. rewrite (sizes_perm (λ kd : (Z * Z) * FileMetaData, size kd.2) _ ((k, d) :: map_to_list m)) by (by apply map_to_list_insert). done.
Qed.

(** No file of the level has user keys in the range of those of [d]. *)
Definition clear_of m level d : Prop :=
  ∀ n' d', m !! (level, n') = Some d' →
    ord u (ukey_of (largest d')) (ukey_of (smallest d)) = Lt ∨ ord u (ukey_of (largest d)) (ukey_of (smallest d')) = Lt.

(** This is so at the levels below level 0, whose files may overlap. *)
Definition apart m level d : Prop := 0 < level → clear_of m level d.

Lemma ukeys_lt k k' : ord u (ukey_of k) (ukey_of k') = Lt → ord (InternalKeyCmp u) k k' = Lt.
Proof. intros H. cbn. unfold ord_internal. by rewrite H. Qed.

Lemma map_ok_add m level d : map_ok (u := u) m → level_ok level → meta_ok (u := u) d → core d = d → m !! (level, num d) = None → apart m level d →
  map_bytes m + size d < 2 ^ 64 → map_ok (u := u) (<[(level, num d) := d]> m).
Proof.
  intros Hm Hl Hd Hc Hn Ha Hs. split.
  - intros l n d' [[[= <- <-] <-]|[_ H]]%lookup_insert_Some; [done|]. by apply (mo_key _ Hm).
  - intros l n1 d1 n2 d2 [[[= <- <-] <-]|[N1 H1]]%lookup_insert_Some [[E2 E2']|[N2 H2]]%lookup_insert_Some Hpos Hne; [by injection E2 as <-| | |by apply (mo_disjoint _ Hm l n1 d1 n2 d2)].
    + destruct (Ha Hpos n2 d2 H2); [right|left]; by apply ukeys_lt.
    + injection E2 as <- <-. subst d2. destruct (Ha Hpos n1 d1 H1); [left|right]; by apply ukeys_lt.
  - rewrite map_bytes_insert by done. lia.
Qed.

(** The level that is picked for the table has no file that overlaps it. *)
Lemma picked_apart M fresh v m d : map_ok (u := u) m → represents (u := u) M fresh v m → meta_ok (u := u) d →
  zlen (ukey_of (smallest d)) + 8 < 2 ^ 63 → zlen (ukey_of (largest d)) + 8 < 2 ^ 63 →
  ∃ level, pick_memtable_output_level M v (ukey_of (smallest d)) (ukey_of (largest d)) = Ret level ∧ level_ok level ∧ apart m level d.
Proof.
  intros Hm R (K1 & K2 & _) L1 L2. pose proof (represents_ok M fresh v m Hm R) as V. destruct (represents_files M fresh v m 0 Hm R) as (f0 & Hf0 & Ef0 & _); [by_decide|].
  pose proof (vo_files _ _ V) as Hok. rewrite Forall_lookup in Hok. specialize (Hok _ _ Hf0). rewrite <- Ef0 in Hok.
  destruct (overlaps_disjoint_total (u := u) M _ (ukey_of (smallest d)) (ukey_of (largest d)) Hok) as [b Eb]; [by apply ikey_user|done|right; by apply ikey_user|].
  destruct (pick_level_ok (u := u) M v _ _ b V Eb (ikey_user _ K1) (ikey_user _ K2) L1 L2) as (level & E & Hl & _ & _ & Hj).
  unfold MAX_MEM_COMPACT_LEVEL in Hl. assert (level_ok level) as Hlv by (unfold level_ok; change NUM_LEVELS with 7; lia). exists level. split_and!; [done|done|].
  intros Hpos n' d' Hd'. destruct (Hj level ltac:(lia)) as [Hno _]. destruct (represents_files M fresh v m level Hm R Hlv) as (fs & _ & Ef & Lf & _). rewrite Ef in Hno.
  destruct (proj1 (lf_files _ _ _ _ Lf _ _) Hd') as (f & Hin & _ & Ed). rewrite <- Ed. rewrite Forall_forall in Hno. specialize (Hno f Hin).
  destruct (decide (lt_begin (u := u) (hi M f) (ukey_of (smallest d)))) as [[_ H]|H1]; [by left|].
  destruct (decide (gt_end (u := u) (lo M f) (ukey_of (largest d)))) as [[_ H]|H2]; [right; by apply ord_Gt_Lt|]. by destruct Hno.
Qed.

Lemma edit_map_add m level d ve : deleted ve = ∅ → new_files ve = [] → edit_map m (add_file level d ve) = <[(level, num d) := core d]> m.
Proof. intros Hd Hn. unfold edit_map, add_file. cbn [deleted new_files]. rewrite Hd, Hn. cbn. f_equal. apply map_filter_id. intros k x _. cbn. set_solver. Qed.

(** The edit of a new table. *)
Lemma table_edit_good `{EL : EnvLaws E} (vs : VersionSet w_file) es level d logn : map_ok (u := u) (files_of es) → log_num vs ≤ logn < next_file_num vs → 0 ≤ logn → next_file_num vs < 2 ^ 64 →
  is_u 64 (prev_log_num vs) → is_u 64 (vs_last_seq vs) → level_ok level → meta_ok (u := u) d → core d = d → (level, num d) ∉ keys_used es →
  files_of es !! (level, num d) = None → apart (files_of es) level d → map_bytes (files_of es) + size d < 2 ^ 64 →
  good_edit (u := u) vs es (set_log_num logn (add_file level d VersionEdit_new)).
Proof.
  intros Hm Hlog H0 Hnx Hp Hq Hl Hd Hc Hk Hn Ha Hs. assert (allowed_seeks d = 0) as Has by (by rewrite <- Hc).
  pose proof Hd as (_ & _ & _ & D1 & D2 & D3 & D4). unfold level_ok in Hl. split.
  - by intros n [= <-].
  - unfold edit_ok. cbn. rewrite elements_empty. cbn.
    repeat apply Forall_cons_2; try apply Forall_nil_2; cbn; try done; [unfold is_u; lia..|]. split_and!; try done; unfold is_u; change NUM_LEVELS with 7 in *; lia.
  - split; [exact (Forall_nil_2 _)|intros x Hx; by apply elem_of_empty in Hx|]. by apply Forall_singleton.
  - by apply Forall_singleton.
  - apply NoDup_singleton.
  - by apply Forall_singleton.
  - change (edit_map (files_of es) (set_log_num logn (add_file level d VersionEdit_new))) with (edit_map (files_of es) (add_file level d VersionEdit_new)).
    rewrite edit_map_add, Hc by done. by apply map_ok_add.
Qed.

End add.
