(* ===== verification/Pick.v ===== *)
(** * Pick: choosing a compaction

    [setup_other_inputs], [pick_compaction] and [compact_range] of [src/version_set.rs]: the
    inputs they choose, and that the tables a compaction writes overlap no other table of
    their level. *)

From Stdlib Require Import SpecFloat.
From S2P Require Import Prelude Encoding Error Io Env MemEnv Types Cmp KeyTypes Log Iterator Filter FilterBlock Options BlockBuilder Block Cache TableBuilder Table TableFile TableRead TableCache Version VersionEdit MergingIter VersionSet Builder Manifest Recover Tables.

(** ** Ranges of files *)

Section range.
Context {IE : IntegerEncoding} {u : Cmp} {UO : OrderedCmp u} (M : Metas).
Abbreviation icmp := (InternalKeyCmp u) (only parsing).
Implicit Types (files : list FileMetaHandle) (v : Version) (b e : bytes).
#[local] Instance icmp_retered : OrderedCmp icmp := InternalKeyCmp_ordered (u := u).

(** The least and the greatest key of the files. *)
Record range_of files b e : Prop := {
  ro_begin : ∃ f, f ∈ files ∧ b = smallest (M f);
  ro_end : ∃ f, f ∈ files ∧ e = largest (M f);
  ro_all f : f ∈ files → ord icmp b (smallest (M f)) ≠ Gt ∧ ord icmp (largest (M f)) e ≠ Gt;
}.

Lemma range_keys files b e : Forall (file_ok (u := u) M) files → range_of files b e → key_ok icmp b ∧ key_ok icmp e.
Proof. rewrite Forall_forall. intros Hok [(f & Hf & ->) (g & Hg & ->) _]. split; [apply (Hok f Hf)|apply (Hok g Hg)]. Qed.

Lemma get_range_ok files : files ≠ [] → Forall (file_ok (u := u) M) files → ∃ b e, get_range M icmp files = Ret (b, e) ∧ range_of files b e.
Proof.
  intros Hne Hok. rewrite Forall_forall in Hok. unfold get_range.
  match goal with |- context [mfoldl ?g ?i files] => destruct (mfoldl_inv (λ dn (x : option bytes * option bytes),
    dn = [] ∧ x = (None, None) ∨ ∃ b e, x = (Some b, Some e) ∧ range_of dn b e) g files i) as (x & -> & Hx) end.
  - by left.
  - intros dn f rest x Es Hx. destruct (Hok f) as (K1 & K2 & _); [rewrite Es; set_solver|]. destruct Hx as [[-> ->]|(b & e & -> & R)]; cbn [default].
    + change (id ?y) with y. rewrite !cmp_ret, !bind_Ret, !ord_refl by done. cbn. eexists. split; [done|]. right. eexists _, _. split; [done|].
      split; [exists f; set_solver|exists f; set_solver|]. intros g ->%list_elem_of_singleton. by rewrite !ord_refl.
    + change (id ?y) with y. destruct (range_keys dn b e) as [Kb Ke]; [apply Forall_forall; intros g Hg; apply Hok; rewrite Es; set_solver|done|].
      destruct R as [(f1 & Hf1 & E1) (f2 & Hf2 & E2) R]. rewrite !cmp_ret, !bind_Ret by done. eexists. split; [done|]. right. eexists _, _. split; [done|]. split.
      * destruct (is_lt _); [exists f|exists f1]; set_solver.
      * destruct (is_gt _); [exists f|exists f2]; set_solver.
      * intros g Hg. split.
        -- destruct (is_lt (ord icmp (smallest (M f)) b)) eqn:El.
           ++ apply is_lt_true in El. apply elem_of_app in Hg as [Hg| ->%list_elem_of_singleton]; [|by rewrite ord_refl]. by rewrite (ord_lt_le _ _ _ El (proj1 (R g Hg))).
           ++ apply is_lt_false in El. apply elem_of_app in Hg as [Hg| ->%list_elem_of_singleton]; [by apply R|]. by apply ord_not_lt.
        -- destruct (is_gt (ord icmp (largest (M f)) e)) eqn:El.
           ++ apply is_gt_true, ord_Gt_Lt in El. apply elem_of_app in Hg as [Hg| ->%list_elem_of_singleton]; [|by rewrite ord_refl]. by rewrite (ord_le_lt _ _ _ (proj2 (R g Hg)) El).
           ++ apply elem_of_app in Hg as [Hg| ->%list_elem_of_singleton]; [by apply R|]. intros H. by rewrite H in El.
  - destruct Hx as [[-> _]|(b & e & -> & R)]; [done|]. cbn. exists b, e. by split.
Qed.

Lemma sublist_Forall (P : FileMetaHandle → Prop) l files : l `sublist_of` files → Forall P files → Forall P l.
Proof. rewrite !Forall_forall. intros Hs HP f Hf. by eapply HP, elem_of_sublist. Qed.

(** Keys in the range of the files. *)
Lemma ukey_le k k' : ord icmp k k' ≠ Gt → ord u (ukey_of k) (ukey_of k') ≠ Gt.
Proof. intros H Hg. apply H. cbn. unfold ord_internal. by rewrite Hg. Qed.

Lemma range_overlaps files b e f : range_of files b e → f ∈ files → file_ok (u := u) M f → overlaps (u := u) M (ukey_of b) (ukey_of e) f.
Proof.
  intros R Hf Hok. destruct (ro_all _ _ _ R f Hf) as [R1%ukey_le R2%ukey_le]. destruct (file_keys (u := u) M f Hok) as (_ & _ & _ & _ & Hl). split; intros [_ H].
  - apply ord_Gt_Lt in H. apply (ord_le_trans _ _ _ R1 Hl). exact H.
  - apply (ord_le_trans _ _ _ Hl R2). exact H.
Qed.

(** In level 0, the files that overlap one of the files are among them. *)
Definition closed files (l : list FileMetaHandle) : Prop := ∀ f g, f ∈ l → g ∈ files → touch (u := u) M f g → g ∈ l.

(** The files that [overlapping_inputs] finds. *)
Record found_inputs files (level : Z) b e (l : list FileMetaHandle) : Prop := {
  fi_sub : l `sublist_of` files;
  fi_all f : f ∈ files → overlaps (u := u) M (ukey_of b) (ukey_of e) f → f ∈ l;
  fi_exact : 0 < level → l = filter (overlaps (u := u) M (ukey_of b) (ukey_of e)) files;
  fi_closed : level = 0 → closed files l;
}.

Context (least : ∀ k, ord u [] k ≠ Gt).

Lemma overlapping_found v level b e : version_ok (u := u) M v → 0 ≤ level < NUM_LEVELS → key_ok icmp b → key_ok icmp e →
  ∃ l, overlapping_inputs M v level b e = Ret l ∧ found_inputs (files_at v level) level b e l.
Proof.
  intros V Hl Hb He. destruct (version_level (u := u) M v level V Hl) as (files & Hf & El & Hok & _). assert (files_at v level = files) as -> by (unfold files_at; by rewrite Hf).
  destruct (decide (level = 0)) as [->|Hz].
  - destruct (overlapping_least (u := u) M v files b e least (vo_cmp _ _ V) El Hok Hb He) as (l & E' & Hs & Hr). exists l. split; [done|]. split; [done|..|done|].
    + intros f Hin Ho. apply Hr. by constructor.
    + intros _ f g Hin%Hr Hg Ht. apply Hr. by eapply reach_file.
  - rewrite (overlapping_exact (u := u) M v level files b e) by (done || lia || apply (vo_cmp _ _ V)). eexists. split; [done|]. split; [apply sublist_filter|..|done|done].
    intros f Hin Ho. by apply list_elem_of_filter.
Qed.

Lemma sum_sizes_sublist l files : l `sublist_of` files → Forall (λ f, 0 ≤ size (M f)) files → 0 ≤ sum_sizes M l ≤ sum_sizes M files ∧ Forall (λ f, 0 ≤ size (M f)) l.
Proof.
  induction 1 as [|f l files Hs IH|f l files Hs IH]; [done|..]; intros [Hf Hfs]%Forall_cons; destruct (IH Hfs) as [H1 H2]; unfold sum_sizes in *; cbn [foldr].
  - split; [lia|by constructor].
  - split; [lia|done].
Qed.

End range.

(** ** [setup_other_inputs] *)

Section setup.
Context `{EN : Env E} {IE : IntegerEncoding} {u : Cmp} {UO : OrderedCmp u} (least : ∀ k, ord u [] k ≠ Gt).
Abbreviation icmp := (InternalKeyCmp u) (only parsing).
Implicit Types (w : World E ra_file) (vs : VersionSet w_file) (c : Compaction) (files : list FileMetaHandle).

(** The version set can choose: its version is in order, and sizes and limits do not overflow. *)
Record choosable w vs v : Prop := {
  ch_current : current w vs = Ret v;
  ch_cmp : o_cmp (vs_opt vs) = u;
  ch_version : version_ok (u := u) (w_metas w) v;
  ch_bytes : Forall (λ fs, sum_sizes (w_metas w) fs < 2 ^ 63) (v_files v);
  ch_limit : 0 ≤ max_file_size (vs_opt vs) ∧ 25 * max_file_size (vs_opt vs) < 2 ^ 64;
  ch_ptrs : length (vs_compaction_ptrs vs) = Z.to_nat NUM_LEVELS;
}.

(** The inputs of a compaction of [level]: files of the level, closed under overlaps in level
    0, and the files of the next level that overlap their range of user keys. *)
Record good_inputs (M : Metas) v (level : Z) (l0 l1 : list FileMetaHandle) b e : Prop := {
  gi_nonempty : l0 ≠ [];
  gi_level : l0 ⊆ files_at v level;
  gi_closed : level = 0 → closed (u := u) M (files_at v 0) l0;
  gi_range : range_of (u := u) M l0 b e;
  gi_next : l1 = filter (overlaps (u := u) M (ukey_of b) (ukey_of e)) (files_at v (level + 1));
}.

Lemma level_sizes w vs v level l : choosable w vs v → 0 ≤ level < NUM_LEVELS → l `sublist_of` files_at v level → total_size (w_metas w) l = Ret (sum_sizes (w_metas w) l) ∧ 0 ≤ sum_sizes (w_metas w) l < 2 ^ 63.
Proof.
  intros H Hl Hs. destruct (version_level (u := u) (w_metas w) v level (ch_version _ _ _ H) Hl) as (files & Hf & _ & _ & Hp & _). unfold files_at in Hs. rewrite Hf in Hs. cbn in Hs.
  pose proof (ch_bytes _ _ _ H) as Hb. rewrite Forall_lookup in Hb. specialize (Hb _ _ Hf). destruct (sum_sizes_sublist (w_metas w) l files Hs Hp) as [H1 H2].
  split; [|lia]. unfold total_size. by rewrite total_size_from by (done || lia).
Qed.

Lemma level_all_ok w vs v level : choosable w vs v → 0 ≤ level < NUM_LEVELS → Forall (file_ok (u := u) (w_metas w)) (files_at v level).
Proof. intros H Hl. destruct (version_level (u := u) (w_metas w) v level (ch_version _ _ _ H) Hl) as (files & Hf & _ & Hok & _). unfold files_at. by rewrite Hf. Qed.

Lemma inputs_ok w vs v level l0 l1 : choosable w vs v → 0 ≤ level < NUM_LEVELS - 1 → l0 `sublist_of` files_at v level → l1 `sublist_of` files_at v (level + 1) →
  Forall (file_ok (u := u) (w_metas w)) l0 ∧ Forall (file_ok (u := u) (w_metas w)) (l0 ++ l1).
Proof.
  intros H Hl S0 S1. assert (Forall (file_ok (u := u) (w_metas w)) l0) as H0 by (eapply sublist_Forall; [exact S0|]; by eapply level_all_ok; [|lia]).
  split; [done|]. apply Forall_app. split; [done|]. eapply sublist_Forall; [exact S1|]. by eapply level_all_ok; [|lia].
Qed.

(** What is chosen of a level and the next: the inputs, the largest key of the first, and the
    range of all. *)
Record chosen (M : Metas) v (level : Z) (l0 l1 : list FileMetaHandle) e ab ae : Prop := {
  cs_inputs : ∃ b, good_inputs M v level l0 l1 b e;
  cs_sub : l0 `sublist_of` files_at v level;
  cs_range : range_of (u := u) M (l0 ++ l1) ab ae;
}.

(** The files that overlap the range of all inputs. *)
Lemma expanded_found w vs v level l0 l1 e ab ae : choosable w vs v → 0 ≤ level < NUM_LEVELS - 1 → chosen (w_metas w) v level l0 l1 e ab ae →
  ∃ x, overlapping_inputs (w_metas w) v level ab ae = Ret x ∧ found_inputs (u := u) (w_metas w) (files_at v level) level ab ae x ∧ l0 ⊆ x ∧ x ≠ [].
Proof.
  intros H Hl [(b & G) Hs R]. assert (l1 `sublist_of` files_at v (level + 1)) as Hs1 by (rewrite (gi_next _ _ _ _ _ _ _ G); apply sublist_filter).
  destruct (inputs_ok w vs v level l0 l1 H Hl Hs Hs1) as [H0 Ha]. destruct (range_keys (u := u) (w_metas w) _ ab ae Ha R) as [K1 K2].
  destruct (overlapping_found (u := u) (w_metas w) least v level ab ae (ch_version _ _ _ H) ltac:(lia) K1 K2) as (x & Ex & F).
  assert (l0 ⊆ x) as Hsub.
  { intros f Hf. apply (fi_all _ _ _ _ _ _ F); [by eapply elem_of_sublist|]. apply (range_overlaps (u := u) (w_metas w) (l0 ++ l1)); [done|set_solver|]. by apply (proj1 (Forall_forall _ _) H0). }
  exists x. split_and!; [done..|]. pose proof (gi_nonempty _ _ _ _ _ _ _ G). destruct l0 as [|f l0']; [done|]. intros ->. by apply (not_elem_of_nil f), Hsub; left.
Qed.

(** The inputs that belong to files of the level. *)
Lemma choose_next w vs v level l0 : choosable w vs v → 0 ≤ level < NUM_LEVELS - 1 → l0 ≠ [] → l0 `sublist_of` files_at v level → (level = 0 → closed (u := u) (w_metas w) (files_at v 0) l0) →
  ∃ b e l1 ab ae, get_range (w_metas w) icmp l0 = Ret (b, e) ∧ overlapping_inputs (w_metas w) v (level + 1) b e = Ret l1
    ∧ get_range (w_metas w) icmp (l0 ++ l1) = Ret (ab, ae) ∧ chosen (w_metas w) v level l0 l1 e ab ae.
Proof.
  intros H Hl Hne Hs Hc. destruct (inputs_ok w vs v level l0 [] H Hl Hs ltac:(apply sublist_nil_l)) as [H0 _].
  destruct (get_range_ok (u := u) (w_metas w) l0 Hne H0) as (b & e & Er & R). destruct (range_keys (u := u) (w_metas w) l0 b e H0 R) as [Kb Ke].
  destruct (overlapping_found (u := u) (w_metas w) least v (level + 1) b e (ch_version _ _ _ H) ltac:(lia) Kb Ke) as (l1 & E1 & F1).
  destruct (inputs_ok w vs v level l0 l1 H Hl Hs (fi_sub _ _ _ _ _ _ F1)) as [_ Ha]. destruct (get_range_ok (u := u) (w_metas w) (l0 ++ l1)) as (ab & ae & Ea & Ra); [by destruct l0|done|].
  exists b, e, l1, ab, ae. split_and!; [done..|]. split; [|done|done]. exists b. split; try done; [|apply (fi_exact _ _ _ _ _ _ F1); lia]. intros f Hf. by eapply elem_of_sublist.
Qed.

Lemma expand_inputs_ok w vs v level l0 l1 e ab ae : choosable w vs v → 0 ≤ level < NUM_LEVELS - 1 → chosen (w_metas w) v level l0 l1 e ab ae →
  ∃ l0' l1' e' ab' ae', expand_inputs (w_metas w) v vs level l0 l1 e ab ae = Ret (l0', l1', e', ab', ae') ∧ l0 ⊆ l0' ∧ chosen (w_metas w) v level l0' l1' e' ab' ae'.
Proof.
  intros H Hl C. pose proof (ch_limit _ _ _ H) as [X1 X2]. assert (NUM_LEVELS = 7) as Hn by done. unfold expand_inputs, vs_icmp. rewrite (ch_cmp _ _ _ H).
  destruct l1 as [|f1 l1'] eqn:El1; [by exists l0, [], e, ab, ae|]. rewrite <- El1 in *. assert (l1 `sublist_of` files_at v (level + 1)) as Hs1.
  { destruct C as [(b & G) _ _]. rewrite (gi_next _ _ _ _ _ _ _ G). apply sublist_filter. }
  destruct (expanded_found w vs v level l0 l1 e ab ae H Hl C) as (x0 & -> & F0 & Hsub & Hnx). rewrite bind_Ret. pose proof (fi_sub _ _ _ _ _ _ F0) as Hs0.
  destruct (level_sizes w vs v (level + 1) l1 H ltac:(lia) Hs1) as [-> Hb1]. destruct (level_sizes w vs v level x0 H ltac:(lia) Hs0) as [-> Hb0]. rewrite !bind_Ret, uadd_Ret, bind_Ret by lia.
  unfold umul. rewrite (proj2 (Z.ltb_lt (25 * _) _)), bind_Ret by lia.
  destruct (choose_next w vs v level x0 H Hl Hnx Hs0) as (nb & ne & x1 & na & nl & -> & E1 & E2 & C'); [intros Hz; rewrite <- Hz at 1; by apply (fi_closed _ _ _ _ _ _ F0)|].
  rewrite bind_Ret, E1, bind_Ret, E2, bind_Ret.
  repeat match goal with |- context [if ?t then _ else _] => destruct t end; [by exists x0, x1, ne, na, nl|by exists l0, l1, e, ab, ae..].
Qed.

(** The compaction that [setup_other_inputs] makes of [c]. *)
Definition set_up c (l0 l1 : list FileMetaHandle) (gp : option (list FileMetaHandle)) e : Compaction :=
  set_c_edit (set_compact_pointer (c_level c) e (c_edit c)) (set_grandparents gp (set_inputs [l0; l1] c)).

(** The files two levels down that overlap the range of all inputs. *)
Definition below (M : Metas) v (level : Z) (l : list FileMetaHandle) (gp : option (list FileMetaHandle)) : Prop :=
  if decide (level + 2 < NUM_LEVELS)
  then ∃ b e, range_of (u := u) M l b e ∧ gp = Some (filter (overlaps (u := u) M (ukey_of b) (ukey_of e)) (files_at v (level + 2)))
  else gp = None.

Lemma grandparents_ok c w vs v l0 l1 e ab ae : choosable w vs v → 0 ≤ c_level c < NUM_LEVELS - 1 → grandparents c = None → chosen (w_metas w) v (c_level c) l0 l1 e ab ae →
  ∃ gp, (if c_level c + 2 <? NUM_LEVELS then gp ← overlapping_inputs (w_metas w) v (c_level c + 2) ab ae; Ret (set_grandparents (Some gp) (set_inputs [l0; l1] c)) else Ret (set_inputs [l0; l1] c))
      = Ret (set_grandparents gp (set_inputs [l0; l1] c)) ∧ below (w_metas w) v (c_level c) (l0 ++ l1) gp.
Proof.
  intros H Hl Hg [(b & G) Hs R]. assert (l1 `sublist_of` files_at v (c_level c + 1)) as Hs1 by (rewrite (gi_next _ _ _ _ _ _ _ G); apply sublist_filter).
  destruct (inputs_ok w vs v _ l0 l1 H Hl Hs Hs1) as [_ Ha]. destruct (range_keys (u := u) (w_metas w) _ ab ae Ha R) as [K1 K2]. unfold below. case_decide as Hd.
  - rewrite (proj2 (Z.ltb_lt _ _)) by lia. destruct (overlapping_found (u := u) (w_metas w) least v (c_level c + 2) ab ae (ch_version _ _ _ H) ltac:(lia) K1 K2) as (gp & -> & Fg).
    rewrite bind_Ret. exists (Some gp). split; [done|]. exists ab, ae. split; [done|]. f_equal. apply (fi_exact _ _ _ _ _ _ Fg). lia.
  - rewrite (proj2 (Z.ltb_ge _ _)) by lia. exists None. split; [|done]. f_equal. destruct c. cbn in Hg. by subst.
Qed.

Lemma setup_ok c w vs v l0 : choosable w vs v → 0 ≤ c_level c < NUM_LEVELS - 1 → (∃ l, inputs c = [l0; l]) → grandparents c = None →
  l0 ≠ [] → l0 `sublist_of` files_at v (c_level c) → (c_level c = 0 → closed (u := u) (w_metas w) (files_at v 0) l0) →
  ∃ l0' l1 gp b e, setup_other_inputs c w vs = Ret (set_ptrs (<[Z.to_nat (c_level c) := e]> (vs_compaction_ptrs vs)) vs, set_up c l0' l1 gp e)
    ∧ l0 ⊆ l0' ∧ good_inputs (w_metas w) v (c_level c) l0' l1 b e ∧ below (w_metas w) v (c_level c) (l0' ++ l1) gp.
Proof.
  intros H Hl [l Hin] Hg Hne Hs Hc. unfold setup_other_inputs, vs_icmp. rewrite (ch_cmp _ _ _ H), (ch_current _ _ _ H), bind_Ret, Hin. change (index [l0; l] 0) with (Ret l0). rewrite bind_Ret.
  destruct (choose_next w vs v (c_level c) l0 H Hl Hne Hs Hc) as (b & e & l1 & ab & ae & -> & E1 & E2 & C). rewrite bind_Ret, E1, bind_Ret, E2, bind_Ret.
  destruct (expand_inputs_ok w vs v (c_level c) l0 l1 e ab ae H Hl C) as (l0' & l1' & e' & ab' & ae' & -> & Hsub & C'). rewrite bind_Ret.
  destruct (grandparents_ok c w vs v l0' l1' e' ab' ae' H Hl Hg C') as (gp & -> & Hb). rewrite bind_Ret. destruct C' as [(b' & G) _ _].
  destruct (lookup_lt_is_Some_2 (vs_compaction_ptrs vs) (Z.to_nat (c_level c))) as [p0 Hp0]; [rewrite (ch_ptrs _ _ _ H); lia|].
  assert (set_index (vs_compaction_ptrs vs) (c_level c) e' = Ret (<[Z.to_nat (c_level c) := e']> (vs_compaction_ptrs vs))) as ->.
  { rewrite <- (Z2Nat.id (c_level c)) at 1 by lia. by apply (set_index_lookup _ _ _ _ Hp0). }
  rewrite bind_Ret. by exists l0', l1', gp, b', e'.
Qed.

(** ** [pick_compaction] *)

Lemma mfoldl_pres_in {A B} (P : A → Prop) (f : A → B → exec A) l : (∀ a x a', x ∈ l → P a → f a x = Ret a' → P a') → ∀ a a', P a → mfoldl f a l = Ret a' → P a'.
Proof.
  induction l as [|x l IH]; intros Hf a a' Ha H; cbn [mfoldl] in H; [by injection H as <-|]. exec_inv H. eapply IH; [|by eapply (Hf _ _ _ ltac:(left) Ha)|exact Hk].
  intros a1 y a2 Hy. apply Hf. by right.
Qed.

(** The score of a level without files is less than one. *)
Lemma empty_score (M : Metas) v i sc : (i < 6)%nat → files_at v (Z.of_nat i) = [] → level_score M v i = Ret sc → SFleb (f64_of 1) sc = false.
Proof.
  intros Hi Hf H. unfold level_score, level_files in H. exec_inv H. unfold files_at in Hf. rewrite Nat2Z.id in Hf.
  apply index_inv in Hm as [_ Hm]. rewrite Nat2Z.id in Hm. rewrite Hm in Hf. cbn in Hf. subst r.
  destruct i as [|i]; [injection Hk as <-; vm_compute; reflexivity|]. change (total_size M []) with (Ret 0) in Hk. rewrite bind_Ret in Hk. injection Hk as <-.
  do 5 (destruct i as [|i]; [vm_compute; reflexivity|]). lia.
Qed.

(** The score of the version is that of one of its levels. *)
Lemma best_score (M : Metas) v : finalize M v = Ret v → ∃ i sc, (i < 6)%nat ∧ compaction_level v = Some (Z.of_nat i) ∧ compaction_score v = Some sc ∧ level_score M v i = Ret sc.
Proof.
  intros H. unfold finalize in H. exec_inv H. injection Hk as Ev. rename r into best.
  set (P := λ best : option (spec_float * Z), ∀ sc l, best = Some (sc, l) → ∃ i, (i < 6)%nat ∧ l = Z.of_nat i ∧ level_score M v i = Ret sc).
  assert (P best) as Hb.
  { refine (mfoldl_pres_in P _ _ _ None best _ Hm); [|by intros sc l]. intros bst i bst' Hi%elem_of_seq Hb H sc l ->. exec_inv H. injection Hk as Hk. change (Z.to_nat NUM_LEVELS - 1)%nat with 6%nat in Hi.
    destruct bst as [[b lb]|]; [destruct (SFltb b r) eqn:Er|]; simplify_eq; [exists i; by split_and!; [lia|..]|by apply Hb|exists i; by split_and!; [lia|..]]. }
  destruct best as [[sc l]|].
  - destruct (Hb sc l eq_refl) as (i & Hi & -> & Hsc). exists i, sc. rewrite <- Ev at 2. by rewrite <- Ev at 1.
  - exfalso. change (Z.to_nat NUM_LEVELS - 1)%nat with 6%nat in Hm. cbn [seq mfoldl] in Hm. repeat (exec_inv Hm; rename Hk into Hm; match goal with H : (_ ← _; Ret _) = Ret _ |- _ => exec_inv H; injection Hk as <- end).
    injection Hm as Hm. repeat match type of Hm with context [SFltb ?a ?b] => destruct (SFltb a b) end; discriminate Hm.
Qed.

(** A score of at least one is that of a level with files. *)
Lemma best_level (M : Metas) v : finalize M v = Ret v → SFleb (f64_of 1) (default (f64_of 0) (compaction_score v)) = true →
  ∃ l, compaction_level v = Some l ∧ 0 ≤ l < NUM_LEVELS - 1 ∧ files_at v l ≠ [].
Proof.
  intros H Hs. destruct (best_score M v H) as (i & sc & Hi & E1 & E2 & Hsc). exists (Z.of_nat i). split_and!; [done|lia|change NUM_LEVELS with 7; lia|].
  intros Hf. rewrite E2 in Hs. change (SFleb (f64_of 1) sc = true) in Hs. by rewrite (empty_score M v i sc) in Hs by done.
Qed.

(** Nothing is to be compacted in a version with less than 8 MiB and less than four files at level 0. *)
Lemma light_version m v : map_ok (u := u) m → scored_as (u := u) m v → map_bytes m < 2 ^ 23 → (length (files_at v 0) < 4)%nat →
  SFleb (f64_of 1) (default (f64_of 0) (compaction_score v)) || bool_decide (is_Some (file_to_compact v)) = false.
Proof.
  intros Hm (Hf & M & fresh & R & Hfin) Hb H0. rewrite Hf, orb_false_r. destruct (best_score M v Hfin) as (i & sc & Hi & _ & -> & Hsc). cbn [default].
  assert (level_ok (Z.of_nat i)) as Hl by (unfold level_ok; change NUM_LEVELS with 7; lia). unfold level_score, level_files in Hsc.
  destruct (lookup_lt_is_Some_2 (v_files v) i) as [fs Hfs]; [rewrite (rp_levels _ _ _ _ R); change (Z.to_nat NUM_LEVELS) with 7%nat; lia|].
  rewrite (index_lookup _ _ _ Hfs), bind_Ret in Hsc. pose proof (rp_files _ _ _ _ R _ _ Hfs) as Lf. destruct (level_bytes M m _ _ Hm Lf) as [Hp Hs]. destruct i as [|i].
  - injection Hsc as <-. unfold files_at in H0. change (Z.to_nat 0) with 0%nat in H0. rewrite Hfs in H0. cbn in H0. do 4 (destruct fs as [|? fs]; [vm_compute; reflexivity|]). cbn in H0. lia.
  - unfold total_size in Hsc. rewrite total_size_from in Hsc by (done || lia). rewrite bind_Ret in Hsc. injection Hsc as <-. apply light_score; [lia|]. rewrite Z.add_0_l. lia.
Qed.

(** The files the scores and the reads have chosen are those of levels that can be compacted. *)
Record pickable v : Prop := {
  pk_score : ∃ M, finalize M v = Ret v;
  pk_seek f : file_to_compact v = Some f → 0 ≤ file_to_compact_lvl v < NUM_LEVELS - 1 ∧ f ∈ files_at v (file_to_compact_lvl v);
}.

Lemma first_past_ok (M : Metas) ptr files : Forall (file_ok (u := u) M) files → ptr = [] ∨ key_ok icmp ptr →
  ∃ r, first_past M icmp ptr files = Ret r ∧ ∀ f, r = Some f → f ∈ files.
Proof.
  intros Hok Hp. induction Hok as [|f files (_ & Kf & _) _ IH]; cbn [first_past]; [by exists None|].
  assert (∃ past, (if decide (ptr = []) then Ret true else o ← cmp icmp (largest (M f)) ptr; Ret (is_gt o)) = Ret past) as ([] & ->).
  { destruct (decide (ptr = [])); [by eexists|]. destruct Hp as [?|Hp]; [done|]. rewrite (cmp_ret (OrderedCmp := InternalKeyCmp_ordered (u := u)) _ _ Kf Hp), bind_Ret. by eexists. }
  - rewrite bind_Ret. exists (Some f). split; [done|]. intros g [= ->]. left.
  - rewrite bind_Ret. destruct IH as (r & -> & Hr). exists r. split; [done|]. intros g Hg%Hr. by right.
Qed.

(** One file is the input. *)
Lemma singleton_inputs f c : inputs c = [[]; []] → add_input 0 f c = Ret (set_inputs [[f]; []] c).
Proof. intros Hi. unfold add_input. by rewrite Hi. Qed.

(** The compaction of [level] from the file [f] on. *)
Definition from_file vs (level : Z) (f : FileMetaHandle) : Compaction :=
  set_level level (vs_current vs) (set_inputs [[f]; []] (Compaction_new (vs_opt vs) 0 (vs_current vs))).

(** The compaction of the file [f]: its inputs have it. *)
Definition compacts w vs v (level : Z) c vs' : Prop :=
  ∃ l0 l1 gp b e, c_level c = level ∧ inputs c = [l0; l1] ∧ grandparents c = gp ∧ c_edit c = set_compact_pointer level e VersionEdit_new
    ∧ vs' = set_ptrs (<[Z.to_nat level := e]> (vs_compaction_ptrs vs)) vs
    ∧ good_inputs (w_metas w) v level l0 l1 b e ∧ below (w_metas w) v level (l0 ++ l1) gp.

Lemma singleton_sublist f files : f ∈ files → [f] `sublist_of` files.
Proof. intros (l1 & l2 & ->)%list_elem_of_split. rewrite (cons_middle f l1 l2). apply sublist_inserts_l, sublist_inserts_r. done. Qed.

Lemma pick_from w vs v level f : choosable w vs v → 0 ≤ level < NUM_LEVELS - 1 → f ∈ files_at v level →
  ∃ c vs', (c ← (if level =? 0 then
             in0 ← index (inputs (from_file vs level f)) 0;
             '(smallest, largest) ← get_range (w_metas w) (vs_icmp vs) in0;
             in0 ← overlapping_inputs (w_metas w) v 0 smallest largest;
             i ← set_index (inputs (from_file vs level f)) 0 in0;
             _ ← massert (negb (bool_decide (in0 = [])));
             Ret (set_inputs i (from_file vs level f))
           else Ret (from_file vs level f));
      '(vs, c) ← setup_other_inputs c w vs;
      Ret (vs, Some c)) = Ret (vs', Some c) ∧ compacts w vs v level c vs'.
Proof.
  intros H Hl Hf. pose proof (level_all_ok w vs v level H ltac:(lia)) as Hok. assert (file_ok (u := u) (w_metas w) f) as Kf by (by apply (proj1 (Forall_forall _ _) Hok)).
  assert (∃ l0, (if level =? 0 then
             in0 ← index (inputs (from_file vs level f)) 0;
             '(smallest, largest) ← get_range (w_metas w) (vs_icmp vs) in0;
             in0 ← overlapping_inputs (w_metas w) v 0 smallest largest;
             i ← set_index (inputs (from_file vs level f)) 0 in0;
             _ ← massert (negb (bool_decide (in0 = [])));
             Ret (set_inputs i (from_file vs level f))
           else Ret (from_file vs level f)) = Ret (set_inputs [l0; []] (from_file vs level f))
    ∧ l0 ≠ [] ∧ l0 `sublist_of` files_at v level ∧ (level = 0 → closed (u := u) (w_metas w) (files_at v 0) l0)) as (l0 & -> & Hne & Hs & Hc).
  { destruct (Z.eqb_spec level 0) as [->|Hz].
    - change (index (inputs (from_file vs 0 f)) 0) with (Ret [f]). rewrite bind_Ret. unfold vs_icmp. rewrite (ch_cmp _ _ _ H).
      destruct (get_range_ok (u := u) (w_metas w) [f]) as (b & e & -> & R); [done|by apply Forall_singleton|]. rewrite bind_Ret.
      destruct (range_keys (u := u) (w_metas w) [f] b e) as [Kb Ke]; [by apply Forall_singleton|done|].
      destruct (overlapping_found (u := u) (w_metas w) least v 0 b e (ch_version _ _ _ H) ltac:(done) Kb Ke) as (l0 & -> & F). rewrite bind_Ret.
      assert (f ∈ l0) as Hin by (apply (fi_all _ _ _ _ _ _ F); [done|]; apply (range_overlaps (u := u) (w_metas w) [f]); [done|set_solver|done]).
      exists l0. change (set_index (inputs (from_file vs 0 f)) 0 l0) with (Ret [l0; []]). rewrite bind_Ret, bool_decide_false by (by intros ->; apply elem_of_nil in Hin). cbn [negb massert]. rewrite bind_Ret.
      split_and!; [done|by intros ->; apply elem_of_nil in Hin|apply F|intros _; by apply (fi_closed _ _ _ _ _ _ F)].
    - exists [f]. split_and!; [done|done|by apply singleton_sublist|done]. }
  rewrite bind_Ret. destruct (setup_ok (set_inputs [l0; []] (from_file vs level f)) w vs v l0 H Hl) as (l0' & l1 & gp & b & e & -> & _ & G & Hb); try done; [by exists []|].
  rewrite bind_Ret. eexists _, _. split; [done|]. exists l0', l1, gp, b, e. by split_and!.
Qed.

(** What [pick_compaction] chooses. *)
Lemma pick_compaction_ok w vs v : choosable w vs v → Forall (λ p, p = [] ∨ key_ok icmp p) (vs_compaction_ptrs vs) → pickable v →
  ∃ vs' oc, pick_compaction w vs = Ret (vs', oc) ∧ needs_compaction w vs = Ret (bool_decide (is_Some oc))
    ∧ match oc with Some c => ∃ level, 0 ≤ level < NUM_LEVELS - 1 ∧ compacts w vs v level c vs' | None => vs' = vs end.
Proof.
  intros H Hptr [(M0 & Hfin) Hseek]. unfold pick_compaction, needs_compaction. rewrite (ch_current _ _ _ H), !bind_Ret.
  destruct (SFleb (f64_of 1) (default (f64_of 0) (compaction_score v))) eqn:Es; cbn [orb].
  - destruct (best_level M0 v Hfin Es) as (level & El & Hl & Hne). assert (0 ≤ level < NUM_LEVELS) as Hl' by lia.
    destruct (version_level (u := u) (w_metas w) v level (ch_version _ _ _ H) Hl') as (files & Hf & Elf & Hok & _). assert (files_at v level = files) as Efa by (unfold files_at; by rewrite Hf).
    rewrite El. cbn [unwrap]. rewrite bind_Ret, (proj2 (Z.ltb_lt _ _)) by lia. cbn [massert]. rewrite bind_Ret, Elf, bind_Ret.
    destruct (lookup_lt_is_Some_2 (vs_compaction_ptrs vs) (Z.to_nat level)) as [p Hp]; [rewrite (ch_ptrs _ _ _ H); lia|]. rewrite (index_Z _ level p) by (done || lia). rewrite bind_Ret.
    rewrite Forall_lookup in Hptr. assert (vs_icmp vs = icmp) as Ei by (unfold vs_icmp; by rewrite (ch_cmp _ _ _ H)).
    destruct (first_past_ok (w_metas w) p files Hok (Hptr _ _ Hp)) as (r & Er & Hr). rewrite <- Ei in Er. rewrite Er, bind_Ret.
    assert (∃ f, f ∈ files ∧ (c ← match r with Some f => add_input 0 f (Compaction_new (vs_opt vs) 0 (vs_current vs)) | None => Ret (Compaction_new (vs_opt vs) 0 (vs_current vs)) end;
      n0 ← num_inputs 0 c; c ← (if n0 =? 0 then f ← index files 0; add_input 0 f c else Ret c); Ret (Some (level, c)))
      = Ret (Some (level, set_inputs [[f]; []] (Compaction_new (vs_opt vs) 0 (vs_current vs))))) as (f & Hin & ->).
    { destruct r as [f|]; [exists f; split; [by apply Hr|done]|]. rewrite Efa in Hne. destruct files as [|f files]; [done|]. exists f. split; [left|done]. }
    rewrite bind_Ret. rewrite <- Efa in Hin. destruct (pick_from w vs v level f H Hl Hin) as (c & vs' & E1 & C1). exists vs', (Some c). split_and!; [exact E1|done|]. by exists level.
  - destruct (file_to_compact v) as [f|] eqn:Ef.
    + destruct (Hseek f eq_refl) as [Hl Hin]. rewrite singleton_inputs, !bind_Ret by done.
      destruct (pick_from w vs v _ f H Hl Hin) as (c & vs' & E1 & C1). exists vs', (Some c). split_and!; [exact E1|done|]. by eexists.
    + rewrite bind_Ret. by exists vs, None.
Qed.

(** ** [compact_range] *)

Lemma take_up_to_ok (M : Metas) limit files : ∀ total, 0 ≤ total → Forall (λ f, 0 ≤ size (M f)) files → total + sum_sizes M files < 2 ^ 64 →
  ∃ k, take_up_to M limit total files = Ret (take k files) ∧ (files ≠ [] → 0 < k)%nat.
Proof.
  induction files as [|f files IH]; intros total H0 Hp Hs; cbn [take_up_to]; [by exists 0%nat|]. apply Forall_cons in Hp as [Hf Hp]. unfold sum_sizes in Hs. cbn [foldr] in Hs.
  assert (0 ≤ foldr (λ f a, size (M f) + a) 0 files) as Hnn by (clear -Hp; induction Hp; cbn; lia). rewrite uadd_Ret, bind_Ret by lia.
  destruct (_ <? _); [exists 1%nat; by split; [|lia]|]. destruct (IH (total + size (M f))) as (k & -> & _); [lia|done|unfold sum_sizes; lia|]. rewrite bind_Ret. exists (S k). by split; [|lia].
Qed.

Lemma compact_range_ok w vs v level from to : choosable w vs v → 0 ≤ level < NUM_LEVELS - 1 → key_ok icmp from → key_ok icmp to →
  ∃ vs' oc, compact_range level from to w vs = Ret (vs', oc)
    ∧ match oc with
      | Some c => compacts w vs v level c vs' ∧ manual c = true
      | None => vs' = vs ∧ ∀ f, f ∈ files_at v level → ¬ overlaps (u := u) (w_metas w) (ukey_of from) (ukey_of to) f
      end.
Proof.
  intros H Hl Kf Kt. unfold compact_range. rewrite (ch_current _ _ _ H), bind_Ret.
  destruct (overlapping_found (u := u) (w_metas w) least v level from to (ch_version _ _ _ H) ltac:(lia) Kf Kt) as (l & -> & F). rewrite bind_Ret. pose proof (fi_sub _ _ _ _ _ _ F) as Hs.
  destruct l as [|f l'] eqn:El; [exists vs, None; split_and!; [done..|]; intros f Hf Ho; by apply (not_elem_of_nil f), (fi_all _ _ _ _ _ _ F)|]. rewrite <- El in *.
  assert (∃ l0, (if 0 <? level then take_up_to (w_metas w) (max_file_size (vs_opt vs)) 0 l else Ret l) = Ret l0 ∧ l0 ≠ [] ∧ l0 `sublist_of` files_at v level
    ∧ (level = 0 → closed (u := u) (w_metas w) (files_at v 0) l0)) as (l0 & -> & Hne & Hs0 & Hc).
  { destruct (Z.ltb_spec 0 level) as [Hpos|Hpos].
    - destruct (level_sizes w vs v level l H ltac:(lia) Hs) as [_ Hb].
      destruct (version_level (u := u) (w_metas w) v level (ch_version _ _ _ H) ltac:(lia)) as (files & Hf & _ & _ & Hp & _). unfold files_at in Hs. rewrite Hf in Hs. cbn in Hs.
      destruct (sum_sizes_sublist (w_metas w) l files Hs Hp) as [_ Hp']. destruct (take_up_to_ok (w_metas w) (max_file_size (vs_opt vs)) l 0 ltac:(lia) Hp' ltac:(lia)) as (k & -> & Hk).
      exists (take k l). split_and!; [done| | |lia].
      + subst l. specialize (Hk ltac:(done)). destruct k; [lia|done].
      + unfold files_at. rewrite Hf. cbn. etrans; [|exact Hs]. apply sublist_take.
    - exists l. split_and!; [done|by subst l|done|]. intros Hz. rewrite <- Hz at 1. by apply (fi_closed _ _ _ _ _ _ F). }
  rewrite bind_Ret. change (set_index (inputs (Compaction_new (vs_opt vs) level (vs_current vs))) 0 l0) with (Ret [l0; []]). rewrite bind_Ret.
  destruct (setup_ok (set_manual true (set_inputs [l0; []] (Compaction_new (vs_opt vs) level (vs_current vs)))) w vs v l0 H Hl) as (l0' & l1 & gp & b & e & -> & _ & G & Hb); try done; [by exists []|].
  rewrite bind_Ret. eexists _, (Some _). split_and!; [done| |done]. exists l0', l1, gp, b, e. by split_and!.
Qed.

(** ** Theorems *)

(** C15: [pick_compaction] chooses a compaction exactly when [needs_compaction] says so, and the
    choice is good: the inputs of the level are files of it, in level 0 with all that overlap
    them; the inputs of the next level are exactly its files that overlap the range of user keys
    of the former, so that the tables the compaction writes take the place of all files there
    that they overlap; the grandparents are those that overlap the range of all inputs; and the
    compaction pointer of the level moves to the largest key of its inputs.  (The empty key is
    the least one, as for the default comparator.) *)
Theorem pick_compaction_closed w vs v : choosable w vs v → Forall (λ p, p = [] ∨ key_ok icmp p) (vs_compaction_ptrs vs) → pickable v →
  ∃ vs' oc, pick_compaction w vs = Ret (vs', oc) ∧ needs_compaction w vs = Ret (bool_decide (is_Some oc))
    ∧ match oc with
      | Some c => ∃ level l0 l1 b e, 0 ≤ level < NUM_LEVELS - 1 ∧ c_level c = level ∧ inputs c = [l0; l1]
          ∧ l0 ≠ [] ∧ l0 ⊆ files_at v level ∧ (level = 0 → closed (u := u) (w_metas w) (files_at v 0) l0)
          ∧ range_of (u := u) (w_metas w) l0 b e ∧ (∀ f, f ∈ l1 ↔ f ∈ files_at v (level + 1) ∧ overlaps (u := u) (w_metas w) (ukey_of b) (ukey_of e) f)
          ∧ below (w_metas w) v level (l0 ++ l1) (grandparents c)
          ∧ c_edit c = set_compact_pointer level e VersionEdit_new ∧ vs' = set_ptrs (<[Z.to_nat level := e]> (vs_compaction_ptrs vs)) vs
      | None => vs' = vs
      end.
Proof.
  intros H Hp Hk. destruct (pick_compaction_ok w vs v H Hp Hk) as (vs' & oc & E1 & E2 & Hoc). exists vs', oc. split_and!; [done..|]. destruct oc as [c|]; [|done].
  destruct Hoc as (level & Hl & l0 & l1 & gp & b & e & C1 & C2 & C3 & C4 & C5 & [G1 G2 G3 G4 G5] & Hb). exists level, l0, l1, b, e. split_and!; try done; [lia|lia| |by rewrite C3].
  intros f. rewrite G5, list_elem_of_filter. tauto.
Qed.

End setup.

(** ** Witnesses *)

Module TestPick.
#[export] Existing Instance Reference.ref_encoding.
#[export] Existing Instance Reference.ref_encoding_laws.
#[export] Instance EN : Env MemFS := MemEnv id.

(** The version [v] with its scores, where a read has chosen the first file, of [level]. *)
Definition chosen_by_reads (M : Metas) (v : Version) (level : Z) : Version :=
  let v := {| user_cmp := user_cmp v; v_files := v_files v; file_to_compact := Some 0%nat; file_to_compact_lvl := level; compaction_score := None; compaction_level := None |} in
  match finalize M v with Ret v => v | _ => v end.
Definition world (M : Metas) (v : Version) : World MemFS ra_file := {| w_storage := TestManifest.storage; w_metas := M; w_fresh := 4; w_versions := [v] |}.
Definition vset : VersionSet w_file := TestManifest.fresh.2.

(** The inputs that are picked, and whether the compaction is a move. *)
Definition picked (w : World MemFS ra_file) : option (list (list FileMetaHandle) * bool) :=
  match pick_compaction w vset with
  | Ret (_, Some c) => Some (inputs c, match is_trivial_move (w_metas w) c with Ret b => b | _ => false end)
  | _ => None
  end.

Definition v1 : Version := chosen_by_reads TestVersion.M TestVersion.V 0.

Lemma v1_choosable : choosable (u := DefaultCmp) (world TestVersion.M v1) vset v1.
Proof.
  split; [reflexivity|reflexivity| |repeat constructor; by_decide|split; by_decide|reflexivity]. split; [reflexivity|reflexivity| |repeat constructor; by_decide].
  pose proof TestVersion.files_ok as Hok. rewrite !Forall_cons in Hok. destruct Hok as (H0 & H1 & H2 & H3 & _).
  change (v_files v1) with [[0; 1]%nat; [2; 3]%nat; []; []; []; []; []]. repeat apply Forall_cons_2; try apply Forall_nil_2; done.
Qed.

Lemma v1_pickable : pickable v1.
Proof.
  split; [exists TestVersion.M; vm_compute; reflexivity|]. intros f Hf. assert (f = 0%nat) as -> by (vm_compute in Hf; congruence). vm_compute. split; [split; congruence|]. left.
Qed.

(** Two files of level 1: the last key of the first is a newer version of the first key of the
    second. *)
Definition M2 : Metas := TestVersion.metas [TestVersion.file 7 [97] 9 [107] 9; TestVersion.file 8 [107] 3 [122] 2].
Definition v2 : Version := chosen_by_reads M2 (TestVersion.version [[]; [0; 1]]%nat) 1.
End TestPick.

Section pick_witnesses.
Import TestPick.

Lemma pick_compaction_closed_witness :
  ∃ vs' c, pick_compaction (world TestVersion.M v1) vset = Ret (vs', Some c) ∧ 0%nat ∈ files_at v1 0 ∧ inputs c = [[0; 1]%nat; []].
Proof.
  destruct (pick_compaction_closed (u := DefaultCmp) (λ k, ltac:(by destruct k)) (world TestVersion.M v1) vset v1) as (vs' & oc & E1 & E2 & _).
  - exact v1_choosable.
  - repeat constructor.
  - exact v1_pickable.
  - assert (picked (world TestVersion.M v1) = Some ([[0; 1]%nat; []], false)) as Hp by (vm_compute; reflexivity). unfold picked in Hp. rewrite E1 in Hp.
    destruct oc as [c|]; [|discriminate Hp]. exists vs', c. split_and!; [exact E1|left|]. injection Hp as Hp _. exact Hp.
Defined.

(** A file whose last user key goes on in the next file of its level is moved down by itself:
    the entries of the user key that stay in the level are older and are found first. *)
Theorem pick_compaction_splits_key :
  ∃ vs' c, pick_compaction (world M2 v2) vset = Ret (vs', Some c) ∧ inputs c = [[0%nat]; []] ∧ is_trivial_move M2 c = Ret true
    ∧ 1%nat ∈ files_at v2 1 ∧ ukey_of (largest (M2 0%nat)) = ukey_of (smallest (M2 1%nat)) ∧ seq_of (smallest (M2 1%nat)) < seq_of (largest (M2 0%nat)).
Proof.
  assert (picked (world M2 v2) = Some ([[0%nat]; []], true)) as Hp by (vm_compute; reflexivity). unfold picked in Hp.
  destruct (pick_compaction (world M2 v2) vset) as [[vs' [c|]]| |]; try discriminate Hp. injection Hp as Hi Ht. exists vs', c.
  change (w_metas (world M2 v2)) with M2 in Ht. destruct (is_trivial_move M2 c) as [[]| |]; try discriminate Ht.
  split_and!; [reflexivity|exact Hi|reflexivity|vm_compute; right; left|vm_compute; reflexivity|vm_compute; reflexivity].
Qed.

End pick_witnesses.
