(* ===== verification/DbImpl.v ===== *)
(** * DbImpl: [src/db_impl.rs]

    The database: opening and recovery, writes, reads, iterators, and compactions.

    An operation of the database acts on the [World] it shares with its iterators and on its
    own state [DB]; the version set, which the iterators share too, is a part of [DB] that is
    passed to them and back.  A log writer and a table builder hold a buffered writer to a file
    of the environment; they are joined with the environment for the time of an operation.

    Parameters are the clock [micros], [Path::canonicalize], the order in which a hash set is
    traversed and how bytes and paths are printed in messages. *)

From S2P Require Import Prelude Encoding Error Io Env BufWriter Types Cmp KeyTypes Log Iterator SkipMap MemTable WriteBatch Filter FilterBlock Options BlockBuilder Block Cache TableBuilder Table TableCache Version VersionEdit Snapshot MergingIter DbIter VersionSet.

(** ** State *)

(** [CompactionStats] *)
Record CompactionStats := mkStats { cst_micros : Z; cst_read : Z; cst_written : Z }.
Definition CompactionStats_default : CompactionStats := {| cst_micros := 0; cst_read := 0; cst_written := 0 |}.
Definition stats_add (a b : CompactionStats) : exec CompactionStats :=
  m ← uadd 64 (cst_micros a) (cst_micros b);
  r ← uadd 64 (cst_read a) (cst_read b);
  w ← uadd 64 (cst_written a) (cst_written b);
  Ret {| cst_micros := m; cst_read := r; cst_written := w |}.

Record DB (G WF : Type) := mkDB {
  db_name : string;
  db_path : string;
  db_lock : option FileLock;
  db_opt : Options;
  db_mem : MemTable G;
  db_imm : option (MemTable G);
  db_log : option (LogWriter (BufWriter WF));
  db_log_num : option Z;
  db_vset : VersionSet WF;
  db_snaps : SnapshotList;
  db_cstats : list CompactionStats;
}.
Arguments mkDB {G WF}.
Arguments db_name {G WF}.
Arguments db_path {G WF}.
Arguments db_lock {G WF}.
Arguments db_opt {G WF}.
Arguments db_mem {G WF}.
Arguments db_imm {G WF}.
Arguments db_log {G WF}.
Arguments db_log_num {G WF}.
Arguments db_vset {G WF}.
Arguments db_snaps {G WF}.
Arguments db_cstats {G WF}.

Section setters.
Context {G WF : Type}.
Implicit Types (db : DB G WF).
Abbreviation update l m i lg ln vs sn cs db :=
  {| db_name := db_name db; db_path := db_path db; db_lock := l; db_opt := db_opt db; db_mem := m; db_imm := i; db_log := lg; db_log_num := ln;
     db_vset := vs; db_snaps := sn; db_cstats := cs |} (only parsing).

Definition set_lock (l : option FileLock) db : DB G WF :=
  update l (db_mem db) (db_imm db) (db_log db) (db_log_num db) (db_vset db) (db_snaps db) (db_cstats db) db.
Definition set_mem (m : MemTable G) db : DB G WF :=
  update (db_lock db) m (db_imm db) (db_log db) (db_log_num db) (db_vset db) (db_snaps db) (db_cstats db) db.
Definition set_imm (i : option (MemTable G)) db : DB G WF :=
  update (db_lock db) (db_mem db) i (db_log db) (db_log_num db) (db_vset db) (db_snaps db) (db_cstats db) db.
Definition set_log (l : option (LogWriter (BufWriter WF))) db : DB G WF :=
  update (db_lock db) (db_mem db) (db_imm db) l (db_log_num db) (db_vset db) (db_snaps db) (db_cstats db) db.
Definition set_db_log_num (n : option Z) db : DB G WF :=
  update (db_lock db) (db_mem db) (db_imm db) (db_log db) n (db_vset db) (db_snaps db) (db_cstats db) db.
Definition set_vset (vs : VersionSet WF) db : DB G WF :=
  update (db_lock db) (db_mem db) (db_imm db) (db_log db) (db_log_num db) vs (db_snaps db) (db_cstats db) db.
Definition set_snaps (sn : SnapshotList) db : DB G WF :=
  update (db_lock db) (db_mem db) (db_imm db) (db_log db) (db_log_num db) (db_vset db) sn (db_cstats db) db.
Definition set_cstats (cs : list CompactionStats) db : DB G WF :=
  update (db_lock db) (db_mem db) (db_imm db) (db_log db) (db_log_num db) (db_vset db) (db_snaps db) cs db.

End setters.

(** A table builder that writes to a file of the environment, see [log_in]. *)
Definition tb_with {W W'} (d : W') (tb : TableBuilder W) : TableBuilder W' :=
  {| tb_opt := tb_opt tb; tb_dst := d; tb_offset := tb_offset tb; num_entries := num_entries tb; prev_block_last_key := prev_block_last_key tb;
     data_block := data_block tb; index_block := index_block tb; filter_block := filter_block tb |}.
Definition tb_in {E W} (tb : TableBuilder W) (e : E) : TableBuilder (E * W) := tb_with (e, tb_dst tb) tb.
Definition tb_out {E W} (tb : TableBuilder (E * W)) : E * TableBuilder W := (fst (tb_dst tb), tb_with (snd (tb_dst tb)) tb).

(** A log reader of a file of the environment. *)
Definition reader_in {E R} (lr : LogReader R) (e : E) : LogReader (E * R) :=
  {| lr_src := (e, lr_src lr); blk_off := blk_off lr; blocksize := blocksize lr; head_scratch := head_scratch lr; checksums := checksums lr |}.
Definition reader_out {E R} (lr : LogReader (E * R)) : E * LogReader R :=
  (fst (lr_src lr), {| lr_src := snd (lr_src lr); blk_off := blk_off lr; blocksize := blocksize lr; head_scratch := head_scratch lr; checksums := checksums lr |}).

(** [CompactionState] *)
Record CompactionState (WF : Type) := mkCompactionState {
  cs_compaction : Compaction;
  smallest_seq : Z;
  outputs : list FileMetaData;
  cs_builder : option (TableBuilder (BufWriter WF));
  total_bytes : Z;
}.
Arguments mkCompactionState {WF}.
Arguments cs_compaction {WF}.
Arguments smallest_seq {WF}.
Arguments outputs {WF}.
Arguments cs_builder {WF}.
Arguments total_bytes {WF}.

Section compaction_state.
Context {WF : Type}.
Implicit Types (cs : CompactionState WF).

Definition CompactionState_new (c : Compaction) (smallest : Z) : CompactionState WF :=
  {| cs_compaction := c; smallest_seq := smallest; outputs := []; cs_builder := None; total_bytes := 0 |}.
Definition set_compaction (c : Compaction) cs : CompactionState WF :=
  {| cs_compaction := c; smallest_seq := smallest_seq cs; outputs := outputs cs; cs_builder := cs_builder cs; total_bytes := total_bytes cs |}.
Definition set_outputs (o : list FileMetaData) cs : CompactionState WF :=
  {| cs_compaction := cs_compaction cs; smallest_seq := smallest_seq cs; outputs := o; cs_builder := cs_builder cs; total_bytes := total_bytes cs |}.
Definition set_builder (b : option (TableBuilder (BufWriter WF))) cs : CompactionState WF :=
  {| cs_compaction := cs_compaction cs; smallest_seq := smallest_seq cs; outputs := outputs cs; cs_builder := b; total_bytes := total_bytes cs |}.
Definition set_total (n : Z) cs : CompactionState WF :=
  {| cs_compaction := cs_compaction cs; smallest_seq := smallest_seq cs; outputs := outputs cs; cs_builder := cs_builder cs; total_bytes := n |}.

(** [current_output], and an assignment to it. *)
Definition current_output cs : exec FileMetaData := i ← usub (zlen (outputs cs)) 1; index (outputs cs) i.
Definition set_current_output (f : FileMetaData) cs : exec (CompactionState WF) :=
  i ← usub (zlen (outputs cs)) 1; o ← set_index (outputs cs) i f; Ret (set_outputs o cs).

End compaction_state.

Section db_impl.
Context {IE : IntegerEncoding} {CR : Crc32} `{EN : Env E} `{RG : Rng G} {FW : FixedIntWriter (E * BufWriter w_file)}.
Context (debug_bytes : bytes → string) (order : gset (Z * Z) → list (Z * Z)) (micros : E → exec (E * Z)) (canonicalize : string → option string) (debug_path : string → string).
Abbreviation World := (World E ra_file) (only parsing).
Abbreviation VersionSet := (VersionSet w_file) (only parsing).
Abbreviation dbase := (DB G w_file) (only parsing).
Abbreviation cstate := (CompactionState w_file) (only parsing).
Abbreviation state := (World * dbase)%type (only parsing).
Implicit Types (w : World) (db : dbase) (s : state) (cs : cstate).

(** ** Parts of the state *)

(** An operation of the environment, of the version set, of the table cache. *)
Definition on_env {A} (op : E → exec (E * A)) s : exec (state * A) :=
  let (w, db) := s in '(e, a) ← op (w_env w); Ret ((set_env e w, db), a).
Definition on_vset {A} (op : World * VersionSet → exec ((World * VersionSet) * A)) s : exec (state * A) :=
  let (w, db) := s in '((w, vs), a) ← op (w, db_vset db); Ret ((w, set_vset vs db), a).
Definition on_storage {A} (op : Storage E ra_file → exec (Storage E ra_file * A)) s : exec (state * A) :=
  let (w, db) := s in '(st, a) ← op (w_storage w); Ret ((set_storage st w, db), a).

(** [self.vset.borrow_mut().new_file_number()] and the like. *)
Definition db_new_file_number s : exec (state * Z) :=
  let (w, db) := s in '(vs, n) ← new_file_number (db_vset db); Ret ((w, set_vset vs db), n).
Definition db_reuse_file_number (n : Z) s : exec state :=
  let (w, db) := s in vs ← reuse_file_number n (db_vset db); Ret (w, set_vset vs db).

(** [self.log.as_mut().unwrap().op()] *)
Definition on_log {A} (op : LogWriter (E * BufWriter w_file) → exec (LogWriter (E * BufWriter w_file) * Result A)) s : exec (state * Result A) :=
  let (w, db) := s in
  lw ← unwrap (db_log db);
  '(lw, r) ← op (log_in lw (w_env w));
  let (e, lw) := log_out lw in
  Ret ((set_env e w, set_log (Some lw) db), r).

(** [self.log = Some(lw)]: the writer that was there is dropped. *)
Definition assign_log (lw : LogWriter (BufWriter w_file)) s : exec state :=
  let (w, db) := s in
  e ← match db_log db with Some old => BufWriter_drop (w_env w) (lw_dst old) | None => Ret (w_env w) end;
  Ret (set_env e w, set_log (Some lw) db).

(** [DB::current] *)
Definition db_current s : exec Version := current s.1 (db_vset s.2).

(** What an operation on the current version changes: the file metadata and the version. *)
Definition set_current_version (M : Metas) (v : Version) s : exec state :=
  let (w, db) := s in
  l ← unwrap (vs_current (db_vset db));
  Ret ({| w_storage := w_storage w; w_metas := M; w_fresh := w_fresh w; w_versions := <[l := v]> (w_versions w) |}, db).

Definition add_stats (level : Z) (c : CompactionStats) s : exec state :=
  let (w, db) := s in
  _ ← massert (level <? NUM_LEVELS);
  old ← index (db_cstats db) level;
  new ← stats_add old c;
  l ← set_index (db_cstats db) level new;
  Ret (w, set_cstats l db).

(** ** Tables *)

(** [BufWriter] is dropped with the builder. *)
Definition tb_drop (tb : TableBuilder (E * BufWriter w_file)) : exec E := BufWriter_drop (fst (tb_dst tb)) (snd (tb_dst tb)).

(** The loop of [build_table]: the keys seen are the first one and the last one. *)
Fixpoint build_loop `{LdbIterator It} (fuel : nat) (from : It) (first : option bytes) (kbuf : bytes) (tb : TableBuilder (E * BufWriter w_file))
  : exec (TableBuilder (E * BufWriter w_file) * Result (option bytes * bytes)) :=
  match fuel with
  | O => NoFuel
  | S fuel =>
      '(from, more) ← it_advance from;
      if (more : bool) then
        kv ← it_current from;
        '(k, v) ← unwrap kv;
        let first := match first with None => Some k | _ => first end in
        let? tb, _ := tb_add k v tb in
        build_loop fuel from first k tb
      else Ret (tb, Ok (first, kbuf))
  end.

Definition build_table `{LdbIterator It} (fuel : nat) (dbname : string) (opt : Options) (from : It) (num : Z) (e : E) : exec (E * Result FileMetaData) :=
  from ← it_reset from;
  filename ← table_file_name dbname num;
  '(e, f) ← env_open_writable_file filename e;
  '(e, r) ←
    match f with
    | Err x => Ret (e, Err x)
    | Ok f =>
        '(tb, r) ← build_loop fuel from None [] (TableBuilder_new opt (e, BufWriter_new f));
        '(tb, r) ← match r with
                   | Err x => Ret (tb, Err x)
                   | Ok keys => '(tb, r) ← tb_finish tb; Ret (tb, match r with Ok _ => Ok keys | Err x => Err x end)
                   end;
        e ← tb_drop tb;
        Ret (e, r)
    end;
  match r with
  | Err x => '(e, _) ← env_delete filename e; Ret (e, Err x)
  | Ok (None, _) => '(e, _) ← env_delete filename e; Ret (e, Ok FileMetaData_default)
  | Ok (Some key, kbuf) =>
      sz ← env_size_of filename e;
      Ret (e, match sz with Ok sz => Ok (mkFile 0 num sz key kbuf) | Err x => Err x end)
  end.

(** [fuel] bounds the entries of the memtable. *)
Definition write_l0_table (fuel : nat) (memt : MemTable G) (ve : VersionEdit) (base : option Version) s : exec (state * Result VersionEdit) :=
  '(s, start_ts) ← on_env micros s;
  '(s, num) ← db_new_file_number s;
  let? s, fmd := on_env (build_table fuel (db_path s.2) (db_opt s.2) (memtable_iter memt) num) s in
  if size fmd =? 0 then s ← db_reuse_file_number num s; Ret (s, Ok ve)
  else
    '(s, cache_result) ← on_storage (get_table debug_bytes num) s;
    match cache_result with
    | Err x =>
        filename ← table_file_name (db_path s.2) num;
        '(s, _) ← on_env (env_delete filename) s;
        Ret (s, Err x)
    | Ok _ =>
        '(s, now) ← on_env micros s;
        us ← usub now start_ts;
        level ← match base with
                | None => Ret 0
                | Some b => lo ← parsed_ukey (smallest fmd); hi ← parsed_ukey (largest fmd); pick_memtable_output_level (w_metas s.1) b lo hi
                end;
        s ← add_stats level {| cst_micros := us; cst_read := 0; cst_written := size fmd |} s;
        Ret (s, Ok (add_file level fmd ve))
    end.

(** ** Files *)

(** One name of the directory. *)
Definition delete_obsolete (files : gset Z) (name : string) s : exec state :=
  match parse_file_name name with
  | Err _ => Ret s
  | Ok (num, typ) =>
      let vs := db_vset s.2 in
      let keep := match typ with
                  | Types.Log => log_num vs <=? num
                  | Descriptor => manifest_num vs <=? num
                  | Types.Table => bool_decide (num ∈ files)
                  | Temp => bool_decide (num ∈ files)
                  | Current | DBLock | InfoLog => true
                  end in
      if keep then Ret s
      else
        s ← (if decide (typ = Types.Table) then '(s, _) ← on_storage (evict num) s; Ret s else Ret s);
        '(s, _) ← on_env (env_delete (path_join (db_path s.2) name)) s;
        Ret s
  end.

Definition delete_obsolete_files s : exec (state * Result unit) :=
  let (w, db) := s in
  files ← live_files w (db_vset db);
  filenames ← env_children (db_path db) (w_env w);
  match filenames with
  | Err x => Ret (s, Err x)
  | Ok names => s ← mfoldl (λ s name, delete_obsolete files name s) s names; Ret (s, Ok ())
  end.

Definition acquire_lock s : exec (state * Result unit) :=
  let (w, db) := s in
  '(e, r) ← env_lock (lock_file_name (db_path db)) (w_env w);
  let w := set_env e w in
  match r with
  | Ok l => Ret ((w, set_lock (Some l) db), Ok ())
  | Err x => Ret ((w, db), if decide (code x = LockError) then err LockError "database lock is held by another instance" else Err x)
  end.

Definition release_lock s : exec (state * Result unit) :=
  let (w, db) := s in
  match db_lock db with
  | Some l => '(e, r) ← env_unlock l (w_env w); Ret ((set_env e w, set_lock None db), r)
  | None => Ret (s, Ok ())
  end.

Definition db_flush s : exec (state * Result unit) :=
  match db_log s.2 with Some _ => on_log log_flush s | None => Ret (s, Ok ()) end.

Definition close s : exec (state * Result unit) :=
  let? s, _ := db_flush s in release_lock s.

(** [impl Drop for DB], with the drop of the log writer that follows. *)
Definition db_drop s : exec World :=
  '(s, _) ← db_flush s;
  '((w, db), _) ← release_lock s;
  match db_log db with
  | Some lw => e ← BufWriter_drop (w_env w) (lw_dst lw); Ret (set_env e w)
  | None => Ret w
  end.

(** ** Compactions *)

(** The iterator over the inputs shares the world. *)
Definition world_storage {A} (op : Storage E ra_file → exec (Storage E ra_file * A)) w : exec (World * A) :=
  '(st, a) ← op (w_storage w); Ret (set_storage st w, a).
Definition vit_advance (it : version_iterator) w : exec ((World * version_iterator) * bool) :=
  match it with
  | LevelZero t => '((st, t), r) ← st_advance t (w_storage w); Ret ((set_storage st w, LevelZero t), r)
  | Concat it => '((st, it), r) ← vi_advance debug_bytes (w_metas w) it (w_storage w); Ret ((set_storage st w, Concat it), r)
  end.
Definition vit_seek (key : bytes) (it : version_iterator) w : exec (World * version_iterator) :=
  match it with
  | LevelZero t => '((st, t), _) ← st_seek key t (w_storage w); Ret (set_storage st w, LevelZero t)
  | Concat it => '(st, it) ← vi_seek debug_bytes (w_metas w) key it (w_storage w); Ret (set_storage st w, Concat it)
  end.
Definition vit_prev (it : version_iterator) w : exec ((World * version_iterator) * bool) :=
  match it with
  | LevelZero t => '((st, t), r) ← st_prev t (w_storage w); Ret ((set_storage st w, LevelZero t), r)
  | Concat it => '((st, it), r) ← vi_prev debug_bytes (w_metas w) it (w_storage w); Ret ((set_storage st w, Concat it), r)
  end.
Definition vit_reset (it : version_iterator) : exec version_iterator :=
  match it with LevelZero t => Ret (LevelZero (ti_reset t)) | Concat it => Ret (Concat (vi_reset it)) end.
Definition vit_current (it : version_iterator) : exec (option (bytes * bytes)) :=
  match it with LevelZero t => ti_current t | Concat it => vi_current_kv it end.
Definition vit_valid (it : version_iterator) : bool :=
  match it with LevelZero t => ti_valid t | Concat it => vi_valid it end.

#[export] Instance version_iterator_iterator : LdbIterator (World * version_iterator) := {
  it_advance x := vit_advance x.2 x.1;
  it_current x := vit_current x.2;
  it_seek key x := vit_seek key x.2 x.1;
  it_reset x := it ← vit_reset x.2; Ret (x.1, it);
  it_valid x := Ret (vit_valid x.2);
  it_prev x := vit_prev x.2 x.1;
}.

Definition finish_compaction_output (x : state * cstate) : exec ((state * cstate) * Result unit) :=
  let (s, cs) := x in
  b ← unwrap (cs_builder cs);
  out ← current_output cs;
  let output_num := num out in
  _ ← massert (0 <? output_num);
  let cs := set_builder None cs in
  let entries := tb_entries b in
  '(tb, r) ← tb_finish (tb_in b (w_env s.1));
  e ← tb_drop tb;
  let s := (set_env e s.1, s.2) in
  match r with
  | Err x => Ret ((s, cs), Err x)
  | Ok bytes =>
      total ← uadd 64 (total_bytes cs) bytes;
      out ← current_output cs;
      cs ← set_current_output (mkFile (allowed_seeks out) (num out) bytes (smallest out) (largest out)) (set_total total cs);
      if 0 <? entries then
        '(s, r) ← on_storage (get_table debug_bytes output_num) s;
        Ret ((s, cs), match r with Ok _ => Ok () | Err x => Err x end)
      else Ret ((s, cs), Ok ())
  end.

(** What [do_compaction_work] remembers of the keys it has seen. *)
Record KeyScan := mkScan { last_seq_for_key : Z; have_ukey : bool; current_ukey : bytes }.

(** Whether an entry is kept. *)
Definition keep_entry (c : Cmp) (M : Metas) (versions : list Version) (key : bytes) (sc : KeyScan) cs : exec (KeyScan * cstate * bool) :=
  '(ktyp, seq, ukey) ← parse_internal_key key;
  if seq =? 0 then Ret ({| last_seq_for_key := MAX_SEQUENCE_NUMBER; have_ukey := false; current_ukey := [] |}, cs, false)
  else
    first ← (if have_ukey sc then o ← cmp c ukey (current_ukey sc); Ret (negb (is_eq o)) else Ret true);
    let sc := if (first : bool) then {| last_seq_for_key := MAX_SEQUENCE_NUMBER; have_ukey := true; current_ukey := ukey |} else sc in
    let sc' := {| last_seq_for_key := seq; have_ukey := have_ukey sc; current_ukey := current_ukey sc |} in
    if last_seq_for_key sc <=? smallest_seq cs then Ret (sc', cs, false)
    else if bool_decide (ktyp = TypeDeletion) && (seq <=? smallest_seq cs) then
      '(c, base) ← is_base_level_for M versions ukey (cs_compaction cs);
      Ret (sc', set_compaction c cs, negb base)
    else Ret (sc', cs, true).

(** A new output file. *)
Definition open_output (x : state * cstate) : exec ((state * cstate) * Result unit) :=
  let (s, cs) := x in
  '(s, fnum) ← db_new_file_number s;
  fname ← table_file_name (db_path s.2) fnum;
  '(s, f) ← on_env (env_open_writable_file fname) s;
  match f with
  | Err x => Ret ((s, cs), Err x)
  | Ok f =>
      let cs := set_builder (Some (TableBuilder_new (db_opt s.2) (BufWriter_new f))) cs in
      Ret ((s, set_outputs (outputs cs ++ [mkFile 0 fnum 0 [] []]) cs), Ok ())
  end.

(** An entry that is kept goes to the current output. *)
Definition emit_entry (key val : bytes) (x : state * cstate) : exec ((state * cstate) * Result unit) :=
  let? x, _ := (match cs_builder x.2 with None => open_output x | Some _ => Ret (x, Ok ()) end) in
  let (s, cs) := x in
  b ← unwrap (cs_builder cs);
  out ← current_output cs;
  let small := if tb_entries b =? 0 then key else smallest out in
  cs ← set_current_output (mkFile (allowed_seeks out) (num out) (size out) small key) cs;
  '(tb, r) ← tb_add key val (tb_in b (w_env s.1));
  let (e, b) := tb_out tb in
  let x := ((set_env e s.1, s.2), set_builder (Some b) cs) in
  match r with
  | Err y => Ret (x, Err y)
  | Ok _ => if max_file_size (db_opt s.2) <? tb_size_estimate b then finish_compaction_output x else Ret (x, Ok ())
  end.

(** The loop of [do_compaction_work]; [mfuel] is the fuel of the merging iterator. *)
Fixpoint compaction_loop (fuel mfuel : nat) (input : MergingIter version_iterator) (sc : KeyScan) (x : state * cstate)
  : exec ((state * cstate) * Result unit) :=
  match fuel with
  | O => NoFuel
  | S fuel =>
      let '((w, db), cs) := x in
      v ← mi_valid (w, input);
      if (v : bool) then
        kv ← mi_current_kv (w, input);
        '(key, val) ← unwrap kv;
        '(c, stop) ← should_stop_before (w_metas w) key (cs_compaction cs);
        let cs := set_compaction c cs in
        let? x, _ := (if (stop : bool) && bool_decide (is_Some (cs_builder cs)) then finish_compaction_output ((w, db), cs) else Ret (((w, db), cs), Ok ())) in
        let '((w, db), cs) := x in
        '(sc, cs, keep) ← keep_entry (o_cmp (db_opt db)) (w_metas w) (w_versions w) key sc cs;
        let? x, _ := (if (keep : bool) then emit_entry key val ((w, db), cs) else Ret (((w, db), cs), Ok ())) in
        let '((w, db), cs) := x in
        '((w, input), _) ← mi_advance mfuel (w, input);
        compaction_loop fuel mfuel input sc ((w, db), cs)
      else Ret (x, Ok ())
  end.

Definition sum_input_sizes (M : Metas) (c : Compaction) : exec Z :=
  mfoldl (λ acc parent, n ← num_inputs parent c;
    mfoldl (λ acc (inp : nat), f ← c_input M parent (Z.of_nat inp) c; uadd 64 acc (size f)) acc (seq 0 (Z.to_nat n))) 0 [0; 1].

Definition do_compaction_work (fuel mfuel : nat) (x : state * cstate) : exec ((state * cstate) * Result unit) :=
  let (s, cs) := x in
  v ← db_current s;
  n ← num_level_files v (c_level (cs_compaction cs));
  _ ← massert (0 <? n);
  _ ← massert (bool_decide (cs_builder cs = None));
  '(s, start_ts) ← on_env micros s;
  '(w, input) ← make_input_iterator debug_bytes (cs_compaction cs) s.1 (db_vset s.2);
  '(w, input) ← @it_seek_to_first _ (MergingIter_iterator mfuel) (w, input);
  let? x, _ := compaction_loop fuel mfuel input {| last_seq_for_key := MAX_SEQUENCE_NUMBER; have_ukey := false; current_ukey := [] |} ((w, s.2), cs) in
  let? x, _ := (if bool_decide (is_Some (cs_builder x.2)) then finish_compaction_output x else Ret (x, Ok ())) in
  let (s, cs) := x in
  '(s, now) ← on_env micros s;
  us ← usub now start_ts;
  rd ← sum_input_sizes (w_metas s.1) (cs_compaction cs);
  wr ← mfoldl (λ acc f, uadd 64 acc (size f)) 0 (outputs cs);
  s ← add_stats (c_level (cs_compaction cs)) {| cst_micros := us; cst_read := rd; cst_written := wr |} s;
  Ret ((s, cs), Ok ()).

(** [state] is dropped with the builder it may still have. *)
Definition install_compaction_results (x : state * cstate) : exec (state * Result unit) :=
  let (s, cs) := x in
  c ← add_input_deletions (w_metas s.1) (cs_compaction cs);
  let level := c_level c in
  let edit := foldl (λ edit o, add_file (level + 1) o edit) (c_edit c) (outputs cs) in
  '(s, r) ← on_vset (log_and_apply order edit) s;
  match cs_builder cs with
  | Some b => e ← BufWriter_drop (w_env s.1) (tb_dst b); Ret ((set_env e s.1, s.2), r)
  | None => Ret (s, r)
  end.

(** [CompactionState::cleanup] *)
Definition cleanup (name : string) (x : state * cstate) : exec (state * cstate) :=
  let (s, cs) := x in
  s ← mfoldl (λ s o, fname ← table_file_name name (num o); '(s, _) ← on_env (env_delete fname) s; Ret s) s (outputs cs);
  Ret (s, set_outputs [] cs).

Definition start_compaction (fuel mfuel : nat) (c : Compaction) s : exec (state * Result unit) :=
  trivial ← is_trivial_move (w_metas s.1) c;
  if (trivial : bool) then
    n ← num_inputs 0 c;
    _ ← massert (n =? 1);
    f ← c_input (w_metas s.1) 0 0 c;
    let level := c_level c in
    let edit := add_file (level + 1) f (delete_file level (num f) (c_edit c)) in
    on_vset (log_and_apply order edit) s
  else
    let smallest := if sl_empty (db_snaps s.2) then vs_last_seq (db_vset s.2) else sl_oldest_of (db_snaps s.2) in
    '(x, r) ← do_compaction_work fuel mfuel (s, CompactionState_new c smallest);
    x ← match r with Err _ => cleanup (db_path s.2) x | Ok _ => Ret x end;
    let? s, _ := install_compaction_results x in
    delete_obsolete_files s.

Definition compact_memtable (fuel : nat) s : exec (state * Result unit) :=
  imm ← unwrap (db_imm s.2);
  base ← db_current s;
  '(s, r) ← write_l0_table fuel imm VersionEdit_new (Some base) (s.1, set_imm None s.2);
  match r with
  | Err x => Ret ((s.1, set_imm (Some imm) s.2), Err x)
  | Ok ve =>
      let ve := set_log_num (default 0 (db_log_num s.2)) ve in
      let? s, _ := on_vset (log_and_apply order ve) s in
      '(s, _) ← delete_obsolete_files s;
      Ret (s, Ok ())
  end.

(** [maybe_do_compaction]: the memtable first, then the version. *)
Definition compact_version (fuel mfuel : nat) s : exec (state * Result unit) :=
  needs ← needs_compaction s.1 (db_vset s.2);
  if (needs : bool) then
    '(vs, c) ← pick_compaction s.1 (db_vset s.2);
    let s := (s.1, set_vset vs s.2) in
    match c with Some c => start_compaction fuel mfuel c s | None => Ret (s, Ok ()) end
  else Ret (s, Ok ()).
Definition maybe_do_compaction (fuel mfuel : nat) s : exec (state * Result unit) :=
  let? s, _ := (match db_imm s.2 with Some _ => compact_memtable fuel s | None => Ret (s, Ok ()) end) in
  compact_version fuel mfuel s.

Definition make_room_for_write (fuel mfuel : nat) (force : bool) s : exec (state * Result unit) :=
  let db := s.2 in
  if (negb force && (approx_mem_usage (db_mem db) <? write_buffer_size (db_opt db))) || (memtable_len (db_mem db) =? 0) then Ret (s, Ok ())
  else
    '(s, logn) ← db_new_file_number s;
    '(s, logf) ← on_env (env_open_writable_file (log_file_name (db_path db) logn)) s;
    match logf with
    | Err x => s ← db_reuse_file_number logn s; Ret (s, Err x)
    | Ok f =>
        s ← assign_log (LogWriter_new (BufWriter_new f)) s;
        let db := set_db_log_num (Some logn) s.2 in
        let db := set_imm (Some (db_mem db)) (set_mem (MemTable_new (o_cmp (db_opt db))) db) in
        maybe_do_compaction fuel mfuel (s.1, db)
    end.

(** The compactions of one level: [ifrom] moves on. *)
Fixpoint compact_level (rounds fuel mfuel : nat) (l : Z) (ifrom iend : bytes) s : exec (state * Result bytes) :=
  match rounds with
  | O => NoFuel
  | S rounds =>
      '(vs, c) ← compact_range l ifrom iend s.1 (db_vset s.2);
      let s := (s.1, set_vset vs s.2) in
      match c with
      | Some c =>
          n ← num_inputs 0 c;
          ix ← usub n 1;
          f ← c_input (w_metas s.1) 0 ix c;
          let? s, _ := start_compaction fuel mfuel c s in
          compact_level rounds fuel mfuel l (largest f) iend s
      | None => Ret (s, Ok ifrom)
      end
  end.

Fixpoint compact_levels (rounds fuel mfuel : nat) (ls : list nat) (ifrom iend : bytes) s : exec (state * Result unit) :=
  match ls with
  | [] => Ret (s, Ok ())
  | l :: ls =>
      let? s, ifrom := compact_level rounds fuel mfuel (Z.of_nat l) ifrom iend s in
      compact_levels rounds fuel mfuel ls ifrom iend s
  end.

Definition db_compact_range (rounds fuel mfuel : nat) (from to : bytes) s : exec (state * Result unit) :=
  v ← db_current s;
  max_level ← mfoldl (λ m (l : nat), o ← overlap_in_level (w_metas s.1) v (Z.of_nat l) from to; Ret (if (o : bool) then l else m)) 1%nat
                (seq 1 (Z.to_nat NUM_LEVELS - 2));
  let? s, _ := make_room_for_write fuel mfuel true s in
  lk ← LookupKey_new from MAX_SEQUENCE_NUMBER;
  ifrom ← internal_key lk;
  lk ← LookupKey_new_full to 0 TypeDeletion;
  iend ← internal_key lk;
  compact_levels rounds fuel mfuel (seq 0 (S max_level)) ifrom iend s.

(** ** Writes *)

Definition db_write (fuel mfuel : nat) (batch : WriteBatch) (sync : bool) s : exec (state * Result unit) :=
  _ ← massert (bool_decide (is_Some (db_log s.2)));
  let? s, _ := make_room_for_write fuel mfuel false s in
  entries ← batch_count batch;
  next ← uadd 64 (vs_last_seq (db_vset s.2)) 1;
  mem ← insert_into_memtable batch next (db_mem s.2);
  let s := (s.1, set_mem mem s.2) in
  rec ← batch_encode next batch;
  let? s, _ := on_log (add_record rec) s in
  let? s, _ := (if sync then on_log log_flush s else Ret (s, Ok ())) in
  last ← uadd 64 (vs_last_seq (db_vset s.2)) entries;
  Ret ((s.1, set_vset (set_vs_last_seq last (db_vset s.2)) s.2), Ok ()).

Definition db_put (fuel mfuel : nat) (k v : bytes) s : exec (state * Result unit) :=
  wb ← batch_put k v WriteBatch_new; db_write fuel mfuel wb false s.
Definition db_delete (fuel mfuel : nat) (k : bytes) s : exec (state * Result unit) :=
  wb ← batch_delete k WriteBatch_new; db_write fuel mfuel wb false s.

(** ** Reads *)

Definition get_internal (fuel mfuel : nat) (seq : Z) (key : bytes) s : exec (state * Result (option bytes)) :=
  lkey ← LookupKey_new key seq;
  found ← memtable_get lkey (db_mem s.2);
  match found with
  | (Some v, _) => Ret (s, Ok (Some v))
  | (None, true) => Ret (s, Ok None)
  | (None, false) =>
      found ← match db_imm s.2 with Some imm => memtable_get lkey imm | None => Ret (None, false) end;
      match found with
      | (Some v, _) => Ret (s, Ok (Some v))
      | (None, true) => Ret (s, Ok None)
      | (None, false) =>
          v ← db_current s;
          ikey ← internal_key lkey;
          '(s, r) ← on_storage (version_get debug_bytes (w_metas s.1) v ikey) s;
          match r with
          | Ok (Some (val, st)) =>
              '(M, v, compact) ← update_stats (w_metas s.1) st v;
              s ← set_current_version M v s;
              s ← (if (compact : bool) then '(s, _) ← maybe_do_compaction fuel mfuel s; Ret s else Ret s);
              Ret (s, Ok (Some val))
          | _ => Ret (s, Ok None)
          end
      end
  end.

Definition get_at (fuel mfuel : nat) (snapshot : InnerSnapshot) (key : bytes) s : exec (state * Result (option bytes)) :=
  get_internal fuel mfuel (sequence snapshot) key s.

Definition db_get (fuel mfuel : nat) (key : bytes) s : exec (state * option bytes) :=
  '(s, r) ← get_internal fuel mfuel (vs_last_seq (db_vset s.2)) key s;
  Ret (s, match r with Ok v => v | Err _ => None end).

(** ** Iterators *)

(** What [DB::merge_iterators] merges. *)
Inductive db_child := MemChild (it : MemtableIterator (G := G)) | FileChild (it : version_iterator).

(** The iterators share the world and the version set. *)
Abbreviation shared := (World * VersionSet)%type (only parsing).

#[export] Instance db_child_iterator : LdbIterator (shared * db_child) := {
  it_advance x :=
    match x.2 with
    | MemChild it => '(it, r) ← it_advance it; Ret ((x.1, MemChild it), r)
    | FileChild it => '((w, it), r) ← vit_advance it x.1.1; Ret (((w, x.1.2), FileChild it), r)
    end;
  it_current x := match x.2 with MemChild it => it_current it | FileChild it => vit_current it end;
  it_seek key x :=
    match x.2 with
    | MemChild it => it ← it_seek key it; Ret (x.1, MemChild it)
    | FileChild it => '(w, it) ← vit_seek key it x.1.1; Ret ((w, x.1.2), FileChild it)
    end;
  it_reset x :=
    match x.2 with
    | MemChild it => it ← it_reset it; Ret (x.1, MemChild it)
    | FileChild it => it ← vit_reset it; Ret (x.1, FileChild it)
    end;
  it_valid x := match x.2 with MemChild it => it_valid it | FileChild it => Ret (vit_valid it) end;
  it_prev x :=
    match x.2 with
    | MemChild it => '(it, r) ← it_prev it; Ret ((x.1, MemChild it), r)
    | FileChild it => '((w, it), r) ← vit_prev it x.1.1; Ret (((w, x.1.2), FileChild it), r)
    end;
}.

(** The read samples of a database iterator go to the current version. *)
#[export] Instance db_samples : ReadSampled (shared * MergingIter db_child) := λ key x,
  let '((w, vs), m) := x in
  l ← unwrap (vs_current vs);
  v ← unwrap (w_versions w !! l);
  '(M, v, _) ← Version.version_record_read_sample (w_metas w) key v;
  Ret (({| w_storage := w_storage w; w_metas := M; w_fresh := w_fresh w; w_versions := <[l := v]> (w_versions w) |}, vs), m).

Definition merge_iterators s : exec (state * Result (MergingIter db_child)) :=
  let iters := if 0 <? memtable_len (db_mem s.2) then [MemChild (memtable_iter (db_mem s.2))] else [] in
  let iters := match db_imm s.2 with
               | Some imm => if 0 <? memtable_len imm then iters ++ [MemChild (memtable_iter imm)] else iters
               | None => iters
               end in
  v ← db_current s;
  let? s, more := on_storage (new_iters debug_bytes (w_metas s.1) v) s in
  Ret (s, Ok (MergingIter_new (InternalKeyCmp (o_cmp (db_opt s.2))) (iters ++ (FileChild <$> more)))).

(** [DB::get_snapshot] *)
Definition get_snapshot s : exec (state * InnerSnapshot) :=
  '(sl, ss) ← new_snapshot (vs_last_seq (db_vset s.2)) (db_snaps s.2);
  Ret ((s.1, set_snaps sl s.2), ss).

(** The database iterator has the shared state as long as it runs; [g] is the generator of the
    sampling periods. *)
Definition new_iter_at `{RandomIsize GI} (g : GI) (ss : InnerSnapshot) s : exec (state * Result (DBIterator (shared * MergingIter db_child) GI)) :=
  let? s, m := merge_iterators s in
  Ret (s, Ok (DBIterator_new (o_cmp (db_opt s.2)) g ((s.1, db_vset s.2), m) (sequence ss))).

Definition new_iter `{RandomIsize GI} (g : GI) s : exec (state * Result (DBIterator (shared * MergingIter db_child) GI)) :=
  '(s, ss) ← get_snapshot s;
  new_iter_at g ss s.

(** [DB::record_read_sample] *)
Definition db_record_read_sample (fuel mfuel : nat) (k : bytes) s : exec state :=
  v ← db_current s;
  '(M, v, compact) ← Version.version_record_read_sample (w_metas s.1) k v;
  s ← set_current_version M v s;
  if (compact : bool) then '(s, _) ← maybe_do_compaction fuel mfuel s; Ret s else Ret s.

(** ** Opening a database *)

(** The information log; messages are left out. *)
Definition open_info_log (db : string) (e : E) : exec (E * option (Logger w_file)) :=
  let logfilename := path_join db "LOG" in
  '(e, _) ← env_mkdir db e;
  ex ← env_exists logfilename e;
  e ← match ex with Ok true => '(e, _) ← env_rename logfilename (path_join db "LOG.old") e; Ret e | _ => Ret e end;
  '(e, f) ← env_open_writable_file logfilename e;
  Ret (e, match f with Ok f => Some {| lg_dst := f |} | Err _ => None end).

(** [has_log]: whether the options bring a logger; [blocks] is their block cache. *)
Definition DB_new (name : string) (opt : Options) (has_log : bool) (blocks : Cache Block) (e : E) : exec state :=
  e ← (if has_log then Ret e else '(e, _) ← open_info_log name e; Ret e);
  let path := default name (canonicalize name) in
  n ← usub (max_open_files opt) 10;
  tc ← TableCache_new name opt n;
  let w := {| w_storage := {| st_env := e; st_blocks := blocks; st_tables := tc |}; w_metas := λ _, FileMetaData_default; w_fresh := 0; w_versions := [] |} in
  let (w, vs) := VersionSet_new name opt w in
  Ret (w, {| db_name := name; db_path := path; db_lock := None; db_opt := opt; db_mem := MemTable_new (o_cmp opt); db_imm := None; db_log := None;
             db_log_num := None; db_vset := vs; db_snaps := SnapshotList_new; db_cstats := replicate (Z.to_nat NUM_LEVELS) CompactionStats_default |}).

Definition initialize_db s : exec (state * Result unit) :=
  let ve := set_last_seq 0 (set_next_file 2 (set_log_num 0 (set_comparator_name (cmp_id (o_cmp (db_opt s.2))) VersionEdit_new))) in
  let? s, f := on_env (env_open_writable_file (manifest_file_name (db_path s.2) 1)) s in
  '(lw, r) ← add_record (encode_with (order (deleted ve)) ve) (log_in (LogWriter_new f) (w_env s.1));
  let (e, lw) := log_out lw in
  let s := (set_env e s.1, s.2) in
  match r with
  | Err x => Ret (s, Err x)
  | Ok _ =>
      '(lw, r) ← log_flush (log_in lw (w_env s.1));
      let (e, lw) := log_out lw in
      let s := (set_env e s.1, s.2) in
      match r with
      | Err x => Ret (s, Err x)
      | Ok _ => on_env (set_current_file (db_path s.2) 1) s
      end
  end.

(** What the loop of [recover_log_file] has so far. *)
Record Replay := mkReplay { rp_mem : MemTable G; rp_edit : VersionEdit; rp_compactions : Z; rp_max_seq : Z; rp_save : bool }.

(** One record of a log. *)
Definition replay_record (mfuel : nat) (scratch : bytes) (r : Replay) s : exec (state * Result Replay) :=
  let batch := set_contents scratch WriteBatch_new in
  sq ← batch_sequence batch;
  mem ← insert_into_memtable batch sq (rp_mem r);
  n ← batch_count batch;
  l ← uadd 64 sq n;
  last_seq ← usub l 1;
  let max_seq := if rp_max_seq r <? last_seq then last_seq else rp_max_seq r in
  if write_buffer_size (db_opt s.2) <? approx_mem_usage mem then
    let? s, ve := write_l0_table mfuel mem (rp_edit r) None s in
    Ret (s, Ok {| rp_mem := MemTable_new (o_cmp (db_opt s.2)); rp_edit := ve; rp_compactions := rp_compactions r + 1; rp_max_seq := max_seq; rp_save := true |})
  else Ret (s, Ok {| rp_mem := mem; rp_edit := rp_edit r; rp_compactions := rp_compactions r; rp_max_seq := max_seq; rp_save := rp_save r |}).

(** [fuel] bounds the records, [rfuel] their fragments, [mfuel] the entries of a memtable. *)
Fixpoint replay_loop (fuel rfuel mfuel : nat) (lr : LogReader seq_file) (r : Replay) s : exec (state * Result Replay) :=
  match fuel with
  | O => NoFuel
  | S fuel =>
      '(lr, scratch, res) ← log_read rfuel (reader_in lr (w_env s.1));
      let (e, lr) := reader_out lr in
      let s := (set_env e s.1, s.2) in
      match res with
      | Err _ => Ret (s, Ok r)
      | Ok len =>
          if len =? 0 then Ret (s, Ok r)
          else if len <? 12 then replay_loop fuel rfuel mfuel lr r s
          else let? s, r := replay_record mfuel scratch r s in replay_loop fuel rfuel mfuel lr r s
      end
  end.

Definition recover_log_file (fuel rfuel mfuel : nat) (lognum : Z) (is_last : bool) (ve : VersionEdit) s : exec (state * Result (bool * Z * VersionEdit)) :=
  let filename := log_file_name (db_path s.2) lognum in
  let? s, logfile := on_env (env_open_sequential_file filename) s in
  let? s, r := replay_loop fuel rfuel mfuel (LogReader_new logfile true)
                 {| rp_mem := MemTable_new (o_cmp (db_opt s.2)); rp_edit := ve; rp_compactions := 0; rp_max_seq := 0; rp_save := false |} s in
  if reuse_logs (db_opt s.2) && is_last && (rp_compactions r =? 0) then
    _ ← massert (bool_decide (db_log s.2 = None));
    sz ← env_size_of filename (w_env s.1);
    match sz with
    | Err x => Ret (s, Err x)
    | Ok oldsize =>
        let? s, f := on_env (env_open_appendable_file filename) s in
        let db := set_mem (rp_mem r) (set_db_log_num (Some lognum) (set_log (Some (LogWriter_new_with_off (BufWriter_new f) oldsize)) s.2)) in
        Ret ((s.1, db), Ok (rp_save r, rp_max_seq r, rp_edit r))
    end
  else if 0 <? memtable_len (rp_mem r) then
    let? s, ve := write_l0_table mfuel (rp_mem r) (rp_edit r) None s in
    Ret (s, Ok (true, rp_max_seq r, ve))
  else Ret (s, Ok (rp_save r, rp_max_seq r, rp_edit r)).

(** The files of the directory: the live ones that are missing, and the logs to replay. *)
Fixpoint scan_names (vs : VersionSet) (names : list string) (expected : gset Z) (logs : list Z) : Result (gset Z * list Z) :=
  match names with
  | [] => Ok (expected, logs)
  | file :: names =>
      match parse_file_name file with
      | Err x => Err (annotate x ("While parsing " +:+ debug_path file))
      | Ok (num, typ) =>
          let logs := if bool_decide (typ = Types.Log) && ((log_num vs <=? num) || (num =? prev_log_num vs)) then logs ++ [num] else logs in
          scan_names vs names (expected ∖ {[num]}) logs
      end
  end.

(** The logs in the order of their numbers. *)
Fixpoint replay_logs (fuel rfuel mfuel : nat) (logs : list Z) (acc : bool * Z * VersionEdit) s : exec (state * Result (bool * Z * VersionEdit)) :=
  match logs with
  | [] => Ret (s, Ok acc)
  | n :: logs =>
      let '(save, max_seq, ve) := acc in
      let? s, (save', max_seq', ve) := recover_log_file fuel rfuel mfuel n (bool_decide (logs = [])) ve s in
      let acc := (if (save' : bool) then true else save, if max_seq <? max_seq' then max_seq' else max_seq, ve) in
      vs ← mark_file_number_used n (db_vset s.2);
      replay_logs fuel rfuel mfuel logs acc (s.1, set_vset vs s.2)
  end.

(** [recover] from the version set on: the manifest, the files of the directory, the logs. *)
Definition recover_files (fuel rfuel mfuel : nat) (ve : VersionEdit) s : exec (state * Result (bool * VersionEdit)) :=
  let? s, save := on_vset (vs_recover order fuel rfuel) s in
  names ← env_children (db_path s.2) (w_env s.1);
  match names with
  | Err x => Ret (s, Err x)
  | Ok filenames =>
      live ← live_files s.1 (db_vset s.2);
      match scan_names (db_vset s.2) filenames live [] with
      | Err x => Ret (s, Err x)
      | Ok (expected, logs) =>
          if decide (expected = ∅) then
            let? s, (save, max_seq, ve) := replay_logs fuel rfuel mfuel (merge_sort Z.le logs) (save, 0, ve) s in
            let vs := db_vset s.2 in
            let vs := if vs_last_seq vs <? max_seq then set_vs_last_seq max_seq vs else vs in
            Ret ((s.1, set_vset vs s.2), Ok (save, ve))
          else Ret (s, err Corruption "missing live files (see log)")
      end
  end.

Definition db_recover (fuel rfuel mfuel : nat) (ve : VersionEdit) s : exec (state * Result (bool * VersionEdit)) :=
  ex ← (if error_if_exists (db_opt s.2) then r ← env_exists (db_path s.2) (w_env s.1); Ret (match r with Ok b => b | Err _ => false end) else Ret false);
  if (ex : bool) then Ret (s, err AlreadyExists "database already exists")
  else
    '(s, _) ← on_env (env_mkdir (db_path s.2)) s;
    let? s, _ := acquire_lock s in
    '(s, cur) ← on_env (read_current_file fuel (db_path s.2)) s;
    let? s, _ := (match cur with
                  | Ok _ => Ret (s, Ok ())
                  | Err x =>
                      if bool_decide (code x = NotFound) && create_if_missing (db_opt s.2) then initialize_db s
                      else Ret (s, err InvalidArgument "database does not exist and create_if_missing is false")
                  end) in
    recover_files fuel rfuel mfuel ve s.

(** The log that [open] makes when no log is reused. *)
Definition open_log (ve : VersionEdit) s : exec (state * Result VersionEdit) :=
  match db_log s.2 with
  | Some _ => Ret (s, Ok ve)
  | None =>
      '(s, lognum) ← db_new_file_number s;
      let? s, f := on_env (env_open_writable_file (log_file_name (db_name s.2) lognum)) s in
      Ret ((s.1, set_db_log_num (Some lognum) (set_log (Some (LogWriter_new (BufWriter_new f))) s.2)), Ok (set_log_num lognum ve))
  end.

(** A database that is not opened is dropped. *)
Definition DB_open (fuel rfuel mfuel : nat) (name : string) (opt : Options) (has_log : bool) (blocks : Cache Block) (e : E) : exec (World * Result dbase) :=
  s ← DB_new name opt has_log blocks e;
  '(s, r) ←
    (let? s, (save, ve) := db_recover fuel rfuel mfuel VersionEdit_new s in
     let? s, ve := open_log ve s in
     let? s, _ := (if (save : bool) then on_vset (log_and_apply order (set_log_num (default 0 (db_log_num s.2)) ve)) s else Ret (s, Ok ())) in
     let? s, _ := delete_obsolete_files s in
     maybe_do_compaction mfuel mfuel s);
  match r with
  | Ok _ => Ret (s.1, Ok s.2)
  | Err x => w ← db_drop s; Ret (w, Err x)
  end.

End db_impl.
