(* ===== verification/Wal.v ===== *)
(** * Wal: what a database writes can be read, and its log brings it back

    The write path of [src/db_impl.rs] against the interface of environments: a database is
    described by the operations of its batches ([wal_inv]).  [DB::write] extends them,
    [DB::get] and [DB::get_at] read them, and [DB::recover_log_file] rebuilds them from the
    log file. *)

From S2P Require Import Prelude Encoding Error Io Env BufWriter MemEnv Types Cmp KeyTypes Log Iterator SkipMap MemTable WriteBatch Filter FilterBlock Options BlockBuilder Block Cache TableBuilder Table TableCache Version VersionEdit Snapshot MergingIter VersionSet Manifest Recover DbImpl.

(** ** Histories of operations *)

(** What the operations make of a key: [None] when they do not touch it. *)
Definition last_op (k : bytes) (os : list op) : option (option bytes) :=
  foldl (λ r (o : op), if decide (o.1 = k) then Some o.2 else r) None os.

Lemma last_op_snoc k os o : last_op k (os ++ [o]) = if decide (o.1 = k) then Some o.2 else last_op k os.
Proof. unfold last_op. by rewrite foldl_app. Qed.

Lemma last_op_app k os os' : last_op k (os ++ os') = match last_op k os' with Some x => Some x | None => last_op k os end.
Proof.
  induction os' as [|o os' IH] using rev_ind; [by rewrite app_nil_r|]. rewrite app_assoc, !last_op_snoc. by case_decide.
Qed.

(** The entry of an operation with the sequence number [s]. *)
Definition mentry_of (s : Z) (o : op) : mentry :=
  match o.2 with Some v => mkMEntry o.1 s TypeValue v | None => mkMEntry o.1 s TypeDeletion [] end.

Lemma mentry_of_key s o : m_key (mentry_of s o) = o.1.
Proof. by destruct o as [k [v|]]. Qed.
Lemma mentry_of_seq s o : m_seq (mentry_of s o) = s.
Proof. by destruct o as [k [v|]]. Qed.

Lemma mentries_cons s o os : mentries s (o :: os) = mentry_of s o :: mentries (s + 1) os.
Proof. by destruct o as [k [v|]]. Qed.

Lemma mentries_app s A B : mentries s (A ++ B) = mentries s A ++ mentries (s + zlen A) B.
Proof.
  revert s. induction A as [|o A IH]; intros s; [simpl; by rewrite Z.add_0_r|]. cbn [app]. rewrite !mentries_cons, IH.
  cbn [app]. do 3 f_equal. simpl. lia.
Qed.

Lemma lookup_mentries s os i : mentries s os !! i = (λ o, mentry_of (s + Z.of_nat i) o) <$> os !! i.
Proof.
  revert s i. induction os as [|o os IH]; intros s i; [done|]. rewrite mentries_cons. destruct i as [|i]; cbn; [by rewrite Z.add_0_r|].
  rewrite IH. destruct (os !! i); [|done]. cbn. do 2 f_equal. lia.
Qed.

Lemma elem_mentries s os e : e ∈ mentries s os ↔ ∃ i o, os !! i = Some o ∧ e = mentry_of (s + Z.of_nat i) o.
Proof.
  rewrite list_elem_of_lookup. setoid_rewrite lookup_mentries. setoid_rewrite fmap_Some. naive_solver.
Qed.

Lemma mentries_nodup s os : NoDup ((λ e, (m_key e, m_seq e)) <$> mentries s os).
Proof.
  apply NoDup_alt. intros i j x. rewrite !list_lookup_fmap, !lookup_mentries. destruct (os !! i) as [a|], (os !! j) as [b|]; try done.
  cbn. rewrite !mentry_of_seq, !mentry_of_key. intros [= <-] [= ? ?]. lia.
Qed.

Lemma last_op_Some k os x : last_op k os = Some x →
  ∃ i, os !! i = Some (k, x) ∧ ∀ j o, os !! j = Some o → (i < j)%nat → o.1 ≠ k.
Proof.
  induction os as [|o os IH] using rev_ind; [done|]. rewrite last_op_snoc. destruct (decide (o.1 = k)) as [<-|Hk].
  - intros [= <-]. exists (length os). rewrite lookup_app_r, Nat.sub_diag by lia. destruct o as [k v]. split; [done|].
    intros j o' Hj Hl. apply lookup_lt_Some in Hj. rewrite length_app in Hj. simpl in Hj. lia.
  - intros (i & Hi & Hafter)%IH. exists i. split; [by apply lookup_app_l_Some|]. intros j o' Hj Hl.
    apply lookup_app_Some in Hj as [Hj|[Hlen Hj]]; [by eapply Hafter|]. apply list_lookup_singleton_Some in Hj as [_ <-]. done.
Qed.

Lemma last_op_None k os o : last_op k os = None → o ∈ os → o.1 ≠ k.
Proof.
  induction os as [|o' os IH] using rev_ind; [by intros _ ?%not_elem_of_nil|]. rewrite last_op_snoc. destruct (decide (o'.1 = k)); [done|].
  intros H [Ho|Ho%list_elem_of_singleton]%elem_of_app; [by apply IH|congruence].
Qed.

(** A lookup at the sequence number of the [n]-th operation sees the first [n] operations. *)
Lemma get_spec_ops k base n H r : (n ≤ length H)%nat → get_spec k (base + Z.of_nat n) (mentries (base + 1) H) r →
  r = match last_op k (take n H) with Some (Some v) => (Some v, false) | Some None => (None, true) | None => (None, false) end.
Proof.
  intros Hn Hg. assert (∀ e, e ∈ mentries (base + 1) H → visible k (base + Z.of_nat n) e →
    ∃ i o, take n H !! i = Some o ∧ o.1 = k ∧ e = mentry_of (base + 1 + Z.of_nat i) o) as Hvis.
  { intros e (i & o & Hi & ->)%elem_mentries [Hk Hs]. rewrite mentry_of_key in Hk. rewrite mentry_of_seq in Hs. exists i, o. rewrite lookup_take_lt by lia. done. }
  destruct (last_op k (take n H)) as [x|] eqn:El.
  - destruct (last_op_Some _ _ _ El) as (i & Hi & Hafter). pose proof Hi as Hi'. apply lookup_take_Some in Hi' as [Hi' Hin].
    set (e := mentry_of (base + 1 + Z.of_nat i) (k, x)).
    assert (e ∈ mentries (base + 1) H) as He by (apply elem_mentries; by exists i, (k, x)).
    assert (visible k (base + Z.of_nat n) e) as Hv by (split; [apply mentry_of_key|unfold e; rewrite mentry_of_seq; lia]).
    destruct Hg as [[Hno _]|(e' & He' & Hv' & Hmax & ->)]; [by destruct (Hno e)|]. destruct (Hvis e' He' Hv') as (j & o & Hj & Hk & ->).
    specialize (Hmax e He Hv). unfold e in Hmax. rewrite !mentry_of_seq in Hmax.
    destruct (decide (i = j)) as [->|Hne]; [|by exfalso; eapply Hafter; [exact Hj|lia|]]. rewrite Hi in Hj. injection Hj as <-. by destruct x.
  - destruct Hg as [[_ ->]|(e' & He' & Hv' & _)]; [done|]. destruct (Hvis e' He' Hv') as (j & o & Hj & Hk & _).
    apply list_elem_of_lookup_2 in Hj. by destruct (last_op_None _ _ _ El Hj).
Qed.

(** ** Sizes of memtables *)

Section sizes.
Context {IE : IntegerEncoding} `{RG : Rng G}.
Implicit Types (mt : MemTable G).

Lemma memtable_add_grows s t k v mt mt' : memtable_add s t k v mt = Ret mt' →
  approx_mem_usage mt ≤ approx_mem_usage mt' ∧ memtable_len mt' = memtable_len mt + 1.
Proof.
  unfold memtable_add, skipmap_insert. intros H. exec_inv H. destruct (random_height (rand (mt_map mt))) as [h g].
  repeat match goal with x : _ * _ |- _ => destruct x | H : (_ ≫= _) = Ret _ |- _ => exec_inv H end. simplify_eq. unfold approx_mem_usage, memtable_len, size_of_Node, size_of_link. cbn. lia.
Qed.

Lemma memtable_adds_app A B mt : memtable_adds (A ++ B) mt = (mt ← memtable_adds A mt; memtable_adds B mt).
Proof.
  unfold memtable_adds. revert mt. induction A as [|e A IH]; intros mt; [done|]. cbn [app mfoldl]. destruct (memtable_add _ _ _ _ mt); [|done|done]. rewrite !bind_Ret. apply IH.
Qed.

Lemma memtable_adds_grows A mt mt' : memtable_adds A mt = Ret mt' →
  approx_mem_usage mt ≤ approx_mem_usage mt' ∧ memtable_len mt' = memtable_len mt + zlen A.
Proof.
  unfold memtable_adds. revert mt. induction A as [|e A IH]; intros mt H; cbn [mfoldl] in H; [simplify_eq; simpl; lia|].
  exec_inv H. apply memtable_add_grows in Hm as [? ?]. apply IH in Hk. simpl. lia.
Qed.

End sizes.

(** ** The log of a database *)

(** A log record with the operations [os] from the sequence number [s] on. *)
Definition wal_record `{IE : IntegerEncoding} (s : Z) (os : list op) (rec : bytes) : Prop :=
  batch_rep {| entries := rec |} (encode_fixed 8 s) os ∧ zlen rec < 2 ^ 64.

(** The records of batches with consecutive sequence numbers. *)
Inductive wal_records `{IE : IntegerEncoding} : Z → list bytes → list (list op) → Prop :=
  | wal_nil s : wal_records s [] []
  | wal_cons s rec recs os Bs : wal_record s os rec → wal_records (s + zlen os) recs Bs → wal_records s (rec :: recs) (os :: Bs).

Lemma wal_records_snoc `{IE : IntegerEncoding} s recs Bs rec os :
  wal_records s recs Bs → wal_record (s + zlen (concat Bs)) os rec → wal_records s (recs ++ [rec]) (Bs ++ [os]).
Proof.
  induction 1 as [s|s rec0 recs os0 Bs H0 H IH]; intros Hr.
  - rewrite Z.add_0_r in Hr. constructor; [done|constructor].
  - constructor; [done|]. apply IH. cbn [concat] in Hr. rewrite length_app in Hr. by replace (s + zlen os0 + zlen (concat Bs)) with (s + Z.of_nat (length os0 + length (concat Bs))) by lia.
Qed.

Lemma wal_record_long `{IE : IntegerEncoding} s os rec : wal_record s os rec → 12 ≤ zlen rec.
Proof. intros [(cnt & E & H1 & H2 & _) _]. cbn in E. rewrite E, !length_app. lia. Qed.

Section writer.
Context `{IEL : IntegerEncodingLaws} `{CRL : Crc32Laws} `{EL : EnvLaws E} `{RG : Rng G}.
Implicit Types (e : E) (p : string) (s : World E ra_file * DB G w_file).

Definition buf_writer e p : ReliableWrite (E * BufWriter w_file) := BufWriter_reliable (RW := env_writer e p).

(** The writer [lw] has put the records [recs] into the file at [p] or still has them in its
    buffer. *)
Definition wal_writer e p (lw : LogWriter (BufWriter w_file)) (recs : list bytes) : Prop :=
  log_writer (RW := buf_writer e p) (log_in lw e) recs.

Lemma wal_rebase e0 p (lw : LogWriter (E * BufWriter w_file)) recs : log_writer (RW := buf_writer e0 p) lw recs →
  let (e, lw') := log_out lw in
  wal_writer e p lw' recs ∧ kept [p] e0 e ∧ ∃ b, contents e = <[p := b]> (contents e0) ∧ (bw_buf (lw_dst lw') = [] → is_log b recs).
Proof.
  intros [(I1 & I2 & I3) I4 I5]. destruct lw as [[e [f buf]] off bs]. cbn [log_out lw_dst fst snd]. cbn in I1, I2, I3, I4, I5. destruct I3 as (K & A & b & C).
  assert (contents e !! p = Some b) as Hb by (by rewrite C, lookup_insert_eq). split_and!; [|done|].
  - split; [split_and!; cbn; [done|lia..|]|done|exact I5]. split_and!; [apply kept_refl, K|done|]. exists b. symmetry. by apply insert_id.
  - exists b. split; [done|]. cbn. intros ->. destruct I5 as (o & He & _). exists o. rewrite Hb, app_nil_r in He. exact He.
Qed.

Lemma wal_add p s lw recs r : db_log s.2 = Some lw → wal_writer (w_env s.1) p lw recs → r ≠ [] →
  ∃ e' lw' m, on_log (add_record r) s = Ret ((set_env e' s.1, set_log (Some lw') s.2), Ok m) ∧ wal_writer e' p lw' (recs ++ [r])
    ∧ kept [p] (w_env s.1) e' ∧ ∃ b, contents e' = <[p := b]> (contents (w_env s.1)).
Proof.
  destruct s as [w db]. cbn [fst snd]. intros El L Hr. unfold on_log. rewrite El. cbn [unwrap]. rewrite bind_Ret.
  destruct (log_writer_add (RW := buf_writer (w_env w) p) _ _ r L Hr) as (lw1 & m & -> & L1). rewrite bind_Ret.
  pose proof (wal_rebase _ _ _ _ L1) as Hb. destruct (log_out lw1) as [e' lw'] eqn:Eo. destruct Hb as (L2 & K & b & C & _).
  exists e', lw', m. split_and!; [done..|by exists b].
Qed.

(** After a flush the records are in the file. *)
Lemma wal_flush p s lw recs : db_log s.2 = Some lw → wal_writer (w_env s.1) p lw recs →
  ∃ e' lw' b, on_log log_flush s = Ret ((set_env e' s.1, set_log (Some lw') s.2), Ok ()) ∧ wal_writer e' p lw' recs
    ∧ kept [p] (w_env s.1) e' ∧ contents e' = <[p := b]> (contents (w_env s.1)) ∧ is_log b recs.
Proof.
  destruct s as [w db]. cbn [fst snd]. intros El L. unfold on_log. rewrite El. cbn [unwrap]. rewrite bind_Ret.
  destruct (log_writer_flush (RW := buf_writer (w_env w) p) _ _ L) as (lw1 & E1 & L1). rewrite E1, bind_Ret.
  pose proof (wal_rebase _ _ _ _ L1) as Hb. destruct (log_out lw1) as [e' lw'] eqn:Eo. destruct Hb as (L2 & K & b & C & Hl).
  exists e', lw', b. split_and!; [done..|]. apply Hl.
  destruct (buf_flush_ok (RW := env_writer (w_env w) p) (lw_dst (log_in lw (w_env w)))) as (e2 & w2 & E2 & _); [apply L|].
  unfold log_flush in E1. rewrite E2, bind_Ret in E1. injection E1 as <-. cbn in Eo. by injection Eo as <- <-.
Qed.

(** ** The invariant *)

Context (debug_bytes : bytes → string) (order : gset (Z * Z) → list (Z * Z)) (micros : E → exec (E * Z)) {FW : FixedIntWriter (E * BufWriter w_file)}.
Context {u : Cmp} {UO : OrderedCmp u} {UE : ExactCmp u}.

Definition op_ok (o : op) : Prop := key_ok u o.1 ∧ zlen o.1 + zlen (default [] o.2) < 2 ^ 62.

Lemma mentries_ok (q : Z) os : 0 ≤ q → q + zlen os ≤ 2 ^ 56 → Forall op_ok os → Forall (mentry_ok (u := u)) (mentries q os).
Proof.
  intros H0 Hs Ho. apply Forall_forall. intros e (i & o & Hi & ->)%elem_mentries. rewrite Forall_lookup in Ho. destruct (Ho _ _ Hi) as [Hk Hl].
  apply lookup_lt_Some in Hi. split_and!; [rewrite mentry_of_seq; unfold is_u; lia|by rewrite mentry_of_key|].
  assert (is_u 64 (zlen o.1 + 8) ∧ is_u 64 (zlen (default [] o.2))) as [Hk8 Hv8] by (unfold is_u; lia).
  pose proof (length_encode_var _ Hk8). pose proof (required_space_bound _ Hk8). pose proof (length_encode_var _ Hv8). pose proof (required_space_bound _ Hv8).
  destruct o as [k [v|]]; cbn in *; unfold mkey; rewrite !length_app, length_ikey; simpl; lia.
Qed.

(** The database [s] holds the batches [Bs] on top of the sequence number [base]: they are in
    its memtable and its log, in this order. *)
Record wal_inv s (base : Z) (Bs : list (list op)) : Prop := {
  wi_env : env_ok (w_env s.1);
  wi_cmp : o_cmp (db_opt s.2) = u;
  wi_base : 0 ≤ base;
  wi_bound : base + zlen (concat Bs) < 2 ^ 56;
  wi_seq : vs_last_seq (db_vset s.2) = base + zlen (concat Bs);
  wi_ops : Forall op_ok (concat Bs);
  wi_mem : memtable_adds (mentries (base + 1) (concat Bs)) (MemTable_new u) = Ret (db_mem s.2);
  wi_log : ∃ n lw recs, db_log_num s.2 = Some n ∧ db_log s.2 = Some lw ∧ wal_writer (w_env s.1) (log_file_name (db_path s.2) n) lw recs
    ∧ wal_records (base + 1) recs Bs;
}.

(** The entries of the batches in the order of the memtable. *)
Definition sorted_ops (base : Z) (Bs : list (list op)) : list mentry := foldl (λ L x, minsert (u := u) x L) [] (mentries (base + 1) (concat Bs)).

Lemma sorted_ops_perm base Bs : sorted_ops base Bs ≡ₚ mentries (base + 1) (concat Bs).
Proof. unfold sorted_ops. by rewrite minserts_perm, app_nil_r. Qed.

Lemma wal_sorted s base Bs : wal_inv s base Bs → mt_holds (u := u) (db_mem s.2) (sorted_ops base Bs).
Proof.
  intros [_ _ H0 Hb _ Ho Hm _]. destruct (memtable_adds_ok (u := u) (mentries (base + 1) (concat Bs)) _ [] memtable_new_holds) as (mt & E' & Hmt).
  - apply mentries_ok; [lia..|done].
  - rewrite app_nil_r. apply mentries_nodup.
  - rewrite Hm in E'. by injection E' as <-.
Qed.

Lemma wal_holds s base Bs : wal_inv s base Bs → ∃ L, mt_holds (u := u) (db_mem s.2) L ∧ L ≡ₚ mentries (base + 1) (concat Bs).
Proof. intros W. exists (sorted_ops base Bs). split; [by apply wal_sorted|apply sorted_ops_perm]. Qed.

(** ** Writing *)

(** The memtable takes another batch. *)
Definition room s : Prop := approx_mem_usage (db_mem s.2) < write_buffer_size (db_opt s.2) ∨ memtable_len (db_mem s.2) = 0.

Lemma no_room_needed fuel mfuel s : room s → make_room_for_write debug_bytes order micros fuel mfuel false s = Ret (s, Ok ()).
Proof.
  intros Hr. unfold make_room_for_write. cbn [negb andb]. destruct (Z.ltb_spec (approx_mem_usage (db_mem s.2)) (write_buffer_size (db_opt s.2))) as [H|H]; [done|].
  destruct Hr as [Hr|Hr]; [lia|]. rewrite Hr. done.
Qed.

(** The state after a write: only the environment, the memtable, the log and the last sequence
    number are new. *)
Definition after_write e' mt lw q s : World E ra_file * DB G w_file :=
  (set_env e' s.1, set_vset (set_vs_last_seq q (db_vset s.2)) (set_log (Some lw) (set_mem mt s.2))).

(** The log file of the database holds the batches. *)
Definition wal_durable s (base : Z) (Bs : list (list op)) : Prop :=
  ∃ n b recs, db_log_num s.2 = Some n ∧ contents (w_env s.1) !! log_file_name (db_path s.2) n = Some b ∧ is_log b recs ∧ wal_records (base + 1) recs Bs.

Lemma sync_ok (sync : bool) p s lw recs : db_log s.2 = Some lw → wal_writer (w_env s.1) p lw recs →
  ∃ e' lw', (if sync then on_log log_flush s else Ret (s, Ok ())) = Ret ((set_env e' s.1, set_log (Some lw') s.2), Ok ()) ∧ wal_writer e' p lw' recs
    ∧ kept [p] (w_env s.1) e' ∧ ∃ b, contents e' = <[p := b]> (contents (w_env s.1)) ∧ (sync = true → is_log b recs).
Proof.
  intros El L. destruct sync.
  - destruct (wal_flush p s lw recs El L) as (e' & lw' & b & E1 & L1 & K & C & Hb). exists e', lw'. split_and!; [done..|]. by exists b.
  - exists (w_env s.1), lw. pose proof (lgw_inv _ _ L) as (_ & _ & (K & _ & b & C)). cbn in K, C. split_and!; [|done|done|by exists b].
    destruct s as [[[] ? ? ?] []]. cbn in El. by subst.
Qed.

Lemma write_mem s base Bs b os : wal_inv s base Bs → batch_of os = Ret b → zlen os < 2 ^ 32 → 12 + zlen (ops_bytes os) < 2 ^ 64 →
  Forall op_ok os → base + zlen (concat Bs) + zlen os < 2 ^ 56 →
  ∃ mt rec, batch_count b = Ret (zlen os) ∧ insert_into_memtable b (base + zlen (concat Bs) + 1) (db_mem s.2) = Ret mt
    ∧ memtable_adds (mentries (base + 1) (concat (Bs ++ [os]))) (MemTable_new u) = Ret mt
    ∧ batch_encode (base + zlen (concat Bs) + 1) b = Ret rec ∧ wal_record (base + zlen (concat Bs) + 1) os rec.
Proof.
  intros [_ _ H0 Hb _ Ho Hm _] Eb Hl Hz Hos Hs. destruct (batch_of_rep os _ _ _ batch_new_rep Hl) as (b' & Eb' & Rb). unfold batch_of in Eb.
  rewrite Eb in Eb'. injection Eb' as <-. cbn [app] in Rb.
  destruct (batch_encode_rep b _ os (base + zlen (concat Bs) + 1) Rb) as (rec & Erec & Hlen & Rrec); [unfold is_u; lia|].
  assert (zlen (entries b) < 2 ^ 64) as Hbl by (destruct Rb as (cnt & -> & Hh & Hc & _); rewrite !length_app; lia).
  assert (memtable_adds (mentries (base + 1) (concat (Bs ++ [os]))) (MemTable_new u) = memtable_adds (mentries (base + zlen (concat Bs) + 1) os) (db_mem s.2)) as Eadds.
  { rewrite concat_app. cbn [concat]. rewrite app_nil_r, mentries_app, memtable_adds_app, Hm, bind_Ret. do 2 f_equal. lia. }
  destruct (memtable_adds_ok (u := u) (mentries (base + 1) (concat (Bs ++ [os]))) _ [] memtable_new_holds) as (mt & Emt & _).
  - rewrite concat_app. cbn [concat]. rewrite app_nil_r. apply mentries_ok; [lia|rewrite length_app; lia|by apply Forall_app].
  - rewrite app_nil_r. apply mentries_nodup.
  - exists mt, rec. split_and!; [by eapply batch_count_rep| |done|done|]; [|split; [exact Rrec|lia]].
    rewrite (insert_into_memtable_ops b (replicate 8 0) os) by (done || lia). by rewrite <- Eadds.
Qed.

Lemma db_write_ok fuel mfuel s base Bs b os sync : wal_inv s base Bs → room s → batch_of os = Ret b →
  zlen os < 2 ^ 32 → 12 + zlen (ops_bytes os) < 2 ^ 64 → Forall op_ok os → base + zlen (concat Bs) + zlen os < 2 ^ 56 →
  ∃ e' mt lw, let s' := after_write e' mt lw (base + zlen (concat Bs) + zlen os) s in
    db_write debug_bytes order micros fuel mfuel b sync s = Ret (s', Ok ()) ∧ wal_inv s' base (Bs ++ [os])
    ∧ (sync = true → wal_durable s' base (Bs ++ [os]))
    ∧ ∃ n bs, db_log_num s.2 = Some n ∧ kept [log_file_name (db_path s.2) n] (w_env s.1) e' ∧ contents e' = <[log_file_name (db_path s.2) n := bs]> (contents (w_env s.1)).
Proof.
  intros I Hr Eb Hl Hz Hos Hs. pose proof I as [I1 I2 I3 I4 I5 I6 I7 (n & lw & recs & En & Elw & Lw & Rw)]. set (p := log_file_name (db_path s.2) n) in *.
  destruct (write_mem s base Bs b os I Eb Hl Hz Hos Hs) as (mt & rec & Ecount & Eins & Emt & Eenc & Hrec).
  unfold db_write. rewrite bool_decide_true by (rewrite Elw; by eexists). cbn [massert]. rewrite bind_Ret.
  rewrite no_room_needed, sbind_Ok by done. rewrite Ecount, bind_Ret, I5. rewrite uadd_Ret, bind_Ret by lia.
  rewrite Eins, bind_Ret. cbv zeta. rewrite Eenc, bind_Ret.
  destruct (wal_add p (s.1, set_mem mt s.2) lw recs rec Elw Lw) as (e1 & lw1 & m & -> & L1 & K1 & b1 & C1).
  { intros ->. apply wal_record_long in Hrec. simpl in Hrec. lia. }
  rewrite sbind_Ok. cbn [fst snd] in *.
  destruct (sync_ok sync p (set_env e1 s.1, set_log (Some lw1) (set_mem mt s.2)) lw1 _ eq_refl L1) as (e2 & lw2 & -> & L2 & K2 & b2 & C2 & Hd). rewrite sbind_Ok.
  cbn [fst snd] in *. change (w_env (set_env e1 s.1)) with e1 in *.
  match goal with |- context [uadd 64 ?x _] => change x with (vs_last_seq (db_vset s.2)) end. rewrite I5, uadd_Ret, bind_Ret by lia.
  exists e2, mt, lw2. cbv zeta. split_and!; [done|..].
  - assert (concat (Bs ++ [os]) = concat Bs ++ os) as Ec by (rewrite concat_app; cbn; by rewrite app_nil_r).
    split; [apply K2|done|done|rewrite Ec, length_app; lia|cbn; rewrite Ec, length_app; lia|rewrite Ec; by apply Forall_app|done|].
    exists n, lw2, (recs ++ [rec]). split_and!; [done..|]. apply wal_records_snoc; [done|]. by replace (base + 1 + zlen (concat Bs)) with (base + zlen (concat Bs) + 1) by lia.
  - intros Hsync. exists n, b2, (recs ++ [rec]). split_and!; [done|cbn; by rewrite C2, lookup_insert_eq|by apply Hd|].
    apply wal_records_snoc; [done|]. by replace (base + 1 + zlen (concat Bs)) with (base + zlen (concat Bs) + 1) by lia.
  - exists n, b2. split_and!; [done|by eapply kept_trans|]. by rewrite C2, C1, insert_insert_eq.
Qed.

(** ** Reading *)

(** The current version has no files. *)
Definition no_files s : Prop := ∃ v, db_current s = Ret v ∧ v_files v = replicate (Z.to_nat NUM_LEVELS) [].

Lemma version_get_empty (M : Metas) v k st : v_files v = replicate (Z.to_nat NUM_LEVELS) [] → 8 ≤ zlen k →
  version_get debug_bytes M v k st = Ret (st, Ok None).
Proof.
  intros Hv Hk. unfold version_get, get_overlapping. rewrite parsed_ukey_ok, bind_Ret by done.
  assert (∀ l, (l < 7)%nat → level_files v (Z.of_nat l) = Ret []) as Hl.
  { intros l Hl. unfold level_files. rewrite Hv. apply index_lookup. by apply lookup_replicate_2. }
  rewrite (Hl 0%nat ltac:(lia) : level_files v 0 = _), bind_Ret. cbn [mfoldl].
  rewrite (mfoldl_ext_in _ (λ acc _, Ret (acc ++ [[]]))).
  2: { intros acc l (_ & Hin)%elem_of_seq. change (Z.to_nat NUM_LEVELS) with 7%nat in Hin. by rewrite Hl, bind_Ret by lia. }
  done.
Qed.

(** A key is looked for in the memtable and then in the version. *)
Lemma get_internal_mem fuel mfuel s base Bs k n : wal_inv s base Bs → db_imm s.2 = None → (n ≤ length (concat Bs))%nat → key_ok u k → zlen k + 8 < 2 ^ 63 →
  get_internal debug_bytes order micros fuel mfuel (base + Z.of_nat n) k s
  = match last_op k (take n (concat Bs)) with
    | Some x => Ret (s, Ok x)
    | None =>
        v ← db_current s;
        '(s, r) ← on_storage (version_get debug_bytes (w_metas s.1) v (ikey k (base + Z.of_nat n) TypeValue)) s;
        match r with
        | Ok (Some (val, st)) =>
            '(M, v, compact) ← update_stats (w_metas s.1) st v;
            s ← set_current_version M v s;
            s ← (if (compact : bool) then '(s, _) ← maybe_do_compaction debug_bytes order micros fuel mfuel s; Ret s else Ret s);
            Ret (s, Ok (Some val))
        | _ => Ret (s, Ok None)
        end
    end.
Proof.
  intros I Hi Hn Hk Hl. destruct (wal_holds s base Bs I) as (L & HL & HP). pose proof I as [I1 I2 I3 I4 I5 I6 I7 I8].
  assert (is_u 56 (base + Z.of_nat n)) as Hs by (unfold is_u; lia).
  destruct (memtable_get_ok (u := u) _ L k (base + Z.of_nat n) HL Hs Hk Hl) as (r & Er & Hr).
  apply (get_spec_perm _ _ _ _ _ HP), get_spec_ops in Hr; [|done].
  destruct (lookup_key_spec k (base + Z.of_nat n) TypeValue ltac:(unfold is_u; lia)) as (lk & Elk & _ & Hik & _).
  unfold get_internal. change (LookupKey_new k (base + Z.of_nat n)) with (LookupKey_new_full k (base + Z.of_nat n) TypeValue) in *.
  rewrite Elk, bind_Ret in Er. rewrite Elk, bind_Ret, Er, bind_Ret, Hr.
  destruct (last_op k (take n (concat Bs))) as [[v|]|]; [done..|]. rewrite Hi, bind_Ret. destruct (db_current s); cbn [mbind exec_bind]; [|done..]. by rewrite Hik.
Qed.

Lemma get_internal_ok fuel mfuel s base Bs k n : wal_inv s base Bs → db_imm s.2 = None → (n ≤ length (concat Bs))%nat → key_ok u k → zlen k + 8 < 2 ^ 63 →
  is_Some (last_op k (take n (concat Bs))) ∨ no_files s →
  get_internal debug_bytes order micros fuel mfuel (base + Z.of_nat n) k s = Ret (s, Ok (default None (last_op k (take n (concat Bs))))).
Proof.
  intros I Hi Hn Hk Hl Hcase. rewrite (get_internal_mem fuel mfuel s base Bs k n I Hi Hn Hk Hl).
  destruct (last_op k (take n (concat Bs))) as [x|]; [done|]. destruct Hcase as [[? ?]|(v & Ev & Hv)]; [done|].
  rewrite Ev, bind_Ret. unfold on_storage. destruct s as [[st M f vs] db].
  rewrite version_get_empty, bind_Ret; [done|done|rewrite length_ikey; lia].
Qed.

(** ** Replaying a log *)

(** What the loop has after the batches [Bs] from the sequence number [q] on, which fill the
    memtable [mt]. *)
Definition replayed (r : Replay (G := G)) (q : Z) (Bs : list (list op)) (mt : MemTable G) : Replay :=
  {| rp_mem := mt; rp_edit := rp_edit r; rp_compactions := rp_compactions r;
     rp_max_seq := if decide (Bs = []) then rp_max_seq r else Z.max (rp_max_seq r) (q + zlen (concat Bs) - 1); rp_save := rp_save r |}.

Lemma reader_in_out {R} (lr : LogReader (E * R)) : let (e, lr') := reader_out lr in reader_in lr' e = lr.
Proof. by destruct lr as [[] ? ? ?]. Qed.

Lemma replay_record_ok mfuel rec r s q os mt : wal_record q os rec → 0 < q → q + zlen os ≤ 2 ^ 56 →
  memtable_adds (mentries q os) (rp_mem r) = Ret mt → approx_mem_usage mt ≤ write_buffer_size (db_opt s.2) →
  replay_record debug_bytes micros mfuel rec r s = Ret (s, Ok (replayed r q [os] mt)).
Proof.
  intros [Rb Hl] Hq Hs Hmt Ha. unfold replay_record, set_contents.
  assert (batch_sequence {| entries := rec |} = Ret q) as ->.
  { destruct Rb as (cnt & E' & Hh & _). cbn in E'. unfold batch_sequence, SEQNUM_OFFSET. cbn [entries]. rewrite E', slice_to_app by lia.
    cbn [mbind exec_bind]. rewrite decode_encode_fixed; [done|lia|unfold is_u; lia]. }
  rewrite bind_Ret, (insert_into_memtable_ops _ _ os) by (done || lia). rewrite Hmt, bind_Ret, (batch_count_rep _ _ _ Rb), bind_Ret.
  rewrite uadd_Ret, bind_Ret, usub_Ret, bind_Ret by lia. rewrite (proj2 (Z.ltb_ge _ _) Ha). unfold replayed. cbn [concat]. rewrite app_nil_r.
  destruct (decide ([os] = [])); [done|]. do 5 f_equal. destruct (Z.ltb_spec (rp_max_seq r) (q + zlen os - 1)); lia.
Qed.

Lemma replay_loop_ok e0 rfuel mfuel recs : ∀ Bs q off b off' fuel lr r s mt, wal_records q recs Bs →
  enc_records BLOCK_SIZE off recs b off' → 0 ≤ off ≤ BLOCK_SIZE → reader_at (RR := env_reader e0) BLOCK_SIZE off (reader_in lr (w_env s.1)) b →
  (length recs < fuel)%nat → Forall (λ rec : bytes, 2 * length rec + 2 ≤ S rfuel)%nat recs →
  0 < q → q + zlen (concat Bs) ≤ 2 ^ 56 → memtable_adds (mentries q (concat Bs)) (rp_mem r) = Ret mt → approx_mem_usage mt ≤ write_buffer_size (db_opt s.2) →
  ∃ e', replay_loop debug_bytes micros fuel (S rfuel) mfuel lr r s = Ret ((set_env e' s.1, s.2), Ok (replayed r q Bs mt))
    ∧ kept [] e0 e' ∧ contents e' = contents e0.
Proof.
  assert (size_ok BLOCK_SIZE) as Hs by (by_decide || done).
  induction recs as [|rec recs IH]; intros Bs q off b off' fuel lr r s mt HW He Ho Hat Hf Hrf Hq Hb Hmt Ha; (destruct fuel as [|fuel]; [cbn in Hf; lia|]);
    cbn [replay_loop]; inversion He; inversion HW; subst.
  - destruct (log_read_end (RR := env_reader e0) BLOCK_SIZE off' rfuel _ Hs Ho Hat) as (lr' & buf & res & -> & Hres & Hr). rewrite bind_Ret.
    destruct (lr_src lr') as [e' f'] eqn:Es. cbn in Hr. destruct Hr as (K & C & _). exists e'. cbn [reader_out]. rewrite Es. cbn [fst].
    assert (replayed r q [] mt = r) as -> by (cbn in Hmt; injection Hmt as <-; by destruct r). split; [|done]. destruct res as [n|]; [|done]. by rewrite Hres.
  - apply Forall_cons in Hrf as [Hrf Hrfs]. match goal with H : enc_record _ _ _ _ _ |- _ => rename H into Hrec end.
    match goal with H : wal_record _ _ _ |- _ => rename H into Hw end. match goal with H : wal_records _ recs _ |- _ => rename H into Hws end.
    pose proof (enc_record_offset _ _ _ _ _ Hs Hrec Ho) as [Ho1 _].
    destruct (log_read_record (RR := env_reader e0) BLOCK_SIZE off rec _ _ (S rfuel) _ _ Hs Hrec Ho Hrf Hat) as (lr' & -> & Hat'). rewrite bind_Ret.
    pose proof (reader_in_out lr') as Hio. destruct (reader_out lr') as [e1 lr1]. rewrite <- Hio in Hat'. clear Hio.
    pose proof (wal_record_long _ _ _ Hw) as Hlong. rewrite (proj2 (Z.eqb_neq (zlen rec) 0)), (proj2 (Z.ltb_ge (zlen rec) 12)) by lia.
    cbn [concat] in *. rewrite length_app in Hb. rewrite mentries_app, memtable_adds_app in Hmt. exec_inv Hmt. rename r0 into mt1.
    destruct (memtable_adds_grows _ _ _ Hk) as [Hgrow _].
    rewrite (replay_record_ok mfuel rec r _ q os mt1), sbind_Ok; [|done|lia|lia|done|cbn [snd]; lia].
    match goal with H : enc_records _ _ recs _ _ |- _ => rename H into Hencs end.
    destruct (IH Bs0 (q + zlen os) _ _ _ fuel lr1 (replayed r q [os] mt1) (set_env e1 s.1, s.2) mt Hws Hencs Ho1 Hat') as (e' & E' & K & C);
      [simpl in Hf; lia|done|lia|lia|done|done|].
    exists e'. split_and!; [|done|done]. rewrite E'. do 3 f_equal. unfold replayed. cbn [rp_mem rp_edit rp_compactions rp_max_seq rp_save concat]. rewrite app_nil_r, length_app. f_equal.
    destruct (decide ([os] = [])); [done|]. destruct (decide (os :: Bs0 = [])); [done|]. destruct (decide (Bs0 = [])) as [->|]; simpl; lia.
Qed.

Lemma reopen_wal e p b recs f : env_ok e → contents e !! p = Some b → is_log b recs → appends_to e f p →
  wal_writer e p (LogWriter_new_with_off (BufWriter_new f) (zlen b)) recs.
Proof.
  intros He Hb Hl Ha. assert (zlen b = zlen (written (ReliableWrite := buf_writer e p) (e, BufWriter_new f))) as -> by (cbn; by rewrite Hb, app_nil_r).
  apply (log_writer_reopen (RW := buf_writer e p) (e, BufWriter_new f)); [|cbn; by rewrite Hb, app_nil_r].
  cbn. split_and!; [by apply kept_refl|done|]. exists b. symmetry. by apply insert_id.
Qed.

(** The database after the log number [n] has been reused. *)
Definition after_replay e' mt lw (n : Z) s : World E ra_file * DB G w_file :=
  (set_env e' s.1, set_mem mt (set_db_log_num (Some n) (set_log (Some lw) s.2))).

Lemma recover_log_ok fuel rfuel mfuel n s base Bs b recs ve mt :
  let p := log_file_name (db_path s.2) n in
  env_ok (w_env s.1) → o_cmp (db_opt s.2) = u → db_log s.2 = None → reuse_logs (db_opt s.2) = true →
  contents (w_env s.1) !! p = Some b → is_log b recs → wal_records (base + 1) recs Bs → 0 ≤ base → base + zlen (concat Bs) < 2 ^ 56 →
  memtable_adds (mentries (base + 1) (concat Bs)) (MemTable_new u) = Ret mt → approx_mem_usage mt ≤ write_buffer_size (db_opt s.2) →
  (length b < fuel)%nat → (2 * length b + 2 ≤ rfuel)%nat →
  ∃ e' lw, recover_log_file debug_bytes micros fuel rfuel mfuel n true ve s
      = Ret (after_replay e' mt lw n s, Ok (false, if decide (Bs = []) then 0 else base + zlen (concat Bs), ve))
    ∧ wal_writer e' p lw recs ∧ kept [p] (w_env s.1) e' ∧ contents e' = contents (w_env s.1).
Proof.
  intros p He Hu Hlog Hreuse Hb [off Hl] HW H0 Hbd Hmt Ha Hf Hrf. destruct (enc_records_length _ _ _ _ _ Hl) as [Hl1 Hl2]. destruct rfuel as [|rfuel]; [lia|].
  unfold recover_log_file. destruct s as [w db]. cbn [fst snd] in *. unfold on_env at 1. fold p.
  destruct (open_sequential_law p (w_env w) b He Hb) as (e1 & f & -> & K1 & C1 & L1). rewrite bind_Ret, sbind_Ok. cbn [fst snd]. rewrite Hu.
  destruct (replay_loop_ok e1 rfuel mfuel recs Bs (base + 1) 0 b off fuel (LogReader_new f true)
    {| rp_mem := MemTable_new u; rp_edit := ve; rp_compactions := 0; rp_max_seq := 0; rp_save := false |} (set_env e1 w, db) mt) as (e2 & -> & K2 & C2); try done; [|lia| |lia|lia|].
  { split; try done; cbn; [|by rewrite L1]. split_and!; [apply kept_refl, K1|done|by rewrite L1]. }
  { eapply Forall_impl; [exact Hl2|]. cbn. lia. }
  rewrite sbind_Ok. cbn [fst snd replayed rp_compactions rp_mem rp_save rp_max_seq rp_edit]. rewrite Hreuse. cbn [andb Z.eqb]. rewrite Hlog, bool_decide_true by done. cbn [massert]. rewrite bind_Ret.
  change (w_env (set_env e2 (set_env e1 w))) with e2. assert (contents e2 !! p = Some b) as Hb2 by (by rewrite C2, C1).
  fold p. rewrite (size_law p e2 b (proj1 K2) Hb2), bind_Ret. unfold on_env. change (w_env (set_env e2 (set_env e1 w))) with e2.
  destruct (open_appendable_law p e2 (proj1 K2)) as (e3 & f3 & -> & K3 & C3 & A3). rewrite bind_Ret, sbind_Ok. cbn [fst snd].
  rewrite Hb2 in C3. cbn [default] in C3. rewrite insert_id in C3 by done.
  exists e3, (LogWriter_new_with_off (BufWriter_new f3) (zlen b)). split_and!.
  - unfold after_replay. cbn [fst snd]. do 5 f_equal. destruct (decide (Bs = [])); [done|]. lia.
  - apply reopen_wal; [apply K3|by rewrite C3|by exists off|done].
  - eapply kept_trans; [exact K1| |by apply list_subseteq_nil|done]. eapply kept_trans; [exact K2|exact K3|by apply list_subseteq_nil|done].
  - by rewrite C3, C2, C1.
Qed.

(** A database with an empty memtable and a new log. *)
Lemma wal_start s n f : env_ok (w_env s.1) → o_cmp (db_opt s.2) = u → is_u 56 (vs_last_seq (db_vset s.2)) → db_mem s.2 = MemTable_new u →
  db_log_num s.2 = Some n → db_log s.2 = Some (LogWriter_new (BufWriter_new f)) →
  appends_to (w_env s.1) f (log_file_name (db_path s.2) n) → contents (w_env s.1) !! log_file_name (db_path s.2) n = Some [] →
  wal_inv s (vs_last_seq (db_vset s.2)) [].
Proof.
  intros He Hu [Hs1 Hs2] Hm Hn Hl Ha Hc. split; try done; cbn; [lia..|by rewrite Hm|]. exists n, (LogWriter_new (BufWriter_new f)), []. split_and!; [done..| |constructor].
  apply (log_writer_new (RW := buf_writer _ _) (_, BufWriter_new f)).
  - cbn. split_and!; [by apply kept_refl|done|]. exists []. symmetry. by apply insert_id.
  - cbn. by rewrite Hc.
Qed.

(** ** Theorems *)

(** [DB::write] of a batch on a database whose memtable has room succeeds and leaves a
    database that holds the batch behind all earlier ones, in memtable and log alike; with
    [sync] the log file has all of them when the call returns.  Nothing of the database changes
    but the memtable, the log writer and the sequence number, and no file but the log. *)
Theorem db_write_logged fuel mfuel s base Bs b os sync : wal_inv s base Bs → room s → batch_of os = Ret b →
  zlen os < 2 ^ 32 → 12 + zlen (ops_bytes os) < 2 ^ 64 → Forall op_ok os → base + zlen (concat Bs) + zlen os < 2 ^ 56 →
  ∃ e' mt lw, let s' := after_write e' mt lw (base + zlen (concat Bs) + zlen os) s in
    db_write debug_bytes order micros fuel mfuel b sync s = Ret (s', Ok ()) ∧ wal_inv s' base (Bs ++ [os])
    ∧ (sync = true → wal_durable s' base (Bs ++ [os]))
    ∧ ∃ n bs, db_log_num s.2 = Some n ∧ contents e' = <[log_file_name (db_path s.2) n := bs]> (contents (w_env s.1)).
Proof.
  intros I Hr Eb Hl Hz Hos Hs. destruct (db_write_ok fuel mfuel s base Bs b os sync I Hr Eb Hl Hz Hos Hs) as (e' & mt & lw & E1 & I1 & D1 & n & bs & En & _ & C1).
  exists e', mt, lw. split_and!; [done..|]. by exists n, bs.
Qed.

(** C14: A snapshot sees the writes before it and none after it: [get_snapshot] on a database
    with the batches [Bs] gives a snapshot at which [get_at], on any later state of the database
    that still has all its batches in the memtable, answers with the last operation of [Bs] on
    the key; [get] answers with the last operation of all.  (Keys that no batch touches are not
    found when the version has no files.) *)
Theorem snapshot_reads_past fuel mfuel s base Bs Bs' s1 ss s2 k : wal_inv s base Bs → get_snapshot s = Ret (s1, ss) →
  wal_inv s2 base (Bs ++ Bs') → db_imm s2.2 = None → key_ok u k → zlen k + 8 < 2 ^ 63 → is_Some (last_op k (concat Bs)) ∨ no_files s2 →
  wal_inv s1 base Bs
  ∧ get_at debug_bytes order micros fuel mfuel ss k s2 = Ret (s2, Ok (default None (last_op k (concat Bs))))
  ∧ db_get debug_bytes order micros fuel mfuel k s2 = Ret (s2, default None (last_op k (concat (Bs ++ Bs')))).
Proof.
  intros I Hss I2 Hi Hk Hl Hc. unfold get_snapshot, new_snapshot in Hss. exec_inv Hss. exec_inv Hm. simplify_eq. split_and!.
  - destruct s as [w db]. by destruct I.
  - unfold get_at, sequence. cbn [sn_seq]. rewrite (wi_seq _ _ _ I).
    assert (take (length (concat Bs)) (concat (Bs ++ Bs')) = concat Bs) as Ht by (by rewrite concat_app, take_app_length).
    rewrite (get_internal_ok fuel mfuel s2 base (Bs ++ Bs') k (length (concat Bs))); [by rewrite Ht|done..| |done|done|by rewrite Ht].
    rewrite concat_app, length_app. lia.
  - unfold db_get. rewrite (wi_seq _ _ _ I2).
    rewrite (get_internal_ok fuel mfuel s2 base (Bs ++ Bs') k (length (concat (Bs ++ Bs')))), bind_Ret; [by rewrite take_ge|done..|].
    rewrite take_ge by done. destruct Hc as [Hc|Hc]; [left|by right]. rewrite concat_app.
    unfold last_op in *. rewrite foldl_app. destruct Hc as [x ->]. clear. revert x. induction (concat Bs') as [|o os IH]; intros x; cbn; [by eexists|]. by case_decide.
Qed.

(** What a database has flushed survives a crash: after [flush], any database over an
    environment in which the log file is still there replays it with [recover_log_file] into
    the same memtable, goes on writing to the same log, and, with the sequence number that
    [recover] then sets, holds the same batches again.  Fuel for as many records as the log
    has bytes is enough. *)
Theorem flush_recover_restores s base Bs : wal_inv s base Bs →
  ∃ e1 lw1 n b, let s1 := (set_env e1 s.1, set_log (Some lw1) s.2) in
    db_flush s = Ret (s1, Ok ()) ∧ wal_inv s1 base Bs ∧ db_log_num s.2 = Some n ∧ contents e1 !! log_file_name (db_path s.2) n = Some b
    ∧ ∀ s2 ve fuel rfuel mfuel, env_ok (w_env s2.1) → contents (w_env s2.1) !! log_file_name (db_path s2.2) n = Some b →
      o_cmp (db_opt s2.2) = u → db_log s2.2 = None → reuse_logs (db_opt s2.2) = true → approx_mem_usage (db_mem s.2) ≤ write_buffer_size (db_opt s2.2) →
      base ≤ vs_last_seq (db_vset s2.2) ≤ base + zlen (concat Bs) → (length b < fuel)%nat → (2 * length b + 2 ≤ rfuel)%nat →
      ∃ s3 max_seq, recover_log_file debug_bytes micros fuel rfuel mfuel n true ve s2 = Ret (s3, Ok (false, max_seq, ve))
        ∧ db_mem s3.2 = db_mem s.2 ∧ contents (w_env s3.1) = contents (w_env s2.1)
        ∧ wal_inv (s3.1, set_vset (set_vs_last_seq (Z.max (vs_last_seq (db_vset s2.2)) max_seq) (db_vset s3.2)) s3.2) base Bs.
Proof.
  intros I. pose proof I as [I1 I2 I3 I4 I5 I6 I7 (n & lw & recs & En & Elw & Lw & Rw)].
  destruct (wal_flush _ s lw recs Elw Lw) as (e' & lw' & b & E1 & L1 & K1 & C1 & Hb).
  exists e', lw', n, b. split_and!; [unfold db_flush; by rewrite Elw| |done|by rewrite C1, lookup_insert_eq|].
  { split; try done; [apply K1|]. by exists n, lw', recs. }
  intros s2 ve fuel rfuel mfuel He Hc Hu Hlog Hreuse Ha Hseq Hf Hrf.
  destruct (recover_log_ok fuel rfuel mfuel n s2 base Bs b recs ve (db_mem s.2)) as (e3 & lw3 & E3 & L3 & K3 & C3); try done.
  eexists _, _. split_and!; [exact E3|done|done|]. split; try done; [apply K3| |].
  - cbn. destruct (decide (Bs = [])) as [->|]; [simpl in *; lia|]. rewrite Z.max_r; [done|]. lia.
  - by exists n, lw3, recs.
Qed.

End writer.

(** ** Witnesses *)

Module TestWal.
#[export] Existing Instance Reference.ref_encoding.
#[export] Existing Instance Reference.ref_encoding_laws.
#[export] Existing Instance Reference.ref_crc.
#[export] Existing Instance Reference.ref_crc_laws.
#[export] Existing Instance TestRng.alternating.
#[export] Instance EN : Env MemFS := MemEnv id.
#[export] Instance EL : EnvLaws MemFS := MemEnv_laws id.
#[export] Instance fixed_writer : FixedIntWriter (MemFS * BufWriter w_file) := λ k n w, w_write (encode_fixed k n) w.

(** A clock that stands still. *)
Definition clock (e : MemFS) : exec (MemFS * Z) := Ret (e, 0).

(** A new database with an empty log. *)
Definition env : MemFS := {| buffers := [[]]; store := {[ "db/000003.log" := {| e_f := 0%nat; e_locked := false |} ]} |}.
Definition world : World MemFS ra_file := set_env env TestManifest.fresh.1.
Definition db : DB Z w_file :=
  {| db_name := "db"; db_path := "db"; db_lock := None; db_opt := TestStorage.uopts; db_mem := MemTable_new DefaultCmp; db_imm := None;
     db_log := Some (LogWriter_new (BufWriter_new (mkWriter 0%nat 0))); db_log_num := Some 3; db_vset := TestManifest.fresh.2; db_snaps := SnapshotList_new;
     db_cstats := replicate 7 CompactionStats_default |}.

Lemma db_ok : wal_inv (u := DefaultCmp) (world, db) 0 [].
Proof.
  apply (wal_start (u := DefaultCmp) (world, db) 3 (mkWriter 0%nat 0)); try done.
  - cbn. split; cbn; intros p; [intros e (<- & <-)%lookup_singleton_Some; cbn; lia|by intros q e e' (<- & <-)%lookup_singleton_Some (<- & <-)%lookup_singleton_Some].
  - by eexists.
Qed.

Definition ops1 : list op := [([97], Some [1]); ([98], Some [2])].
Definition batch (os : list op) : WriteBatch := match batch_of os with Ret b => b | _ => WriteBatch_new end.

Lemma ops_ok : Forall (op_ok (u := DefaultCmp)) ops1.
Proof. repeat constructor; by_decide || done. Qed.

Lemma written : ∃ e' mt lw, let s' := after_write e' mt lw 2 (world, db) in wal_inv (u := DefaultCmp) s' 0 [ops1].
Proof.
  destruct (db_write_ok (λ _, EmptyString) elements clock (u := DefaultCmp) 0 0 (world, db) 0 [] (batch ops1) ops1 true db_ok) as (e' & mt & lw & _ & I & _);
    [by right|done|done|done|exact ops_ok|done|]. by exists e', mt, lw.
Qed.
End TestWal.

Section witnesses.
Import TestWal.

Lemma db_write_logged_witness : let s := (world, db) in
  ∃ e' mt lw, let s' := after_write e' mt lw 2 s in
    db_write (EN := EN) (λ _, EmptyString) elements clock 0 0 (batch ops1) true s = Ret (s', Ok ()) ∧ wal_inv (u := DefaultCmp) s' 0 [ops1]
    ∧ (true = true → wal_durable s' 0 [ops1])
    ∧ ∃ n bs, db_log_num s.2 = Some n ∧ contents e' = <[log_file_name (db_path s.2) n := bs]> (contents (w_env s.1)).
Proof.
  apply (db_write_logged (IEL := Reference.ref_encoding_laws) (u := DefaultCmp) (λ _, EmptyString) elements clock
    0 0 (world, db) 0 [] (batch ops1) ops1 true).
  - exact db_ok.
  - by right.
  - reflexivity.
  - done.
  - done.
  - exact ops_ok.
  - done.
Defined.

Lemma snapshot_reads_past_witness :
  let dbg := λ _ : bytes, EmptyString in
  ∃ s1 ss (s2 : World MemFS ra_file * DB Z w_file), get_snapshot (EN := EN) (world, db) = Ret (s1, ss) ∧ wal_inv (u := DefaultCmp) s1 0 []
    ∧ get_at (EN := EN) dbg elements clock 0 0 ss [97] s2 = Ret (s2, Ok None) ∧ db_get (EN := EN) dbg elements clock 0 0 [97] s2 = Ret (s2, Some [1]).
Proof.
  intros dbg. destruct (get_snapshot (EN := EN) (world, db)) as [[s1 ss]| |] eqn:Ess; [|discriminate Ess..].
  destruct written as (e' & mt & lw & I). exists s1, ss, (after_write e' mt lw 2 (world, db)).
  destruct (snapshot_reads_past (IEL := Reference.ref_encoding_laws) (u := DefaultCmp) dbg elements clock
    0 0 (world, db) 0 [] [ops1] s1 ss (after_write e' mt lw 2 (world, db)) [97] db_ok Ess I eq_refl) as (H1 & H2 & H3).
  - by_decide || done.
  - done.
  - right. by eexists.
  - split_and!; [reflexivity|exact H1|exact H2|exact H3].
Defined.

Lemma flush_recover_restores_witness :
  ∃ s e1 lw1 b s3 max_seq, wal_inv (u := DefaultCmp) s 0 [ops1] ∧ db_flush s = Ret ((set_env e1 s.1, set_log (Some lw1) s.2), Ok ())
    ∧ contents e1 !! log_file_name "db" 3 = Some b
    ∧ recover_log_file (EN := EN) (λ _, EmptyString) clock (S (length b)) (2 * length b + 2) 0 3 true VersionEdit_new (set_env e1 world, set_log None db) = Ret (s3, Ok (false, max_seq, VersionEdit_new))
    ∧ db_mem s3.2 = db_mem s.2.
Proof.
  destruct written as (e' & mt & lw & I). set (s := after_write e' mt lw 2 (world, db)) in *.
  assert (approx_mem_usage mt ≤ 2 ^ 20) as Ha.
  { pose proof (wi_mem _ _ _ I) as Hm. change (db_mem s.2) with mt in Hm.
    assert ((mt ← memtable_adds (mentries 1 ops1) (MemTable_new DefaultCmp); Ret (approx_mem_usage mt <=? 2 ^ 20)) = Ret true) as Hc by (vm_compute; reflexivity).
    change (concat [ops1]) with ops1 in Hm. change (0 + 1) with 1 in Hm. rewrite Hm, bind_Ret in Hc. injection Hc as Hc. by apply Z.leb_le. }
  destruct (flush_recover_restores (IEL := Reference.ref_encoding_laws) (CRL := Reference.ref_crc_laws) (u := DefaultCmp) (λ _, EmptyString) clock s 0 [ops1] I)
    as (e1 & lw1 & n & b & E1 & I1 & En & Hb & Hrec). injection En as <-.
  destruct (Hrec (set_env e1 world, set_log None db) VersionEdit_new (S (length b)) (2 * length b + 2)%nat 0%nat) as (s3 & max_seq & E3 & M3 & _).
  - exact (wi_env _ _ _ I1).
  - exact Hb.
  - reflexivity.
  - reflexivity.
  - reflexivity.
  - change (approx_mem_usage mt ≤ write_buffer_size TestStorage.uopts). etrans; [exact Ha|]. by_decide.
  - change (0 ≤ 0 ≤ 0 + 2). lia.
  - lia.
  - lia.
  - exists s, e1, lw1, b, s3, max_seq. split_and!; [exact I|exact E1|exact Hb|exact E3|exact M3].
Defined.

End witnesses.
