(* ===== verification/Iterate.v ===== *)
(** * Iterate: the iterators of the database

    [new_iter_at], [merge_iterators] and the iterator of [src/db_impl.rs] and [src/db_iter.rs] on
    a database whose writes are in its memtable: what the iterator shows is what the writes
    left.  The read samples that it records go to the database's own version. *)

From S2P Require Import Prelude Encoding Error Io Env BufWriter MemEnv Types Cmp KeyTypes Log Iterator SkipMap MemTable WriteBatch Filter FilterBlock Options BlockBuilder Block Cache TableBuilder Table TableFile TableRead TableCache Version VersionRead VersionEdit Snapshot MergingIter DbIter VersionSet Builder Manifest Recover DbImpl Wal.

(** ** What the snapshot sees *)

Section shown.
Context `{IEL : IntegerEncodingLaws} {u : Cmp} {UO : OrderedCmp u} {UE : ExactCmp u}.
Implicit Types (L : list entry) (e : entry) (x y : mentry).

Lemma sorted_filter_map {A B} (R : A → A → Prop) (S : B → B → Prop) (P : A → Prop) `{∀ a, Decision (P a)} (f : A → B) l :
  (∀ a b, a ∈ l → b ∈ l → P a → P b → R a b → S (f a) (f b)) → StronglySorted R l → StronglySorted S (f <$> filter P l).
Proof.
  induction l as [|a l IH]; intros Hf Hs; [constructor|]. apply StronglySorted_inv in Hs as [Hs Ha]. rewrite Forall_forall in Ha.
  assert (StronglySorted S (f <$> filter P l)) as Hl by (apply IH; [|done]; intros b c Hb Hc; apply Hf; by right).
  rewrite filter_cons. case_decide as Hp; [|done]. rewrite fmap_cons. constructor; [done|]. apply Forall_fmap, Forall_forall.
  intros b [Hpb Hb]%list_elem_of_filter. apply Hf; [left|by right|done|done|]. by apply Ha.
Qed.

Lemma shown_key x : mentry_ok (u := u) x → key_ok (InternalKeyCmp u) (shown x).1.
Proof. intros H. destruct (mentry_len x H) as (Hl & _). destruct H as (H1 & H2 & _). by apply ikey_wf. Qed.

(** Every user key is there once, in order. *)
Lemma visible_sorted s L : StronglySorted (key_lt (c := InternalKeyCmp u)) L → StronglySorted (λ a b, ord u a.1 b.1 = Lt) (DbIter.visible (u := u) s L).
Proof.
  apply sorted_filter_map. intros a b Ha Hb (_ & Hsa & _) (_ & Hsb & Hn) [Hlt|[Heq Hlt]]%ikey_lt_split; [done|]. exfalso.
  rewrite Forall_forall in Hn. apply (Hn a Ha). split; [by apply ord_eq_sym|lia].
Qed.

(** The value shown for a key is that of the last operation on it. *)
Lemma visible_ops base H Ls n k v : Ls ≡ₚ mentries (base + 1) H → Forall (mentry_ok (u := u)) Ls → (n ≤ length H)%nat →
  (k, v) ∈ DbIter.visible (u := u) (base + Z.of_nat n) (shown <$> Ls) ↔ last_op k (take n H) = Some (Some v).
Proof.
  intros HP HL Hn. rewrite Forall_forall in HL.
  assert (∀ x, x ∈ Ls ↔ ∃ i o, H !! i = Some o ∧ x = mentry_of (base + 1 + Z.of_nat i) o) as Hin by (intros x; rewrite HP; apply elem_mentries).
  assert (∀ x, x ∈ Ls → typ_of (shown x).1 = m_type x ∧ seq_of (shown x).1 = m_seq x ∧ ukey_of (shown x).1 = m_key x) as Hv.
  { intros x Hx. destruct (HL x Hx) as (H56 & _). cbn [shown fst]. by rewrite typ_of_ikey, seq_of_ikey, ukey_of_ikey. }
  unfold DbIter.visible. rewrite list_elem_of_fmap. setoid_rewrite list_elem_of_filter. setoid_rewrite list_elem_of_fmap. split.
  - intros (e & He & (Ht & Hs & Hn') & x & -> & Hx). destruct (Hv x Hx) as (V1 & V2 & V3). unfold user_entry in He. rewrite V3 in He. injection He as -> ->. rewrite V1 in Ht. rewrite V2 in Hs.
    assert (get_spec (m_key x) (base + Z.of_nat n) (mentries (base + 1) H) (Some (m_val x), false)) as Hg.
    { right. exists x. rewrite Ht. split_and!; [by rewrite <- HP|by split| |done]. intros y Hy [Hky Hsy]. rewrite <- HP in Hy. destruct (decide (m_seq y ≤ m_seq x)) as [|Hlt]; [done|]. exfalso.
      rewrite Forall_fmap, Forall_forall in Hn'. apply (Hn' y Hy). destruct (Hv y Hy) as (W1 & W2 & W3). unfold shadows. rewrite W2, W3, V2, V3, Hky, ord_refl. split; [done|lia]. }
    apply get_spec_ops in Hg; [|done]. destruct (last_op _ _) as [[w|]|]; [by injection Hg as ->|done..].
  - intros (i & Hi & Hafter)%last_op_Some. apply lookup_take_Some in Hi as [Hi Hin']. set (x := mentry_of (base + 1 + Z.of_nat i) (k, Some v)).
    assert (x ∈ Ls) as Hx by (apply Hin; by exists i, (k, Some v)). destruct (Hv x Hx) as (V1 & V2 & V3). exists (shown x). unfold user_entry. rewrite V3. split; [done|]. split; [|by exists x].
    split_and!; [by rewrite V1|rewrite V2; cbn; lia|]. apply Forall_fmap, Forall_forall. intros y Hy. destruct (Hv y Hy) as (W1 & W2 & W3). unfold compose, shadows. rewrite V2, V3, W2, W3.
    intros [Heq Hseq]. apply Hin in Hy as (j & o & Hj & ->). rewrite mentry_of_key in Heq. rewrite mentry_of_seq in Hseq. cbn [x m_key m_seq mentry_of snd fst] in Heq, Hseq. apply ord_exact in Heq.
    apply (Hafter j o); [rewrite lookup_take_lt by lia; done|lia|done].
Qed.

End shown.

(** ** The iterator of the database *)

Section iterate.
Context `{IEL : IntegerEncodingLaws} `{CRL : Crc32Laws} `{EL : EnvLaws E} `{RG : Rng G} `{RI : RandomIsize GI}.
Context (debug_bytes : bytes → string) {u : Cmp} {UO : OrderedCmp u} {UE : ExactCmp u}.
Implicit Types (s : World E ra_file * DB G w_file) (v : Version).
Abbreviation shared := (World E ra_file * VersionSet w_file)%type (only parsing).
Abbreviation child := (db_child (E := E) (G := G)) (only parsing).

(** The shared state has a current version, and this one no files. *)
#[local] Instance fileless : SharedState shared := {|
  ghost := ();
  shared_ok _ x := ∃ l v, vs_current x.2 = Some l ∧ w_versions x.1 !! l = Some v ∧ v_files v = replicate (Z.to_nat NUM_LEVELS) [];
  grows _ _ := True;
  grows_preorder := Build_PreOrder _ (λ _, I) (λ _ _ _ _ _, I);
|}.

(** The children are iterators over memtables. *)
#[local] Instance children : LdbIterator (shared * child) := db_child_iterator debug_bytes.
#[local] Program Instance child_shared : SharedIterator (InternalKeyCmp u) shared child :=
  {| gview _ c l p := match c with MemChild it => view (c := InternalKeyCmp u) it l p | FileChild _ => False end |}.
Next Obligation. by intros. Qed.
Next Obligation. intros g [it|it] l i V; [|done]. exact (view_bound _ _ _ V). Qed.
Next Obligation.
  intros g s [it|it] l p Hs V Hp; [|done]. destruct (advance_law _ _ _ V Hp) as (it' & E1 & V'). exists s, (MemChild it'), g.
  change (it_advance (s, MemChild it)) with ('(it, r) ← it_advance it; Ret ((s, MemChild it : child), r)). by rewrite E1, bind_Ret.
Qed.
Next Obligation. intros g s [it|it] l p Hs V; [|done]. exact (current_law _ _ _ V). Qed.
Next Obligation. intros g s [it|it] l p Hs V; [|done]. exact (valid_law _ _ _ V). Qed.
Next Obligation.
  intros g s [it|it] l p Hs V; [|done]. destruct (reset_law _ _ _ V) as (it' & E1 & V'). exists s, (MemChild it'), g.
  change (it_reset (s, MemChild it)) with (it ← it_reset it; Ret (s, MemChild it : child)). by rewrite E1, bind_Ret.
Qed.
Next Obligation.
  intros g s [it|it] l p key Hs V Hk; [|done]. destruct (seek_law _ _ _ key V Hk) as (it' & E1 & V'). exists s, (MemChild it'), g.
  change (it_seek key (s, MemChild it)) with (it ← it_seek key it; Ret (s, MemChild it : child)). by rewrite E1, bind_Ret.
Qed.

(** Together with the state, a merging iterator. *)
Context (mfuel : nat).
#[local] Instance merging : LdbIterator (shared * MergingIter child) := MergingIter_iterator mfuel.
#[local] Instance merging_forward : ForwardIterator (InternalKeyCmp u) (shared * MergingIter child) := shared_forward.

(** A read sample finds no file in the version, and changes nothing. *)
Lemma sample_nothing (M : Metas) v k : v_files v = replicate (Z.to_nat NUM_LEVELS) [] → 8 ≤ zlen k → version_record_read_sample M k v = Ret ((M, v), false).
Proof.
  intros Hv Hk. unfold version_record_read_sample, get_overlapping. rewrite parsed_ukey_ok, bind_Ret by done. destruct v as [c fs ? ? ? ?]. cbn in Hv. subst fs. reflexivity.
Qed.

#[local] Instance samples_ok : Sampled (u := u) (It := shared * MergingIter child).
Proof.
  intros k [[w vs] m] l p Hk (g & (i & v & Hi & Hv & Hf) & V). cbn [fst snd] in *. exists ((w, vs), m). split; [|exists g; split; [by exists i, v|done]].
  unfold sample_read, db_samples. rewrite Hi. cbn [unwrap]. rewrite bind_Ret, Hv. cbn [unwrap]. rewrite bind_Ret, sample_nothing, bind_Ret by (done || by apply (ikey_length (u := u))).
  rewrite list_insert_id by done. by destruct w.
Qed.

(** [merge_iterators] gives the memtable. *)
Lemma merge_memtable s base Bs : wal_inv (u := u) s base Bs → db_imm s.2 = None → no_files s →
  ∃ m, merge_iterators debug_bytes s = Ret (s, Ok m)
    ∧ view (c := InternalKeyCmp u) ((s.1, db_vset s.2), m) (shown <$> sorted_ops (u := u) base Bs) Start.
Proof.
  intros W Hi (v & Ev & Hf). pose proof (wal_sorted _ _ _ W) as Hmt. pose proof Hmt as [Hh HL]. set (L := sorted_ops base Bs) in *.
  unfold merge_iterators. rewrite Hi, Ev, bind_Ret.
  assert (∀ st M, new_iters debug_bytes M v st = Ret (st, Ok [])) as Hnew by (intros st M; destruct v as [c fs ? ? ? ?]; cbn in Hf; subst fs; reflexivity).
  destruct s as [w db]. unfold on_storage. cbn [fst snd] in *. rewrite Hnew, bind_Ret, sbind_Ok. replace (set_storage (w_storage w) w) with w by (by destruct w).
  rewrite (wi_cmp _ _ _ W). eexists. split; [done|]. exists (). split.
  { unfold db_current, current in Ev. cbn [fst snd] in Ev. destruct (vs_current (db_vset db)) as [l|] eqn:El; [|done]. cbn [unwrap] in Ev. rewrite bind_Ret in Ev.
    destruct (w_versions w !! l) as [v'|] eqn:Ev'; [|done]. injection Ev as ->. by exists l, v. }
  apply (mi_new_view (SS := fileless) () _ (if 0 <? memtable_len (db_mem db) then [shown <$> L] else [])).
  - cbn [fmap list_fmap]. rewrite app_nil_r. destruct (0 <? _); [|constructor]. constructor; [|constructor]. exists L. split_and!; [done..|]. destruct Hh as (Es & I & HE). by exists Es.
  - assert (memtable_len (db_mem db) = zlen L) as Hlen.
    { destruct Hh as (Es & I & HE). unfold memtable_len. rewrite (inv_len _ _ I). apply (f_equal length) in HE. rewrite !length_fmap in HE. lia. }
    assert (StronglySorted (key_lt (c := InternalKeyCmp u)) (shown <$> L)) as Hs by (apply holds_sorted, shown_sorted in Hh; done).
    rewrite Hlen. destruct (Z.ltb_spec 0 (zlen L)) as [Hlt|Hge]; [|destruct L; [|cbn in Hge; lia]].
    + split; [cbn; by rewrite app_nil_r|by apply Forall_singleton|done|]. apply Forall_fmap. eapply Forall_impl; [exact HL|]. apply shown_key.
    + split; [done|constructor|constructor|constructor].
Qed.

(** ** Theorems *)

(** [W] has, in the order of the keys, every key that the first [n] operations leave with a
    value, once and with this value. *)
Definition leaves (n : nat) (H : list op) (W : list entry) : Prop :=
  StronglySorted (λ a b, ord u a.1 b.1 = Lt) W ∧ ∀ k x, (k, x) ∈ W ↔ last_op k (take n H) = Some (Some x).

(** C30: The iterator of a database shows what was written.  On a database without tables whose
    batches [Bs] are in its memtable, [new_iter_at] for a snapshot that sees the first [n]
    operations gives an iterator; iterating over it gives a list [W] of keys with values, in the
    order of the keys and every key once, in which a key has a value exactly if this is what the
    last of these operations on the key has put; and [seek] then finds the first entry of [W]
    that is not below the key asked for.  The read samples go to the current version, and change
    nothing, as it has no files.  Of the random generator, whose draws may be negative, it is
    asked that they add up to any amount from any point on ([makes_up]): the loop of
    [record_read_sample] that makes up for the bytes read ends for no other reason.  Some amount
    of fuel is then enough, and any larger one. *)
Theorem db_iterates (g : GI) ss s base Bs n : wal_inv (u := u) s base Bs → db_imm s.2 = None → no_files s →
  sequence ss = base + Z.of_nat n → (n ≤ length (concat Bs))%nat → makes_up g →
  ∃ d W, new_iter_at debug_bytes g ss s = Ret (s, Ok d)
    ∧ leaves n (concat Bs) W
    ∧ ∃ N, ∀ fuel, (N ≤ fuel)%nat → ∃ d', @collect _ (DBIterator_iterator fuel) (S (length W)) d = Ret (d', W)
        ∧ ∀ k, key_ok u k → zlen k + 8 < 2 ^ 63 → ∃ d'', dbi_seek fuel k d' = Ret d'' ∧ dbi_current d'' = Ret (W !! seek_index u k W).
Proof.
  intros W Hi Hf Hss Hn Hg. destruct (merge_memtable s base Bs W Hi Hf) as (m & Em & V). pose proof (wal_sorted _ _ _ W) as Hmt. pose proof (proj2 Hmt) as HL.
  pose proof (wi_bound _ _ _ W). pose proof (wi_base _ _ _ W). pose proof (sorted_ops_perm (u := u) base Bs) as HP. set (L := sorted_ops base Bs) in *.
  assert (StronglySorted (key_lt (c := InternalKeyCmp u)) (shown <$> L)) as Hs by (destruct Hmt as [Hh _]; apply holds_sorted, shown_sorted in Hh; done).
  assert (Forall (λ e : entry, key_ok (InternalKeyCmp u) e.1) (shown <$> L)) as Hk by (apply Forall_fmap; eapply Forall_impl; [exact HL|]; apply shown_key).
  destruct (db_iter_shows_visible (u := u) g ((s.1, db_vset s.2), m) (sequence ss) (shown <$> L) V Hs Hk Hg) as (N & HN); [rewrite Hss; unfold is_u; lia|].
  rewrite Hss in HN. exists (DBIterator_new u g (s.1, db_vset s.2, m) (base + Z.of_nat n)), (DbIter.visible (u := u) (base + Z.of_nat n) (shown <$> L)).
  split_and!; [unfold new_iter_at; rewrite Em, sbind_Ok, (wi_cmp _ _ _ W), Hss; done|split; [by apply visible_sorted|intros k x; by apply visible_ops]|by exists N].
Qed.

End iterate.

(** ** Witnesses *)

Module TestIterate.
(** A generator that draws 4096 and -1024 in turn. *)
#[export] Instance seesaw : RandomIsize bool := λ g, (if g then 4096 else -1024, negb g).

Lemma seesaw_makes_up (g : bool) : makes_up g.
Proof.
  intros j n. generalize (after j g). clear. intros g. exists (2 * Z.to_nat n)%nat. assert (∀ k, drawn (2 * k) g = 3072 * Z.of_nat k) as ->; [|lia].
  induction k as [|k IH]; [done|]. replace (2 * S k)%nat with (S (S (2 * k))) by lia. cbn [drawn].
  destruct g; [change (random_period true) with (4096, false)|change (random_period false) with (-1024, true)]; cbn [fst snd];
    [change (random_period false) with (-1024, true)|change (random_period true) with (4096, false)]; cbn [fst snd]; rewrite IH; lia.
Qed.

(** [a] and [b] are written, then [a] is deleted and [c] is written. *)
Definition ops : list op := [([97], Some [1]); ([98], Some [2]); ([97], None); ([99], Some [3])].
Definition snapshot : InnerSnapshot := {| sn_id := 1; sn_seq := 4 |}.
End TestIterate.

Section iterate_witnesses.
Import TestWal TestIterate.

Lemma written_ops : ∃ s : World MemFS ra_file * DB Z w_file, wal_inv (u := DefaultCmp) s 0 [ops] ∧ db_imm s.2 = None ∧ no_files s.
Proof.
  destruct (db_write_ok (λ _, EmptyString) elements clock (u := DefaultCmp) 0 0 (world, db) 0 [] (batch ops) ops true db_ok) as (e1 & mt1 & lw1 & _ & I1 & _);
    [by right|done|done|done|repeat constructor; by_decide || done|done|].
  eexists. split; [exact I1|]. split; [done|]. eexists. split; [reflexivity|reflexivity].
Qed.

Lemma db_iterates_witness :
  ∃ (s : World MemFS ra_file * DB Z w_file) d W N, new_iter_at (EN := EN) (GI := bool) (λ _, EmptyString) true snapshot s = Ret (s, Ok d)
    ∧ (([98], [2]) ∈ W ∧ ([99], [3]) ∈ W ∧ ∀ x, ([97], x) ∉ W)
    ∧ ∃ d', @collect _ (DBIterator_iterator (LI := merging (EN := EN) (λ _, EmptyString) 9) N) (S (length W)) d = Ret (d', W).
Proof.
  destruct written_ops as (s & Hw & Hi & Hf).
  destruct (db_iterates (IEL := Reference.ref_encoding_laws) (u := DefaultCmp) (GI := bool) (λ _, EmptyString) 9 true snapshot s 0 [ops] 4 Hw Hi Hf)
    as (d & W & E1 & [Hs HW] & N & HN).
  - reflexivity.
  - vm_compute. lia.
  - exact (seesaw_makes_up true).
  - destruct (HN N ltac:(lia)) as (d' & E2 & _). exists s, d, W, N. split; [exact E1|]. split; [|by exists d'].
    split; [apply HW; reflexivity|]. split; [apply HW; reflexivity|]. intros x Hx. apply HW in Hx. discriminate Hx.
Defined.

End iterate_witnesses.
