(* ===== verification/Compact.v ===== *)
(** * Compact: what a compaction keeps

    Which entries [DB::do_compaction_work] ([src/db_impl.rs]) drops and why no reader at a
    sequence number from [smallest_seq] on misses them: it reads the same from the entries
    that are kept.  With it [Compaction::is_base_level_for] ([src/version_set.rs]), whose
    saved indices only pay off, and are only right, for ascending keys.

    This is about the decisions alone, [keep_entry] of [DbImpl] applied to one entry of the
    input after the other.  The merging iterator that delivers the input, the tables that take
    the entries that are kept and the errors of either are not part of it; [compaction_loop]
    of [DbImpl] has them.  Nor does it say that every snapshot is served: [start_compaction]
    takes [smallest_seq] from the last sequence number where no snapshot was ever taken, but
    otherwise from [SnapshotList::oldest], which answers with the handle of the oldest
    snapshot and not with its sequence number (theorem [snapshot_oldest_is_handle] of
    [Snapshot]). *)

From S2P Require Import Prelude Encoding Error Io Env BufWriter MemEnv Types Cmp KeyTypes Log Iterator SkipMap MemTable WriteBatch Filter FilterBlock Options BlockBuilder Block Cache TableBuilder Table TableFile TableRead TableCache Version VersionEdit Snapshot MergingIter VersionSet DbImpl.

(** ** What readers see *)

(** The newest entry of the user key that a reader at [s] sees; entries of a key are sorted
    newest first. *)
Definition sees `{IE : IntegerEncoding} (k : bytes) (s : Z) (e : entry) : Prop := ukey_of e.1 = k ∧ seq_of e.1 ≤ s.
#[export] Instance sees_dec `{IE : IntegerEncoding} k s e : Decision (sees k s e).
Proof. unfold sees. apply _. Defined.
Definition newest `{IE : IntegerEncoding} (k : bytes) (s : Z) (L : list entry) : option entry := hd_error (filter (sees k s) L).

(** ** The entries that are kept *)

Section kept.
Context `{IEL : IntegerEncodingLaws} {u : Cmp} {UO : OrderedCmp u} {UE : ExactCmp u}.
Abbreviation icmp := (InternalKeyCmp u) (only parsing).
Context (smallest : Z) (base : bytes → bool).
Implicit Types (L : list entry) (e : entry) (prev : option entry).

(** The entry before it is a newer one of the same key that every reader sees. *)
Definition shadowed prev e : Prop :=
  match prev with Some p => ukey_of p.1 = ukey_of e.1 ∧ seq_of p.1 ≤ smallest | None => False end.
#[export] Instance shadowed_dec prev e : Decision (shadowed prev e).
Proof. destruct prev; cbn; apply _. Defined.

(** A deletion that every reader sees and that hides nothing in deeper levels. *)
Definition vacuous e : Prop := typ_of e.1 = TypeDeletion ∧ seq_of e.1 ≤ smallest ∧ base (ukey_of e.1) = true.
#[export] Instance vacuous_dec e : Decision (vacuous e).
Proof. unfold vacuous. apply _. Defined.

Fixpoint kept_entries prev L : list entry :=
  match L with
  | [] => []
  | e :: L => if decide (shadowed prev e ∨ vacuous e) then kept_entries (Some e) L else e :: kept_entries (Some e) L
  end.

Lemma kept_sublist prev L : kept_entries prev L `sublist_of` L.
Proof. revert prev. induction L as [|e L IH]; intros prev; cbn; [done|]. case_decide; by constructor. Qed.

Lemma kept_Forall P prev L : Forall P L → Forall P (kept_entries prev L).
Proof. rewrite !Forall_forall. intros H x Hx. apply H. eapply elem_of_sublist; [exact Hx|apply kept_sublist]. Qed.

Lemma newest_cons k s e L : newest k s (e :: L) = if decide (sees k s e) then Some e else newest k s L.
Proof. unfold newest. rewrite filter_cons. by case_decide. Qed.

Lemma newest_None k s L : Forall (λ e, ukey_of e.1 ≠ k) L → newest k s L = None.
Proof. induction 1 as [|e L He _ IH]; [done|]. rewrite newest_cons, IH. case_decide as Hs; [by destruct Hs|done]. Qed.

Lemma key_lt_ukey e e' : key_lt (c := icmp) e e' → ord u (ukey_of e.1) (ukey_of e'.1) ≠ Gt ∧ (ukey_of e.1 = ukey_of e'.1 → seq_of e'.1 < seq_of e.1).
Proof.
  unfold key_lt. cbn [ord InternalKeyCmp_ordered]. unfold ord_internal. destruct (ord u (ukey_of e.1) (ukey_of e'.1)) eqn:Eo; intros H; [by split| |done].
  split; [done|]. intros Heq. rewrite Heq, ord_refl in Eo. done.
Qed.

(** Once an entry is visible to every reader, the older ones of its key are dropped. *)
Lemma kept_drops p L : StronglySorted (key_lt (c := icmp)) (p :: L) → seq_of p.1 ≤ smallest →
  Forall (λ e, ukey_of e.1 ≠ ukey_of p.1) (kept_entries (Some p) L).
Proof.
  revert p. induction L as [|e L IH]; intros p Hs Hp; cbn [kept_entries]; [constructor|].
  apply StronglySorted_inv in Hs as [Hs Hlt]. apply Forall_cons in Hlt as [Hlt Hlts]. apply key_lt_ukey in Hlt as [Ho Hq].
  destruct (decide (ukey_of p.1 = ukey_of e.1)) as [Heq|Hne].
  - rewrite decide_True by (left; by split). rewrite Heq. apply IH; [done|]. specialize (Hq Heq). lia.
  - assert (Forall (λ x, ukey_of x.1 ≠ ukey_of p.1) (e :: L)) as Hall.
    { constructor; [by intros H; symmetry in H|]. apply StronglySorted_inv in Hs as [_ He]. rewrite Forall_forall in *. intros x Hx Heq.
      destruct (key_lt_ukey e x (He x Hx)) as [Hox _]. rewrite Heq in Hox. apply Hne, ord_exact.
      rewrite (ord_antisym (ukey_of p.1) (ukey_of e.1)) in Hox. by destruct (ord u (ukey_of p.1) (ukey_of e.1)). }
    case_decide; [|constructor; [by apply Forall_cons in Hall as [? _]|]]; by apply (kept_Forall _ (Some e)); apply Forall_cons in Hall as [_ ?].
Qed.

(** A reader at [s] finds the same newest entry among those kept, or finds none where it
    found a deletion that is vacuous. *)
Definition same_newest (k : bytes) (s : Z) L L' : Prop :=
  newest k s L' = newest k s L ∨ (newest k s L' = None ∧ ∃ e, newest k s L = Some e ∧ vacuous e).

Lemma kept_newest prev L k s : smallest ≤ s → StronglySorted (key_lt (c := icmp)) L →
  match prev with Some p => ukey_of p.1 = k → smallest < seq_of p.1 | None => True end →
  same_newest k s L (kept_entries prev L).
Proof.
  intros Hs. revert prev. induction L as [|e L IH]; intros prev Hsort Hprev; cbn [kept_entries]; [by left|].
  pose proof Hsort as Hsort'. apply StronglySorted_inv in Hsort' as [HsL _]. destruct (decide (ukey_of e.1 = k)) as [Hk|Hk].
  - assert (¬ shadowed prev e) as Hns by (destruct prev as [p|]; cbn; [|tauto]; intros [Heq Hle]; specialize (Hprev ltac:(congruence)); lia).
    destruct (decide (seq_of e.1 ≤ s)) as [Hv|Hv].
    + assert (newest k s (e :: L) = Some e) as Hn by (rewrite newest_cons; by rewrite decide_True). case_decide as Hd.
      * destruct Hd as [|Hd]; [done|]. right. split; [|by exists e]. apply newest_None. rewrite <- Hk. apply kept_drops; [done|apply Hd].
      * left. rewrite Hn, newest_cons. by rewrite decide_True.
    + assert (¬ vacuous e) as Hnv by (intros (_ & H & _); lia). rewrite decide_False by tauto.
      unfold same_newest. rewrite !newest_cons. rewrite !(decide_False (P := sees k s e)) by (intros [_ H]; lia). apply (IH (Some e)); [done|]. intros _. lia.
  - assert (same_newest k s L (kept_entries (Some e) L)) as HI by (apply (IH (Some e)); [done|]; done).
    unfold same_newest. rewrite newest_cons, (decide_False (P := sees k s e)) by (by intros [? _]). case_decide; [done|].
    rewrite newest_cons, (decide_False (P := sees k s e)) by (by intros [? _]). done.
Qed.

End kept.

(** ** [is_base_level_for] *)

Section base.
Context `{IEL : IntegerEncodingLaws} {u : Cmp} {UO : OrderedCmp u} (M : Metas).
Implicit Types (f : FileMetaHandle) (files : list FileMetaHandle) (v : Version) (c : Compaction) (k : bytes).

Definition covered k f : Prop := ord u k (lo M f) ≠ Lt ∧ ord u k (hi M f) ≠ Gt.
#[export] Instance covered_dec k f : Decision (covered k f).
Proof. unfold covered. apply _. Defined.
Definition level_disjoint files : Prop := StronglySorted (λ f g, ord u (hi M f) (lo M g) ≠ Gt) files.

Definition passed k f : Prop := ord u (hi M f) k = Lt.

Lemma passed_not_covered k f : passed k f → ¬ covered k f.
Proof. intros H [_ H']. apply H'. by rewrite (ord_antisym (hi M f) k), H. Qed.

Lemma passed_mono k k' f : ord u k k' ≠ Gt → passed k f → passed k' f.
Proof. intros H1 H2. by eapply ord_lt_le. Qed.

Lemma base_scan_ok k files ix : key_ok u k → Forall (file_ok (u := u) M) files → level_disjoint files →
  ∃ n, base_scan M u k files ix = Ret (ix + Z.of_nat n, bool_decide (Exists (covered k) files)) ∧ (n ≤ length files)%nat ∧ Forall (passed k) (take n files).
Proof.
  intros Hk. revert ix. induction files as [|f files IH]; intros ix Hok Hs; cbn [base_scan].
  { exists 0%nat. split_and!; [|done|constructor]. by rewrite Z.add_0_r. }
  apply Forall_cons in Hok as [Hf Hok]. apply StronglySorted_inv in Hs as [Hs Hlt]. destruct (file_keys (u := u) M f Hf) as (Kl & Kh & -> & -> & Hlh).
  rewrite bind_Ret, cmp_ret, bind_Ret by done. destruct (is_le _) eqn:El.
  - rewrite bind_Ret, cmp_ret, bind_Ret by done. exists 0%nat. split_and!; [|lia|constructor]. rewrite Z.add_0_r. do 2 f_equal.
    apply is_le_true in El. destruct (is_ge (ord u k (lo M f))) eqn:Eg.
    + apply is_ge_true in Eg. symmetry. apply bool_decide_eq_true. left. by split.
    + symmetry. apply bool_decide_eq_false. intros [[Hc _]|Hex]%Exists_cons; [by apply is_ge_true in Hc; rewrite Eg in Hc|].
      apply Exists_exists in Hex as (g & Hg & [Hc _]). rewrite Forall_forall in Hlt. apply Hc. apply ord_lt_le with (lo M f).
      * by destruct (ord u k (lo M f)).
      * eapply ord_le_trans; [exact Hlh|by apply Hlt].
  - destruct (IH (ix + 1) Hok Hs) as (n & -> & Hn & Hp). exists (S n).
    assert (passed k f) as Hpf by (unfold passed; rewrite (ord_antisym k); by destruct (ord u k (hi M f))).
    split_and!; [|simpl; lia|cbn; by constructor]. f_equal. f_equal; [lia|]. apply bool_decide_ext. rewrite Exists_cons. split; [by right|].
    intros [H|H]; [by destruct (passed_not_covered k f)|done].
Qed.

(** The saved indices are behind files that end before [k]. *)
Definition level_ix_ok k v c (l : nat) : Prop := ∃ ix, level_ixs c !! l = Some ix ∧ 0 ≤ ix ≤ zlen (files_at v (Z.of_nat l))
  ∧ Forall (passed k) (take (Z.to_nat ix) (files_at v (Z.of_nat l))).

(** No file of the levels has the key in its range. *)
Definition uncovered k v (levels : list nat) : Prop := Forall (λ l, Forall (λ f, ¬ covered k f) (files_at v (Z.of_nat l))) levels.
#[export] Instance uncovered_dec k v levels : Decision (uncovered k v levels).
Proof. unfold uncovered. apply _. Defined.

Lemma base_levels_ok k v levels c : key_ok u k → c_cmp c = u → length (v_files v) = Z.to_nat NUM_LEVELS →
  Forall (λ l, l < 7 ∧ level_ix_ok k v c l ∧ Forall (file_ok (u := u) M) (files_at v (Z.of_nat l)) ∧ level_disjoint (files_at v (Z.of_nat l)))%nat levels → NoDup levels →
  ∃ ixs, base_levels M k v levels c = Ret (set_level_ixs ixs c, bool_decide (uncovered k v levels))
    ∧ length ixs = length (level_ixs c) ∧ ∀ l, level_ix_ok k v c l → level_ix_ok k v (set_level_ixs ixs c) l.
Proof.
  intros Hk. revert c. induction levels as [|l levels IH]; intros c Hc Hv Hl Hnd; cbn [base_levels].
  { exists (level_ixs c). split_and!; [by destruct c|done|]. by destruct c. }
  apply Forall_cons in Hl as [(Hl7 & (ix & Hix & Hr & Hp) & Hok & Hs) Hl]. apply NoDup_cons in Hnd as [Hnl Hnd].
  assert (level_files v (Z.of_nat l) = Ret (files_at v (Z.of_nat l))) as ->.
  { destruct (lookup_lt_is_Some_2 (v_files v) l) as [fs Hfs]; [rewrite Hv; change (Z.to_nat NUM_LEVELS) with 7%nat; lia|].
    unfold level_files, files_at. rewrite (index_lookup _ _ _ Hfs), Nat2Z.id, Hfs. done. }
  rewrite bind_Ret, (index_lookup _ _ _ Hix), bind_Ret, Hc. set (fs := files_at v (Z.of_nat l)) in *.
  assert (fs = take (Z.to_nat ix) fs ++ drop (Z.to_nat ix) fs) as Efs by (by rewrite take_drop).
  destruct (base_scan_ok k (drop (Z.to_nat ix) fs) ix Hk) as (n & -> & Hn & Hpn); [by apply Forall_drop| |].
  { unfold level_disjoint in *. rewrite Efs in Hs. by apply StronglySorted_app in Hs as (_ & _ & ?). }
  rewrite bind_Ret, (set_index_lookup _ _ _ _ Hix), bind_Ret. set (c1 := set_level_ixs _ c).
  assert (Forall (passed k) (take (Z.to_nat (ix + Z.of_nat n)) fs)) as Hpast.
  { rewrite Efs, take_app, Forall_app, length_take, Nat.min_l by lia. split; [rewrite take_ge by (rewrite length_take; lia); exact Hp|].
    replace (Z.to_nat (ix + Z.of_nat n) - Z.to_nat ix)%nat with n by lia. done. }
  rewrite length_drop in Hn.
  assert (∀ l', level_ix_ok k v c l' → level_ix_ok k v c1 l') as Hmono.
  { intros l' Hl'. destruct (decide (l' = l)) as [->|Hne].
    - exists (ix + Z.of_nat n). split_and!; [cbn; apply list_lookup_insert_eq; by eapply lookup_lt_Some|lia|fold fs; lia|done].
    - destruct Hl' as (ix' & H1 & H2). exists ix'. split; [|done]. cbn. by rewrite list_lookup_insert_ne. }
  assert (Exists (covered k) (drop (Z.to_nat ix) fs) ↔ Exists (covered k) fs) as Hex.
  { rewrite Efs at 2. rewrite Exists_app. split; [by right|]. intros [H|H]; [|done]. apply Exists_exists in H as (f & Hf & Hc'). rewrite Forall_forall in Hp. by destruct (passed_not_covered k f (Hp f Hf)). }
  assert (uncovered k v (l :: levels) ↔ ¬ Exists (covered k) fs ∧ uncovered k v levels) as Hunc.
  { unfold uncovered. rewrite Forall_cons. fold fs. split; intros [H1 H2]; (split; [|done]); [by apply Forall_not_Exists|by apply (not_Exists_Forall (covered k))]. }
  rewrite (bool_decide_ext _ _ Hex). destruct (bool_decide_reflect (Exists (covered k) fs)) as [Hin|Hout].
  - exists (<[l := ix + Z.of_nat n]> (level_ixs c)). rewrite bool_decide_false by tauto. split_and!; [done|by rewrite length_insert|exact Hmono].
  - destruct (IH c1 Hc Hv) as (ixs & -> & Hlen & Hmono2); [|done|].
    { eapply Forall_impl; [exact Hl|]. intros l' (H1 & H2 & H3 & H4). exact (conj H1 (conj (Hmono l' H2) (conj H3 H4))). }
    exists ixs. split_and!; [|rewrite Hlen; cbn; by rewrite length_insert|by intros l' H; apply Hmono2, Hmono]. do 2 f_equal. apply bool_decide_ext. tauto.
Qed.

(** What [is_base_level_for] relies on: the input version has sorted files on the levels below
    the outputs, and the keys come in ascending order. *)
Record base_ok k (versions : list Version) c v : Prop := {
  bo_cmp : c_cmp c = u;
  bo_version : ∃ l, input_version c = Some l ∧ versions !! l = Some v;
  bo_levels : length (v_files v) = Z.to_nat NUM_LEVELS;
  bo_level : 0 ≤ c_level c;
  bo_files : ∀ l, c_level c + 2 ≤ Z.of_nat l < NUM_LEVELS →
    level_ix_ok k v c l ∧ Forall (file_ok (u := u) M) (files_at v (Z.of_nat l)) ∧ level_disjoint (files_at v (Z.of_nat l));
}.

(** The levels below the outputs. *)
Definition deeper_levels c : list nat := seq (Z.to_nat (c_level c + 2)) (Z.to_nat NUM_LEVELS - Z.to_nat (c_level c + 2)).

Lemma deeper_levels_range c l : 0 ≤ c_level c → l ∈ deeper_levels c → c_level c + 2 ≤ Z.of_nat l < NUM_LEVELS.
Proof. intros Hc (H1 & H2)%elem_of_seq. unfold NUM_LEVELS in *. lia. Qed.

Lemma base_ok_mono k k' versions c v : ord u k k' ≠ Gt → base_ok k versions c v → base_ok k' versions c v.
Proof.
  intros Hk [B1 B2 B3 B4 B5]. split; try done. intros l Hl. destruct (B5 l Hl) as ((ix & H1 & H2 & H3) & H4). split; [|done]. exists ix.
  split_and!; [done|lia|lia|]. eapply Forall_impl; [exact H3|]. intros f. by apply passed_mono.
Qed.

Lemma is_base_level_ok k versions c v : key_ok u k → base_ok k versions c v →
  ∃ ixs, is_base_level_for M versions k c = Ret (set_level_ixs ixs c, bool_decide (uncovered k v (deeper_levels c))) ∧ base_ok k versions (set_level_ixs ixs c) v.
Proof.
  intros Hk [B1 (l & Hl & Hv) B3 B4 B5]. unfold is_base_level_for. rewrite Hl. cbn [unwrap]. rewrite bind_Ret, Hv. cbn [unwrap]. rewrite bind_Ret.
  destruct (base_levels_ok k v (deeper_levels c) c Hk B1 B3) as (ixs & E' & Hlen & Hm); [|apply NoDup_seq|].
  - apply Forall_forall. intros l' Hl'. apply deeper_levels_range in Hl'; [|done]. destruct (B5 l' Hl') as (H1 & H2 & H3). unfold NUM_LEVELS in Hl'. split_and!; [lia|done..].
  - exists ixs. split; [exact E'|]. split; [done|by exists l|done|done|]. intros l' Hl'. destruct (B5 l' Hl') as (H1 & H2 & H3). split_and!; [by apply Hm|done..].
Qed.

End base.

(** ** [do_compaction_work] decides entry by entry *)

Section scan.
Context `{IEL : IntegerEncodingLaws} `{EN : Env E} {u : Cmp} {UO : OrderedCmp u} {UE : ExactCmp u} (M : Metas) (versions : list Version).
Abbreviation icmp := (InternalKeyCmp u) (only parsing).
Implicit Types (L : list entry) (e : entry) (sc : KeyScan) (cs : CompactionState w_file).

(** The decisions of the loop of [do_compaction_work] over the entries of its input, without
    the iterator that delivers them, the output tables and the errors of both. *)
Fixpoint scan_entries L sc cs : exec (KeyScan * CompactionState w_file * list entry) :=
  match L with
  | [] => Ret (sc, cs, [])
  | e :: L =>
      '(sc, cs, keep) ← keep_entry u M versions e.1 sc cs;
      '(sc, cs, K) ← scan_entries L sc cs;
      Ret (sc, cs, if (keep : bool) then e :: K else K)
  end.

(** What the scan remembers of the entry before. *)
Definition scan_at (prev : option entry) sc : Prop :=
  match prev with
  | None => have_ukey sc = false
  | Some p => have_ukey sc = true ∧ current_ukey sc = ukey_of p.1 ∧ key_ok u (ukey_of p.1) ∧ last_seq_for_key sc = seq_of p.1
  end.

Definition readable_entry e : Prop := key_ok icmp e.1 ∧ 0 < seq_of e.1.

Lemma keep_entry_ok prev e sc cs v : readable_entry e → smallest_seq cs < MAX_SEQUENCE_NUMBER → scan_at prev sc →
  base_ok (u := u) M (ukey_of e.1) versions (cs_compaction cs) v →
  ∃ sc' ixs, keep_entry u M versions e.1 sc cs = Ret (sc', set_compaction (set_level_ixs ixs (cs_compaction cs)) cs,
      negb (bool_decide (shadowed (smallest_seq cs) prev e ∨ vacuous (smallest_seq cs) (λ k, bool_decide (uncovered (u := u) M k v (deeper_levels (cs_compaction cs)))) e)))
    ∧ scan_at (Some e) sc' ∧ base_ok (u := u) M (ukey_of e.1) versions (set_level_ixs ixs (cs_compaction cs)) v.
Proof.
  intros [Hk Hq] Hsm Hsc B. pose proof (ikey_user (u := u) _ Hk) as Hu. unfold keep_entry.
  rewrite parse_internal_key_views, bind_Ret by (by apply (ikey_length (u := u))). rewrite (proj2 (Z.eqb_neq _ _)) by lia.
  set (same := match prev with Some p => bool_decide (ukey_of e.1 = ukey_of p.1) | None => false end).
  assert ((if have_ukey sc then o ← cmp u (ukey_of e.1) (current_ukey sc); Ret (negb (is_eq o)) else Ret true) = Ret (negb same)) as ->.
  { destruct prev as [p|]; cbn in Hsc; [|by rewrite Hsc]. destruct Hsc as (-> & -> & Hp & _). rewrite cmp_ret, bind_Ret by done. do 2 f_equal. unfold same.
    destruct (ord u (ukey_of e.1) (ukey_of p.1)) eqn:Eo; [apply ord_exact in Eo; by rewrite bool_decide_true|..]; rewrite bool_decide_false; [done| |done|]; intros Heq; by rewrite Heq, ord_refl in Eo. }
  rewrite bind_Ret. set (sc1 := if negb same then _ else _).
  assert (have_ukey sc1 = true ∧ current_ukey sc1 = ukey_of e.1) as [Hh Hc].
  { unfold sc1, same. destruct prev as [p|]; [|done]. destruct (bool_decide_reflect (ukey_of e.1 = ukey_of p.1)) as [Heq|]; [|done]. destruct Hsc as (? & ? & _). by rewrite Heq. }
  assert ((last_seq_for_key sc1 <=? smallest_seq cs) = bool_decide (shadowed (smallest_seq cs) prev e)) as ->.
  { unfold sc1, same, shadowed. destruct prev as [p|]; [|by apply Z.leb_gt].
    destruct (bool_decide_reflect (ukey_of e.1 = ukey_of p.1)) as [Heq|Hne]; cbn.
    - destruct Hsc as (_ & _ & _ & ->). destruct (Z.leb_spec (seq_of p.1) (smallest_seq cs)); [by rewrite bool_decide_true|rewrite bool_decide_false; [done|]; intros [_ ?]; lia].
    - rewrite bool_decide_false by (by intros [? _]). apply Z.leb_gt. exact Hsm. }
  set (sc2 := {| last_seq_for_key := seq_of e.1; have_ukey := have_ukey sc1; current_ukey := current_ukey sc1 |}).
  assert (scan_at (Some e) sc2) as Hsc2 by (by split_and!).
  assert (cs = set_compaction (set_level_ixs (level_ixs (cs_compaction cs)) (cs_compaction cs)) cs) as Ecs by (by destruct cs as [[] ? ? ? ?]).
  assert (base_ok (u := u) M (ukey_of e.1) versions (set_level_ixs (level_ixs (cs_compaction cs)) (cs_compaction cs)) v) as B0 by (by destruct (cs_compaction cs)).
  destruct (bool_decide_reflect (shadowed (smallest_seq cs) prev e)) as [Hsh|Hsh].
  { exists sc2, (level_ixs (cs_compaction cs)). rewrite <- Ecs, bool_decide_true by (by left). done. }
  destruct (bool_decide_reflect (typ_of e.1 = TypeDeletion)) as [Ht|Ht]; cbn [andb];
    [destruct (Z.leb_spec (seq_of e.1) (smallest_seq cs)) as [Hle|Hgt]|].
  - destruct (is_base_level_ok (u := u) M _ versions _ v Hu B) as (ixs & -> & B'). rewrite bind_Ret. exists sc2, ixs. split_and!; [|done..|done]. do 3 f_equal.
    apply bool_decide_ext. unfold vacuous. rewrite bool_decide_eq_true. tauto.
  - exists sc2, (level_ixs (cs_compaction cs)). rewrite <- Ecs, bool_decide_false; [done|]. intros [?|(_ & ? & _)]; [done|lia].
  - exists sc2, (level_ixs (cs_compaction cs)). rewrite <- Ecs, bool_decide_false; [done|]. intros [?|(? & _)]; done.
Qed.

Lemma scan_entries_ok prev L sc cs v : Forall readable_entry L → StronglySorted (key_lt (c := icmp)) L → smallest_seq cs < MAX_SEQUENCE_NUMBER → scan_at prev sc →
  (∀ e, hd_error L = Some e → base_ok (u := u) M (ukey_of e.1) versions (cs_compaction cs) v) →
  ∃ sc' ixs, scan_entries L sc cs = Ret (sc', set_compaction (set_level_ixs ixs (cs_compaction cs)) cs,
    kept_entries (smallest_seq cs) (λ k, bool_decide (uncovered (u := u) M k v (deeper_levels (cs_compaction cs)))) prev L).
Proof.
  revert prev sc cs. induction L as [|e L IH]; intros prev sc cs Hr Hs Hsm Hsc B; cbn [scan_entries kept_entries].
  { exists sc, (level_ixs (cs_compaction cs)). by destruct cs as [[] ? ? ? ?]. }
  apply Forall_cons in Hr as [He Hr]. apply StronglySorted_inv in Hs as [Hs Hlt].
  destruct (keep_entry_ok prev e sc cs v He Hsm Hsc (B e eq_refl)) as (sc1 & ixs1 & -> & Hsc1 & B1). rewrite bind_Ret.
  destruct (IH (Some e) sc1 (set_compaction (set_level_ixs ixs1 (cs_compaction cs)) cs) Hr Hs Hsm Hsc1) as (sc2 & ixs2 & -> ).
  { intros e' He'. destruct L as [|e'' L]; [done|]. injection He' as ->. apply Forall_cons in Hlt as [Hlt _]. apply key_lt_ukey in Hlt as [Ho _].
    by eapply base_ok_mono. }
  rewrite bind_Ret. exists sc2, ixs2. f_equal. f_equal. cbn [cs_compaction set_compaction smallest_seq deeper_levels set_level_ixs c_level].
  case_decide as Hd; [by rewrite bool_decide_true|by rewrite bool_decide_false].
Qed.

(** C17: The decisions of a compaction ([keep_entry]), taken for the entries of a sorted input
    one after the other, never panic, and the entries that they keep serve every reader at a
    sequence number not below the [smallest_seq] of the compaction as the input did: it finds
    the same newest entry of a key, or it finds none where it found a deletion, and then no
    file of the levels below the outputs can hold the key.  [smallest_seq] is any number below
    the greatest sequence number: that [start_compaction] hands over the sequence number of
    the oldest snapshot is not claimed, and with snapshots it does not. *)
Theorem compaction_keeps_visible L cs v : Forall readable_entry L → StronglySorted (key_lt (c := icmp)) L → smallest_seq cs < MAX_SEQUENCE_NUMBER →
  (∀ e, hd_error L = Some e → base_ok (u := u) M (ukey_of e.1) versions (cs_compaction cs) v) →
  ∃ sc cs' K, scan_entries L {| last_seq_for_key := MAX_SEQUENCE_NUMBER; have_ukey := false; current_ukey := [] |} cs = Ret (sc, cs', K)
    ∧ K `sublist_of` L
    ∧ ∀ k s, smallest_seq cs ≤ s → newest k s K = newest k s L
        ∨ (newest k s K = None ∧ ∃ e, newest k s L = Some e ∧ typ_of e.1 = TypeDeletion
             ∧ ∀ l f, c_level (cs_compaction cs) + 2 ≤ Z.of_nat l < NUM_LEVELS → f ∈ files_at v (Z.of_nat l) → ¬ covered (u := u) M k f).
Proof.
  intros Hr Hs Hsm B. destruct (scan_entries_ok None L {| last_seq_for_key := MAX_SEQUENCE_NUMBER; have_ukey := false; current_ukey := [] |} cs v Hr Hs Hsm eq_refl B) as (sc & ixs & ->).
  eexists _, _, _. split_and!; [reflexivity|apply kept_sublist|]. intros k s Hks.
  destruct (kept_newest (u := u) (smallest_seq cs) (λ k, bool_decide (uncovered (u := u) M k v (deeper_levels (cs_compaction cs)))) None L k s Hks Hs I) as [H|[H1 (e & H2 & Ht & _ & Hb)]];
    [by left|right].
  split; [done|]. exists e. split_and!; [done|done|]. intros l f Hl Hf. apply bool_decide_eq_true in Hb. unfold uncovered in Hb. rewrite Forall_forall in Hb.
  assert (l ∈ deeper_levels (cs_compaction cs)) as Hl'.
  { apply elem_of_seq. unfold NUM_LEVELS in *. lia. }
  specialize (Hb l Hl'). rewrite Forall_forall in Hb.
  assert (ukey_of e.1 = k) as <-.
  { unfold newest in H2. destruct (filter (sees k s) L) as [|x xs] eqn:Ef; [done|]. injection H2 as ->.
    assert (e ∈ filter (sees k s) L) as Hin by (rewrite Ef; left). by apply list_elem_of_filter in Hin as [[? _] _]. }
  by apply Hb.
Qed.

End scan.

(** ** Witness *)

Module TestCompact.
#[export] Existing Instance Reference.ref_encoding.
#[export] Existing Instance Reference.ref_encoding_laws.
#[export] Instance EN : Env MemFS := MemEnv id.

(** A compaction of level 0 into level 1, with nothing below. *)
Definition compaction : Compaction := Compaction_new TestStorage.uopts 0 (Some 0%nat).
Definition metas : Metas := λ _, FileMetaData_default.

Lemma entries_readable : Forall (readable_entry (u := DefaultCmp)) TestTable.L.
Proof. repeat apply Forall_cons_2; try apply Forall_nil_2; (split; [split_and!; by_decide|by_decide]). Qed.

Lemma levels_ok k : base_ok (u := DefaultCmp) metas k [Version_new DefaultCmp] compaction (Version_new DefaultCmp).
Proof.
  split; [done|by exists 0%nat|done|done|]. intros l Hl. unfold NUM_LEVELS in Hl. cbn in Hl.
  assert (files_at (Version_new DefaultCmp) (Z.of_nat l) = []) as Hf.
  { unfold files_at. rewrite Nat2Z.id. destruct (v_files (Version_new DefaultCmp) !! l) as [fs|] eqn:E'; [|done]. by apply lookup_replicate in E' as [-> _]. }
  unfold level_ix_ok. rewrite Hf. split_and!; [|constructor|constructor]. exists 0. split_and!; [|done|done|constructor]. change (level_ixs compaction) with (replicate 7 0). apply lookup_replicate. split; [done|lia].
Qed.
End TestCompact.

Section witness.
Import TestCompact.

Lemma compaction_keeps_visible_witness :
  let cs : CompactionState w_file := CompactionState_new compaction 4 in
  ∃ sc cs' K, scan_entries (EN := EN) (u := DefaultCmp) metas [Version_new DefaultCmp] TestTable.L
      {| last_seq_for_key := MAX_SEQUENCE_NUMBER; have_ukey := false; current_ukey := [] |} cs = Ret (sc, cs', K)
    ∧ K `sublist_of` TestTable.L
    ∧ ∀ k s, 4 ≤ s → newest k s K = newest k s TestTable.L
        ∨ (newest k s K = None ∧ ∃ e, newest k s TestTable.L = Some e ∧ typ_of e.1 = TypeDeletion
             ∧ ∀ l f, 0 + 2 ≤ Z.of_nat l < NUM_LEVELS → f ∈ files_at (Version_new DefaultCmp) (Z.of_nat l) → ¬ covered (u := DefaultCmp) metas k f).
Proof.
  apply (compaction_keeps_visible (EN := EN) (u := DefaultCmp) metas [Version_new DefaultCmp] TestTable.L
    (CompactionState_new compaction 4) (Version_new DefaultCmp)).
  - exact entries_readable.
  - exact (ie_sorted _ TestTable.L_internal).
  - done.
  - intros e _. apply levels_ok.
Defined.

End witness.
