(* ===== verification/Open.v ===== *)
(** * Open: opening a database

    [DB::open] of [src/db_impl.rs] with what it calls, against the interface of environments:
    the information log, the lock, a new database or the recovery of one that is there, the log,
    the manifest, and the files that are deleted at the end. *)

From Stdlib Require Import Ascii SpecFloat.
From S2P Require Import Prelude Encoding Error Io Env BufWriter MemEnv Types Cmp KeyTypes Log Iterator SkipMap MemTable WriteBatch Filter FilterBlock Options BlockBuilder Block Cache TableBuilder Table TableFile TableRead TableCache Version VersionEdit Snapshot MergingIter VersionSet Builder Manifest Recover Tables DbImpl Wal.

Section obsolete.
Context `{IEL : IntegerEncodingLaws} `{EL : EnvLaws E} `{RG : Rng G}.
Implicit Types (s : World E ra_file * DB G w_file) (vs : VersionSet w_file) (files : gset Z).

(** ** [delete_obsolete_files] *)

(** The files that are not needed any more, when [files] are the tables of the version. *)
Definition obsolete files vs (name : string) : Prop :=
  match parse_file_name name with
  | Ok (n, Types.Log) => n < log_num vs
  | Ok (n, Descriptor) => n < manifest_num vs
  | Ok (n, Types.Table) | Ok (n, Temp) => n ∉ files
  | _ => False
  end.
#[export] Instance obsolete_dec files vs name : Decision (obsolete files vs name).
Proof. unfold obsolete. destruct (parse_file_name name) as [[n []]|]; apply _. Defined.

(** The numbers of the obsolete tables among the names, and the table cache without them. *)
Definition table_number (name : string) : option Z := match parse_file_name name with Ok (n, Types.Table) => Some n | _ => None end.
Definition evicted files vs (names : list string) : list Z := omap table_number (filter (obsolete files vs) names).
Definition evict_all (ns : list Z) (c : Cache (Table ra_file)) : exec (Cache (Table ra_file)) :=
  mfoldl (λ c n, '(c, _) ← cache_remove (filenum_to_key n) c; Ret c) c ns.

(** The storage with another environment and another table cache. *)
Definition cleaned (e : E) (c : Cache (Table ra_file)) s : World E ra_file * DB G w_file := (set_storage (with_env e (with_cache c (w_storage s.1))) s.1, s.2).
Definition table_cache s : Cache (Table ra_file) := tc_cache (st_tables (w_storage s.1)).

Lemma cleaned_same s : cleaned (w_env s.1) (table_cache s) s = s.
Proof. by destruct s as [[[? ? []] ? ? ?] ?]. Qed.

(** The cache holds the others afterwards. *)
Lemma evict_all_held ns : ∀ c C, cache_held c C →
  ∃ c', evict_all ns c = Ret c' ∧ cache_held c' (filter (λ kt, kt.1 ∉ filenum_to_key <$> ns) C) ∧ c_cap c' = c_cap c.
Proof.
  induction ns as [|n ns IH]; intros c C H; unfold evict_all; cbn [mfoldl].
  { exists c. split_and!; [done| |done]. rewrite list_filter_all; [done|]. apply Forall_forall. intros kt _. apply not_elem_of_nil. }
  destruct (cache_remove_held c C (filenum_to_key n) H) as (c1 & -> & H1 & E1 & _). rewrite !bind_Ret. destruct (IH c1 _ H1) as (c2 & E2 & H2 & Ec). exists c2. split_and!; [done| |congruence].
  unfold lru_drop in H2. rewrite list_filter_filter in H2. rewrite (list_filter_iff _ (λ kt, kt.1 ∉ filenum_to_key <$> ns ∧ kt.1 ≠ filenum_to_key n)); [done|].
  intros kt. rewrite fmap_cons, not_elem_of_cons. tauto.
Qed.

(** The table cache has none of the tables but [files]. *)
Definition uncached files s : Prop := ∀ n, is_u 64 n → n ∉ files → c_map (table_cache s) !! filenum_to_key n = None.

Lemma evicted_parse files vs names n : n ∈ evicted files vs names → is_u 64 n ∧ n ∉ files.
Proof.
  unfold evicted. intros (name & [Ho _]%list_elem_of_filter & Hn)%list_elem_of_omap. unfold table_number, obsolete in *. destruct (parse_file_name name) as [[n' []]|] eqn:Ep; try done.
  injection Hn as ->. split; [by eapply parse_file_num|done].
Qed.

Lemma evict_all_uncached files s names : uncached files s → evict_all (evicted files (db_vset s.2) names) (table_cache s) = Ret (table_cache s).
Proof.
  intros Hu. pose proof (evicted_parse files (db_vset s.2) names) as Hn. induction (evicted files (db_vset s.2) names) as [|n ns IH]; [done|]. unfold evict_all. cbn [mfoldl].
  destruct (Hn n ltac:(left)) as [H1 H2]. unfold cache_remove. rewrite (Hu n H1 H2), !bind_Ret. apply IH. intros n' Hin. apply Hn. by right.
Qed.

Lemma delete_path_ok p s : env_ok (w_env s.1) →
  ∃ e' r, on_env (env_delete p) s = Ret ((set_env e' s.1, s.2), r) ∧ kept [p] (w_env s.1) e' ∧ contents e' = delete p (contents (w_env s.1)).
Proof.
  intros He. destruct s as [w db]. unfold on_env. cbn [fst snd] in *. destruct (contents (w_env w) !! p) as [b|] eqn:Hb.
  - destruct (delete_law p (w_env w) He) as (e' & -> & K & C); [by eexists|]. rewrite bind_Ret. by exists e', (Ok ()).
  - destruct (delete_missing p (w_env w) He Hb) as (e' & r & -> & K & C). rewrite bind_Ret. exists e', (Err r). split_and!; [done|by eapply kept_weaken, list_subseteq_nil|].
    by rewrite C, delete_id.
Qed.

Lemma delete_obsolete_ok files name s c' : env_ok (w_env s.1) → evict_all (evicted files (db_vset s.2) [name]) (table_cache s) = Ret c' →
  let ps := if decide (obsolete files (db_vset s.2) name) then [path_join (db_path s.2) name] else [] in
  ∃ e', delete_obsolete files name s = Ret (cleaned e' c' s) ∧ kept ps (w_env s.1) e'
    ∧ ∀ p, contents e' !! p = if decide (p ∈ ps) then None else contents (w_env s.1) !! p.
Proof.
  intros He Hu ps. unfold delete_obsolete. unfold evicted in Hu. rewrite filter_cons, filter_nil in Hu. destruct (decide (obsolete files (db_vset s.2) name)) as [Ho|Ho]; unfold ps; clear ps.
  - cbn [omap list_omap] in Hu. unfold table_number in Hu. unfold obsolete in Ho. destruct (parse_file_name name) as [[n typ]|x] eqn:Ep; [|done].
    assert ((match typ with Types.Log => log_num (db_vset s.2) <=? n | Descriptor => manifest_num (db_vset s.2) <=? n | Types.Table | Temp => bool_decide (n ∈ files)
      | Current | DBLock | InfoLog => true end) = false) as -> by (destruct typ; try done; apply Z.leb_gt || apply bool_decide_eq_false; done).
    assert ((if decide (typ = Types.Table) then '(s, _) ← on_storage (evict n) s; Ret s else Ret s) = Ret (cleaned (w_env s.1) c' s)) as ->.
    { case_decide as Ht.
      - subst typ. unfold evict_all in Hu. cbn [mfoldl] in Hu. destruct s as [w db]. unfold on_storage, evict. unfold table_cache in Hu. cbn [fst snd] in *.
        destruct (cache_remove _ _) as [[c1 r]| |]; [|done..]. rewrite !bind_Ret in Hu. injection Hu as ->. rewrite !bind_Ret. done.
      - assert (c' = table_cache s) as ->; [|by rewrite cleaned_same]. destruct typ; try done; by injection Hu. }
    rewrite bind_Ret. destruct (delete_path_ok (path_join (db_path s.2) name) (cleaned (w_env s.1) c' s) He) as (e' & r & E' & K & C). exists e'.
    change (db_path (cleaned (w_env s.1) c' s).2) with (db_path s.2). rewrite E', bind_Ret. split_and!; [done..|]. intros p. rewrite C. change (w_env (cleaned (w_env s.1) c' s).1) with (w_env s.1).
    case_decide as Hin; [apply list_elem_of_singleton in Hin as ->; apply lookup_delete_eq|]. rewrite lookup_delete_ne; [done|]. set_solver.
  - injection Hu as <-. exists (w_env s.1). rewrite cleaned_same. split_and!; [|by apply kept_refl|intros p; by rewrite decide_False by apply not_elem_of_nil].
    unfold obsolete in Ho. destruct (parse_file_name name) as [[n typ]|x]; [|done].
    assert ((match typ with Types.Log => log_num (db_vset s.2) <=? n | Descriptor => manifest_num (db_vset s.2) <=? n | Types.Table | Temp => bool_decide (n ∈ files)
      | Current | DBLock | InfoLog => true end) = true) as ->; [|done]. destruct typ; try done; [apply Z.leb_le; lia|..|apply Z.leb_le; lia|]; apply bool_decide_eq_true; by apply dec_stable.
Qed.

Lemma evicted_cons files vs name names : evicted files vs (name :: names) = evicted files vs [name] ++ evicted files vs names.
Proof. unfold evicted. rewrite !filter_cons, filter_nil. destruct (decide _); cbn [omap list_omap]; [by destruct (table_number name)|done]. Qed.

Lemma delete_names_evict files names : ∀ s c', env_ok (w_env s.1) → evict_all (evicted files (db_vset s.2) names) (table_cache s) = Ret c' →
  let ps := path_join (db_path s.2) <$> filter (obsolete files (db_vset s.2)) names in
  ∃ e', mfoldl (λ s name, delete_obsolete files name s) s names = Ret (cleaned e' c' s) ∧ kept ps (w_env s.1) e'
    ∧ ∀ p, contents e' !! p = if decide (p ∈ ps) then None else contents (w_env s.1) !! p.
Proof.
  induction names as [|name names IH]; intros s c' He Hu ps; cbn [mfoldl].
  { injection Hu as <-. exists (w_env s.1). split_and!; [by rewrite cleaned_same|by apply kept_refl|]. intros p. by rewrite decide_False by apply not_elem_of_nil. }
  rewrite evicted_cons in Hu. unfold evict_all in Hu. rewrite mfoldl_app in Hu. exec_inv Hu.
  destruct (delete_obsolete_ok files name s r He Hm) as (e1 & -> & K1 & C1). rewrite bind_Ret.
  destruct (IH (cleaned e1 r s) c' (proj1 K1) Hk) as (e2 & -> & K2 & C2). exists e2. cbn [fst snd] in *. change (w_env (cleaned e1 r s).1) with e1 in *. change (db_path (cleaned e1 r s).2) with (db_path s.2) in *. change (db_vset (cleaned e1 r s).2) with (db_vset s.2) in *.
  unfold ps. rewrite filter_cons. split_and!; [done| |].
  - case_decide; rewrite ?fmap_cons; (eapply kept_trans; [exact K1|exact K2|..]); set_solver.
  - intros p. rewrite C2, C1. repeat case_decide; try done; set_solver.
Qed.

(** Nothing is evicted when no obsolete table is open. *)
Lemma delete_names_ok files names s : env_ok (w_env s.1) → uncached files s →
  let ps := path_join (db_path s.2) <$> filter (obsolete files (db_vset s.2)) names in
  ∃ e', mfoldl (λ s name, delete_obsolete files name s) s names = Ret (set_env e' s.1, s.2) ∧ kept ps (w_env s.1) e'
    ∧ ∀ p, contents e' !! p = if decide (p ∈ ps) then None else contents (w_env s.1) !! p.
Proof.
  intros He Hu ps. destruct (delete_names_evict files names s _ He (evict_all_uncached files s names Hu)) as (e' & E' & H). exists e'. split; [|done]. rewrite E'. by destruct s as [[[? ? []] ? ? ?] ?].
Qed.

(** The tables [C] are open. *)
Record tables_open (opt : Options) (st : Storage E ra_file) (db : string) (C : list (CacheKey * Table ra_file)) : Prop := {
  to_db : tc_dbname (st_tables st) = db;
  to_opts : tc_opts (st_tables st) = opt;
  to_cache : cache_inv (tc_cache (st_tables st)) C;
}.

(** Only tables of the version that the edits [es] give are open. *)
Definition cached_tables s (es : list VersionEdit) : Prop :=
  ∃ C, tables_open (db_opt s.2) (w_storage s.1) (db_path s.2) C ∧ ∀ k t, (k, t) ∈ C → ∃ n, k = filenum_to_key n ∧ n ∈ numbers (files_of es).

(** Other environments, and databases at the same path. *)
Lemma cached_env s s' es e' : cached_tables s es → w_storage s'.1 = with_env e' (w_storage s.1) → db_opt s'.2 = db_opt s.2 → db_path s'.2 = db_path s.2 → cached_tables s' es.
Proof. intros (C & [T1 T2 T3] & HC) E1 E2 E3. exists C. split; [|done]. by split; rewrite E1, ?E2, ?E3. Qed.

Lemma cached_uncached {u} {UO : OrderedCmp u} s es : cached_tables s es → map_ok (u := u) (files_of es) → uncached (numbers (files_of es)) s.
Proof.
  intros (C & [T1 T2 T3] & HC) Hm n H64 Hnin. unfold table_cache. destruct (c_map _ !! filenum_to_key n) as [[t p]|] eqn:Et; [|done]. exfalso.
  destruct T3 as (N & -> & _ & Em & Hnd & _). rewrite Em, bindings_lookup in Et by done.
  destruct (HC (filenum_to_key n) t) as (n' & En & Hn'); [apply list_elem_of_fmap; by exists (p, (filenum_to_key n, t))|].
  apply filenum_to_key_inj in En as ->; [done|done|by eapply numbers_u64].
Qed.

(** C11: [delete_obsolete_files] deletes the files of the directory that are obsolete (logs and
    manifests before the current ones, tables and temporary files that the version does not
    name), and nothing else: every other path keeps its contents, and every open file on it
    stays good.  The obsolete tables are evicted from the table cache and the other open tables
    stay in it; nothing else of the database changes.  This is so whether or not the tail
    pointer of the cache's list is good; evicting the least recently used of several tables
    leaves it at the dropped node (see [cache_remove_dangles]). *)
Theorem delete_obsolete_exact s files names C : env_ok (w_env s.1) → cache_held (table_cache s) C → live_files s.1 (db_vset s.2) = Ret files →
  env_children (db_path s.2) (w_env s.1) = Ret (Ok names) →
  let ps := path_join (db_path s.2) <$> filter (obsolete files (db_vset s.2)) names in
  ∃ e' c', delete_obsolete_files s = Ret (cleaned e' c' s, Ok ()) ∧ kept ps (w_env s.1) e'
    ∧ (∀ p, contents e' !! p = if decide (p ∈ ps) then None else contents (w_env s.1) !! p)
    ∧ cache_held c' (filter (λ kt, kt.1 ∉ filenum_to_key <$> evicted files (db_vset s.2) names) C) ∧ c_cap c' = c_cap (table_cache s).
Proof.
  intros He HC Hf Hn ps. destruct (evict_all_held (evicted files (db_vset s.2) names) _ _ HC) as (c' & Ec & Hc & Hcap).
  destruct (delete_names_evict files names s c' He Ec) as (e' & E' & K & C'). exists e', c'. split_and!; [|done..].
  unfold delete_obsolete_files. destruct s as [w db]. cbn [fst snd] in *. by rewrite Hf, bind_Ret, Hn, bind_Ret, E'.
Qed.

End obsolete.

(** ** Before the recovery *)

Section new.
Context {IE : IntegerEncoding} `{EL : EnvLaws E} `{RG : Rng G} (canonicalize : string → option string).
Abbreviation state := (World E ra_file * DB G w_file)%type (only parsing).
Implicit Types (s : World E ra_file * DB G w_file) (e : E).

Definition info_paths (db : string) : list string := [path_join db "LOG"; path_join db "LOG.old"].

Lemma open_info_log_ok db e : env_ok e →
  ∃ e' lg, open_info_log db e = Ret (e', lg) ∧ kept (info_paths db) e e' ∧ ∀ p, p ∉ info_paths db → contents e' !! p = contents e !! p.
Proof.
  intros He. unfold open_info_log, info_paths. set (p := path_join db "LOG"). set (q := path_join db "LOG.old").
  destruct (mkdir_law db e He) as (e1 & r1 & -> & K1 & C1). rewrite bind_Ret. rewrite (exists_law p e1 (proj1 K1)), bind_Ret.
  assert (∃ e2, (match (Ok (bool_decide (is_Some (contents e1 !! p))) : Result bool) with Ok true => '(e, _) ← env_rename p q e1; Ret e | _ => Ret e1 end) = Ret e2
    ∧ kept [p; q] e1 e2 ∧ ∀ x, x ∉ [p; q] → contents e2 !! x = contents e1 !! x) as (e2 & -> & K2 & C2).
  { destruct (bool_decide_reflect (is_Some (contents e1 !! p))) as [[b Hb]|Hb].
    - destruct (rename_law p q e1 b (proj1 K1) Hb) as (e2 & -> & K2 & C2). rewrite bind_Ret. exists e2. split_and!; [done..|]. intros x Hx.
      rewrite C2, lookup_insert_ne, lookup_delete_ne by set_solver. done.
    - exists e1. split_and!; [done|apply kept_refl, K1|done]. }
  rewrite bind_Ret. destruct (open_writable_law p e2 (proj1 K2)) as (e3 & f & -> & K3 & C3 & _). rewrite bind_Ret. eexists e3, _. split_and!; [done|..].
  - eapply kept_trans; [exact K1| |set_solver|done]. eapply kept_trans; [exact K2|exact K3|set_solver..].
  - intros x Hx. rewrite C3, lookup_insert_ne, C2, C1 by set_solver. done.
Qed.

(** What [DB::new] makes. *)
Definition new_state (name : string) (opt : Options) (blocks : Cache Block) e : state :=
  ({| w_storage := {| st_env := e; st_blocks := blocks;
        st_tables := {| tc_dbname := name; tc_cache := {| c_list := LRUList_new; c_map := ∅; c_cap := max_open_files opt - 10; c_id := 0 |}; tc_opts := opt |} |};
      w_metas := λ _, FileMetaData_default; w_fresh := 0; w_versions := [Version_new (o_cmp opt)] |},
   {| db_name := name; db_path := name; db_lock := None; db_opt := opt; db_mem := MemTable_new (o_cmp opt); db_imm := None; db_log := None; db_log_num := None;
      db_vset := {| vs_dbname := name; vs_opt := opt; next_file_num := 2; manifest_num := 0; vs_last_seq := 0; log_num := 0; prev_log_num := 0; vs_current := Some 0%nat;
        vs_compaction_ptrs := replicate (Z.to_nat NUM_LEVELS) []; descriptor_log := None |};
      db_snaps := SnapshotList_new; db_cstats := replicate (Z.to_nat NUM_LEVELS) CompactionStats_default |}).

Lemma DB_new_ok name opt (has_log : bool) blocks e : env_ok e → default name (canonicalize name) = name → 10 < max_open_files opt →
  ∃ e', DB_new canonicalize name opt has_log blocks e = Ret (new_state name opt blocks e') ∧ kept (info_paths name) e e'
    ∧ ∀ p, p ∉ info_paths name → contents e' !! p = contents e !! p.
Proof.
  intros He Hc Hm. unfold DB_new.
  assert (∃ e', (if has_log then Ret e else '(e, _) ← open_info_log name e; Ret e) = Ret e' ∧ kept (info_paths name) e e'
    ∧ ∀ p, p ∉ info_paths name → contents e' !! p = contents e !! p) as (e' & -> & K & C).
  { destruct has_log; [exists e; split_and!; [done|by apply kept_refl|done]|].
    destruct (open_info_log_ok name e He) as (e' & lg & -> & K & C). rewrite bind_Ret. by exists e'. }
  exists e'. rewrite bind_Ret, usub_Ret, bind_Ret by lia. unfold TableCache_new, Cache_new. rewrite (proj2 (Z.ltb_lt 0 (max_open_files opt - 10))) by lia. rewrite Hc.
  split_and!; [done..|]. exact C.
Qed.

(** ** Taking the lock *)

Lemma acquire_lock_ok s : env_ok (w_env s.1) → ¬ locked (w_env s.1) (lock_file_name (db_path s.2)) →
  ∃ e' l, acquire_lock s = Ret ((set_env e' s.1, set_lock (Some l) s.2), Ok ()) ∧ kept [lock_file_name (db_path s.2)] (w_env s.1) e'
    ∧ (∀ p, p ≠ lock_file_name (db_path s.2) → contents e' !! p = contents (w_env s.1) !! p)
    ∧ lock_id l = lock_file_name (db_path s.2) ∧ locked e' (lock_file_name (db_path s.2)).
Proof.
  intros He Hl. unfold acquire_lock. destruct s as [w db]. cbn [fst snd] in *. destruct (lock_law _ _ He Hl) as (e' & l & -> & K & C & Hid' & Hl'). rewrite bind_Ret.
  exists e', l. split_and!; [done..| |done|done]. intros p Hp. by rewrite C, lookup_insert_ne.
Qed.

Lemma acquire_lock_held s : env_ok (w_env s.1) → locked (w_env s.1) (lock_file_name (db_path s.2)) →
  ∃ e', acquire_lock s = Ret ((set_env e' s.1, s.2), err LockError "database lock is held by another instance") ∧ kept [] (w_env s.1) e' ∧ contents e' = contents (w_env s.1).
Proof.
  intros He Hl. unfold acquire_lock. destruct s as [w db]. cbn [fst snd] in *. destruct (lock_held _ _ He Hl) as (e' & x & -> & K & C & Hx). rewrite bind_Ret.
  exists e'. rewrite decide_True by done. done.
Qed.

End new.

(** ** A new database *)

Section open.
Context `{IEL : IntegerEncodingLaws} `{CRL : Crc32Laws} `{EL : EnvLaws E} `{RG : Rng G}.
Context (debug_bytes : bytes → string) (order : gset (Z * Z) → list (Z * Z)) (order_ok : ∀ s, order s ≡ₚ elements s) (micros : E → exec (E * Z))
  (canonicalize : string → option string) (debug_path : string → string) {FW : FixedIntWriter (E * BufWriter w_file)}.
Context {u : Cmp} {UO : OrderedCmp u} {UE : ExactCmp u} (Hid : utf8_valid (string_bytes (cmp_id u)) = true ∧ key_fits (string_bytes (cmp_id u))).
Abbreviation state := (World E ra_file * DB G w_file)%type (only parsing).
Implicit Types (s : World E ra_file * DB G w_file) (vs : VersionSet w_file) (e : E).

Definition init_edit : VersionEdit := set_last_seq 0 (set_next_file 2 (set_log_num 0 (set_comparator_name (cmp_id u) VersionEdit_new))).

Lemma init_edit_record : edit_record (encode_with (order (deleted init_edit)) init_edit) init_edit.
Proof.
  apply (edit_record_encode order init_edit order_ok); [|left; by eexists]. unfold edit_ok.
  change (items _ _) with [IComparator (cmp_id u); ILogNumber 0; INextFile 2; ILastSeq 0]. repeat constructor; done || apply Hid.
Qed.

Lemma init_files : files_of [init_edit] = ∅.
Proof. reflexivity. Qed.

Lemma init_history : history_ok (u := u) [init_edit].
Proof.
  split.
  - split_and!; [constructor|constructor|done].
  - constructor; [|constructor]. split; [exact (Forall_nil_2 _)|intros x Hx; by apply elem_of_empty in Hx|exact (Forall_nil_2 _)].
  - repeat constructor.
  - rewrite init_files. split; [intros l n d H; by apply lookup_empty_Some in H|intros l n d n' d' H; by apply lookup_empty_Some in H|by_decide].
  - repeat constructor.
Qed.

(** The paths [initialize_db] writes to. *)
Definition init_paths (db : string) : list string := [manifest_file_name db 1; temp_file_name db 1; current_file_name db].

Lemma initialize_db_ok s : env_ok (w_env s.1) → o_cmp (db_opt s.2) = u →
  ∃ e', initialize_db order s = Ret ((set_env e' s.1, s.2), Ok ()) ∧ kept (init_paths (db_path s.2)) (w_env s.1) e' ∧ manifest e' (db_path s.2) 1 [init_edit]
    ∧ ∀ p, p ∉ init_paths (db_path s.2) → contents e' !! p = contents (w_env s.1) !! p.
Proof.
  intros He Hu. destruct s as [w db]. cbn [fst snd] in *. unfold initialize_db, init_paths. cbn [fst snd]. rewrite Hu. fold init_edit. set (p := manifest_file_name (db_path db) 1).
  unfold on_env at 1. destruct (open_writable_law p (w_env w) He) as (e1 & f & -> & K1 & C1 & A1). rewrite bind_Ret, sbind_Ok. cbn [fst snd]. change (w_env (set_env e1 w)) with e1.
  assert (log_writer (RW := env_writer e1 p) (log_in (LogWriter_new f) e1) []) as L1.
  { apply (log_writer_new (RW := env_writer e1 p) (e1, f)); [|cbn; by rewrite C1, lookup_insert_eq]. cbn. split_and!; [apply kept_refl, K1|done|].
    exists []. by rewrite C1, insert_insert_eq. }
  destruct init_edit_record as [Hne Hdec]. set (rec := encode_with (order (deleted init_edit)) init_edit) in *.
  destruct (log_writer_add (RW := env_writer e1 p) _ _ rec L1 Hne) as (lw2 & m & -> & L2). rewrite bind_Ret.
  pose proof (log_writer_rebase _ _ _ _ L2) as Hb. destruct (log_out lw2) as [e2 lw3]. destruct Hb as (L3 & K2 & b2 & C2 & _).
  change (w_env (set_env e2 (set_env e1 w))) with e2.
  destruct (log_writer_flush (RW := env_writer e2 p) _ _ L3) as (lw4 & -> & L4). rewrite bind_Ret.
  pose proof (log_writer_rebase _ _ _ _ L4) as Hb. destruct (log_out lw4) as [e3 lw5]. destruct Hb as (L5 & K3 & b3 & C3 & Hl).
  unfold on_env. change (w_env (set_env e3 (set_env e2 (set_env e1 w)))) with e3.
  destruct (set_current_file_ok (db_path db) 1 e3 (proj1 K3)) as (e4 & -> & K4 & C4); [by_decide|]. rewrite bind_Ret.
  destruct (paths_differ (db_path db) 1 1) as (P1 & P2 & P3); [by_decide..|]. fold p in P1, P3.
  exists e4. split_and!; [done|..].
  - eapply kept_trans; [exact K1| |set_solver|done]. eapply kept_trans; [exact K2| |set_solver|done]. eapply kept_trans; [exact K3|exact K4|set_solver..].
  - split; [by rewrite C4, lookup_insert_eq|]. exists b3, [rec]. split_and!; [|exact Hl|by repeat constructor].
    fold p. rewrite C4, lookup_insert_ne, lookup_delete_ne, C3, lookup_insert_eq by done. done.
  - intros q Hq. rewrite C4, lookup_insert_ne, lookup_delete_ne, C3, lookup_insert_ne, C2, lookup_insert_ne, C1, lookup_insert_ne by set_solver. done.
Qed.

(** ** A database without tables *)

Lemma represents_empty (M : Metas) fresh (v : Version) : represents (u := u) M fresh v ∅ → v_files v = replicate (Z.to_nat NUM_LEVELS) [].
Proof.
  intros [_ Hl Hf _]. symmetry. apply replicate_as_Forall. split; [done|]. apply Forall_lookup. intros l fs Hfs. destruct fs as [|f fs]; [done|]. exfalso.
  assert ((∅ : filemap) !! (Z.of_nat l, num (M f)) = Some (core (M f))) as Hx; [|by rewrite lookup_empty in Hx].
  apply (lf_files _ _ _ _ (Hf l _ Hfs)). exists f. split; [left|done].
Qed.

(** The logs to replay among the names of the directory. *)
Definition replayed_log vs (name : string) : option Z :=
  match parse_file_name name with
  | Ok (n, Types.Log) => if (log_num vs <=? n) || (n =? prev_log_num vs) then Some n else None
  | _ => None
  end.

(** What [scan_names] leaves of the expected files: those without a name. *)
Lemma scan_names_ok vs names : ∀ X logs, Forall (λ name, ∃ x, parse_file_name name = Ok x) names →
  ∃ X', scan_names debug_path vs names X logs = Ok (X', logs ++ omap (replayed_log vs) names)
    ∧ ∀ k, k ∈ X' → k ∈ X ∧ ∀ name typ, name ∈ names → parse_file_name name ≠ Ok (k, typ).
Proof.
  induction names as [|name names IH]; intros X logs Hp; cbn [scan_names]; [exists X; rewrite app_nil_r; split; [done|]; intros k Hk; split; [done|]; by intros ? ? ?%elem_of_nil|].
  apply Forall_cons in Hp as [[[n typ] Hp] Hps]. rewrite Hp.
  destruct (IH (X ∖ {[n]}) (if bool_decide (typ = Types.Log) && ((log_num vs <=? n) || (n =? prev_log_num vs)) then logs ++ [n] else logs) Hps) as (X' & -> & HX).
  exists X'. split.
  - f_equal. f_equal. cbn [omap list_omap]. unfold replayed_log at 2. rewrite Hp.
    destruct typ; try (rewrite bool_decide_false by done; done). rewrite bool_decide_true by done. cbn [andb]. destruct (_ || _); [by rewrite <- app_assoc|done].
  - intros k [Hk Hno]%HX. split; [set_solver|]. intros name' typ' [->|Hin]%elem_of_cons; [|by apply Hno]. rewrite Hp. intros [= -> _]. set_solver.
Qed.

(** ** What is on disk *)

(** A name of the directory: its log is not replayed, unless it is number [n]. *)
Definition good_name (c : counters) (n : Z) (name : string) : Prop :=
  ∃ k typ, parse_file_name name = Ok (k, typ) ∧ (typ = Types.Log → cn_log c ≤ k ∨ k = default 0 (cn_prev c) → name = log_base n).

(** The directory [db] holds a database whose manifest, number [mn], has the edits [es] with the
    counters [c]; the tables that they give are there, and there is at most one log to replay,
    number [n].  No file number is larger than [top]. *)
Record disk e (db : string) (mn : Z) (es : list VersionEdit) (c : counters) (n top : Z) : Prop := {
  dk_manifest : manifest e db mn es;
  dk_num : is_u 64 mn;
  dk_history : history_ok (u := u) es;
  dk_tables k : k ∈ numbers (files_of es) → is_Some (contents e !! path_join db (table_base k));
  dk_used k : k ∈ keys_used es → 0 ≤ k.2 < cn_next c;
  dk_counters : counters_of es = Some c;
  dk_log : 0 ≤ cn_log c ≤ n ∧ n ≤ top ∧ top < 2 ^ 64 - 1;
  dk_next : cn_log c ≤ cn_next c ≤ top ∧ 0 ≤ default 0 (cn_prev c) ≤ top;
  dk_names name : is_Some (contents e !! path_join db name) → good_name c n name;
}.

Lemma disk_n e db mn es c n top : disk e db mn es c n top → is_u 64 n.
Proof. intros D. pose proof (dk_log _ _ _ _ _ _ _ D). unfold is_u. lia. Qed.

Lemma log_base_parse n : is_u 64 n → parse_file_name (log_base n) = Ok (n, Types.Log).
Proof.
  intros Hn. unfold log_base. change ".log"%string with (String "."%char "log"). by rewrite (parse_numbered _ _ n (fmt06_all n Hn) (fmt06_nonempty n) (fmt06_parse n Hn)).
Qed.

(** The log is at none of the other paths. *)
Lemma log_path_differs db n name k typ : is_u 64 n → parse_file_name name = Ok (k, typ) → typ ≠ Types.Log → log_file_name db n ≠ path_join db name.
Proof. intros Hn Hp Ht E'%path_join_inj. rewrite <- E', log_base_parse in Hp by done. by injection Hp. Qed.

Lemma disk_logs e db mn es c n top vs names : disk e db mn es c n top → log_num vs = cn_log c → prev_log_num vs = default 0 (cn_prev c) →
  NoDup names → (∀ name, name ∈ names ↔ is_Some (contents e !! path_join db name)) →
  Forall (λ name, ∃ x, parse_file_name name = Ok x) names ∧ omap (replayed_log vs) names = if decide (is_Some (contents e !! log_file_name db n)) then [n] else [].
Proof.
  intros D Hl Hp Hnd Hn. split.
  { apply Forall_forall. intros name Hin%Hn. destruct (dk_names _ _ _ _ _ _ _ D name Hin) as (k & typ & Ep & _). by eexists. }
  pose proof (log_base_parse n (disk_n _ _ _ _ _ _ _ D)) as Hpn.
  assert (∀ names', NoDup names' → names' ⊆ names → omap (replayed_log vs) names' = if decide (log_base n ∈ names') then [n] else []) as H.
  { induction 1 as [|name names' Hnin Hnd' IH]; intros Hsub; [done|]. cbn [omap list_omap]. rewrite IH by set_solver.
    destruct (decide (name = log_base n)) as [->|Hne].
    - assert (replayed_log vs (log_base n) = Some n) as ->.
      { unfold replayed_log. rewrite Hpn, Hl, (proj2 (Z.leb_le _ _)); [done|]. apply (dk_log _ _ _ _ _ _ _ D). }
      rewrite decide_False by done. rewrite decide_True by set_solver. done.
    - assert (replayed_log vs name = None) as ->.
      { unfold replayed_log. destruct (dk_names _ _ _ _ _ _ _ D name) as (k & typ & -> & Hk); [apply Hn; set_solver|]. destruct typ; try done.
        rewrite Hl, Hp. destruct (Z.leb_spec (cn_log c) k); [by destruct Hne; apply Hk; auto|]. destruct (Z.eqb_spec k (default 0 (cn_prev c))); [by destruct Hne; apply Hk; auto|done]. }
      repeat case_decide; try done; set_solver. }
  rewrite (H names Hnd) by done. unfold log_file_name. specialize (Hn (log_base n)). repeat case_decide; tauto.
Qed.

(** The log number [n] has the batches [Bs]. *)
Definition logged e (db : string) (n base : Z) (Bs : list (list op)) : Prop :=
  match contents e !! log_file_name db n with Some b => ∃ recs, is_log b recs ∧ wal_records (base + 1) recs Bs | None => Bs = [] end.

(** The directory [db] holds a database with the batches [Bs] on top of the sequence number
    [base]. *)
Record image e (db : string) (base : Z) (Bs : list (list op)) (mn : Z) (es : list VersionEdit) (c : counters) (n top : Z) : Prop := {
  im_disk : disk e db mn es c n top;
  im_seq : 0 ≤ base ≤ cn_seq c ∧ cn_seq c ≤ base + zlen (concat Bs) < 2 ^ 56;
  im_ops : Forall (op_ok (u := u)) (concat Bs);
  im_log : logged e db n base Bs;
}.

(** ** Replaying the log *)

(** After the log number [n], if there is one. *)
Definition replay_state e' mt (lo : option (LogWriter (BufWriter w_file))) (n : Z) s : state :=
  match lo with
  | Some lw => let s1 := after_replay e' mt lw n s in (s1.1, set_vset (set_next_file_num (Z.max (next_file_num (db_vset s.2)) (n + 1)) (db_vset s.2)) s1.2)
  | None => s
  end.

Lemma replay_ok fuel rfuel mfuel s save ve base Bs n mt : let p := log_file_name (db_path s.2) n in
  env_ok (w_env s.1) → o_cmp (db_opt s.2) = u → db_log s.2 = None → reuse_logs (db_opt s.2) = true →
  logged (w_env s.1) (db_path s.2) n base Bs → 0 ≤ base → base + zlen (concat Bs) < 2 ^ 56 → 0 ≤ n < 2 ^ 64 - 1 →
  memtable_adds (mentries (base + 1) (concat Bs)) (MemTable_new u) = Ret mt → approx_mem_usage mt ≤ write_buffer_size (db_opt s.2) →
  (∀ b, contents (w_env s.1) !! p = Some b → length b < fuel ∧ 2 * length b + 2 ≤ rfuel)%nat →
  ∃ e' lo, replay_logs debug_bytes micros fuel rfuel mfuel (if decide (is_Some (contents (w_env s.1) !! p)) then [n] else []) (save, 0, ve) s
      = Ret (replay_state e' mt lo n s, Ok (save, if decide (Bs = []) then 0 else base + zlen (concat Bs), ve))
    ∧ kept [p] (w_env s.1) e' ∧ contents e' = contents (w_env s.1)
    ∧ match lo with Some lw => ∃ recs, wal_writer e' p lw recs ∧ wal_records (base + 1) recs Bs | None => Bs = [] ∧ e' = w_env s.1 ∧ contents e' !! p = None end.
Proof.
  intros p He Hu Hlog Hr Hl H0 Hb Hn Hmt Ha Hf. unfold logged in Hl. fold p in Hl. destruct (contents (w_env s.1) !! p) as [b|] eqn:Hc.
  - destruct Hl as (recs & Hl & Hw). destruct (Hf b eq_refl) as [F1 F2]. rewrite decide_True by (by eexists). cbn [replay_logs]. rewrite bool_decide_true by done.
    destruct (recover_log_ok debug_bytes micros (u := u) fuel rfuel mfuel n s base Bs b recs ve mt) as (e' & lw & -> & L & K & C); try done.
    rewrite sbind_Ok. cbv beta iota. match goal with |- context [mark_file_number_used n ?v] => change v with (db_vset s.2) end. rewrite mark_used, bind_Ret by done.
    exists e', (Some lw). split_and!; [|done|done|by exists recs]. cbn [replay_logs]. do 5 f_equal. destruct (decide (Bs = [])); [done|]. destruct (Z.ltb_spec 0 (base + zlen (concat Bs))); lia.
  - subst Bs. rewrite decide_False by (by intros [? ?]). exists (w_env s.1), None. by split_and!.
Qed.

(** ** Recovering *)

(** Changes of the environment that leave the manifest alone keep the version set. *)
(** Another storage, with an environment that keeps the manifest. *)
Lemma vs_inv_storage w vs vs' es st ps : vs_inv (u := u) w vs es → kept ps (w_env w) (st_env st) →
  (is_Some (descriptor_log vs) → let p := manifest_file_name (vs_dbname vs) (manifest_num vs) in p ∉ ps ∧ contents (st_env st) !! p = contents (w_env w) !! p) →
  vs_opt vs' = vs_opt vs → vs_current vs' = vs_current vs → vs_compaction_ptrs vs' = vs_compaction_ptrs vs → vs_dbname vs' = vs_dbname vs →
  manifest_num vs' = manifest_num vs → descriptor_log vs' = descriptor_log vs → vs_inv (u := u) (set_storage st w) vs' es.
Proof.
  intros [I1 I2 I3 I4 I5 I6 I7] K Hp E1 E2 E3 E4 E5 E6. split; [apply K|by rewrite E1|by rewrite E2|done|by rewrite E3|by rewrite E5|].
  intros lw Hl. rewrite E6 in Hl. destruct (Hp (mk_is_Some _ _ Hl)) as [P1 P2]. rewrite E4, E5. eapply descriptor_keep; [by apply I7|exact K|done|done].
Qed.

Lemma vs_inv_keep w vs vs' es e' ps : vs_inv (u := u) w vs es → kept ps (w_env w) e' →
  (is_Some (descriptor_log vs) → let p := manifest_file_name (vs_dbname vs) (manifest_num vs) in p ∉ ps ∧ contents e' !! p = contents (w_env w) !! p) →
  vs_opt vs' = vs_opt vs → vs_current vs' = vs_current vs → vs_compaction_ptrs vs' = vs_compaction_ptrs vs → vs_dbname vs' = vs_dbname vs →
  manifest_num vs' = manifest_num vs → descriptor_log vs' = descriptor_log vs → vs_inv (u := u) (set_env e' w) vs' es.
Proof. intros I K Hp. by apply (vs_inv_storage w vs vs' es (with_env e' (w_storage w)) ps). Qed.

(** Fuel for all that is read. *)
Definition enough e (db : string) (mn n : Z) (N : nat) : Prop :=
  (length (current_bytes mn) < N)%nat
  ∧ ∀ p b, p = manifest_file_name db mn ∨ p = log_file_name db n → contents e !! p = Some b → (2 * length b + 2 ≤ N)%nat.

Lemma enough_exists e db mn n : ∃ N, enough e db mn n N.
Proof.
  exists (S (length (current_bytes mn)) + (2 * length (default [] (contents e !! manifest_file_name db mn)) + 2) + (2 * length (default [] (contents e !! log_file_name db n)) + 2))%nat.
  split; [lia|]. intros p b [->| ->] ->; cbn; lia.
Qed.

Definition with_log (lo : option (LogWriter (BufWriter w_file))) mt (n : Z) (db : DB G w_file) : DB G w_file :=
  match lo with Some lw => set_mem mt (set_db_log_num (Some n) (set_log (Some lw) db)) | None => db end.

(** What the version set and the log are after [recover]. *)
Record ready e0 (w : World E ra_file) vs (lo : option (LogWriter (BufWriter w_file))) (save : bool) db base Bs mn es c n top : Prop := {
  rd_vs : vs_inv (u := u) w vs es;
  rd_name : vs_dbname vs = db;
  rd_contents : contents (w_env w) = contents e0;
  rd_kept : kept [manifest_file_name db mn; log_file_name db n] e0 (w_env w);
  rd_version : ∃ v, current w vs = Ret v ∧ scored_as (u := u) (files_of es) v;
  rd_seq : vs_last_seq vs = base + zlen (concat Bs);
  rd_log_num : log_num vs = cn_log c;
  rd_prev : prev_log_num vs = default 0 (cn_prev c);
  rd_next : cn_next c < next_file_num vs ≤ top + 1;
  rd_save : save = false → manifest_num vs = mn;
  rd_log : match lo with
           | Some lw => n < next_file_num vs ∧ ∃ recs, wal_writer (w_env w) (log_file_name db n) lw recs ∧ wal_records (base + 1) recs Bs
           | None => Bs = [] ∧ contents e0 !! log_file_name db n = None
           end;
}.

Lemma recover_files_ok fuel rfuel mfuel s base Bs mn es c n top mt N : let db := db_path s.2 in
  vs_inv (u := u) s.1 (db_vset s.2) [] → descriptor_log (db_vset s.2) = None → vs_dbname (db_vset s.2) = db → db ≠ ""%string →
  o_cmp (db_opt s.2) = u → db_log s.2 = None → reuse_logs (db_opt s.2) = true →
  image (w_env s.1) db base Bs mn es c n top →
  memtable_adds (mentries (base + 1) (concat Bs)) (MemTable_new u) = Ret mt → approx_mem_usage mt ≤ write_buffer_size (db_opt s.2) →
  enough (w_env s.1) db mn n N → (N ≤ fuel)%nat → (N ≤ rfuel)%nat →
  ∃ w vs lo save, recover_files debug_bytes order micros debug_path fuel rfuel mfuel VersionEdit_new s
      = Ret ((w, with_log lo mt n (set_vset vs s.2)), Ok (save, VersionEdit_new))
    ∧ ready (w_env s.1) w vs lo save db base Bs mn es c n top ∧ w_storage w = with_env (w_env w) (w_storage s.1).
Proof.
  intros db I Hd Hname Hne Hu Hlog Hr [D [S1 S2] Ho Hl] Hmt Ha [N1 N2] Hf Hrf. pose proof (dk_manifest _ _ _ _ _ _ _ D) as Hman.
  pose proof Hman as (_ & b & _ & Hb & _). pose proof (N2 _ b (or_introl eq_refl) Hb) as Nb. pose proof (dk_log _ _ _ _ _ _ _ D) as (B1 & B2 & B3). pose proof (dk_next _ _ _ _ _ _ _ D) as (B4 & B5).
  destruct s as [w0 d0]. cbn [fst snd] in *. unfold recover_files, on_vset.
  destruct (vs_recover_ok (u := u) order order_ok fuel rfuel w0 (db_vset d0) es mn c b I Hd (dk_num _ _ _ _ _ _ _ D)) as (w1 & vs1 & reused & -> & I1 & C1 & St1 & K1 & (v1 & Ev1 & Sc1) & Hvs1);
    [by rewrite Hname|by rewrite Hname|apply D|apply D|unfold counters_ok; lia|lia..|].
  rewrite bind_Ret, sbind_Ok. cbn [fst snd].
  assert (vs_dbname vs1 = db ∧ vs_last_seq vs1 = cn_seq c ∧ log_num vs1 = cn_log c ∧ prev_log_num vs1 = default 0 (cn_prev c) ∧ next_file_num vs1 = next_number c
    ∧ vs_current vs1 = Some (length (w_versions w0)) ∧ (negb reused = false → manifest_num vs1 = mn)) as (V1 & V2 & V3 & V4 & V5 & V6 & V7).
  { destruct reused; cbv zeta iota in Hvs1; [destruct Hvs1 as [lw ->]|subst vs1]; by split_and!. }
  destruct (children_law db (w_env w1) (vi_env _ _ _ I1) Hne) as (names & Hch & Hnd & Hnames). change (db_path (set_vset vs1 d0)) with db. rewrite Hch, bind_Ret.
  destruct (vi_current _ _ _ I1) as (l & v & El & Ev & R). rewrite V6 in El. injection El as <-. rewrite Ev1 in Ev. injection Ev as <-.
  pose proof (hi_map _ (dk_history _ _ _ _ _ _ _ D)) as Hmap.
  assert (current w1 vs1 = Ret v1) as Ec1 by (unfold current; rewrite V6; cbn [unwrap]; by rewrite bind_Ret, Ev1).
  change (db_vset (set_vset vs1 d0)) with vs1. rewrite (live_files_ok w1 vs1 _ _ _ V6 Ev1 Hmap R), bind_Ret.
  rewrite C1 in Hnames. destruct (disk_logs _ _ _ _ _ _ _ vs1 names D V3 V4 Hnd Hnames) as [Hparse Homap].
  destruct (scan_names_ok vs1 names (numbers (files_of es)) [] Hparse) as (X & -> & HX). rewrite app_nil_l, Homap.
  assert (X = ∅) as ->.
  { apply set_eq. intros k. split; [|by intros ?%elem_of_empty]. intros [Hk Hno]%HX. exfalso. apply (Hno (table_base k) Types.Table); [apply Hnames; by apply D|].
    apply table_base_parse. by eapply numbers_u64. }
  rewrite decide_True by done.
  match goal with |- context [merge_sort Z.le ?l] => replace (merge_sort Z.le l) with l by (by destruct (decide _)) end.
  rewrite <- C1 in Homap |- *.
  destruct (replay_ok fuel rfuel mfuel (w1, set_vset vs1 d0) (negb reused) VersionEdit_new base Bs n mt (vi_env _ _ _ I1) Hu Hlog Hr) as (e2 & lo & E2 & K2 & C2 & Hlo); try done; [|lia|lia|lia| |].
  { unfold logged. cbn [fst snd]. rewrite C1. exact Hl. }
  { intros b' Hb'. cbn [fst snd] in Hb'. rewrite C1 in Hb'. specialize (N2 _ b' (or_intror eq_refl) Hb'). lia. }
  cbn [fst snd] in E2, K2, C2, Hlo. change (db_path (set_vset vs1 d0)) with db in *. rewrite E2, sbind_Ok. clear E2.
  set (mx := if decide (Bs = []) then 0 else base + zlen (concat Bs)).
  assert (0 ≤ mx ∧ Z.max (cn_seq c) mx = base + zlen (concat Bs)) as [_ Hmx] by (unfold mx; destruct (decide (Bs = [])) as [->|]; simpl in *; lia).
  set (vs2 := match lo with Some _ => set_next_file_num (Z.max (next_file_num vs1) (n + 1)) vs1 | None => vs1 end).
  set (vs3 := if vs_last_seq vs2 <? mx then set_vs_last_seq mx vs2 else vs2).
  exists (set_env e2 w1), vs3, lo, (negb reused). split_and!.
  - destruct lo as [lw|]; [done|]. destruct Hlo as (_ & -> & _). by destruct w1 as [[] ? ? ?].
  - assert (∀ A (f : VersionSet w_file → A), (∀ x v, f (set_vs_last_seq x v) = f v) → (∀ x v, f (set_next_file_num x v) = f v) → f vs3 = f vs1) as F3.
    { intros A f F1 F2. unfold vs3, vs2. destruct (_ <? mx), lo; by rewrite ?F1, ?F2. }
    assert (next_file_num vs3 = next_file_num vs2) as Hnext by (unfold vs3; by destruct (_ <? mx)).
    assert (next_number c = Z.max (cn_next c + 1) (match cn_prev c with Some p => p + 1 | None => 0 end)) as Hnn by done.
    assert (is_u 64 mn) as Hmn by apply D. assert (is_u 64 n) as Hn64 by (by eapply disk_n).
    pose proof (log_path_differs db n (manifest_name mn) mn Descriptor Hn64 (parse_manifest mn Hmn) ltac:(done)) as Hdiff.
    split.
    + eapply vs_inv_keep; [exact I1|exact K2|..|by apply (F3 _ vs_opt)|by apply (F3 _ (@vs_current _))|by apply (F3 _ (@vs_compaction_ptrs _))|by apply (F3 _ (@vs_dbname _))|by apply (F3 _ (@manifest_num _))|by apply (F3 _ (@descriptor_log _))].
      intros Hdl p. split; [|by rewrite C2]. destruct reused; cbv zeta iota in Hvs1; [|subst vs1; cbn in Hdl; rewrite Hd in Hdl; by destruct Hdl].
      unfold p. rewrite V1, V7 by done. intros Hin%list_elem_of_singleton. by apply Hdiff.
    + by rewrite (F3 _ (@vs_dbname _)).
    + cbn. by rewrite C2.
    + rewrite Hname in K1. eapply kept_trans; [exact K1|exact K2|set_solver..].
    + exists v1. split; [|done]. unfold current. rewrite (F3 _ (@vs_current _)) by done. exact Ec1.
    + rewrite <- Hmx. unfold vs3. replace (vs_last_seq vs2) with (cn_seq c) by (unfold vs2; by destruct lo). destruct (Z.ltb_spec (cn_seq c) mx); cbn; [lia|].
      unfold vs2. destruct lo; cbn; lia.
    + by rewrite (F3 _ (@log_num _)).
    + by rewrite (F3 _ (@prev_log_num _)).
    + rewrite Hnext. unfold vs2. assert (cn_next c < next_number c ≤ top + 1) as Hnc by (rewrite Hnn; destruct (cn_prev c); cbn in B5; lia). destruct lo; cbn; lia.
    + intros Hs. rewrite (F3 _ (@manifest_num _)) by done. by apply V7.
    + destruct lo as [lw|]; [|destruct Hlo as (H1 & -> & H3); split; [done|by rewrite <- C1]]. split; [rewrite Hnext; unfold vs2; cbn; lia|exact Hlo].
  - cbn. rewrite St1. done.
Qed.

(** ** The database that is open *)

Lemma wal_writer_keep e e' ps p lw recs : wal_writer e p lw recs → kept ps e e' → p ∉ ps → contents e' !! p = contents e !! p → wal_writer e' p lw recs.
Proof.
  intros [(I1 & I2 & I3) I4 I5] (K1 & K2 & _) Hp Hc. cbn in I1, I2, I3, I4, I5. destruct I3 as (_ & A & b & C).
  assert (contents e' !! p = Some b) as Hb by (by rewrite Hc, C, lookup_insert_eq).
  split; [split_and!; cbn; [done|lia..|]|done|cbn; rewrite Hc; exact I5]. split_and!; [by apply kept_refl|by apply K2|]. exists b. symmetry. by apply insert_id.
Qed.

(** The database [s] is open: it holds the batches [Bs] in its memtable and its log, number
    [n], the manifest on disk is that of its version set unless it is still to be saved, and it
    has the lock. *)
Record open_db s (base : Z) (Bs : list (list op)) (mn : Z) (es : list VersionEdit) (c : counters) (n top : Z) (save : bool) : Prop := {
  od_wal : wal_inv (u := u) s base Bs;
  od_num : db_log_num s.2 = Some n;
  od_disk : disk (w_env s.1) (db_path s.2) mn es c n top;
  od_seq : base ≤ cn_seq c ≤ base + zlen (concat Bs);
  od_vs : vs_inv (u := u) s.1 (db_vset s.2) es;
  od_names : vs_dbname (db_vset s.2) = db_path s.2 ∧ db_path s.2 ≠ ""%string;
  od_version : ∃ v, db_current s = Ret v ∧ scored_as (u := u) (files_of es) v;
  od_log : log_num (db_vset s.2) ≤ n < next_file_num (db_vset s.2) ∧ next_file_num (db_vset s.2) ≤ top ∧ 0 ≤ prev_log_num (db_vset s.2) ≤ top;
  od_counters : cn_log c ≤ log_num (db_vset s.2) ∧ default 0 (cn_prev c) = prev_log_num (db_vset s.2) ∧ cn_next c ≤ next_file_num (db_vset s.2);
  od_save : save = false → manifest_num (db_vset s.2) = mn;
  od_imm : db_imm s.2 = None;
  od_tables : cached_tables s es;
  od_lock : ∃ l, db_lock s.2 = Some l ∧ lock_id l = lock_file_name (db_path s.2) ∧ locked (w_env s.1) (lock_file_name (db_path s.2));
}.

Lemma open_no_files s base Bs mn es c n top save : open_db s base Bs mn es c n top save → files_of es = ∅ → no_files s.
Proof.
  intros [_ _ D _ I _ (v & Ev & _) _ _ _ _ _ _] He. destruct (vi_current _ _ _ I) as (l & v' & El & Ev' & R). rewrite He in R.
  exists v. split; [done|]. unfold db_current, current in Ev. rewrite El in Ev. cbn [unwrap] in Ev. rewrite bind_Ret, Ev' in Ev. injection Ev as <-. by eapply represents_empty.
Qed.

Lemma wal_inv_keep s s' base Bs n ps : wal_inv (u := u) s base Bs → db_log_num s.2 = Some n → kept ps (w_env s.1) (w_env s'.1) →
  let p := log_file_name (db_path s.2) n in p ∉ ps → contents (w_env s'.1) !! p = contents (w_env s.1) !! p →
  db_opt s'.2 = db_opt s.2 → vs_last_seq (db_vset s'.2) = vs_last_seq (db_vset s.2) → db_mem s'.2 = db_mem s.2 → db_log s'.2 = db_log s.2 →
  db_log_num s'.2 = db_log_num s.2 → db_path s'.2 = db_path s.2 → wal_inv (u := u) s' base Bs.
Proof.
  intros [I1 I2 I3 I4 I5 I6 I7 (n' & lw & recs & En & El & L & R)] Hn K p Hp Hc E1 E2 E3 E4 E5 E6. rewrite Hn in En. injection En as <-.
  split; [apply K|by rewrite E1|done|done|by rewrite E2|done|by rewrite E3|]. exists n, lw, recs. rewrite E4, E5, E6. split_and!; [done|done| |done].
  by eapply wal_writer_keep.
Qed.

(** The names of CURRENT, of the manifest and of the tables. *)
Definition needed (mn : Z) es (name : string) : Prop :=
  name = "CURRENT"%string ∨ name = manifest_name mn ∨ ∃ k, k ∈ numbers (files_of es) ∧ name = table_base k.

Lemma needed_parse mn es name : is_u 64 mn → history_ok (u := u) es → needed mn es name →
  ∃ k typ, parse_file_name name = Ok (k, typ) ∧ typ ≠ Types.Log ∧ typ ≠ DBLock ∧ typ ≠ InfoLog ∧ typ ≠ Temp ∧ (typ = Descriptor → k = mn) ∧ (typ = Types.Table → k ∈ numbers (files_of es)).
Proof.
  intros Hm Hh [->|[->|(k & Hk & ->)]].
  - by eexists _, _.
  - rewrite parse_manifest by done. exists mn, Descriptor. by split_and!.
  - rewrite table_base_parse by (by eapply numbers_u64, Hk; apply Hh). exists k, Types.Table. by split_and!.
Qed.

(** Changes that leave these alone, and add no names but the log's and names that are no logs. *)
Lemma disk_keep e e' db mn es c n n' top top' : disk e db mn es c n top → n' ≤ top' → top ≤ top' < 2 ^ 64 - 1 → cn_log c ≤ n' →
  (∀ name, needed mn es name → contents e' !! path_join db name = contents e !! path_join db name) →
  (∀ name, is_Some (contents e' !! path_join db name) → good_name c n' name) →
  disk e' db mn es c n' top'.
Proof.
  intros [(Hc & b & rs & Hb & Hl & Hr) D2 D3 D4 D5 D6 D7 D8 D9] H1 H2 H3 Hk Hn. split; try done; [| |lia..].
  - split; [unfold current_file_name in *; rewrite Hk by (by left); done|]. exists b, rs. split_and!; [unfold manifest_file_name in *; rewrite Hk by (by right; left); done|done..].
  - intros k Hin. rewrite Hk by (right; right; by exists k). by apply D4.
Qed.

(** ** The steps of [open] *)

(** The database before its log is there. *)
Record closed_db (d : DB G w_file) (db : string) : Prop := {
  cd_path : db_path d = db;
  cd_name : db_name d = db;
  cd_nonempty : db ≠ ""%string;
  cd_cmp : o_cmp (db_opt d) = u;
  cd_mem : db_mem d = MemTable_new u;
  cd_log : db_log d = None;
  cd_imm : db_imm d = None;
  cd_lock : ∃ l, db_lock d = Some l ∧ lock_id l = lock_file_name db;
}.

Lemma lock_path_differs db n : is_u 64 n → lock_file_name db ≠ log_file_name db n ∧ lock_file_name db ≠ manifest_file_name db n
  ∧ lock_file_name db ≠ temp_file_name db n ∧ lock_file_name db ≠ current_file_name db.
Proof.
  intros Hn. pose proof (log_base_parse n Hn) as P1. pose proof (parse_manifest n Hn) as P2. pose proof (temp_base_parse n Hn) as P3.
  split_and!; intros Hp%path_join_inj; [rewrite <- Hp in P1|rewrite <- Hp in P2|rewrite <- Hp in P3|]; done.
Qed.

(** The tables of the database are as they were. *)
Definition same_tables (db : string) es e e' : Prop :=
  ∀ k, k ∈ numbers (files_of es) → contents e' !! path_join db (table_base k) = contents e !! path_join db (table_base k).

Lemma open_log_ok e0 w vs lo save d db base Bs mn es c n top mt : image e0 db base Bs mn es c n top → top + 2 < 2 ^ 64 - 1 →
  ready e0 w vs lo save db base Bs mn es c n top → memtable_adds (mentries (base + 1) (concat Bs)) (MemTable_new u) = Ret mt →
  closed_db d db → locked (w_env w) (lock_file_name db) → tables_open (db_opt d) (w_storage w) db [] →
  ∃ s n' ve, open_log VersionEdit_new (w, with_log lo mt n (set_vset vs d)) = Ret (s, Ok ve) ∧ set_log_num n' ve = set_log_num n' VersionEdit_new
    ∧ open_db s base Bs mn es c n' (top + 2) save ∧ db_path s.2 = db ∧ db_opt s.2 = db_opt d ∧ db_snaps s.2 = db_snaps d ∧ db_cstats s.2 = db_cstats d
    ∧ w_storage s.1 = with_env (w_env s.1) (w_storage w) ∧ same_tables db es e0 (w_env s.1).
Proof.
  intros [D [S1 S2] Ho Hl] Ht [R1 R2 R3 R4 R5 R6 R7 R8 R9 R10 R11] Hmt [P1 P2 P3 P4 P5 P6 P7 (l & P8 & P9)] Hlock [T1 T2 T3].
  pose proof (dk_log _ _ _ _ _ _ _ D) as (B1 & B2 & B3). pose proof (dk_next _ _ _ _ _ _ _ D) as (B4 & B5).
  destruct lo as [lw|]; unfold open_log; cbn [with_log].
  - destruct R11 as (Hn & recs & L & HW). eexists _, n, VersionEdit_new. split_and!; [done|done| |done|done|done|done|by destruct w as [[] ? ? ?]|intros k _; cbn; by rewrite R3].
    assert (disk (w_env w) db mn es c n (top + 2)) as D'.
    { eapply disk_keep; [exact D|lia|lia|lia|intros; by rewrite R3|intros name]. rewrite R3. apply D. }
    split; cbn; rewrite ?P1; try done; [|lia..|exists []; split; [by split; cbn; rewrite ?P1|by intros ? ? ?%elem_of_nil]|by exists l]. split; try done; [by apply (vi_env _ _ _ R1)|lia|lia|].
    exists n, lw, recs. cbn. by rewrite P1.
  - destruct R11 as (-> & Hnone). cbn [snd]. change (db_log (set_vset vs d)) with (db_log d). rewrite P6. unfold db_new_file_number, new_file_number.
    change (db_vset (set_vset vs d)) with vs. rewrite uadd_Ret, !bind_Ret by lia. replace (next_file_num vs + 1 - 1) with (next_file_num vs) by lia. cbn [fst snd].
    set (n' := next_file_num vs) in *. set (p := log_file_name (db_name (set_vset (set_next_file_num (n' + 1) vs) (set_vset vs d))) n').
    unfold on_env. destruct (open_writable_law p (w_env w) (vi_env _ _ _ R1)) as (e1 & f & -> & K1 & C1 & A1). rewrite bind_Ret, sbind_Ok. cbn [fst snd].
    assert (p = log_file_name db n') as Ep by (unfold p; cbn; by rewrite P2). rewrite Ep in *. clear p Ep.
    eexists _, n', (set_log_num n' VersionEdit_new). assert (is_u 64 n') as Hn' by (unfold is_u; lia). pose proof (log_base_parse n' Hn') as Hpn.
    assert (∀ name, name ≠ log_base n' → contents e1 !! path_join db name = contents e0 !! path_join db name) as Hsame.
    { intros name Hname. rewrite C1, R3. apply lookup_insert_ne. by intros ?%path_join_inj. }
    assert (∀ name, needed mn es name → name ≠ log_base n') as Hneed.
    { intros name (k & typ & Hp & Htyp & _)%needed_parse; [|apply D..]. intros ->. rewrite Hpn in Hp. by injection Hp. }
    split_and!; [done|done| |by cbn|done..|intros k Hk; cbn; apply Hsame, Hneed; right; right; by exists k].
    assert (disk e1 db mn es c n' (top + 2)) as D'.
    { eapply disk_keep; [exact D|lia|lia|lia|..].
      - intros name Hname. by apply Hsame, Hneed.
      - intros name Hname. destruct (decide (name = log_base n')) as [->|Hne]; [exists n', Types.Log; by split|]. rewrite Hsame in Hname by done.
        destruct (dk_names _ _ _ _ _ _ _ D name Hname) as (k & typ & Ek & Hk). exists k, typ. split; [done|]. intros Htyp Hor. rewrite (Hk Htyp Hor) in Hname.
        unfold log_file_name in Hnone. rewrite Hnone in Hname. by destruct Hname. }
    split; cbn; rewrite ?P1; try done.
    + assert (vs_last_seq vs = base) as Hb by (rewrite R6; cbn; lia).
      match goal with |- wal_inv ?s _ _ => pose proof (wal_start (u := u) s n' f) as W end. cbn in W. rewrite P1, Hb in W.
      apply W; try done; [apply K1|unfold is_u; simpl in S2; lia|by rewrite C1, lookup_insert_eq].
    + simpl in S2. lia.
    + eapply vs_inv_keep; [exact R1|exact K1| |done..]. intros _ q.
      pose proof (log_path_differs db n' (manifest_name (manifest_num vs)) _ _ Hn' (parse_manifest _ (vi_num _ _ _ R1)) ltac:(done)) as Hq.
      unfold q, manifest_file_name. rewrite R2. split; [by rewrite list_elem_of_singleton|]. by rewrite C1, lookup_insert_ne.
    + lia.
    + lia.
    + exists []. split; [by split; cbn; rewrite ?P1|by intros ? ? ?%elem_of_nil].
    + exists l. split_and!; [done..|]. apply K1; [|done]. rewrite list_elem_of_singleton. by apply lock_path_differs.
Qed.

Lemma edit_map_none m ve : deleted ve = ∅ → new_files ve = [] → edit_map m ve = m.
Proof. intros Hd Hn. unfold edit_map. rewrite Hd, Hn. cbn. apply map_filter_id. intros k x _. cbn. set_solver. Qed.

Lemma log_edit_good vs es n : history_ok (u := u) es → log_num vs ≤ n < next_file_num vs → 0 ≤ n → next_file_num vs < 2 ^ 64 → is_u 64 (prev_log_num vs) → is_u 64 (vs_last_seq vs) →
  good_edit (u := u) vs es (set_log_num n VersionEdit_new).
Proof.
  intros Hf Hn H0 Hnext Hp Hs. split.
  - intros k [= <-]. done.
  - unfold edit_ok. change (items _ _) with [ILogNumber n; IPrevLogNumber (prev_log_num vs); INextFile (next_file_num vs); ILastSeq (vs_last_seq vs)].
    repeat constructor; cbn; unfold is_u in *; lia.
  - split; [exact (Forall_nil_2 _)|intros x Hx; by apply elem_of_empty in Hx|exact (Forall_nil_2 _)].
  - constructor.
  - constructor.
  - constructor.
  - rewrite edit_map_none by done. apply Hf.
Qed.

(** The manifest paths are no logs and not the lock. *)
Lemma manifest_path_name vs name : is_u 64 (manifest_num vs) → path_join (vs_dbname vs) name ∈ manifest_paths vs →
  ∃ k typ, parse_file_name name = Ok (k, typ) ∧ typ ≠ Types.Log ∧ typ ≠ DBLock ∧ typ ≠ Types.Table.
Proof.
  intros Hm Hin. unfold manifest_paths in Hin. rewrite !elem_of_cons in Hin. destruct Hin as [Hp%path_join_inj|[Hp%path_join_inj|[Hp%path_join_inj|Hp%not_elem_of_nil]]]; [..|done]; subst name.
  - rewrite parse_manifest by done. by eexists _, _.
  - rewrite temp_base_parse by done. by eexists _, _.
  - by eexists _, _.
Qed.

(** The parts of the database that opening it leaves alone after the log is there. *)
Definition steady es s s' : Prop :=
  db_path s'.2 = db_path s.2 ∧ db_opt s'.2 = db_opt s.2 ∧ db_snaps s'.2 = db_snaps s.2 ∧ db_cstats s'.2 = db_cstats s.2
  ∧ w_storage s'.1 = with_env (w_env s'.1) (w_storage s.1) ∧ same_tables (db_path s.2) es (w_env s.1) (w_env s'.1).

(** The edit is one the open database can take: it can be applied, it has no log number or that
    of the log in use, its tables are there and their numbers are used, and the tables that
    were there stay. *)
Record open_edit s es (n : Z) (edit : VersionEdit) : Prop := {
  oe_good : good_edit (u := u) (db_vset s.2) es edit;
  oe_log : log_number edit = None ∨ log_number edit = Some n;
  oe_prev : prev_log_number edit = None;
  oe_tables k : k ∈ numbers (edit_map (files_of es) edit) → k ∈ numbers (files_of es) ∨ is_Some (contents (w_env s.1) !! path_join (db_path s.2) (table_base k));
  oe_used k : k ∈ file_key <$> new_files edit → 0 ≤ k.2 < next_file_num (db_vset s.2);
  oe_kept k : k ∈ numbers (files_of es) → k ∈ numbers (edit_map (files_of es) edit);
}.

Lemma apply_open s base Bs mn es c n top save edit : open_db s base Bs mn es c n top save → open_edit s es n edit →
  ∃ s' es' c', on_vset (log_and_apply order edit) s = Ret (s', Ok ())
    ∧ open_db s' base Bs (manifest_num (db_vset s.2)) es' c' n top false ∧ files_of es' = edit_map (files_of es) edit ∧ steady es s s'
    ∧ ∀ k, k ∈ numbers (files_of es') → contents (w_env s'.1) !! path_join (db_path s.2) (table_base k) = contents (w_env s.1) !! path_join (db_path s.2) (table_base k).
Proof.
  intros [W Hn D Hseq I [Hname Hne] Hv (L1 & L2 & L3) (N1 & N2 & N3) _ Himm Htab (l & Hl1 & Hl2 & Hl3)] [G1 G2 G3 G4 G5 G6]. pose proof (dk_log _ _ _ _ _ _ _ D) as (B1 & B2 & B3).
  set (vs := db_vset s.2) in *. destruct s as [w db]. cbn [fst snd] in *.
  destruct (log_and_apply_ok (u := u) order order_ok Hid w vs es edit I G1) as (w' & lw & es' & E' & I' & M' & F' & Hlast & U' & K' & C' & St' & v & Ev & Sv).
  assert (is_u 64 n) as Hn64 by (by eapply disk_n). pose proof (vi_num _ _ _ I) as Hm.
  assert (∀ name typ k, parse_file_name name = Ok (k, typ) → typ = Types.Log ∨ typ = DBLock ∨ typ = Types.Table → path_join (db_path db) name ∉ manifest_paths vs) as Hnot.
  { intros name typ k Hp Ht Hin. rewrite <- Hname in Hin. destruct (manifest_path_name vs name Hm Hin) as (k' & typ' & Hp' & T1 & T2 & T3). rewrite Hp in Hp'. injection Hp' as <- <-. naive_solver. }
  pose proof (Hnot _ _ _ (log_base_parse n Hn64) (or_introl eq_refl)) as Hlog. pose proof (Hnot "LOCK"%string DBLock 0 eq_refl (or_intror (or_introl eq_refl))) as Hlck.
  assert (∀ k, k ∈ numbers (files_of es') → contents (w_env w') !! path_join (db_path db) (table_base k) = contents (w_env w) !! path_join (db_path db) (table_base k)) as Hsame.
  { intros k Hk. apply C', (Hnot _ Types.Table k); [|auto]. apply table_base_parse. eapply numbers_u64, Hk. apply (hi_map _ (vi_history _ _ _ I')). }
  assert (log_num vs ≤ default (log_num vs) (log_number edit) ≤ n) as Hlg by (destruct G2 as [-> | ->]; cbn; lia).
  eexists (w', set_vset (after_edit vs edit (length (w_versions w)) lw) db), es', (edit_counters vs edit). split_and!; [| |done| |done].
  { unfold on_vset. fold vs. by rewrite E', bind_Ret. }
  2: { split_and!; try done. intros k Hk. apply Hsame. rewrite F'. by apply G6. }
  split; cbn; try done; [|..].
  - eapply (wal_inv_keep (w, db)); [exact W|exact Hn|exact K'|exact Hlog|by apply C'|done..].
  - split; cbn; try done; [by rewrite <- Hname|apply I'| | |by apply counters_of_last|lia|rewrite G3; cbn; lia|].
    + intros k Hk. rewrite Hsame by done. rewrite F' in Hk. destruct (G4 k Hk) as [Ho|Ho]; [by apply D|done].
    + intros k [Hk|Hk%elem_of_list_to_set]%U'%elem_of_union; [apply D in Hk; lia|by apply G5].
    + intros name Hin. destruct (decide (path_join (vs_dbname vs) name ∈ manifest_paths vs)) as [Hmp|Hmp].
      * destruct (manifest_path_name vs name Hm Hmp) as (k & typ & Hp & T1 & _). by exists k, typ.
      * rewrite <- Hname, (C' _ Hmp), Hname in Hin. destruct (dk_names _ _ _ _ _ _ _ D name Hin) as (k & typ & Hp & Hk). exists k, typ. split; [done|].
        intros Ht Hor. apply Hk; [done|]. cbn in Hor. rewrite G3 in Hor. cbn in Hor. destruct Hor as [Hor|Hor]; [left; lia|right; by rewrite N2].
  - pose proof (wi_seq _ _ _ W) as Ws. cbn in Ws. fold vs in Ws. lia.
  - exists v. by rewrite Ev.
  - lia.
  - split_and!; [lia|by rewrite G3|lia].
  - destruct Htab as (C & [T1 T2 T3] & HC). exists C. split; [by split; cbn; rewrite St'|]. intros k t Hk. destruct (HC k t Hk) as (j & -> & Hj). exists j. split; [done|]. rewrite F'. by apply G6.
  - exists l. split_and!; [done..|]. by apply K'.
Qed.

Lemma save_ok s base Bs mn es c n top : open_db s base Bs mn es c n top true →
  ∃ s' es' c', on_vset (log_and_apply order (set_log_num n VersionEdit_new)) s = Ret (s', Ok ())
    ∧ open_db s' base Bs (manifest_num (db_vset s.2)) es' c' n top false ∧ files_of es' = files_of es ∧ steady es s s'.
Proof.
  intros S. pose proof S as [W Hn D Hseq I _ _ (L1 & L2 & L3) _ _ _ _ _]. pose proof (dk_log _ _ _ _ _ _ _ D) as (B1 & B2 & B3).
  pose proof (wi_bound _ _ _ W) as Wb. pose proof (wi_base _ _ _ W) as W0. pose proof (wi_seq _ _ _ W) as Ws.
  assert (edit_map (files_of es) (set_log_num n VersionEdit_new) = files_of es) as Em by (by apply edit_map_none).
  destruct (apply_open s base Bs mn es c n top true (set_log_num n VersionEdit_new) S) as (s' & es' & c' & E' & S' & F' & T' & _).
  - split; rewrite ?Em; try done; [|by right|by left|by intros k ?%elem_of_nil]. apply log_edit_good; [apply D|lia|lia|lia|unfold is_u; lia|unfold is_u; lia].
  - rewrite Em in F'. by exists s', es', c'.
Qed.

Lemma open_version s base Bs mn es c n top save : open_db s base Bs mn es c n top save → live_files s.1 (db_vset s.2) = Ret (numbers (files_of es)).
Proof.
  intros S. pose proof (od_vs _ _ _ _ _ _ _ _ _ S) as I. destruct (vi_current _ _ _ I) as (l & v & El & Ev & R). by eapply live_files_ok; [..|apply (hi_map _ (vi_history _ _ _ I))|].
Qed.

Lemma obsolete_parse files vs name : obsolete files vs name → ∃ k typ, parse_file_name name = Ok (k, typ) ∧ typ ≠ DBLock ∧ typ ≠ Current
  ∧ (typ = Types.Log → k < log_num vs) ∧ (typ = Descriptor → k < manifest_num vs).
Proof. unfold obsolete. destruct (parse_file_name name) as [[k []]|]; intros H; try done; by eexists _, _. Qed.

Lemma open_delete_ok s base Bs mn es c n top : open_db s base Bs mn es c n top false →
  ∃ s', delete_obsolete_files s = Ret (s', Ok ()) ∧ open_db s' base Bs mn es c n top false ∧ s'.2 = s.2 ∧ steady es s s'.
Proof.
  intros H. pose proof (open_version _ _ _ _ _ _ _ _ _ H) as Hlive. destruct H as [W Hn D Hseq I [Hname Hne] Hv (L1 & L2 & L3) (N1 & N2 & N3) Hs Himm Htab (l & Hl1 & Hl2 & Hl3)].
  destruct (children_law (db_path s.2) (w_env s.1) (vi_env _ _ _ I) Hne) as (names & Hch & _ & _).
  pose proof (hi_map _ (vi_history _ _ _ I)) as Hmap. set (files := numbers (files_of es)) in *.
  destruct (delete_names_ok files names s (vi_env _ _ _ I)) as (e' & E' & K & C); [by eapply (cached_uncached (u := u))|]. set (ps := path_join _ <$> _) in *.
  assert (∀ name, ¬ obsolete files (db_vset s.2) name → path_join (db_path s.2) name ∉ ps) as Hps.
  { intros name Hob (name' & Hp%path_join_inj & Hin)%list_elem_of_fmap. subst name'. apply list_elem_of_filter in Hin as [? _]. done. }
  assert (is_u 64 n) as Hn64 by (by eapply disk_n). assert (is_u 64 mn) as Hm by apply D.
  assert (log_file_name (db_path s.2) n ∉ ps) as P1 by (apply Hps; intros (k & typ & Ek & _ & _ & T & _)%obsolete_parse; rewrite log_base_parse in Ek by done; simplify_eq; specialize (T eq_refl); lia).
  assert (manifest_file_name (db_path s.2) mn ∉ ps) as P2 by (apply Hps; intros (k & typ & Ek & _ & _ & _ & T)%obsolete_parse; rewrite parse_manifest in Ek by done; simplify_eq; specialize (T eq_refl); rewrite Hs in T by done; lia).
  assert (current_file_name (db_path s.2) ∉ ps) as P3 by (apply Hps; by intros (k & typ & [= <- <-] & ? & ? & _)%obsolete_parse).
  assert (lock_file_name (db_path s.2) ∉ ps) as P4 by (apply Hps; by intros (k & typ & [= <- <-] & ? & ? & _)%obsolete_parse).
  assert (∀ p, p ∉ ps → contents e' !! p = contents (w_env s.1) !! p) as Cs by (intros p Hp; rewrite C; by rewrite decide_False).
  assert (∀ name, needed mn es name → contents e' !! path_join (db_path s.2) name = contents (w_env s.1) !! path_join (db_path s.2) name) as Hneed.
  { intros name [->|[->|(k & Hk & ->)]]; apply Cs; [done..|]. apply Hps. unfold obsolete. rewrite table_base_parse by (by eapply numbers_u64). naive_solver. }
  exists (set_env e' s.1, s.2). split_and!; [| |done|split_and!; try done; intros k Hk; apply Hneed; right; right; by exists k].
  { unfold delete_obsolete_files. destruct s as [w db]. cbn [fst snd] in *. by rewrite Hlive, bind_Ret, Hch, bind_Ret, E'. }
  split; cbn [fst snd]; try done.
  - eapply wal_inv_keep; [exact W|exact Hn|exact K|exact P1|by apply Cs|done..].
  - pose proof (dk_log _ _ _ _ _ _ _ D). eapply disk_keep; [exact D|lia..| |].
    + exact Hneed.
    + intros name Hin. apply D. cbn in Hin. rewrite C in Hin. case_decide; [by destruct Hin|done].
  - eapply vs_inv_keep; [exact I|exact K| |done..]. intros _ q. unfold q. rewrite Hname, Hs by done. split; [done|by apply Cs].
  - by eapply cached_env.
  - exists l. split_and!; [done..|]. by apply K.
Qed.

(** There is nothing to compact in a database without tables. *)
Lemma no_compaction fuel mfuel s base Bs mn es c n top save : open_db s base Bs mn es c n top save → files_of es = ∅ →
  maybe_do_compaction debug_bytes order micros fuel mfuel s = Ret (s, Ok ()).
Proof.
  intros H He. destruct (open_no_files _ _ _ _ _ _ _ _ _ H He) as (v & Ev & Hf). destruct (od_version _ _ _ _ _ _ _ _ _ H) as (v' & Ev' & Hv). rewrite Ev in Ev'. injection Ev' as <-.
  unfold maybe_do_compaction. rewrite (od_imm _ _ _ _ _ _ _ _ _ H), sbind_Ok. unfold compact_version, needs_compaction. unfold db_current in Ev. by rewrite Ev, !bind_Ret, (scored_empty v (scored_as_scored _ _ Hv)) by done.
Qed.

(** ** From the directory to the database *)

(** The environments differ in the information log and the lock at most. *)
Definition side_names : list string := ["LOG"; "LOG.old"; "LOCK"]%string.
Definition same_files (db : string) e e' : Prop := ∀ name, name ∉ side_names → contents e' !! path_join db name = contents e !! path_join db name.

Lemma side_name_good c n name : name ∈ side_names → good_name c n name.
Proof. unfold side_names. rewrite !elem_of_cons. intros [->|[->|[->|?%not_elem_of_nil]]]; [..|done]; by eexists 0, _. Qed.

Lemma not_side name k typ : parse_file_name name = Ok (k, typ) → typ ≠ InfoLog → typ ≠ DBLock → name ∉ side_names.
Proof. intros Hp H1 H2. unfold side_names. rewrite !elem_of_cons. intros [->|[->|[->|?%not_elem_of_nil]]]; [by injection Hp..|done]. Qed.

Lemma side_path db p : p ∈ lock_file_name db :: info_paths db → ∃ name, p = path_join db name ∧ name ∈ side_names.
Proof. unfold info_paths, side_names. rewrite !elem_of_cons. intros [->|[->|[->|?%not_elem_of_nil]]]; [..|done]; (eexists; split; [done|]; set_solver). Qed.

Lemma same_files_paths db e e' : (∀ p, p ∉ lock_file_name db :: info_paths db → contents e' !! p = contents e !! p) → same_files db e e'.
Proof. intros H name Hn. apply H. intros (name' & ->%path_join_inj & Hin)%side_path. done. Qed.

Lemma same_files_refl db e e' : contents e' = contents e → same_files db e e'.
Proof. intros H name _. by rewrite H. Qed.

Lemma same_files_trans db e e' e'' : same_files db e e' → same_files db e' e'' → same_files db e e''.
Proof. intros H1 H2 name Hn. by rewrite H2, H1. Qed.

Lemma same_log db e e' n : is_u 64 n → same_files db e e' → contents e' !! log_file_name db n = contents e !! log_file_name db n.
Proof. intros Hn H. apply H. by eapply not_side; [by apply log_base_parse|..]. Qed.
Lemma same_manifest db e e' n : is_u 64 n → same_files db e e' → contents e' !! manifest_file_name db n = contents e !! manifest_file_name db n.
Proof. intros Hn H. apply H. by eapply not_side; [by apply parse_manifest|..]. Qed.

Lemma image_same e e' db base Bs mn es c n top : same_files db e e' → image e db base Bs mn es c n top → image e' db base Bs mn es c n top.
Proof.
  intros H [D S' O L]. pose proof (dk_log _ _ _ _ _ _ _ D). split; [|done|done|unfold logged in *; rewrite (same_log db e e' n) by (done || by eapply disk_n); done].
  eapply disk_keep; [exact D|lia..| |].
  - intros name (k & typ & Hp & _ & T1 & T2 & _)%needed_parse; [|apply D..]. apply H. by eapply not_side.
  - intros name Hin. destruct (decide (name ∈ side_names)); [by apply side_name_good|]. apply D. by rewrite <- H.
Qed.

Lemma enough_same e e' db mn n N : is_u 64 mn → is_u 64 n → same_files db e e' → enough e db mn n N → enough e' db mn n N.
Proof.
  intros Hm Hn H [N1 N2]. split; [done|]. intros p b [->| ->]; [rewrite (same_manifest db e e')|rewrite (same_log db e e')]; try done; apply N2; auto.
Qed.

Definition locked_state (name : string) (opt : Options) (blocks : Cache Block) (l : FileLock) e : state :=
  ((new_state name opt blocks e).1, set_lock (Some l) (new_state name opt blocks e).2).

Lemma lock_ok name opt blocks e : env_ok e → ¬ locked e (lock_file_name name) →
  ∃ e1 r e2 l, env_mkdir name e = Ret (e1, r) ∧ acquire_lock (new_state name opt blocks e1) = Ret (locked_state name opt blocks l e2, Ok ())
    ∧ env_ok e2 ∧ same_files name e e2 ∧ lock_id l = lock_file_name name ∧ locked e2 (lock_file_name name).
Proof.
  intros He Hl. destruct (mkdir_law name e He) as (e1 & r & E1 & K1 & C1).
  destruct (acquire_lock_ok (new_state name opt blocks e1) (proj1 K1)) as (e2 & l & E2 & K2 & C2 & L1 & L2).
  { intros H. apply Hl. by apply K1; [apply not_elem_of_nil|]. }
  exists e1, r, e2, l. split_and!; [done|exact E2|apply K2| |done|done]. apply same_files_paths. intros p Hp. rewrite not_elem_of_cons in Hp. cbn in C2. rewrite C2 by apply Hp. by rewrite C1.
Qed.

(** [recover] up to the file CURRENT. *)
Lemma db_recover_current name opt blocks e e1 r l e2 fuel rfuel mfuel e3 cur : error_if_exists opt = false →
  env_mkdir name e = Ret (e1, r) → acquire_lock (new_state name opt blocks e1) = Ret (locked_state name opt blocks l e2, Ok ()) →
  read_current_file fuel name e2 = Ret (e3, cur) → let s := locked_state name opt blocks l e3 in
  db_recover debug_bytes order micros debug_path fuel rfuel mfuel VersionEdit_new (new_state name opt blocks e)
    = (let? s, _ := (match cur with
                     | Ok _ => Ret (s, Ok ())
                     | Err x => if bool_decide (code x = NotFound) && create_if_missing opt then initialize_db order s
                                else Ret (s, err InvalidArgument "database does not exist and create_if_missing is false")
                     end) in recover_files debug_bytes order micros debug_path fuel rfuel mfuel VersionEdit_new s).
Proof.
  intros Hx E1 E2 E3 s. unfold db_recover. change (error_if_exists (db_opt (new_state name opt blocks e).2)) with (error_if_exists opt). rewrite Hx, bind_Ret.
  change (on_env (env_mkdir (db_path (new_state name opt blocks e).2)) (new_state name opt blocks e)) with ('(e', a) ← env_mkdir name e; Ret (new_state name opt blocks e', a)).
  rewrite E1, !bind_Ret, E2, sbind_Ok.
  change (on_env (read_current_file fuel (db_path (locked_state name opt blocks l e2).2)) (locked_state name opt blocks l e2))
    with ('(e', a) ← read_current_file fuel name e2; Ret (locked_state name opt blocks l e', a)).
  by rewrite E3, !bind_Ret.
Qed.

(** The directory holds a database. *)
Lemma db_recover_image name opt blocks e base Bs mn es c n top N fuel rfuel mfuel : env_ok e → ¬ locked e (lock_file_name name) → error_if_exists opt = false →
  image e name base Bs mn es c n top → enough e name mn n N → (N ≤ fuel)%nat →
  ∃ l e', db_recover debug_bytes order micros debug_path fuel rfuel mfuel VersionEdit_new (new_state name opt blocks e)
      = recover_files debug_bytes order micros debug_path fuel rfuel mfuel VersionEdit_new (locked_state name opt blocks l e')
    ∧ env_ok e' ∧ same_files name e e' ∧ lock_id l = lock_file_name name ∧ locked e' (lock_file_name name).
Proof.
  intros He Hl Hx [D S' O L] [N1 N2] Hf. destruct (lock_ok name opt blocks e He Hl) as (e1 & r & e2 & l & E1 & E2 & He2 & Hs & L1 & L2).
  destruct (read_current_file_ok fuel name mn e2 He2 (dk_num _ _ _ _ _ _ _ D)) as (e3 & E3 & K3 & C3); [|lia|].
  { unfold current_file_name. rewrite Hs by (by eapply (not_side _ 0 Current)). apply D. }
  exists l, e3. split_and!; [|apply K3|eapply same_files_trans; [exact Hs|by apply same_files_refl]|done|by apply K3; [apply not_elem_of_nil|]].
  by rewrite (db_recover_current name opt blocks e e1 r l e2 _ _ _ e3 _ Hx E1 E2 E3).
Qed.

(** The directory holds no database. *)
Definition fresh_dir e (name : string) : Prop := ∀ x, x ∉ side_names → contents e !! path_join name x = None.

Lemma init_image e e' name : fresh_dir e name → manifest e' name 1 [init_edit] →
  (∀ p, p ∉ init_paths name → contents e' !! p = contents e !! p) → image e' name 0 [] 1 [init_edit] (mkCounters 0 None 2 0) 3 3.
Proof.
  intros Hn M C. split; [|by (cbn; lia)|constructor|].
  - split; try done; [exact init_history|]. intros x Hx. destruct (decide (x ∈ side_names)); [by apply side_name_good|].
    destruct (decide (path_join name x ∈ init_paths name)) as [Hin|Hin]; [|rewrite C, Hn in Hx by done; by destruct Hx].
    unfold init_paths in Hin. rewrite !elem_of_cons in Hin. destruct Hin as [Hp%path_join_inj|[Hp%path_join_inj|[Hp%path_join_inj|Hp%not_elem_of_nil]]]; [..|done]; subst x; by eexists _, _.
  - unfold logged, log_file_name. rewrite C, Hn; [done|by eapply (not_side _ 3 Types.Log)|]. unfold init_paths. rewrite !elem_of_cons.
    intros [Hp%path_join_inj|[Hp%path_join_inj|[Hp%path_join_inj|Hp%not_elem_of_nil]]]; done.
Qed.

Lemma db_recover_fresh name opt blocks e : env_ok e → ¬ locked e (lock_file_name name) → error_if_exists opt = false → create_if_missing opt = true → o_cmp opt = u →
  fresh_dir e name →
  ∃ l e', (∀ fuel rfuel mfuel, db_recover debug_bytes order micros debug_path fuel rfuel mfuel VersionEdit_new (new_state name opt blocks e)
      = recover_files debug_bytes order micros debug_path fuel rfuel mfuel VersionEdit_new (locked_state name opt blocks l e'))
    ∧ env_ok e' ∧ image e' name 0 [] 1 [init_edit] (mkCounters 0 None 2 0) 3 3 ∧ lock_id l = lock_file_name name ∧ locked e' (lock_file_name name).
Proof.
  intros He Hl Hx Hc Hu Hn. destruct (lock_ok name opt blocks e He Hl) as (e1 & r & e2 & l & E1 & E2 & He2 & Hs & L1 & L2).
  destruct (open_sequential_missing (current_file_name name) e2 He2) as (e3 & x & E3 & K3 & C3 & Hx3).
  { unfold current_file_name. rewrite Hs by (by eapply (not_side _ 0 Current)). apply Hn. by eapply (not_side _ 0 Current). }
  destruct (initialize_db_ok (locked_state name opt blocks l e3) (proj1 K3) Hu) as (e4 & E4 & K4 & M4 & C4). cbn in K4, M4, C4.
  exists l, e4. split_and!; [|apply K4| |done|].
  - intros fuel rfuel mfuel. rewrite (db_recover_current name opt blocks e e1 r l e2 _ _ _ e3 (Err x) Hx E1 E2).
    + rewrite Hx3, bool_decide_true, Hc by done. cbn [andb]. by rewrite E4, sbind_Ok.
    + unfold read_current_file. by rewrite E3, sbind_Err.
  - eapply (init_image e3); [|done|exact C4]. intros y Hy. rewrite C3, Hs by done. by apply Hn.
  - apply K4; [|by apply K3; [apply not_elem_of_nil|]]. destruct (lock_path_differs name 1) as (P1 & P2 & P3 & P4); [by_decide|]. unfold init_paths. set_solver.
Qed.

(** The options a database is opened with. *)
Record good_options (name : string) (opt : Options) : Prop := {
  go_cmp : o_cmp opt = u;
  go_reuse : reuse_logs opt = true;
  go_exists : error_if_exists opt = false;
  go_files : 10 < max_open_files opt;
  go_name : name ≠ ""%string;
  go_path : default name (canonicalize name) = name;
}.

Lemma locked_state_vs name opt blocks l e : env_ok e → o_cmp opt = u → let s := locked_state name opt blocks l e in vs_inv (u := u) s.1 (db_vset s.2) [].
Proof.
  intros He Hu s. pose proof (version_set_new (u := u) {| w_storage := w_storage s.1; w_metas := λ _, FileMetaData_default; w_fresh := 0; w_versions := [] |} name opt He Hu) as H.
  apply H.
Qed.

(** The database [s] is up, as [open] makes it from the tables [es] and the block cache
    [blocks]. *)
Record brought_up s (name : string) (opt : Options) (blocks : Cache Block) es e : Prop := {
  bu_path : db_path s.2 = name;
  bu_opt : db_opt s.2 = opt;
  bu_snaps : db_snaps s.2 = SnapshotList_new;
  bu_stats : db_cstats s.2 = replicate (Z.to_nat NUM_LEVELS) CompactionStats_default;
  bu_storage : w_storage s.1 = with_env (w_env s.1) (w_storage (new_state name opt blocks e).1);
  bu_tables : same_tables name es e (w_env s.1);
}.

Lemma brought_up_steady s s' name opt blocks es e : brought_up s name opt blocks es e → steady es s s' → brought_up s' name opt blocks es e.
Proof.
  intros [B1 B2 B3 B4 B5 B6] (P1 & P2 & P3 & P4 & P5 & P6). split; try congruence; [by rewrite P5, B5|]. intros k Hk. rewrite <- B6 by done. rewrite <- B1. by apply P6.
Qed.

(** [open] after the lock is taken and there is a manifest: what is left is the compaction. *)
Lemma open_from name opt blocks l e base Bs mn es c n top mt N fuel rfuel mfuel : good_options name opt → env_ok e → locked e (lock_file_name name) →
  lock_id l = lock_file_name name → image e name base Bs mn es c n top → top + 2 < 2 ^ 64 - 1 →
  memtable_adds (mentries (base + 1) (concat Bs)) (MemTable_new u) = Ret mt → approx_mem_usage mt ≤ write_buffer_size opt →
  enough e name mn n N → (N ≤ fuel)%nat → (N ≤ rfuel)%nat →
  ∃ s mn' es' c' n', (let? s, (save, ve) := recover_files debug_bytes order micros debug_path fuel rfuel mfuel VersionEdit_new (locked_state name opt blocks l e) in
     let? s, ve := open_log ve s in
     let? s, _ := (if (save : bool) then on_vset (log_and_apply order (set_log_num (default 0 (db_log_num s.2)) ve)) s else Ret (s, Ok ())) in
     let? s, _ := delete_obsolete_files s in
     maybe_do_compaction debug_bytes order micros mfuel mfuel s) = maybe_do_compaction debug_bytes order micros mfuel mfuel s
    ∧ open_db s base Bs mn' es' c' n' (top + 2) false ∧ files_of es' = files_of es ∧ brought_up s name opt blocks es e.
Proof.
  intros [O1 O2 O3 O4 O5 O6] He Hlock Hl Him Ht Hmt Ha HN Hf Hrf.
  destruct (recover_files_ok fuel rfuel mfuel (locked_state name opt blocks l e) base Bs mn es c n top mt N) as (w & vs & lo & save & -> & R & St); try done.
  { by apply locked_state_vs. }
  rewrite sbind_Ok. cbv beta iota. cbn [fst snd] in St.
  destruct (lock_path_differs name mn (dk_num _ _ _ _ _ _ _ (im_disk _ _ _ _ _ _ _ _ _ Him))) as (_ & P1 & _). destruct (lock_path_differs name n (disk_n _ _ _ _ _ _ _ (im_disk _ _ _ _ _ _ _ _ _ Him))) as (P2 & _).
  destruct (open_log_ok e w vs lo save (locked_state name opt blocks l e).2 name base Bs mn es c n top mt Him Ht R Hmt) as (s1 & n1 & ve & -> & Hve & S1 & Hp1 & Ho1 & Hs1 & Hc1 & Hb1 & Ht1).
  { split; try done; [cbn; by rewrite O1|by exists l]. }
  { destruct (rd_kept _ _ _ _ _ _ _ _ _ _ _ _ _ R) as (_ & _ & _ & Hk). apply Hk; [set_solver|done]. }
  { rewrite St. split; try done. destruct (cache_new_inv (T := Table ra_file) (max_open_files opt - 10)) as (c0 & Ec & Hc & _); [lia|].
    unfold Cache_new in Ec. rewrite (proj2 (Z.ltb_lt _ _)) in Ec by lia. by injection Ec as <-. }
  assert (brought_up s1 name opt blocks es e) as B1 by (split; try done; by rewrite Hb1, St).
  rewrite sbind_Ok, (od_num _ _ _ _ _ _ _ _ _ S1). cbn [default]. change (id ?x) with x. rewrite Hve.
  assert (∃ s2 mn2 es2 c2, (if save then on_vset (log_and_apply order (set_log_num n1 VersionEdit_new)) s1 else Ret (s1, Ok ())) = Ret (s2, Ok ())
    ∧ open_db s2 base Bs mn2 es2 c2 n1 (top + 2) false ∧ files_of es2 = files_of es ∧ brought_up s2 name opt blocks es e) as (s2 & mn2 & es2 & c2 & -> & S2 & F2 & B2).
  { destruct save; [|by exists s1, mn, es, c]. destruct (save_ok _ _ _ _ _ _ _ _ S1) as (s2 & es2 & c2 & E2 & S2 & F2 & T2).
    exists s2, (manifest_num (db_vset s1.2)), es2, c2. split_and!; [done..|]. by eapply brought_up_steady. }
  rewrite sbind_Ok. destruct (open_delete_ok _ _ _ _ _ _ _ _ S2) as (s3 & -> & S3 & _ & T3). rewrite sbind_Ok.
  exists s3, mn2, es2, c2, n1. split_and!; [done..|]. eapply brought_up_steady; [exact B2|]. destruct T3 as (Q1 & Q2 & Q3 & Q4 & Q5 & Q6). split_and!; try done.
  intros k Hk. apply Q6. by rewrite F2.
Qed.

(** What [open] finds: no database, and it may make one, or the database with the batches [Bs]
    in its log and the tables [m]. *)
Definition found e (name : string) (opt : Options) (base : Z) (Bs : list (list op)) (m : filemap) (top : Z) : Prop :=
  (fresh_dir e name ∧ create_if_missing opt = true ∧ base = 0 ∧ Bs = [] ∧ m = ∅ ∧ top = 3) ∨ ∃ mn es c n, image e name base Bs mn es c n top ∧ files_of es = m.
Definition openable e (name : string) (opt : Options) (base : Z) (Bs : list (list op)) (top : Z) : Prop := found e name opt base Bs ∅ top.

(** The batches fit into the memtable. *)
Definition fits (opt : Options) (base : Z) (Bs : list (list op)) : Prop :=
  ∃ mt : MemTable G, memtable_adds (mentries (base + 1) (concat Bs)) (MemTable_new u) = Ret mt ∧ approx_mem_usage mt ≤ write_buffer_size opt.

(** The database is open with the batches [Bs] and no tables. *)
Definition is_open s (base : Z) (Bs : list (list op)) (top : Z) : Prop := ∃ mn es c n, open_db s base Bs mn es c n top false ∧ files_of es = ∅.

Lemma locked_info name e e' : kept (info_paths name) e e' → locked e' (lock_file_name name) ↔ locked e (lock_file_name name).
Proof.
  intros (_ & _ & _ & K). apply K. unfold info_paths. rewrite !elem_of_cons. intros [H%path_join_inj|[H%path_join_inj|?%not_elem_of_nil]]; done.
Qed.

(** [open] brings up the database with its tables; what is left is the compaction. *)
Lemma DB_open_tables e name opt (has_log : bool) blocks base Bs m top : good_options name opt → env_ok e → ¬ locked e (lock_file_name name) →
  found e name opt base Bs m top → fits opt base Bs → top + 2 < 2 ^ 64 - 1 →
  ∃ N, ∀ fuel rfuel mfuel, (N ≤ fuel)%nat → (N ≤ rfuel)%nat →
    ∃ s mn es c n, DB_open debug_bytes order micros canonicalize debug_path fuel rfuel mfuel name opt has_log blocks e
        = ('(s, r) ← maybe_do_compaction debug_bytes order micros mfuel mfuel s;
           match r with Ok _ => Ret (s.1, Ok s.2) | Err x => w ← db_drop s; Ret (w, Err x) end)
      ∧ open_db s base Bs mn es c n (top + 2) false ∧ files_of es = m ∧ brought_up s name opt blocks es e.
Proof.
  intros O He Hl Hop (mt & Hmt & Ha) Ht. pose proof O as [O1 O2 O3 O4 O5 O6].
  destruct (DB_new_ok canonicalize name opt has_log blocks e He O6 O4) as (e1 & E1 & K1 & C1).
  assert (same_files name e e1) as Hs by (apply same_files_paths; intros p Hp; apply C1; rewrite not_elem_of_cons in Hp; apply Hp).
  assert (¬ locked e1 (lock_file_name name)) as Hl1 by (by rewrite (locked_info name e e1)).
  assert (∃ N mn es c n, files_of es = m ∧ ∀ fuel rfuel mfuel, (N ≤ fuel)%nat → (N ≤ rfuel)%nat → ∃ l e2,
    db_recover debug_bytes order micros debug_path fuel rfuel mfuel VersionEdit_new (new_state name opt blocks e1)
      = recover_files debug_bytes order micros debug_path fuel rfuel mfuel VersionEdit_new (locked_state name opt blocks l e2)
    ∧ env_ok e2 ∧ image e2 name base Bs mn es c n top ∧ enough e2 name mn n N ∧ lock_id l = lock_file_name name ∧ locked e2 (lock_file_name name)
    ∧ same_tables name es e e2) as (N & mn & es & c & n & Hm & H).
  { destruct Hop as [(Hf & Hc & -> & -> & -> & ->)|(mn & es & c & n & Him & <-)].
    - destruct (db_recover_fresh name opt blocks e1 (proj1 K1) Hl1 O3 Hc O1) as (l & e2 & E2 & He2 & Im2 & L1 & L2); [intros x Hx; by rewrite Hs, Hf|].
      destruct (enough_exists e2 name 1 3) as [N HN]. eexists N, 1, _, _, 3. split; [exact init_files|]. intros fuel rfuel mfuel _ _. exists l, e2. split_and!; [by rewrite E2|done..|].
      intros k Hk. rewrite init_files in Hk. unfold numbers in Hk. set_solver.
    - destruct (enough_exists e name mn n) as [N HN]. exists N, mn, es, c, n. split; [done|]. intros fuel rfuel mfuel Hf _. apply (image_same e e1) in Him; [|done].
      assert (is_u 64 mn ∧ is_u 64 n) as [U1 U2] by (split; [apply Him|by eapply disk_n, im_disk]). apply (enough_same e e1) in HN; [|done..].
      destruct (db_recover_image name opt blocks e1 base Bs mn es c n top N fuel rfuel mfuel (proj1 K1) Hl1 O3 Him HN Hf) as (l & e2 & E2 & He2 & Hs2 & L1 & L2).
      exists l, e2. split_and!; [done|done|by eapply image_same|by eapply enough_same|done|done|]. intros k Hk.
      assert (table_base k ∉ side_names) as Hside by (eapply not_side; [apply table_base_parse; eapply numbers_u64, Hk; apply Him|done..]). by rewrite Hs2, Hs. }
  exists N. intros fuel rfuel mfuel Hf Hrf. destruct (H fuel rfuel mfuel Hf Hrf) as (l & e2 & E2 & He2 & Him & HN & L1 & L2 & Hst).
  destruct (open_from name opt blocks l e2 base Bs mn es c n top mt N fuel rfuel mfuel O He2 L2 L1 Him Ht Hmt Ha HN Hf Hrf) as (s & mn' & es' & c' & n' & E3 & S & F & [B1 B2 B3 B4 B5 B6]).
  exists s, mn', es', c', n'. split_and!; [|done|by rewrite F|split; try done; intros k Hk; rewrite F in Hk; by rewrite B6, Hst].
  unfold DB_open. rewrite E1, bind_Ret, E2, E3. done.
Qed.

Lemma DB_open_ok e name opt (has_log : bool) blocks base Bs top : good_options name opt → env_ok e → ¬ locked e (lock_file_name name) →
  openable e name opt base Bs top → fits opt base Bs → top + 2 < 2 ^ 64 - 1 →
  ∃ N, ∀ fuel rfuel mfuel, (N ≤ fuel)%nat → (N ≤ rfuel)%nat →
    ∃ w db, DB_open debug_bytes order micros canonicalize debug_path fuel rfuel mfuel name opt has_log blocks e = Ret (w, Ok db)
      ∧ is_open (w, db) base Bs (top + 2) ∧ db_path db = name ∧ db_opt db = opt ∧ db_snaps db = SnapshotList_new.
Proof.
  intros O He Hl Hop Hf Ht. destruct (DB_open_tables e name opt has_log blocks base Bs ∅ top O He Hl Hop Hf Ht) as [N H]. exists N. intros fuel rfuel mfuel F1 F2.
  destruct (H fuel rfuel mfuel F1 F2) as (s & mn & es & c & n & E1 & S & Hm & B). rewrite (no_compaction _ _ _ _ _ _ _ _ _ _ _ S Hm), bind_Ret in E1.
  exists s.1, s.2. split_and!; [done|exists mn, es, c, n; by destruct s|apply B..].
Qed.

(** ** What is done with an open database *)

Lemma open_reads s base Bs top fuel mfuel k : is_open s base Bs top → key_ok u k → zlen k + 8 < 2 ^ 63 →
  db_get debug_bytes order micros fuel mfuel k s = Ret (s, default None (last_op k (concat Bs))).
Proof.
  intros (mn & es & c & n & S & Hm) Hk Hl. unfold db_get. rewrite (wi_seq _ _ _ (od_wal _ _ _ _ _ _ _ _ _ S)).
  rewrite (get_internal_ok debug_bytes order micros (u := u) fuel mfuel s base Bs k (length (concat Bs))), bind_Ret; [by rewrite take_ge|apply S|apply S|done|done|done|].
  right. by eapply open_no_files.
Qed.

(** Only the contents of the log change. *)
Lemma disk_log e e' db mn es c n top b : disk e db mn es c n top → contents e' = <[log_file_name db n := b]> (contents e) → disk e' db mn es c n top.
Proof.
  intros D C. pose proof (log_base_parse n (disk_n _ _ _ _ _ _ _ D)) as Hpn. pose proof (dk_log _ _ _ _ _ _ _ D) as (B1 & B2 & B3).
  assert (∀ name, name ≠ log_base n → contents e' !! path_join db name = contents e !! path_join db name) as Hsame.
  { intros name H. rewrite C. apply lookup_insert_ne. by intros ?%path_join_inj. }
  eapply disk_keep; [exact D|lia..| |].
  - intros name (k & typ & Hp & Ht & _)%needed_parse; [|apply D..]. apply Hsame. intros ->. rewrite Hpn in Hp. by injection Hp.
  - intros name Hin. destruct (decide (name = log_base n)) as [->|H]; [exists n, Types.Log; by split|]. apply D. by rewrite <- Hsame.
Qed.

(** Only the log of the database changes. *)
Lemma open_db_log s s' base Bs Bs' mn es c n top save e' b : open_db s base Bs mn es c n top save → wal_inv (u := u) s' base Bs' → s'.1 = set_env e' s.1 →
  zlen (concat Bs) ≤ zlen (concat Bs') → kept [log_file_name (db_path s.2) n] (w_env s.1) e' → contents e' = <[log_file_name (db_path s.2) n := b]> (contents (w_env s.1)) →
  db_log_num s'.2 = db_log_num s.2 → db_path s'.2 = db_path s.2 → db_imm s'.2 = db_imm s.2 → db_lock s'.2 = db_lock s.2 → db_opt s'.2 = db_opt s.2 →
  (∃ q, db_vset s'.2 = set_vs_last_seq q (db_vset s.2)) → open_db s' base Bs' mn es c n top save.
Proof.
  intros [W Hn D Hseq I [Hname Hne] Hv L N Hs Himm Htab (l & Hl1 & Hl2 & Hl3)] W' Ew Hlen K C E1 E2 E3 E4 E6 [q Ev].
  assert (is_u 64 n) as Hn64 by (by eapply disk_n).
  split; rewrite ?E1, ?E2, ?E3, ?E4, ?Ev, ?Ew; try done.
  - by eapply disk_log.
  - lia.
  - eapply vs_inv_keep; [exact I|exact K| |done..]. intros _ p. unfold p. rewrite Hname.
    pose proof (log_path_differs (db_path s.2) n (manifest_name (manifest_num (db_vset s.2))) _ _ Hn64 (parse_manifest _ (vi_num _ _ _ I)) ltac:(done)) as H.
    split; [by rewrite list_elem_of_singleton|]. by rewrite C, lookup_insert_ne.
  - destruct Hv as (v & E5 & Sv). exists v. split; [|done]. unfold db_current in *. rewrite Ew, Ev. exact E5.
  - eapply cached_env; [done|by rewrite Ew|done|done].
  - exists l. split_and!; [done..|]. destruct K as (_ & _ & _ & K). apply K; [|done]. rewrite list_elem_of_singleton. by apply lock_path_differs.
Qed.

Lemma open_image s base Bs mn es c n top b recs : open_db s base Bs mn es c n top false → contents (w_env s.1) !! log_file_name (db_path s.2) n = Some b →
  is_log b recs → wal_records (base + 1) recs Bs → image (w_env s.1) (db_path s.2) base Bs mn es c n top.
Proof.
  intros S Hb Hl Hw. pose proof (od_wal _ _ _ _ _ _ _ _ _ S) as W. pose proof (od_seq _ _ _ _ _ _ _ _ _ S). pose proof (wi_bound _ _ _ W). pose proof (wi_base _ _ _ W).
  split; [apply S|lia|apply W|]. unfold logged. rewrite Hb. by exists recs.
Qed.

(** Other environments with the same contents. *)
Lemma image_contents e e' db base Bs mn es c n top : contents e' = contents e → image e db base Bs mn es c n top → image e' db base Bs mn es c n top.
Proof. intros H. by apply image_same, same_files_refl. Qed.

Lemma open_flush s base Bs mn es c n top : open_db s base Bs mn es c n top false →
  ∃ e1 lw1, let s1 := (set_env e1 s.1, set_log (Some lw1) s.2) in
    db_flush s = Ret (s1, Ok ()) ∧ open_db s1 base Bs mn es c n top false ∧ image e1 (db_path s.2) base Bs mn es c n top.
Proof.
  intros S. pose proof (od_wal _ _ _ _ _ _ _ _ _ S) as W. destruct (wi_log _ _ _ W) as (n' & lw & recs & En & El & L & R). rewrite (od_num _ _ _ _ _ _ _ _ _ S) in En. injection En as <-.
  destruct (wal_flush _ s lw recs El L) as (e1 & lw1 & b & E1 & L1 & K1 & C1 & Hb). exists e1, lw1. set (s1 := (set_env e1 s.1, set_log (Some lw1) s.2)).
  assert (open_db s1 base Bs mn es c n top false) as S1.
  { eapply (open_db_log s s1); [exact S| |done|done|exact K1|exact C1|done..|].
    - destruct W as [W1 W2 W3 W4 W5 W6 W7 _]. split; try done; [apply K1|]. exists n, lw1, recs. split_and!; [apply S|done|done|done].
    - exists (vs_last_seq (db_vset s.2)). change (db_vset s1.2) with (db_vset s.2). by destruct (db_vset s.2). }
  split_and!; [unfold db_flush; rewrite El; exact E1|exact S1|]. apply (open_image s1 _ _ _ _ _ _ _ b recs S1); [|done|done]. cbn. by rewrite C1, lookup_insert_eq.
Qed.

Lemma open_write fuel mfuel s base Bs mn es c n top b os sync : open_db s base Bs mn es c n top false → room s → batch_of os = Ret b →
  zlen os < 2 ^ 32 → 12 + zlen (ops_bytes os) < 2 ^ 64 → Forall (op_ok (u := u)) os → base + zlen (concat Bs) + zlen os < 2 ^ 56 →
  ∃ e' mt lw, let s1 := after_write e' mt lw (base + zlen (concat Bs) + zlen os) s in
    db_write debug_bytes order micros fuel mfuel b sync s = Ret (s1, Ok ()) ∧ open_db s1 base (Bs ++ [os]) mn es c n top false
    ∧ (sync = true → image e' (db_path s.2) base (Bs ++ [os]) mn es c n top).
Proof.
  intros S Hr Eb Hl Hz Ho Hs.
  destruct (db_write_ok debug_bytes order micros (u := u) fuel mfuel s base Bs b os sync (od_wal _ _ _ _ _ _ _ _ _ S) Hr Eb Hl Hz Ho Hs) as (e1 & mt & lw & E1 & W1 & D1 & n' & bs & En & K1 & C1).
  pose proof (od_num _ _ _ _ _ _ _ _ _ S) as Hn. rewrite Hn in En. injection En as <-. exists e1, mt, lw. set (s1 := after_write _ _ _ _ s) in *.
  assert (open_db s1 base (Bs ++ [os]) mn es c n top false) as S1.
  { eapply (open_db_log s s1); [exact S|exact W1|done| |exact K1|exact C1|done..|by eexists]. rewrite concat_app, length_app. lia. }
  split_and!; [exact E1|exact S1|]. intros Hsync. destruct (D1 Hsync) as (n' & b' & recs & En & Hb & Hlog & Hw).
  change (db_log_num s1.2) with (db_log_num s.2) in En. rewrite Hn in En. injection En as <-. by apply (open_image s1 _ _ _ _ _ _ _ b' recs S1).
Qed.

(** ** Closing and dropping *)

(** Flushing the log and giving up the lock. *)
Lemma open_release s base Bs mn es c n top : open_db s base Bs mn es c n top false →
  ∃ e1 lw1 e2, let s1 := (set_env e1 s.1, set_log (Some lw1) s.2) in let s2 := (set_env e2 s.1, set_lock None (set_log (Some lw1) s.2)) in
    db_flush s = Ret (s1, Ok ()) ∧ release_lock s1 = Ret (s2, Ok ()) ∧ env_ok e2 ∧ ¬ locked e2 (lock_file_name (db_path s.2))
    ∧ image e2 (db_path s.2) base Bs mn es c n top ∧ ∃ recs, wal_writer e2 (log_file_name (db_path s.2) n) lw1 recs ∧ wal_records (base + 1) recs Bs.
Proof.
  intros S. destruct (open_flush _ _ _ _ _ _ _ _ S) as (e1 & lw1 & E1 & S1 & Im).
  destruct (od_lock _ _ _ _ _ _ _ _ _ S1) as (l & L1 & L2 & L3). cbn in L1, L2, L3. pose proof (od_wal _ _ _ _ _ _ _ _ _ S1) as W1.
  destruct (unlock_law l e1) as (e2 & E2 & K2 & C2 & Hl2); [apply (wi_env _ _ _ W1)|by rewrite L2|]. rewrite L2 in Hl2, K2.
  destruct (wi_log _ _ _ W1) as (n' & lw & recs & En & El & L & R). rewrite (od_num _ _ _ _ _ _ _ _ _ S1) in En. injection En as <-. injection El as <-.
  exists e1, lw1, e2. split_and!; [exact E1| |apply K2|exact Hl2|by apply (image_contents e1)|exists recs; split; [|done]].
  - unfold release_lock. cbn [db_lock set_log snd]. rewrite L1. change (w_env (set_env e1 s.1)) with e1. by rewrite E2, bind_Ret.
  - eapply wal_writer_keep; [exact L|exact K2| |by rewrite C2]. rewrite list_elem_of_singleton. intros H. symmetry in H. revert H. apply lock_path_differs.
    by eapply disk_n, im_disk.
Qed.

(** The writer of the log is dropped: what it still has is written. *)
Lemma wal_drop e p lw recs : wal_writer e p lw recs →
  ∃ e' b, BufWriter_drop e (lw_dst lw) = Ret e' ∧ kept [p] e e' ∧ contents e' = <[p := b]> (contents e) ∧ is_log b recs.
Proof.
  intros [(I1 & I2 & I3) I4 (off & I5 & _)]. destruct (flush_buf_ok (RW := env_writer e p) (e, lw_dst lw)) as (e' & f & E' & Hw & (K & A & b & C)); [exact I3|].
  exists e', b. split_and!; [unfold BufWriter_drop; by rewrite E', bind_Ret|done|done|]. exists off. cbn in Hw, I5. rewrite C, lookup_insert_eq in Hw. cbn in Hw. by rewrite Hw.
Qed.

Lemma image_log e e' db base Bs mn es c n top b recs : image e db base Bs mn es c n top → contents e' = <[log_file_name db n := b]> (contents e) →
  is_log b recs → wal_records (base + 1) recs Bs → image e' db base Bs mn es c n top.
Proof.
  intros [D S' O L] C Hl Hw. split; [by eapply disk_log|done|done|]. unfold logged. rewrite C, lookup_insert_eq. by exists recs.
Qed.

Lemma open_drop s base Bs top : is_open s base Bs top →
  ∃ w, db_drop s = Ret w ∧ env_ok (w_env w) ∧ ¬ locked (w_env w) (lock_file_name (db_path s.2)) ∧ ∃ mn es c n, image (w_env w) (db_path s.2) base Bs mn es c n top ∧ files_of es = ∅.
Proof.
  intros (mn & es & c & n & S & Hm). destruct (open_release _ _ _ _ _ _ _ _ S) as (e1 & lw1 & e2 & E1 & E2 & He2 & Hl2 & Im & recs & L & R).
  destruct (wal_drop e2 _ lw1 recs L) as (e3 & b & E3 & K3 & C3 & Hb). exists (set_env e3 s.1).
  split_and!; [|apply K3| |exists mn, es, c, n; split; [by eapply image_log|done]].
  - unfold db_drop. rewrite E1, bind_Ret, E2, bind_Ret. cbn [db_log set_lock set_log]. change (w_env (set_env e2 s.1)) with e2. by rewrite E3, bind_Ret.
  - destruct K3 as (_ & _ & _ & K3). cbn. rewrite K3; [done|]. rewrite list_elem_of_singleton. apply lock_path_differs. by eapply disk_n, im_disk.
Qed.

(** ** Theorems *)

(** C5: [DB::open] brings up what the directory has: on a directory without a database it makes
    one without operations, on a directory whose manifest names no tables and with the batches
    [Bs] in the log, which fit in a memtable, it replays them (with the option [reuse_logs]).  With fuel that depends on the sizes of the files it returns an open database (it
    holds the lock, its manifest is on disk, it satisfies the invariant of writing and recovery),
    and [get] answers with the last operation of [Bs] on the key. *)
Theorem open_restores e name opt (has_log : bool) blocks base Bs top : good_options name opt → env_ok e → ¬ locked e (lock_file_name name) →
  openable e name opt base Bs top → fits opt base Bs → top + 2 < 2 ^ 64 - 1 →
  ∃ N, ∀ fuel rfuel mfuel, (N ≤ fuel)%nat → (N ≤ rfuel)%nat →
    ∃ w db, DB_open debug_bytes order micros canonicalize debug_path fuel rfuel mfuel name opt has_log blocks e = Ret (w, Ok db)
      ∧ is_open (w, db) base Bs (top + 2)
      ∧ ∀ k, key_ok u k → zlen k + 8 < 2 ^ 63 → db_get debug_bytes order micros fuel mfuel k (w, db) = Ret ((w, db), default None (last_op k (concat Bs))).
Proof.
  intros O He Hl Hop Hf Ht. destruct (DB_open_ok e name opt has_log blocks base Bs top O He Hl Hop Hf Ht) as [N H]. exists N. intros fuel rfuel mfuel F1 F2.
  destruct (H fuel rfuel mfuel F1 F2) as (w & db & E1 & S & _). exists w, db. split_and!; [done|done|]. intros k Hk Hkl. by apply (open_reads _ base Bs (top + 2)).
Qed.

(** C6: A synced write survives a crash: [write] with [sync] on an open database without tables
    that has room in its memtable succeeds, the database stays open, and [open] on any environment with the contents of that moment, whose
    lock is gone, brings back all batches and the new one behind them. *)
Theorem synced_write_survives fuel mfuel s base Bs top b os opt (has_log : bool) blocks : is_open s base Bs top → room s → batch_of os = Ret b →
  zlen os < 2 ^ 32 → 12 + zlen (ops_bytes os) < 2 ^ 64 → Forall (op_ok (u := u)) os → base + zlen (concat Bs) + zlen os < 2 ^ 56 →
  good_options (db_path s.2) opt → fits opt base (Bs ++ [os]) → top + 2 < 2 ^ 64 - 1 →
  ∃ s1, db_write debug_bytes order micros fuel mfuel b true s = Ret (s1, Ok ()) ∧ is_open s1 base (Bs ++ [os]) top
    ∧ ∀ e, env_ok e → contents e = contents (w_env s1.1) → ¬ locked e (lock_file_name (db_path s.2)) →
      ∃ N, ∀ fuel rfuel mfuel, (N ≤ fuel)%nat → (N ≤ rfuel)%nat →
        ∃ w db, DB_open debug_bytes order micros canonicalize debug_path fuel rfuel mfuel (db_path s.2) opt has_log blocks e = Ret (w, Ok db)
          ∧ is_open (w, db) base (Bs ++ [os]) (top + 2).
Proof.
  intros (mn & es & c & n & S & Hm) Hr Eb Hl Hz Ho Hs O Hf Ht.
  destruct (open_write fuel mfuel s base Bs mn es c n top b os true S Hr Eb Hl Hz Ho Hs) as (e1 & mt & lw & E1 & S1 & Him). specialize (Him eq_refl).
  eexists. split_and!; [exact E1|by exists mn, es, c, n|]. intros e He Hc Hlk.
  assert (openable e (db_path s.2) opt base (Bs ++ [os]) top) as Hop by (right; exists mn, es, c, n; split; [by apply (image_contents e1)|done]).
  destruct (DB_open_ok e _ opt has_log blocks base _ top O He Hlk Hop Hf Ht) as [N H]. exists N. intros fuel' rfuel' mfuel' F1 F2.
  destruct (H fuel' rfuel' mfuel' F1 F2) as (w & db & E2 & S2 & _). by exists w, db.
Qed.

(** C9: A database without tables can be closed and opened again: [close] succeeds, writes out the log and
    gives up the lock, and [open] on the environment it leaves gives an open database with the
    same batches. *)
Theorem close_reopen s base Bs top opt (has_log : bool) blocks : is_open s base Bs top → good_options (db_path s.2) opt → fits opt base Bs → top + 2 < 2 ^ 64 - 1 →
  ∃ s1, close s = Ret (s1, Ok ()) ∧ ¬ locked (w_env s1.1) (lock_file_name (db_path s.2))
    ∧ ∃ N, ∀ fuel rfuel mfuel, (N ≤ fuel)%nat → (N ≤ rfuel)%nat →
      ∃ w db, DB_open debug_bytes order micros canonicalize debug_path fuel rfuel mfuel (db_path s.2) opt has_log blocks (w_env s1.1) = Ret (w, Ok db)
        ∧ is_open (w, db) base Bs (top + 2).
Proof.
  intros (mn & es & c & n & S & Hm) O Hf Ht. destruct (open_release _ _ _ _ _ _ _ _ S) as (e1 & lw1 & e2 & E1 & E2 & He2 & Hl2 & Im & _).
  eexists. split_and!; [unfold close; by rewrite E1, sbind_Ok, E2|exact Hl2|].
  destruct (DB_open_ok e2 (db_path s.2) opt has_log blocks base Bs top O He2 Hl2) as [N H]; [by right; exists mn, es, c, n|done|done|].
  exists N. intros fuel rfuel mfuel F1 F2. destruct (H fuel rfuel mfuel F1 F2) as (w & db & E3 & S3 & _). by exists w, db.
Qed.

End open.

Section lock.
Context {IE : IntegerEncoding} {CR : Crc32} `{EL : EnvLaws E} `{RG : Rng G}.
Context (debug_bytes : bytes → string) (order : gset (Z * Z) → list (Z * Z)) (micros : E → exec (E * Z))
  (canonicalize : string → option string) (debug_path : string → string) {FW : FixedIntWriter (E * BufWriter w_file)}.

(** C10: A database is opened once: while its lock is held, [open] fails with a lock error,
    whatever the fuel, and changes no file but the information log.  (In an environment whose
    [lock] fails with a lock error on a locked path, as that of [MemEnv] does.) *)
Theorem open_locked fuel rfuel mfuel e name opt (has_log : bool) blocks : good_options canonicalize (u := o_cmp opt) name opt → env_ok e → locked e (lock_file_name name) →
  ∃ w x, DB_open debug_bytes order micros canonicalize debug_path fuel rfuel mfuel name opt has_log blocks e = Ret (w, Err x) ∧ code x = LockError
    ∧ locked (w_env w) (lock_file_name name) ∧ ∀ p, p ∉ info_paths name → contents (w_env w) !! p = contents e !! p.
Proof.
  intros [O1 O2 O3 O4 O5 O6] He Hl. destruct (DB_new_ok canonicalize name opt has_log blocks e He O6 O4) as (e1 & E1 & K1 & C1). apply (locked_info name e e1 K1) in Hl.
  destruct (mkdir_law name e1 (proj1 K1)) as (e2 & r & E2 & K2 & C2). assert (locked e2 (lock_file_name name)) as Hl2 by (apply K2; [apply not_elem_of_nil|done]).
  destruct (acquire_lock_held (new_state name opt blocks e2) (proj1 K2) Hl2) as (e3 & E3 & K3 & C3).
  exists (new_state name opt blocks e3).1, (Status_new LockError "database lock is held by another instance"). split_and!; [|done|apply K3; [apply not_elem_of_nil|done]|intros p Hp; cbn; rewrite C3; cbn; by rewrite C2, C1].
  unfold DB_open. rewrite E1, bind_Ret. unfold db_recover. change (error_if_exists (db_opt (new_state name opt blocks e1).2)) with (error_if_exists opt). rewrite O3, bind_Ret.
  change (on_env (env_mkdir (db_path (new_state name opt blocks e1).2)) (new_state name opt blocks e1)) with ('(e', a) ← env_mkdir name e1; Ret (new_state name opt blocks e', a)).
  rewrite E2, !bind_Ret, E3. unfold err at 1. rewrite !sbind_Err, bind_Ret. done.
Qed.

End lock.

(** ** Witnesses *)

Module TestOpen.
#[export] Existing Instance Reference.ref_encoding.
#[export] Existing Instance Reference.ref_encoding_laws.
#[export] Existing Instance Reference.ref_crc.
#[export] Existing Instance Reference.ref_crc_laws.
#[export] Existing Instance TestRng.alternating.
#[export] Existing Instance TestWal.EN.
#[export] Existing Instance TestWal.EL.
#[export] Existing Instance TestWal.fixed_writer.

(** The path is used as it is. *)
Definition canon (s : string) : option string := None.
Definition no_text {A} (_ : A) : string := EmptyString.

Definition no_blocks : Cache Block := {| c_list := LRUList_new; c_map := ∅; c_cap := 10; c_id := 0 |}.

(** An environment without files. *)
Definition nothing : MemFS := {| buffers := []; store := ∅ |}.

Lemma nothing_ok : env_ok nothing.
Proof. split; cbn; intros p; [by intros e ?%lookup_empty_Some|by intros q e e' ?%lookup_empty_Some]. Qed.

Lemma nothing_locked p : ¬ locked nothing p.
Proof. done. Qed.

Lemma options_good : good_options canon (u := DefaultCmp) "db" TestStorage.uopts.
Proof. by split. Qed.

Lemma nothing_openable : openable (u := DefaultCmp) nothing "db" TestStorage.uopts 0 [] 3.
Proof. left. split_and!; try done. Qed.

Lemma fits_ops (Bs : list (list op)) :
  match memtable_adds (mentries 1 (concat Bs)) (MemTable_new (G := Z) DefaultCmp) with Ret mt => approx_mem_usage mt <=? write_buffer_size TestStorage.uopts | _ => false end = true →
  fits (G := Z) (u := DefaultCmp) TestStorage.uopts 0 Bs.
Proof. unfold fits. destruct (memtable_adds _ _) as [mt| |]; [|done..]. intros H%Z.leb_le. by exists mt. Qed.

(** A database that has just been made. *)
Lemma made : ∃ s : World MemFS ra_file * DB Z w_file, is_open (u := DefaultCmp) s 0 [] 5 ∧ db_path s.2 = "db"%string ∧ room s
  ∧ db_opt s.2 = TestStorage.uopts ∧ db_snaps s.2 = SnapshotList_new.
Proof.
  destruct (DB_open_ok (λ _, EmptyString) elements (λ s, reflexivity _) TestWal.clock canon no_text TestManifest.id_ok nothing "db" TestStorage.uopts false no_blocks 0 [] 3
    options_good nothing_ok (nothing_locked _) nothing_openable) as [N H]; [by apply fits_ops|done|].
  destruct (H N N 0%nat ltac:(lia) ltac:(lia)) as (w & db & _ & S & Hp & Ho & Hs). exists (w, db). split_and!; [exact S|exact Hp| |exact Ho|exact Hs].
  right. destruct S as (mn & es & c & n & S & _). pose proof (wi_mem _ _ _ (od_wal _ _ _ _ _ _ _ _ _ S)) as Hm. cbn in Hm. injection Hm as Hm.
  change (memtable_len (MemTable_new (G := Z) DefaultCmp) = 0) || (replace (db_mem (w, db).2) with (MemTable_new (G := Z) DefaultCmp) by exact Hm). done.
Qed.

(** A database with an old log, the one in use, and a table that the version does not name. *)
Definition old_files : MemFS :=
  {| buffers := [[]; []; []]; store := {[ "db/000001.log" := {| e_f := 0%nat; e_locked := false |}; "db/000003.log" := {| e_f := 1%nat; e_locked := false |};
       "db/000007.ldb" := {| e_f := 2%nat; e_locked := false |} ]} |}.
Definition with_old (c : Cache (Table (ra_file (Env := TestWal.EN)))) : World MemFS ra_file * DB Z w_file :=
  let w := set_env old_files TestManifest.fresh.1 in
  (set_storage (with_cache c (w_storage w)) w, set_vset (set_vs_log_num 3 TestManifest.fresh.2) TestWal.db).

Lemma old_files_ok : env_ok old_files.
Proof.
  assert (∀ p e, store old_files !! p = Some e → p = "db/000001.log"%string ∧ e_f e = 0%nat ∨ p = "db/000003.log"%string ∧ e_f e = 1%nat ∨ p = "db/000007.ldb"%string ∧ e_f e = 2%nat) as H.
  { cbn. intros p e [(<- & <-)|(_ & [(<- & <-)|(_ & (<- & <-)%lookup_singleton_Some)]%lookup_insert_Some)]%lookup_insert_Some; auto. }
  split; [intros p e [[_ ->]|[[_ ->]|[_ ->]]]%H; cbn; lia|]. intros p q e e' [[-> He]|[[-> He]|[-> He]]]%H [[-> He']|[[-> He']|[-> He']]]%H; congruence.
Qed.

(** The tables 7 and 9 are open; 7 was opened first. *)
Definition some_table : Table (ra_file (Env := TestWal.EN)) :=
  {| t_file := 2%nat; t_file_size := 0; t_cache_id := 1; t_opt := TestStorage.uopts; t_footer := mkFooter (mkBlockHandle 0 0) (mkBlockHandle 0 0);
     t_indexblock := mkBlock [] TestStorage.uopts; t_filters := None |}.
Lemma two_open : ∃ c, cache_inv c [(filenum_to_key 9, some_table); (filenum_to_key 7, some_table)] ∧ c_cap c = 4.
Proof.
  destruct (cache_new_inv (T := Table (ra_file (Env := TestWal.EN))) 4) as (c0 & _ & C0 & E0); [lia|].
  destruct (cache_insert_ok c0 [] (filenum_to_key 7) some_table C0) as (c1 & _ & C1 & E1 & _); [apply not_elem_of_nil|]. rewrite E0 in C1.
  destruct (cache_insert_ok c1 _ (filenum_to_key 9) some_table C1) as (c2 & _ & C2 & E2 & _); [by_decide|]. rewrite E1, E0 in C2.
  exists c2. split; [exact C2|]. by rewrite E2, E1, E0.
Qed.
End TestOpen.

Section open_witnesses.
Import TestOpen.

Lemma delete_obsolete_exact_witness :
  ∃ c e' c', cache_inv c [(filenum_to_key 9, some_table); (filenum_to_key 7, some_table)]
    ∧ delete_obsolete_files (EN := TestWal.EN) (with_old c) = Ret (cleaned (EN := TestWal.EN) e' c' (with_old c), Ok ())
    ∧ contents e' !! "db/000001.log"%string = None ∧ contents e' !! "db/000003.log"%string = Some [] ∧ contents e' !! "db/000007.ldb"%string = None
    ∧ cache_held c' [(filenum_to_key 9, some_table)].
Proof.
  destruct two_open as (c & Hc & _).
  destruct (delete_obsolete_exact (with_old c) ∅ ["000007.ldb"; "000003.log"; "000001.log"]%string [(filenum_to_key 9, some_table); (filenum_to_key 7, some_table)]) as (e' & c' & E' & _ & C & Hh & _).
  - exact old_files_ok.
  - exact (cache_inv_held _ _ Hc).
  - reflexivity.
  - vm_compute. reflexivity.
  - exists c, e', c'. split; [exact Hc|]. split; [exact E'|]. split; [rewrite C; vm_compute; reflexivity|]. split; [rewrite C; vm_compute; reflexivity|]. split; [rewrite C; vm_compute; reflexivity|]. exact Hh.
Defined.

Lemma open_restores_witness :
  ∃ N, ∀ fuel rfuel mfuel, (N ≤ fuel)%nat → (N ≤ rfuel)%nat →
    ∃ w db, DB_open (EN := TestWal.EN) no_text elements TestWal.clock canon no_text fuel rfuel mfuel "db" TestStorage.uopts false no_blocks nothing = Ret (w, Ok db)
      ∧ is_open (G := Z) (u := DefaultCmp) (w, db) 0 [] 5
      ∧ ∀ k, key_ok DefaultCmp k → zlen k + 8 < 2 ^ 63 → db_get (EN := TestWal.EN) no_text elements TestWal.clock fuel mfuel k (w, db) = Ret ((w, db), None).
Proof.
  apply (open_restores (IEL := Reference.ref_encoding_laws) (CRL := Reference.ref_crc_laws) no_text elements (λ s, reflexivity _) TestWal.clock canon no_text
    (u := DefaultCmp) TestManifest.id_ok nothing "db" TestStorage.uopts false no_blocks 0 [] 3).
  - exact options_good.
  - exact nothing_ok.
  - exact (nothing_locked _).
  - exact nothing_openable.
  - apply fits_ops. vm_compute. reflexivity.
  - lia.
Defined.

Lemma synced_write_survives_witness :
  ∃ s s1 : World MemFS ra_file * DB Z w_file, is_open (u := DefaultCmp) s 0 [] 5 ∧ db_write (EN := TestWal.EN) no_text elements TestWal.clock 0 0 (TestWal.batch TestWal.ops1) true s = Ret (s1, Ok ())
    ∧ is_open (u := DefaultCmp) s1 0 [TestWal.ops1] 5.
Proof.
  destruct made as (s & S & Hp & Hr & _). exists s.
  destruct (synced_write_survives (IEL := Reference.ref_encoding_laws) (CRL := Reference.ref_crc_laws) no_text elements (λ s, reflexivity _) TestWal.clock canon no_text
    (u := DefaultCmp) TestManifest.id_ok 0 0 s 0 [] 5 (TestWal.batch TestWal.ops1) TestWal.ops1 TestStorage.uopts false no_blocks S Hr) as (s1 & E1 & S1 & _).
  - reflexivity.
  - done.
  - done.
  - exact TestWal.ops_ok.
  - done.
  - rewrite Hp. exact options_good.
  - apply fits_ops. vm_compute. reflexivity.
  - lia.
  - exists s1. split_and!; [exact S|exact E1|exact S1].
Defined.

Lemma close_reopen_witness :
  ∃ s s1 : World MemFS ra_file * DB Z w_file, is_open (u := DefaultCmp) s 0 [] 5 ∧ close (EN := TestWal.EN) s = Ret (s1, Ok ()) ∧ ¬ locked (w_env s1.1) (lock_file_name (db_path s.2)).
Proof.
  destruct made as (s & S & Hp & Hr & _). exists s.
  destruct (close_reopen (IEL := Reference.ref_encoding_laws) (CRL := Reference.ref_crc_laws) no_text elements (λ s, reflexivity _) TestWal.clock canon no_text
    (u := DefaultCmp) TestManifest.id_ok s 0 [] 5 TestStorage.uopts false no_blocks S) as (s1 & E1 & L1 & _).
  - rewrite Hp. exact options_good.
  - apply fits_ops. vm_compute. reflexivity.
  - lia.
  - exists s1. split_and!; [exact S|exact E1|exact L1].
Defined.

Lemma open_locked_witness :
  ∃ (e : MemFS) w x, locked e "db/LOCK"%string ∧ DB_open (EN := TestWal.EN) (G := Z) no_text elements TestWal.clock canon no_text 0 0 0 "db" TestStorage.uopts false no_blocks e = Ret (w, Err x)
    ∧ code x = LockError.
Proof.
  destruct made as (s & (mn & es & c & n & S & _) & Hp & _). exists (w_env s.1). pose proof (od_lock _ _ _ _ _ _ _ _ _ S) as (l & _ & _ & Hl). rewrite Hp in Hl.
  destruct (open_locked (G := Z) no_text elements TestWal.clock canon no_text 0 0 0 (w_env s.1) "db" TestStorage.uopts false no_blocks options_good
    (wi_env _ _ _ (od_wal _ _ _ _ _ _ _ _ _ S)) Hl) as (w & x & E1 & Hx & _).
  exists w, x. split_and!; [exact Hl|exact E1|exact Hx].
Defined.

End open_witnesses.
