(* ===== verification/Flush.v ===== *)
(** * Flush: writing a memtable to a table

    [build_table], [write_l0_table] and [compact_memtable] of [src/db_impl.rs]: the entries of
    a memtable become a table file, the version gets the file, and the files that are not
    needed any more are deleted. *)

From Stdlib Require Import Ascii.
From S2P Require Import Prelude Encoding Error Io Env BufWriter MemEnv Types Cmp KeyTypes Log Iterator SkipMap MemTable WriteBatch Filter FilterBlock Options BlockBuilder Block Cache TableBuilder Table TableFile TableRead TableCache Version VersionEdit Snapshot MergingIter VersionSet Builder Manifest Recover Tables DbImpl Wal Open.

(** ** The table file *)

Section build.
Context `{IEL : IntegerEncodingLaws} `{CRL : Crc32Laws} `{EL : EnvLaws E} `{RG : Rng G}.
Context {FW : FixedIntWriter (E * BufWriter w_file)} (RF : ∀ e p, ReliableFixedInt (E * BufWriter w_file) (RW := buf_writer e p)).

(** The first and the last key of what is added to a table. *)
Definition first_key (first : option bytes) (l : list entry) : option bytes := match first with None => fst <$> hd_error l | _ => first end.
Definition last_key (k : bytes) (l : list entry) : bytes := from_option fst k (last l).

(** The loop adds the entries that the iterator shows. *)
Lemma build_loop_ok `{FI : ForwardIterator c It} (fuel : nat) : ∀ (from : It) l p i first kbuf (tb : TableBuilder (E * BufWriter w_file)),
  view from l p → p ≠ Off → pos_next l p = at_or_off l i → (i ≤ length l)%nat → (length l - i < fuel)%nat →
  build_loop fuel from first kbuf tb
  = ('(tb, r) ← tb_adds (drop i l) tb; Ret (tb, match r with Ok _ => Ok (first_key first (drop i l), last_key kbuf (drop i l)) | Err x => Err x end)).
Proof.
  induction fuel as [|fuel IH]; intros from l p i first kbuf tb V Hp Hn Hi Hf; [lia|]. cbn [build_loop].
  destruct (advance_law from l p V Hp) as (from' & -> & V'). rewrite Hn in *. rewrite bind_Ret. destruct (decide (i < length l)%nat) as [Hlt|Hge].
  - rewrite at_or_off_lt in * by done. cbn [on_entry]. destruct (lookup_lt_is_Some_2 l i Hlt) as [[k v] He].
    rewrite (current_law from' l _ V'). cbn [entry_at]. rewrite He, bind_Ret. cbn [unwrap]. rewrite bind_Ret, (drop_S _ _ _ He). cbn [tb_adds]. unfold sbind.
    destruct (tb_add k v tb) as [[tb' [[]|x]]| |]; [|done..]. rewrite !bind_Ret.
    rewrite (IH from' l (At i) (S i)); [|done..|lia|lia]. destruct (tb_adds (drop (S i) l) tb') as [[tb'' [[]|x]]| |]; [|done..]. rewrite !bind_Ret.
    do 3 f_equal. f_equal.
    + by destruct first.
    + unfold last_key. rewrite last_cons. by destruct (last (drop (S i) l)).
  - rewrite at_or_off_ge by lia. cbn [on_entry]. rewrite drop_ge by lia. cbn [tb_adds]. rewrite bind_Ret. by destruct first.
Qed.

(** [build_table] of the entries [l] that the iterator shows. *)
Section table.
Context (opt : Options).
Abbreviation o := (with_internal_keys opt) (only parsing).
Context {OC : OrderedCmp (o_cmp o)} `{FI : ForwardIterator (o_cmp o) It}.
Context (comp : Compressor) (fits : list bytes → Prop) (per_key base : Z) (l : list entry) (BA : buildable o comp fits per_key base l).

(** The builder of a new file, after the loop and [finish]. *)
Lemma build_finish e p f : env_ok e → appends_to e f p → contents e !! p = Some [] →
  ∃ tb file Bs, TableFile.build_table o (e, BufWriter_new f) l = Ret (tb, Ok (zlen file))
    ∧ table_file o l file Bs ∧ zlen file ≤ table_bound o per_key base l ∧ ∃ e', tb_drop tb = Ret e' ∧ kept [p] e e' ∧ contents e' = <[p := file]> (contents e).
Proof.
  intros He Ha Hc. destruct (build_table_ok (RW := buf_writer e p) (RF := RF e p) o comp fits per_key base l BA (e, BufWriter_new f)) as (tb & Bs & E1 & TF & Wr & Hb).
  { cbn. split_and!; [by apply kept_refl|done|]. exists []. by rewrite insert_id. }
  { cbn. by rewrite Hc. }
  exists tb, (written (ReliableWrite := buf_writer e p) (tb_dst tb)), Bs. split_and!; [done..|]. destruct tb as [? [e1 b1] ? ? ? ? ? ?]. cbn [tb_dst] in *.
  unfold tb_drop, BufWriter_drop. cbn [tb_dst fst snd].
  destruct (flush_buf_ok (RW := env_writer e p) (e1, b1) Wr) as (e2 & w2 & -> & W2 & (K & A & b & C)). rewrite bind_Ret. exists e2. split_and!; [done..|].
  cbn in W2. rewrite C, lookup_insert_eq in W2. cbn in W2. by rewrite C, W2.
Qed.

(** [build_table] runs to the end of the file. *)
Lemma build_run (fuel : nat) (db : string) (num : Z) (from : It) (e : E) (path : string) : view from l Start → (length l < fuel)%nat → table_file_name db num = Ret path → env_ok e →
  ∃ (e' : E) (file : bytes) Bs, table_file o l file Bs ∧ zlen file ≤ table_bound o per_key base l ∧ kept [path] e e' ∧ contents e' = <[path := file]> (contents e)
    ∧ build_table fuel db opt from num e
      = match first_key None l with
        | Some key => Ret (e', Ok (mkFile 0 num (zlen file) key (last_key [] l)))
        | None => '(e, _) ← env_delete path e'; Ret (e, Ok FileMetaData_default)
        end.
Proof.
  intros V Hf Hp He. unfold build_table. destruct (reset_law _ _ _ V) as (from' & -> & V'). rewrite bind_Ret, Hp, bind_Ret.
  destruct (open_writable_law path e He) as (e1 & f & -> & K1 & C1 & A1). rewrite bind_Ret.
  rewrite (build_loop_ok fuel from' l Start 0) by (done || lia). rewrite drop_0.
  destruct (build_finish e1 path f (proj1 K1) A1) as (tb & file & Bs & E2 & TF & Hb & e2 & E3 & K2 & C2); [by rewrite C1, lookup_insert_eq|].
  unfold TableFile.build_table, sbind in E2. change (TableBuilder_new opt) with (TableBuilder_new_raw (W := E * BufWriter w_file) o).
  destruct (tb_adds l _) as [[tb1 [[]|x]]| |]; [|done..]. change (tb_finish tb1 = Ret (tb, Ok (zlen file))) in E2.
  rewrite !bind_Ret, E2, !bind_Ret, E3, !bind_Ret.
  assert (kept [path] e e2) as K by (by eapply kept_trans). assert (contents e2 = <[path := file]> (contents e)) as C by (by rewrite C2, C1, insert_insert_eq).
  exists e2, file, Bs. split_and!; [done..|]. destruct (first_key None l) as [key|]; [|done].
  rewrite (size_law path e2 file (proj1 K)) by (by rewrite C, lookup_insert_eq). by rewrite bind_Ret.
Qed.

End table.
End build.

(** ** [write_l0_table] *)

(** What the code relies on of the clock: it does not run backwards, and reading it changes
    nothing. *)
Class Clock `{EL : EnvLaws E} (micros : E → exec (E * Z)) := {
  now : E → Z;
  now_range e : 0 ≤ now e < 2 ^ 62;
  now_mono ps e e' : kept ps e e' → now e ≤ now e';
  clock_law e : env_ok e → ∃ e', micros e = Ret (e', now e') ∧ kept [] e e' ∧ contents e' = contents e;
}.

(** The statistics have room for more. *)
Definition stats_ok (cs : list CompactionStats) : Prop :=
  length cs = Z.to_nat NUM_LEVELS ∧ Forall (λ c, cst_micros c < 2 ^ 63 ∧ cst_read c < 2 ^ 64 ∧ cst_written c < 2 ^ 63) cs.

Section write.
Context `{IEL : IntegerEncodingLaws} `{CRL : Crc32Laws} `{EL : EnvLaws E} `{RG : Rng G}.
Context {FW : FixedIntWriter (E * BufWriter w_file)} (RF : ∀ e p, ReliableFixedInt (E * BufWriter w_file) (RW := buf_writer e p)).
Context (debug_bytes : bytes → string) (order : gset (Z * Z) → list (Z * Z)) (micros : E → exec (E * Z)) {CK : Clock micros}.
Context (opt : Options) {UO : OrderedCmp (o_cmp opt)}.
Abbreviation u := (o_cmp opt) (only parsing).
Abbreviation o := (with_internal_keys opt) (only parsing).
Implicit Types (s : World E ra_file * DB G w_file) (st : Storage E ra_file) (C : list (CacheKey * Table ra_file)).
#[local] Instance internal_ordered : OrderedCmp (o_cmp o) := InternalKeyCmp_ordered (u := u).

Lemma clock_tick s : env_ok (w_env s.1) →
  ∃ e', on_env micros s = Ret ((set_env e' s.1, s.2), now e') ∧ kept [] (w_env s.1) e' ∧ contents e' = contents (w_env s.1).
Proof. intros He. destruct s as [w db]. unfold on_env. cbn [fst snd] in *. destruct (clock_law (w_env w) He) as (e' & -> & K & Ce). rewrite bind_Ret. by exists e'. Qed.

(** A table that is not open yet is opened from its file. *)
Lemma get_table_new st db C n path l file Bs : tables_open opt st db C → filenum_to_key n ∉ C.*1 → table_file_name db n = Ret path → env_ok (st_env st) →
  contents (st_env st) !! path = Some file → table_file o l file Bs → 0 ≤ c_id (st_blocks st) → c_id (st_blocks st) + 1 < 2 ^ 64 →
  ∃ st' t f, get_table debug_bytes n st = Ret (st', Ok t)
    ∧ tables_open opt st' db ((filenum_to_key n, t) :: take (Z.to_nat (c_cap (tc_cache (st_tables st)) - 1)) C)
    ∧ c_id (st_blocks st') = c_id (st_blocks st) + 1 ∧ c_cap (tc_cache (st_tables st')) = c_cap (tc_cache (st_tables st))
    ∧ kept [] (st_env st) (st_env st') ∧ contents (st_env st') = contents (st_env st) ∧ opened_at (st_env st') f path ∧ table_of o f Bs t
    ∧ (cache_ids (st_blocks st) → cache_good o file Bs t (st_blocks st')).
Proof.
  intros [T1 T2 T3] Hn Hp He Hf TF T4 Hid. unfold get_table. rewrite (cache_get_miss _ _ _ T3 Hn), bind_Ret.
  unfold open_table. cbn [st_tables with_cache st_env tc_dbname]. rewrite T1, Hp, bind_Ret, (size_law path _ _ He Hf), bind_Ret.
  pose proof (table_file_size opt _ _ _ TF). ztest.
  destruct (open_random_law path _ _ He Hf) as (e' & f & -> & K & Ce & Ho). rewrite bind_Ret. cbn [st_tables with_cache with_env st_env st_blocks tc_opts]. rewrite T2.
  assert (file_holds (H := ra_read e') f file) as Hh by (eapply opened_holds; [apply K|done|by rewrite Ce]).
  destruct (table_new_ok (RA := ra_read e') o l f file Bs Hh TF debug_bytes (st_blocks st) Hid T4) as (t & E1 & HT & Hti).
  unfold Table_new. rewrite E1, bind_Ret. cbn [with_blocks st_tables].
  destruct (cache_insert_ok _ _ (filenum_to_key n) t T3 Hn) as (c' & E2 & HC & Hcap & _). cbn [tc_cache with_cache with_blocks with_env st_tables]. rewrite E2, bind_Ret.
  eexists _, t, f. split_and!; [done|split; cbn; try done; lia|done|done|exact K|exact Ce|exact Ho|exact HT|intros Hids; by apply cache_good_new].
Qed.

Lemma add_stats_ok s level c : stats_ok (db_cstats s.2) → level_ok level → cst_micros c < 2 ^ 63 → cst_read c = 0 → cst_written c < 2 ^ 63 →
  ∃ cs, add_stats level c s = Ret (s.1, set_cstats cs s.2) ∧ length cs = Z.to_nat NUM_LEVELS.
Proof.
  intros [Hl Hf] Hlv H1 H2 H3. destruct s as [w db]. cbn [fst snd] in *. unfold add_stats, level_ok in *. ztest. cbn [massert]. rewrite bind_Ret.
  destruct (lookup_lt_is_Some_2 (db_cstats db) (Z.to_nat level)) as [c0 Hc]; [lia|]. rewrite Forall_lookup in Hf. destruct (Hf _ _ Hc) as (F1 & F2 & F3).
  rewrite (index_Z _ level c0 ltac:(lia) Hc), bind_Ret. unfold stats_add. rewrite !uadd_Ret by lia. rewrite !bind_Ret.
  rewrite <- (Z2Nat.id level) by lia. rewrite (set_index_lookup _ _ _ _ Hc), bind_Ret. eexists. split; [done|]. by rewrite length_insert.
Qed.

(** The memtable entries [L] can be written to a table: see [buildable]. *)
Definition flushable (L : list mentry) : Prop := ∃ comp fits per_key base, buildable o comp fits per_key base (shown <$> L).

(** The table has less than [max] bytes then. *)
Definition flushable_within (L : list mentry) (max : Z) : Prop :=
  ∃ comp fits per_key base, buildable o comp fits per_key base (shown <$> L) ∧ table_bound o per_key base (shown <$> L) < max.

Lemma flushable_bounded L : flushable L → ∃ max, flushable_within L max.
Proof. intros (comp & fits & per_key & base & B). exists (table_bound o per_key base (shown <$> L) + 1), comp, fits, per_key, base. split; [done|lia]. Qed.

(** User keys ascending, sequence numbers descending. *)
Definition mentries_sorted (L : list mentry) : Prop := StronglySorted (λ a b, ord (InternalKeyCmp u) (shown a).1 (shown b).1 = Lt) L.

Lemma holds_mentries_sorted mt L : mt_holds (u := u) (G := G) mt L → mentries_sorted L.
Proof.
  intros [Hh HL]. apply holds_sorted, shown_sorted in Hh; [|done]. unfold mentries_sorted. induction L as [|a L IH]; [constructor|]. rewrite fmap_cons in Hh.
  apply StronglySorted_inv in Hh as [Hh Ha]. apply Forall_cons in HL as [_ HL]. constructor; [by apply IH|]. by rewrite Forall_fmap in Ha.
Qed.

(** The metadata of the table of [L] with the number [n]. *)
Definition table_meta (n : Z) (file : bytes) (L : list mentry) : FileMetaData :=
  mkFile 0 n (zlen file) (default [] (first_key None (shown <$> L))) (last_key [] (shown <$> L)).

(** The level of a new table. *)
Definition output_level (M : Metas) (base : option Version) (d : FileMetaData) (level : Z) : Prop :=
  match base with Some b => pick_memtable_output_level M b (ukey_of (smallest d)) (ukey_of (largest d)) = Ret level | None => level = 0 end.

Lemma table_meta_keys n file L : L ≠ [] → ∃ a b, a ∈ L ∧ b ∈ L ∧ hd_error L = Some a ∧ last L = Some b
  ∧ smallest (table_meta n file L) = (shown a).1 ∧ largest (table_meta n file L) = (shown b).1.
Proof.
  intros Hl. destruct L as [|a L]; [done|]. destruct (last (a :: L)) as [b|] eqn:Eb; [|by apply last_None in Eb]. exists a, b.
  split_and!; [left|by apply last_Some_elem_of|done|done|done|]. cbn [largest table_meta]. unfold last_key. by rewrite fmap_last, Eb.
Qed.

Lemma table_meta_ukeys n file L : L ≠ [] → let d := table_meta n file L in
  parsed_ukey (smallest d) = Ret (ukey_of (smallest d)) ∧ parsed_ukey (largest d) = Ret (ukey_of (largest d)).
Proof. intros Hl. cbv zeta. destruct (table_meta_keys n file L Hl) as (a & b & _ & _ & _ & _ & -> & ->). split; apply parsed_ukey_ok; cbn; rewrite length_ikey; lia. Qed.

(** The memtable becomes the table number [n], the next free number. *)
Lemma write_l0_ok fuel s mt L max ve base C level path : let n := next_file_num (db_vset s.2) in
  env_ok (w_env s.1) → db_opt s.2 = opt → tables_open opt (w_storage s.1) (db_path s.2) C → filenum_to_key n ∉ C.*1 →
  0 ≤ c_id (st_blocks (w_storage s.1)) → c_id (st_blocks (w_storage s.1)) + 1 < 2 ^ 64 → 0 < n < 2 ^ 64 - 1 → table_file_name (db_path s.2) n = Ret path →
  mt_holds (u := u) mt L → L ≠ [] → flushable_within L max → (length L < fuel)%nat → stats_ok (db_cstats s.2) →
  output_level (w_metas s.1) base (table_meta n [] L) level → level_ok level →
  ∃ st file Bs t f cs, write_l0_table debug_bytes micros fuel mt ve base s
      = Ret ((set_storage st s.1, set_cstats cs (set_vset (set_next_file_num (n + 1) (db_vset s.2)) s.2)), Ok (add_file level (table_meta n file L) ve))
    ∧ table_file o (shown <$> L) file Bs ∧ zlen file < max ∧ kept [path] (w_env s.1) (st_env st) ∧ contents (st_env st) = <[path := file]> (contents (w_env s.1))
    ∧ tables_open opt st (db_path s.2) ((filenum_to_key n, t) :: take (Z.to_nat (c_cap (tc_cache (st_tables (w_storage s.1))) - 1)) C)
    ∧ opened_at (st_env st) f path ∧ table_of o f Bs t ∧ length cs = Z.to_nat NUM_LEVELS.
Proof.
  intros n He Ho HT Hn Hid0 Hid Hnum Hp [Hmt HL] Hne (comp & fits & per_key & bs & BA & Hmax) Hfuel Hst Hlev Hlv. unfold write_l0_table.
  destruct (clock_tick s He) as (e1 & -> & K1 & C1). rewrite bind_Ret. unfold db_new_file_number at 1, new_file_number. fold n. cbn [fst snd].
  rewrite uadd_Ret, !bind_Ret by lia. replace (n + 1 - 1) with n by lia.
  set (s1 := (set_env e1 s.1, set_vset (set_next_file_num (n + 1) (db_vset s.2)) s.2)). unfold on_env at 1. change (db_path s1.2) with (db_path s.2). change (db_opt s1.2) with (db_opt s.2).
  unfold s1. clear s1. change (w_env (set_env e1 s.1)) with e1. rewrite Ho.
  destruct (build_run RF opt (FI := MemtableIterator_forward (u := u)) comp fits per_key bs (shown <$> L) BA fuel (db_path s.2) n (memtable_iter mt) e1 path)
    as (e2 & file & Bs & TF & Hb & K2 & C2 & E2).
  { exists L. split_and!; [done..|]. destruct Hmt as (Es & I & HE). by exists Es. }
  { by rewrite length_fmap. }
  { done. }
  { apply K1. }
  destruct L as [|a L0] eqn:EL'; [done|]. rewrite <- EL' in *. assert (first_key None (shown <$> L) = Some (shown a).1) as Efk by (by rewrite EL'). rewrite Efk in E2. rewrite E2, bind_Ret, sbind_Ok.
  change (mkFile 0 n (zlen file) (shown a).1 (last_key [] (shown <$> L))) with (mkFile 0 n (zlen file) (default [] (Some (shown a).1)) (last_key [] (shown <$> L))).
  rewrite <- Efk. fold (table_meta n file L). pose proof (table_file_size opt _ _ _ TF) as Hpos. cbn [size table_meta]. ztest.
  unfold on_storage at 1. cbn [fst snd]. change (w_storage (set_env e2 (set_env e1 s.1))) with (with_env e2 (w_storage s.1)).
  destruct (get_table_new (with_env e2 (w_storage s.1)) (db_path s.2) C n path (shown <$> L) file Bs) as (st & t & f & E3 & HT3 & Hid3 & Hcap3 & K3 & C3 & Hf3 & Ht3 & _); [destruct HT; by split|done|done|apply K2|cbn; by rewrite C2, lookup_insert_eq|done|done|done|].
  rewrite E3, !bind_Ret. set (s3 := (set_storage st s.1, set_vset (set_next_file_num (n + 1) (db_vset s.2)) s.2)).
  change (set_storage st (set_env e2 (set_env e1 s.1))) with (set_storage st s.1). fold s3.
  destruct (clock_tick s3 (proj1 K3)) as (e4 & -> & K4 & C4). rewrite bind_Ret.
  assert (now e1 ≤ now e4) as Hnow by (etrans; [by eapply now_mono|]; etrans; [by eapply now_mono|]; by eapply now_mono). pose proof (now_range e4). pose proof (now_range e1).
  rewrite usub_Ret, bind_Ret by done. destruct (table_meta_ukeys n file L) as [U1 U2]; [by rewrite EL'|].
  assert ((match base with None => Ret 0 | Some b => lo ← parsed_ukey (smallest (table_meta n file L)); hi ← parsed_ukey (largest (table_meta n file L));
    pick_memtable_output_level (w_metas (set_env e4 s3.1, s3.2).1) b lo hi end) = Ret level) as ->.
  { destruct base as [b|]; cbn in Hlev; [|by rewrite Hlev]. by rewrite U1, bind_Ret, U2, bind_Ret. }
  rewrite bind_Ret. destruct (add_stats_ok (set_env e4 s3.1, s3.2) level {| cst_micros := now e4 - now e1; cst_read := 0; cst_written := zlen file |}) as (cs & -> & Hcs);
    [exact Hst|done|cbn; lia|done|cbn; pose proof (tf_size _ _ _ _ TF); lia|].
  rewrite bind_Ret. exists (with_env e4 st), file, Bs, t, f, cs. split_and!; [done|done|lia| | | | |done|done].
  - eapply kept_trans; [exact K1| |apply list_subseteq_nil|done]. eapply kept_trans; [exact K2| |done|done]. eapply kept_trans; [exact K3|exact K4|apply list_subseteq_nil..].
  - etrans; [exact C4|]. etrans; [exact C3|]. cbn. by rewrite C2, C1.
  - destruct HT3. by split.
  - apply K4; [apply not_elem_of_nil|done].
Qed.

Lemma table_meta_ok n file L : mentries_sorted L → L ≠ [] → Forall (mentry_ok (u := u)) L → is_u 64 n → zlen file < 2 ^ 64 →
  let d := table_meta n file L in meta_ok (u := u) d ∧ core d = d ∧ zlen (ukey_of (smallest d)) + 8 < 2 ^ 63 ∧ zlen (ukey_of (largest d)) + 8 < 2 ^ 63.
Proof.
  intros Hs Hne HL Hn Hsz. cbv zeta. destruct (table_meta_keys n file L Hne) as (a & b & Ha & Hb & Hh & Hla & E1 & E2). rewrite Forall_forall in HL.
  pose proof (HL a Ha) as Oa. pose proof (HL b Hb) as Ob. destruct (mentry_len a Oa) as (La & _), (mentry_len b Ob) as (Lb & _). destruct Oa as (Sa & Ka & _), Ob as (Sb & Kb & _).
  assert (is_u 64 (zlen file)) by (unfold is_u; lia).
  unfold meta_ok. rewrite E1, E2. cbn [shown fst]. rewrite !ukey_of_ikey. split_and!; try done; try (by apply ikey_wf); try (unfold key_fits; rewrite length_ikey; lia).
  destruct L as [|a' L]; [done|]. injection Hh as ->. apply StronglySorted_inv in Hs as [_ Hs]. rewrite Forall_forall in Hs.
  apply elem_of_cons in Hb as [->|Hin]; [by rewrite ord_refl|]. specialize (Hs b Hin). intros Hx. cbn in Hs, Hx. congruence.
Qed.

End write.

(** ** [compact_memtable] *)

Section compact.
Context `{IEL : IntegerEncodingLaws} `{CRL : Crc32Laws} `{EL : EnvLaws E} `{RG : Rng G}.
Context {FW : FixedIntWriter (E * BufWriter w_file)} (RF : ∀ e p, ReliableFixedInt (E * BufWriter w_file) (RW := buf_writer e p)).
Context (debug_bytes : bytes → string) (order : gset (Z * Z) → list (Z * Z)) (order_ok : ∀ s, order s ≡ₚ elements s) (micros : E → exec (E * Z)) {CK : Clock micros}.
Context (opt : Options) {UO : OrderedCmp (o_cmp opt)} (Hid : utf8_valid (string_bytes (cmp_id (o_cmp opt))) = true ∧ key_fits (string_bytes (cmp_id (o_cmp opt)))).
Abbreviation u := (o_cmp opt) (only parsing).
Abbreviation o := (with_internal_keys opt) (only parsing).
Implicit Types (s : World E ra_file * DB G w_file) (es : list VersionEdit).

(** A database whose version has the files that the edits [es] give; only tables of the version
    are open. *)
Record with_tables s es : Prop := {
  wt_vs : vs_inv (u := u) s.1 (db_vset s.2) es;
  wt_opt : db_opt s.2 = opt;
  wt_names : vs_dbname (db_vset s.2) = db_path s.2 ∧ db_path s.2 ≠ ""%string;
  wt_open : cached_tables s es;
  wt_next : 0 < next_file_num (db_vset s.2) ∧ ∀ k, k ∈ keys_used es → 0 ≤ k.2 < next_file_num (db_vset s.2);
  wt_log : 0 ≤ log_num (db_vset s.2) ≤ default 0 (db_log_num s.2) ∧ default 0 (db_log_num s.2) < next_file_num (db_vset s.2);
  wt_seq : is_u 64 (prev_log_num (db_vset s.2)) ∧ is_u 64 (vs_last_seq (db_vset s.2));
}.

(** There are numbers, cache ids and bytes left for another table. *)
Record table_room s es : Prop := {
  tr_next : next_file_num (db_vset s.2) < 2 ^ 64 - 1;
  tr_id : 0 ≤ c_id (st_blocks (w_storage s.1)) < 2 ^ 64 - 1;
  tr_bytes : map_bytes (files_of es) + 2 ^ 36 < 2 ^ 64;
  tr_stats : stats_ok (db_cstats s.2);
}.

(** What flushing a memtable to the table at [path] changes. *)
Definition flush_touches (db path : string) (vs vs' : VersionSet w_file) (files : gset Z) (p : string) : Prop :=
  p = path ∨ p ∈ manifest_paths vs ∨ ∃ name, p = path_join db name ∧ obsolete files vs' name.

Lemma manifest_not_obsolete vs files : is_u 64 (manifest_num vs) → ¬ obsolete files vs (manifest_name (manifest_num vs)).
Proof. intros Hm. unfold obsolete. rewrite parse_manifest by done. lia. Qed.

Lemma with_tables_live s es : with_tables s es → live_files s.1 (db_vset s.2) = Ret (numbers (files_of es)) ∧ uncached (numbers (files_of es)) s.
Proof.
  intros [I Ho Hn Ht _ _ _]. destruct (vi_current _ _ _ I) as (l & v & El & Ev & R). pose proof (hi_map _ (vi_history _ _ _ I)) as Hm.
  split; [by eapply live_files_ok|by eapply (cached_uncached (u := u))].
Qed.

Lemma with_tables_env s e' ps es : with_tables s es → kept ps (w_env s.1) e' →
  (let p := manifest_file_name (db_path s.2) (manifest_num (db_vset s.2)) in p ∉ ps ∧ contents e' !! p = contents (w_env s.1) !! p) → with_tables (set_env e' s.1, s.2) es.
Proof.
  intros [I Ho [Hn1 Hn2] Ht Hnx Hl Hq] K Hp. split; try done.
  - eapply vs_inv_keep; [exact I|exact K| |done..]. intros _. by rewrite Hn1.
  - by eapply cached_env.
Qed.

(** [delete_obsolete_files] keeps the tables of the version. *)
Lemma delete_tables_ok s es : with_tables s es →
  ∃ e' ps, delete_obsolete_files s = Ret ((set_env e' s.1, s.2), Ok ()) ∧ with_tables (set_env e' s.1, s.2) es ∧ kept ps (w_env s.1) e'
    ∧ (∀ p, contents e' !! p = if decide (p ∈ ps) then None else contents (w_env s.1) !! p)
    ∧ (∀ p, p ∈ ps → ∃ name, p = path_join (db_path s.2) name ∧ obsolete (numbers (files_of es)) (db_vset s.2) name)
    ∧ ∀ name, obsolete (numbers (files_of es)) (db_vset s.2) name → contents e' !! path_join (db_path s.2) name = None.
Proof.
  intros H. destruct (with_tables_live s es H) as [Hlive Hunc]. pose proof (wt_vs _ _ H) as I. destruct (wt_names _ _ H) as [Hn1 Hn2].
  destruct (children_law (db_path s.2) (w_env s.1) (vi_env _ _ _ I) Hn2) as (names & Hch & _ & Hin).
  destruct (delete_names_ok _ names s (vi_env _ _ _ I) Hunc) as (e' & E' & K & C'). set (ps := path_join _ <$> _) in *.
  assert (∀ p, p ∈ ps → ∃ name, p = path_join (db_path s.2) name ∧ obsolete (numbers (files_of es)) (db_vset s.2) name) as Hps.
  { intros p (name & -> & [? _]%list_elem_of_filter)%list_elem_of_fmap. by exists name. }
  assert (manifest_file_name (db_path s.2) (manifest_num (db_vset s.2)) ∉ ps) as Hmp.
  { intros (name & <-%path_join_inj & Hob)%Hps. by apply (manifest_not_obsolete _ _ (vi_num _ _ _ I)) in Hob. }
  exists e', ps. split_and!; [|eapply with_tables_env; [done|exact K|split; [done|by rewrite C', decide_False]]|done..|].
  - unfold delete_obsolete_files. destruct s as [w db]. cbn [fst snd] in *. by rewrite Hlive, bind_Ret, Hch, bind_Ret, E'.
  - intros name Hob. rewrite C'. case_decide as Hp; [done|]. destruct (contents (w_env s.1) !! path_join (db_path s.2) name) eqn:Ec; [|done]. destruct Hp.
    apply list_elem_of_fmap. exists name. split; [done|]. apply list_elem_of_filter. split; [done|]. apply Hin. by eexists.
Qed.

Lemma numbers_used s es n : with_tables s es → n ∈ numbers (files_of es) → 0 ≤ n < next_file_num (db_vset s.2).
Proof.
  intros H Hn. unfold numbers in Hn. apply elem_of_map in Hn as ([l n'] & -> & Hd%elem_of_dom). apply (wt_next _ _ H).
  apply (files_used es); [|done]. apply (vi_history _ _ _ (wt_vs _ _ H)).
Qed.

(** The new number is that of no open table. *)
Lemma fresh_number s es (C : list (CacheKey * Table ra_file)) : with_tables s es → next_file_num (db_vset s.2) < 2 ^ 64 →
  (∀ k t, (k, t) ∈ C → ∃ n, k = filenum_to_key n ∧ n ∈ numbers (files_of es)) → filenum_to_key (next_file_num (db_vset s.2)) ∉ C.*1.
Proof.
  intros H Hlt HC ([k t] & Ek & Hin)%list_elem_of_fmap. cbn in Ek. destruct (HC k t Hin) as (n' & -> & Hn'). pose proof (numbers_used s es n' H Hn').
  pose proof (wt_next _ _ H) as [? _]. apply filenum_to_key_inj in Ek; [lia|unfold is_u; lia|unfold is_u; lia].
Qed.

Lemma table_path_not_manifest vs n : is_u 64 (manifest_num vs) → is_u 64 n → path_join (vs_dbname vs) (table_base n) ∉ manifest_paths vs.
Proof. intros Hm Hn Hin. destruct (manifest_path_name vs _ Hm Hin) as (k & typ & Hp & _ & _ & Ht). rewrite table_base_parse in Hp by done. by injection Hp. Qed.

(** The level for the table of [L]. *)
Lemma level_for s es L : with_tables s es → next_file_num (db_vset s.2) < 2 ^ 64 → mentries_sorted opt L → L ≠ [] → Forall (mentry_ok (u := u)) L →
  ∃ v level, db_current s = Ret v ∧ output_level (w_metas s.1) (Some v) (table_meta (next_file_num (db_vset s.2)) [] L) level ∧ level_ok level
    ∧ ∀ file, apart (u := u) (files_of es) level (table_meta (next_file_num (db_vset s.2)) file L).
Proof.
  intros H Hlt Hs Hne HL. destruct (vi_current _ _ _ (wt_vs _ _ H)) as (l & v & El & Ev & R). pose proof (hi_map _ (vi_history _ _ _ (wt_vs _ _ H))) as Hm.
  pose proof (wt_next _ _ H) as [Hpos _]. set (n := next_file_num (db_vset s.2)) in *. destruct (table_meta_ok opt n [] L Hs Hne HL) as (D1 & D2 & D3 & D4); [unfold is_u; lia|by cbn|].
  destruct (picked_apart _ _ _ _ _ Hm R D1 D3 D4) as (level & Ep & Hl & Ha). exists v, level. split_and!; [|done|done|done].
  unfold db_current, current. rewrite El. cbn [unwrap]. by rewrite bind_Ret, Ev.
Qed.

(** A new table is written and the version gets it; the log before [db_log_num] is not needed
    any more. *)
Lemma flush_apply fuel s es mt L max : with_tables s es → table_room s es → mt_holds (u := u) mt L → L ≠ [] → flushable_within opt L max → (length L < fuel)%nat →
  let vs := db_vset s.2 in let n := next_file_num vs in let path := path_join (db_path s.2) (table_base n) in
  ∃ v level s1 s2 file Bs es',
    db_current s = Ret v
    ∧ write_l0_table debug_bytes micros fuel mt VersionEdit_new (Some v) s = Ret (s1, Ok (add_file level (table_meta n file L) VersionEdit_new))
    ∧ on_vset (log_and_apply order (set_log_num (default 0 (db_log_num s.2)) (add_file level (table_meta n file L) VersionEdit_new))) s1 = Ret (s2, Ok ())
    ∧ db_log_num s1.2 = db_log_num s.2 ∧ with_tables s2 es' ∧ table_file o (shown <$> L) file Bs ∧ zlen file < max ∧ level_ok level
    ∧ output_level (w_metas s.1) (Some v) (table_meta n file L) level
    ∧ files_of es' = <[(level, n) := table_meta n file L]> (files_of es) ∧ manifest (w_env s2.1) (db_path s.2) (manifest_num vs) es'
    ∧ contents (w_env s2.1) !! path = Some file ∧ kept (path :: manifest_paths vs) (w_env s.1) (w_env s2.1)
    ∧ (∀ p, p ∉ path :: manifest_paths vs → contents (w_env s2.1) !! p = contents (w_env s.1) !! p)
    ∧ (∃ vs' cs, s2.2 = set_vset vs' (set_cstats cs s.2) ∧ log_num vs' = default 0 (db_log_num s.2) ∧ next_file_num vs' = n + 1 ∧ vs_last_seq vs' = vs_last_seq vs
         ∧ manifest_num vs' = manifest_num vs ∧ prev_log_num vs' = prev_log_num vs)
    ∧ counters_of es' = Some (mkCounters (default 0 (db_log_num s.2)) (Some (prev_log_num vs)) (n + 1) (vs_last_seq vs))
    ∧ apart (u := u) (files_of es) level (table_meta n file L) ∧ ∃ v', db_current s2 = Ret v' ∧ scored_as (u := u) (files_of es') v'.
Proof.
  intros H [R1 R2 R3 R4] Hmt Hne HF Hfuel vs n path. pose proof H as [I Ho [Hn1 Hn2] (C & TO & HC) [X1 X2] (Y1 & Y2) (Z1 & Z2)]. rewrite Ho in TO. fold vs n in R1, X1, X2, Y1, Y2, Z1, Z2, Hn1.
  pose proof (holds_mentries_sorted opt mt L Hmt) as Hs. pose proof (proj2 Hmt) as HL. assert (is_u 64 n) as Hn64 by (unfold is_u; lia).
  destruct (level_for s es L H ltac:(fold vs n; lia) Hs Hne HL) as (v & level & Ev & Hlev & Hlv & Hap). fold vs n in Hlev, Hap.
  assert (table_file_name (db_path s.2) n = Ret path) as Ep by (unfold table_file_name; by ztest).
  destruct (write_l0_ok RF debug_bytes micros opt fuel s mt L max VersionEdit_new (Some v) C level path) as (st & file & Bs & t & f & cs & E1 & TF & Hmax & K1 & C1 & TO1 & _ & _ & Hcs);
    [apply I|done|done|by eapply fresh_number; [|fold vs n; lia|]|lia|lia|fold vs n; lia|done|done|done|done|done|done|done|done|].
  fold vs n in E1, TO1. pose proof (tf_size _ _ _ _ TF) as Hsz. destruct (table_meta_ok opt n file L Hs Hne HL Hn64 ltac:(lia)) as (D1 & D2 & _). set (d := table_meta n file L) in *.
  set (vs1 := set_next_file_num (n + 1) vs) in *. set (s1 := (set_storage st s.1, set_cstats cs (set_vset vs1 s.2))) in *.
  assert (path ∉ manifest_paths vs) as Hpm by (unfold path; rewrite <- Hn1; apply table_path_not_manifest; [apply I|done]).
  assert (vs_inv (u := u) s1.1 vs1 es) as I1.
  { eapply (vs_inv_storage s.1 vs vs1 es st [path]); [exact I|exact K1| |done..]. intros _ p. assert (p ≠ path) as Hpp by (intros Hp; apply Hpm; rewrite <- Hp; left).
    split; [by rewrite list_elem_of_singleton|]. by rewrite C1, lookup_insert_ne. }
  pose proof (hi_map _ (vi_history _ _ _ I)) as Hm.
  assert ((level, num d) ∉ keys_used es) as Hkey by (intros Hin%X2; cbn in Hin; lia).
  assert (files_of es !! (level, num d) = None) as Hnone by (apply eq_None_not_Some; intros Hin; apply Hkey, files_used; [apply (vi_history _ _ _ I)|done]).
  set (logn := default 0 (db_log_num s.2)) in *. set (edit := set_log_num logn (add_file level d VersionEdit_new)).
  assert (good_edit (u := u) vs1 es edit) as Hg.
  { apply table_edit_good; try done; try (cbn; lia). apply Hap. }
  destruct (log_and_apply_ok (u := u) order order_ok Hid s1.1 vs1 es edit I1 Hg) as (w2 & lw & es' & E2 & I2 & M2 & F2 & L2 & U2 & K2 & C2 & St2 & v2 & Ev2 & Sv2).
  assert (files_of es' = <[(level, n) := d]> (files_of es)) as F2'.
  { rewrite F2. unfold edit. change (edit_map (files_of es) (set_log_num logn (add_file level d VersionEdit_new))) with (edit_map (files_of es) (add_file level d VersionEdit_new)). by rewrite edit_map_add, D2. }
  set (vs2 := after_edit vs1 edit (length (w_versions s1.1)) lw) in *. set (s2 := (w2, set_vset vs2 s1.2)).
  exists v, level, s1, s2, file, Bs, es'. split_and!; [done|exact E1| |done| |done|done|done|exact Hlev|done|by rewrite <- Hn1| | | | | |apply Hap|].
  - exact (f_equal (λ m, '((w, vs), a) ← m; Ret ((w, set_vset vs s1.2), a)) E2).
  - split; cbn; try done.
    + exists ((filenum_to_key n, t) :: take (Z.to_nat (c_cap (tc_cache (st_tables (w_storage s.1))) - 1)) C). split; [destruct TO1; split; cbn; rewrite ?St2; try done; by rewrite Ho|].
      intros k t' [[= -> ->]|Hin]%elem_of_cons.
      * exists n. split; [done|]. unfold numbers. apply elem_of_map. exists (level, n). split; [done|]. rewrite F2'. apply elem_of_dom. rewrite lookup_insert_eq. by eexists.
      * destruct (HC k t' (subseteq_take _ _ _ Hin)) as (n' & -> & Hn'). exists n'. split; [done|].
        unfold numbers in Hn' |- *. rewrite F2'. set_solver.
    + split; [lia|]. intros k [Hk|Hk%elem_of_list_to_set]%U2%elem_of_union; [specialize (X2 k Hk); lia|]. apply list_elem_of_singleton in Hk as ->. cbn. lia.
    + lia.
  - cbn. rewrite C2 by exact Hpm. unfold w_env. cbn. by rewrite C1, lookup_insert_eq.
  - eapply kept_trans; [exact K1|exact K2|set_solver..].
  - intros p Hp. cbn. rewrite C2 by (intros Hin; apply Hp; by right). unfold w_env. cbn. rewrite C1, lookup_insert_ne; [done|]. intros ->. apply Hp. left.
  - exists vs2, cs. split_and!; try done.
  - by rewrite (counters_of_last _ _ _ L2).
  - exists v2. split; [|done]. change (unwrap (w_versions w2 !! length (w_versions s1.1)) = Ret v2). by rewrite Ev2.
Qed.

Lemma manifest_keep e e' db n es : manifest e db n es → contents e' !! current_file_name db = contents e !! current_file_name db →
  contents e' !! manifest_file_name db n = contents e !! manifest_file_name db n → manifest e' db n es.
Proof. intros [M1 M2] E1 E2. split; [by rewrite E1|]. by rewrite E2. Qed.

Lemma with_tables_imm i s es : with_tables s es → with_tables (s.1, set_imm i s.2) es.
Proof. by intros []. Qed.

Lemma compact_memtable_ok fuel s es mt L max : with_tables s es → table_room s es → db_imm s.2 = Some mt → mt_holds (u := u) mt L → L ≠ [] → flushable_within opt L max → (length L < fuel)%nat →
  let vs := db_vset s.2 in let n := next_file_num vs in let path := path_join (db_path s.2) (table_base n) in
  ∃ s' level file Bs es' ps, compact_memtable debug_bytes order micros fuel s = Ret (s', Ok ()) ∧ with_tables s' es'
    ∧ table_file o (shown <$> L) file Bs ∧ zlen file < max ∧ level_ok level ∧ (∃ v, db_current s = Ret v ∧ output_level (w_metas s.1) (Some v) (table_meta n file L) level)
    ∧ files_of es' = <[(level, n) := table_meta n file L]> (files_of es)
    ∧ manifest (w_env s'.1) (db_path s.2) (manifest_num vs) es' ∧ contents (w_env s'.1) !! path = Some file
    ∧ counters_of es' = Some (mkCounters (default 0 (db_log_num s.2)) (Some (prev_log_num vs)) (n + 1) (vs_last_seq vs))
    ∧ (∃ vs' cs, s'.2 = set_vset vs' (set_cstats cs (set_imm None s.2)) ∧ log_num vs' = default 0 (db_log_num s.2) ∧ next_file_num vs' = n + 1
         ∧ vs_last_seq vs' = vs_last_seq vs ∧ manifest_num vs' = manifest_num vs ∧ prev_log_num vs' = prev_log_num vs)
    ∧ kept ps (w_env s.1) (w_env s'.1) ∧ (∀ p, p ∈ ps → flush_touches (db_path s.2) path vs (db_vset s'.2) (numbers (files_of es')) p)
    ∧ (∀ p, p ∉ ps → contents (w_env s'.1) !! p = contents (w_env s.1) !! p)
    ∧ (∀ name, obsolete (numbers (files_of es')) (db_vset s'.2) name → contents (w_env s'.1) !! path_join (db_path s.2) name = None)
    ∧ apart (u := u) (files_of es) level (table_meta n file L) ∧ ∃ v', db_current s' = Ret v' ∧ scored_as (u := u) (files_of es') v'.
Proof.
  intros H R Hi Hmt Hne HF Hfuel vs n path. unfold compact_memtable. rewrite Hi. cbn [unwrap]. rewrite bind_Ret.
  destruct (flush_apply fuel (s.1, set_imm None s.2) es mt L max) as (v & level & s1 & s2 & file & Bs & es' & Ev & E1 & E2 & El & H2 & TF & Hmax & Hlv & Hout & F2 & M2 & C2 & K2 & Cs2 & (vs' & cs & Es & V1 & V2 & V3 & V4 & V5) & Hcn & Hap & Hsc);
    [by apply with_tables_imm|by destruct R|done..|]. cbn [fst snd] in *. change (db_vset (set_imm None s.2)) with vs in *. change (db_path (set_imm None s.2)) with (db_path s.2) in *.
  change (db_log_num (set_imm None s.2)) with (db_log_num s.2) in *. fold n path in E1, E2, F2, C2, K2, Cs2, V2, Hcn.
  change (db_current s = Ret v) in Ev. rewrite Ev, bind_Ret, E1, bind_Ret, El, E2, sbind_Ok.
  assert (db_path s2.2 = db_path s.2) as Hp2 by (by rewrite Es). assert (db_vset s2.2 = vs') as Hv2 by (by rewrite Es).
  destruct (delete_tables_ok s2 es' H2) as (e3 & ps & E3 & H3 & K3 & C3 & Hps & Hob). rewrite Hp2 in Hps, Hob. rewrite E3, bind_Ret. cbn [fst snd].
  assert (∀ name, ¬ obsolete (numbers (files_of es')) (db_vset s2.2) name → contents e3 !! path_join (db_path s.2) name = contents (w_env s2.1) !! path_join (db_path s.2) name) as Hkeep.
  { intros name Hno. rewrite C3, decide_False; [done|]. by intros (name' & <-%path_join_inj & ?)%Hps. }
  pose proof (vi_num _ _ _ (wt_vs _ _ H)) as Hm. fold vs in Hm. pose proof (wt_next _ _ H) as [X1 _]. pose proof (tr_next _ _ R) as X2. fold vs n in X1, X2.
  assert (n ∈ numbers (files_of es')) as Hn by (unfold numbers; apply elem_of_map; exists (level, n); split; [done|]; rewrite F2; apply elem_of_dom; rewrite lookup_insert_eq; by eexists).
  eexists (set_env e3 s2.1, s2.2), level, file, Bs, es', (path :: manifest_paths vs ++ ps). cbn [fst snd]. change (w_env (set_env e3 s2.1)) with e3. split_and!; try done.
  - by exists v.
  - eapply manifest_keep; [exact M2|..]; apply Hkeep; [by intros (k & typ & [= <- <-] & ? & ? & _)%obsolete_parse|]. rewrite <- V4, <- Hv2. apply manifest_not_obsolete. by rewrite Hv2, V4.
  - rewrite <- C2. apply Hkeep. unfold obsolete. rewrite table_base_parse by (unfold is_u; lia). naive_solver.
  - exists vs', cs. by split_and!.
  - eapply kept_trans; [exact K2|exact K3|set_solver..].
  - intros p Hp. rewrite elem_of_cons, elem_of_app in Hp. unfold flush_touches. destruct Hp as [->|[Hp|(name & -> & Hob')%Hps]]; [by left|by right; left|right; right; by exists name].
  - intros p Hp. rewrite elem_of_cons, elem_of_app in Hp. rewrite C3, decide_False by tauto. apply Cs2. rewrite elem_of_cons. tauto.
Qed.

(** ** Theorems *)

Lemma holds_len mt L : mt_holds (u := u) (G := G) mt L → memtable_len mt = zlen L.
Proof. intros [(Es & I & HE) _]. unfold memtable_len. rewrite (inv_len _ _ I). apply (f_equal length) in HE. rewrite !length_fmap in HE. lia. Qed.

(** An open database, whatever its second memtable is. *)
Lemma open_with_tables s base Bs mn es c n top save i : open_db (u := u) s base Bs mn es c n top save → db_opt s.2 = opt → with_tables (s.1, set_imm i s.2) es.
Proof.
  intros S Ho. pose proof S as [W Hn D Hseq I Hnames _ (L1 & L2 & L3) (N1 & N2 & N3) Hs Himm Htab _]. apply with_tables_imm.
  pose proof (dk_log _ _ _ _ _ _ _ D) as (B1 & B2 & B3). pose proof (wi_seq _ _ _ W) as Ws. pose proof (wi_bound _ _ _ W) as Wb. pose proof (wi_base _ _ _ W) as W0.
  split; try done; [|rewrite Hn; cbn; lia|unfold is_u; rewrite Ws; lia]. split; [lia|]. intros k Hk%(dk_used _ _ _ _ _ _ _ D). lia.
Qed.

(** C8: [compact_memtable] turns the second memtable into a table.  It succeeds; the new table
    file holds exactly the memtable's entries [L], in their order; the manifest that CURRENT
    names has edits that give the files from before and the table, and the number of the log in
    use; the memtable is gone.  The table is at the level that [pick_memtable_output_level]
    gives for its user keys in the current version: this is level 0, where files may overlap
    the table, or a level no file of which overlaps it.  The files that are obsolete then are
    deleted, and every path but theirs, the table's and the manifest's keeps its contents. *)
Theorem compact_memtable_durable fuel s es mt L : with_tables s es → table_room s es → db_imm s.2 = Some mt → mt_holds (u := u) mt L → L ≠ [] → flushable opt L → (length L < fuel)%nat →
  let vs := db_vset s.2 in let n := next_file_num vs in let path := path_join (db_path s.2) (table_base n) in
  ∃ s' v level file Bs es', compact_memtable debug_bytes order micros fuel s = Ret (s', Ok ()) ∧ with_tables s' es' ∧ db_imm s'.2 = None
    ∧ contents (w_env s'.1) !! path = Some file ∧ table_file o (shown <$> L) file Bs
    ∧ manifest (w_env s'.1) (db_path s.2) (manifest_num vs) es' ∧ files_of es' = <[(level, n) := table_meta n file L]> (files_of es)
    ∧ db_current s = Ret v ∧ output_level (w_metas s.1) (Some v) (table_meta n file L) level ∧ (level = 0 ∨ clear_of (u := u) (files_of es) level (table_meta n file L))
    ∧ counters_of es' = Some (mkCounters (default 0 (db_log_num s.2)) (Some (prev_log_num vs)) (n + 1) (vs_last_seq vs))
    ∧ (∀ name, obsolete (numbers (files_of es')) (db_vset s'.2) name → contents (w_env s'.1) !! path_join (db_path s.2) name = None)
    ∧ ∀ p, ¬ flush_touches (db_path s.2) path vs (db_vset s'.2) (numbers (files_of es')) p → contents (w_env s'.1) !! p = contents (w_env s.1) !! p.
Proof.
  intros H R Hi Hmt Hne [max HF]%flushable_bounded Hfuel vs n path.
  destruct (compact_memtable_ok fuel s es mt L max H R Hi Hmt Hne HF Hfuel) as (s' & level & file & Bs & es' & ps & E1 & H1 & TF & _ & Hlv & (v & Ev & Hout) & F1 & M1 & C1 & Hcn & (vs' & cs & Es & _) & _ & Hps & Cs & Hob & Hap & _).
  exists s', v, level, file, Bs, es'. split_and!; try done; [by rewrite Es|destruct (decide (level = 0)); [by left|right; apply Hap; unfold level_ok in Hlv; lia]|]. intros p Hp. apply Cs. by intros ?%Hps.
Qed.

End compact.

(** ** Witnesses *)

Module TestFlush.
#[export] Existing Instance Reference.ref_encoding.
#[export] Existing Instance Reference.ref_encoding_laws.
#[export] Existing Instance Reference.ref_crc.
#[export] Existing Instance Reference.ref_crc_laws.
#[export] Existing Instance TestRng.alternating.
#[export] Existing Instance TestWal.EN.
#[export] Existing Instance TestWal.EL.
#[export] Existing Instance TestWal.fixed_writer.

#[export] Instance fixed_reliable e p : ReliableFixedInt (MemFS * BufWriter w_file) (RW := buf_writer e p).
Proof.
  intros k n w Hk Hw. destruct (write_reliable (ReliableWrite := buf_writer e p) (encode_fixed k n) w Hw) as (w' & E' & W' & H'). exists w'. split_and!; [|done|done].
  etrans; [exact E'|]. by rewrite length_encode_fixed.
Qed.

#[export] Instance still_clock : Clock TestWal.clock.
Proof. refine {| now := λ _, 0 |}; [lia|lia|]. intros e He. exists e. split_and!; [done|by apply kept_refl|done]. Defined.

Definition ops_table : list mentry := sorted_ops (u := DefaultCmp) 0 [TestWal.ops1].

Lemma ops_buildable : buildable (with_internal_keys TestStorage.uopts) NoneCompressor TestTable.fits 10 10 (shown <$> ops_table).
Proof.
  assert (shown <$> ops_table = [(ikey [97] 1 TypeValue, [1]); (ikey [98] 2 TypeValue, [2])]) as -> by (vm_compute; reflexivity).
  apply (TestTable.small_buildable [(ikey [97] 1 TypeValue, [1]); (ikey [98] 2 TypeValue, [2])]); [split| |by_decide|by_decide].
  - repeat apply Forall_cons_2; try apply Forall_nil_2; eexists _, _, _; (split; [reflexivity|split_and!; by_decide || done]).
  - intros [|[|i]] a b Ha Hb; cbn in Ha, Hb; simplify_eq; by_decide.
  - repeat constructor.
  - repeat apply Forall_cons_2; try apply Forall_nil_2; (split; [done|split; [split_and!; by_decide || exact I|by_decide]]).
Qed.

Lemma ops_flushable : flushable TestStorage.uopts ops_table.
Proof. exists NoneCompressor, TestTable.fits, 10, 10. exact ops_buildable. Qed.

(** A new database with a batch in its memtable. *)
Lemma filled : ∃ (s : World MemFS ra_file * DB Z w_file) mn es c n, open_db (u := DefaultCmp) s 0 [TestWal.ops1] mn es c n 5 false ∧ files_of es = ∅
  ∧ db_path s.2 = "db"%string ∧ db_opt s.2 = TestStorage.uopts ∧ db_cstats s.2 = replicate 7 CompactionStats_default ∧ st_blocks (w_storage s.1) = TestOpen.no_blocks
  ∧ memtable_len (db_mem s.2) = 2.
Proof.
  destruct (DB_open_tables (λ _, EmptyString) elements (λ s, reflexivity _) TestWal.clock TestOpen.canon TestOpen.no_text TestManifest.id_ok TestOpen.nothing "db" TestStorage.uopts false
    TestOpen.no_blocks 0 [] ∅ 3 TestOpen.options_good TestOpen.nothing_ok (TestOpen.nothing_locked _) TestOpen.nothing_openable) as [N H]; [by apply TestOpen.fits_ops|done|].
  destruct (H N N 0%nat ltac:(lia) ltac:(lia)) as (s & mn & es & c & n & _ & S & F & [B1 B2 B3 B4 B5 B6]).
  pose proof (wi_mem _ _ _ (od_wal _ _ _ _ _ _ _ _ _ S)) as Hm. cbn in Hm. injection Hm as Hm.
  destruct (open_write (λ _, EmptyString) elements TestWal.clock (u := DefaultCmp) 0 0 s 0 [] mn es c n 5 (TestWal.batch TestWal.ops1) TestWal.ops1 true S) as (e1 & mt & lw & _ & S1 & _);
    [right; replace (db_mem s.2) with (MemTable_new (G := Z) DefaultCmp) by exact Hm; done|done|done|done|exact TestWal.ops_ok|done|].
  eexists _, mn, es, c, n. split_and!; [exact S1|done|done|done|done|exact (f_equal (@st_blocks _ _) B5)|]. rewrite (holds_len TestStorage.uopts _ _ (wal_sorted _ _ _ (od_wal _ _ _ _ _ _ _ _ _ S1))). vm_compute. reflexivity.
Qed.
End TestFlush.

Section flush_witnesses.
Import TestFlush.

Lemma compact_memtable_durable_witness :
  ∃ (s s' : World MemFS ra_file * DB Z w_file) mt file Bs, mt_holds (u := DefaultCmp) mt ops_table ∧ db_imm s.2 = Some mt
    ∧ compact_memtable (EN := TestWal.EN) TestOpen.no_text elements TestWal.clock 10 s = Ret (s', Ok ()) ∧ db_imm s'.2 = None
    ∧ contents (w_env s'.1) !! path_join "db" (table_base (next_file_num (db_vset s.2))) = Some file ∧ table_file (TestTable.opts 20) (shown <$> ops_table) file Bs.
Proof.
  destruct filled as (s & mn & es & c & n & S & F & Hp & Ho & Hc & Hb & Hl). pose proof (wal_sorted _ _ _ (od_wal _ _ _ _ _ _ _ _ _ S)) as Hmt.
  set (s0 := (s.1, set_imm (Some (db_mem s.2)) s.2)).
  destruct (compact_memtable_durable (IEL := Reference.ref_encoding_laws) (CRL := Reference.ref_crc_laws) fixed_reliable TestOpen.no_text elements (λ s, reflexivity _) TestWal.clock TestStorage.uopts
    TestManifest.id_ok 10 s0 es (db_mem s.2) ops_table) as (s' & v & level & file & Bs & es' & E1 & _ & Hi & Hf & TF & _).
  - exact (open_with_tables TestStorage.uopts s 0 _ mn es c n 5 false _ S Ho).
  - split; cbn [fst snd]; [pose proof (od_log _ _ _ _ _ _ _ _ _ S); change (next_file_num (db_vset s.2) < 2 ^ 64 - 1); lia|unfold s0; cbn [fst]; by rewrite Hb|by rewrite F|].
    change (stats_ok (db_cstats s.2)). rewrite Hc. by split; [|repeat constructor].
  - reflexivity.
  - exact Hmt.
  - vm_compute. congruence.
  - exact ops_flushable.
  - vm_compute. lia.
  - exists s0, s', (db_mem s.2), file, Bs. split_and!; [exact Hmt|reflexivity|exact E1|exact Hi| |exact TF]. change (db_path s0.2) with (db_path s.2) in Hf. rewrite Hp in Hf. exact Hf.
Defined.

End flush_witnesses.
