(* ===== verification/Switch.v ===== *)
(** * Switch: from a full memtable to a new one

    [make_room_for_write] of [src/db_impl.rs] on a database with tables: a new log is begun, the
    memtable becomes a table, and a later [open] finds the table and the new log.  Whether the
    version is compacted then is left open here; [Read] has a case in which it is not. *)

From Stdlib Require Import Ascii.
From S2P Require Import Prelude Encoding Error Io Env BufWriter MemEnv Types Cmp KeyTypes Log Iterator SkipMap MemTable WriteBatch Filter FilterBlock Options BlockBuilder Block Cache TableBuilder Table TableFile TableRead TableCache Version VersionEdit Snapshot MergingIter VersionSet Builder Manifest Recover Tables DbImpl Wal Open Flush.

Section switch.
Context `{IEL : IntegerEncodingLaws} `{CRL : Crc32Laws} `{EL : EnvLaws E} `{RG : Rng G}.
Context {FW : FixedIntWriter (E * BufWriter w_file)} (RF : ∀ e p, ReliableFixedInt (E * BufWriter w_file) (RW := buf_writer e p)).
Context (debug_bytes : bytes → string) (order : gset (Z * Z) → list (Z * Z)) (order_ok : ∀ s, order s ≡ₚ elements s) (micros : E → exec (E * Z)) {CK : Clock micros}.
Context (opt : Options) {UO : OrderedCmp (o_cmp opt)} {UE : ExactCmp (o_cmp opt)}.
Context (Hid : utf8_valid (string_bytes (cmp_id (o_cmp opt))) = true ∧ key_fits (string_bytes (cmp_id (o_cmp opt)))).
Abbreviation u := (o_cmp opt) (only parsing).
Abbreviation o := (with_internal_keys opt) (only parsing).
Implicit Types (s : World E ra_file * DB G w_file) (es : list VersionEdit) (e : E).

(** ** The new log *)

(** The state with the new log, number [n], and the new memtable. *)
Definition switched e (n : Z) f s : World E ra_file * DB G w_file :=
  (set_env e s.1, set_imm (Some (db_mem s.2)) (set_mem (MemTable_new u) (set_db_log_num (Some n) (set_log (Some (LogWriter_new (BufWriter_new f)))
    (set_vset (set_next_file_num (n + 1) (db_vset s.2)) s.2))))).

Lemma log_names_differ db n n' : is_u 64 n → is_u 64 n' → n ≠ n' → log_file_name db n ≠ log_file_name db n'.
Proof. intros Hn Hn' Hne Ep%path_join_inj. pose proof (log_base_parse n Hn) as P1. rewrite Ep, log_base_parse in P1 by done. by injection P1. Qed.

(** The memtable is full, or a flush is asked for. *)
Definition full (force : bool) s : Prop := (force = true ∨ write_buffer_size (db_opt s.2) ≤ approx_mem_usage (db_mem s.2)) ∧ memtable_len (db_mem s.2) ≠ 0.

Lemma switch_log fuel mfuel (force : bool) s base Bs mn es c n top save : open_db (u := u) s base Bs mn es c n top save → db_opt s.2 = opt → full force s →
  let n' := next_file_num (db_vset s.2) in let old := log_file_name (db_path s.2) n in let new := log_file_name (db_path s.2) n' in
  ∃ (e' : E) f b, make_room_for_write debug_bytes order micros fuel mfuel force s = maybe_do_compaction debug_bytes order micros fuel mfuel (switched e' n' f s)
    ∧ kept [new; old] (w_env s.1) e' ∧ appends_to e' f new ∧ contents e' = <[old := b]> (<[new := []]> (contents (w_env s.1))) ∧ old ≠ new.
Proof.
  intros S Ho [Hf Hlen] n' old new. pose proof (dk_log _ _ _ _ _ _ _ (od_disk _ _ _ _ _ _ _ _ _ S)) as (B1 & B2 & B3). destruct (od_log _ _ _ _ _ _ _ _ _ S) as (L1 & L2 & L3). fold n' in L1, L2.
  assert (old ≠ new) as Hne by (apply log_names_differ; unfold is_u; lia).
  destruct (wi_log _ _ _ (od_wal _ _ _ _ _ _ _ _ _ S)) as (m & lw & recs & En & El & L & R). rewrite (od_num _ _ _ _ _ _ _ _ _ S) in En. injection En as <-. fold old in L.
  unfold make_room_for_write.
  assert ((negb force && (approx_mem_usage (db_mem s.2) <? write_buffer_size (db_opt s.2))) || (memtable_len (db_mem s.2) =? 0) = false) as ->.
  { rewrite (proj2 (Z.eqb_neq _ _) Hlen), orb_false_r. destruct Hf as [->|Hf]; [done|]. rewrite (proj2 (Z.ltb_ge _ _) Hf). apply andb_false_r. }
  destruct s as [w db]. cbn [fst snd] in *. unfold db_new_file_number, new_file_number. fold n'. rewrite uadd_Ret, !bind_Ret by lia. replace (n' + 1 - 1) with n' by lia.
  unfold on_env. cbn [fst snd]. fold new. destruct (open_writable_law new (w_env w) (wi_env _ _ _ (od_wal _ _ _ _ _ _ _ _ _ S))) as (e1 & f & -> & K1 & C1 & A1). rewrite bind_Ret.
  assert (wal_writer e1 old lw recs) as L'.
  { eapply wal_writer_keep; [exact L|exact K1|by rewrite list_elem_of_singleton|by rewrite C1, lookup_insert_ne]. }
  destruct (wal_drop e1 old lw recs L') as (e2 & b & E2 & K2 & C2 & _). rewrite bind_Ret. unfold assign_log. change (db_log (set_vset _ db)) with (db_log db). rewrite El.
  change (w_env (set_env e1 w)) with e1. rewrite E2, !bind_Ret. cbn [fst snd]. exists e2, f, b. split_and!; [|eapply kept_trans; [exact K1|exact K2|set_solver..]| |by rewrite C2, C1|done].
  - unfold switched. cbn [fst snd]. do 2 f_equal. cbn. by rewrite Ho.
  - by apply K2; [rewrite list_elem_of_singleton|].
Qed.

(** ** The old memtable becomes a table *)

(** Only the two logs are touched, and the manifest is none of them. *)
Lemma switched_manifest s e' n n' b : is_u 64 n → is_u 64 n' → is_u 64 (manifest_num (db_vset s.2)) →
  contents e' = <[log_file_name (db_path s.2) n := b]> (<[log_file_name (db_path s.2) n' := []]> (contents (w_env s.1))) →
  let p := manifest_file_name (db_path s.2) (manifest_num (db_vset s.2)) in
  p ∉ [log_file_name (db_path s.2) n'; log_file_name (db_path s.2) n] ∧ contents e' !! p = contents (w_env s.1) !! p.
Proof.
  intros Hn Hn' Hm C p. pose proof (log_path_differs (db_path s.2) n _ _ _ Hn (parse_manifest _ Hm) ltac:(done)) as P1.
  pose proof (log_path_differs (db_path s.2) n' _ _ _ Hn' (parse_manifest _ Hm) ltac:(done)) as P2. split; [set_solver|]. by rewrite C, !lookup_insert_ne.
Qed.

Lemma switched_tables s base Bs mn es c n top e' f b : open_db (u := u) s base Bs mn es c n top false → db_opt s.2 = opt → top + 2 < 2 ^ 64 - 1 →
  let n' := next_file_num (db_vset s.2) in let old := log_file_name (db_path s.2) n in let new := log_file_name (db_path s.2) n' in
  kept [new; old] (w_env s.1) e' → appends_to e' f new → contents e' = <[old := b]> (<[new := []]> (contents (w_env s.1))) → old ≠ new →
  with_tables opt (switched e' n' f s) es ∧ wal_inv (u := u) (switched e' n' f s) (base + zlen (concat Bs)) [].
Proof.
  intros S Ho Ht n' old new K A C Hne. pose proof S as [W Hn D Hseq I [Hname Hne'] _ (L1 & L2 & L3) (N1 & N2 & N3) Hs Himm Htab _]. fold n' in L1, L2, N3.
  pose proof (dk_log _ _ _ _ _ _ _ D) as (B1 & B2 & B3). pose proof (wi_seq _ _ _ W) as Ws. pose proof (wi_bound _ _ _ W) as Wb. pose proof (wi_base _ _ _ W) as W0.
  assert (is_u 64 n ∧ is_u 64 n') as [Hn64 Hn64'] by (unfold is_u; lia). split.
  - split; cbn; try done.
    + eapply vs_inv_keep; [exact I|exact K| |done..]. intros _. rewrite Hname. by eapply switched_manifest; [..|apply I|].
    + eapply (cached_env s); [exact Htab|done..].
    + split; [lia|]. intros k Hk%(dk_used _ _ _ _ _ _ _ D). lia.
    + lia.
    + unfold is_u. rewrite Ws. lia.
  - rewrite <- Ws. apply (wal_start (u := u) (switched e' n' f s) n' f); try done; [apply K|cbn; by rewrite Ho|cbn; rewrite Ws; unfold is_u; lia|].
    cbn. change (contents e' !! new = Some []). by rewrite C, lookup_insert_ne, lookup_insert_eq.
Qed.

(** The names of the directory after the flush: the new log is the only one. *)
Lemma names_after e e1 e2 (db : string) mn es c n n' top b (ps : list string) (k : Z) (vs vs' : VersionSet w_file) (files : gset Z) c' : disk (u := u) e db mn es c n top → n < n' → is_u 64 n' → is_u 64 k →
  contents e1 = <[log_file_name db n := b]> (<[log_file_name db n' := []]> (contents e)) →
  (∀ p, p ∈ ps → flush_touches db (path_join db (table_base k)) vs vs' files p) → (∀ p, p ∉ ps → contents e2 !! p = contents e1 !! p) →
  (∀ name, obsolete files vs' name → contents e2 !! path_join db name = None) → log_num vs' = n' → vs_dbname vs = db → is_u 64 (manifest_num vs) →
  ∀ name, is_Some (contents e2 !! path_join db name) → good_name c' n' name.
Proof.
  intros D Hlt Hn' Hk C1 Hps C2 Hob Hl Hdb Hm name Hs. pose proof (dk_log _ _ _ _ _ _ _ D) as (B1 & B2 & B3). assert (is_u 64 n) as Hn by (by eapply disk_n).
  assert (¬ obsolete files vs' name) as Hno by (intros Ho%Hob; rewrite Ho in Hs; by destruct Hs).
  assert (∃ j typ, parse_file_name name = Ok (j, typ) ∧ (typ = Types.Log → n' ≤ j → name = log_base n')) as (j & typ & Hp & Hj).
  { destruct (decide (path_join db name ∈ ps)) as [Hin|Hin].
    - destruct (Hps _ Hin) as [->%path_join_inj|[Hmp|(name' & <-%path_join_inj & Ho)]]; [|rewrite <- Hdb in Hmp|done].
      + rewrite table_base_parse by done. by eexists _, _.
      + destruct (manifest_path_name vs name Hm Hmp) as (j & typ & Hp & T & _). by exists j, typ.
    - rewrite C2, C1 in Hs by done. destruct (decide (name = log_base n)) as [->|H1]; [exists n, Types.Log; rewrite log_base_parse by done; split; [done|lia]|].
      destruct (decide (name = log_base n')) as [->|H2]; [exists n', Types.Log; by rewrite log_base_parse|].
      rewrite !lookup_insert_ne in Hs by (by intros ?%path_join_inj). destruct (dk_names _ _ _ _ _ _ _ D name Hs) as (j & typ & Hp & Hj). exists j, typ. split; [done|]. intros Ht Hle. destruct H1. apply Hj; [done|lia]. }
  exists j, typ. split; [done|]. intros Ht _. apply Hj; [done|]. unfold obsolete in Hno. rewrite Hp, Ht in Hno. lia.
Qed.

Lemma switch_flushes fuel mfuel (force : bool) s base Bs mn es c n top L max : open_db (u := u) s base Bs mn es c n top false → db_opt s.2 = opt → full force s →
  table_room s es → top + 2 < 2 ^ 64 - 1 → mt_holds (u := u) (db_mem s.2) L → flushable_within opt L max → (length L < fuel)%nat →
  let n' := next_file_num (db_vset s.2) in let k := n' + 1 in
  ∃ s1 level file Ts es' c', make_room_for_write debug_bytes order micros fuel mfuel force s = compact_version debug_bytes order micros fuel mfuel s1
    ∧ open_db (u := u) s1 (base + zlen (concat Bs)) [] mn es' c' n' (top + 2) false
    ∧ table_file o (shown <$> L) file Ts ∧ zlen file < max ∧ contents (w_env s1.1) !! path_join (db_path s.2) (table_base k) = Some file
    ∧ level_ok level ∧ files_of es' = <[(level, k) := table_meta k file L]> (files_of es) ∧ same_tables (db_path s.2) es (w_env s.1) (w_env s1.1)
    ∧ contents (w_env s1.1) !! log_file_name (db_path s.2) n' = Some []
    ∧ db_path s1.2 = db_path s.2 ∧ db_opt s1.2 = db_opt s.2 ∧ db_snaps s1.2 = db_snaps s.2.
Proof.
  intros S Ho Hf R Ht Hmt HF Hfuel n' k. destruct (switch_log fuel mfuel force s base Bs mn es c n top false S Ho Hf) as (e' & f & b & -> & K & A & C & Hne). fold n' in K, A, C, Hne |- *.
  destruct (switched_tables s base Bs mn es c n top e' f b S Ho Ht K A C Hne) as [T W]. fold n' in T, W. set (s0 := switched e' n' f s) in *.
  pose proof S as [W0 Hn D Hseq I [Hname Hne'] _ (L1 & L2 & L3) (N1 & N2 & N3) Hs _ _ (l & Hl1 & Hl2 & Hl3)]. fold n' in L1, L2, N3. specialize (Hs eq_refl).
  pose proof (dk_log _ _ _ _ _ _ _ D) as (B1 & B2 & B3). assert (is_u 64 n ∧ is_u 64 n' ∧ is_u 64 k) as (U1 & U2 & U3) by (unfold is_u; lia).
  pose proof (wi_seq _ _ _ W0) as Ws. pose proof (wi_bound _ _ _ W0) as Wb. pose proof (wi_base _ _ _ W0) as Wb0.
  assert (L ≠ []) as HL by (intros ->; apply (holds_len opt) in Hmt; by destruct Hf).
  destruct (compact_memtable_ok RF debug_bytes order order_ok micros opt Hid fuel s0 es (db_mem s.2) L max T) as
    (s1 & level & file & Ts & es' & ps & E1 & T1 & TF & Hmax & Hlv & _ & F1 & M1 & Cf & Hcn & (vs' & cs & Es & V1 & V2 & V3 & V4 & V5) & K1 & Hps & Cs & Hob & _ & Hsc); try done.
  { destruct R as [R1 R2 R3 R4]. split; try done. cbn. fold n'. lia. }
  change (db_path s0.2) with (db_path s.2) in *. change (next_file_num (db_vset s0.2)) with k in *. change (manifest_num (db_vset s0.2)) with (manifest_num (db_vset s.2)) in *.
  change (w_env s0.1) with e' in *. change (default 0 (db_log_num s0.2)) with n' in *. change (vs_last_seq (db_vset s0.2)) with (vs_last_seq (db_vset s.2)) in *.
  change (prev_log_num (db_vset s0.2)) with (prev_log_num (db_vset s.2)) in *. rewrite Hs in M1, V4.
  assert (db_vset s1.2 = vs') as Ev by (by rewrite Es). rewrite Ev in Hps, Hob.
  assert (∀ name j typ, parse_file_name name = Ok (j, typ) → name ≠ table_base k → typ = Types.Log ∨ typ = DBLock ∨ typ = Types.Table → ¬ obsolete (numbers (files_of es')) vs' name → path_join (db_path s.2) name ∉ ps) as Hnot.
  { intros name j typ Hp Hnk Htyp Hno Hin. destruct (Hps _ Hin) as [?%path_join_inj|[Hmp|(name' & <-%path_join_inj & ?)]]; [done| |done].
    rewrite <- Hname in Hmp. destruct (manifest_path_name (db_vset s0.2) name (vi_num _ _ _ I) Hmp) as (j' & typ' & Hp' & T1' & T2' & T3'). rewrite Hp in Hp'. injection Hp' as <- <-. naive_solver. }
  assert (log_file_name (db_path s.2) n' ∉ ps) as Hlog.
  { apply (Hnot _ n' Types.Log); [by apply log_base_parse| |auto|]; [intros Hx; pose proof (log_base_parse n' U2) as Hp; rewrite Hx, table_base_parse in Hp by done; done|].
    unfold obsolete. rewrite log_base_parse, V1 by done. lia. }
  assert (lock_file_name (db_path s.2) ∉ ps) as Hlck.
  { apply (Hnot _ 0 DBLock); [done| |auto|by intros (? & ? & [= <- <-] & ? & _)%obsolete_parse]. intros Hx. pose proof (table_base_parse k U3) as Hp. by rewrite <- Hx in Hp. }
  assert (same_tables (db_path s.2) es (w_env s.1) (w_env s1.1)) as Hst.
  { intros j Hj. pose proof (numbers_used opt s0 es j T Hj) as Hjk. change (next_file_num (db_vset s0.2)) with k in Hjk. assert (is_u 64 j) as Uj by (unfold is_u; lia).
    pose proof (table_base_parse j Uj) as Hpj. rewrite Cs.
    - rewrite C, !lookup_insert_ne; [done|..]; by eapply log_path_differs.
    - eapply Hnot; [exact Hpj| |auto|unfold obsolete; rewrite Hpj]; [intros Hx; rewrite Hx, table_base_parse in Hpj by done; injection Hpj; lia|].
      intros Hx. apply Hx. rewrite F1. apply numbers_insert. by right. }
  exists s1, level, file, Ts, es', (mkCounters n' (Some (prev_log_num (db_vset s.2))) (k + 1) (vs_last_seq (db_vset s.2))).
  split_and!; [unfold maybe_do_compaction; cbn [s0 switched snd db_imm set_imm]; by rewrite E1, sbind_Ok| |done|done|done|done|done| | |by rewrite Es..].
  - pose proof (wt_vs _ _ _ T1) as I1. pose proof (wt_next _ _ _ T1) as [_ X1]. rewrite Ev in I1. rewrite <- Ws. split; rewrite ?Es; cbn; try done.
    + eapply (wal_inv_keep s0 s1); [by rewrite Ws|done|exact K1|exact Hlog|by apply Cs|by rewrite ?Es..].
    + split; try done; cbn; [apply D|apply I1| | |lia|lia|].
      * intros j [->|Hj]%(eq_ind_r (λ m, j ∈ numbers m → _) (proj1 (numbers_insert _ _ _ _ _)) F1); [by rewrite Cf|]. rewrite Hst by done. by apply D.
      * intros x Hx%X1. rewrite Ev, V2 in Hx. exact Hx.
      * eapply (names_after (w_env s.1) e' _ _ _ _ _ n n' top b ps k (db_vset s0.2) vs'); [exact D|lia|done|done|exact C|exact Hps|exact Cs|exact Hob|done|done|apply I].
    + lia.
    + split; [|done]. rewrite <- Ev. by destruct (wt_names _ _ _ T1) as [-> _]; rewrite Es.
    + lia.
    + lia.
    + apply T1.
    + exists l. split_and!; [done..|]. apply K1; [done|]. apply K; [|done]. destruct (lock_path_differs (db_path s.2) n U1) as [? _], (lock_path_differs (db_path s.2) n' U2) as [? _]. set_solver.
  - exact Hst.
  - by rewrite Cs, C, lookup_insert_ne, lookup_insert_eq.
Qed.

(** ** What is stored *)

(** The table number [k] of the directory [db] has the entries [L]. *)
Definition table_at e (db : string) (k : Z) (L : list mentry) : Prop :=
  ∃ file Ts, contents e !! path_join db (table_base k) = Some file ∧ table_file o (shown <$> L) file Ts.

(** The tables of the version that the edits [es] give have the entries [T]. *)
Definition tables_hold e (db : string) es (T : gmap Z (list mentry)) : Prop :=
  dom T = numbers (files_of es) ∧ ∀ k L, T !! k = Some L → table_at e db k L.

Lemma tables_hold_same e e' db es es' T : tables_hold e db es T → files_of es' = files_of es → same_tables db es e e' → tables_hold e' db es' T.
Proof.
  intros [Hd HT] Hf Hs. split; [by rewrite Hf|]. intros k L Hk. destruct (HT k L Hk) as (file & Ts & Hc & TF). exists file, Ts. split; [|done].
  rewrite Hs; [done|]. rewrite <- Hd. by eapply elem_of_dom_2.
Qed.

Lemma tables_hold_add e e' db es es' T level k d L : tables_hold e db es T → files_of es' = <[(level, k) := d]> (files_of es) → same_tables db es e e' → k ∉ numbers (files_of es) →
  table_at e' db k L → tables_hold e' db es' (<[k := L]> T).
Proof.
  intros [Hd HT] Hf Hs Hk HL. split.
  - rewrite dom_insert_L, Hd, Hf. apply set_eq. intros j. rewrite numbers_insert. set_solver.
  - intros j L' [[<- <-]|[Hne Hj]]%lookup_insert_Some; [done|]. destruct (HT j L' Hj) as (file & Ts & Hc & TF). exists file, Ts. split; [|done].
    rewrite Hs; [done|]. rewrite <- Hd. by eapply elem_of_dom_2.
Qed.

(** ** After a crash *)

(** A database without a second memtable goes on with the version. *)
Lemma no_memtable fuel mfuel s : db_imm s.2 = None → maybe_do_compaction debug_bytes order micros fuel mfuel s = compact_version debug_bytes order micros fuel mfuel s.
Proof. intros Hi. unfold maybe_do_compaction. by rewrite Hi, sbind_Ok. Qed.

Context (canonicalize : string → option string) (debug_path : string → string).

(** A flush, and opening what it leaves after a crash. *)
Lemma flush_reopens fuel mfuel (force : bool) s base Bs mn es c n top T max (has_log : bool) blocks : let L := sorted_ops (u := u) base Bs in open_db (u := u) s base Bs mn es c n top false → db_opt s.2 = opt →
  full force s → table_room s es → tables_hold (w_env s.1) (db_path s.2) es T → flushable_within opt L max → (length L < fuel)%nat →
  good_options canonicalize (u := u) (db_path s.2) opt → approx_mem_usage (MemTable_new (G := G) u) ≤ write_buffer_size opt → top + 4 < 2 ^ 64 - 1 →
  let k := next_file_num (db_vset s.2) + 1 in let base' := base + zlen (concat Bs) in
  k ∉ dom T ∧ is_u 64 k
  ∧ ∃ s1 level file Ts es1 c1 n1, make_room_for_write debug_bytes order micros fuel mfuel force s = compact_version debug_bytes order micros fuel mfuel s1
    ∧ open_db (u := u) s1 base' [] mn es1 c1 n1 (top + 2) false ∧ tables_hold (w_env s1.1) (db_path s.2) es1 (<[k := L]> T)
    ∧ level_ok level ∧ table_file o (shown <$> L) file Ts ∧ zlen file < max ∧ contents (w_env s1.1) !! path_join (db_path s.2) (table_base k) = Some file
    ∧ files_of es1 = <[(level, k) := table_meta k file L]> (files_of es) ∧ db_path s1.2 = db_path s.2
    ∧ ∀ e, env_ok e → contents e = contents (w_env s1.1) → ¬ locked e (lock_file_name (db_path s.2)) →
      ∃ N, ∀ fuel rfuel mfuel, (N ≤ fuel)%nat → (N ≤ rfuel)%nat →
        ∃ s2 mn2 es2 c2 n2, DB_open debug_bytes order micros canonicalize debug_path fuel rfuel mfuel (db_path s.2) opt has_log blocks e
            = ('(s, r) ← compact_version debug_bytes order micros mfuel mfuel s2;
               match r with Ok _ => Ret (s.1, Ok s.2) | Err x => w ← db_drop s; Ret (w, Err x) end)
          ∧ open_db (u := u) s2 base' [] mn2 es2 c2 n2 (top + 4) false ∧ tables_hold (w_env s2.1) (db_path s.2) es2 (<[k := L]> T)
          ∧ files_of es2 = files_of es1 ∧ brought_up s2 (db_path s.2) opt blocks es2 e.
Proof.
  intros L S Ho Hf R HT HF Hfuel O Ha Ht k base'. pose proof (od_wal _ _ _ _ _ _ _ _ _ S) as W. pose proof (wi_bound _ _ _ W). pose proof (wi_base _ _ _ W).
  assert (k ∉ numbers (files_of es)) as Hk.
  { intros Hin. unfold numbers in Hin. apply elem_of_map in Hin as ([l k'] & Ek & Hd%elem_of_dom). cbn in Ek. subst k'. apply files_used in Hd; [|apply (vi_history _ _ _ (od_vs _ _ _ _ _ _ _ _ _ S))].
    apply (dk_used _ _ _ _ _ _ _ (od_disk _ _ _ _ _ _ _ _ _ S)) in Hd. destruct (od_counters _ _ _ _ _ _ _ _ _ S) as (_ & _ & ?). cbn in Hd. lia. }
  split; [by rewrite (proj1 HT)|]. split; [destruct (od_log _ _ _ _ _ _ _ _ _ S) as (? & ? & _); pose proof (dk_log _ _ _ _ _ _ _ (od_disk _ _ _ _ _ _ _ _ _ S)); unfold is_u; lia|]. pose proof (wal_sorted _ _ _ W) as Hmt. fold L in Hmt.
  destruct (switch_flushes fuel mfuel force s base Bs mn es c n top L max S Ho Hf R ltac:(lia) Hmt HF Hfuel) as (s1 & level & file & Ts & es1 & c1 & -> & S1 & TF & Hmax & Hc & Hlv & F1 & Hst & Hlog & P1 & O1 & _).
  fold k in Hc, F1. fold base' in S1. eexists s1, level, file, Ts, es1, c1, _. split; [done|]. split; [exact S1|].
  assert (tables_hold (w_env s1.1) (db_path s.2) es1 (<[k := L]> T)) as HT1 by (eapply tables_hold_add; [done|exact F1|done|done|by exists file, Ts]).
  split; [exact HT1|]. split_and!; [done..|]. intros e He Hce Hlk.
  assert (image (u := u) e (db_path s.2) base' [] mn es1 c1 (next_file_num (db_vset s.2)) (top + 2)) as Him.
  { apply (image_contents (w_env s1.1)); [done|]. rewrite <- P1. apply (open_image s1 _ _ _ _ _ _ _ [] [] S1); [by rewrite P1|exists 0; constructor|constructor]. }
  destruct (DB_open_tables debug_bytes order order_ok micros canonicalize debug_path Hid e (db_path s.2) opt has_log blocks base' [] (files_of es1) (top + 2)) as [N H2]; [exact O|done|done| | |lia|].
  { right. by eexists mn, es1, c1, _. }
  { by exists (MemTable_new u). }
  exists N. intros fuel' rfuel' mfuel' N1 N2. destruct (H2 fuel' rfuel' mfuel' N1 N2) as (s2 & mn2 & es2 & c2 & n2 & E2 & S2 & F2 & B2).
  exists s2, mn2, es2, c2, n2. rewrite <- no_memtable by apply S2. split_and!; [exact E2|by replace (top + 4) with (top + 2 + 2) by lia| |done|exact B2].
  eapply (tables_hold_same (w_env s1.1)); [exact HT1|done|]. intros j Hj. rewrite (bu_tables _ _ _ _ _ _ B2) by (by rewrite F2). by rewrite Hce.
Qed.

End switch.
