(* ===== verification/Read.v ===== *)
(** * Read: finding what was flushed

    [get] of [src/db_impl.rs] on a database that was opened with one table and a log: the
    version is searched, the table is opened and the entry is found.  With [Switch] this shows
    that reads find what was written before the memtable became a table. *)

From Stdlib Require Import Ascii.
From S2P Require Import Prelude Encoding Error Io Env BufWriter MemEnv Types Cmp KeyTypes Log Iterator SkipMap MemTable WriteBatch Filter FilterBlock Options BlockBuilder Block Cache TableBuilder Table TableFile TableRead TableCache Version VersionRead VersionEdit Snapshot MergingIter VersionSet Builder Manifest Recover Tables Pick DbImpl Wal Open Flush Switch.

(** ** The entries of a table *)

Section entries.
Context `{IEL : IntegerEncodingLaws} (opt : Options) {UO : OrderedCmp (o_cmp opt)} {UE : ExactCmp (o_cmp opt)}.
Abbreviation u := (o_cmp opt) (only parsing).
Abbreviation o := (with_internal_keys opt) (only parsing).
Implicit Types (L : list mentry) (x : mentry).

Lemma shown_ord x k s : mentry_ok (u := u) x → is_u 56 s → key_ok u k → ord (InternalKeyCmp u) (shown x).1 (ikey k s TypeValue) = mentry_ord (u := u) (m_key x) (m_seq x) k s.
Proof. intros (H1 & _) Hs Hk. exact (ord_internal_ikey (u := u) (m_key x) (m_seq x) (m_type x) k s TypeValue H1 Hs). Qed.

Lemma shown_ord2 x y : mentry_ok (u := u) x → mentry_ok (u := u) y → ord (InternalKeyCmp u) (shown x).1 (shown y).1 = mentry_ord (u := u) (m_key x) (m_seq x) (m_key y) (m_seq y).
Proof. intros (H1 & _) (H2 & _). exact (ord_internal_ikey (u := u) (m_key x) (m_seq x) (m_type x) (m_key y) (m_seq y) (m_type y) H1 H2). Qed.

(** The entry that answers a lookup of the user key [k] at the sequence number [s]. *)
Definition lookup_at L (k : bytes) (s : Z) : option mentry := L !! seek_index (InternalKeyCmp u) (ikey k s TypeValue) (shown <$> L).

Lemma lookup_at_spec L k s : Forall (mentry_ok (u := u)) L → mentries_sorted opt L → is_u 56 s → key_ok u k →
  get_spec k s L (match lookup_at L k s with Some x => if decide (k = m_key x) then answer_of x else (None, false) | None => (None, false) end).
Proof.
  intros HL Hs H56 Hk. unfold lookup_at. set (n := seek_index _ _ _). rewrite Forall_lookup in HL.
  assert (∀ i x, L !! i = Some x → (shown <$> L) !! i = Some (shown x)) as Hf by (intros i x Hx; by rewrite list_lookup_fmap, Hx).
  apply (get_spec_at (u := u)).
  - intros i x Hx Hi. rewrite <- shown_ord by eauto. by eapply seek_index_below; [apply Hf|].
  - intros x Hx. rewrite <- shown_ord by eauto. apply (seek_index_not_below _ (shown <$> L)). by apply Hf.
  - intros i x y Hx Hy Hi. rewrite <- shown_ord2 by eauto. apply (sorted_lookup_lt _ _ _ _ _ _ Hs Hx Hy Hi).
Qed.

(** Filters look at the user key. *)
Lemma same_filtered_ikey k s t s' t' : same_filtered o (ikey k s t) (ikey k s' t').
Proof.
  intros fl. change (filter_policy o) with (InternalFilterPolicy (filter_policy opt)). cbn [key_may_match InternalFilterPolicy]. unfold internal_key_may_match, ikey.
  rewrite !length_app, !length_encode_fixed_nat by lia. by rewrite !usub_Ret, !bind_Ret, !slice_to_app by lia.
Qed.

(** The range of a table covers its entries. *)
Lemma in_range n file L x : mentries_sorted opt L → Forall (mentry_ok (u := u)) L → x ∈ L → let d := table_meta n file L in
  ord (InternalKeyCmp u) (smallest d) (shown x).1 ≠ Gt ∧ ord (InternalKeyCmp u) (shown x).1 (largest d) ≠ Gt.
Proof.
  intros Hs HL Hx d. destruct (table_meta_keys n file L) as (a & b & _ & _ & Ha & Hb & E1 & E2); [by intros ->; apply elem_of_nil in Hx|]. fold d in E1, E2. rewrite E1, E2.
  apply list_elem_of_lookup in Hx as [i Hi]. rewrite last_lookup in Hb. assert (L !! 0%nat = Some a) as Ha' by (by destruct L). pose proof (lookup_lt_Some _ _ _ Hi) as Hlt. split.
  - destruct i as [|i]; [simplify_eq; by rewrite ord_refl|].
    intros Hg. pose proof (sorted_lookup_lt _ _ _ _ _ _ Hs Ha' Hi ltac:(lia)) as Ho. discriminate (eq_trans (eq_sym Ho) Hg).
  - destruct (decide (i = pred (length L))) as [->|Hne]; [simplify_eq; by rewrite ord_refl|]. intros Hg.
    pose proof (sorted_lookup_lt _ _ _ _ _ _ Hs Hi Hb ltac:(lia)) as Ho. discriminate (eq_trans (eq_sym Ho) Hg).
Qed.

(** Sequence numbers beyond the entries make no difference. *)
Lemma get_spec_later k s s' L r : Forall (λ x, m_seq x ≤ s) L → s ≤ s' → get_spec k s' L r → get_spec k s L r.
Proof.
  intros HL Hs Hg. rewrite Forall_forall in HL. assert (∀ x, x ∈ L → visible k s x ↔ visible k s' x) as Hv by (intros x Hx; specialize (HL x Hx); unfold visible; split; intros [? ?]; split; [done|lia|done|lia]).
  destruct Hg as [[H1 H2]|(x & H1 & H2 & H3 & H4)]; [left; split; [|done]; intros x Hx; rewrite Hv; auto|]. right. exists x. split_and!; [done|by apply Hv| |done]. intros y Hy Hvy. apply H3; [done|]. by apply Hv.
Qed.

(** The table of the operations [H] answers with the last one. *)
Lemma lookup_at_ops L base H k q : Forall (mentry_ok (u := u)) L → mentries_sorted opt L → L ≡ₚ mentries (base + 1) H → base + zlen H ≤ q → is_u 56 q → key_ok u k →
  match lookup_at L k q with Some x => if decide (k = m_key x) then answer_of x else (None, false) | None => (None, false) end
  = match last_op k H with Some (Some v) => (Some v, false) | Some None => (None, true) | None => (None, false) end.
Proof.
  intros HL Hs HP Hq H56 Hk. pose proof (lookup_at_spec L k q HL Hs H56 Hk) as Hg. apply (get_spec_later _ (base + zlen H)) in Hg; [| |done].
  - apply (get_spec_perm _ _ _ _ _ HP), get_spec_ops in Hg; [|done]. by rewrite take_ge in Hg by done.
  - rewrite HP. apply Forall_forall. intros x (i & o & Hi & ->)%elem_mentries. rewrite mentry_of_seq. apply lookup_lt_Some in Hi. lia.
Qed.

End entries.

(** ** One table *)

Section read.
Context `{IEL : IntegerEncodingLaws} `{CRL : Crc32Laws} `{EL : EnvLaws E} `{RG : Rng G} {FW : FixedIntWriter (E * BufWriter w_file)}.
Context (debug_bytes : bytes → string) (order : gset (Z * Z) → list (Z * Z)) (micros : E → exec (E * Z)).
Context (opt : Options) {UO : OrderedCmp (o_cmp opt)} {UE : ExactCmp (o_cmp opt)}.
Abbreviation u := (o_cmp opt) (only parsing).
Abbreviation o := (with_internal_keys opt) (only parsing).
#[local] Instance internal_ordered' : OrderedCmp (o_cmp o) := InternalKeyCmp_ordered (u := u).
Implicit Types (s : World E ra_file * DB G w_file) (st : Storage E ra_file) (L : list mentry) (v : Version) (f : FileMetaHandle).

(** [Table::get] can find the key: it lies in no gap between an entry and the separator behind
    it, and below the separator behind the entry that answers. *)
Definition findable L (k : bytes) (q : Z) : Prop :=
  let lk := ikey k q TypeValue in gap_free o (shown <$> L) lk ∧ below_sep o (shown <$> L) (seek_index (o_cmp o) lk (shown <$> L)) lk.

(** The storage of a database that was just opened, and the table [L] number [n] in its
    directory. *)
Record one_table st (db : string) (n : Z) (path : string) L (file : bytes) Ts : Prop := {
  ot_open : tables_open opt st db [];
  ot_ids : cache_ids (st_blocks st);
  ot_room : c_id (st_blocks st) + 1 < 2 ^ 64;
  ot_env : env_ok (st_env st);
  ot_path : table_file_name db n = Ret path;
  ot_file : contents (st_env st) !! path = Some file;
  ot_table : table_file o (shown <$> L) file Ts;
}.

Lemma tc_get_new st db n path L file Ts k q : one_table st db n path L file Ts → is_u 56 q → key_ok u k → zlen k + 8 < 2 ^ 63 →
  ∃ st' r, tc_get debug_bytes n (ikey k q TypeValue) st = Ret (st', Ok r)
    ∧ (r = None ∨ r = shown <$> lookup_at opt L k q)
    ∧ (∀ x, lookup_at opt L k q = Some x → m_key x = k → findable L k q → r = Some (shown x)).
Proof.
  intros [T1 T2 T3 T4 T5 T6 T7] Hq Hk Hl. set (lk := ikey k q TypeValue).
  destruct (get_table_new debug_bytes opt st db [] n path (shown <$> L) file Ts T1) as (st1 & t & f & E1 & _ & _ & _ & K1 & C1 & Hf & HT & HG); try done; [by intros ?%elem_of_nil|apply T2|].
  specialize (HG T2). assert (file_holds (H := ra_read (st_env st1)) f file) as Hh by (eapply opened_holds; [apply K1|exact Hf|by rewrite C1]).
  assert (serves_blocks (RA := ra_read (st_env st1)) o Ts t (cache_good o file Ts t)) as HS by (intros cache B HC HB; by eapply read_block_ok).
  assert (key_ok (o_cmp o) lk) as Hlk by (by apply ikey_wf).
  unfold tc_get. rewrite E1, sbind_Ok.
  destruct (table_get_cases (RA := ra_read (st_env st1)) o (shown <$> L) f file Ts Hh T7 t HT (cache_good o file Ts t) HS lk (st_blocks st1) HG Hlk) as (c' & r & E2 & _ & Hr); [unfold lk; rewrite length_ikey; lia|].
  rewrite E2, bind_Ret. eexists _, r. split_and!; [done| |].
  - destruct Hr as [->|[_ ->]]; [by left|right]. by rewrite list_lookup_fmap.
  - intros x Hx Hkx [G1 G2]. assert ((shown <$> L) !! seek_index (o_cmp o) lk (shown <$> L) = Some (shown x)) as Hn by (rewrite list_lookup_fmap; exact (f_equal (fmap shown) Hx)).
    destruct (table_get_ok (RA := ra_read (st_env st1)) o (shown <$> L) f file Ts Hh T7 t HT (cache_good o file Ts t) HS _ lk (shown x) (st_blocks st1) HG Hlk eq_refl Hn G1 G2) as (c2 & E3 & _).
    { subst k. apply same_filtered_ikey. }
    rewrite E2 in E3. by injection E3.
Qed.

(** ** The version *)

(** The version has one file. *)
Lemma one_file (M : Metas) fresh v level n d : map_ok (u := u) {[ (level, n) := d ]} → represents (u := u) M fresh v {[ (level, n) := d ]} →
  ∃ f, num (M f) = n ∧ core (M f) = d ∧ ∀ l, level_ok l → files_at v l = if decide (l = level) then [f] else [].
Proof.
  intros Hm R. destruct (mo_key _ Hm level n d) as (Hl & _); [by apply lookup_singleton_eq|].
  assert (∀ l, level_ok l → files_at v l = [] ∨ l = level ∧ ∃ f, files_at v l = [f] ∧ num (M f) = n ∧ core (M f) = d) as Hfs.
  { intros l Ho. destruct (represents_files M fresh v _ l Hm R Ho) as (fs & _ & -> & Lf & _). pose proof (lf_nodup _ _ _ _ Lf) as Hnd.
    assert (∀ f, f ∈ fs → l = level ∧ num (M f) = n ∧ core (M f) = d) as Hin.
    { intros f Hf. assert (({[ (level, n) := d ]} : filemap) !! (l, num (M f)) = Some (core (M f))) as Hx by (apply (lf_files _ _ _ _ Lf); by exists f).
      by apply lookup_singleton_Some in Hx as [[= -> ->] ->]. }
    destruct fs as [|f [|g fs]]; [by left|right; destruct (Hin f) as (-> & ? & ?); [left|split; [done|by exists f]]|]. exfalso.
    destruct (Hin f) as (_ & H1 & _); [left|]. destruct (Hin g) as (_ & H2 & _); [right; left|]. rewrite !fmap_cons, H1, H2 in Hnd. apply NoDup_cons in Hnd as [Hnd _]. apply Hnd. left. }
  destruct (represents_files M fresh v _ level Hm R Hl) as (fs & _ & Ef & Lf & _). destruct (proj1 (lf_files _ _ _ _ Lf n d)) as (f & Hf & Hfn & Hfd); [by apply lookup_singleton_eq|].
  exists f. split_and!; [done..|]. intros l Ho.
  destruct (Hfs l Ho) as [El|(Hlv & g & El & _)]; rewrite El.
  - destruct (decide (l = level)) as [Hlv|]; [|done]. subst l. rewrite El in Ef. subst fs. by apply elem_of_nil in Hf.
  - rewrite decide_True by done. subst l. rewrite El in Ef. subst fs. by apply list_elem_of_singleton in Hf as ->.
Qed.

(** The file is searched if the key is in its range. *)
Lemma one_candidate (M : Metas) v level f (lk : bytes) levels : level_ok level → (∀ l, level_ok l → files_at v l = if decide (l = level) then [f] else []) → candidates opt M v lk levels →
  concat levels = [f] ∨ concat levels = [] ∧ (ord u (ukey_of lk) (lo M f) = Lt ∨ ord (InternalKeyCmp u) (largest (M f)) lk = Lt ∨ ord u (ukey_of lk) (hi M f) = Gt).
Proof.
  intros Ho Hv (l0 & -> & Hp & _). set (cf := if decide (not_below (u := u) M lk f) then if is_ge (ord u (ukey_of lk) (lo M f)) then [f] else [] else []).
  assert (∀ l : nat, (l < 7)%nat → candidate opt M v lk l = if decide (Z.of_nat l = level) then cf else []) as Hc.
  { intros l Hl. unfold candidate. rewrite Hv by (unfold level_ok; change NUM_LEVELS with 7; lia). destruct (decide (Z.of_nat l = level)); [|done]. cbn [list_find]. unfold cf. by destruct (decide (not_below _ _ _)). }
  rewrite (Hv 0) in Hp by (unfold level_ok; change NUM_LEVELS with 7; lia). cbn [seq fmap list_fmap concat]. rewrite !Hc by lia. unfold level_ok in Ho. change NUM_LEVELS with 7 in Ho. destruct (decide (0 = level)) as [<-|Hne].
  - cbn [Z.of_nat app]. rewrite filter_cons, filter_nil in Hp. destruct (decide (covers opt M lk f)) as [Hcov|Hcov].
    + left. apply Permutation_singleton_r in Hp as ->. done.
    + right. apply Permutation_nil_r in Hp as ->. split; [done|]. unfold covers in Hcov. destruct (ord u (ukey_of lk) (lo M f)), (ord u (ukey_of lk) (hi M f)); auto; by destruct Hcov.
  - rewrite filter_nil in Hp. apply Permutation_nil_r in Hp as ->.
    assert (level = 1 ∨ level = 2 ∨ level = 3 ∨ level = 4 ∨ level = 5 ∨ level = 6) as Hcase by lia.
    assert (cf = [f] ∨ cf = [] ∧ (ord u (ukey_of lk) (lo M f) = Lt ∨ ord (InternalKeyCmp u) (largest (M f)) lk = Lt)) as Hcf.
    { unfold cf. destruct (decide (not_below (u := u) M lk f)) as [H1|H1]; [|right; split; [done|right; unfold not_below in H1; by destruct (ord _ _ _); try (by destruct H1)]].
      destruct (ord u (ukey_of lk) (lo M f)); auto. }
    destruct Hcase as [->|[->|[->|[->|[->| ->]]]]]; cbn [Z.of_nat Pos.of_succ_nat Pos.succ decide app]; rewrite ?app_nil_r; naive_solver.
Qed.

(** ** Searching it *)

Lemma get_in_levels_none (M : Metas) v lk k levels level stats st : concat levels = [] → get_in_levels debug_bytes M v lk k level levels stats st = Ret (st, None).
Proof.
  revert level stats. induction levels as [|fs levels IH]; intros level stats Hc; cbn [get_in_levels]; [done|]. cbn in Hc. apply app_nil in Hc as [-> Hc]. cbn [get_in_files]. rewrite bind_Ret. by apply IH.
Qed.

Lemma get_in_levels_one (M : Metas) v f q k levels level stats st st' (r : option mentry) : user_cmp v = u → key_ok u k → concat levels = [f] → (∀ x, r = Some x → mentry_ok (u := u) x) →
  tc_get debug_bytes (num (M f)) (ikey k q TypeValue) st = Ret (st', Ok (shown <$> r)) →
  get_in_levels debug_bytes M v (ikey k q TypeValue) k level levels stats st
    = Ret (st', match r with Some x => if decide (k = m_key x) then (λ a, (a, stats)) <$> (answer_of x).1 else None | None => None end).
Proof.
  intros Hv Hk Hc Hr Eg. revert level. induction levels as [|fs levels IH]; intros level; [done|]. cbn in Hc. cbn [get_in_levels].
  destruct fs as [|g fs]; [cbn [get_in_files]; rewrite bind_Ret; by apply IH|]. cbn in Hc. injection Hc as -> Hc. apply app_nil in Hc as [-> Hc]. cbn [get_in_files]. rewrite Eg, bind_Ret.
  destruct r as [x|]; cbn [fmap option_fmap option_map]; [|rewrite bind_Ret; by apply get_in_levels_none].
  destruct (Hr x eq_refl) as (H56 & Kx & _). unfold shown. rewrite parse_internal_key_views by (rewrite length_ikey; lia). rewrite typ_of_ikey, ukey_of_ikey, !bind_Ret by done. unfold answer_of.
  destruct (m_type x) eqn:Et; [rewrite bind_Ret; by destruct (decide _)|]. rewrite Hv, cmp_ret, bind_Ret by done. destruct (decide (k = m_key x)) as [->|Hne].
  - by rewrite ord_refl.
  - destruct (ord u (m_key x) k) eqn:Eo; cbn [is_eq]; [apply ord_exact in Eo; congruence|rewrite bind_Ret; by apply get_in_levels_none..].
Qed.

(** What the version answers. *)
Lemma version_get_one (M : Metas) v level f n path L file Ts base H k q st db : version_ok (u := u) M v → user_cmp v = u → level_ok level →
  (∀ l, level_ok l → files_at v l = if decide (l = level) then [f] else []) → core (M f) = table_meta n file L → one_table st db n path L file Ts →
  Forall (mentry_ok (u := u)) L → mentries_sorted opt L → L ≡ₚ mentries (base + 1) H → base + zlen H ≤ q → is_u 56 q → key_ok u k → zlen k + 8 < 2 ^ 63 →
  (∀ a, last_op k H = Some (Some a) → findable L k q) →
  ∃ st', version_get debug_bytes M v (ikey k q TypeValue) st = Ret (st', Ok ((λ a, (a, {| gs_file := None; gs_level := 0 |})) <$> default None (last_op k H))).
Proof.
  intros V Hv Ho Hfs Hd HT HL Hs HP Hq H56 Hk Hl Hfind. set (lk := ikey k q TypeValue). assert (key_ok (o_cmp o) lk) as Hlk by (by apply ikey_wf).
  assert (num (M f) = n ∧ smallest (M f) = smallest (table_meta n file L) ∧ largest (M f) = largest (table_meta n file L)) as (Hn & Hlo & Hhi) by (split_and!; [exact (f_equal num Hd)|exact (f_equal smallest Hd)|exact (f_equal largest Hd)]).
  destruct (get_overlapping_ok opt M v lk V) as (levels & E1 & HC); [|done|].
  { intros l [Hl1 Hl2]. rewrite Hfs by (unfold level_ok; lia). destruct (decide _); repeat constructor. }
  unfold version_get. rewrite E1, bind_Ret, parsed_ukey_ok by (unfold lk; rewrite length_ikey; lia). unfold lk at 2. rewrite ukey_of_ikey, bind_Ret.
  pose proof (lookup_at_ops opt L base H k q HL Hs HP Hq H56 Hk) as Hans. destruct (one_candidate M v level f lk levels Ho Hfs HC) as [Hc|[Hc Hout]].
  - destruct (tc_get_new st db n path L file Ts k q HT H56 Hk Hl) as (st' & r & E2 & Hr & Hhit). rewrite <- Hn in E2.
    assert (∃ rx, r = shown <$> rx ∧ (rx = None ∨ rx = lookup_at opt L k q)) as (rx & -> & Hrx) by (destruct Hr as [-> |Hr]; [exists None; auto|by eexists; split; [exact Hr|right]]).
    rewrite (get_in_levels_one M v f q k levels 0 _ st st' rx Hv Hk Hc) by (done || (intros x ->; destruct Hrx as [|Hrx]; [done|]; eapply Forall_lookup_1, eq_sym, Hrx; done)).
    rewrite bind_Ret. exists st'. do 3 f_equal. destruct Hrx as [->| ->].
    + destruct (last_op k H) as [[a|]|] eqn:El; [|done..]. destruct (lookup_at opt L k q) as [x|] eqn:Ex; [|done]. destruct (decide (k = m_key x)) as [Hx|]; [|done].
      discriminate (Hhit x eq_refl (eq_sym Hx) (Hfind a eq_refl)).
    + destruct (lookup_at opt L k q) as [x|]; [destruct (decide _)|]; [rewrite Hans|..]; by destruct (last_op k H) as [[a|]|].
  - rewrite get_in_levels_none by done. rewrite bind_Ret. exists st. do 3 f_equal. destruct (last_op k H) as [[a|]|] eqn:El; [|done..]. exfalso.
    destruct (lookup_at opt L k q) as [x|] eqn:Ex; [|done]. destruct (decide (k = m_key x)) as [Hx|]; [|done].
    destruct (in_range opt n file L x Hs HL) as [R1 R2]; [by eapply list_elem_of_lookup_2|]. unfold lo, hi in Hout. rewrite Hlo, Hhi in Hout.
    assert (ord (InternalKeyCmp u) (shown x).1 lk ≠ Lt) as R3 by (apply (seek_index_not_below lk (shown <$> L)); rewrite list_lookup_fmap; exact (f_equal (fmap shown) Ex)).
    apply ukey_le in R1. assert (ord u (ukey_of (shown x).1) (ukey_of (largest (table_meta n file L))) ≠ Gt) as R4 by (by apply ukey_le).
    unfold lk in Hout at 1 3. cbn [shown fst] in R1, R4. rewrite ukey_of_ikey in R1, R4, Hout. subst k. destruct Hout as [H1|[H1|H1]]; [|by destruct R3; eapply ord_le_lt|done].
    by destruct R1; apply ord_Gt_Lt.
Qed.

(** ** The database *)

(** [get] on a database with one table and the batches [Bs] in its log. *)
Lemma get_flushed fuel mfuel s base Bs mn es c n top level j path L file Ts base0 H k :
  open_db (u := u) s base Bs mn es c n top false → files_of es = {[ (level, j) := table_meta j file L ]} → one_table (w_storage s.1) (db_path s.2) j path L file Ts →
  Forall (mentry_ok (u := u)) L → mentries_sorted opt L → L ≡ₚ mentries (base0 + 1) H → base0 + zlen H ≤ base → key_ok u k → zlen k + 8 < 2 ^ 63 →
  (∀ a, last_op k (concat Bs) = None → last_op k H = Some (Some a) → findable L k (base + zlen (concat Bs))) →
  ∃ s', db_get debug_bytes order micros fuel mfuel k s = Ret (s', default None (last_op k (H ++ concat Bs))).
Proof.
  intros S Hf HT HL Hs HP Hb Hk Hl Hfind. pose proof (od_wal _ _ _ _ _ _ _ _ _ S) as W. pose proof (wi_bound _ _ _ W) as Wb. pose proof (wi_base _ _ _ W) as W0.
  pose proof (od_vs _ _ _ _ _ _ _ _ _ S) as I. pose proof (hi_map _ (vi_history _ _ _ I)) as Hm. destruct (vi_current _ _ _ I) as (l & v & El & Ev & R). rewrite Hf in Hm, R.
  destruct (mo_key _ Hm level j (table_meta j file L)) as (Ho & _); [by apply lookup_singleton_eq|].
  destruct (one_file (w_metas s.1) _ v level j _ Hm R) as (f & _ & Hd & Hfs). pose proof (represents_ok (u := u) _ _ _ _ Hm R) as V.
  assert (db_current s = Ret v) as Ec by (unfold db_current, current; rewrite El; cbn [unwrap]; by rewrite bind_Ret, Ev).
  unfold db_get. rewrite (wi_seq _ _ _ W), (get_internal_mem debug_bytes order micros fuel mfuel s base Bs k _ W (od_imm _ _ _ _ _ _ _ _ _ S)), take_ge by done.
  rewrite last_op_app. destruct (last_op k (concat Bs)) as [x|] eqn:Ex; [rewrite bind_Ret; by exists s|]. rewrite Ec, bind_Ret.
  destruct (version_get_one (w_metas s.1) v level f j path L file Ts base0 H k (base + zlen (concat Bs)) (w_storage s.1) (db_path s.2) V (rp_cmp _ _ _ _ R) Ho Hfs Hd HT HL Hs HP) as (st' & Eg); try done; [lia|unfold is_u; lia|intros a Ha; by apply (Hfind a)|].
  destruct s as [w db]. cbn [fst snd] in *. unfold on_storage. rewrite Eg, bind_Ret. cbn [fst].
  destruct (default None (last_op k H)) as [a|]; cbn [fmap option_fmap option_map]; rewrite bind_Ret; [|rewrite bind_Ret; by eexists].
  unfold update_stats. cbn [gs_file]. rewrite bind_Ret. unfold set_current_version. rewrite El. cbn [unwrap]. rewrite !bind_Ret. by eexists.
Qed.

(** Nothing is to be compacted when the only table has less than 8 MiB. *)
Lemma one_light fuel mfuel s base Bs mn es c n top level j file L : open_db (u := u) s base Bs mn es c n top false →
  files_of es = {[ (level, j) := table_meta j file L ]} → zlen file < 2 ^ 23 → compact_version debug_bytes order micros fuel mfuel s = Ret (s, Ok ()).
Proof.
  intros S Hf Hl. pose proof (hi_map _ (vi_history _ _ _ (od_vs _ _ _ _ _ _ _ _ _ S))) as Hm. destruct (od_version _ _ _ _ _ _ _ _ _ S) as (v & Ev & Sv). rewrite Hf in Hm, Sv.
  pose proof Sv as (_ & M & fresh & R & _). destruct (one_file M fresh v level j _ Hm R) as (f & _ & _ & Hfs).
  unfold compact_version, needs_compaction. change (current s.1 (db_vset s.2)) with (db_current s). rewrite Ev, !bind_Ret, (light_version (u := u) _ _ Hm Sv); [done| |].
  - rewrite <- insert_empty, map_bytes_insert by apply lookup_empty. cbn. change (map_bytes ∅) with 0. lia.
  - rewrite Hfs by (unfold level_ok; change NUM_LEVELS with 7; lia). destruct (decide _); cbn; lia.
Qed.

End read.

(** ** Which keys can be found *)

Section findable.
Context `{IEL : IntegerEncodingLaws}.
Implicit Types (L : list mentry) (x y : mentry).

(** The options with the default comparator. *)
Definition default_keys (opt : Options) : Options :=
  {| o_cmp := DefaultCmp; create_if_missing := create_if_missing opt; error_if_exists := error_if_exists opt; paranoid_checks := paranoid_checks opt;
     write_buffer_size := write_buffer_size opt; max_open_files := max_open_files opt; max_file_size := max_file_size opt; o_block_size := o_block_size opt;
     block_restart_interval := block_restart_interval opt; reuse_logs := reuse_logs opt; reuse_manifest := reuse_manifest opt; o_compressor := o_compressor opt;
     compressor_list := compressor_list opt; filter_policy := filter_policy opt |}.

(** No user key is empty or another one followed by a zero byte. *)
Record regular L : Prop := {
  rg_key x : x ∈ L → m_key x ≠ [] ∧ zlen (m_key x) + 11 < 2 ^ 64 ∧ is_bytes (m_key x);
  rg_zero x y : x ∈ L → y ∈ L → m_key y ≠ m_key x ++ [0];
}.

Abbreviation icmp := (InternalKeyCmp DefaultCmp) (only parsing).

Lemma ord_ikeys k1 s1 t1 k2 s2 t2 : is_u 56 s1 → is_u 56 s2 → ord icmp (ikey k1 s1 t1) (ikey k2 s2 t2) = match bytes_cmp k1 k2 with Eq => s2 ?= s1 | c => c end.
Proof. intros H1 H2. exact (ord_internal_ikey (u := DefaultCmp) k1 s1 t1 k2 s2 t2 H1 H2). Qed.

(** Over the default comparator [Table::get] finds the newest entry of every user key, if keys are
    [regular] and the entry is not the last of all operations with an older one of its key behind it. *)
Theorem default_findable opt L k q x : Forall (mentry_ok (u := DefaultCmp)) L → mentries_sorted (default_keys opt) L → regular L → is_u 56 q →
  lookup_at (default_keys opt) L k q = Some x → m_key x = k → m_seq x < q ∨ (∀ y, y ∈ L → m_key y = k → y = x) → findable (default_keys opt) L k q.
Proof.
  intros HL Hs [G1 G2] H56 Hx <- Hlast. rewrite Forall_forall in HL. unfold lookup_at in Hx. set (lk := ikey (m_key x) q TypeValue) in *. set (n := seek_index _ lk (shown <$> L)) in Hx.
  assert (∀ i y, L !! i = Some y → y ∈ L ∧ is_u 56 (m_seq y)) as Hin by (intros i y Hy; apply list_elem_of_lookup_2 in Hy; split; [done|apply (HL y Hy)]).
  destruct (Hin _ _ Hx) as [Hxin Hx56]. destruct (G1 x Hxin) as (Hxne & Hxlen & Hxb).
  assert (ord icmp (shown x).1 lk ≠ Lt) as Hnb by (apply (seek_index_not_below lk (shown <$> L)); rewrite list_lookup_fmap; exact (f_equal (fmap shown) Hx)). split.
  - intros i a e sep Ha He Hlt Hge Hsep. rewrite list_lookup_fmap in Ha, He. destruct (L !! i) as [ya|] eqn:Ea; [|done]. destruct (L !! S i) as [ye|] eqn:Ee; [|done].
    injection Ha as <-. injection He as <-. destruct (Hin _ _ Ea) as [Hain Ha56]. destruct (Hin _ _ Ee) as [Hein He56]. destruct (G1 ya Hain) as (Hane & Halen & _). destruct (G1 ye Hein) as (_ & _ & Heb).
    assert (S i = n) as Hn.
    { destruct (lt_eq_lt_dec (S i) n) as [[Hsi|Hsi]|Hsi]; [|done|].
      - destruct Hge. apply (seek_index_below (c := icmp) lk (shown <$> L) (S i) (shown ye)); [by rewrite list_lookup_fmap, Ee|done].
      - exfalso. destruct (decide (i = n)) as [->|Hne]; [simplify_eq; by apply Hnb|]. apply Hnb. eapply (ord_le_lt (c := icmp)); [|exact Hlt].
        pose proof (sorted_lookup_lt _ _ _ _ _ _ Hs Hx Ea ltac:(lia)) as Ho. intros Hg. discriminate (eq_trans (eq_sym Ho) Hg). }
    rewrite Hn, Hx in Ee. injection Ee as <-. pose proof (sorted_lookup_lt _ _ _ _ _ _ Hs Ea Hx ltac:(lia)) as Hab.
    destruct (internal_sep_users (m_key ya) (m_seq ya) (m_type ya) (m_key x) (m_seq x) (m_type x) sep Ha56 Hx56 ltac:(lia) Hxb Hane Hab Hsep) as (ks & ss & -> & Hss & [(E1 & -> & ->)|(_ & _ & [E1|E1])]).
    + pose proof (eq_trans (eq_sym (ord_ikeys (m_key ya) (m_seq ya) (m_type ya) (m_key x) q TypeValue Ha56 H56)) Hlt) as Hlt'. etrans; [exact (ord_ikeys _ _ _ _ _ _ Hss H56)|exact Hlt'].
    + etrans; [exact (ord_ikeys _ _ _ _ _ _ Hss H56)|]. by rewrite E1.
    + by destruct (G2 ya x Hain Hxin).
  - intros e sep He Hsep. change (seek_index _ _ _) with n in He, Hsep. rewrite list_lookup_fmap, Hx in He. injection He as <-. rewrite <- fmap_drop in Hsep.
    assert (∀ kb sb tb, is_u 56 sb → is_bytes kb → ord icmp (shown x).1 (ikey kb sb tb) = Lt → (kb = m_key x → m_seq x < q) → find_shortest_sep icmp (shown x).1 (ikey kb sb tb) = Ret sep → ord icmp lk sep = Lt) as Hcase.
    { intros kb sb tb Hsb Hkb Hlt Hv Hf. destruct (internal_sep_users (m_key x) (m_seq x) (m_type x) kb sb tb sep Hx56 Hsb ltac:(lia) Hkb Hxne Hlt Hf) as (ks & ss & -> & Hss & [(E1 & -> & ->)|(_ & E1 & _)]);
        (etrans; [exact (ord_ikeys _ _ _ _ _ _ H56 Hss)|]); [|by rewrite E1]. rewrite bytes_cmp_refl. by apply Z.compare_lt_iff, Hv. }
    destruct (L !! S n) as [y|] eqn:Ey.
    + rewrite (drop_S _ _ _ Ey) in Hsep. destruct (Hin _ _ Ey) as [Hyin Hy56]. destruct (G1 y Hyin) as (_ & _ & Hyb). pose proof (sorted_lookup_lt _ _ _ _ _ _ Hs Hx Ey ltac:(lia)) as Hxy.
      apply (Hcase (m_key y) (m_seq y) (m_type y) Hy56 Hyb Hxy); [|exact Hsep]. intros Hyk. destruct Hlast as [|Hlast]; [done|]. rewrite (Hlast y Hyin Hyk) in Hxy. by rewrite ord_refl in Hxy.
    + rewrite drop_ge in Hsep by (by apply lookup_ge_None). destruct Hsep as (r & Hr & Hf). destruct (internal_succ_spec (m_key x) (m_seq x) (m_type x) Hx56 ltac:(lia)) as [Er Hlt].
      assert (r = ikey (short_succ_from (m_key x) 0 (m_key x)) (m_seq x) TypeValue) as -> by (pose proof (eq_trans (eq_sym Hr) Er); congruence).
      apply (Hcase _ _ _ Hx56 (short_succ_from_bytes _ _ _ Hxb Hxb) Hlt); [|exact Hf]. intros Ek. pose proof (short_succ_from_gt [] (m_key x)) as Hgt. cbn [app length] in Hgt.
      by rewrite Ek, bytes_cmp_refl in Hgt.
Qed.

End findable.

(** ** Theorems *)

Section flushed.
Context `{IEL : IntegerEncodingLaws} `{CRL : Crc32Laws} `{EL : EnvLaws E} `{RG : Rng G}.
Context {FW : FixedIntWriter (E * BufWriter w_file)} (RF : ∀ e p, ReliableFixedInt (E * BufWriter w_file) (RW := buf_writer e p)).
Context (debug_bytes : bytes → string) (order : gset (Z * Z) → list (Z * Z)) (order_ok : ∀ s, order s ≡ₚ elements s) (micros : E → exec (E * Z)) {CK : Clock micros}.
Context (opt : Options) {UO : OrderedCmp (o_cmp opt)} {UE : ExactCmp (o_cmp opt)}.
Context (Hid : utf8_valid (string_bytes (cmp_id (o_cmp opt))) = true ∧ key_fits (string_bytes (cmp_id (o_cmp opt)))).
Context (canonicalize : string → option string) (debug_path : string → string).
Abbreviation u := (o_cmp opt) (only parsing).
Abbreviation o := (with_internal_keys opt) (only parsing).
#[local] Instance internal_ordered'' : OrderedCmp (o_cmp o) := InternalKeyCmp_ordered (u := u).
Implicit Types (s : World E ra_file * DB G w_file) (es : list VersionEdit) (e : E).

(** A database that was just opened has no table open. *)
Lemma opened_one_table s name blocks es e0 k L file Ts : good_options canonicalize (u := u) name opt → brought_up s name opt blocks es e0 → env_ok (w_env s.1) →
  cache_ids blocks → c_id blocks + 1 < 2 ^ 64 → 0 < k < 2 ^ 64 → contents (w_env s.1) !! path_join name (table_base k) = Some file → table_file o (shown <$> L) file Ts →
  one_table opt (w_storage s.1) (db_path s.2) k (path_join name (table_base k)) L file Ts.
Proof.
  intros O B He Hc Hid' Hk Hf TF. pose proof (bu_storage _ _ _ _ _ _ B) as Est. pose proof (go_files _ _ _ O) as Hfiles. rewrite (bu_path _ _ _ _ _ _ B). split; try done; rewrite ?Est; try done.
  - split; try done. cbn. destruct (cache_new_inv (T := Table ra_file) (max_open_files opt - 10)) as (c0 & Ec & Hc0 & _); [lia|].
    unfold Cache_new in Ec. rewrite (proj2 (Z.ltb_lt _ _)) in Ec by lia. by injection Ec as <-.
  - unfold table_file_name. by ztest.
Qed.

(** C7: Reads find what was written before the memtable became a table, after a crash too.
    When the memtable of a database without tables is full and its entries make a table of less
    than 8 MiB, [make_room_for_write] returns: the entries are in a table and the memtable is
    empty, and no compaction is due.  From any environment with the contents of that moment,
    whose lock is gone, [open] returns a database in which [get] answers with the last operation
    on the key: with its value, and with nothing for keys that were deleted or never written.
    A key with a value must be one that [Table::get] can find, see [findable]; over the default
    comparator [default_findable] says which keys these are. *)
Theorem flushed_reads fuel mfuel (force : bool) s base Bs mn es c n top (has_log : bool) blocks : let L := sorted_ops (u := u) base Bs in
  open_db (u := u) s base Bs mn es c n top false → db_opt s.2 = opt → files_of es = ∅ →
  full force s → table_room s es → flushable_within opt L (2 ^ 23) → (length L < fuel)%nat →
  good_options canonicalize (u := u) (db_path s.2) opt → approx_mem_usage (MemTable_new (G := G) u) ≤ write_buffer_size opt → top + 4 < 2 ^ 64 - 1 →
  cache_ids blocks → c_id blocks + 1 < 2 ^ 64 →
  ∃ s1 es1 c1 n1, make_room_for_write debug_bytes order micros fuel mfuel force s = Ret (s1, Ok ())
    ∧ open_db (u := u) s1 (base + zlen (concat Bs)) [] mn es1 c1 n1 (top + 2) false ∧ db_path s1.2 = db_path s.2
    ∧ ∀ e, env_ok e → contents e = contents (w_env s1.1) → ¬ locked e (lock_file_name (db_path s.2)) →
      ∃ N, ∀ fuel rfuel mfuel, (N ≤ fuel)%nat → (N ≤ rfuel)%nat →
        ∃ w db, DB_open debug_bytes order micros canonicalize debug_path fuel rfuel mfuel (db_path s.2) opt has_log blocks e = Ret (w, Ok db)
          ∧ ∀ k, key_ok u k → zlen k + 8 < 2 ^ 63 → (∀ a, last_op k (concat Bs) = Some (Some a) → findable opt L k (base + zlen (concat Bs))) →
            ∃ s2, db_get debug_bytes order micros fuel mfuel k (w, db) = Ret (s2, default None (last_op k (concat Bs))).
Proof.
  intros L S Ho Hf Hfull R HF Hfuel O Ha Ht Hids Hroom.
  destruct (flush_reopens RF debug_bytes order order_ok micros opt Hid canonicalize debug_path fuel mfuel force s base Bs mn es c n top ∅ (2 ^ 23) has_log blocks S Ho Hfull R) as (_ & H64 & s1 & level & file & Ts & es1 & c1 & n1 & E1 & S1 & _ & Hlv & TF & Hsz & Hc & F1 & P1 & H); try done.
  { split; [by rewrite Hf|]. by intros k L' ?%lookup_empty_Some. }
  set (j := next_file_num (db_vset s.2) + 1) in *. assert (0 < j) as Hj by (destruct (od_log _ _ _ _ _ _ _ _ _ S) as (? & _); pose proof (dk_log _ _ _ _ _ _ _ (od_disk _ _ _ _ _ _ _ _ _ S)); pose proof (od_counters _ _ _ _ _ _ _ _ _ S); lia).
  rewrite Hf, insert_empty in F1. rewrite (one_light debug_bytes order micros opt fuel mfuel s1 _ _ _ _ _ _ _ level j file L S1 F1 Hsz) in E1.
  exists s1, es1, c1, n1. split_and!; [done..|]. intros e He Hce Hlk. destruct (H e He Hce Hlk) as [N HN]. exists N. intros fuel' rfuel' mfuel' N1 N2.
  destruct (HN fuel' rfuel' mfuel' N1 N2) as (s2 & mn2 & es2 & c2 & n2 & E2 & S2 & _ & F2 & B2). rewrite F1 in F2.
  rewrite (one_light debug_bytes order micros opt mfuel' mfuel' s2 _ _ _ _ _ _ _ level j file L S2 F2 Hsz), bind_Ret in E2. exists s2.1, s2.2. split; [done|]. intros k Hk Hl Hfind.
  pose proof (wal_sorted _ _ _ (od_wal _ _ _ _ _ _ _ _ _ S)) as Hmt.
  assert (contents (w_env s2.1) !! path_join (db_path s.2) (table_base j) = Some file) as Hc2.
  { rewrite (bu_tables _ _ _ _ _ _ B2), Hce; [done|]. rewrite F2. unfold numbers. rewrite dom_singleton_L. set_solver. }
  rewrite <- surjective_pairing.
  destruct (get_flushed debug_bytes order micros opt fuel' mfuel' s2 (base + zlen (concat Bs)) [] mn2 es2 c2 n2 (top + 4) level j (path_join (db_path s.2) (table_base j)) L file Ts base (concat Bs) k S2 F2) as (s3 & E3); try done.
  - eapply opened_one_table; [exact O|exact B2|apply S2|done|done|unfold is_u in H64; lia|done|done].
  - apply Hmt.
  - by eapply holds_mentries_sorted.
  - apply sorted_ops_perm.
  - intros a _ Ha'. cbn. rewrite Z.add_0_r. by apply (Hfind a).
  - exists s3. by rewrite app_nil_r in E3.
Qed.

End flushed.

(** ** Witnesses *)

Section read_witnesses.
Import TestFlush.

Lemma ops_findable : findable TestStorage.uopts ops_table [97] 2.
Proof.
  split.
  - intros i a e' sp Ha He Hlt Hge Hs. destruct i as [|[|i]]; [|discriminate He|discriminate He]. vm_compute in Ha. injection Ha as <-. vm_compute in Hlt. discriminate Hlt.
  - assert (seek_index (InternalKeyCmp DefaultCmp) (ikey [97] 2 TypeValue) (shown <$> ops_table) = 0%nat) as Hn by (vm_compute; reflexivity).
    intros e' sp He Hs. change (seek_index _ _ _) with (seek_index (InternalKeyCmp DefaultCmp) (ikey [97] 2 TypeValue) (shown <$> ops_table)) in He, Hs. rewrite Hn in He, Hs.
    vm_compute in He. injection He as <-. vm_compute in Hs. injection Hs as <-. vm_compute. reflexivity.
Qed.

Lemma ops_within : flushable_within TestStorage.uopts ops_table (2 ^ 23).
Proof. exists NoneCompressor, TestTable.fits, 10, 10. split; [exact ops_buildable|vm_compute; reflexivity]. Qed.

Lemma flushed_reads_witness :
  ∃ (s s1 s3 : World MemFS ra_file * DB Z w_file) (e : MemFS) N w db, make_room_for_write (EN := TestWal.EN) TestOpen.no_text elements TestWal.clock 10 0 true s = Ret (s1, Ok ())
    ∧ contents (EN := TestWal.EN) (EnvLaws := TestWal.EL) e = contents (EN := TestWal.EN) (EnvLaws := TestWal.EL) (w_env s1.1)
    ∧ DB_open (EN := TestWal.EN) TestOpen.no_text elements TestWal.clock TestOpen.canon TestOpen.no_text N N 0 "db" TestStorage.uopts false TestOpen.no_blocks e = Ret (w, Ok db)
    ∧ db_get (EN := TestWal.EN) TestOpen.no_text elements TestWal.clock N 0 [97] (w, db) = Ret (s3, Some [1]).
Proof.
  destruct filled as (s & mn & es & c & n & S & F & Hp & Ho & Hc & Hb & Hl).
  destruct (flushed_reads (IEL := Reference.ref_encoding_laws) (CRL := Reference.ref_crc_laws) fixed_reliable TestOpen.no_text elements (λ s, reflexivity _) TestWal.clock TestStorage.uopts
    TestManifest.id_ok TestOpen.canon TestOpen.no_text 10 0 true s 0 [TestWal.ops1] mn es c n 5 false TestOpen.no_blocks S Ho F) as (s1 & es1 & c1 & n1 & E1 & S1 & P1 & H).
  - split; [by left|by rewrite Hl].
  - split; [pose proof (od_log _ _ _ _ _ _ _ _ _ S); lia|by rewrite Hb|by rewrite F|]. rewrite Hc. by split; [|repeat constructor].
  - exact ops_within.
  - vm_compute. lia.
  - rewrite Hp. exact TestOpen.options_good.
  - vm_compute. done.
  - lia.
  - split; [done|]. exists []. split; [|constructor]. destruct (cache_new_inv (T := Block) 10) as (c0 & Ec & Hc0 & _); [lia|]. vm_compute in Ec. by injection Ec as <-.
  - done.
  - destruct (od_lock _ _ _ _ _ _ _ _ _ S1) as (l & _ & Hl1 & Hl2). rewrite <- Hl1 in Hl2.
    destruct (unlock_law l (w_env s1.1) (wi_env _ _ _ (od_wal _ _ _ _ _ _ _ _ _ S1)) Hl2) as (e & _ & Ke & Ce & Hle). rewrite Hl1, P1 in Hle.
    destruct (H e (proj1 Ke) Ce Hle) as [N HN]. destruct (HN N N 0%nat ltac:(lia) ltac:(lia)) as (w & db & E2 & Hget).
    destruct (Hget [97]) as (s3 & E3); [done|done|intros a _; exact ops_findable|]. rewrite Hp in E2. exists s, s1, s3, e, N, w, db. split; [exact E1|]. split; [exact Ce|]. split; [exact E2|exact E3].
Defined.

End read_witnesses.
