(* ===== verification/Move.v ===== *)
(** * Move: a table goes down one level

    [maybe_do_compaction] and [start_compaction] of [src/db_impl.rs] when the compaction that
    [pick_compaction] chooses is the move of one table: the table stays as it is, and the
    version and the manifest have it one level further down. *)

From Stdlib Require Import Ascii SpecFloat.
From S2P Require Import Prelude Encoding Error Io Env BufWriter MemEnv Types Cmp KeyTypes Log Iterator SkipMap MemTable WriteBatch Filter FilterBlock Options BlockBuilder Block Cache TableBuilder Table TableFile TableRead TableCache Version VersionEdit Snapshot MergingIter VersionSet Builder Manifest Recover Tables Pick DbImpl Wal Open.

(** ** The edit of a move *)

Section edit.
Context `{IEL : IntegerEncodingLaws} {u : Cmp} {UO : OrderedCmp u}.
Implicit Types (m : filemap) (d : FileMetaData).

(** The file [d] of [level] is moved; the compaction pointer of the level is [e]. *)
Definition move_edit (level : Z) d (e : bytes) : VersionEdit := add_file (level + 1) d (delete_file level (num d) (set_compact_pointer level e VersionEdit_new)).

Lemma edit_map_move m level d e : edit_map m (move_edit level d e) = <[(level + 1, num d) := core d]> (delete (level, num d) m).
Proof.
  unfold edit_map. cbn. f_equal. apply map_eq. intros k. apply option_eq. intros x. rewrite map_lookup_filter_Some, lookup_delete_Some. cbn. split; intros [H1 H2]; (split; [set_solver|done]) || (split; [done|set_solver]).
Qed.

Lemma map_ok_delete m k : map_ok (u := u) m → map_ok (u := u) (delete k m) ∧ ∀ d, m !! k = Some d → map_bytes (delete k m) + size d = map_bytes m.
Proof.
  intros Hm. assert (∀ d, m !! k = Some d → map_bytes (delete k m) + size d = map_bytes m) as Hb.
  { intros d Hd. rewrite <- (insert_delete_id m k d Hd) at 2. rewrite map_bytes_insert by apply lookup_delete_eq. lia. }
  split; [|done]. split.
  - intros l n d [_ H]%lookup_delete_Some. by apply (mo_key _ Hm).
  - intros l n d n' d' [_ H]%lookup_delete_Some [_ H']%lookup_delete_Some. by apply (mo_disjoint _ Hm l n d n' d').
  - destruct (m !! k) as [d|] eqn:Hd; [|rewrite delete_id by done; apply Hm]. specialize (Hb d eq_refl). pose proof (mo_bytes _ Hm). destruct k as [l n].
    destruct (mo_key _ Hm _ _ _ Hd) as (_ & _ & _ & _ & _ & _ & [? _] & _). lia.
Qed.

Lemma numbers_move m level n d d' k : m !! (level, n) = Some d → k ∈ numbers (<[(level + 1, n) := d']> (delete (level, n) m)) ↔ k ∈ numbers m.
Proof.
  intros Hd. rewrite numbers_insert. unfold numbers. rewrite !elem_of_map. setoid_rewrite elem_of_dom. split.
  - intros [->|([l j] & -> & [x [_ Hx]%lookup_delete_Some])]; [exists (level, n); split; [done|by eexists]|]. exists (l, j). split; [done|by eexists].
  - intros ([l j] & -> & [x Hx]). cbn. destruct (decide ((l, j) = (level, n))) as [[= -> ->]|Hne]; [by left|]. right. exists (l, j). split; [done|]. exists x. by rewrite lookup_delete_ne.
Qed.

Lemma move_edit_good `{EL : EnvLaws E} (vs : VersionSet w_file) es level d e : map_ok (u := u) (files_of es) → 0 ≤ log_num vs → log_num vs < next_file_num vs → next_file_num vs < 2 ^ 64 →
  is_u 64 (prev_log_num vs) → is_u 64 (vs_last_seq vs) → 0 ≤ level < NUM_LEVELS - 1 → files_of es !! (level, num d) = Some (core d) → (level + 1, num d) ∉ keys_used es →
  files_of es !! (level + 1, num d) = None → apart (u := u) (files_of es) (level + 1) (core d) → key_fits e → good_edit (u := u) vs es (move_edit level d e).
Proof.
  intros Hm H0 Hlog Hnx Hp Hq Hl Hd Hk Hn Ha He. destruct (mo_key _ Hm _ _ _ Hd) as (Ho & _ & _ & Hmeta). pose proof Hmeta as (_ & _ & _ & D1 & D2 & D3 & D4).
  change NUM_LEVELS with 7 in *. assert (level_ok (level + 1)) as Ho1 by (unfold level_ok; change NUM_LEVELS with 7; lia). split.
  - done.
  - unfold edit_ok. cbn. rewrite union_empty_r_L, elements_singleton. cbn.
    repeat apply Forall_cons_2; try apply Forall_nil_2; cbn; try (unfold is_u in *; lia); [split; [unfold is_u; lia|done]|split; [unfold is_u; lia|done]|]. split_and!; try done. unfold is_u. lia.
  - split; cbn; [by apply Forall_singleton|rewrite union_empty_r_L; by apply set_Forall_singleton|by apply Forall_singleton].
  - by apply Forall_singleton.
  - apply NoDup_singleton.
  - by apply Forall_singleton.
  - rewrite edit_map_move. destruct (map_ok_delete (files_of es) (level, num d) Hm) as [Hm' Hb]. specialize (Hb _ Hd). apply (map_ok_add (delete (level, num d) (files_of es)) (level + 1) (core d)); try done.
    + cbn. rewrite lookup_delete_ne; [done|]. intros [=]. lia.
    + intros Hpos n' d' [_ H]%lookup_delete_Some. by apply (Ha Hpos n' d').
    + cbn in Hb |- *. pose proof (mo_bytes _ Hm). lia.
Qed.

End edit.

(** ** The choice *)

Section move.
Context `{IEL : IntegerEncodingLaws} `{CRL : Crc32Laws} `{EL : EnvLaws E} `{RG : Rng G} {FW : FixedIntWriter (E * BufWriter w_file)}.
Context (debug_bytes : bytes → string) (order : gset (Z * Z) → list (Z * Z)) (order_ok : ∀ s, order s ≡ₚ elements s) (micros : E → exec (E * Z)).
Context {u : Cmp} {UO : OrderedCmp u} {UE : ExactCmp u} (Hid : utf8_valid (string_bytes (cmp_id u)) = true ∧ key_fits (string_bytes (cmp_id u))).
Context (least : ∀ k, ord u [] k ≠ Gt).
Implicit Types (w : World E ra_file) (vs : VersionSet w_file) (s : World E ra_file * DB G w_file) (es : list VersionEdit).

(** Sizes and compaction pointers are in range. *)
Record measured vs es : Prop := {
  ms_bytes : map_bytes (files_of es) < 2 ^ 63;
  ms_limit : 0 ≤ max_file_size (vs_opt vs) ∧ 25 * max_file_size (vs_opt vs) < 2 ^ 64;
  ms_ptrs : Forall (λ p, p = [] ∨ key_ok (InternalKeyCmp u) p) (vs_compaction_ptrs vs);
}.

(** A version set that can choose a compaction and log it. *)
Record movable w vs es : Prop := {
  mv_inv : vs_inv (u := u) w vs es;
  mv_version : ∃ v, current w vs = Ret v ∧ scored v;
  mv_log : 0 ≤ log_num vs < next_file_num vs;
  mv_next : next_file_num vs < 2 ^ 64;
  mv_prev : is_u 64 (prev_log_num vs);
  mv_seq : is_u 64 (vs_last_seq vs);
  mv_measured : measured vs es;
}.

(** The compaction [c] is the move of a table whose number is new in the next level. *)
Definition moves w es (c : Compaction) : Prop :=
  is_trivial_move (w_metas w) c = Ret true ∧ ∀ k d, files_of es !! (c_level c, k) = Some d → (c_level c + 1, k) ∉ keys_used es.

Lemma movable_choosable w vs es : movable w vs es → ∃ v, choosable (u := u) w vs v ∧ pickable v ∧ represents (u := u) (w_metas w) (w_fresh w) v (files_of es).
Proof.
  intros [I (v' & Ev' & [Hf Hs]) _ _ _ _ [M1 M2 M3]]. destruct (vi_current _ _ _ I) as (l & v & El & Ev & R). pose proof (hi_map _ (vi_history _ _ _ I)) as Hm.
  assert (current w vs = Ret v) as Ec by (unfold current; rewrite El; cbn [unwrap]; by rewrite bind_Ret, Ev).
  rewrite Ec in Ev'. injection Ev' as <-. exists v. split_and!; [|split; [done|by rewrite Hf]|done].
  split; [done|apply I|by eapply represents_ok| |done|apply I]. apply Forall_lookup. intros i fs Hfs. pose proof (rp_files _ _ _ _ R _ _ Hfs) as L.
  destruct (level_bytes (u := u) (w_metas w) _ _ _ Hm L) as [_ Hb]. lia.
Qed.

(** A compaction that is a move has one input. *)
Lemma trivial_inputs (M : Metas) cm l0 l1 : inputs cm = [l0; l1] → is_trivial_move M cm = Ret true → ∃ f, l0 = [f] ∧ l1 = [].
Proof.
  intros Hi H. unfold is_trivial_move in H. destruct (manual cm); [done|]. exec_inv H. unfold num_inputs in Hk. rewrite Hi in Hk.
  change (index [l0; l1] 0) with (Ret l0) in Hk. change (index [l0; l1] 1) with (Ret l1) in Hk. change (massert (0 <? 2)) with (Ret ()) in Hk. change (massert (1 <? 2)) with (Ret ()) in Hk. rewrite !bind_Ret in Hk.
  destruct (Z.eqb_spec (zlen l0) 1) as [H0|]; [|discriminate Hk]. destruct (Z.eqb_spec (zlen l1) 0) as [H1|]; [|discriminate Hk]. destruct l0 as [|f [|]], l1; cbn in H0, H1; try lia. by exists f.
Qed.

(** The file that is moved overlaps none of the next level. *)
Lemma moved_apart (M : Metas) fresh v m level f b e : map_ok (u := u) m → represents (u := u) M fresh v m → 0 ≤ level < NUM_LEVELS - 1 → good_inputs (u := u) M v level [f] [] b e →
  m !! (level, num (M f)) = Some (core (M f)) ∧ apart (u := u) m (level + 1) (core (M f)) ∧ e = largest (M f).
Proof.
  intros Hm R Hl [_ G2 _ [(f1 & ->%list_elem_of_singleton & ->) (f2 & ->%list_elem_of_singleton & ->) _] G5]. change NUM_LEVELS with 7 in Hl.
  destruct (represents_files M fresh v m level Hm R) as (fs & _ & Ef & Lf & _); [unfold level_ok; change NUM_LEVELS with 7; lia|].
  destruct (represents_files M fresh v m (level + 1) Hm R) as (gs & _ & Eg & Lg & _); [unfold level_ok; change NUM_LEVELS with 7; lia|]. split_and!; [|intros _ n' d' Hd'|done].
  - apply (lf_files _ _ _ _ Lf). exists f. split; [|done]. rewrite <- Ef. apply G2. left.
  - destruct (proj1 (lf_files _ _ _ _ Lg _ _) Hd') as (g & Hg & _ & <-). rewrite <- Eg in Hg.
    assert (¬ overlaps (u := u) M (ukey_of (smallest (M f))) (ukey_of (largest (M f))) g) as Hno by (intros Ho; apply (not_elem_of_nil g); rewrite G5; by apply list_elem_of_filter).
    destruct (decide (lt_begin (u := u) (hi M g) (ukey_of (smallest (M f))))) as [[_ H]|H1]; [by left|].
    destruct (decide (gt_end (u := u) (lo M g) (ukey_of (largest (M f))))) as [[_ H]|H2]; [right; by apply ord_Gt_Lt|]. by destruct Hno.
Qed.

(** The move that [pick_compaction] chooses is an edit that can be applied. *)
Lemma picked_move w vs es vs' c : movable w vs es → pick_compaction w vs = Ret (vs', Some c) → moves w es c →
  ∃ f, let d := w_metas w f in let level := c_level c in
    vs' = set_ptrs (<[Z.to_nat level := largest d]> (vs_compaction_ptrs vs)) vs ∧ 0 ≤ level < NUM_LEVELS - 1 ∧ inputs c = [[f]; []]
    ∧ c_edit c = set_compact_pointer level (largest d) VersionEdit_new ∧ key_fits (largest d) ∧ needs_compaction w vs = Ret true
    ∧ files_of es !! (level, num d) = Some (core d) ∧ apart (u := u) (files_of es) (level + 1) (core d) ∧ good_edit (u := u) vs' es (move_edit level d (largest d)).
Proof.
  intros Hmv Hpick [Htriv Hfr]. destruct (movable_choosable w vs es Hmv) as (v & Hch & Hpk & R). pose proof Hmv as [I _ Hlog Hnx Hp Hq Hms]. pose proof (hi_map _ (vi_history _ _ _ I)) as Hm.
  destruct (pick_compaction_ok least w vs v Hch (ms_ptrs _ _ Hms) Hpk) as (vs1 & oc & Ep & En & Hoc). rewrite Hpick in Ep. injection Ep as <- <-. rewrite bool_decide_true in En by (by eexists).
  destruct Hoc as (level & Hl & l0 & l1 & gp & b & e & C1 & C2 & C3 & C4 & -> & HG & _). rewrite C1 in *. destruct (trivial_inputs _ c l0 l1 C2 Htriv) as (f & -> & ->).
  destruct (moved_apart (w_metas w) _ v _ level f b e Hm R Hl HG) as (Hf & Ha & ->). destruct (mo_key _ Hm _ _ _ Hf) as (_ & _ & _ & _ & _ & _ & _ & _ & _ & He).
  exists f. cbv zeta. split_and!; try done; [lia..|]. apply move_edit_good; try done; cbn; try lia; [by apply (Hfr _ (core (w_metas w f)))|].
  apply eq_None_not_Some. intros Hx%files_used; [|apply (vi_history _ _ _ I)]. by apply (Hfr _ _ Hf).
Qed.

(** Only the compaction pointers change. *)
Lemma vs_inv_ptrs w vs es i e : vs_inv (u := u) w vs es → key_fits e → vs_inv (u := u) w (set_ptrs (<[i := e]> (vs_compaction_ptrs vs)) vs) es.
Proof. intros [I1 I2 I3 I4 [I5 I5'] I6 I7] He. split; try done. cbn. split; [by rewrite length_insert|]. by apply Forall_insert. Qed.

(** What [compact_version] does then. *)
Lemma compact_version_move fuel mfuel s f c : let vs' := set_ptrs (<[Z.to_nat (c_level c) := largest (w_metas s.1 f)]> (vs_compaction_ptrs (db_vset s.2))) (db_vset s.2) in
  needs_compaction s.1 (db_vset s.2) = Ret true → pick_compaction s.1 (db_vset s.2) = Ret (vs', Some c) → is_trivial_move (w_metas s.1) c = Ret true → inputs c = [[f]; []] →
  c_edit c = set_compact_pointer (c_level c) (largest (w_metas s.1 f)) VersionEdit_new →
  compact_version debug_bytes order micros fuel mfuel s
    = on_vset (log_and_apply order (move_edit (c_level c) (w_metas s.1 f) (largest (w_metas s.1 f)))) (s.1, set_vset vs' s.2).
Proof.
  intros vs' En Hpick Htriv C2 C4. unfold compact_version. rewrite En, bind_Ret, Hpick, bind_Ret. unfold start_compaction. change (w_metas (s.1, set_vset vs' s.2).1) with (w_metas s.1).
  rewrite Htriv, bind_Ret. unfold num_inputs, c_input. rewrite C2. change (index [[f]; []] 0) with (Ret [f]). change (massert (0 <? 2)) with (Ret ()). rewrite !bind_Ret.
  change (massert (zlen [f] =? 1)) with (Ret ()). change (massert (0 <? zlen [f])) with (Ret ()). by rewrite !bind_Ret, C4.
Qed.

(** ** Theorems *)

(** C16: When the compaction that is chosen is the move of a single table, [compact_version]
    makes it: the version and the manifest have the table one level further down, where it
    overlaps none of the files that were there, and its metadata is the same; the invariant of
    the version set holds, no file but the manifest and its pointer is touched, and nothing but
    the version set of the database changes. *)
Theorem trivial_move_logged fuel mfuel s es vs' cm : movable s.1 (db_vset s.2) es → pick_compaction s.1 (db_vset s.2) = Ret (vs', Some cm) → moves s.1 es cm →
  ∃ s' es' k d, compact_version debug_bytes order micros fuel mfuel s = Ret (s', Ok ())
    ∧ files_of es !! (c_level cm, k) = Some d ∧ apart (u := u) (files_of es) (c_level cm + 1) d
    ∧ files_of es' = <[(c_level cm + 1, k) := d]> (delete (c_level cm, k) (files_of es))
    ∧ vs_inv (u := u) s'.1 (db_vset s'.2) es' ∧ manifest (w_env s'.1) (vs_dbname (db_vset s.2)) (manifest_num (db_vset s.2)) es'
    ∧ (∀ p, p ∉ manifest_paths (db_vset s.2) → contents (w_env s'.1) !! p = contents (w_env s.1) !! p)
    ∧ s'.2 = set_vset (db_vset s'.2) s.2.
Proof.
  intros Hmv Hpick Hmo. destruct (picked_move _ _ _ _ _ Hmv Hpick Hmo) as (f & -> & Hl & C2 & C4 & He & En & Hf & Ha & Hg). rewrite (compact_version_move _ _ _ f cm) by (done || apply Hmo).
  pose proof (vs_inv_ptrs _ _ _ (Z.to_nat (c_level cm)) _ (mv_inv _ _ _ Hmv) He) as I'. unfold on_vset.
  destruct (log_and_apply_ok (u := u) order order_ok Hid _ _ _ _ I' Hg) as (w' & lw & es' & E' & I1 & M1 & F1 & _ & _ & _ & C1 & _).
  change (db_vset (set_vset ?vs _)) with vs. rewrite E', bind_Ret. eexists _, es', _, _. split_and!; [done|exact Hf|exact Ha|by rewrite F1, edit_map_move|exact I1|exact M1|exact C1|done].
Qed.

(** In an open database the move keeps everything else: the log with its batches and the files
    of all tables. *)
Theorem trivial_move_open fuel mfuel s base Bs mn es c n top vs' cm : open_db (u := u) s base Bs mn es c n top false → measured (db_vset s.2) es →
  pick_compaction s.1 (db_vset s.2) = Ret (vs', Some cm) → moves s.1 es cm →
  ∃ s' es' c', maybe_do_compaction debug_bytes order micros fuel mfuel s = Ret (s', Ok ()) ∧ open_db (u := u) s' base Bs mn es' c' n top false
    ∧ numbers (files_of es') = numbers (files_of es) ∧ same_tables (db_path s.2) es (w_env s.1) (w_env s'.1) ∧ db_path s'.2 = db_path s.2 ∧ db_opt s'.2 = db_opt s.2.
Proof.
  intros S Hms Hpick Hmo. pose proof S as [W Hn D Hseq I Hnames Hv (L1 & L2 & L3) (N1 & N2 & N3) Hs Himm Htab Hlk]. pose proof (dk_log _ _ _ _ _ _ _ D) as (B1 & B2 & B3).
  pose proof (wi_seq _ _ _ W) as Ws. pose proof (wi_bound _ _ _ W) as Wb. pose proof (wi_base _ _ _ W) as W0.
  assert (movable s.1 (db_vset s.2) es) as Hmv.
  { destruct Hv as (v & Ev & Sv%scored_as_scored). split; try done; [by exists v|unfold is_u; lia..]. }
  destruct (picked_move _ _ _ _ _ Hmv Hpick Hmo) as (f & -> & Hl & C2 & C4 & He & En & Hf & Ha & Hg). set (level := c_level cm) in *. set (d := w_metas s.1 f) in *.
  assert (∀ k, k ∈ numbers (edit_map (files_of es) (move_edit level d (largest d))) ↔ k ∈ numbers (files_of es)) as Hnums.
  { intros k. rewrite edit_map_move. by eapply numbers_move. }
  set (s1 := (s.1, set_vset (set_ptrs (<[Z.to_nat level := largest d]> (vs_compaction_ptrs (db_vset s.2))) (db_vset s.2)) s.2)).
  assert (open_db (u := u) s1 base Bs mn es c n top false) as S1.
  { split; try done; [destruct W; by split|by apply vs_inv_ptrs]. }
  destruct (apply_open order order_ok Some id Hid s1 base Bs mn es c n top false (move_edit level d (largest d)) S1) as (s2 & es2 & c2 & E2 & S2 & F2 & T2 & _).
  { split; try done; [by left|intros k Hk%Hnums; by left| |intros k Hk; by apply Hnums]. intros k ->%list_elem_of_singleton. cbn.
    assert ((level, num d) ∈ keys_used es) as Hu by (apply files_used; [apply (vi_history _ _ _ I)|by eexists]). apply D in Hu. cbn in Hu. lia. }
  change (manifest_num (db_vset s1.2)) with (manifest_num (db_vset s.2)) in S2. rewrite (Hs eq_refl) in S2. destruct T2 as (P1 & P2 & _ & _ & _ & P6).
  exists s2, es2, c2. split_and!; try done.
  - unfold maybe_do_compaction. rewrite Himm, sbind_Ok, (compact_version_move _ _ _ f cm) by (done || apply Hmo). exact E2.
  - apply set_eq. intros k. by rewrite F2, Hnums.
Qed.

End move.

(** ** Witnesses *)

Module TestMove.
#[export] Existing Instance Reference.ref_encoding.
#[export] Existing Instance Reference.ref_encoding_laws.
#[export] Existing Instance Reference.ref_crc.
#[export] Existing Instance Reference.ref_crc_laws.
#[export] Existing Instance TestRng.alternating.
#[export] Existing Instance TestWal.EN.
#[export] Existing Instance TestWal.EL.
#[export] Existing Instance TestWal.fixed_writer.

(** Level 0 is full: four tables with disjoint ranges. *)
Definition tables : list FileMetaData := [TestManifest.file 3 [97] [98]; TestManifest.file 4 [99] [100]; TestManifest.file 5 [101] [102]; TestManifest.file 6 [103] [104]].
Definition edit : VersionEdit := foldl (λ ve d, add_file 0 d ve) VersionEdit_new tables.

Lemma tables_ok : Forall (meta_ok (u := DefaultCmp)) tables.
Proof. repeat apply Forall_cons_2; try apply Forall_nil_2; (apply TestManifest.file_ok; by_decide || (split_and!; by_decide || done) || done). Qed.

Lemma edit_new : new_files edit = pair 0 <$> tables.
Proof. done. Qed.

Lemma four_good : good_edit (u := DefaultCmp) TestManifest.fresh.2 [] edit.
Proof.
  split; [done|by_decide|split; [constructor|by intros ?|by repeat constructor]| |by_decide|by_decide|].
  - rewrite edit_new. apply Forall_fmap. exact tables_ok.
  - assert (∀ l n d, edit_map (files_of []) edit !! (l, n) = Some d → l = 0 ∧ ∃ d0, d0 ∈ tables ∧ d = core d0 ∧ n = num d0) as Hm.
    { intros l n d. rewrite edit_map_lookup by by_decide. intros [([l' d0] & Hin & [= <- <-] & <-)|[[Hd _] _]]; [|done].
      rewrite edit_new in Hin. apply list_elem_of_fmap in Hin as (d1 & [= -> ->] & Hd1). split; [done|]. by exists d1. }
    split; [|intros l n d n' d' [-> _]%Hm; lia|by_decide].
    intros l n d (-> & d0 & Hd0 & -> & ->)%Hm. split_and!; try done. apply meta_ok_core. pose proof tables_ok as Ht. rewrite Forall_forall in Ht. by apply Ht.
Qed.

(** The version set after the edit, and what it picks. *)
Definition picked : option (Z * list (list FileMetaHandle) * bool) :=
  match log_and_apply elements edit (TestManifest.fresh.1, TestManifest.fresh.2) with
  | Ret ((w, vs), _) =>
      match pick_compaction w vs with
      | Ret (_, Some c) => Some (c_level c, inputs c, match is_trivial_move (w_metas w) c with Ret b => b | _ => false end)
      | _ => None
      end
  | _ => None
  end.
End TestMove.

Section move_witnesses.
Import TestMove.

Lemma trivial_move_logged_witness :
  ∃ (s s' : World MemFS ra_file * DB Z w_file) es es' k d, compact_version (EN := TestWal.EN) TestOpen.no_text elements TestWal.clock 0 0 s = Ret (s', Ok ())
    ∧ files_of es !! (0, k) = Some d ∧ files_of es' = <[(1, k) := d]> (delete (0, k) (files_of es)) ∧ vs_inv (EN := TestWal.EN) (EL := TestWal.EL) (u := DefaultCmp) s'.1 (db_vset s'.2) es'.
Proof.
  destruct TestManifest.fresh_ok as (I0 & _ & _ & Eo & _).
  destruct (log_and_apply_ok (EN := TestWal.EN) (EL := TestWal.EL) (u := DefaultCmp) elements (λ s, reflexivity _) TestManifest.id_ok TestManifest.fresh.1 TestManifest.fresh.2 [] edit I0 four_good)
    as (w & lw & es & E1 & I1 & _ & F1 & _ & U1 & _ & _ & _ & v & Ev & Sv). set (vs := after_edit _ _ _ _) in *.
  assert (picked = Some (0, [[0%nat]; []], true)) as Hp by (vm_compute; reflexivity).
  unfold picked in Hp.  match type of E1 with ?t = _ => match type of Hp with match ?t' with _ => _ end = _ => change t' with t in Hp end end. rewrite E1 in Hp.
  match type of Hp with match ?t with _ => _ end = _ => destruct t as [[vs' [c|]]| |] eqn:Epick end; try discriminate Hp. injection Hp as Hc Hin Ht.
  match type of Ht with match ?t with _ => _ end = _ => destruct t as [[]| |] eqn:Hm end; try discriminate Ht.
  destruct (trivial_move_logged (IEL := Reference.ref_encoding_laws) (CRL := Reference.ref_crc_laws) TestOpen.no_text elements (λ s, reflexivity _) TestWal.clock TestManifest.id_ok
    (u := DefaultCmp) (λ k, ltac:(by destruct k)) 0 0 (w, set_vset vs TestWal.db) es vs' c) as (s' & es' & k & d & R1 & R2 & _ & R3 & R4 & _).
  - split; [exact I1| |by_decide|by_decide|by_decide|by_decide|].
    + exists v. split; [|exact (scored_as_scored _ _ Sv)]. unfold current. change (vs_current (db_vset (w, set_vset vs TestWal.db).2)) with (Some (length (w_versions TestManifest.fresh.1))). cbn [unwrap fst]. rewrite bind_Ret. exact (f_equal unwrap Ev).
    + split; [rewrite F1; by_decide|by_decide|]. repeat apply Forall_cons_2; try apply Forall_nil_2; by left.
  - exact Epick.
  - split; [exact Hm|]. intros k d _ Hu%U1. rewrite Hc, edit_new in Hu.
    apply elem_of_union in Hu as [Hu|Hu%elem_of_list_to_set]; [by apply elem_of_empty in Hu|]. rewrite <- list_fmap_compose in Hu. by apply list_elem_of_fmap in Hu as (d' & [=] & _).
  - rewrite Hc in R2, R3. exists (w, set_vset vs TestWal.db), s', es, es', k, d. split; [exact R1|]. split; [exact R2|]. split; [exact R3|exact R4].
Defined.

End move_witnesses.
