(* ===== verification/AsyncDb.v ===== *)
(** * AsyncDb: [src/asyncdb.rs]

    A database behind a channel: clients send requests, a server thread carries them out one
    after the other and answers each on a channel of its own.  The channels are tokio's; the
    messages in the order in which the server receives them are an argument of the model, and
    so is what sending and awaiting return to a client. *)

From S2P Require Import Prelude Encoding Error Io Env BufWriter MemEnv Types Cmp KeyTypes Log Iterator SkipMap MemTable WriteBatch Filter FilterBlock Options BlockBuilder Block Cache TableBuilder Table TableCache Version VersionEdit Snapshot MergingIter VersionSet Builder Manifest Recover DbImpl Wal Open.

Abbreviation SnapshotRef := Z (only parsing).

Inductive Request :=
  | Close
  | Put (key val : bytes)
  | Delete (key : bytes)
  | Write_ (batch : WriteBatch) (sync : bool)
  | Flush
  | GetAt (snapshot : SnapshotRef) (key : bytes)
  | Get (key : bytes)
  | GetSnapshot
  | DropSnapshot (snapshot : SnapshotRef)
  | CompactRange (from to : bytes).

Inductive Response :=
  | OK
  | Error_ (s : Status)
  | Value (v : option bytes)
  | Snapshot_ (sr : SnapshotRef).

(** The reply channel is a name for the oneshot channel. *)
Record Message := mkMessage { req : Request; resp_channel : Z }.

(** ** The client side *)

Definition async_error {A} (msg : string) : Result A := Err {| code := AsyncError; err_msg := msg |}.
Definition wrong_response {A} : Result A := async_error "Wrong response type in AsyncDB.".

(** [sent] and [resp] are what [send] and the await of the reply return. *)
Definition process_request (sent : result string unit) (resp : result string Response) : Result Response :=
  match sent with
  | Err e => async_error e
  | Ok _ => match resp with Err e => async_error e | Ok r => Ok r end
  end.

(** What most methods make of the response. *)
Definition unit_answer (r : Result Response) : Result unit :=
  match r with Err s => Err s | Ok OK => Ok () | Ok (Error_ s) => Err s | Ok _ => wrong_response end.
Definition value_answer (r : Result Response) : Result (option bytes) :=
  match r with Err s => Err s | Ok (Value v) => Ok v | Ok (Error_ s) => Err s | Ok _ => wrong_response end.

(** The methods, with [call] for what [process_request] returns for a request. *)
Section methods.
Context (call : Request → Result Response).

Definition async_close : Result unit := unit_answer (call Close).
Definition async_put (key val : bytes) : Result unit := unit_answer (call (Put key val)).
Definition async_delete (key : bytes) : Result unit := unit_answer (call (Delete key)).
Definition async_write (batch : WriteBatch) (sync : bool) : Result unit := unit_answer (call (Write_ batch sync)).
Definition async_flush : Result unit := unit_answer (call Flush).
Definition async_get (key : bytes) : Result (option bytes) := value_answer (call (Get key)).
Definition async_get_at (snapshot : SnapshotRef) (key : bytes) : Result (option bytes) := value_answer (call (GetAt snapshot key)).
Definition async_get_snapshot : Result SnapshotRef :=
  match call GetSnapshot with Err s => Err s | Ok (Snapshot_ sr) => Ok sr | Ok _ => wrong_response end.
Definition async_drop_snapshot (snapshot : SnapshotRef) : Result unit :=
  match call (DropSnapshot snapshot) with Err s => Err s | Ok OK => Ok () | Ok _ => wrong_response end.
Definition async_compact_range (from to : bytes) : Result unit := unit_answer (call (CompactRange from to)).

End methods.

(** ** The server *)

Section server.
Context {IE : IntegerEncoding} {CR : Crc32} `{EN : Env E} `{RG : Rng G} {FW : FixedIntWriter (E * BufWriter w_file)}.
Context (debug_bytes : bytes → string) (order : gset (Z * Z) → list (Z * Z)) (micros : E → exec (E * Z)).
(** The order in which a hash map drops its values. *)
Context (drop_order : gmap Z InnerSnapshot → list InnerSnapshot).
Abbreviation state := (World E ra_file * DB G w_file)%type (only parsing).

Record Server := mkServer { sv_db : state; sv_snapshots : gmap Z InnerSnapshot; sv_counter : Z }.

Definition send_response (result : Result unit) : Response := match result with Err e => Error_ e | Ok _ => OK end.

(** A snapshot goes out of scope. *)
Definition db_drop_snapshot (ss : InnerSnapshot) (s : state) : exec state :=
  sl ← snapshot_drop ss (db_snaps s.2); Ret (s.1, set_snaps sl s.2).

(** One request other than [Close]; [rounds], [fuel] and [mfuel] are for compactions. *)
Definition handle (rounds fuel mfuel : nat) (r : Request) (sv : Server) : exec (Server * Response) :=
  let s := sv_db sv in
  let with_db s := mkServer s (sv_snapshots sv) (sv_counter sv) in
  match r with
  | Close => Ret (sv, OK)
  | Put key val => '(s, ok) ← db_put debug_bytes order micros fuel mfuel key val s; Ret (with_db s, send_response ok)
  | Delete key => '(s, ok) ← db_delete debug_bytes order micros fuel mfuel key s; Ret (with_db s, send_response ok)
  | Write_ batch sync => '(s, ok) ← db_write debug_bytes order micros fuel mfuel batch sync s; Ret (with_db s, send_response ok)
  | Flush => '(s, ok) ← db_flush s; Ret (with_db s, send_response ok)
  | GetAt id key =>
      match sv_snapshots sv !! id with
      | Some ss =>
          '(s, ok) ← get_at debug_bytes order micros fuel mfuel ss key s;
          Ret (with_db s, match ok with Err e => Error_ e | Ok v => Value v end)
      | None => Ret (sv, Error_ {| code := AsyncError; err_msg := "Unknown snapshot reference: this is a bug" |})
      end
  | Get key => '(s, v) ← db_get debug_bytes order micros fuel mfuel key s; Ret (with_db s, Value v)
  | GetSnapshot =>
      '(s, ss) ← get_snapshot s;
      s ← match sv_snapshots sv !! sv_counter sv with Some old => db_drop_snapshot old s | None => Ret s end;
      n ← uadd 64 (sv_counter sv) 1;
      Ret (mkServer s (<[sv_counter sv := ss]> (sv_snapshots sv)) n, Snapshot_ (sv_counter sv))
  | DropSnapshot id =>
      s ← match sv_snapshots sv !! id with Some ss => db_drop_snapshot ss s | None => Ret s end;
      Ret (mkServer s (delete id (sv_snapshots sv)) (sv_counter sv), send_response (Ok ()))
  | CompactRange from to => '(s, ok) ← db_compact_range debug_bytes order micros rounds fuel mfuel from to s; Ret (with_db s, send_response ok)
  end.

(** The loop of [run_server] over the messages it receives, with the answers it sends; it ends
    with [Close] or when there are no more senders. *)
Fixpoint serve (rounds fuel mfuel : nat) (inbox : list Message) (sv : Server) : exec (Server * list (Z * Response)) :=
  match inbox with
  | [] => Ret (sv, [])
  | m :: inbox =>
      match req m with
      | Close => Ret (sv, [(resp_channel m, OK)])
      | r =>
          '(sv, a) ← handle rounds fuel mfuel r sv;
          '(sv, answers) ← serve rounds fuel mfuel inbox sv;
          Ret (sv, (resp_channel m, a) :: answers)
      end
  end.

(** The snapshots and the database are dropped at the end. *)
Definition run_server (rounds fuel mfuel : nat) (inbox : list Message) (s : state) : exec (World E ra_file * list (Z * Response)) :=
  '(sv, answers) ← serve rounds fuel mfuel inbox (mkServer s ∅ 0);
  s ← mfoldl (λ s ss, db_drop_snapshot ss s) (sv_db sv) (drop_order (sv_snapshots sv));
  w ← db_drop s;
  Ret (w, answers).

(** [AsyncDB::new]: the server starts with the database. *)
Definition AsyncDB_new (canonicalize : string → option string) (debug_path : string → string) (fuel rfuel mfuel : nat) (name : string) (opt : Options) (has_log : bool)
    (blocks : Cache Block) (e : E) : exec (World E ra_file * Result Server) :=
  '(w, r) ← DB_open debug_bytes order micros canonicalize debug_path fuel rfuel mfuel name opt has_log blocks e;
  Ret (w, match r with Ok db => Ok (mkServer (w, db) ∅ 0) | Err x => Err x end).

End server.

(** ** What the service promises

    The history of the batches, the part of it that each snapshot sees, and the next snapshot
    reference. *)

Record service := mkService { hist : list (list op); snaps : gmap Z nat; next_ref : Z }.

(** The requests that the service answers from the history. *)
Inductive call :=
  | CPut (k v : bytes)
  | CDelete (k : bytes)
  | CWrite (os : list op) (sync : bool)
  | CFlush
  | CGetAt (id : Z) (k : bytes)
  | CGet (k : bytes)
  | CGetSnapshot
  | CDropSnapshot (id : Z).

(** The batches that a call adds. *)
Definition added (c : call) : list (list op) :=
  match c with CPut k v => [[(k, Some v)]] | CDelete k => [[(k, None)]] | CWrite os _ => [os] | _ => [] end.

Definition add_batches (Bs : list (list op)) (a : service) : service := mkService (hist a ++ Bs) (snaps a) (next_ref a).

Definition answer (c : call) (a : service) : service * Response :=
  match c with
  | CPut _ _ | CDelete _ | CWrite _ _ | CFlush => (add_batches (added c) a, OK)
  | CGetAt id k =>
      (a, match snaps a !! id with
          | Some n => Value (default None (last_op k (concat (take n (hist a)))))
          | None => Error_ {| code := AsyncError; err_msg := "Unknown snapshot reference: this is a bug" |}
          end)
  | CGet k => (a, Value (default None (last_op k (concat (hist a)))))
  | CGetSnapshot => (mkService (hist a) (<[next_ref a := length (hist a)]> (snaps a)) (next_ref a + 1), Snapshot_ (next_ref a))
  | CDropSnapshot id => (mkService (hist a) (delete id (snaps a)) (next_ref a), OK)
  end.

Fixpoint answers (cs : list call) (a : service) : service * list Response :=
  match cs with
  | [] => (a, [])
  | c :: cs => let (a, r) := answer c a in let (a, rs) := answers cs a in (a, r :: rs)
  end.

(** The request that carries a call. *)
Definition carries `{IntegerEncoding} (r : Request) (c : call) : Prop :=
  match c, r with
  | CPut k v, Put k' v' => k' = k ∧ v' = v
  | CDelete k, Delete k' => k' = k
  | CWrite os sync, Write_ b sync' => batch_of os = Ret b ∧ sync' = sync
  | CFlush, Flush => True
  | CGetAt id k, GetAt id' k' => id' = id ∧ k' = k
  | CGet k, Get k' => k' = k
  | CGetSnapshot, GetSnapshot => True
  | CDropSnapshot id, DropSnapshot id' => id' = id
  | _, _ => False
  end.

Lemma answer_hist c a : hist (answer c a).1 = hist a ++ added c.
Proof. destruct c; cbn; by rewrite ?app_nil_r. Qed.

Lemma answers_hist cs a : hist (answers cs a).1 = hist a ++ mjoin (added <$> cs).
Proof.
  revert a. induction cs as [|c cs IH]; intros a; cbn; [by rewrite app_nil_r|]. pose proof (answer_hist c a) as Hc. destruct (answer c a) as [a1 r].
  specialize (IH a1). destruct (answers cs a1) as [a2 rs]. cbn in *. by rewrite IH, Hc, app_assoc.
Qed.

Section refinement.
Context `{IEL : IntegerEncodingLaws} `{CRL : Crc32Laws} `{EL : EnvLaws E} `{RG : Rng G} {FW : FixedIntWriter (E * BufWriter w_file)}.
Context (debug_bytes : bytes → string) (order : gset (Z * Z) → list (Z * Z)) (micros : E → exec (E * Z)).
Context (drop_order : gmap Z InnerSnapshot → list InnerSnapshot) (drop_order_ok : ∀ m, drop_order m ≡ₚ (map_to_list m).*2).
Context {u : Cmp} {UO : OrderedCmp u} {UE : ExactCmp u}.
Implicit Types (s : World E ra_file * DB G w_file) (sv : Server (E := E) (G := G)) (a : service).

Definition batch_ok (os : list op) : Prop := Forall (op_ok (u := u)) os ∧ zlen os < 2 ^ 32 ∧ 12 + zlen (ops_bytes os) < 2 ^ 64.

Definition call_ok (c : call) : Prop :=
  Forall batch_ok (added c) ∧ match c with CGetAt _ k | CGet k => key_ok u k ∧ zlen k + 8 < 2 ^ 63 | _ => True end.

(** All batches stay in the memtable. *)
Definition roomy (opt : Options) (base : Z) (Bs : list (list op)) : Prop :=
  ∃ mt : MemTable G, memtable_adds (mentries (base + 1) (concat Bs)) (MemTable_new u) = Ret mt ∧ approx_mem_usage mt < write_buffer_size opt.

Lemma roomy_app opt base Bs Bs' : roomy opt base (Bs ++ Bs') → roomy opt base Bs.
Proof.
  intros (mt & H & Ha). rewrite concat_app, mentries_app, memtable_adds_app in H. exec_inv H. apply memtable_adds_grows in Hk as [Hg _]. exists r. split; [done|lia].
Qed.

(** The server [sv] implements the service [a]. *)
Record serves sv (base top : Z) a : Prop := {
  se_open : is_open (u := u) (sv_db sv) base (hist a) top;
  se_list : sl_inv (db_snaps (sv_db sv).2) (map_to_list (sv_snapshots sv)).*2;
  se_ids : sl_newest (db_snaps (sv_db sv).2) = sv_counter sv;
  se_counter : sv_counter sv = next_ref a;
  se_used id : is_Some (sv_snapshots sv !! id) → id < sv_counter sv;
  se_snaps id : match sv_snapshots sv !! id, snaps a !! id with
                | Some ss, Some n => (n ≤ length (hist a))%nat ∧ sn_seq ss = base + zlen (concat (take n (hist a)))
                | None, None => True
                | _, _ => False
                end;
}.

(** Only the snapshot list of the database changes. *)
Lemma is_open_snaps s sl base Bs top : is_open (u := u) s base Bs top → is_open (u := u) (s.1, set_snaps sl s.2) base Bs top.
Proof.
  intros (mn & es & c & n & [W H2 H3 H4 H5 H6 H7 H8 H9 H10 H11 H12 H13] & Hm). exists mn, es, c, n. split; [|done]. split; try done. by destruct W; split.
Qed.

Lemma open_room s base Bs top opt : is_open (u := u) s base Bs top → db_opt s.2 = opt → roomy opt base Bs → room s.
Proof.
  intros (mn & es & c & n & S & _) Ho (mt & Hmt & Ha). left. pose proof (wi_mem _ _ _ (od_wal _ _ _ _ _ _ _ _ _ S)) as Hm. rewrite Hm in Hmt. injection Hmt as <-. by rewrite Ho.
Qed.

(** The database after a write, as far as the server sees it. *)
Lemma server_write fuel mfuel s base Bs top b os sync : is_open (u := u) s base Bs top → roomy (db_opt s.2) base (Bs ++ [os]) → batch_of os = Ret b → batch_ok os →
  base + zlen (concat (Bs ++ [os])) < 2 ^ 56 →
  ∃ s1, db_write debug_bytes order micros fuel mfuel b sync s = Ret (s1, Ok ()) ∧ is_open (u := u) s1 base (Bs ++ [os]) top
    ∧ db_snaps s1.2 = db_snaps s.2 ∧ db_opt s1.2 = db_opt s.2 ∧ db_path s1.2 = db_path s.2.
Proof.
  intros Hop Hr Eb (B1 & B2 & B3) Hb. pose proof (open_room _ _ _ _ _ Hop eq_refl (roomy_app _ _ _ _ Hr)) as Hroom. destruct Hop as (mn & es & c & n & S & Hm).
  rewrite concat_app, length_app in Hb. cbn [concat] in Hb. rewrite app_nil_r in Hb.
  destruct (open_write debug_bytes order micros (u := u) fuel mfuel s base Bs mn es c n top b os sync S Hroom Eb B2 B3 B1 ltac:(lia)) as (e1 & mt & lw & E1 & S1 & _).
  eexists. split_and!; [exact E1|by exists mn, es, c, n|done..].
Qed.

Lemma put_batch k v : batch_of [(k, v)] = match v with Some v => batch_put k v WriteBatch_new | None => batch_delete k WriteBatch_new end.
Proof. unfold batch_of. cbn [mfoldl]. unfold batch_apply. cbn [fst snd]. by destruct (match v with Some v => _ | None => _ end). Qed.

Lemma put_batch_ok k v : batch_ok [(k, v)] → ∃ b, batch_of [(k, v)] = Ret b.
Proof. intros (_ & B2 & _). destruct (batch_of_rep [(k, v)] _ _ _ batch_new_rep B2) as (b & E1 & _). by exists b. Qed.

(** The service after batches are added. *)
Lemma serves_add sv s base top a os : serves sv base top a → is_open (u := u) s base (hist a ++ [os]) top → db_snaps s.2 = db_snaps (sv_db sv).2 →
  serves (mkServer s (sv_snapshots sv) (sv_counter sv)) base top (add_batches [os] a).
Proof.
  intros [S1 S2 S3 S4 S5 S6] Hop Hs. split; cbn; rewrite ?Hs; try done. intros id. specialize (S6 id). destruct (sv_snapshots sv !! id) as [ss|], (snaps a !! id) as [n|]; try done.
  destruct S6 as [Hn Hq]. rewrite length_app. split; [lia|]. by rewrite take_app_le.
Qed.

(** What a request leaves as it was. *)
Definition same_options s s' : Prop := db_opt s'.2 = db_opt s.2 ∧ db_path s'.2 = db_path s.2.

Lemma handle_write rounds fuel mfuel sv base top a r c os : serves sv base top a → carries r c → added c = [os] → batch_ok os → roomy (db_opt (sv_db sv).2) base (hist a ++ [os]) →
  base + zlen (concat (hist a ++ [os])) < 2 ^ 56 →
  ∃ sv', handle debug_bytes order micros rounds fuel mfuel r sv = Ret (sv', OK) ∧ serves sv' base top (add_batches [os] a) ∧ same_options (sv_db sv) (sv_db sv').
Proof.
  intros S Hr Hc Hok Hroom Hb. pose proof (se_open _ _ _ _ S) as Hop.
  assert (∃ b sync, batch_of os = Ret b ∧ handle debug_bytes order micros rounds fuel mfuel r sv
    = ('(s, ok) ← db_write debug_bytes order micros fuel mfuel b sync (sv_db sv); Ret (mkServer s (sv_snapshots sv) (sv_counter sv), send_response ok))) as (b & sync & Eb & ->).
  { destruct c, r; try done; cbn in Hr, Hc; simplify_eq.
    - destruct Hr as [-> ->]. destruct (put_batch_ok k (Some v) Hok) as [b Eb]. exists b, false. split; [done|]. rewrite put_batch in Eb. cbn. unfold db_put. by rewrite Eb.
    - destruct (put_batch_ok k None Hok) as [b Eb]. exists b, false. split; [done|]. rewrite put_batch in Eb. cbn. unfold db_delete. by rewrite Eb.
    - destruct Hr as [Hr ->]. by eexists _, _. }
  destruct (server_write fuel mfuel (sv_db sv) base (hist a) top b os sync Hop Hroom Eb Hok Hb) as (s1 & -> & Hop1 & H1 & H2 & H3).
  rewrite bind_Ret. eexists. split_and!; [done|by apply serves_add|done].
Qed.

(** A snapshot reads the history as it was. *)
Lemma read_prefix fuel mfuel s base Bs top k n : is_open (u := u) s base Bs top → (n ≤ length Bs)%nat → key_ok u k → zlen k + 8 < 2 ^ 63 →
  get_internal debug_bytes order micros fuel mfuel (base + zlen (concat (take n Bs))) k s = Ret (s, Ok (default None (last_op k (concat (take n Bs))))).
Proof.
  intros (mn & es & c & m & S & Hm) Hn Hk Hl. assert (concat Bs = concat (take n Bs) ++ concat (drop n Bs)) as Ec by (by rewrite <- concat_app, take_drop).
  rewrite (get_internal_ok debug_bytes order micros (u := u) fuel mfuel s base Bs k (length (concat (take n Bs)))).
  - by rewrite Ec, take_app_length.
  - apply S.
  - apply S.
  - rewrite Ec, length_app. lia.
  - done.
  - done.
  - right. by eapply open_no_files.
Qed.

Lemma sl_inv_perm sl live live' : live ≡ₚ live' → sl_inv sl live → sl_inv sl live'.
Proof.
  intros Hp [H1 H2 H3 H4]. split; [intros ss; by rewrite <- Hp|intros id; by rewrite <- (refs_to_perm id live live' Hp)|intros ss Hin; apply H3; by rewrite Hp|done].
Qed.

Lemma drop_exists sl live ss live' : sl_inv sl live → live ≡ₚ ss :: live' → ∃ sl', snapshot_drop ss sl = Ret sl' ∧ sl_inv sl' live' ∧ sl_newest sl' = sl_newest sl.
Proof.
  intros I Hp. assert (sl_refs sl !! sn_id ss = Some (S (refs_to (sn_id ss) live'))) as Hr.
  { rewrite (sl_counts _ _ I), (refs_to_perm _ _ _ Hp), refs_to_cons. by rewrite decide_True. }
  assert (∃ sl', snapshot_drop ss sl = Ret sl' ∧ sl_newest sl' = sl_newest sl) as (sl' & E' & Hn).
  { unfold snapshot_drop. rewrite Hr. cbn [unwrap]. rewrite bind_Ret. destruct (refs_to _ live'); by eexists. }
  exists sl'. split_and!; [done|by eapply drop_inv|done].
Qed.

Lemma handle_snapshot rounds fuel mfuel sv base top a : serves sv base top a → next_ref a < 2 ^ 64 - 1 →
  ∃ sv', handle debug_bytes order micros rounds fuel mfuel GetSnapshot sv = Ret (sv', (answer CGetSnapshot a).2) ∧ serves sv' base top (answer CGetSnapshot a).1
    ∧ same_options (sv_db sv) (sv_db sv').
Proof.
  intros [S1 S2 S3 S4 S5 S6] Hn. assert (sv_snapshots sv !! sv_counter sv = None) as Hnew.
  { apply eq_None_not_Some. intros H%S5. lia. }
  assert (snaps a !! sv_counter sv = None) as Hnew'. { specialize (S6 (sv_counter sv)). rewrite Hnew in S6. by destruct (snaps a !! _). }
  cbn [handle answer fst snd]. unfold get_snapshot. destruct (new_snapshot (vs_last_seq (db_vset (sv_db sv).2)) (db_snaps (sv_db sv).2)) as [[sl ss]| |] eqn:En;
    [|unfold new_snapshot in En; rewrite uadd_Ret in En by lia; done..].
  pose proof (new_inv _ _ _ _ _ S2 En) as S2'. assert (sl_newest sl = sv_counter sv + 1 ∧ sn_seq ss = base + zlen (concat (hist a))) as [Hnw Hsq].
  { destruct S1 as (mn & es & c & n & S & _). pose proof (wi_seq _ _ _ (od_wal _ _ _ _ _ _ _ _ _ S)) as Hs. unfold new_snapshot in En. rewrite uadd_Ret, bind_Ret in En by lia. injection En as <- <-. cbn. by rewrite S3, Hs. }
  rewrite bind_Ret, bind_Ret, Hnew, bind_Ret, uadd_Ret, bind_Ret, S4 by lia. eexists. split_and!; [done| |done].
  split; cbn; rewrite ?S4 in *; try done.
  - by apply is_open_snaps.
  - eapply sl_inv_perm; [|exact S2']. rewrite map_to_list_insert by done. done.
  - intros id. rewrite lookup_insert_is_Some. intros [<-|[_ H%S5]]; lia.
  - intros id. destruct (decide (id = next_ref a)) as [->|Hne]; [|rewrite !lookup_insert_ne by done; apply S6]. rewrite !lookup_insert_eq, take_ge by done. done.
Qed.

Lemma handle_drop rounds fuel mfuel sv base top a id : serves sv base top a →
  ∃ sv', handle debug_bytes order micros rounds fuel mfuel (DropSnapshot id) sv = Ret (sv', OK) ∧ serves sv' base top (answer (CDropSnapshot id) a).1
    ∧ same_options (sv_db sv) (sv_db sv').
Proof.
  intros [S1 S2 S3 S4 S5 S6]. cbn [handle answer fst snd].
  assert (∃ sl, match sv_snapshots sv !! id with Some ss => db_drop_snapshot ss (sv_db sv) | None => Ret (sv_db sv) end = Ret ((sv_db sv).1, set_snaps sl (sv_db sv).2)
    ∧ sl_inv sl (map_to_list (delete id (sv_snapshots sv))).*2 ∧ sl_newest sl = sl_newest (db_snaps (sv_db sv).2)) as (sl & -> & I & Hn).
  { destruct (sv_snapshots sv !! id) as [ss|] eqn:Es.
    - destruct (drop_exists (db_snaps (sv_db sv).2) _ ss (map_to_list (delete id (sv_snapshots sv))).*2 S2) as (sl & E1 & I & Hn).
      { rewrite <- (map_to_list_delete (sv_snapshots sv) id ss Es). done. }
      exists sl. unfold db_drop_snapshot. by rewrite E1.
    - exists (db_snaps (sv_db sv).2). rewrite delete_id by done. split_and!; [by destruct (sv_db sv) as [? []]|done|done]. }
  rewrite bind_Ret. eexists. split_and!; [done| |done]. split; cbn; try done.
  - by apply is_open_snaps.
  - by rewrite Hn.
  - intros id'. rewrite lookup_delete_is_Some. intros [_ H]. by apply S5.
  - intros id'. destruct (decide (id' = id)) as [->|Hne]; [by rewrite !lookup_delete_eq|]. rewrite !lookup_delete_ne by done. apply S6.
Qed.

Lemma handle_ok rounds fuel mfuel sv base top a r c : serves sv base top a → carries r c → call_ok c → roomy (db_opt (sv_db sv).2) base (hist a ++ added c) →
  base + zlen (concat (hist a ++ added c)) < 2 ^ 56 → next_ref a < 2 ^ 64 - 1 →
  ∃ sv', handle debug_bytes order micros rounds fuel mfuel r sv = Ret (sv', (answer c a).2) ∧ serves sv' base top (answer c a).1 ∧ same_options (sv_db sv) (sv_db sv').
Proof.
  intros S Hr [Hb Hk] Hroom Hbd Hn. assert (sv = mkServer (sv_db sv) (sv_snapshots sv) (sv_counter sv)) as Esv by (by destruct sv).
  destruct c; try (apply Forall_cons in Hb as [Hb _]; by eapply handle_write); destruct r; try done; cbn in Hr.
  - destruct (se_open _ _ _ _ S) as (mn & es & cn & n & So & Hm). destruct (open_flush (u := u) _ _ _ _ _ _ _ _ So) as (e1 & lw1 & E1 & S1 & _).
    eexists. split_and!; [cbn [handle]; rewrite E1, bind_Ret; done| |done]. destruct S as [S1' S2 S3 S4 S5 S6]. split; cbn; rewrite ?app_nil_r; try done. by exists mn, es, cn, n.
  - destruct Hr as [-> ->]. destruct Hk as [Hk Hl]. exists sv. cbn [handle answer fst snd]. pose proof (se_snaps _ _ _ _ S id) as Hs.
    destruct (sv_snapshots sv !! id) as [ss|], (snaps a !! id) as [n|]; try done. destruct Hs as [Hle Hq]. unfold get_at, sequence. rewrite Hq.
    rewrite (read_prefix fuel mfuel _ _ _ _ _ n (se_open _ _ _ _ S)), bind_Ret by done. split_and!; [by rewrite <- Esv|done|done].
  - subst. destruct Hk as [Hk Hl]. exists sv. cbn [handle answer fst snd]. rewrite (open_reads debug_bytes order micros _ base (hist a) top), bind_Ret by (done || apply S).
    split_and!; [by rewrite <- Esv|done|done].
  - by apply handle_snapshot.
  - subst. by apply handle_drop.
Qed.

Lemma answers_cons c cs a : answers (c :: cs) a = ((answers cs (answer c a).1).1, (answer c a).2 :: (answers cs (answer c a).1).2).
Proof. cbn. destruct (answer c a) as [a1 r]. cbn. by destruct (answers cs a1). Qed.

Lemma answer_next c a : next_ref (answer c a).1 ≤ next_ref a + 1.
Proof. destruct c; cbn; lia. Qed.

Lemma serve_cons rounds fuel mfuel m inbox sv : req m ≠ Close → serve debug_bytes order micros rounds fuel mfuel (m :: inbox) sv
  = ('(sv, x) ← handle debug_bytes order micros rounds fuel mfuel (req m) sv; '(sv, out) ← serve debug_bytes order micros rounds fuel mfuel inbox sv;
     Ret (sv, (resp_channel m, x) :: out)).
Proof. intros H. cbn [serve]. by destruct (req m). Qed.

Lemma serve_ok rounds fuel mfuel ms cs : Forall2 (λ m c, carries (req m) c) ms cs → ∀ sv base top a, serves sv base top a → Forall call_ok cs →
  let a' := (answers cs a).1 in roomy (db_opt (sv_db sv).2) base (hist a') → base + zlen (concat (hist a')) < 2 ^ 56 → next_ref a + zlen cs < 2 ^ 64 →
  ∃ sv', serves sv' base top a' ∧ same_options (sv_db sv) (sv_db sv')
    ∧ ∀ rest, serve debug_bytes order micros rounds fuel mfuel (ms ++ rest) sv
        = ('(sv'', out) ← serve debug_bytes order micros rounds fuel mfuel rest sv'; Ret (sv'', zip (resp_channel <$> ms) (answers cs a).2 ++ out)).
Proof.
  induction 1 as [|m c ms cs Hm Hms IH]; intros sv base top a S Hok a' Hroom Hb Hn.
  { exists sv. split_and!; [done|done|]. intros rest. cbn. by destruct (serve _ _ _ _ _ _ rest sv) as [[] | |]. }
  apply Forall_cons in Hok as [Hc Hok]. unfold a' in *. clear a'. rewrite answers_cons in *. cbn [fst snd] in *. set (a1 := (answer c a).1) in *.
  pose proof (answer_hist c a) as H1. fold a1 in H1. pose proof (answers_hist cs a1) as H2. pose proof (answer_next c a) as H3. fold a1 in H3. cbn [length] in Hn.
  destruct (handle_ok rounds fuel mfuel sv base top a (req m) c S Hm Hc) as (sv1 & E1 & S1 & [O1 P1]); [rewrite <- H1; rewrite H2 in Hroom; by eapply roomy_app| |lia|].
  { rewrite <- H1. rewrite H2, concat_app, length_app in Hb. lia. }
  destruct (IH sv1 base top a1 S1 Hok) as (sv2 & S2 & [O2 P2] & E2); [by rewrite O1|done|lia|].
  exists sv2. split_and!; [done|split; [by rewrite O2|by rewrite P2]|]. intros rest. cbn [app].
  rewrite serve_cons by (intros Hc'; rewrite Hc' in Hm; by destruct c). rewrite E1, bind_Ret, E2. cbn [zip fmap list_fmap zip_with]. destruct (serve _ _ _ _ _ _ rest sv2) as [[]| |]; done.
Qed.

Lemma drops_ok live : ∀ s, sl_inv (db_snaps s.2) live → ∃ sl, mfoldl (λ s ss, db_drop_snapshot ss s) s live = Ret (s.1, set_snaps sl s.2).
Proof.
  induction live as [|ss live IH]; intros s I; cbn [mfoldl]; [exists (db_snaps s.2); by destruct s as [? []]|].
  destruct (drop_exists _ _ ss live I) as (sl & E1 & I1 & _); [done|]. assert (db_drop_snapshot ss s = Ret (s.1, set_snaps sl s.2)) as -> by (unfold db_drop_snapshot; by rewrite E1). rewrite bind_Ret.
  destruct (IH (s.1, set_snaps sl s.2)) as (sl' & E2); [done|]. exists sl'. by rewrite E2.
Qed.

(** C12: The service is its history: on an open database, the server answers the requests it
    receives, in their order and each on its own channel, as the history of the batches says
    (writes add to it, [get] reads all of it, [get_at] what there was when the snapshot was
    taken), as long as the batches stay in the memtable.  [Close] is acknowledged and ends it,
    later messages get no answer; the database it leaves behind is not locked and holds all
    batches, so that it can be opened again. *)
Theorem server_refines_history rounds fuel mfuel s base Bs top ms cs chan rest : is_open (u := u) s base Bs top → db_snaps s.2 = SnapshotList_new →
  Forall2 (λ m c, carries (req m) c) ms cs → Forall call_ok cs →
  let a := (answers cs (mkService Bs ∅ 0)).1 in roomy (db_opt s.2) base (hist a) → base + zlen (concat (hist a)) < 2 ^ 56 → zlen cs < 2 ^ 64 →
  ∃ w, run_server debug_bytes order micros drop_order rounds fuel mfuel (ms ++ mkMessage Close chan :: rest) s
      = Ret (w, zip (resp_channel <$> ms) (answers cs (mkService Bs ∅ 0)).2 ++ [(chan, OK)])
    ∧ env_ok (w_env w) ∧ ¬ locked (w_env w) (lock_file_name (db_path s.2)) ∧ openable (u := u) (w_env w) (db_path s.2) (db_opt s.2) base (hist a) top.
Proof.
  intros Hop Hsl Hms Hok a Hroom Hb Hn.
  assert (serves (mkServer s ∅ 0) base top (mkService Bs ∅ 0)) as S.
  { split; cbn; rewrite ?Hsl; try done; [|by intros id []].
    rewrite map_to_list_empty. split; cbn; [intros ss; rewrite lookup_empty; split; [by intros ?%not_elem_of_nil|done]|done|by intros ss ?%not_elem_of_nil|lia]. }
  destruct (serve_ok rounds fuel mfuel ms cs Hms _ base top _ S Hok) as (sv & S1 & [O1 P1] & E1); [done..|].
  unfold run_server. rewrite E1. cbn [serve req resp_channel]. rewrite !bind_Ret.
  destruct (drops_ok (drop_order (sv_snapshots sv)) (sv_db sv)) as (sl & ->); [eapply sl_inv_perm; [symmetry; apply drop_order_ok|apply S1]|]. rewrite bind_Ret.
  destruct (open_drop _ _ _ _ (is_open_snaps _ sl _ _ _ (se_open _ _ _ _ S1))) as (w & -> & He & Hl & mn & es & c & n & Im & Hm). cbn in Hl, Im, P1. rewrite P1 in Hl, Im.
  rewrite bind_Ret. exists w. split_and!; [done|done|done|]. right. by exists mn, es, c, n.
Qed.

End refinement.

(** ** Witnesses *)

Section async_witnesses.
Import TestOpen.

Lemma roomy_ops (Bs : list (list op)) :
  match memtable_adds (mentries 1 (concat Bs)) (MemTable_new (G := Z) DefaultCmp) with Ret mt => approx_mem_usage mt <? write_buffer_size TestStorage.uopts | _ => false end = true →
  roomy (G := Z) (u := DefaultCmp) TestStorage.uopts 0 Bs.
Proof. unfold roomy. destruct (memtable_adds _ _) as [mt| |]; [|done..]. intros H%Z.ltb_lt. by exists mt. Qed.

Lemma server_refines_history_witness :
  let inbox := [mkMessage (Put [97] [1]) 1; mkMessage GetSnapshot 2; mkMessage (Delete [97]) 3; mkMessage (Get [97]) 4; mkMessage (GetAt 0 [97]) 5; mkMessage Close 6; mkMessage Flush 7] in
  ∃ (s : World MemFS ra_file * DB Z w_file) w,
    run_server (EN := TestWal.EN) no_text elements TestWal.clock (λ m, (map_to_list m).*2) 0 0 0 inbox s
      = Ret (w, [(1, OK); (2, Snapshot_ 0); (3, OK); (4, Value None); (5, Value (Some [1])); (6, OK)])
    ∧ ¬ locked (w_env w) (lock_file_name "db").
Proof.
  intros inbox. destruct made as (s & S & Hp & Hr & Ho & Hs). exists s.
  destruct (server_refines_history (IEL := Reference.ref_encoding_laws) no_text elements TestWal.clock (λ m, (map_to_list m).*2) (λ m, reflexivity _)
    (u := DefaultCmp) 0 0 0 s 0 [] 5 (take 5 inbox) [CPut [97] [1]; CGetSnapshot; CDelete [97]; CGet [97]; CGetAt 0 [97]] 6 [mkMessage Flush 7] S Hs) as (w & E1 & _ & Hl & _).
  - repeat constructor.
  - repeat constructor; by_decide || done.
  - rewrite Ho. apply roomy_ops. vm_compute. reflexivity.
  - done.
  - done.
  - exists w. rewrite Hp in Hl. split; [exact E1|exact Hl].
Defined.

End async_witnesses.
